(* ===== verification/_CoqProject ===== *)
-Q . S2P
Prelude.v
Ssherr.v
Sshbuf.v
SshbufInv.v
SshbufOps.v
SshbufLife.v
SshbufGetput.v
SshbufWire.v
SshbufWire2.v
SshbufThms.v
SshbufMsg.v
Cstring.v
Base64.v
SshbufMisc.v
SshbufMiscThms.v
Words.v
Bitmap.v
BitmapThms.v
Match.v
MatchThms.v
Addr.v
AddrThms.v
AddrMatch.v
Channel.v
ByteQueue.v
ChannelIO.v
ChanLogic.v
ChanProto.v
ChanClose.v
ChanQuiet.v
ChanFlow.v
ChanPair.v
KexNames.v
KexNamesThms.v
Poly1305.v
Poly1305Thms.v
Chacha.v
ChachaPoly.v
Hmac.v
Cipher.v
SshkeyNames.v
SshState.v
Packet.v
PacketRead.v
Kex.v
PacketState.v
SshWp.v
PacketFuel.v
CipherLink.v
PacketSend.v
PacketXfer.v
KexThms.v
NewKeys.v
Handover.v
Misc.v
MiscThms.v
AbsTime.v
AbsTimeThms.v
AuthOptions.v
AuthOptionsThms.v
AuthParse.v
AuthCert.v
AuthMethods.v
AuthCtxt.v
Monitor.v
MonitorLogic.v
MonitorBlob.v
MonitorInv.v
MonitorSteps.v
MonitorAuth.v
MonitorKeys.v
MonitorMain.v
Krl.v
KrlSets.v
KrlThms.v
KrlWire.v
KrlRound.v
