(* ===== verification/Prelude.v ===== *)
(** * OpenSSH for Windows: a verification library

    The repository is the Windows packaging of OpenSSH 10.5p1; the program is
    the C code under src/src/.  This library translates parts of it into
    executable definitions and proves what makes them correct.  Every file
    requires this one, which holds what they share: machine integers, results,
    the state and error monad, byte strings, tactics and hints.

    ** The program and its parts

    Everything that crosses the wire or a process boundary is built in buffers
    (sshbuf.c, with typed access in sshbuf-getput-basic.c and conversions in
    sshbuf-misc.c).  On them stand the packet layer (packet.c), key exchange
    (kex*.c), authentication (auth*.c, monitor*.c) and the connection protocol,
    whose channels (channels.c with the state machine of nchan.c) carry the
    sessions and forwarded connections.  Access rules go through small pure
    components: wildcard and list matching (match.c), addresses (addr.c,
    addrmatch.c), bitmaps (bitmap.c, used by key revocation lists).  A packet
    goes through the ciphers and MACs (cipher.c, mac.c and the primitives below
    them) and, once decrypted, to a handler of the dispatch table (dispatch.c);
    a key exchange replaces the keys of both directions.

    ** Which file models what

    - Ssherr: the error codes of ssherr.h.
    - Sshbuf, SshbufGetput: sshbuf.c and sshbuf-getput-basic.c, every function,
      on an explicit heap: buffers and memory blocks by address, reference
      counts and parents as in struct sshbuf, and an allocator that may refuse
      any request ([h_oom]).  A NULL or out-of-bounds access and the SIGSEGV of
      sshbuf_check_sanity are [Crash].
    - SshbufInv, SshbufOps, SshbufLife, SshbufWire, SshbufWire2: the heap
      invariant (ownership, reference counts, which blocks are shared) and what
      each function does to it and to the contents, on every branch.
    - SshbufThms, SshbufMsg: theorems on sequences of calls and on messages.
    - Cstring: the C string functions the sources use, among them strsep,
      strlcpy, strlcat and strtonum of openbsd-compat.
    - Base64, SshbufMisc, SshbufMiscThms: openbsd-compat/base64.c and
      sshbuf-misc.c.
    - Words: lists of words and of bytes as numbers.  Bitmap, BitmapThms:
      bitmap.c, against bit operations on one number.
    - Match, MatchThms: match.c, against the declarative wildcard language.
    - Addr, AddrThms, AddrMatch: addr.c and addrmatch.c, with getaddrinfo and
      getnameinfo as parameters, against arithmetic on address numbers.
    - Channel: struct Channel, the connection around a channel, and nchan.c.
    - ByteQueue: the interface between buffers and channels, a class that
      sshbuf implements on its heap and the channel model by byte lists.
    - ChannelIO: the data path of channels.c: descriptors, polling, window
      accounting, incoming messages, forced close, garbage collection.
    - ChanLogic: postconditions for channel computations, and the frame of
      channel_close_fd.
    - ChanProto, ChanClose, ChanQuiet, ChanFlow, ChanPair: theorems on
      one channel and on two connected ones.
    - KexNames, KexNamesThms: kex-names.c, the lists of algorithm names.
    - Poly1305, Poly1305Thms, Chacha, ChachaPoly: poly1305.c,
      chacha.c and cipher-chachapoly.c, which the Windows build uses instead of
      libcrypto.
    - Hmac: digest-openssl.c and hmac.c; libcrypto's digests are the class
      [Digests].
    - Cipher: cipher.c and mac.c; libcrypto's ciphers, UMAC and zlib are the
      class [Crypto].
    - SshkeyNames: the tables of key types and signature algorithms of sshkey.c
      and ssh-*.c, and the functions on their names.
    - SshState: struct ssh with session_state, kex and newkeys, and what the
      environment answers.
    - Packet, PacketRead: packet.c, sending and receiving, and dispatch.c, the
      table of handlers; PacketState: the creation, configuration and
      serialisation of the packet state.
    - Kex: kex.c, with the method that computes the shared secret as a
      parameter.
    - PacketFuel, CipherLink, PacketSend, PacketXfer, SshWp, KexThms, NewKeys,
      Handover: theorems on them.  CipherLink holds the interface
      [Link] between ciphers and packets: what encryption at one end and
      decryption at the other owe each other; chacha20-poly1305 and the null
      cipher implement it, stream ciphers and GCM under the laws of libcrypto
      stated there.  SshWp holds postconditions and the connections of the
      examples.
    - Misc, MiscThms: the parsers of misc.c: tokens, hosts and ports, URIs,
      argument vectors, environments, key option syntax, expansion, timeouts.
    - AbsTime, AbsTimeThms: parse_absolute_time with openbsd-compat/strptime.c
      and bsd-timegm.c, against the Gregorian calendar; mktime is a parameter.
    - AuthOptions: auth-options.c, the options of keys and certificates.
      AuthParse: lines of options; AuthCert: certificates; AuthOptionsThms:
      merging and the encoding between processes.
    - AuthMethods: the table of authentication methods (auth2-methods.c) and the
      lists of required methods (auth2.c), with what completing a list means.
      AuthCtxt: struct Authctxt and what auth.c and auth2.c do with it; keys are
      the class [KeyOps]; and the names of GSSAPI clients (gss-serv.c).
    - Monitor: the privileged process before authentication (monitor.c, the messages of monitor_wrap.c,
      auth_password, hostbased_key_allowed); what it asks of the system is the
      class [Services], what the network process sends is any list of bytes.
    - MonitorLogic: postconditions for the monitor's computations; MonitorBlob:
      the signed data; MonitorInv: the invariant, by stages of the protocol;
      MonitorSteps, MonitorAuth, MonitorKeys: every answer keeps it;
      MonitorMain: the loop and the theorems, with a run.
    - Krl: key revocation lists (krl.c), on the bitmaps of Bitmap; a red-black
      tree of sys-tree.h is the list of its elements in order.  KrlSets: its
      sets of numbers and of strings; KrlThms: the invariant, what an operation
      adds, and which keys are refused; KrlWire, KrlRound: the encoding, read
      and written.

    ** What the theorems show

    - Buffers: no sequence of valid calls crashes, whatever allocations fail; a
      buffer is not disturbed by calls on others, nor by what happens to its
      parent; when all references are released nothing is left; typed messages,
      strings and bignums read back as written; string reading is the decoder
      of RFC 4251; appends are all or nothing; an sshbuf is a bounded queue.
    - Encodings: base64 and base16 round trips, and base64 decoding accepts
      canonical text only; search in a buffer finds the first occurrence.
    - Bitmaps behave as one number and survive the trip through a string.
    - Matching: the automaton of match_pattern decides the wildcard language;
      pattern lists, proposal lists and filters behave as documented; CIDR
      matching is agreement in the masked bits; address lists on every branch.
    - Channels: the messages of a channel obey RFC 4254 under any history of
      events; the close handshake completes and a channel is freed only after
      it; descriptors are closed exactly once; two connected ends deliver the
      bytes read, in order, and never exceed each other's window.
    - Names: an assembled algorithm list is exactly what its patterns describe.
    - Primitives: poly1305_auth with its limbs and lazy carries is the
      polynomial modulo 2^130-5; chacha20-poly1305 decrypts what it encrypted
      and nothing with another tag; an HMAC context can be reused.
    - Transport: a packet is padded within bounds, sending ends; a packet sent
      arrives intact over any segmentation of the stream and leaves both ends
      in step; a client and a server choose the same algorithms and derive the
      same keys crosswise; they switch to them in step, with the sequence
      numbers reset under strict key exchange, during which no unexpected
      message is tolerated; the state survives the handover between processes.
      Together: two ends in step stay in step from the first packet on.
    - Authorisation: a line of key options has the effects of its options in
      order; an unknown critical option disables a certificate; merged options
      permit no more than either; options survive the trip between processes;
      UTC expiry times are calendar times from 1970 on.  Argument vectors,
      host and port strings and environments read back as written.
    - Privilege separation: whatever the network process sends, the monitor's
      loop ends, and returns only for an existing user whose credentials were
      checked, meet a configured list of methods in order, have pairwise
      different keys, and may log in as root if that is the user.
    - Revocation: a key is reported as revoked exactly if a revocation that was
      made applies to it or to its authority; a list written is read as one that
      answers alike for every key, unless a bitmap in it is too large to be
      read, and such lists are written.
    - Where the code departs from its comments or its evident intent, the
      theorems say exactly how: they are of kind "error" in the manifest.

    ** Bounds, fuel and assumptions

    Integers are [Z] with the wrap-around of their C width written out; size_t
    has 64 bits.  Recursion is structural, except: sshbuf_free follows parents
    and takes as fuel the number of objects ever allocated, which bounds any
    chain of parents (run_free); match_pattern_list takes as fuel the length of
    the pattern, of which every round consumes at least one byte; the loops of
    bitmap_nbits run over the 32 bits of a word; ssh_packet_send2 and
    kex_start_rekex call each other at most twice, the queue of held packets
    bounds the loop that sends it and the room left in the output the
    compression (send2_terminates); expand_key adds a digest per round
    (expand_key_total); argv_split, percent expansion and the loops over key
    and certificate options consume a byte per round (argv_roundtrip,
    expand_returns, authorized_keys_line, cert_fail_closed), as do those over
    the sections of a revocation list (krl_roundtrip); ssh_packet_read_poll_seqnr takes input in every round
    but one, ssh_packet_read_seqnr an answer of read(2); a round of the monitor
    takes four bytes at least, so that the bytes sent bound its loop, and those
    of the log pipe the loop that drains it (monitor_authenticates).  ssh_dispatch_run goes
    on while the peer sends: its fuel is the number of packets.  A connection's
    buffers are byte lists: every access is an sshbuf call, shown to behave so
    (ByteQueue, SshbufMsg).  Nothing is assumed: code outside the repository
    (libcrypto, zlib, the resolver, callbacks registered by function pointer,
    the answers of the operating system) is an argument of the definitions, and
    hypotheses on it are part of the statements.

    ** Not modelled

    The key exchange methods (their shared secrets come from libcrypto or
    vendored code), the identification exchange, keys and certificates but
    for their options, the network process's side of authentication, the
    monitor after authentication, sessions, configuration, the client programs,
    file transfer, the agent and the key tools; of packet.c addresses, sockets
    and statistics; of channels.c the channel table, listeners, forwarding
    permissions, SOCKS, X11 and multiplexing.  The Windows layer rests on an API
    outside the repository.  sshbuf_dump and bitmap_free have no observable
    result; of misc.c descriptors, processes, file checks and intervals in
    floating point.  Logging calls are left out everywhere.

    ** Plan

    Next: the identification exchange of kex.c, per-source
    penalties (srclimit.c), terminal modes, the channel table and forwarding
    permissions. *)

From stdpp Require Export base tactics list option gmap strings.
From Stdlib Require Export ZArith Lia Bool.

#[export] Set Default Goal Selector "!".
#[export] Set Warnings "-clear-no-such-hyp".

Open Scope Z_scope.

(** ** Machine integers

    Unsigned C integers of width [w] are [Z] values reduced modulo [2^w];
    [size_t] is 64 bits wide (the x64 and ARM64 packages). *)

Definition wrap (w x : Z) : Z := x mod 2 ^ w.

Abbreviation u8 := (wrap 8).
Abbreviation u16 := (wrap 16).
Abbreviation u32 := (wrap 32).
Abbreviation u64 := (wrap 64).
Abbreviation sizet := (wrap 64).

(** Two's-complement reading of the low [w] bits: casts to signed types. *)
Definition swrap (w x : Z) : Z := (x + 2 ^ (w - 1)) mod 2 ^ w - 2 ^ (w - 1).

Abbreviation i8 := (swrap 8).
Abbreviation i32 := (swrap 32).
Abbreviation i64 := (swrap 64).

Definition UINT_MAX : Z := 2 ^ 32 - 1.
Definition UINT64_MAX : Z := 2 ^ 64 - 1.
Definition SIZE_MAX : Z := 2 ^ 64 - 1.


Lemma wrap_small w x : 0 <= x < 2 ^ w -> wrap w x = x.
Proof. apply Z.mod_small. Qed.

Lemma wrap_range w x : 0 <= w -> 0 <= wrap w x < 2 ^ w.
Proof. intros. apply Z.mod_pos_bound, Z.pow_pos_nonneg; lia. Qed.

Lemma wrap_idem w x : wrap w (wrap w x) = wrap w x.
Proof. apply Zmod_mod. Qed.

Lemma swrap_small w x : 0 < w -> - 2 ^ (w - 1) <= x < 2 ^ (w - 1) -> swrap w x = x.
Proof.
  intros Hw Hx. unfold swrap.
  assert (2 ^ w = 2 * 2 ^ (w - 1)) as E
    by (rewrite <- Z.pow_succ_r by lia; f_equal; lia).
  rewrite Z.mod_small; lia.
Qed.

(** ** Results

    [Ok] is a successful return, [Err e] a return of the negative error code
    [e], [Crash] the end of the process: a raised SIGSEGV or an access outside
    live memory (undefined behaviour in C). *)

Inductive res (A : Type) : Type :=
| Ok (a : A)
| Err (e : Z)
| Crash.
Arguments Ok {A} a.
Arguments Err {A} e.
Arguments Crash {A}.

#[export] Instance res_eq_dec {A} `{EqDecision A} : EqDecision (res A).
Proof. solve_decision. Defined.

Definition is_ok {A} (r : res A) : bool := if r is Ok _ then true else false.
Definition is_crash {A} (r : res A) : bool := if r is Crash then true else false.

(** ** The state and error monad of the C code

    A computation threads a state of type [S]; an error return keeps the
    changes made before it, as in C. *)

Definition M (S A : Type) : Type := S -> res A * S.

#[export] Instance M_ret {S} : MRet (M S) := fun A a s => (Ok a, s).
#[export] Instance M_bind {S} : MBind (M S) := fun A B (k : A -> M S B) (m : M S A) s =>
  match m s with
  | (Ok a, s') => k a s'
  | (Err e, s') => (Err e, s')
  | (Crash, s') => (Crash, s')
  end.

#[export] Instance M_fmap {S} : FMap (M S) := fun A B (f : A -> B) (m : M S A) =>
  m ≫= (fun a => mret (f a)).

Definition throw {S A} (e : Z) : M S A := fun s => (Err e, s).
Definition crash {S A} : M S A := fun s => (Crash, s).
Definition get_st {S} : M S S := fun s => (Ok s, s).
Definition put_st {S} (s : S) : M S unit := fun _ => (Ok tt, s).
Definition gets {S A} (f : S -> A) : M S A := fun s => (Ok (f s), s).

(** [catch m k]: the C idiom [if ((r = m) != 0) k r], where [k] sees the
    error code; a success goes through. *)
Definition catch {S A} (m : M S A) (k : Z -> M S A) : M S A := fun s =>
  match m s with
  | (Err e, s') => k e s'
  | r => r
  end.

(** [check b e]: the early return [if (!b) return e]. *)
Definition check {S} (b : bool) (e : Z) : M S unit :=
  if b then mret tt else throw e.

(** [try_ m]: run [m] and hand its outcome to the caller as a value. *)
Definition try_ {S A} (m : M S A) : M S (sum Z A) := fun s =>
  match m s with
  | (Ok a, s') => (Ok (inr a), s')
  | (Err e, s') => (Ok (inl e), s')
  | (Crash, s') => (Crash, s')
  end.

Section MonadLemmas.
Context {S A B : Type}.
Implicit Types (m : M S A) (k : A -> M S B) (s : S).

Lemma bind_ok m k s a s' : m s = (Ok a, s') -> (m ≫= k) s = k a s'.
Proof. intros H. unfold mbind, M_bind. by rewrite H. Qed.

Lemma bind_err m k s e s' : m s = (Err e, s') -> (m ≫= k) s = (Err e, s').
Proof. intros H. unfold mbind, M_bind. by rewrite H. Qed.

Lemma bind_crash m k s s' : m s = (Crash, s') -> (m ≫= k) s = (Crash, s').
Proof. intros H. unfold mbind, M_bind. by rewrite H. Qed.

Lemma bind_inv_ok m k s b s'' :
  (m ≫= k) s = (Ok b, s'') -> exists a s', m s = (Ok a, s') /\ k a s' = (Ok b, s'').
Proof.
  unfold mbind, M_bind. destruct (m s) as [[a|e|] s'] eqn:E; intros H; simplify_eq.
  eauto.
Qed.
End MonadLemmas.

(** Steps a computation whose outcome on the current state is known. *)
Ltac mstep H := first
  [ rewrite (bind_ok _ _ _ _ _ H)
  | rewrite (bind_err _ _ _ _ _ H)
  | rewrite (bind_crash _ _ _ _ _ H) ].

(** [lia] with quotients and remainders by constants. *)
Ltac dlia := Z.to_euclidean_division_equations; lia.

(** Turns boolean comparisons in the context and the goal into [Prop]. *)
Ltac zbool :=
  repeat match goal with
  | H : (_ && _)%bool = true |- _ => apply andb_true_iff in H as [? ?]
  | H : (_ && _)%bool = false |- _ => apply andb_false_iff in H
  | H : (_ || _)%bool = false |- _ => apply orb_false_iff in H as [? ?]
  | H : (_ || _)%bool = true |- _ => apply orb_true_iff in H
  | H : negb _ = true |- _ => apply negb_true_iff in H
  | H : negb _ = false |- _ => apply negb_false_iff in H
  | H : (_ <? _) = true |- _ => apply Z.ltb_lt in H
  | H : (_ <? _) = false |- _ => apply Z.ltb_ge in H
  | H : (_ <=? _) = true |- _ => apply Z.leb_le in H
  | H : (_ <=? _) = false |- _ => apply Z.leb_gt in H
  | H : (_ =? _) = true |- _ => apply Z.eqb_eq in H
  | H : (_ =? _) = false |- _ => apply Z.eqb_neq in H
  | H : (_ >? _) = _ |- _ => rewrite Z.gtb_ltb in H
  | H : (_ >=? _) = _ |- _ => rewrite Z.geb_leb in H
  end.

(** ** Bytes and byte strings *)

Definition byte_ok (b : Z) : Prop := 0 <= b < 256.
Definition bytes_ok (l : list Z) : Prop := Forall byte_ok l.

Definition byte_okb (b : Z) : bool := (0 <=? b) && (b <? 256).

Definition zlen {A} (l : list A) : Z := Z.of_nat (length l).

Lemma zlen_nonneg {A} (l : list A) : 0 <= zlen l.
Proof. unfold zlen. lia. Qed.

Lemma zlen_app {A} (l k : list A) : zlen (l ++ k) = zlen l + zlen k.
Proof. unfold zlen. rewrite length_app. lia. Qed.

Lemma zlen_cons {A} (x : A) l : zlen (x :: l) = 1 + zlen l.
Proof. unfold zlen. cbn [length]. lia. Qed.

Lemma zlen_nil {A} : zlen (@nil A) = 0.
Proof. reflexivity. Qed.

(** Disjoint bit fields. *)
Lemma land_shifted a b k : 0 <= k -> 0 <= b < 2 ^ k -> Z.land (Z.shiftl a k) b = 0.
Proof.
  intros Hk Hb. destruct (Z.eq_dec b 0) as [->|Hb0]; [apply Z.land_0_r|].
  apply Z.bits_inj'. intros n Hn. rewrite Z.land_spec, Z.bits_0.
  destruct (Z.lt_ge_cases n k).
  - by rewrite Z.shiftl_spec_low.
  - rewrite (Z.bits_above_log2 b n), andb_false_r; [done|lia|].
    apply Z.lt_le_trans with k; [|lia]. apply Z.log2_lt_pow2; lia.
Qed.

Lemma lor_shifted a b k : 0 <= k -> 0 <= b < 2 ^ k -> Z.lor (Z.shiftl a k) b = a * 2 ^ k + b.
Proof.
  intros Hk Hb. rewrite <- Z.shiftl_mul_pow2 by lia.
  pose proof (Z.add_lor_land (Z.shiftl a k) b). rewrite land_shifted in * by done. lia.
Qed.

Lemma land_255 x : Z.land x 0xff = x mod 256.
Proof. change 0xff with (Z.ones 8). by rewrite Z.land_ones. Qed.

Lemma byte_land_255 x : byte_ok (Z.land x 0xff).
Proof. rewrite land_255. unfold byte_ok. pose proof (Z.mod_pos_bound x 256). lia. Qed.

(** The bytes of an ASCII string literal, without the terminating NUL. *)
Fixpoint str (s : string) : list Z :=
  match s with
  | EmptyString => []
  | String a s' => Z.of_N (Ascii.N_of_ascii a) :: str s'
  end.

(** The code of a character, written as a string of length one. *)
Definition chr (s : string) : Z := nth 0 (str s) 0.

(** [slice l o n]: the [n] bytes of [l] that start at offset [o]. *)
Definition slice (l : list Z) (o n : Z) : list Z :=
  take (Z.to_nat n) (drop (Z.to_nat o) l).

(** [splice l o bs]: [l] with the bytes at offset [o] overwritten by [bs]. *)
Definition splice (l : list Z) (o : Z) (bs : list Z) : list Z :=
  take (Z.to_nat o) l ++ bs ++ drop (Z.to_nat o + length bs) l.

Definition zeros (n : Z) : list Z := replicate (Z.to_nat n) 0.

(** [l[i]] with the out-of-range read made explicit. *)
Definition znth (l : list Z) (i : Z) : option Z :=
  if i <? 0 then None else l !! Z.to_nat i.

Section Slices.
Implicit Types (l bs : list Z) (o n i : Z).

Lemma zlen_slice l o n : 0 <= o -> 0 <= n -> o + n <= zlen l -> zlen (slice l o n) = n.
Proof. unfold zlen, slice. intros. rewrite length_take, length_drop. lia. Qed.

Lemma zlen_splice l o bs :
  0 <= o -> o + zlen bs <= zlen l -> zlen (splice l o bs) = zlen l.
Proof.
  unfold zlen, splice. intros.
  rewrite !length_app, length_take, length_drop. lia.
Qed.

Lemma zlen_zeros n : 0 <= n -> zlen (zeros n) = n.
Proof. unfold zlen, zeros. intros. rewrite length_replicate. lia. Qed.

Lemma slice_0 l o : slice l o 0 = [].
Proof. reflexivity. Qed.

Lemma slice_full l : slice l 0 (zlen l) = l.
Proof. unfold slice, zlen. rewrite drop_0, Nat2Z.id. apply take_ge. lia. Qed.

Lemma slice_app l o n m :
  0 <= o -> 0 <= n -> 0 <= m -> slice l o (n + m) = slice l o n ++ slice l (o + n) m.
Proof.
  intros. unfold slice. rewrite !Z2Nat.inj_add by lia.
  rewrite <- (take_take_drop (drop (Z.to_nat o) l)), drop_drop. done.
Qed.

Lemma slice_slice l o n o' n' :
  0 <= o -> 0 <= o' -> 0 <= n' -> o' + n' <= n ->
  slice (slice l o n) o' n' = slice l (o + o') n'.
Proof.
  intros. unfold slice.
  rewrite skipn_firstn_comm, take_take, drop_drop.
  f_equal; [lia|]. f_equal. lia.
Qed.

(** Reading back what was written. *)
Lemma slice_splice_same l o bs :
  0 <= o -> o + zlen bs <= zlen l -> slice (splice l o bs) o (zlen bs) = bs.
Proof.
  unfold slice, splice, zlen. intros.
  rewrite drop_app_length' by (rewrite length_take; lia).
  rewrite take_app_length' by lia. done.
Qed.

Lemma slice_splice_before l o bs o' n' :
  0 <= o' -> 0 <= n' -> o' + n' <= o -> o + zlen bs <= zlen l ->
  slice (splice l o bs) o' n' = slice l o' n'.
Proof.
  unfold slice, splice, zlen. intros.
  rewrite drop_app_le by (rewrite length_take; lia).
  rewrite take_app_le by (rewrite length_drop, length_take; lia).
  rewrite skipn_firstn_comm, take_take. f_equal. lia.
Qed.

Lemma slice_splice_after l o bs o' n' :
  0 <= o -> o + zlen bs <= o' -> o + zlen bs <= zlen l ->
  slice (splice l o bs) o' n' = slice l o' n'.
Proof.
  unfold slice, splice, zlen. intros.
  rewrite drop_app_ge by (rewrite length_take; lia).
  rewrite drop_app_ge by (rewrite length_take; lia).
  rewrite drop_drop. do 2 f_equal. rewrite length_take. lia.
Qed.

Lemma slice_app_l l k o n : 0 <= o -> 0 <= n -> o + n <= zlen l -> slice (l ++ k) o n = slice l o n.
Proof.
  unfold slice, zlen. intros. rewrite drop_app_le by lia.
  apply take_app_le. rewrite length_drop. lia.
Qed.

Lemma take_slice l o n m : 0 <= m <= n -> take (Z.to_nat m) (slice l o n) = slice l o m.
Proof. intros. unfold slice. rewrite take_take. f_equal. lia. Qed.

Lemma drop_slice l o n m : 0 <= o -> 0 <= m <= n ->
  drop (Z.to_nat m) (slice l o n) = slice l (o + m) (n - m).
Proof.
  intros. unfold slice. rewrite skipn_firstn_comm, drop_drop. f_equal; [lia|]. f_equal. lia.
Qed.

(** A window around an overwritten part. *)
Lemma slice_splice_in l a n o bs :
  0 <= a -> 0 <= o -> o + zlen bs <= n -> a + n <= zlen l ->
  slice (splice l (a + o) bs) a n = splice (slice l a n) o bs.
Proof.
  intros. pose proof (zlen_nonneg bs).
  replace n with (o + (zlen bs + (n - o - zlen bs))) at 1 by lia.
  rewrite !slice_app by lia.
  rewrite slice_splice_before, slice_splice_same, slice_splice_after by lia.
  unfold splice. rewrite take_slice by lia. f_equal. f_equal.
  replace (Z.to_nat o + length bs)%nat with (Z.to_nat (o + zlen bs)) by (unfold zlen; lia).
  rewrite drop_slice by lia. f_equal; lia.
Qed.

Lemma splice_app_exact l fill bs :
  zlen bs = zlen fill -> splice (l ++ fill) (zlen l) bs = l ++ bs.
Proof.
  unfold splice, zlen. intros. rewrite Nat2Z.id, take_app_length.
  rewrite drop_ge by (rewrite length_app; lia). by rewrite app_nil_r.
Qed.

(** Filling a reserved tail in two steps: header, then payload. *)
Lemma splice_app_two l fill hd tl :
  zlen hd + zlen tl = zlen fill ->
  splice (splice (l ++ fill) (zlen l) hd) (zlen l + zlen hd) tl = l ++ hd ++ tl.
Proof.
  unfold splice, zlen. intros.
  rewrite !Z2Nat.inj_add, !Nat2Z.id by lia.
  rewrite take_app_length, drop_app_ge by lia.
  rewrite take_app_ge by lia. replace (length l + length hd - length l)%nat with (length hd) by lia.
  rewrite take_app_length, drop_ge by (rewrite !length_app, length_drop; lia).
  by rewrite app_nil_r, app_assoc.
Qed.

Lemma slice_prefix l k : slice (l ++ k) 0 (zlen l) = l.
Proof. rewrite slice_app_l by (pose proof (zlen_nonneg l); lia). apply slice_full. Qed.

Lemma slice_second l k m : slice (l ++ k ++ m) (zlen l) (zlen k) = k.
Proof.
  unfold slice, zlen. rewrite !Nat2Z.id, drop_app_length, take_app_length. done.
Qed.

Lemma drop_zlen l k : drop (Z.to_nat (zlen l)) (l ++ k) = k.
Proof. unfold zlen. rewrite Nat2Z.id. apply drop_app_length. Qed.

Lemma slice_cons_0 x l n : 0 < n -> slice (x :: l) 0 n = x :: slice l 0 (n - 1).
Proof.
  intros. unfold slice. rewrite Z2Nat.inj_0, !drop_0.
  replace (Z.to_nat n) with (S (Z.to_nat (n - 1))) by lia. done.
Qed.

Lemma bytes_ok_slice l o n : bytes_ok l -> bytes_ok (slice l o n).
Proof. intros. by apply Forall_take, Forall_drop. Qed.

Lemma bytes_ok_app l k : bytes_ok (l ++ k) <-> bytes_ok l /\ bytes_ok k.
Proof. apply Forall_app. Qed.

Lemma bytes_ok_splice l o bs : bytes_ok l -> bytes_ok bs -> bytes_ok (splice l o bs).
Proof.
  intros. unfold splice. rewrite !bytes_ok_app. split_and!; [|done|].
  - by apply Forall_take.
  - by apply Forall_drop.
Qed.

Lemma bytes_ok_zeros n : bytes_ok (zeros n).
Proof. apply Forall_replicate. unfold byte_ok. lia. Qed.
End Slices.

Create HintDb cbytes.
#[export] Hint Resolve zlen_nonneg bytes_ok_slice bytes_ok_splice bytes_ok_zeros : cbytes.
Create Rewrite HintDb zlen_db.
#[export] Hint Rewrite @zlen_app @zlen_cons @zlen_nil : zlen_db.
