(* ===== verification/Ssherr.v ===== *)
(** * Error codes: [ssherr.h]

    The negative return values shared by the library code. *)

From S2P Require Import Prelude.

Definition SSH_ERR_SUCCESS := 0.
Definition SSH_ERR_INTERNAL_ERROR := -1.
Definition SSH_ERR_ALLOC_FAIL := -2.
Definition SSH_ERR_MESSAGE_INCOMPLETE := -3.
Definition SSH_ERR_INVALID_FORMAT := -4.
Definition SSH_ERR_BIGNUM_IS_NEGATIVE := -5.
Definition SSH_ERR_STRING_TOO_LARGE := -6.
Definition SSH_ERR_BIGNUM_TOO_LARGE := -7.
Definition SSH_ERR_ECPOINT_TOO_LARGE := -8.
Definition SSH_ERR_NO_BUFFER_SPACE := -9.
Definition SSH_ERR_INVALID_ARGUMENT := -10.
Definition SSH_ERR_KEY_BITS_MISMATCH := -11.
Definition SSH_ERR_EC_CURVE_INVALID := -12.
Definition SSH_ERR_KEY_TYPE_MISMATCH := -13.
Definition SSH_ERR_KEY_TYPE_UNKNOWN := -14.
Definition SSH_ERR_EC_CURVE_MISMATCH := -15.
Definition SSH_ERR_EXPECTED_CERT := -16.
Definition SSH_ERR_KEY_LACKS_CERTBLOB := -17.
Definition SSH_ERR_KEY_CERT_UNKNOWN_TYPE := -18.
Definition SSH_ERR_KEY_CERT_INVALID_SIGN_KEY := -19.
Definition SSH_ERR_KEY_INVALID_EC_VALUE := -20.
Definition SSH_ERR_SIGNATURE_INVALID := -21.
Definition SSH_ERR_LIBCRYPTO_ERROR := -22.
Definition SSH_ERR_UNEXPECTED_TRAILING_DATA := -23.
Definition SSH_ERR_SYSTEM_ERROR := -24.
Definition SSH_ERR_KEY_CERT_INVALID := -25.
Definition SSH_ERR_AGENT_COMMUNICATION := -26.
Definition SSH_ERR_AGENT_FAILURE := -27.
Definition SSH_ERR_DH_GEX_OUT_OF_RANGE := -28.
Definition SSH_ERR_DISCONNECTED := -29.
Definition SSH_ERR_MAC_INVALID := -30.
Definition SSH_ERR_NO_CIPHER_ALG_MATCH := -31.
Definition SSH_ERR_NO_MAC_ALG_MATCH := -32.
Definition SSH_ERR_NO_COMPRESS_ALG_MATCH := -33.
Definition SSH_ERR_NO_KEX_ALG_MATCH := -34.
Definition SSH_ERR_NO_HOSTKEY_ALG_MATCH := -35.
Definition SSH_ERR_NO_HOSTKEY_LOADED := -36.
Definition SSH_ERR_PROTOCOL_MISMATCH := -37.
Definition SSH_ERR_NO_PROTOCOL_VERSION := -38.
Definition SSH_ERR_NEED_REKEY := -39.
Definition SSH_ERR_PASSPHRASE_TOO_SHORT := -40.
Definition SSH_ERR_FILE_CHANGED := -41.
Definition SSH_ERR_KEY_UNKNOWN_CIPHER := -42.
Definition SSH_ERR_KEY_WRONG_PASSPHRASE := -43.
Definition SSH_ERR_KEY_BAD_PERMISSIONS := -44.
Definition SSH_ERR_KEY_CERT_MISMATCH := -45.
Definition SSH_ERR_KEY_NOT_FOUND := -46.
Definition SSH_ERR_AGENT_NOT_PRESENT := -47.
Definition SSH_ERR_AGENT_NO_IDENTITIES := -48.
Definition SSH_ERR_BUFFER_READ_ONLY := -49.
Definition SSH_ERR_KRL_BAD_MAGIC := -50.
Definition SSH_ERR_KEY_REVOKED := -51.
Definition SSH_ERR_CONN_CLOSED := -52.
Definition SSH_ERR_CONN_TIMEOUT := -53.
Definition SSH_ERR_CONN_CORRUPT := -54.
Definition SSH_ERR_PROTOCOL_ERROR := -55.
Definition SSH_ERR_KEY_LENGTH := -56.
Definition SSH_ERR_NUMBER_TOO_LARGE := -57.
Definition SSH_ERR_SIGN_ALG_UNSUPPORTED := -58.
Definition SSH_ERR_FEATURE_UNSUPPORTED := -59.
Definition SSH_ERR_DEVICE_NOT_FOUND := -60.
Definition SSH_ERR_CRYPTO_ERROR := -61.
Definition SSH_ERR_INTERNAL_CRYPTO_ERROR := -62.
