(* ===== verification/Sshbuf.v ===== *)
(** * The buffer: [sshbuf.c]

    Buffers live in a heap of [struct sshbuf] objects and data blocks, so that
    the parent/child sharing of [sshbuf_fromb] and [sshbuf_froms] and the
    reference counts that keep shared data alive are part of the model. *)

From S2P Require Import Prelude Ssherr.

Definition SSHBUF_SIZE_MAX := 0x8000000.
Definition SSHBUF_REFS_MAX := 0x100000.
Definition SSHBUF_SIZE_INIT := 256.
Definition SSHBUF_SIZE_INC := 256.
Definition SSHBUF_PACK_MIN := 8192.

Definition ROUNDUP (x y : Z) : Z := sizet (sizet (x + (y - 1)) / y * y).

(** A data pointer: a block and an offset into it. [NULL] is [None] where the
    code allows it. *)
Abbreviation ptr := (nat * Z)%type.

(** A [struct sshbuf *]. *)
Abbreviation bufp := nat.

Record sshbuf := mk_sshbuf {
  sb_d : option ptr;
  sb_cd : option ptr;
  sb_off : Z;
  sb_size : Z;
  sb_max_size : Z;
  sb_alloc : Z;
  sb_readonly : bool;
  sb_refcount : Z;
  sb_parent : option bufp
}.

(** The C heap: the live buffer structures, the live data blocks, the next
    fresh address, the allocator's behaviour (the [n]-th request fails when
    [h_oom n]) and the page size. *)
Record heap := mk_heap {
  h_bufs : gmap nat sshbuf;
  h_mem : gmap nat (list Z);
  h_next : nat;
  h_tick : nat;
  h_oom : nat -> bool;
  h_pagesize : Z
}.

Abbreviation HM := (M heap).

Definition set_bufs (f : gmap nat sshbuf -> gmap nat sshbuf) (h : heap) : heap :=
  mk_heap (f (h_bufs h)) (h_mem h) (h_next h) (h_tick h) (h_oom h) (h_pagesize h).
Definition set_mem (f : gmap nat (list Z) -> gmap nat (list Z)) (h : heap) : heap :=
  mk_heap (h_bufs h) (f (h_mem h)) (h_next h) (h_tick h) (h_oom h) (h_pagesize h).
Definition set_next (h : heap) : heap :=
  mk_heap (h_bufs h) (h_mem h) (S (h_next h)) (h_tick h) (h_oom h) (h_pagesize h).
Definition set_tick (h : heap) : heap :=
  mk_heap (h_bufs h) (h_mem h) (h_next h) (S (h_tick h)) (h_oom h) (h_pagesize h).

(** ** C memory: allocation, copies *)

(** One request to the allocator: [false] when it fails. *)
Definition alloc_ok : HM bool := fun h => (Ok (negb (h_oom h (h_tick h))), set_tick h).

(** [malloc]/[calloc] of a data block holding [bs]. *)
Definition add_block (bs : list Z) : HM nat := fun h =>
  (Ok (h_next h), set_next (set_mem <[h_next h := bs]> h)).

Definition new_block (bs : list Z) : HM (option nat) :=
  ok ← alloc_ok;
  if (ok : bool) then Some <$> add_block bs else mret None.

(** [free]: of the start of a live block only. *)
Definition free_block (p : ptr) : HM unit := fun h =>
  match h_mem h !! p.1 with
  | Some _ => if p.2 =? 0 then (Ok tt, set_mem (delete p.1) h) else (Crash, h)
  | None => (Crash, h)
  end.

(** Reads and writes stop the program outside live blocks. *)
Definition load (p : ptr) (n : Z) : HM (list Z) := fun h =>
  match h_mem h !! p.1 with
  | Some l => if (0 <=? p.2) && (0 <=? n) && (p.2 + n <=? zlen l)
              then (Ok (slice l p.2 n), h) else (Crash, h)
  | None => (Crash, h)
  end.

Definition store (p : ptr) (bs : list Z) : HM unit := fun h =>
  match h_mem h !! p.1 with
  | Some l => if (0 <=? p.2) && (p.2 + zlen bs <=? zlen l)
              then (Ok tt, set_mem <[p.1 := splice l p.2 bs]> h) else (Crash, h)
  | None => (Crash, h)
  end.

Definition ptr_add (p : ptr) (n : Z) : ptr := (p.1, p.2 + n).

(** [freezero]: clear, then free; nothing on [NULL]. *)
Definition freezero (p : option ptr) (sz : Z) : HM unit :=
  match p with
  | None => mret tt
  | Some p => store p (zeros sz);; free_block p
  end.

Definition MUL_NO_OVERFLOW : Z := 2 ^ 32.

(** [recallocarray] of openbsd-compat. A small shrink clears the tail and keeps
    the block; otherwise a new block gets the old contents, zero-filled, and
    the old one is cleared and freed. *)
Definition recallocarray (p : option ptr) (oldnmemb newnmemb size : Z) : HM (option ptr) :=
  match p with
  | None => (fmap (fun b => (b, 0))) <$> new_block (zeros (newnmemb * size))
  | Some p =>
  if ((newnmemb >=? MUL_NO_OVERFLOW) || (size >=? MUL_NO_OVERFLOW)) &&
     (newnmemb >? 0) && (SIZE_MAX / newnmemb <? size)
  then mret None
  else
  let newsize := sizet (newnmemb * size) in
  if ((oldnmemb >=? MUL_NO_OVERFLOW) || (size >=? MUL_NO_OVERFLOW)) &&
     (oldnmemb >? 0) && (SIZE_MAX / oldnmemb <? size)
  then mret None
  else
  let oldsize := sizet (oldnmemb * size) in
  pagesize ← gets h_pagesize;
  if (newsize <=? oldsize) &&
     (oldsize - newsize <? oldsize / 2) && (oldsize - newsize <? pagesize)
  then
    store (ptr_add p newsize) (zeros (oldsize - newsize));;
    mret (Some p)
  else
    ok ← alloc_ok;
    if negb ok then mret None
    else
      bs ← (if newsize >? oldsize
            then old ← load p oldsize; mret (old ++ zeros (newsize - oldsize))
            else load p newsize);
      b ← add_block bs;
      store p (zeros oldsize);;
      free_block p;;
      mret (Some (b, 0))
  end.

(** ** Access to the structure *)

Definition deref (b : bufp) : HM sshbuf := fun h =>
  match h_bufs h !! b with
  | Some s => (Ok s, h)
  | None => (Crash, h)
  end.

Definition assign (b : bufp) (s : sshbuf) : HM unit := fun h =>
  (Ok tt, set_bufs <[b := s]> h).

Definition with_off (o : Z) (s : sshbuf) : sshbuf :=
  mk_sshbuf (sb_d s) (sb_cd s) o (sb_size s) (sb_max_size s) (sb_alloc s)
    (sb_readonly s) (sb_refcount s) (sb_parent s).
Definition with_size (n : Z) (s : sshbuf) : sshbuf :=
  mk_sshbuf (sb_d s) (sb_cd s) (sb_off s) n (sb_max_size s) (sb_alloc s)
    (sb_readonly s) (sb_refcount s) (sb_parent s).
Definition with_max_size (n : Z) (s : sshbuf) : sshbuf :=
  mk_sshbuf (sb_d s) (sb_cd s) (sb_off s) (sb_size s) n (sb_alloc s)
    (sb_readonly s) (sb_refcount s) (sb_parent s).
Definition with_data (p : option ptr) (n : Z) (s : sshbuf) : sshbuf :=
  mk_sshbuf p p (sb_off s) (sb_size s) (sb_max_size s) n
    (sb_readonly s) (sb_refcount s) (sb_parent s).
Definition with_refcount (n : Z) (s : sshbuf) : sshbuf :=
  mk_sshbuf (sb_d s) (sb_cd s) (sb_off s) (sb_size s) (sb_max_size s) (sb_alloc s)
    (sb_readonly s) n (sb_parent s).
Definition with_parent (p : option bufp) (s : sshbuf) : sshbuf :=
  mk_sshbuf (sb_d s) (sb_cd s) (sb_off s) (sb_size s) (sb_max_size s) (sb_alloc s)
    (sb_readonly s) (sb_refcount s) p.

Definition modify_buf (b : bufp) (f : sshbuf -> sshbuf) : HM unit :=
  s ← deref b; assign b (f s).

(** ** [sshbuf.c] *)

(** The test of [sshbuf_check_sanity] on a buffer at address [self]. *)
Definition sane (self : bufp) (s : sshbuf) : bool :=
  negb ((negb (sb_readonly s) && bool_decide (sb_d s <> sb_cd s)) ||
        bool_decide (sb_parent s = Some self) ||
        (sb_refcount s <? 1) || (sb_refcount s >? SSHBUF_REFS_MAX) ||
        bool_decide (sb_cd s = None) ||
        (sb_max_size s >? SSHBUF_SIZE_MAX) ||
        (sb_alloc s >? sb_max_size s) ||
        (sb_size s >? sb_alloc s) ||
        (sb_off s >? sb_size s)).

(** A failed check raises SIGSEGV with the default disposition: the process
    ends there, so the callers' branches on a non-zero return are not taken. *)
Definition sshbuf_check_sanity (buf : option bufp) : HM unit :=
  match buf with
  | None => crash
  | Some b => s ← deref b; if sane b s then mret tt else crash
  end.

Definition sshbuf_maybe_pack (buf : bufp) (force : bool) : HM unit :=
  s ← deref buf;
  if (sb_off s =? 0) || sb_readonly s || (sb_refcount s >? 1) then mret tt
  else if force || ((sb_off s >=? SSHBUF_PACK_MIN) && (sb_off s >=? sb_size s / 2)) then
    match sb_d s with
    | None => crash
    | Some d =>
        bs ← load (ptr_add d (sb_off s)) (sizet (sb_size s - sb_off s));
        store d bs;;
        assign buf (with_off 0 (with_size (sizet (sb_size s - sb_off s)) s))
    end
  else mret tt.

(** [calloc] of the structure itself. *)
Definition add_buf (s : sshbuf) : HM bufp := fun h =>
  (Ok (h_next h), set_next (set_bufs <[h_next h := s]> h)).

Definition new_buf (s : sshbuf) : HM (option bufp) :=
  ok ← alloc_ok;
  if (ok : bool) then Some <$> add_buf s else mret None.

Definition free_buf (b : bufp) : HM unit := fun h =>
  match h_bufs h !! b with
  | Some _ => (Ok tt, set_bufs (delete b) h)
  | None => (Crash, h)
  end.

Definition sshbuf_new : HM (option bufp) :=
  ret ← new_buf (mk_sshbuf None None 0 0 SSHBUF_SIZE_MAX SSHBUF_SIZE_INIT false 1 None);
  match ret with
  | None => mret None
  | Some b =>
      nb ← new_block (zeros SSHBUF_SIZE_INIT);
      match nb with
      | None => free_buf b;; mret None
      | Some blk =>
          modify_buf b (with_data (Some (blk, 0)) SSHBUF_SIZE_INIT);;
          mret (Some b)
      end
  end.

Definition sshbuf_from (blob : option ptr) (len : Z) : HM (option bufp) :=
  if bool_decide (blob = None) || (len >? SSHBUF_SIZE_MAX) then mret None
  else new_buf (mk_sshbuf None blob 0 len len len true 1 None).

Definition sshbuf_set_parent (child par : bufp) : HM unit :=
  sshbuf_check_sanity (Some child);;
  sshbuf_check_sanity (Some par);;
  c ← deref child;
  if (bool_decide (sb_parent c <> None) && bool_decide (sb_parent c <> Some par)) ||
     bool_decide (child = par)
  then throw SSH_ERR_INTERNAL_ERROR
  else
    modify_buf child (with_parent (Some par));;
    modify_buf par (fun p => with_refcount (u32 (sb_refcount p + 1)) p).

Definition sshbuf_len (buf : bufp) : HM Z :=
  sshbuf_check_sanity (Some buf);;
  s ← deref buf;
  mret (sizet (sb_size s - sb_off s)).

Definition sshbuf_avail (buf : bufp) : HM Z :=
  sshbuf_check_sanity (Some buf);;
  s ← deref buf;
  if sb_readonly s || (sb_refcount s >? 1) then mret 0
  else mret (sizet (sb_max_size s - sizet (sb_size s - sb_off s))).

Definition sshbuf_ptr (buf : bufp) : HM (option ptr) :=
  sshbuf_check_sanity (Some buf);;
  s ← deref buf;
  mret ((fun p => ptr_add p (sb_off s)) <$> sb_cd s).

Definition sshbuf_mutable_ptr (buf : bufp) : HM (option ptr) :=
  sshbuf_check_sanity (Some buf);;
  s ← deref buf;
  if sb_readonly s || (sb_refcount s >? 1) then mret None
  else mret ((fun p => ptr_add p (sb_off s)) <$> sb_d s).

(** [sshbuf_free] recurses along the parent pointers; [fuel] bounds the length
    of the chain (the number of live buffers is always enough). *)
Fixpoint sshbuf_free_fuel (fuel : nat) (buf : option bufp) : HM unit :=
  match buf with
  | None => mret tt
  | Some b =>
    match fuel with
    | O => crash
    | S fuel =>
      sshbuf_check_sanity buf;;
      modify_buf b (fun s => with_refcount (u32 (sb_refcount s - 1)) s);;
      s ← deref b;
      if sb_refcount s >? 0 then mret tt
      else
        sshbuf_free_fuel fuel (sb_parent s);;
        modify_buf b (with_parent None);;
        s ← deref b;
        (if sb_readonly s then mret tt else freezero (sb_d s) (sb_alloc s));;
        free_buf b
    end
  end.

Definition sshbuf_free (buf : option bufp) : HM unit :=
  n ← gets h_next; sshbuf_free_fuel (S n) buf.

Definition sshbuf_fromb (buf : bufp) : HM (option bufp) :=
  sshbuf_check_sanity (Some buf);;
  p ← sshbuf_ptr buf;
  n ← sshbuf_len buf;
  ret ← sshbuf_from p n;
  match ret with
  | None => mret None
  | Some c =>
      r ← try_ (sshbuf_set_parent c buf);
      match r with
      | inl _ => sshbuf_free (Some c);; mret None
      | inr _ => mret (Some c)
      end
  end.

Definition sshbuf_reset (buf : bufp) : HM unit :=
  s ← deref buf;
  if sb_readonly s || (sb_refcount s >? 1) then assign buf (with_off (sb_size s) s)
  else
    sshbuf_check_sanity (Some buf);;
    assign buf (with_off 0 (with_size 0 s));;
    (if sb_alloc s =? SSHBUF_SIZE_INIT then mret tt
     else
       nd ← recallocarray (sb_d s) (sb_alloc s) SSHBUF_SIZE_INIT 1;
       match nd with
       | Some d => modify_buf buf (with_data (Some d) SSHBUF_SIZE_INIT)
       | None => mret tt
       end);;
    s ← deref buf;
    match sb_d s with
    | None => crash
    | Some d => store d (zeros (sb_alloc s))
    end.

Definition sshbuf_max_size (buf : bufp) : HM Z := sb_max_size <$> deref buf.
Definition sshbuf_alloc (buf : bufp) : HM Z := sb_alloc <$> deref buf.
Definition sshbuf_parent (buf : bufp) : HM (option bufp) := sb_parent <$> deref buf.
Definition sshbuf_refcount (buf : bufp) : HM Z := sb_refcount <$> deref buf.

Definition sshbuf_set_max_size (buf : bufp) (max_size : Z) : HM unit :=
  sshbuf_check_sanity (Some buf);;
  s ← deref buf;
  if max_size =? sb_max_size s then mret tt
  else if sb_readonly s || (sb_refcount s >? 1) then throw SSH_ERR_BUFFER_READ_ONLY
  else if max_size >? SSHBUF_SIZE_MAX then throw SSH_ERR_NO_BUFFER_SPACE
  else
    sshbuf_maybe_pack buf (max_size <? sb_size s);;
    s ← deref buf;
    (if (max_size <? sb_alloc s) && (max_size >? sb_size s) then
       let rlen := if sb_size s <? SSHBUF_SIZE_INIT then SSHBUF_SIZE_INIT
                   else ROUNDUP (sb_size s) SSHBUF_SIZE_INC in
       let rlen := if rlen >? max_size then max_size else rlen in
       dp ← recallocarray (sb_d s) (sb_alloc s) rlen 1;
       match dp with
       | None => throw SSH_ERR_ALLOC_FAIL
       | Some dp => modify_buf buf (with_data (Some dp) rlen)
       end
     else mret tt);;
    s ← deref buf;
    if max_size <? sb_alloc s then throw SSH_ERR_NO_BUFFER_SPACE
    else modify_buf buf (with_max_size max_size).

Definition sshbuf_check_reserve (buf : bufp) (len : Z) : HM unit :=
  sshbuf_check_sanity (Some buf);;
  s ← deref buf;
  if sb_readonly s || (sb_refcount s >? 1) then throw SSH_ERR_BUFFER_READ_ONLY
  else if (len >? sb_max_size s) ||
          (sizet (sb_max_size s - len) <? sizet (sb_size s - sb_off s))
  then throw SSH_ERR_NO_BUFFER_SPACE
  else mret tt.

Definition sshbuf_allocate (buf : bufp) (len : Z) : HM unit :=
  sshbuf_check_reserve buf len;;
  s ← deref buf;
  sshbuf_maybe_pack buf (sizet (sb_size s + len) >? sb_max_size s);;
  s ← deref buf;
  if sizet (len + sb_size s) <=? sb_alloc s then mret tt
  else
    let need := sizet (sizet (len + sb_size s) - sb_alloc s) in
    let rlen := ROUNDUP (sizet (sb_alloc s + need)) SSHBUF_SIZE_INC in
    let rlen := if rlen >? sb_max_size s then sizet (sb_alloc s + need) else rlen in
    dp ← recallocarray (sb_d s) (sb_alloc s) rlen 1;
    match dp with
    | None => throw SSH_ERR_ALLOC_FAIL
    | Some dp =>
        modify_buf buf (with_data (Some dp) rlen);;
        sshbuf_check_reserve buf len
    end.

(** Returns the pointer to the first reserved byte. *)
Definition sshbuf_reserve (buf : bufp) (len : Z) : HM ptr :=
  sshbuf_allocate buf len;;
  s ← deref buf;
  match sb_d s with
  | None => crash
  | Some d =>
      modify_buf buf (with_size (sizet (sb_size s + len)));;
      mret (ptr_add d (sb_size s))
  end.

Definition sshbuf_consume (buf : bufp) (len : Z) : HM unit :=
  sshbuf_check_sanity (Some buf);;
  if len =? 0 then mret tt
  else
    n ← sshbuf_len buf;
    if len >? n then throw SSH_ERR_MESSAGE_INCOMPLETE
    else
      modify_buf buf (fun s => with_off (sizet (sb_off s + len)) s);;
      s ← deref buf;
      if sb_off s =? sb_size s then assign buf (with_off 0 (with_size 0 s))
      else mret tt.

Definition sshbuf_consume_end (buf : bufp) (len : Z) : HM unit :=
  sshbuf_check_sanity (Some buf);;
  if len =? 0 then mret tt
  else
    n ← sshbuf_len buf;
    if len >? n then throw SSH_ERR_MESSAGE_INCOMPLETE
    else modify_buf buf (fun s => with_size (sizet (sb_size s - len)) s).

(** [p < q] on data pointers; comparing pointers into different blocks is
    undefined. *)
Definition ptr_lt (p q : option ptr) : HM bool :=
  match p, q with
  | Some p, Some q => if decide (p.1 = q.1) then mret (p.2 <? q.2) else crash
  | _, _ => crash
  end.

Definition sshbuf_consume_upto_child (buf child : bufp) : HM unit :=
  sshbuf_check_sanity (Some buf);;
  sshbuf_check_sanity (Some child);;
  c ← deref child;
  if bool_decide (sb_parent c <> Some buf) then throw SSH_ERR_INVALID_ARGUMENT
  else
    nc ← sshbuf_len child;
    nb ← sshbuf_len buf;
    if nc >? nb then throw SSH_ERR_INVALID_ARGUMENT
    else
      s ← deref buf;
      lt ← ptr_lt (sb_cd c) (sb_cd s);
      if (lt : bool) then throw SSH_ERR_INTERNAL_ERROR
      else sshbuf_consume buf (sizet (nb - nc)).
