(* ===== verification/SshbufInv.v ===== *)
(** * The heap invariant of [sshbuf.c]

    What holds of every heap the buffer code builds: each structure passes
    [sshbuf_check_sanity], its data lies in a live block, a reference count is
    the number of handles the callers hold plus the number of child buffers,
    and a block written through one buffer is seen by no other. *)

From S2P Require Import Prelude Ssherr Sshbuf.

(** ** Children *)

Definition child_of (i : bufp) (kv : nat * sshbuf) : Prop := sb_parent kv.2 = Some i.

#[export] Instance child_of_dec i kv : Decision (child_of i kv).
Proof. unfold child_of. apply _. Defined.

Definition nrefs (m : gmap nat sshbuf) (i : bufp) : Z :=
  Z.of_nat (size (filter (child_of i) m)).

Lemma nrefs_nonneg m i : 0 <= nrefs m i.
Proof. unfold nrefs. lia. Qed.

Lemma nrefs_insert_new m j s i :
  m !! j = None ->
  nrefs (<[j := s]> m) i = nrefs m i + (if decide (sb_parent s = Some i) then 1 else 0).
Proof.
  intros Hj. unfold nrefs. destruct (decide (sb_parent s = Some i)) as [E|E].
  - rewrite map_filter_insert_True by done.
    rewrite map_size_insert_None; [lia|].
    apply map_lookup_filter_None. by left.
  - rewrite map_filter_insert_False by done.
    rewrite delete_id by done. lia.
Qed.

Lemma nrefs_delete m j s i :
  m !! j = Some s ->
  nrefs (delete j m) i = nrefs m i - (if decide (sb_parent s = Some i) then 1 else 0).
Proof.
  intros Hj. rewrite <- (insert_delete_id m j s) at 2 by done.
  rewrite nrefs_insert_new by apply lookup_delete_eq. lia.
Qed.

Lemma nrefs_insert_same m j s s' i :
  m !! j = Some s -> sb_parent s' = sb_parent s -> nrefs (<[j := s']> m) i = nrefs m i.
Proof.
  intros Hj Hp. rewrite <- insert_delete_eq.
  rewrite nrefs_insert_new by apply lookup_delete_eq.
  rewrite (nrefs_delete m j s) by done. rewrite Hp. lia.
Qed.

Lemma nrefs_pos m i j s : m !! j = Some s -> sb_parent s = Some i -> 1 <= nrefs m i.
Proof.
  intros Hj Hp. pose proof (nrefs_delete m j s i Hj) as E.
  rewrite decide_True in E by done. pose proof (nrefs_nonneg (delete j m) i). lia.
Qed.

(** ** The invariant *)

(** The data of a buffer: an in-range window of a live block. *)
Record data_ok (bufs : gmap nat sshbuf) (mem : gmap nat (list Z)) (i : bufp) (s : sshbuf)
    (p : ptr) (l : list Z) : Prop := {
  do_cd : sb_cd s = Some p;
  do_mem : mem !! p.1 = Some l;
  do_lo : 0 <= p.2;
  do_hi : p.2 + sb_alloc s <= zlen l;
  do_off : 0 <= sb_off s;
  do_writable : sb_readonly s = false -> p.2 = 0 /\ sb_parent s = None;
  do_parent : forall q, sb_parent s = Some q ->
    sb_readonly s = true /\ (q < i)%nat /\
    exists t r, bufs !! q = Some t /\ sb_cd t = Some r /\ r.1 = p.1 /\ r.2 <= p.2
}.

(** [rc i] counts the references callers hold on buffer [i]. *)
Record heap_inv (rc : nat -> Z) (h : heap) : Prop := {
  inv_sane : forall i s, h_bufs h !! i = Some s -> sane i s = true;
  inv_data : forall i s, h_bufs h !! i = Some s ->
    exists p l, data_ok (h_bufs h) (h_mem h) i s p l;
  inv_ref : forall i s, h_bufs h !! i = Some s -> sb_refcount s = rc i + nrefs (h_bufs h) i;
  inv_rc : forall i, 0 <= rc i;
  inv_live : forall i, 1 <= rc i -> is_Some (h_bufs h !! i);
  inv_fresh_buf : forall i s, h_bufs h !! i = Some s -> (i < h_next h)%nat;
  inv_fresh_mem : forall b l, h_mem h !! b = Some l -> (b < h_next h)%nat;
  inv_bytes : forall b l, h_mem h !! b = Some l -> bytes_ok l;
  inv_uniq : forall i j s t p q,
    h_bufs h !! i = Some s -> h_bufs h !! j = Some t -> sb_readonly s = false ->
    sb_cd s = Some p -> sb_cd t = Some q -> p.1 = q.1 ->
    i = j \/ is_Some (sb_parent t)
}.

(** The sanity test spelled out. *)
Lemma sane_spec i s : sane i s = true <->
  (sb_readonly s = false -> sb_d s = sb_cd s) /\ sb_parent s <> Some i /\
  1 <= sb_refcount s <= SSHBUF_REFS_MAX /\ sb_cd s <> None /\
  sb_off s <= sb_size s /\ sb_size s <= sb_alloc s /\ sb_alloc s <= sb_max_size s /\
  sb_max_size s <= SSHBUF_SIZE_MAX.
Proof.
  unfold sane. rewrite negb_true_iff, !orb_false_iff, andb_false_iff, negb_false_iff.
  rewrite !bool_decide_eq_false, !Z.gtb_ltb, !Z.ltb_ge.
  destruct (sb_readonly s); intuition (try congruence; try lia).
  all: destruct (decide (sb_d s = sb_cd s)); [auto|]; exfalso; intuition congruence.
Qed.

Section Facts.
Context {rc : nat -> Z} {h : heap} (INV : heap_inv rc h).

(** A buffer that shares the block of a writable buffer is one of its
    descendants, so the writable buffer has a child. *)
Lemma shared_has_child i s p j t q :
  h_bufs h !! i = Some s -> sb_readonly s = false -> sb_cd s = Some p ->
  h_bufs h !! j = Some t -> sb_cd t = Some q -> q.1 = p.1 -> j <> i ->
  1 <= nrefs (h_bufs h) i.
Proof.
  intros Hi Hw Hp. revert t q.
  induction (lt_wf j) as [j _ IH]. intros t q Hj Hq Hb Hne.
  destruct (inv_uniq _ _ INV i j s t p q) as [?|[k Hk]]; auto; [congruence|].
  destruct (inv_data _ _ INV j t Hj) as (p' & l & D).
  destruct (do_parent _ _ _ _ _ _ D k Hk) as (_ & Hlt & t' & r & Ht' & Hr & Hrb & _).
  rewrite (do_cd _ _ _ _ _ _ D) in Hq. simplify_eq.
  destruct (decide (k = i)) as [->|Hki].
  - by apply (nrefs_pos _ i j t).
  - eapply (IH k); eauto. congruence.
Qed.

(** With one reference, held by the caller, nobody else sees the block. *)
Lemma unshared i s p j t q :
  h_bufs h !! i = Some s -> 1 <= rc i -> sb_readonly s = false -> sb_refcount s <= 1 ->
  sb_cd s = Some p -> h_bufs h !! j = Some t -> sb_cd t = Some q -> j <> i -> q.1 <> p.1.
Proof.
  intros Hi Hrc Hw Href Hp Hj Hq Hne Heq.
  pose proof (shared_has_child i s p j t q Hi Hw Hp Hj Hq Heq Hne).
  pose proof (inv_ref _ _ INV i s Hi). lia.
Qed.

Lemma handle_live i : 1 <= rc i -> exists s, h_bufs h !! i = Some s.
Proof. intros H. destruct (inv_live _ _ INV i H) as [s Hs]. by exists s. Qed.

Lemma fresh_buf : h_bufs h !! h_next h = None.
Proof.
  destruct (h_bufs h !! h_next h) eqn:E; [|done].
  apply (inv_fresh_buf _ _ INV) in E. lia.
Qed.

Lemma fresh_mem : h_mem h !! h_next h = None.
Proof.
  destruct (h_mem h !! h_next h) eqn:E; [|done].
  apply (inv_fresh_mem _ _ INV) in E. lia.
Qed.
End Facts.

(** ** Contents *)

Definition contents (h : heap) (i : bufp) : option (list Z) :=
  s ← h_bufs h !! i;
  p ← sb_cd s;
  l ← h_mem h !! p.1;
  Some (slice l (p.2 + sb_off s) (sb_size s - sb_off s)).

Lemma contents_unfold h i s p l :
  h_bufs h !! i = Some s -> sb_cd s = Some p -> h_mem h !! p.1 = Some l ->
  contents h i = Some (slice l (p.2 + sb_off s) (sb_size s - sb_off s)).
Proof. intros E1 E2 E3. unfold contents. by rewrite E1; cbn; rewrite E2; cbn; rewrite E3. Qed.

Lemma contents_eq h h' i :
  h_bufs h' !! i = h_bufs h !! i ->
  (forall s p, h_bufs h !! i = Some s -> sb_cd s = Some p -> h_mem h' !! p.1 = h_mem h !! p.1) ->
  contents h' i = contents h i.
Proof.
  intros Hb Hm. unfold contents. rewrite Hb.
  destruct (h_bufs h !! i) as [s|] eqn:E; cbn; [|done].
  destruct (sb_cd s) as [p|] eqn:E'; cbn; [|done]. by rewrite (Hm s p).
Qed.

(** ** Effect of an operation on one buffer

    [eff rc i h h']: from [h] to [h'] only buffer [i] changed, keeping its
    identity (parent, references, kind); memory outside its block is untouched,
    and memory is written at all only when [i] is writable and unshared. *)

Definition buf_block (h : heap) (i : bufp) (b : nat) : Prop :=
  exists s p, h_bufs h !! i = Some s /\ sb_cd s = Some p /\ p.1 = b.

Definition exclusive (h : heap) (i : bufp) : Prop :=
  exists s, h_bufs h !! i = Some s /\ sb_readonly s = false /\ sb_refcount s <= 1.

Record eff (rc : nat -> Z) (i : bufp) (h h' : heap) : Prop := {
  eff_inv : heap_inv rc h';
  eff_bufs : forall j, j <> i -> h_bufs h' !! j = h_bufs h !! j;
  eff_self : exists s s', h_bufs h !! i = Some s /\ h_bufs h' !! i = Some s' /\
    sb_parent s' = sb_parent s /\ sb_refcount s' = sb_refcount s /\
    sb_readonly s' = sb_readonly s;
  eff_block : forall b, buf_block h' i b -> buf_block h i b \/ (h_next h <= b)%nat;
  eff_mem : h_mem h' = h_mem h \/
    (exclusive h i /\ forall b, (b < h_next h)%nat -> ~ buf_block h i b ->
       h_mem h' !! b = h_mem h !! b);
  eff_next : (h_next h <= h_next h')%nat;
  eff_oom : h_oom h' = h_oom h
}.

Lemma eff_refl rc i h : heap_inv rc h -> is_Some (h_bufs h !! i) -> eff rc i h h.
Proof. intros Hi [s Hs]. constructor; eauto. exists s, s. auto. Qed.

Lemma eff_trans rc i h1 h2 h3 : eff rc i h1 h2 -> eff rc i h2 h3 -> eff rc i h1 h3.
Proof.
  intros [I1 B1 (s1 & s2 & E1 & E2 & P1 & R1 & O1) K1 M1 N1 Q1]
         [I2 B2 (s2' & s3 & E2' & E3 & P2 & R2 & O2) K2 M2 N2 Q2].
  rewrite E2 in E2'. injection E2' as <-.
  constructor; [done|..|lia|congruence].
  - intros j Hj. by rewrite B2, B1.
  - exists s1, s3. split_and!; congruence.
  - intros b Hb. destruct (K2 b Hb) as [Hb'|Hb']; [|right; lia]. by apply K1.
  - assert (exclusive h2 i -> exclusive h1 i) as X.
    { intros (s & Hs & ? & ?). exists s1. rewrite E2 in Hs. injection Hs as <-.
      split_and!; [done|congruence|lia]. }
    destruct M2 as [->|[X2 M2]]; [by destruct M1 as [->|?]; auto|].
    right. split; [auto|]. intros b Hb Hnb.
    assert (~ buf_block h2 i b) as Hnb2 by (intros Hb2; destruct (K1 b Hb2); [done|lia]).
    rewrite M2 by (auto; lia). destruct M1 as [->|[_ M1]]; [done|by apply M1].
Qed.

(** Other buffers keep their contents. *)
Lemma eff_contents rc i h h' :
  heap_inv rc h -> 1 <= rc i -> eff rc i h h' -> forall j, j <> i -> contents h' j = contents h j.
Proof.
  intros INV Hrc E j Hj. apply contents_eq; [by apply (eff_bufs _ _ _ _ E)|].
  intros t q Ht Hq. destruct (eff_mem _ _ _ _ E) as [->|[(s & Hs & Hw & Hr) HM]]; [done|].
  destruct (inv_data _ _ INV j t Ht) as (q' & l & D).
  rewrite (do_cd _ _ _ _ _ _ D) in Hq. injection Hq as ->.
  apply HM.
  - eapply inv_fresh_mem; eauto. apply (do_mem _ _ _ _ _ _ D).
  - intros (s' & p & Hs' & Hp & Hb). rewrite Hs in Hs'. injection Hs' as <-.
    eapply (unshared INV i s p j t q); eauto. apply (do_cd _ _ _ _ _ _ D).
Qed.
