(* ===== verification/SshbufOps.v ===== *)
(** * Each operation of [sshbuf.c] on a well-formed heap *)

From S2P Require Import Prelude Ssherr Sshbuf SshbufInv.

(** ** Two ways to change a buffer *)

(** Same identity: what no operation on a live buffer changes. *)
Definition same_id (s s' : sshbuf) : Prop :=
  sb_parent s' = sb_parent s /\ sb_refcount s' = sb_refcount s /\
  sb_readonly s' = sb_readonly s.

Lemma inv_ref_update rc h i s s' :
  heap_inv rc h -> h_bufs h !! i = Some s -> same_id s s' ->
  forall j t, <[i := s']> (h_bufs h) !! j = Some t ->
    sb_refcount t = rc j + nrefs (<[i := s']> (h_bufs h)) j.
Proof.
  intros INV Hs (Hp & Hr & _) j t Ht.
  rewrite (nrefs_insert_same _ _ s) by done.
  destruct (decide (i = j)) as [->|Hne].
  - rewrite lookup_insert_eq in Ht. injection Ht as <-. rewrite Hr.
    by apply (inv_ref _ _ INV).
  - rewrite lookup_insert_ne in Ht by done. by apply (inv_ref _ _ INV).
Qed.

(** Fields other than the data pointer change; memory does not. *)
Lemma eff_meta rc h i s s' :
  heap_inv rc h -> h_bufs h !! i = Some s -> same_id s s' ->
  sb_cd s' = sb_cd s -> sane i s' = true -> 0 <= sb_off s' ->
  sb_alloc s' <= sb_alloc s ->
  eff rc i h (set_bufs <[i := s']> h).
Proof.
  intros INV Hs ID Hcd Hsane Hoff Hall. pose proof ID as (Hp & Hr & Hro).
  assert (forall q u, h_bufs h !! q = Some u ->
    exists t, <[i := s']> (h_bufs h) !! q = Some t /\ sb_cd t = sb_cd u) as Hkeep.
  { intros q u Hu. destruct (decide (i = q)) as [->|].
    - exists s'. rewrite lookup_insert_eq. rewrite Hs in Hu. injection Hu as <-. done.
    - exists u. by rewrite lookup_insert_ne. }
  assert (forall j t, <[i := s']> (h_bufs h) !! j = Some t -> exists u,
    h_bufs h !! j = Some u /\ same_id u t /\ sb_cd t = sb_cd u /\
    sb_alloc t <= sb_alloc u /\ 0 <= sb_off t /\ sane j t = true) as Hback.
  { intros j t Ht. destruct (decide (i = j)) as [->|].
    - rewrite lookup_insert_eq in Ht. injection Ht as <-. by exists s.
    - rewrite lookup_insert_ne in Ht by done. exists t.
      destruct (inv_data _ _ INV j t Ht) as (p & l & D).
      split_and!; try done; [apply (do_off _ _ _ _ _ _ D)|by apply (inv_sane _ _ INV)]. }
  constructor; cbn [h_bufs h_mem h_next set_bufs]; auto.
  - constructor; cbn [h_bufs h_mem h_next set_bufs].
    + intros j t Ht. by destruct (Hback j t Ht) as (u & ? & ? & ? & ? & ? & ?).
    + intros j t Ht. destruct (Hback j t Ht) as (u & Hu & (Pu & Ru & Ou) & Hc & Ha & Ho & _).
      destruct (inv_data _ _ INV j u Hu) as (p & l & [D1 D2 D3 D4 D5 D6 D7]).
      exists p, l. constructor; auto; [congruence|lia| |].
      * intros Hw. rewrite Pu. apply D6. congruence.
      * intros q Hq. rewrite Pu in Hq. destruct (D7 q Hq) as (? & ? & v & r & Hv & ? & ? & ?).
        destruct (Hkeep q v Hv) as (t' & ? & ?).
        split; [congruence|]. split; [done|]. exists t', r. split_and!; congruence || lia.
    + by apply (inv_ref_update rc h i s s').
    + apply (inv_rc _ _ INV).
    + intros j Hj. destruct (inv_live _ _ INV j Hj) as [u Hu].
      destruct (Hkeep j u Hu) as (t & ? & _). by exists t.
    + intros j t Ht. destruct (Hback j t Ht) as (u & Hu & _). by eapply inv_fresh_buf.
    + apply (inv_fresh_mem _ _ INV).
    + apply (inv_bytes _ _ INV).
    + intros j k t u p q Ht Hu Hw Hcp Hcq Hb.
      destruct (Hback j t Ht) as (t0 & Ht0 & (_ & _ & Ot) & Ct & _).
      destruct (Hback k u Hu) as (u0 & Hu0 & (Pu & _ & _) & Cu & _).
      rewrite Pu. eapply (inv_uniq _ _ INV j k t0 u0 p q); congruence.
  - intros j Hj. by rewrite lookup_insert_ne.
  - exists s, s'. rewrite lookup_insert_eq. by split_and!.
  - intros b (t & p & Ht & Hc & Hb). cbn [h_bufs set_bufs] in Ht.
    rewrite lookup_insert_eq in Ht. injection Ht as <-. left. exists s, p.
    split_and!; congruence.
Qed.

(** The data of an exclusively held writable buffer changes: its block is
    rewritten, or replaced by a fresh one. *)
Lemma eff_excl rc h h' i s s' p l' :
  heap_inv rc h -> 1 <= rc i -> h_bufs h !! i = Some s -> same_id s s' ->
  sb_readonly s = false -> sb_refcount s <= 1 ->
  h_bufs h' = <[i := s']> (h_bufs h) -> sane i s' = true -> 0 <= sb_off s' ->
  sb_cd s' = Some p -> p.2 = 0 -> h_mem h' !! p.1 = Some l' -> bytes_ok l' ->
  sb_alloc s' <= zlen l' -> (h_next h <= h_next h')%nat -> (p.1 < h_next h')%nat ->
  h_oom h' = h_oom h ->
  (buf_block h i p.1 \/ (h_next h <= p.1)%nat) ->
  (forall b, b <> p.1 -> h_mem h' !! b = h_mem h !! b \/
     (h_mem h' !! b = None /\ buf_block h i b)) ->
  eff rc i h h'.
Proof.
  intros INV Hrc Hs ID Hw Hone Hbufs Hsane Hoff Hcd Hp0 Hm Hbok Hall Hnext Hplt Hoom Hblk Hmem.
  pose proof ID as (Hpar & Hr & Hro).
  assert (nrefs (h_bufs h) i = 0) as Hnr.
  { pose proof (inv_ref _ _ INV i s Hs). pose proof (nrefs_nonneg (h_bufs h) i). lia. }
  assert (sb_parent s = None) as Hnone.
  { destruct (inv_data _ _ INV i s Hs) as (p0 & l0 & D). by apply (do_writable _ _ _ _ _ _ D). }
  assert (forall j t q, j <> i -> h_bufs h !! j = Some t -> sb_cd t = Some q ->
    q.1 <> p.1 /\ h_mem h' !! q.1 = h_mem h !! q.1) as Hoth.
  { intros j t q Hj Ht Hq.
    destruct (inv_data _ _ INV j t Ht) as (q' & l & D).
    rewrite (do_cd _ _ _ _ _ _ D) in Hq. injection Hq as ->.
    pose proof (inv_fresh_mem _ _ INV _ _ (do_mem _ _ _ _ _ _ D)).
    assert (~ buf_block h i q.1) as Hnb.
    { intros (s0 & p0 & Hs0 & Hp & Hb). rewrite Hs in Hs0. injection Hs0 as <-.
      eapply (unshared INV i s p0 j t q); eauto. apply (do_cd _ _ _ _ _ _ D). }
    assert (q.1 <> p.1) as Hqp.
    { intros E. destruct Hblk as [Hb|Hb]; [rewrite E in Hnb; done|]. rewrite <- E in Hb. lia. }
    split; [done|]. destruct (Hmem _ Hqp) as [?|[_ ?]]; done. }
  constructor; [constructor|..]; rewrite ?Hbufs; auto.
  - intros j t Ht. apply lookup_insert_Some in Ht as [[<- <-]|[? Ht]]; [done|].
    by apply (inv_sane _ _ INV).
  - intros j t Ht. apply lookup_insert_Some in Ht as [[<- <-]|[Hne Ht]].
    + exists p, l'. constructor; auto; try lia.
      * rewrite Hpar, Hnone. auto.
      * rewrite Hpar, Hnone. discriminate.
    + destruct (inv_data _ _ INV j t Ht) as (q & l & [D1 D2 D3 D4 D5 D6 D7]).
      exists q, l. constructor; auto.
      * destruct (Hoth j t q) as [_ ->]; auto.
      * intros k Hk. destruct (D7 k Hk) as (? & ? & v & r & Hv & ?).
        split; [done|]. split; [done|]. exists v, r. rewrite lookup_insert_ne; [done|].
        intros <-. pose proof (nrefs_pos _ _ _ _ Ht Hk). lia.
  - by apply (inv_ref_update rc h i s s').
  - apply (inv_rc _ _ INV).
  - intros j Hj. destruct (inv_live _ _ INV j Hj) as [u Hu].
    destruct (decide (i = j)) as [<-|]; [rewrite lookup_insert_eq|rewrite lookup_insert_ne by done];
      eauto.
  - intros j t Ht. apply lookup_insert_Some in Ht as [[<- <-]|[? Ht]];
      eapply Nat.lt_le_trans; try apply Hnext; by eapply inv_fresh_buf.
  - intros b l Hl. destruct (decide (b = p.1)) as [->|Hb]; [done|].
    destruct (Hmem b Hb) as [E|[E _]]; rewrite E in Hl; [|done].
    eapply Nat.lt_le_trans; [|apply Hnext]. by eapply inv_fresh_mem.
  - intros b l Hl. destruct (decide (b = p.1)) as [->|Hb].
    + rewrite Hm in Hl. by injection Hl as <-.
    + destruct (Hmem b Hb) as [E|[E _]]; rewrite E in Hl; [|done].
      by eapply (inv_bytes _ _ INV).
  - intros j k t u q r Ht Hu Hwt Hq Hrr Hb.
    apply lookup_insert_Some in Ht as [[<- <-]|[Hj Ht]];
      apply lookup_insert_Some in Hu as [[<- <-]|[Hk Hu]].
    + by left.
    + rewrite Hcd in Hq. injection Hq as <-. destruct (Hoth k u r) as [? _]; auto. congruence.
    + rewrite Hcd in Hrr. injection Hrr as <-. destruct (Hoth j t q) as [? _]; auto. congruence.
    + eapply (inv_uniq _ _ INV j k t u q r); eauto.
  - intros j Hj. by rewrite lookup_insert_ne.
  - exists s, s'. rewrite lookup_insert_eq. by split_and!.
  - intros b (t & q & Ht & Hq & <-). rewrite Hbufs, lookup_insert_eq in Ht.
    injection Ht as <-. rewrite Hcd in Hq. by injection Hq as <-.
  - right. split; [by exists s|]. intros b Hb Hnb.
    assert (b <> p.1) as Hbp by (intros ->; destruct Hblk; [done|lia]).
    destruct (Hmem b Hbp) as [?|[_ ?]]; done.
Qed.

(** ** A caller's view of one buffer *)

Record view (rc : nat -> Z) (h : heap) (i : bufp) (s : sshbuf) (p : ptr) (l : list Z) : Prop := {
  v_inv : heap_inv rc h;
  v_rc : 1 <= rc i;
  v_buf : h_bufs h !! i = Some s;
  v_data : data_ok (h_bufs h) (h_mem h) i s p l
}.

Lemma view_intro rc h i : heap_inv rc h -> 1 <= rc i -> exists s p l, view rc h i s p l.
Proof.
  intros INV Hrc. destruct (handle_live INV i Hrc) as [s Hs].
  destruct (inv_data _ _ INV i s Hs) as (p & l & D). by exists s, p, l.
Qed.

(** The current bytes of a viewed buffer. *)
Definition cur (s : sshbuf) (p : ptr) (l : list Z) : list Z :=
  slice l (p.2 + sb_off s) (sb_size s - sb_off s).

(** Writable and held by one reference: the condition to modify the data. *)
Definition mutable (s : sshbuf) : bool := negb (sb_readonly s || (sb_refcount s >? 1)).

Section View.
Context {rc : nat -> Z} {h : heap} {i : bufp} {s : sshbuf} {p : ptr} {l : list Z}
        (V : view rc h i s p l).

Lemma view_sane : sane i s = true.
Proof. apply (inv_sane _ _ (v_inv _ _ _ _ _ _ V)), V. Qed.

Lemma view_bounds :
  0 <= sb_off s /\ sb_off s <= sb_size s /\ sb_size s <= sb_alloc s /\
  sb_alloc s <= sb_max_size s /\ sb_max_size s <= 0x8000000 /\
  1 <= sb_refcount s <= 0x100000 /\ 0 <= p.2 /\ p.2 + sb_alloc s <= zlen l.
Proof.
  pose proof (proj1 (sane_spec i s) view_sane) as (_ & _ & ? & _ & ? & ? & ? & ?).
  destruct (v_data _ _ _ _ _ _ V). unfold SSHBUF_SIZE_MAX, SSHBUF_REFS_MAX in *.
  split_and!; lia.
Qed.

Lemma view_contents : contents h i = Some (cur s p l).
Proof. destruct V as [? ? Hb []]. by apply contents_unfold. Qed.

Lemma zlen_cur : zlen (cur s p l) = sb_size s - sb_off s.
Proof. pose proof view_bounds. apply zlen_slice; lia. Qed.

Lemma bytes_ok_cur : bytes_ok (cur s p l).
Proof.
  apply bytes_ok_slice. destruct V as [I _ _ D]. eapply (inv_bytes _ _ I).
  apply (do_mem _ _ _ _ _ _ D).
Qed.

Lemma view_excl : mutable s = true ->
  sb_readonly s = false /\ sb_refcount s = 1 /\ sb_d s = Some p /\ p.2 = 0 /\ sb_parent s = None.
Proof.
  unfold mutable. intros Hm. zbool.
  pose proof view_bounds. destruct V as [I _ Hb [D1 D2 D3 D4 D5 D6 D7]].
  pose proof (proj1 (sane_spec i s) (inv_sane _ _ I i s Hb)) as (Hd & _).
  destruct D6 as [? ?]; auto. split_and!; auto; [lia|]. rewrite Hd; auto.
Qed.

Lemma run_deref : deref i h = (Ok s, h).
Proof. unfold deref. by rewrite (v_buf _ _ _ _ _ _ V). Qed.

Lemma run_check_sanity : sshbuf_check_sanity (Some i) h = (Ok tt, h).
Proof. unfold sshbuf_check_sanity. mstep run_deref. by rewrite view_sane. Qed.

Lemma run_len : sshbuf_len i h = (Ok (sb_size s - sb_off s), h).
Proof.
  pose proof view_bounds. unfold sshbuf_len. mstep run_check_sanity. mstep run_deref.
  unfold mret, M_ret. rewrite wrap_small by lia. done.
Qed.

Lemma run_ptr : sshbuf_ptr i h = (Ok (Some (ptr_add p (sb_off s))), h).
Proof.
  unfold sshbuf_ptr. mstep run_check_sanity. mstep run_deref.
  by rewrite (do_cd _ _ _ _ _ _ (v_data _ _ _ _ _ _ V)).
Qed.

Lemma run_mutable_ptr :
  sshbuf_mutable_ptr i h =
    (Ok (if mutable s then Some (ptr_add p (sb_off s)) else None), h).
Proof.
  unfold sshbuf_mutable_ptr. mstep run_check_sanity. mstep run_deref.
  destruct (mutable s) eqn:E.
  - destruct (view_excl E) as (-> & -> & -> & _). done.
  - unfold mutable in E. apply negb_false_iff in E. by rewrite E.
Qed.

Lemma run_avail :
  sshbuf_avail i h =
    (Ok (if mutable s then sb_max_size s - zlen (cur s p l) else 0), h).
Proof.
  pose proof view_bounds. unfold sshbuf_avail. mstep run_check_sanity. mstep run_deref.
  rewrite zlen_cur. unfold mutable.
  destruct (sb_readonly s || (sb_refcount s >? 1)); cbn [negb]; [done|].
  unfold mret, M_ret. by rewrite !wrap_small by (rewrite ?wrap_small; lia).
Qed.

(** Reads of the buffer's own window. *)
Lemma run_load o n : 0 <= o -> 0 <= n -> o + n <= sb_alloc s ->
  load (ptr_add p o) n h = (Ok (slice l (p.2 + o) n), h).
Proof.
  intros. pose proof view_bounds. unfold load, ptr_add. cbn [fst snd].
  rewrite (do_mem _ _ _ _ _ _ (v_data _ _ _ _ _ _ V)).
  by rewrite !(proj2 (Z.leb_le _ _)) by lia.
Qed.

Lemma run_load_cur o n : 0 <= o -> 0 <= n -> o + n <= zlen (cur s p l) ->
  load (ptr_add (ptr_add p (sb_off s)) o) n h = (Ok (slice (cur s p l) o n), h).
Proof.
  intros. pose proof view_bounds. rewrite zlen_cur in *.
  replace (ptr_add (ptr_add p (sb_off s)) o) with (ptr_add p (sb_off s + o))
    by (unfold ptr_add; cbn; f_equal; lia).
  rewrite run_load by lia. unfold cur. rewrite slice_slice by lia. by rewrite Z.add_assoc.
Qed.

(** A view survives an effect, and the effect keeps it mutable. *)
Lemma view_eff h' : eff rc i h h' ->
  exists s' p' l', view rc h' i s' p' l' /\ mutable s' = mutable s /\ same_id s s'.
Proof.
  intros E. destruct (view_intro rc h' i (eff_inv _ _ _ _ E) (v_rc _ _ _ _ _ _ V))
    as (s' & p' & l' & V').
  exists s', p', l'. split; [done|].
  destruct (eff_self _ _ _ _ E) as (t & t' & Ht & Ht' & Hid).
  rewrite (v_buf _ _ _ _ _ _ V) in Ht. rewrite (v_buf _ _ _ _ _ _ V') in Ht'. simplify_eq.
  destruct Hid as (? & Hr & Ho). unfold mutable. by rewrite Hr, Ho.
Qed.

(** A metadata change, as an effect. *)
Lemma view_meta s' : same_id s s' -> sb_cd s' = sb_cd s -> sb_d s' = sb_d s ->
  sb_max_size s' <= 0x8000000 ->
  0 <= sb_off s' -> sb_off s' <= sb_size s' -> sb_size s' <= sb_alloc s' ->
  sb_alloc s' <= sb_alloc s -> sb_alloc s' <= sb_max_size s' ->
  eff rc i h (set_bufs <[i := s']> h) /\
  view rc (set_bufs <[i := s']> h) i s' p l.
Proof.
  intros ID Hcd Hd Hmx H0 H1 H2 H3 H4. pose proof ID as (Hp & Hr & Hro).
  assert (eff rc i h (set_bufs <[i := s']> h)) as E.
  { destruct V as [I _ Hb D]. apply (eff_meta rc h i s); auto.
    pose proof (proj1 (sane_spec i s) (inv_sane _ _ I i s Hb)) as (A1 & A2 & A3 & A4 & _).
    apply sane_spec. rewrite Hp, Hr, Hro, Hcd, Hd. unfold SSHBUF_SIZE_MAX in *.
    split_and!; auto; lia. }
  split; [done|].
  destruct (view_eff _ E) as (s0 & p0 & l0 & V' & _).
  pose proof (v_buf _ _ _ _ _ _ V') as Hb'. cbn in Hb'. rewrite lookup_insert_eq in Hb'.
  injection Hb' as <-. destruct V as [_ _ _ [C1 M1 _ _ _ _ _]].
  pose proof (v_data _ _ _ _ _ _ V') as [C2 M2 _ _ _ _ _]. cbn in M2.
  rewrite Hcd, C1 in C2. injection C2 as <-. rewrite M1 in M2. by injection M2 as <-.
Qed.
End View.

(** ** Consuming *)

Section Consume.
Context {rc : nat -> Z} {h : heap} {i : bufp} {s : sshbuf} {p : ptr} {l : list Z}
        (V : view rc h i s p l).

Lemma run_consume_short n : zlen (cur s p l) < n ->
  sshbuf_consume i n h = (Err SSH_ERR_MESSAGE_INCOMPLETE, h).
Proof.
  intros Hn. rewrite (zlen_cur V) in Hn. pose proof (view_bounds V).
  unfold sshbuf_consume. mstep (run_check_sanity V).
  rewrite (proj2 (Z.eqb_neq _ _)) by lia. mstep (run_len V).
  rewrite Z.gtb_ltb, (proj2 (Z.ltb_lt _ _)) by lia. done.
Qed.

(** [sshbuf_consume] drops bytes at the front; the last byte consumed moves
    both offsets of the structure back to zero. *)
Lemma run_consume n : 0 <= n <= zlen (cur s p l) ->
  exists s' h', sshbuf_consume i n h = (Ok tt, h') /\ eff rc i h h' /\
    view rc h' i s' p l /\ h_mem h' = h_mem h /\ same_id s s' /\
    cur s' p l = drop (Z.to_nat n) (cur s p l) /\
    sb_alloc s' = sb_alloc s /\ sb_max_size s' = sb_max_size s.
Proof.
  intros Hn. rewrite (zlen_cur V) in Hn. pose proof (view_bounds V) as B.
  unfold sshbuf_consume. mstep (run_check_sanity V).
  destruct (Z.eqb_spec n 0) as [->|Hn0].
  { exists s, h. split_and!; auto; [|done].
    apply eff_refl; [apply V|]. rewrite (v_buf _ _ _ _ _ _ V). eauto. }
  mstep (run_len V). rewrite Z.gtb_ltb, (proj2 (Z.ltb_ge _ _)) by lia.
  unfold modify_buf. set (s1 := with_off (sb_off s + n) s).
  destruct (view_meta V s1) as [E1 V1]; [done..|cbn; lia|cbn; lia|cbn; lia|cbn; lia|cbn; lia|cbn; lia|].
  assert ((deref i ≫= (λ s0, assign i (with_off (sizet (sb_off s0 + n)) s0))) h =
          (Ok tt, set_bufs <[i := s1]> h)) as R1.
  { mstep (run_deref V). rewrite wrap_small by lia. done. }
  mstep R1. mstep (run_deref V1). cbn [sb_off sb_size s1 with_off].
  assert (cur s1 p l = drop (Z.to_nat n) (cur s p l)) as C1.
  { unfold cur, slice. cbn. rewrite skipn_firstn_comm, drop_drop. f_equal; [lia|].
    f_equal. lia. }
  destruct (Z.eqb_spec (sb_off s + n) (sb_size s)) as [He|He].
  - set (s2 := with_off 0 (with_size 0 s1)).
    destruct (view_meta V1 s2) as [E2 V2]; [done..|cbn; lia|cbn; lia|cbn; lia|cbn; lia|cbn; lia|cbn; lia|].
    exists s2, (set_bufs <[i:=s2]> (set_bufs <[i:=s1]> h)).
    split_and!; try done; [by eapply eff_trans|].
    rewrite <- C1. unfold cur, slice. cbn.
    replace (sb_size s - (sb_off s + n)) with 0 by lia. done.
  - exists s1, (set_bufs <[i:=s1]> h). by split_and!.
Qed.

Lemma run_consume_end n : 0 <= n <= zlen (cur s p l) ->
  exists s' h', sshbuf_consume_end i n h = (Ok tt, h') /\ eff rc i h h' /\
    view rc h' i s' p l /\ h_mem h' = h_mem h /\ same_id s s' /\
    cur s' p l = take (Z.to_nat (zlen (cur s p l) - n)) (cur s p l).
Proof.
  intros Hn. rewrite (zlen_cur V) in *. pose proof (view_bounds V) as B.
  unfold sshbuf_consume_end. mstep (run_check_sanity V).
  assert (cur s p l = take (Z.to_nat (sb_size s - sb_off s)) (cur s p l)) as Cfull.
  { rewrite take_ge; [done|]. pose proof (zlen_cur V) as Z. unfold zlen in Z. lia. }
  destruct (Z.eqb_spec n 0) as [->|Hn0].
  { exists s, h. rewrite Z.sub_0_r. split_and!; auto; [|done].
    apply eff_refl; [apply V|]. rewrite (v_buf _ _ _ _ _ _ V). eauto. }
  mstep (run_len V). rewrite Z.gtb_ltb, (proj2 (Z.ltb_ge _ _)) by lia.
  set (s1 := with_size (sb_size s - n) s).
  destruct (view_meta V s1) as [E1 V1]; [done..|cbn; lia|cbn; lia|cbn; lia|cbn; lia|cbn; lia|cbn; lia|].
  exists s1, (set_bufs <[i:=s1]> h). split_and!; try done.
  - unfold modify_buf. mstep (run_deref V). rewrite wrap_small by lia. done.
  - unfold cur, slice. cbn. rewrite take_take. f_equal. lia.
Qed.

Lemma run_consume_end_short n : zlen (cur s p l) < n ->
  sshbuf_consume_end i n h = (Err SSH_ERR_MESSAGE_INCOMPLETE, h).
Proof.
  intros Hn. rewrite (zlen_cur V) in Hn. pose proof (view_bounds V).
  unfold sshbuf_consume_end. mstep (run_check_sanity V).
  rewrite (proj2 (Z.eqb_neq _ _)) by lia. mstep (run_len V).
  rewrite Z.gtb_ltb, (proj2 (Z.ltb_lt _ _)) by lia. done.
Qed.
End Consume.

(** ** Writing into the window *)

Section Write.
Context {rc : nat -> Z} {h : heap} {i : bufp} {s : sshbuf} {p : ptr} {l : list Z}
        (V : view rc h i s p l) (MUT : mutable s = true).

(** A store at offset [o] of the block of a mutable buffer. *)
Lemma run_store o bs : 0 <= o -> o + zlen bs <= zlen l -> bytes_ok bs ->
  exists h', store (ptr_add p o) bs h = (Ok tt, h') /\ eff rc i h h' /\
    view rc h' i s p (splice l o bs).
Proof.
  intros Ho Hb Hok. destruct (view_excl V MUT) as (Hw & Href & Hd & Hp0 & Hnp).
  pose proof V as [I Hrc Hbuf D]. pose proof (do_mem _ _ _ _ _ _ D) as Hm.
  pose proof (view_bounds V) as B.
  set (h' := set_mem <[p.1 := splice l o bs]> h).
  assert (store (ptr_add p o) bs h = (Ok tt, h')) as R.
  { unfold store, ptr_add. cbn [fst snd]. rewrite Hm, Hp0, Z.add_0_l.
    by rewrite !(proj2 (Z.leb_le _ _)) by lia. }
  assert (zlen (splice l o bs) = zlen l) as Hlen by (apply zlen_splice; lia).
  assert (eff rc i h h') as E.
  { apply (eff_excl rc h h' i s s p (splice l o bs)); auto; cbn [h_bufs h_mem h_next h' set_mem]; try done.
    - lia.
    - by rewrite insert_id.
    - by apply (view_sane V).
    - lia.
    - apply (do_cd _ _ _ _ _ _ D).
    - apply lookup_insert_eq.
    - apply bytes_ok_splice; [|done]. by eapply (inv_bytes _ _ I).
    - lia.
    - by eapply (inv_fresh_mem _ _ I).
    - left. exists s, p. split_and!; auto. apply (do_cd _ _ _ _ _ _ D).
    - intros b Hb'. left. by rewrite lookup_insert_ne. }
  exists h'. split_and!; auto. constructor; auto; [apply E|].
  destruct D as [D1 D2 D3 D4 D5 D6 D7].
  constructor; auto; cbn; [apply lookup_insert_eq|lia].
Qed.
End Write.

(** ** Reallocation *)

Definition realloc_to (h h' : heap) (b : nat) (l : list Z) (old new : Z) (b' : nat) (l' : list Z)
    : Prop :=
  h_bufs h' = h_bufs h /\ h_mem h' !! b' = Some l' /\ new <= zlen l' /\
  (bytes_ok l -> bytes_ok l') /\
  (forall o n, 0 <= o -> 0 <= n -> o + n <= Z.min old new -> slice l' o n = slice l o n) /\
  (h_next h <= h_next h')%nat /\ (b' < h_next h')%nat /\ (b' = b \/ b' = h_next h) /\
  h_oom h' = h_oom h /\
  (forall k, k <> b' -> h_mem h' !! k = h_mem h !! k \/ (h_mem h' !! k = None /\ k = b)).

Lemma run_recallocarray h b l old new :
  h_mem h !! b = Some l -> (b < h_next h)%nat ->
  0 <= old <= 0x8000000 -> old <= zlen l -> 0 <= new <= 0x8000000 ->
  (recallocarray (Some (b, 0)) old new 1 h = (Ok None, set_tick h) /\ h_oom h (h_tick h) = true) \/
  exists b' l' h', recallocarray (Some (b, 0)) old new 1 h = (Ok (Some (b', 0)), h') /\
    realloc_to h h' b l old new b' l'.
Proof.
  intros Hm Hb Hold Hlen Hnew. unfold recallocarray.
  assert (forall n, 0 <= n <= 0x8000000 ->
    ((n >=? MUL_NO_OVERFLOW) || (1 >=? MUL_NO_OVERFLOW)) && (n >? 0) && (SIZE_MAX / n <? 1) = false) as G.
  { intros n Hn. unfold MUL_NO_OVERFLOW. rewrite !Z.geb_leb, (proj2 (Z.leb_gt _ n)) by lia. done. }
  rewrite !G by lia. rewrite !Z.mul_1_r, !wrap_small by lia.
  assert (gets h_pagesize h = (Ok (h_pagesize h), h)) as Rp by done. mstep Rp.
  destruct ((new <=? old) && (old - new <? old / 2) && (old - new <? h_pagesize h)) eqn:C.
  - right. zbool. exists b, (splice l new (zeros (old - new))).
    eexists. split.
    + unfold store, ptr_add, mbind, M_bind. cbn [fst snd]. rewrite Hm.
      rewrite zlen_zeros, !(proj2 (Z.leb_le _ _)) by lia. reflexivity.
    + unfold realloc_to. cbn [h_bufs h_mem h_next set_mem].
      split_and!; auto.
      * apply lookup_insert_eq.
      * rewrite zlen_splice; rewrite ?zlen_zeros; lia.
      * intros. apply bytes_ok_splice; auto with cbytes.
      * intros o n ? ? ?. apply slice_splice_before; rewrite ?zlen_zeros; lia.
      * intros k Hk. left. by rewrite lookup_insert_ne.
  - clear C. assert (alloc_ok h = (Ok (negb (h_oom h (h_tick h))), set_tick h)) as Ra by done.
    mstep Ra. destruct (h_oom h (h_tick h)) eqn:Hoom; cbn [negb]; [by left|right].
    set (n0 := Z.min old new).
    set (l' := slice l 0 n0 ++ zeros (new - n0)).
    assert (((if new >? old then old0 ← load (b, 0) old; mret (old0 ++ zeros (new - old))
              else load (b, 0) new) : HM (list Z)) (set_tick h) = (Ok l', set_tick h)) as Rl.
    { assert (forall n, 0 <= n <= old ->
        load (b, 0) n (set_tick h) = (Ok (slice l 0 n), set_tick h)) as L.
      { intros n Hn. unfold load. cbn [fst snd h_mem set_tick]. rewrite Hm.
        by rewrite !(proj2 (Z.leb_le _ _)) by lia. }
      destruct (Z.gtb_spec new old); unfold l', n0.
      - mstep (L old ltac:(lia)). by rewrite Z.min_l by lia.
      - rewrite L, Z.min_r, Z.sub_diag by lia. cbn. by rewrite app_nil_r. }
    mstep Rl.
    set (h1 := set_next (set_mem <[h_next h := l']> (set_tick h))).
    assert (add_block l' (set_tick h) = (Ok (h_next h), h1)) as Rb by done. mstep Rb.
    assert (h_mem h1 !! b = Some l) as Hm1 by (cbn; rewrite lookup_insert_ne by lia; done).
    set (h2 := set_mem <[b := splice l 0 (zeros old)]> h1).
    assert (store (b, 0) (zeros old) h1 = (Ok tt, h2)) as Rs.
    { unfold store. cbn [fst snd]. rewrite Hm1, zlen_zeros, !(proj2 (Z.leb_le _ _)) by lia. done. }
    mstep Rs.
    set (h3 := set_mem (delete b) h2).
    assert (free_block (b, 0) h2 = (Ok tt, h3)) as Rf.
    { unfold free_block. cbn [fst snd]. unfold h2 at 1. cbn. by rewrite lookup_insert_eq. }
    mstep Rf. exists (h_next h), l', h3. split; [done|].
    assert (zlen l' = new) as Hl'.
    { unfold l'. rewrite zlen_app, zlen_zeros, zlen_slice; unfold n0; lia. }
    unfold realloc_to, h3, h2, h1. cbn [h_bufs h_mem h_next set_mem set_next set_tick].
    split_and!; auto; try lia.
    + rewrite lookup_delete_ne, lookup_insert_ne, lookup_insert_eq by lia. done.
    + intros. unfold l'. apply bytes_ok_app. auto with cbytes.
    + intros o n ? ? ?. unfold l'. rewrite slice_app_l by (rewrite ?zlen_slice; unfold n0; lia).
      rewrite slice_slice by (unfold n0; lia). done.
    + intros k Hk. destruct (decide (k = b)) as [->|Hkb].
      * right. by rewrite lookup_delete_eq.
      * left. by rewrite lookup_delete_ne, !lookup_insert_ne by done.
Qed.

Section Realloc.
Context {rc : nat -> Z} {h : heap} {i : bufp} {s : sshbuf} {p : ptr} {l : list Z}
        (V : view rc h i s p l) (MUT : mutable s = true).

(** [recallocarray] on the buffer's data and the update of [d], [cd] and
    [alloc] that follows it: the window keeps its bytes. *)
Lemma run_realloc new : sb_size s <= new <= sb_max_size s ->
  (recallocarray (sb_d s) (sb_alloc s) new 1 h = (Ok None, set_tick h) /\ h_oom h (h_tick h) = true) \/
  exists b' l' h1, recallocarray (sb_d s) (sb_alloc s) new 1 h = (Ok (Some (b', 0)), h1) /\
    h_bufs h1 = h_bufs h /\
    let s' := with_data (Some (b', 0)) new s in
    let h' := set_bufs <[i := s']> h1 in
    eff rc i h h' /\ view rc h' i s' (b', 0) l' /\ cur s' (b', 0) l' = cur s p l.
Proof.
  intros Hnew. destruct (view_excl V MUT) as (Hw & Href & Hd & Hp0 & Hnp).
  pose proof V as [I Hrc Hbuf D]. pose proof (do_mem _ _ _ _ _ _ D) as Hm.
  pose proof (view_bounds V) as B. destruct p as [b o]. cbn [fst snd] in *. subst o. rewrite Hd.
  destruct (run_recallocarray h b l (sb_alloc s) new) as [[R Ho]|(b' & l' & h1 & R & RT)];
    [done|by eapply (inv_fresh_mem _ _ I)|lia|lia|lia|by left|right].
  destruct RT as (Hb1 & Hm1 & Hl1 & Hbok & Hsl & Hn1 & Hlt & Hor & Hoom & Hoth).
  exists b', l', h1. split; [done|]. split; [done|]. cbv zeta.
  set (s' := with_data (Some (b', 0)) new s). set (h' := set_bufs <[i := s']> h1).
  assert (sane i s' = true) as Hsane.
  { pose proof (proj1 (sane_spec i s) (view_sane V)) as (A1 & A2 & A3 & A4 & A5).
    apply sane_spec. unfold s'. cbn. unfold SSHBUF_SIZE_MAX in *. split_and!; auto; lia. }
  assert (buf_block h i b) as Hbb.
  { exists s, (b, 0). split_and!; auto. apply (do_cd _ _ _ _ _ _ D). }
  assert (eff rc i h h') as E.
  { apply (eff_excl rc h h' i s s' (b', 0) l'); auto; unfold h'; cbn [h_bufs h_mem h_next set_bufs fst snd];
      try done; try lia.
    - by rewrite Hb1.
    - cbn. lia.
    - apply Hbok. by eapply (inv_bytes _ _ I).
    - destruct Hor as [->| ->]; [by left|right; lia].
    - intros k Hk. destruct (Hoth k Hk) as [?|[? ->]]; auto. }
  split; [done|]. split.
  - constructor; [apply E|done|unfold h'; cbn; by rewrite lookup_insert_eq|].
    constructor; cbn; auto; try lia. intros q Hq. congruence.
  - unfold cur. cbn. apply Hsl; lia.
Qed.
End Realloc.

(** ** Growing *)

Lemma eff_tick rc h i : heap_inv rc h -> is_Some (h_bufs h !! i) -> eff rc i h (set_tick h).
Proof.
  intros [] [s Hs]. constructor; auto; [by constructor|]. exists s, s. by split_and!.
Qed.

Lemma view_tick {rc h i s p l} : view rc h i s p l -> view rc (set_tick h) i s p l.
Proof. intros [[] ? ? ?]. by constructor. Qed.

Section Grow.
Context {rc : nat -> Z} {h : heap} {i : bufp} {s : sshbuf} {p : ptr} {l : list Z}
        (V : view rc h i s p l).

(** Packing moves the bytes to the start of the block and keeps them. *)
Lemma run_maybe_pack force :
  exists s' l' h', sshbuf_maybe_pack i force h = (Ok tt, h') /\ eff rc i h h' /\
    view rc h' i s' p l' /\ same_id s s' /\ cur s' p l' = cur s p l /\
    sb_d s' = sb_d s /\ sb_alloc s' = sb_alloc s /\ sb_max_size s' = sb_max_size s /\
    (s' = s \/ sb_off s' = 0) /\ (mutable s = true -> force = true -> sb_off s' = 0).
Proof.
  pose proof (view_bounds V) as B. unfold sshbuf_maybe_pack. mstep (run_deref V).
  assert (eff rc i h h) as E0 by (apply eff_refl; [apply V|]; rewrite (v_buf _ _ _ _ _ _ V); eauto).
  destruct ((sb_off s =? 0) || sb_readonly s || (sb_refcount s >? 1)) eqn:C.
  { exists s, l, h. split_and!; auto; [done|]. unfold mutable. intros Hm _.
    rewrite <- orb_assoc, orb_true_iff in C. destruct C as [C|C]; [lia|].
    rewrite C in Hm. discriminate. }
  rewrite <- orb_assoc in C. apply orb_false_iff in C as [C0 C1].
  assert (mutable s = true) as MUT by (unfold mutable; by rewrite C1).
  destruct (force || _) eqn:C2.
  2:{ exists s, l, h. apply orb_false_iff in C2 as [-> _]. split_and!; auto; done. }
  destruct (view_excl V MUT) as (Hw & Href & Hd & Hp0 & Hnp). rewrite Hd.
  rewrite !wrap_small by lia.
  mstep (run_load V (sb_off s) (sb_size s - sb_off s) ltac:(lia) ltac:(lia) ltac:(lia)).
  fold (cur s p l). pose proof (zlen_cur V) as ZC.
  destruct (run_store V MUT 0 (cur s p l)) as (h1 & R1 & E1 & V1);
    [lia|lia|by eapply bytes_ok_cur|].
  replace (ptr_add p 0) with p in R1 by (destruct p; unfold ptr_add; cbn; f_equal; lia).
  mstep R1.
  set (s2 := with_off 0 (with_size (sb_size s - sb_off s) s)).
  destruct (view_meta V1 s2) as [E2 V2]; [done..|cbn; lia|cbn; lia|cbn; lia|cbn; lia|cbn; lia|cbn; lia|].
  exists s2, (splice l 0 (cur s p l)), (set_bufs <[i:=s2]> h1).
  split_and!; auto; [by eapply eff_trans|done|].
  unfold cur at 1. cbn. rewrite Hp0, Z.sub_0_r, <- ZC, Z.add_0_l.
  apply slice_splice_same; lia.
Qed.

Lemma run_check_reserve n : 0 <= n ->
  sshbuf_check_reserve i n h =
    (if mutable s then
       if n + zlen (cur s p l) <=? sb_max_size s then Ok tt else Err SSH_ERR_NO_BUFFER_SPACE
     else Err SSH_ERR_BUFFER_READ_ONLY, h).
Proof.
  intros Hn. pose proof (view_bounds V) as B. rewrite (zlen_cur V).
  unfold sshbuf_check_reserve. mstep (run_check_sanity V). mstep (run_deref V).
  unfold mutable. destruct (sb_readonly s || (sb_refcount s >? 1)); cbn [negb]; [done|].
  rewrite (wrap_small _ (sb_size s - sb_off s)) by lia.
  destruct (Z.gtb_spec n (sb_max_size s)); cbn [orb].
  - by rewrite (proj2 (Z.leb_gt _ _)) by lia.
  - rewrite wrap_small by lia.
    destruct (Z.ltb_spec (sb_max_size s - n) (sb_size s - sb_off s)).
    + by rewrite (proj2 (Z.leb_gt _ _)) by lia.
    + by rewrite (proj2 (Z.leb_le _ _)) by lia.
Qed.

Lemma roundup_spec x : 0 <= x <= 0x10000000 ->
  x <= ROUNDUP x SSHBUF_SIZE_INC < x + 256.
Proof.
  intros Hx. unfold ROUNDUP, SSHBUF_SIZE_INC.
  rewrite (wrap_small _ (x + _)) by lia.
  rewrite wrap_small; Z.div_mod_to_equations; lia.
Qed.
End Grow.

(** [sshbuf_allocate] makes room for [n] more bytes without changing the
    contents, or fails leaving the contents alone. *)
Lemma run_allocate {rc h i s p l} (V : view rc h i s p l) n :
  0 <= n -> mutable s = true -> n + zlen (cur s p l) <= sb_max_size s ->
  exists r s' p' l' h', sshbuf_allocate i n h = (r, h') /\ eff rc i h h' /\
    view rc h' i s' p' l' /\ same_id s s' /\ cur s' p' l' = cur s p l /\
    sb_max_size s' = sb_max_size s /\
    ((r = Ok tt /\ sb_size s' + n <= sb_alloc s') \/
     (r = Err SSH_ERR_ALLOC_FAIL /\ exists k, h_oom h k = true)).
Proof.
  intros Hn MUT Hfit. pose proof (view_bounds V) as B.
  unfold sshbuf_allocate. pose proof (run_check_reserve V n Hn) as R0.
  rewrite MUT, (proj2 (Z.leb_le _ _)) in R0 by lia. mstep R0. mstep (run_deref V).
  rewrite (zlen_cur V) in Hfit. rewrite wrap_small by lia.
  set (force := sb_size s + n >? sb_max_size s).
  destruct (run_maybe_pack V force)
    as (s1 & l1 & h1 & R1 & E1 & V1 & ID1 & C1 & D1 & A1 & M1 & O1 & F1).
  mstep R1. mstep (run_deref V1). pose proof (view_bounds V1) as B1.
  pose proof (zlen_cur V) as Z0. pose proof (zlen_cur V1) as Z1. rewrite C1 in Z1.
  assert (sb_size s1 + n <= sb_max_size s) as Hroom.
  { destruct O1 as [->|Ho]; [|lia]. unfold force in F1.
    destruct (Z.gtb_spec (sb_size s + n) (sb_max_size s)); [|lia].
    specialize (F1 MUT eq_refl). lia. }
  assert (mutable s1 = true) as MUT1.
  { destruct ID1 as (_ & Hr & Ho). revert MUT. unfold mutable. by rewrite Hr, Ho. }
  rewrite (wrap_small _ (n + sb_size s1)) by lia.
  destruct (Z.leb_spec (n + sb_size s1) (sb_alloc s1)).
  { exists (Ok tt), s1, p, l1, h1. split_and!; auto. left. split; [done|lia]. }
  rewrite (wrap_small _ (n + sb_size s1 - sb_alloc s1)) by lia.
  rewrite (wrap_small _ (sb_alloc s1 + _)) by lia.
  replace (sb_alloc s1 + (n + sb_size s1 - sb_alloc s1)) with (n + sb_size s1) by lia.
  pose proof (roundup_spec (n + sb_size s1) ltac:(lia)) as RU.
  set (rl := if _ >? _ then _ else _).
  assert (n + sb_size s1 <= rl <= sb_max_size s1) as Hrl.
  { unfold rl. destruct (Z.gtb_spec (ROUNDUP (n + sb_size s1) SSHBUF_SIZE_INC) (sb_max_size s1)); lia. }
  destruct (run_realloc V1 MUT1 rl ltac:(lia)) as [[R2 Ho2]|(b' & l' & h2 & R2 & Hb2 & E2 & V2 & C2)].
  - mstep R2. exists (Err SSH_ERR_ALLOC_FAIL), s1, p, l1, (set_tick h1).
    assert (eff rc i h1 (set_tick h1)) as Et.
    { apply eff_tick; [apply V1|]. rewrite (v_buf _ _ _ _ _ _ V1). eauto. }
    split_and!; auto; [by eapply eff_trans|by apply view_tick|].
    right. split; [done|]. exists (h_tick h1). by rewrite <- (eff_oom _ _ _ _ E1).
  - mstep R2. set (s2 := with_data (Some (b', 0)) rl s1) in *.
    unfold modify_buf at 1. rewrite (bind_ok _ _ _ tt (set_bufs <[i:=s2]> h2)).
    2:{ rewrite (bind_ok _ _ _ s1 h2); [done|]. unfold deref. by rewrite Hb2, (v_buf _ _ _ _ _ _ V1). }
    rewrite (run_check_reserve V2) by lia. rewrite C2, C1, Z0.
    assert (mutable s2 = true) as -> by done.
    rewrite (proj2 (Z.leb_le _ _)) by (cbn; lia).
    eexists (Ok tt), s2, (b', 0), l', _.
    split_and!; eauto; [by eapply eff_trans|congruence|].
    left. split; [done|]. cbn. lia.
Qed.

(** [sshbuf_reserve]: on success the contents grow by [n] bytes, whose address
    is returned. *)
Lemma run_reserve {rc h i s p l} (V : view rc h i s p l) n :
  0 <= n -> mutable s = true -> n + zlen (cur s p l) <= sb_max_size s ->
  (exists h', sshbuf_reserve i n h = (Err SSH_ERR_ALLOC_FAIL, h') /\ eff rc i h h' /\
     contents h' i = contents h i /\ exists k, h_oom h k = true) \/
  exists s' p' l' h' fill, sshbuf_reserve i n h = (Ok (ptr_add p' (sb_size s' - n)), h') /\
    eff rc i h h' /\ view rc h' i s' p' l' /\ same_id s s' /\
    cur s' p' l' = cur s p l ++ fill /\ zlen fill = n /\ sb_max_size s' = sb_max_size s.
Proof.
  intros Hn MUT Hfit.
  destruct (run_allocate V n Hn MUT Hfit)
    as (r & s1 & p1 & l1 & h1 & R1 & E1 & V1 & ID1 & C1 & M1 & [[-> A1]|[-> Ho]]).
  2:{ left. exists h1. unfold sshbuf_reserve. mstep R1. split_and!; auto.
      by rewrite (view_contents V), (view_contents V1), C1. }
  right. unfold sshbuf_reserve. mstep R1. mstep (run_deref V1).
  pose proof (view_bounds V1) as B1.
  assert (mutable s1 = true) as MUT1.
  { destruct ID1 as (_ & Hr & Ho). revert MUT. unfold mutable. by rewrite Hr, Ho. }
  destruct (view_excl V1 MUT1) as (_ & _ & -> & Hp0 & _).
  set (s2 := with_size (sb_size s1 + n) s1).
  destruct (view_meta V1 s2) as [E2 V2]; [done..|cbn; lia|cbn; lia|cbn; lia|cbn; lia|cbn; lia|cbn; lia|].
  exists s2, p1, l1, (set_bufs <[i:=s2]> h1), (slice l1 (sb_size s1) n).
  split_and!; auto.
  - rewrite (bind_ok _ _ _ tt (set_bufs <[i:=s2]> h1)).
    + cbn. by replace (sb_size s1 + n - n) with (sb_size s1) by lia.
    + unfold modify_buf. mstep (run_deref V1). rewrite wrap_small by lia. done.
  - by eapply eff_trans.
  - rewrite <- C1. unfold cur. cbn. rewrite Hp0.
    replace (sb_size s1 + n - sb_off s1) with ((sb_size s1 - sb_off s1) + n) by lia.
    rewrite slice_app by lia. do 2 f_equal. lia.
  - apply zlen_slice; lia.
Qed.

Lemma run_reserve_err {rc h i s p l} (V : view rc h i s p l) n : 0 <= n ->
  mutable s = false \/ sb_max_size s < n + zlen (cur s p l) ->
  sshbuf_reserve i n h =
    (Err (if mutable s then SSH_ERR_NO_BUFFER_SPACE else SSH_ERR_BUFFER_READ_ONLY), h).
Proof.
  intros Hn Hc. unfold sshbuf_reserve, sshbuf_allocate.
  pose proof (run_check_reserve V n Hn) as R. destruct (mutable s).
  - rewrite (proj2 (Z.leb_gt _ _)) in R by (destruct Hc; [done|lia]).
    rewrite (bind_err _ _ _ SSH_ERR_NO_BUFFER_SPACE h); [done|]. by mstep R.
  - rewrite (bind_err _ _ _ SSH_ERR_BUFFER_READ_ONLY h); [done|]. by mstep R.
Qed.

(** ** Reset and maximum size *)

(** A mutable, empty buffer has its whole block cleared: the end of
    [sshbuf_reset]. *)
Lemma run_clear {rc h i s p l} (V : view rc h i s p l) :
  mutable s = true -> sb_off s = sb_size s ->
  exists h', (s0 ← deref i; match sb_d s0 with
       | Some d => store d (zeros (sb_alloc s0)) | None => crash end) h = (Ok tt, h') /\
    eff rc i h h' /\ contents h' i = Some [].
Proof.
  intros MUT He. mstep (run_deref V).
  destruct (view_excl V MUT) as (_ & _ & -> & Hp0 & _). pose proof (view_bounds V).
  destruct (run_store V MUT 0 (zeros (sb_alloc s))) as (h2 & R2 & E2 & V2);
    [lia|rewrite zlen_zeros; lia|auto with cbytes|].
  replace (ptr_add p 0) with p in R2 by (destruct p; unfold ptr_add; cbn; f_equal; lia).
  exists h2. split_and!; [done..|]. rewrite (view_contents V2). unfold cur.
  by rewrite He, Z.sub_diag, slice_0.
Qed.

(** [sshbuf_reset] empties the buffer. The allocation goes back to
    [SSHBUF_SIZE_INIT], which must not exceed the buffer's maximum. *)
Lemma run_reset {rc h i s p l} (V : view rc h i s p l) :
  (mutable s = true -> SSHBUF_SIZE_INIT <= sb_max_size s) ->
  exists h', sshbuf_reset i h = (Ok tt, h') /\ eff rc i h h' /\ contents h' i = Some [].
Proof.
  intros Hmx. pose proof (view_bounds V) as B. unfold sshbuf_reset. mstep (run_deref V).
  destruct (sb_readonly s || (sb_refcount s >? 1)) eqn:C.
  { destruct (view_meta V (with_off (sb_size s) s)) as [E1 V1];
      [done..|cbn; lia|cbn; lia|cbn; lia|cbn; lia|cbn; lia|cbn; lia|].
    eexists. split; [done|]. split; [done|]. rewrite (view_contents V1). unfold cur. cbn.
    by rewrite Z.sub_diag, slice_0. }
  assert (mutable s = true) as MUT by (unfold mutable; by rewrite C). specialize (Hmx MUT).
  mstep (run_check_sanity V). set (s1 := with_off 0 (with_size 0 s)).
  destruct (view_meta V s1) as [E1 V1]; [done..|cbn; lia|cbn; lia|cbn; lia|cbn; lia|cbn; lia|cbn; lia|].
  rewrite (bind_ok _ _ _ tt (set_bufs <[i:=s1]> h)) by done.
  assert (forall s' p' l' h', view rc h' i s' p' l' -> mutable s' = true ->
    sb_off s' = sb_size s' -> eff rc i h h' ->
    exists h'', (s0 ← deref i; match sb_d s0 with
       | Some d => store d (zeros (sb_alloc s0)) | None => crash end) h' = (Ok tt, h'') /\
       eff rc i h h'' /\ contents h'' i = Some []) as Hfin.
  { intros s' p' l' h' V' M' Hz E'. destruct (run_clear V' M' Hz) as (h2 & R2 & E2 & C2).
    exists h2. split_and!; auto. by eapply eff_trans. }
  destruct (Z.eqb_spec (sb_alloc s) SSHBUF_SIZE_INIT) as [He|He].
  { by apply (Hfin s1 p l). }
  change (sb_d s) with (sb_d s1). change (sb_alloc s) with (sb_alloc s1).
  destruct (run_realloc V1 MUT SSHBUF_SIZE_INIT) as [[R2 Ho2]|(b' & l' & h2 & R2 & Hb2 & E2 & V2 & C2)].
  { unfold SSHBUF_SIZE_INIT in *. cbn. lia. }
  - rewrite (bind_ok _ _ _ tt (set_tick (set_bufs <[i:=s1]> h))) by (by mstep R2).
    apply (Hfin s1 p l); auto; [by apply view_tick|]. eapply eff_trans; [done|].
    apply eff_tick; [apply V1|]. rewrite (v_buf _ _ _ _ _ _ V1). eauto.
  - set (s2 := with_data (Some (b', 0)) SSHBUF_SIZE_INIT s1) in *.
    rewrite (bind_ok _ _ _ tt (set_bufs <[i:=s2]> h2)).
    + apply (Hfin s2 (b', 0) l'); auto. by eapply eff_trans.
    + mstep R2. unfold modify_buf. rewrite (bind_ok _ _ _ s1 h2); [done|].
      unfold deref. by rewrite Hb2, (v_buf _ _ _ _ _ _ V1).
Qed.

(** [sshbuf_set_max_size] never changes the contents; it succeeds only with a
    maximum the current contents fit. *)
Lemma run_set_max_size {rc h i s p l} (V : view rc h i s p l) m : 0 <= m ->
  exists r h', sshbuf_set_max_size i m h = (r, h') /\ r <> Crash /\ eff rc i h h' /\
    contents h' i = contents h i /\
    (r = Ok tt -> exists s', h_bufs h' !! i = Some s' /\ sb_max_size s' = m).
Proof.
  intros Hm. pose proof (view_bounds V) as B. unfold sshbuf_set_max_size.
  assert (eff rc i h h) as E0 by (apply eff_refl; [apply V|]; rewrite (v_buf _ _ _ _ _ _ V); eauto).
  mstep (run_check_sanity V). mstep (run_deref V).
  destruct (Z.eqb_spec m (sb_max_size s)) as [->|Hne].
  { eexists _, h. split_and!; eauto. intros _. exists s. split; [apply V|done]. }
  destruct (sb_readonly s || (sb_refcount s >? 1)) eqn:C.
  { eexists _, h. by split_and!. }
  assert (mutable s = true) as MUT by (unfold mutable; by rewrite C).
  destruct (Z.gtb_spec m SSHBUF_SIZE_MAX) as [Hbig|Hbig]; [eexists _, h; by split_and!|].
  unfold SSHBUF_SIZE_MAX in Hbig.
  destruct (run_maybe_pack V (m <? sb_size s))
    as (s1 & l1 & h1 & R1 & E1 & V1 & ID1 & C1 & D1 & A1 & M1 & O1 & F1).
  mstep R1. mstep (run_deref V1). pose proof (view_bounds V1) as B1.
  assert (mutable s1 = true) as MUT1.
  { destruct ID1 as (_ & Hr & Ho). revert MUT. unfold mutable. by rewrite Hr, Ho. }
  assert (contents h1 i = contents h i) as K1
    by (by rewrite (view_contents V), (view_contents V1), C1).
  assert (forall s' p' l' h', view rc h' i s' p' l' -> eff rc i h h' ->
    contents h' i = contents h i ->
    exists r h'', (s0 ← deref i; if m <? sb_alloc s0 then throw SSH_ERR_NO_BUFFER_SPACE
       else modify_buf i (with_max_size m)) h' = (r, h'') /\ r <> Crash /\ eff rc i h h'' /\
       contents h'' i = contents h i /\
       (r = Ok tt -> exists s', h_bufs h'' !! i = Some s' /\ sb_max_size s' = m)) as Hfin.
  { intros s' p' l' h' V' E' K'. mstep (run_deref V').
    destruct (Z.ltb_spec m (sb_alloc s')); [eexists _, h'; by split_and!|].
    pose proof (view_bounds V').
    destruct (view_meta V' (with_max_size m s')) as [E2 V2];
      [done..|cbn; lia|cbn; lia|cbn; lia|cbn; lia|cbn; lia|cbn; lia|].
    eexists (Ok tt), _. split; [unfold modify_buf; by mstep (run_deref V')|].
    split_and!; [done|by eapply eff_trans| |].
    - rewrite <- K', (view_contents V'), (view_contents V2). done.
    - intros _. eexists. split; [apply (v_buf _ _ _ _ _ _ V2)|done]. }
  destruct ((m <? sb_alloc s1) && (m >? sb_size s1)) eqn:C2; [|by apply (Hfin s1 p l1)].
  zbool. set (rl := if _ >? m then _ else _).
  assert (sb_size s1 <= rl <= sb_max_size s1) as Hrl.
  { unfold rl, SSHBUF_SIZE_INIT. pose proof (roundup_spec (sb_size s1) ltac:(lia)).
    destruct (Z.ltb_spec (sb_size s1) 256);
      [destruct (Z.gtb_spec 256 m)|destruct (Z.gtb_spec (ROUNDUP (sb_size s1) SSHBUF_SIZE_INC) m)]; lia. }
  destruct (run_realloc V1 MUT1 rl Hrl) as [[R2 Ho2]|(b' & l' & h2 & R2 & Hb2 & E2 & V2 & K2)].
  - rewrite (bind_err _ _ _ SSH_ERR_ALLOC_FAIL (set_tick h1)) by (by mstep R2).
    eexists _, (set_tick h1). split_and!; [done|done| |done|done].
    eapply eff_trans; [done|]. apply eff_tick; [apply V1|]. rewrite (v_buf _ _ _ _ _ _ V1). eauto.
  - set (s2 := with_data (Some (b', 0)) rl s1) in *.
    rewrite (bind_ok _ _ _ tt (set_bufs <[i:=s2]> h2)).
    + apply (Hfin s2 (b', 0) l'); auto; [by eapply eff_trans|].
      by rewrite (view_contents V2), (view_contents V), K2, C1.
    + mstep R2. unfold modify_buf. rewrite (bind_ok _ _ _ s1 h2); [done|].
      unfold deref. by rewrite Hb2, (v_buf _ _ _ _ _ _ V1).
Qed.
