(* ===== verification/SshbufLife.v ===== *)
(** * Lifetime of buffers: creation, sharing and release *)

From S2P Require Import Prelude Ssherr Sshbuf SshbufInv SshbufOps.

(** One more (or one less) reference held by callers on buffer [i]. *)
Definition rc_add (rc : nat -> Z) (i : bufp) (n : Z) : nat -> Z :=
  fun j => if decide (j = i) then rc j + n else rc j.

Lemma rc_add_eq rc i n : rc_add rc i n i = rc i + n.
Proof. unfold rc_add. by rewrite decide_True. Qed.

Lemma rc_add_ne rc i n j : j <> i -> rc_add rc i n j = rc j.
Proof. intros. unfold rc_add. by rewrite decide_False. Qed.

Lemma nrefs_zero m i : (forall j s, m !! j = Some s -> sb_parent s <> Some i) -> nrefs m i = 0.
Proof.
  intros Hno. unfold nrefs.
  enough (filter (child_of i) m = ∅) as -> by (by rewrite map_size_empty).
  apply map_empty. intros j. apply map_lookup_filter_None. right.
  intros s Hj Hc. by apply (Hno j s).
Qed.

Lemma nrefs_dead {rc h} (INV : heap_inv rc h) k : h_bufs h !! k = None -> nrefs (h_bufs h) k = 0.
Proof.
  intros Hk. apply nrefs_zero. intros j s Hj Hp.
  destruct (inv_data _ _ INV j s Hj) as (p & l & D).
  destruct (do_parent _ _ _ _ _ _ D k Hp) as (_ & _ & t & _ & Ht & _). congruence.
Qed.

Lemma rc_dead {rc h} (INV : heap_inv rc h) k : h_bufs h !! k = None -> rc k = 0.
Proof.
  intros Hk. pose proof (inv_rc _ _ INV k).
  destruct (decide (1 <= rc k)) as [H1|]; [|lia].
  destruct (inv_live _ _ INV k H1). congruence.
Qed.

(** ** Adding a buffer *)

(** Memory only gains blocks. *)
Definition mem_grows (h h' : heap) : Prop :=
  (forall b l, h_mem h !! b = Some l -> h_mem h' !! b = Some l) /\
  (forall b l, h_mem h' !! b = Some l -> (b < h_next h')%nat /\ bytes_ok l) /\
  (h_next h <= h_next h')%nat.

Lemma mem_grows_contents {rc h h'} (INV : heap_inv rc h) j :
  mem_grows h h' -> is_Some (h_bufs h !! j) -> h_bufs h' !! j = h_bufs h !! j ->
  contents h' j = contents h j.
Proof.
  intros (Hg & _ & _) [s Hs] Hb. apply contents_eq; [done|]. intros t q Ht Hq.
  destruct (inv_data _ _ INV j t Ht) as (p & l & D).
  rewrite (do_cd _ _ _ _ _ _ D) in Hq. injection Hq as ->.
  rewrite (do_mem _ _ _ _ _ _ D). apply Hg, (do_mem _ _ _ _ _ _ D).
Qed.

(** A buffer without a parent, over a block that no writable buffer shares. *)
Lemma inv_add_plain rc h h' k s p l :
  heap_inv rc h -> h_bufs h !! k = None -> (k < h_next h')%nat ->
  h_bufs h' = <[k := s]> (h_bufs h) -> mem_grows h h' ->
  sane k s = true -> sb_refcount s = 1 -> data_ok (h_bufs h') (h_mem h') k s p l ->
  sb_parent s = None ->
  (forall j t q, h_bufs h !! j = Some t -> sb_cd t = Some q -> q.1 = p.1 ->
     sb_readonly s = true /\ sb_readonly t = true) ->
  heap_inv (rc_add rc k 1) h'.
Proof.
  intros INV Hk Hlt Hb (Hg & Hf & Hn) Hsane Hr D Hpar Hsh.
  pose proof (rc_dead INV k Hk) as Hrck.
  constructor; rewrite ?Hb.
  - intros j t Ht. apply lookup_insert_Some in Ht as [[<- <-]|[_ Ht]]; [done|].
    by apply (inv_sane _ _ INV).
  - intros j t Ht. apply lookup_insert_Some in Ht as [[<- <-]|[Hne Ht]].
    { exists p, l. by rewrite Hb in D. }
    destruct (inv_data _ _ INV j t Ht) as (q & l0 & [D1 D2 D3 D4 D5 D6 D7]).
    exists q, l0. constructor; auto. intros r Hr'.
    destruct (D7 r Hr') as (? & ? & u & w & Hu & ?). split_and!; auto. exists u, w.
    rewrite lookup_insert_ne; [done|congruence].
  - intros j t Ht. rewrite nrefs_insert_new by done. rewrite Hpar, decide_False by done.
    rewrite Z.add_0_r. apply lookup_insert_Some in Ht as [[<- <-]|[Hne Ht]].
    + rewrite rc_add_eq, Hrck, (nrefs_dead INV) by done. lia.
    + rewrite rc_add_ne by done. by apply (inv_ref _ _ INV).
  - intros j. unfold rc_add. pose proof (inv_rc _ _ INV j). case_decide; lia.
  - intros j Hj. destruct (decide (j = k)) as [->|Hne].
    + rewrite lookup_insert_eq. eauto.
    + rewrite rc_add_ne in Hj by done. rewrite lookup_insert_ne by done.
      by apply (inv_live _ _ INV).
  - intros j t Ht. apply lookup_insert_Some in Ht as [[<- <-]|[_ Ht]]; [done|].
    eapply Nat.lt_le_trans; [by eapply (inv_fresh_buf _ _ INV)|done].
  - apply Hf.
  - apply Hf.
  - intros i j t u q r Ht Hu Hw Hq Hr' Heq. pose proof (do_cd _ _ _ _ _ _ D) as Hcd.
    apply lookup_insert_Some in Ht as [[<- <-]|[Hi Ht]];
      apply lookup_insert_Some in Hu as [[<- <-]|[Hj Hu]]; auto.
    + destruct (Hsh j u r) as [? _]; [done|done|congruence|]. congruence.
    + destruct (Hsh i t q) as [_ ?]; [done|done|congruence|]. congruence.
    + by eapply (inv_uniq _ _ INV i j t u q r).
Qed.

(** A child over its parent's block: the parent's count goes up. *)
Lemma inv_add_child rc h h' k c q t r p l :
  heap_inv rc h -> h_bufs h !! k = None -> (q < k)%nat -> (k < h_next h')%nat ->
  h_bufs h !! q = Some t -> sb_refcount t < SSHBUF_REFS_MAX ->
  h_bufs h' = <[k := c]> (<[q := with_refcount (sb_refcount t + 1) t]> (h_bufs h)) ->
  mem_grows h h' -> sane k c = true -> sb_refcount c = 1 ->
  sb_readonly c = true -> sb_parent c = Some q -> sb_cd t = Some r ->
  sb_cd c = Some p -> h_mem h' !! p.1 = Some l -> r.1 = p.1 -> r.2 <= p.2 -> 0 <= p.2 ->
  p.2 + sb_alloc c <= zlen l -> 0 <= sb_off c ->
  heap_inv (rc_add rc k 1) h'.
Proof.
  intros INV Hk Hqk Hlt Hq Hmax Hb (Hg & Hf & Hn) Hsane Hr Hro Hpar Hcdt Hcdc Hm Hb1 Hb2 Hp Hpl Hoff.
  set (t' := with_refcount (sb_refcount t + 1) t) in *.
  pose proof (rc_dead INV k Hk) as Hrck.
  assert (forall j u, h_bufs h !! j = Some u -> exists u', h_bufs h' !! j = Some u' /\
    sb_cd u' = sb_cd u) as Hkeep.
  { intros j u Hu. rewrite Hb, lookup_insert_ne by congruence.
    destruct (decide (q = j)) as [<-|]; [|rewrite lookup_insert_ne by done; eauto].
    rewrite lookup_insert_eq. exists t'. split; [done|]. cbn. congruence. }
  assert (forall j u', h_bufs h' !! j = Some u' -> j <> k -> exists u, h_bufs h !! j = Some u /\
    sb_cd u' = sb_cd u /\ sb_readonly u' = sb_readonly u /\ sb_parent u' = sb_parent u /\
    sb_alloc u' = sb_alloc u /\ sb_off u' = sb_off u /\ sane j u' = true /\
    sb_refcount u' = sb_refcount u + (if decide (q = j) then 1 else 0)) as Hback.
  { intros j u' Hu Hjk. rewrite Hb, lookup_insert_ne in Hu by done.
    destruct (decide (q = j)) as [<-|Hne].
    - rewrite lookup_insert_eq in Hu. injection Hu as <-. exists t. split_and!; auto.
      pose proof (proj1 (sane_spec q t) (inv_sane _ _ INV q t Hq)) as (A1 & A2 & A3 & A4 & A5).
      apply sane_spec. unfold t'. cbn. split_and!; auto; lia.
    - rewrite lookup_insert_ne in Hu by done. exists u'. split_and!; auto.
      + by apply (inv_sane _ _ INV).
      + lia. }
  assert (h_bufs h' !! k = Some c) as Hkc by (rewrite Hb; apply lookup_insert_eq).
  constructor.
  - intros j u Hu. destruct (decide (j = k)) as [->|Hne]; [congruence|].
    by destruct (Hback j u Hu Hne) as (? & ? & ? & ? & ? & ? & ? & ? & ?).
  - intros j u Hu. destruct (decide (j = k)) as [->|Hne].
    { rewrite Hkc in Hu. injection Hu as <-. exists p, l. constructor; auto; [congruence|].
      intros z Hz. assert (z = q) as -> by congruence.
      destruct (Hkeep q t Hq) as (u' & ? & ?). split_and!; auto. exists u', r.
      split_and!; auto. congruence. }
    destruct (Hback j u Hu Hne) as (u0 & Hu0 & C1 & C2 & C3 & C4 & C5 & _).
    destruct (inv_data _ _ INV j u0 Hu0) as (w & l0 & [D1 D2 D3 D4 D5 D6 D7]).
    exists w, l0. constructor; auto; try congruence.
    + rewrite C2, C3. auto.
    + rewrite C3, C2. intros z Hz. destruct (D7 z Hz) as (? & ? & v & x & Hv & ? & ? & ?).
      destruct (Hkeep z v Hv) as (v' & ? & ?). split_and!; auto. exists v', x.
      split_and!; auto. congruence.
  - intros j u Hu. rewrite Hb, nrefs_insert_new by (rewrite lookup_insert_ne by lia; done).
    rewrite (nrefs_insert_same _ _ t) by done. rewrite Hpar.
    destruct (decide (j = k)) as [->|Hne].
    + rewrite Hkc in Hu. injection Hu as <-. rewrite rc_add_eq, Hrck, (nrefs_dead INV) by done.
      rewrite decide_False by (intros [=]; lia). lia.
    + destruct (Hback j u Hu Hne) as (u0 & Hu0 & _ & _ & _ & _ & _ & _ & Hrf).
      rewrite rc_add_ne by done. rewrite Hrf, (inv_ref _ _ INV j u0 Hu0).
      destruct (decide (q = j)); destruct (decide (Some q = Some j)); simplify_eq; lia.
  - intros j. unfold rc_add. pose proof (inv_rc _ _ INV j). case_decide; lia.
  - intros j Hj. destruct (decide (j = k)) as [->|Hne]; [eauto|].
    rewrite rc_add_ne in Hj by done. destruct (inv_live _ _ INV j Hj) as [u Hu].
    destruct (Hkeep j u Hu) as (u' & ? & _). eauto.
  - intros j u Hu. destruct (decide (j = k)) as [->|Hne]; [done|].
    destruct (Hback j u Hu Hne) as (u0 & Hu0 & _).
    eapply Nat.lt_le_trans; [by eapply (inv_fresh_buf _ _ INV)|done].
  - apply Hf.
  - apply Hf.
  - intros i j u v x y Hu Hv Hw Hx Hy Heq.
    destruct (decide (i = k)) as [->|Hi]; [congruence|].
    destruct (decide (j = k)) as [->|Hj].
    { rewrite Hkc in Hv. injection Hv as <-. rewrite Hpar. eauto. }
    destruct (Hback i u Hu Hi) as (u0 & Hu0 & C1 & C2 & _).
    destruct (Hback j v Hv Hj) as (v0 & Hv0 & C3 & _ & C4 & _).
    rewrite C4. eapply (inv_uniq _ _ INV i j u0 v0 x y); congruence.
Qed.

(** ** Releasing *)

Lemma inv_ext rc rc' h : (forall i, rc' i = rc i) -> heap_inv rc h -> heap_inv rc' h.
Proof.
  intros E []. constructor; auto.
  - intros. rewrite E. auto.
  - intros. rewrite E. auto.
  - intros i. rewrite E. auto.
Qed.

(** Dropping one of several references. *)
Lemma inv_drop_ref rc h i s :
  heap_inv rc h -> h_bufs h !! i = Some s -> 1 <= rc i -> 1 < sb_refcount s ->
  heap_inv (rc_add rc i (-1)) (set_bufs <[i := with_refcount (sb_refcount s - 1) s]> h).
Proof.
  intros INV Hs Hrc Hr. set (s' := with_refcount (sb_refcount s - 1) s).
  assert (forall j t, <[i := s']> (h_bufs h) !! j = Some t -> exists u, h_bufs h !! j = Some u /\
    sb_cd t = sb_cd u /\ sb_readonly t = sb_readonly u /\ sb_parent t = sb_parent u /\
    sb_alloc t = sb_alloc u /\ sb_off t = sb_off u /\ sane j t = true /\
    sb_refcount t = sb_refcount u - (if decide (i = j) then 1 else 0)) as Hback.
  { intros j t Ht. destruct (decide (i = j)) as [<-|Hne].
    - rewrite lookup_insert_eq in Ht. injection Ht as <-. exists s. split_and!; auto.
      pose proof (proj1 (sane_spec i s) (inv_sane _ _ INV i s Hs)) as (A1 & A2 & A3 & A4 & A5).
      apply sane_spec. unfold s'. cbn. split_and!; auto; lia.
    - rewrite lookup_insert_ne in Ht by done. exists t. split_and!; auto; [|lia].
      by apply (inv_sane _ _ INV). }
  assert (forall j u, h_bufs h !! j = Some u -> exists t, <[i := s']> (h_bufs h) !! j = Some t /\
    sb_cd t = sb_cd u) as Hkeep.
  { intros j u Hu. destruct (decide (i = j)) as [<-|].
    - exists s'. rewrite lookup_insert_eq. rewrite Hs in Hu. by injection Hu as <-.
    - exists u. by rewrite lookup_insert_ne. }
  constructor; cbn [h_bufs h_mem h_next set_bufs].
  - intros j t Ht. by destruct (Hback j t Ht) as (? & ? & ? & ? & ? & ? & ? & ? & ?).
  - intros j t Ht. destruct (Hback j t Ht) as (u & Hu & C1 & C2 & C3 & C4 & C5 & _).
    destruct (inv_data _ _ INV j u Hu) as (p & l & [D1 D2 D3 D4 D5 D6 D7]).
    exists p, l. constructor; auto; try congruence.
    + rewrite C2, C3. auto.
    + rewrite C3, C2. intros z Hz. destruct (D7 z Hz) as (? & ? & v & x & Hv & ? & ? & ?).
      destruct (Hkeep z v Hv) as (v' & ? & ?). split_and!; auto. exists v', x.
      split_and!; auto. congruence.
  - intros j t Ht. rewrite (nrefs_insert_same _ _ s) by done.
    destruct (Hback j t Ht) as (u & Hu & _ & _ & _ & _ & _ & _ & Hrf).
    rewrite Hrf, (inv_ref _ _ INV j u Hu). unfold rc_add.
    destruct (decide (i = j)), (decide (j = i)); try congruence; lia.
  - intros j. unfold rc_add. pose proof (inv_rc _ _ INV j). case_decide; subst; lia.
  - intros j Hj. assert (1 <= rc j) as Hj'.
    { revert Hj. unfold rc_add. case_decide; subst; lia. }
    destruct (inv_live _ _ INV j Hj') as [u Hu]. destruct (Hkeep j u Hu) as (t & ? & _). eauto.
  - intros j t Ht. destruct (Hback j t Ht) as (u & Hu & _). by eapply (inv_fresh_buf _ _ INV).
  - apply (inv_fresh_mem _ _ INV).
  - apply (inv_bytes _ _ INV).
  - intros j k u v x y Hu Hv Hw Hx Hy Heq.
    destruct (Hback j u Hu) as (u0 & Hu0 & C1 & C2 & _).
    destruct (Hback k v Hv) as (v0 & Hv0 & C3 & _ & C4 & _).
    rewrite C4. eapply (inv_uniq _ _ INV j k u0 v0 x y); congruence.
Qed.

(** Removing a buffer whose only reference is the caller's. Its reference on
    the parent passes to the caller. *)
Definition rc_release (rc : nat -> Z) (i : bufp) (par : option bufp) : nat -> Z :=
  match par with
  | Some q => rc_add (rc_add rc i (-1)) q 1
  | None => rc_add rc i (-1)
  end.

Lemma rc_release_ne rc i par j : j <> i -> par <> Some i ->
  rc_release rc i par j = rc j + (if decide (par = Some j) then 1 else 0).
Proof.
  intros Hj Hp. destruct par as [q|]; cbn.
  - destruct (decide (j = q)) as [->|Hq].
    + rewrite rc_add_eq, rc_add_ne, decide_True by congruence. done.
    + rewrite !rc_add_ne, decide_False by congruence. lia.
  - rewrite rc_add_ne, decide_False by congruence. lia.
Qed.

Lemma rc_release_eq rc i par : par <> Some i -> rc_release rc i par i = rc i - 1.
Proof.
  intros Hp. destruct par as [q|]; cbn; [rewrite rc_add_ne by congruence|]; rewrite rc_add_eq; lia.
Qed.

Lemma inv_remove rc h h' i s :
  heap_inv rc h -> h_bufs h !! i = Some s -> rc i = 1 -> nrefs (h_bufs h) i = 0 ->
  h_bufs h' = delete i (h_bufs h) -> h_next h' = h_next h ->
  (forall b, h_mem h' !! b = h_mem h !! b \/
    (h_mem h' !! b = None /\ sb_readonly s = false /\ buf_block h i b)) ->
  heap_inv (rc_release rc i (sb_parent s)) h'.
Proof.
  intros INV Hs Hrc Hnr Hb Hn Hm.
  assert (sb_parent s <> Some i) as Hpi.
  { by pose proof (proj1 (sane_spec i s) (inv_sane _ _ INV i s Hs)) as (_ & ? & _). }
  assert (forall j t, h_bufs h' !! j = Some t -> j <> i /\ h_bufs h !! j = Some t) as Hback.
  { intros j t Ht. rewrite Hb in Ht. apply lookup_delete_Some in Ht as [? ?]. auto. }
  assert (forall j t q, h_bufs h' !! j = Some t -> sb_cd t = Some q ->
    h_mem h' !! q.1 = h_mem h !! q.1) as Hmem.
  { intros j t q Ht Hq. destruct (Hback j t Ht) as [Hj Ht'].
    destruct (Hm q.1) as [?|(_ & Hw & (s0 & p & Hs0 & Hp & Heq))]; [done|].
    rewrite Hs in Hs0. injection Hs0 as <-. pose proof (inv_ref _ _ INV i s Hs).
    exfalso. eapply (unshared INV i s p j t q); eauto; lia. }
  constructor.
  - intros j t Ht. destruct (Hback j t Ht) as [_ ?]. by apply (inv_sane _ _ INV).
  - intros j t Ht. destruct (Hback j t Ht) as [Hj Ht'].
    destruct (inv_data _ _ INV j t Ht') as (q & l & [D1 D2 D3 D4 D5 D6 D7]).
    exists q, l. constructor; auto; [by rewrite (Hmem j t q)|].
    intros z Hz. destruct (D7 z Hz) as (? & ? & v & x & Hv & ?). split_and!; auto.
    exists v, x. rewrite Hb, lookup_delete_ne; [done|].
    intros <-. pose proof (nrefs_pos _ _ _ _ Ht' Hz). lia.
  - intros j t Ht. destruct (Hback j t Ht) as [Hj Ht'].
    rewrite Hb, (nrefs_delete _ _ s), rc_release_ne by done.
    rewrite (inv_ref _ _ INV j t Ht'). lia.
  - intros j. pose proof (inv_rc _ _ INV j). destruct (decide (j = i)) as [->|].
    + rewrite rc_release_eq by done. lia.
    + rewrite rc_release_ne by done. case_decide; lia.
  - intros j Hj. destruct (decide (j = i)) as [->|Hne].
    { rewrite rc_release_eq in Hj by done. lia. }
    rewrite Hb, lookup_delete_ne by done. rewrite rc_release_ne in Hj by done.
    case_decide as Hd; [|apply (inv_live _ _ INV); lia].
    destruct (inv_data _ _ INV i s Hs) as (p & l & D).
    destruct (do_parent _ _ _ _ _ _ D j Hd) as (_ & _ & t & _ & Ht & _). eauto.
  - intros j t Ht. rewrite Hn. destruct (Hback j t Ht) as [_ ?]. by eapply (inv_fresh_buf _ _ INV).
  - intros b l Hl. rewrite Hn. destruct (Hm b) as [E|[E _]]; rewrite E in Hl; [|done].
    by eapply (inv_fresh_mem _ _ INV).
  - intros b l Hl. destruct (Hm b) as [E|[E _]]; rewrite E in Hl; [|done].
    by eapply (inv_bytes _ _ INV).
  - intros j k u v x y Hu Hv Hw Hx Hy Heq. destruct (Hback j u Hu), (Hback k v Hv).
    by eapply (inv_uniq _ _ INV j k u v x y).
Qed.

(** ** Framing: [sshbuf_free] of an ancestor does not look at the buffer being
    freed *)

Section Frame.
Context (k : bufp) (s0 : sshbuf).

Definition ins (h : heap) : heap := set_bufs <[k := s0]> h.

Definition framed {A} (m : HM A) (h : heap) : Prop :=
  m (ins h) = ((m h).1, ins (m h).2).

Lemma framed_bind {A B} (m : HM A) (f : A -> HM B) h :
  framed m h -> (forall a h', m h = (Ok a, h') -> framed (f a) h') -> framed (m ≫= f) h.
Proof.
  unfold framed, mbind, M_bind. intros -> Hf.
  destruct (m h) as [[a|e|] h'] eqn:E; cbn; auto.
Qed.

Lemma framed_ret {A} (a : A) h : framed (mret a) h.
Proof. done. Qed.

Lemma framed_deref b h : b <> k -> framed (deref b) h.
Proof.
  intros Hb. unfold framed, deref, ins. cbn. rewrite lookup_insert_ne by done.
  by destruct (h_bufs h !! b).
Qed.

Lemma framed_assign b s h : b <> k -> framed (assign b s) h.
Proof.
  intros Hb. unfold framed, assign, ins, set_bufs. cbn. by rewrite insert_insert_ne.
Qed.

Lemma framed_modify b f h : b <> k -> framed (modify_buf b f) h.
Proof.
  intros Hb. apply framed_bind; [by apply framed_deref|]. intros. by apply framed_assign.
Qed.

Lemma framed_sanity b h : b <> k -> framed (sshbuf_check_sanity (Some b)) h.
Proof.
  intros Hb. apply framed_bind; [by apply framed_deref|]. intros s h' _.
  by destruct (sane b s).
Qed.

Lemma framed_freezero p n h : framed (freezero p n) h.
Proof.
  destruct p as [p|]; [|done]. apply framed_bind.
  - unfold framed, store, ins. cbn. destruct (h_mem h !! p.1); [|done]. by case_match.
  - intros _ h' _. unfold framed, free_block, ins. cbn.
    destruct (h_mem h' !! p.1); [|done]. by case_match.
Qed.

Lemma framed_free_buf b h : b <> k -> framed (free_buf b) h.
Proof.
  intros Hb. unfold framed, free_buf, ins. cbn. rewrite lookup_insert_ne by done.
  destruct (h_bufs h !! b); [|done]. cbn. unfold set_bufs. cbn. by rewrite delete_insert_ne.
Qed.

(** Parent pointers of buffers below [k] stay below [k]. *)
Definition below (h : heap) : Prop := forall j s q,
  h_bufs h !! j = Some s -> (j < k)%nat -> sb_parent s = Some q -> (q < k)%nat.

Lemma framed_free fuel : forall b h, (b < k)%nat -> below h ->
  framed (sshbuf_free_fuel fuel (Some b)) h.
Proof.
  induction fuel as [|fuel IH]; intros b h Hb Hbel; [done|].
  assert (b <> k) as Hne by lia. cbn [sshbuf_free_fuel].
  apply framed_bind; [by apply framed_sanity|]. intros a0 h1 R1.
  assert (h1 = h) as E1.
  { revert R1. unfold sshbuf_check_sanity, deref, mbind, M_bind, crash.
    destruct (h_bufs h !! b); [|done]. case_match; [|done]. by intros [=]. }
  subst h1. clear R1 a0.
  apply framed_bind; [by apply framed_modify|]. intros a1 h1 R2.
  assert (below h1) as Hbel1.
  { revert R2. unfold modify_buf, deref, assign, mbind, M_bind.
    destruct (h_bufs h !! b) as [s|] eqn:E; [|done]. intros R2 j t q Ht. injection R2 as _ <-. cbn in Ht. apply lookup_insert_Some in Ht as [[<- <-]|[_ Ht]].
    - cbn. by apply Hbel.
    - by apply Hbel. }
  apply framed_bind; [by apply framed_deref|]. intros s h2 R3.
  assert (h2 = h1 /\ h_bufs h1 !! b = Some s) as [-> Hs].
  { revert R3. unfold deref. destruct (h_bufs h1 !! b); [|done]. intros [= -> ->]. auto. }
  destruct (sb_refcount s >? 0); [done|].
  apply framed_bind.
  { destruct (sb_parent s) as [q|] eqn:Hq; [|by destruct fuel]. apply IH; [|done].
    by apply (Hbel1 b s). }
  intros _ h2 _. apply framed_bind; [by apply framed_modify|]. intros _ h3 _.
  apply framed_bind; [by apply framed_deref|]. intros s' h4 _.
  apply framed_bind; [|intros _ h5 _; by apply framed_free_buf].
  destruct (sb_readonly s'); [done|apply framed_freezero].
Qed.
End Frame.

(** ** [sshbuf_free] *)

Lemma inv_below {rc h} (INV : heap_inv rc h) k : below k h.
Proof.
  intros j s q Hj Hlt Hq. destruct (inv_data _ _ INV j s Hj) as (p & l & D).
  destruct (do_parent _ _ _ _ _ _ D q Hq) as (_ & ? & _). lia.
Qed.

(** The buffers that stay keep their contents. *)
Definition survivors (h h' : heap) : Prop :=
  forall j, is_Some (h_bufs h' !! j) -> contents h' j = contents h j.

(** What [sshbuf_free_fuel] does to the last reference of a buffer once its
    parent has been released: the data block and the structure go. *)
Lemma run_free_tail k s h : h_bufs h !! k = None -> sb_refcount s = 0 ->
  (sb_readonly s = false -> exists b l, sb_d s = Some (b, 0) /\ h_mem h !! b = Some l /\
     0 <= sb_alloc s <= zlen l) ->
  (modify_buf k (with_parent None);;
   s ← deref k;
   (if sb_readonly s then mret tt else freezero (sb_d s) (sb_alloc s));;
   free_buf k) (ins k s h) =
  (Ok tt, if sb_readonly s then h
          else match sb_d s with Some d => set_mem (delete d.1) h | None => h end).
Proof.
  intros Hk Hr Hw.
  assert (h_bufs (ins k s h) !! k = Some s) as Hins by (cbn; apply lookup_insert_eq).
  set (s1 := with_parent None s).
  assert (modify_buf k (with_parent None) (ins k s h) = (Ok tt, ins k s1 h)) as R1.
  { unfold modify_buf. rewrite (bind_ok _ _ _ s (ins k s h)); [|unfold deref; by rewrite Hins].
    unfold assign, ins, set_bufs. cbn. by rewrite insert_insert_eq. }
  mstep R1. rewrite (bind_ok _ _ _ s1 (ins k s1 h)).
  2:{ unfold deref, ins. cbn. by rewrite lookup_insert_eq. }
  cbn [sb_readonly sb_d sb_alloc s1 with_parent].
  assert (forall h', h_bufs h' !! k = None -> free_buf k (ins k s1 h') = (Ok tt, h')) as Rf.
  { intros h' Hk'. unfold free_buf, ins. cbn. rewrite lookup_insert_eq. f_equal.
    unfold set_bufs. cbn. rewrite delete_insert_id by done. by destruct h'. }
  destruct (sb_readonly s).
  - rewrite (bind_ok _ _ _ tt (ins k s1 h)) by done. by apply Rf.
  - destruct Hw as (b & l & -> & Hm & Ha); [done|]. cbn [fst].
    rewrite (bind_ok _ _ _ tt (ins k s1 (set_mem (delete b) h))); [by apply Rf|].
    unfold freezero. rewrite (bind_ok _ _ _ tt (set_mem <[b := splice l 0 (zeros (sb_alloc s))]> (ins k s1 h))).
    + unfold free_block. cbn. rewrite lookup_insert_eq. f_equal. unfold set_mem, ins, set_bufs. cbn.
      by rewrite delete_insert_eq.
    + unfold store. cbn [fst snd]. replace (h_mem (ins k s1 h)) with (h_mem h) by done.
      rewrite Hm, zlen_zeros, !(proj2 (Z.leb_le _ _)) by lia. done.
Qed.

(** Releasing a caller's reference never fails, keeps the invariant, and leaves
    every surviving buffer's contents alone. *)
Lemma run_free_fuel fuel : forall i rc h,
  heap_inv rc h -> 1 <= rc i -> (i < fuel)%nat ->
  exists h', sshbuf_free_fuel fuel (Some i) h = (Ok tt, h') /\
    heap_inv (rc_add rc i (-1)) h' /\ survivors h h' /\
    (forall j, is_Some (h_bufs h' !! j) -> is_Some (h_bufs h !! j)) /\ h_next h' = h_next h.
Proof.
  induction fuel as [|fuel IH]; intros i rc h INV Hrc Hf; [lia|].
  destruct (view_intro rc h i INV Hrc) as (s & p & l & V).
  pose proof (view_bounds V) as B. pose proof (v_buf _ _ _ _ _ _ V) as Hs.
  cbn [sshbuf_free_fuel]. mstep (run_check_sanity V).
  set (s1 := with_refcount (sb_refcount s - 1) s). set (h1 := set_bufs <[i := s1]> h).
  assert (modify_buf i (λ s0, with_refcount (u32 (sb_refcount s0 - 1)) s0) h = (Ok tt, h1)) as R1.
  { unfold modify_buf. mstep (run_deref V). rewrite wrap_small by lia. done. }
  mstep R1. rewrite (bind_ok _ _ _ s1 h1).
  2:{ unfold deref, h1. cbn. by rewrite lookup_insert_eq. }
  replace (sb_refcount s1) with (sb_refcount s - 1) by done.
  destruct (Z.gtb_spec (sb_refcount s - 1) 0) as [Hr|Hr].
  { exists h1. split; [done|]. split; [by apply inv_drop_ref; auto; lia|]. split_and!; [|..|done].
    - intros j _. unfold contents, h1. cbn. destruct (decide (i = j)) as [<-|].
      + rewrite lookup_insert_eq, Hs. done.
      + by rewrite lookup_insert_ne.
    - intros j. unfold h1. cbn. destruct (decide (i = j)) as [<-|];
        [rewrite Hs; eauto|by rewrite lookup_insert_ne]. }
  pose proof (inv_ref _ _ INV i s Hs) as Href. pose proof (nrefs_nonneg (h_bufs h) i).
  assert (rc i = 1 /\ nrefs (h_bufs h) i = 0) as [Hrc1 Hnr] by lia.
  set (h0 := set_bufs (delete i) h).
  assert (heap_inv (rc_release rc i (sb_parent s)) h0) as INV0.
  { apply (inv_remove rc h h0 i s); auto. }
  assert (h_bufs h0 !! i = None) as Hi0 by apply lookup_delete_eq.
  assert (h1 = ins i s1 h0) as ->.
  { unfold h1, ins, h0, set_bufs. cbn. by rewrite insert_delete_eq. }
  assert (exists h2, sshbuf_free_fuel fuel (sb_parent s1) (ins i s1 h0) = (Ok tt, ins i s1 h2) /\
    heap_inv (rc_add rc i (-1)) h2 /\ survivors h0 h2 /\ h_bufs h2 !! i = None /\
    (forall j, is_Some (h_bufs h2 !! j) -> is_Some (h_bufs h0 !! j)) /\ h_next h2 = h_next h /\
    (sb_readonly s = false -> h2 = h0)) as (h2 & R2 & INV2 & SV2 & Hi2 & Dom2 & Nx2 & Hw2).
  { replace (sb_parent s1) with (sb_parent s) by done.
    destruct (sb_parent s) as [q|] eqn:Hq.
    - destruct (inv_data _ _ INV i s Hs) as (p' & l' & D).
      destruct (do_parent _ _ _ _ _ _ D q Hq) as (Hro & Hqi & _).
      destruct (IH q _ h0 INV0) as (h2 & R & I2 & S2 & D2 & N2).
      + cbn. rewrite rc_add_eq, rc_add_ne by lia. pose proof (inv_rc _ _ INV q). lia.
      + lia.
      + pose proof (framed_free i s1 fuel q h0 Hqi (inv_below INV0 i)) as F.
        unfold framed in F. rewrite R in F. exists h2.
        split_and!; auto.
        * eapply inv_ext; [|exact I2]. intros j. unfold rc_release, rc_add.
          repeat case_decide; subst; lia.
        * destruct (h_bufs h2 !! i) eqn:E; [|done]. destruct (D2 i) as [? Hx]; [eauto|].
          rewrite Hi0 in Hx. done.
        * congruence.
    - exists h0. split_and!; auto; [|by intros j _]. by destruct fuel. }
  mstep R2.
  rewrite (run_free_tail i s1 h2 Hi2); [|cbn; lia|].
  - cbn [sb_readonly s1 with_refcount sb_d]. destruct (sb_readonly s) eqn:Hro.
    + exists h2. split_and!; auto.
      * intros j Hj. rewrite (SV2 j Hj). apply contents_eq; [|done].
        cbn. rewrite lookup_delete_ne; [done|]. intros <-. rewrite Hi2 in Hj. by destruct Hj.
      * intros j Hj. destruct (Dom2 j Hj) as [t Ht]. cbn in Ht.
        apply lookup_delete_Some in Ht as [_ Ht]. eauto.
    + rewrite (Hw2 eq_refl) in *.
      pose proof (proj1 (sane_spec i s) (view_sane V)) as (Hd & _). rewrite (Hd Hro).
      destruct V as [_ _ _ D]. rewrite (do_cd _ _ _ _ _ _ D).
      assert (sb_parent s = None) as Hpn by (by apply (do_writable _ _ _ _ _ _ D)).
      set (h3 := set_mem (delete p.1) h0).
      assert (heap_inv (rc_add rc i (-1)) h3) as INV3.
      { pose proof (inv_remove rc h h3 i s INV Hs Hrc1 Hnr) as X. rewrite Hpn in X.
        apply X; [done..|]. intros b. unfold h3. cbn. destruct (decide (b = p.1)) as [->|Hb].
        - right. rewrite lookup_delete_eq. split_and!; auto. exists s, p. split_and!; auto.
          apply (do_cd _ _ _ _ _ _ D).
        - left. by rewrite lookup_delete_ne. }
      exists h3. split_and!; auto.
      * intros j [t Ht]. cbn in Ht. apply lookup_delete_Some in Ht as [Hj Ht].
        apply contents_eq; [cbn; by rewrite lookup_delete_ne|]. intros t' q Ht' Hq.
        cbn. rewrite lookup_delete_ne; [done|]. intros Heq. rewrite Ht in Ht'. injection Ht' as <-.
        eapply (unshared INV i s p j t q); eauto; [lia|apply (do_cd _ _ _ _ _ _ D)].
      * intros j [t Ht]. cbn in Ht. apply lookup_delete_Some in Ht as [Hj Ht]. eauto.
  - cbn. intros Hro. rewrite (Hw2 Hro).
    pose proof (proj1 (sane_spec i s) (view_sane V)) as (Hd & _). rewrite (Hd Hro).
    destruct V as [_ _ _ D]. destruct (do_writable _ _ _ _ _ _ D Hro) as [Hp0 _].
    exists p.1, l. rewrite (do_cd _ _ _ _ _ _ D). destruct p as [pb po]; cbn in *. subst.
    split_and!; auto; [apply (do_mem _ _ _ _ _ _ D)|lia|lia].
Qed.

Lemma run_free rc h i : heap_inv rc h -> 1 <= rc i ->
  exists h', sshbuf_free (Some i) h = (Ok tt, h') /\ heap_inv (rc_add rc i (-1)) h' /\
    survivors h h' /\ (forall j, is_Some (h_bufs h' !! j) -> is_Some (h_bufs h !! j)).
Proof.
  intros INV Hrc. destruct (handle_live INV i Hrc) as [s Hs].
  pose proof (inv_fresh_buf _ _ INV i s Hs).
  destruct (run_free_fuel (S (h_next h)) i rc h INV Hrc) as (h' & R & I & SV & D & _); [lia|].
  exists h'. split_and!; auto.
Qed.

(** ** Creation *)

Lemma mem_grows_same rc h h' : heap_inv rc h -> h_mem h' = h_mem h ->
  (h_next h <= h_next h')%nat -> mem_grows h h'.
Proof.
  intros INV Hm Hn. split_and!; [by rewrite Hm| |done]. intros b l Hl. rewrite Hm in Hl.
  pose proof (inv_fresh_mem _ _ INV b l Hl). split; [lia|by eapply (inv_bytes _ _ INV)].
Qed.

Lemma inv_tick rc h : heap_inv rc h -> heap_inv rc (set_tick h).
Proof. by intros []. Qed.

(** The parts of the heap that existed before are unchanged. *)
Definition extends (h h' : heap) : Prop :=
  (forall j s, h_bufs h !! j = Some s -> h_bufs h' !! j = Some s) /\ mem_grows h h'.

Lemma run_new rc h : heap_inv rc h ->
  (exists h', sshbuf_new h = (Ok None, h') /\ heap_inv rc h' /\ extends h h') \/
  exists b h', sshbuf_new h = (Ok (Some b), h') /\ h_bufs h !! b = None /\
    heap_inv (rc_add rc b 1) h' /\ extends h h' /\ contents h' b = Some [] /\
    exists s, h_bufs h' !! b = Some s /\ mutable s = true /\ sb_max_size s = SSHBUF_SIZE_MAX.
Proof.
  intros INV. unfold sshbuf_new, new_buf.
  assert (forall h0, alloc_ok h0 = (Ok (negb (h_oom h0 (h_tick h0))), set_tick h0)) as Ra by done.
  set (s0 := mk_sshbuf None None 0 0 SSHBUF_SIZE_MAX SSHBUF_SIZE_INIT false 1 None).
  destruct (h_oom h (h_tick h)) eqn:O1.
  { left. exists (set_tick h). split; [|split; [by apply inv_tick|]].
    - rewrite (bind_ok _ _ _ None (set_tick h)); [done|]. mstep (Ra h). by rewrite O1.
    - split; [done|]. by apply (mem_grows_same rc). }
  set (k := h_next h). set (h1 := set_next (set_bufs <[k := s0]> (set_tick h))).
  rewrite (bind_ok _ _ _ (Some k) h1).
  2:{ mstep (Ra h). rewrite O1. done. }
  assert (h_bufs h !! k = None) as Hk by (apply (fresh_buf INV)).
  destruct (h_oom h1 (h_tick h1)) eqn:O2.
  { left. set (h2 := set_bufs (delete k) (set_tick h1)). exists h2. split.
    - unfold new_block. rewrite (bind_ok _ _ _ None (set_tick h1)).
      + rewrite (bind_ok _ _ _ tt h2); [done|]. unfold free_buf. cbn. by rewrite lookup_insert_eq.
      + mstep (Ra h1). by rewrite O2.
    - assert (h_bufs h2 = h_bufs h) as Hb by (cbn; by rewrite delete_insert_id).
      split; [|split; [by rewrite Hb|by apply (mem_grows_same rc); auto; cbn; lia]].
      constructor; rewrite ?Hb; try apply INV; intros ? ? Hx; cbn;
        [apply (inv_fresh_buf _ _ INV) in Hx|apply (inv_fresh_mem _ _ INV) in Hx]; lia. }
  right. set (b := h_next h1). set (h2 := set_next (set_mem <[b := zeros SSHBUF_SIZE_INIT]> (set_tick h1))).
  rewrite (bind_ok _ _ _ (Some b) h2).
  2:{ unfold new_block. mstep (Ra h1). rewrite O2. done. }
  set (s1 := with_data (Some (b, 0)) SSHBUF_SIZE_INIT s0).
  set (h3 := set_bufs <[k := s1]> h2).
  rewrite (bind_ok _ _ _ tt h3).
  2:{ unfold modify_buf. rewrite (bind_ok _ _ _ s0 h2); [done|]. unfold deref. cbn.
      by rewrite lookup_insert_eq. }
  exists k, h3. split; [done|]. split; [done|].
  assert (h_bufs h3 = <[k := s1]> (h_bufs h)) as Hb3 by (cbn; by rewrite insert_insert_eq).
  assert (mem_grows h h3) as MG.
  { unfold mem_grows, h3, h2, h1. cbn. split_and!; [| |lia].
    - intros b' l Hl. rewrite lookup_insert_ne; [done|].
      pose proof (inv_fresh_mem _ _ INV b' l Hl). lia.
    - intros b' l Hl. apply lookup_insert_Some in Hl as [[<- <-]|[_ Hl]].
      + split; [lia|]. apply bytes_ok_zeros.
      + pose proof (inv_fresh_mem _ _ INV b' l Hl). split; [lia|]. by eapply (inv_bytes _ _ INV). }
  assert (h_mem h3 !! b = Some (zeros SSHBUF_SIZE_INIT)) as Hm3 by (cbn; apply lookup_insert_eq).
  assert (h_bufs h3 !! k = Some s1) as Hk3 by (rewrite Hb3; apply lookup_insert_eq).
  assert (heap_inv (rc_add rc k 1) h3) as INV3.
  { apply (inv_add_plain rc h h3 k s1 (b, 0) (zeros SSHBUF_SIZE_INIT)); auto.
    - cbn. unfold k. lia.
    - apply sane_spec. by split_and!.
    - by constructor.
    - intros j t q Ht Hq Heq. exfalso. destruct (inv_data _ _ INV j t Ht) as (q' & l & D).
      rewrite (do_cd _ _ _ _ _ _ D) in Hq. injection Hq as ->.
      pose proof (inv_fresh_mem _ _ INV _ _ (do_mem _ _ _ _ _ _ D)) as Hlt.
      rewrite Heq in Hlt. unfold b, h1 in Hlt. cbn in Hlt. lia. }
  split_and!; auto.
  - split; [|done]. intros j s Hj. rewrite Hb3, lookup_insert_ne; [done|congruence].
  - by rewrite (contents_unfold h3 k s1 (b, 0) _ Hk3 eq_refl Hm3).
  - by exists s1.
Qed.

(** A buffer over the caller's own memory: [blob] must stay live, and no
    writable buffer may own its block. *)
Definition foreign (h : heap) (blob : ptr) (len : Z) : Prop :=
  (exists l, h_mem h !! blob.1 = Some l /\ 0 <= blob.2 /\ blob.2 + len <= zlen l) /\
  forall j t q, h_bufs h !! j = Some t -> sb_cd t = Some q -> q.1 = blob.1 -> sb_readonly t = true.


(** [sshbuf_from] adds a read-only structure, or nothing. *)
Lemma run_from_raw h blob len :
  sshbuf_from blob len h =
    if bool_decide (blob = None) || (len >? SSHBUF_SIZE_MAX) then (Ok None, h)
    else if h_oom h (h_tick h) then (Ok None, set_tick h)
    else (Ok (Some (h_next h)),
          set_next (set_bufs <[h_next h := mk_sshbuf None blob 0 len len len true 1 None]>
            (set_tick h))).
Proof.
  unfold sshbuf_from, new_buf. destruct (bool_decide _ || _); [done|].
  assert (alloc_ok h = (Ok (negb (h_oom h (h_tick h))), set_tick h)) as Ra by done.
  mstep Ra. by destruct (h_oom h (h_tick h)).
Qed.

Lemma run_from rc h blob len l : heap_inv rc h -> foreign h blob len ->
  h_mem h !! blob.1 = Some l -> 0 <= len ->
  (exists h', sshbuf_from (Some blob) len h = (Ok None, h') /\ heap_inv rc h' /\ extends h h') \/
  exists b h', sshbuf_from (Some blob) len h = (Ok (Some b), h') /\ h_bufs h !! b = None /\
    heap_inv (rc_add rc b 1) h' /\ extends h h' /\ contents h' b = Some (slice l blob.2 len).
Proof.
  intros INV [(l' & Hl & Hlo & Hhi) Hfor] Hl' Hlen. rewrite Hl in Hl'. injection Hl' as ->.
  rewrite run_from_raw. cbn [orb bool_decide].
  destruct (bool_decide_reflect (Some blob = None)) as [?|_]; [done|]. cbn [orb].
  destruct (Z.gtb_spec len SSHBUF_SIZE_MAX) as [Hbig|Hbig].
  { left. exists h. split_and!; auto. split; [done|by apply (mem_grows_same rc)]. }
  destruct (h_oom h (h_tick h)).
  { left. eexists. split_and!; [done|by apply inv_tick|]. split; [done|].
    by apply (mem_grows_same rc). }
  right. set (k := h_next h). set (s := mk_sshbuf _ _ _ _ _ _ _ _ _).
  set (h' := set_next _). exists k, h'.
  assert (h_bufs h !! k = None) as Hk by (apply (fresh_buf INV)).
  assert (mem_grows h h') as MG by (apply (mem_grows_same rc); auto; cbn; lia).
  split; [done|]. split; [done|]. split.
  { apply (inv_add_plain rc h h' k s blob l); auto.
    - apply sane_spec. cbn. unfold SSHBUF_SIZE_MAX, SSHBUF_REFS_MAX in *. split_and!; auto; try lia; done.
    - by constructor.
    - intros j t q Ht Hq Heq. split; [done|]. by eapply Hfor. }
  split; [split; [|done]|].
  - intros j t Hj. cbn. rewrite lookup_insert_ne; [done|congruence].
  - rewrite (contents_unfold h' k s blob l); [|cbn; apply lookup_insert_eq|done|done].
    cbn. by rewrite Z.add_0_r, Z.sub_0_r.
Qed.

Lemma inv_next rc h : heap_inv rc h -> heap_inv rc (set_next h).
Proof.
  intros INV. constructor; try apply INV; intros ? ? Hx; cbn;
    [apply (inv_fresh_buf _ _ INV) in Hx|apply (inv_fresh_mem _ _ INV) in Hx]; lia.
Qed.

Lemma view_next {rc h i s p l} : view rc h i s p l -> view rc (set_next h) i s p l.
Proof. intros [I ? ? D]. constructor; auto. by apply inv_next. Qed.

(** The structure [sshbuf_from] makes for [len] bytes at [q]. *)
Definition child_buf (q : ptr) (len : Z) : sshbuf := mk_sshbuf None (Some q) 0 len len len true 1 None.

(** Attaching a fresh read-only window of the buffer's block as its child. *)
Lemma run_attach {rc h i s p l} (V : view rc h i s p l) k q len :
  h_bufs h !! k = None -> (i < k)%nat -> (k < h_next h)%nat ->
  sb_refcount s < SSHBUF_REFS_MAX -> q.1 = p.1 -> p.2 <= q.2 -> 0 <= len ->
  q.2 + len <= zlen l -> len <= SSHBUF_SIZE_MAX ->
  exists h', sshbuf_set_parent k i (ins k (child_buf q len) h) = (Ok tt, h') /\
    h_bufs h' = <[k := with_parent (Some i) (child_buf q len)]>
                (<[i := with_refcount (sb_refcount s + 1) s]> (h_bufs h)) /\
    h_mem h' = h_mem h /\ heap_inv (rc_add rc k 1) h'.
Proof.
  intros Hk Hik Hkn Hmax Hb Hlo Hlen Hhi Hmx. pose proof (view_bounds V) as B.
  pose proof V as [INV Hrc Hs D]. set (c0 := child_buf q len). set (h1 := ins k c0 h).
  assert (h_bufs h1 !! k = Some c0) as Hk1 by (cbn; apply lookup_insert_eq).
  assert (h_bufs h1 !! i = Some s) as Hi1 by (cbn; rewrite lookup_insert_ne by lia; done).
  set (c := with_parent (Some i) c0). set (s' := with_refcount (sb_refcount s + 1) s).
  set (h' := set_bufs <[i := s']> (set_bufs <[k := c]> h1)).
  unfold SSHBUF_SIZE_MAX, SSHBUF_REFS_MAX in *.
  assert (sane k c0 = true) as Sk0 by (apply sane_spec; cbn; split_and!; auto; try done; lia).
  assert (sane k c = true) as Sk.
  { apply sane_spec. cbn. split_and!; auto; try done; try lia. intros [=]. lia. }
  assert (h_bufs h' = <[k := c]> (<[i := s']> (h_bufs h))) as Hb'.
  { unfold h', h1, ins. cbn. rewrite insert_insert_eq. apply insert_insert_ne. lia. }
  exists h'. split; [|split_and!; auto].
  - unfold sshbuf_set_parent, sshbuf_check_sanity, modify_buf.
    assert (deref k h1 = (Ok c0, h1)) as Rk by (unfold deref; by rewrite Hk1).
    assert (deref i h1 = (Ok s, h1)) as Ri by (unfold deref; by rewrite Hi1).
    rewrite (bind_ok _ _ _ tt h1) by (mstep Rk; by rewrite Sk0).
    rewrite (bind_ok _ _ _ tt h1) by (mstep Ri; by rewrite (view_sane V)).
    mstep Rk. rewrite (bool_decide_eq_false_2 (k = i)) by lia.
    rewrite (bool_decide_eq_false_2 (sb_parent c0 <> None)) by (cbn; auto). cbn [andb orb].
    rewrite (bind_ok _ _ _ tt (set_bufs <[k := c]> h1)) by (by mstep Rk).
    rewrite (bind_ok _ _ _ s (set_bufs <[k := c]> h1)).
    2:{ unfold deref. cbn. rewrite lookup_insert_ne by lia. cbn in Hi1. by rewrite Hi1. }
    rewrite wrap_small by lia. done.
  - apply (inv_add_child rc h h' k c i s p q l); auto; try done; try (cbn; lia).
    + by apply (mem_grows_same rc).
    + apply (do_cd _ _ _ _ _ _ D).
    + rewrite Hb. apply (do_mem _ _ _ _ _ _ D).
Qed.

(** [sshbuf_fromb]: a child that shows the parent's current bytes and keeps the
    parent (and its block) alive and unmodified. *)
Lemma run_fromb {rc h i s p l} (V : view rc h i s p l) :
  sb_refcount s < SSHBUF_REFS_MAX ->
  (exists h', sshbuf_fromb i h = (Ok None, h') /\ heap_inv rc h' /\ extends h h') \/
  exists c h', sshbuf_fromb i h = (Ok (Some c), h') /\ h_bufs h !! c = None /\
    heap_inv (rc_add rc c 1) h' /\
    h_bufs h' !! i = Some (with_refcount (sb_refcount s + 1) s) /\
    (forall j, j <> i -> j <> c -> h_bufs h' !! j = h_bufs h !! j) /\ h_mem h' = h_mem h /\
    contents h' c = contents h i /\
    exists cs, h_bufs h' !! c = Some cs /\ sb_parent cs = Some i /\ mutable cs = false.
Proof.
  intros Hmax. pose proof (view_bounds V) as B. pose proof V as [INV Hrc Hs D].
  unfold sshbuf_fromb. mstep (run_check_sanity V). mstep (run_ptr V). mstep (run_len V).
  set (q := ptr_add p (sb_off s)). set (n := sb_size s - sb_off s).
  pose proof (run_from_raw h (Some q) n) as Rf.
  destruct (bool_decide_reflect (Some q = None)) as [?|_]; [done|]. cbn [orb] in Rf.
  rewrite Z.gtb_ltb, (proj2 (Z.ltb_ge _ _)) in Rf by (unfold SSHBUF_SIZE_MAX, n; lia).
  destruct (h_oom h (h_tick h)).
  { left. mstep Rf. eexists. split_and!; [done|by apply inv_tick|]. split; [done|].
    by apply (mem_grows_same rc). }
  right. mstep Rf. set (k := h_next h) in *.
  assert (h_bufs h !! k = None) as Hk by (apply (fresh_buf INV)).
  pose proof (inv_fresh_buf _ _ INV i s Hs) as Hik. fold k in Hik.
  destruct (run_attach (view_next (view_tick V)) k q n) as (h' & R & Hb' & Hm' & INV');
    [done|done|cbn; lia|done|done|unfold q; cbn; lia|unfold n; lia|unfold q, n; cbn; lia|
     unfold SSHBUF_SIZE_MAX, n; lia|].
  rewrite (bind_ok _ _ _ (inr tt) h').
  2:{ unfold try_. fold (child_buf q n). change (set_next _) with (ins k (child_buf q n) (set_next (set_tick h))).
      by rewrite R. }
  exists k, h'. cbn in Hb', Hm'. split_and!; auto; rewrite ?Hb'.
  - rewrite lookup_insert_ne by lia. apply lookup_insert_eq.
  - intros j Hj Hjk. by rewrite !lookup_insert_ne.
  - rewrite (view_contents V).
    rewrite (contents_unfold h' k (with_parent (Some i) (child_buf q n)) q l).
    + cbn. unfold cur, n. by rewrite Z.sub_0_r, Z.add_0_r.
    + rewrite Hb'. apply lookup_insert_eq.
    + done.
    + rewrite Hm'. apply (do_mem _ _ _ _ _ _ D).
  - eexists. split_and!; [apply lookup_insert_eq|done|done].
Qed.
