(* ===== verification/SshbufGetput.v ===== *)
(** * Typed access to buffers: [sshbuf-getput-basic.c]

    Big-endian integers, length-prefixed strings and bignum bytes on top of
    [sshbuf_reserve] and [sshbuf_consume]. *)

From S2P Require Import Prelude Ssherr Sshbuf.

Definition SSHBUF_MAX_BIGNUM := 16384 / 8.

(** ** The integer macros of [sshbuf.h] *)

(** Byte [i] of the bytes at a pointer. *)
Definition byte_at (p : list Z) (i : nat) : Z := nth i p 0.

Definition PEEK_U64 (p : list Z) : Z :=
  Z.lor (Z.shiftl (byte_at p 0) 56)
  (Z.lor (Z.shiftl (byte_at p 1) 48)
  (Z.lor (Z.shiftl (byte_at p 2) 40)
  (Z.lor (Z.shiftl (byte_at p 3) 32)
  (Z.lor (Z.shiftl (byte_at p 4) 24)
  (Z.lor (Z.shiftl (byte_at p 5) 16)
  (Z.lor (Z.shiftl (byte_at p 6) 8) (byte_at p 7))))))).

Definition PEEK_U32 (p : list Z) : Z :=
  Z.lor (Z.shiftl (byte_at p 0) 24)
  (Z.lor (Z.shiftl (byte_at p 1) 16)
  (Z.lor (Z.shiftl (byte_at p 2) 8) (byte_at p 3))).

Definition PEEK_U16 (p : list Z) : Z :=
  Z.lor (Z.shiftl (byte_at p 0) 8) (byte_at p 1).

Definition POKE_U64 (v : Z) : list Z :=
  let v := u64 v in
  [Z.land (Z.shiftr v 56) 0xff; Z.land (Z.shiftr v 48) 0xff;
   Z.land (Z.shiftr v 40) 0xff; Z.land (Z.shiftr v 32) 0xff;
   Z.land (Z.shiftr v 24) 0xff; Z.land (Z.shiftr v 16) 0xff;
   Z.land (Z.shiftr v 8) 0xff; Z.land v 0xff].

Definition POKE_U32 (v : Z) : list Z :=
  let v := u32 v in
  [Z.land (Z.shiftr v 24) 0xff; Z.land (Z.shiftr v 16) 0xff;
   Z.land (Z.shiftr v 8) 0xff; Z.land v 0xff].

Definition POKE_U16 (v : Z) : list Z :=
  let v := u16 v in
  [Z.land (Z.shiftr v 8) 0xff; Z.land v 0xff].

(** ** Sources of a copy: the caller's own bytes, or a pointer into the heap *)

Inductive src :=
| SrcBytes (bs : list Z)
| SrcPtr (p : option ptr).

Definition src_load (v : src) (n : Z) : HM (list Z) :=
  match v with
  | SrcBytes bs => if (0 <=? n) && (n <=? zlen bs) then mret (slice bs 0 n) else crash
  | SrcPtr (Some p) => load p n
  | SrcPtr None => crash
  end.

(** [memchr(p, c, len)] over the bytes at [p]: the index of the first [c]. *)
Fixpoint memchr (l : list Z) (c : Z) : option Z :=
  match l with
  | [] => None
  | x :: l' => if x =? c then Some 0 else Z.succ <$> memchr l' c
  end.

(** ** Reading *)

(** [v] says whether the destination pointer is non-NULL. *)
Definition sshbuf_get (buf : bufp) (v : bool) (len : Z) : HM (list Z) :=
  p ← sshbuf_ptr buf;
  sshbuf_consume buf len;;
  match p with
  | None => throw SSH_ERR_INTERNAL_ERROR
  | Some p => if v && negb (len =? 0) then load p len else mret []
  end.

(** The integer readers share their shape: [width] bytes, decoded by [peek]. *)
Definition sshbuf_get_uint (width : Z) (peek : list Z -> Z) (buf : bufp) : HM Z :=
  p ← sshbuf_ptr buf;
  sshbuf_consume buf width;;
  match p with
  | None => throw SSH_ERR_INTERNAL_ERROR
  | Some p => peek <$> load p width
  end.

Definition sshbuf_get_u64 : bufp -> HM Z := sshbuf_get_uint 8 PEEK_U64.
Definition sshbuf_get_u32 : bufp -> HM Z := sshbuf_get_uint 4 PEEK_U32.
Definition sshbuf_get_u16 : bufp -> HM Z := sshbuf_get_uint 2 PEEK_U16.
Definition sshbuf_get_u8 : bufp -> HM Z := sshbuf_get_uint 1 (fun p => byte_at p 0).

Definition check_offset (buf : bufp) (wr : bool) (offset len : Z) : HM unit :=
  p ← sshbuf_ptr buf;
  match p with
  | None => throw SSH_ERR_INTERNAL_ERROR
  | Some _ =>
      if offset >=? sizet (SIZE_MAX - len) then throw SSH_ERR_INVALID_ARGUMENT
      else
        n ← sshbuf_len buf;
        if sizet (offset + len) >? n
        then throw (if wr then SSH_ERR_NO_BUFFER_SPACE else SSH_ERR_MESSAGE_INCOMPLETE)
        else mret tt
  end.

Definition check_roffset (buf : bufp) (offset len : Z) : HM ptr :=
  check_offset buf false offset len;;
  p ← sshbuf_ptr buf;
  match p with
  | None => crash
  | Some p => mret (ptr_add p offset)
  end.

Definition sshbuf_peek_uint (width : Z) (peek : list Z -> Z) (buf : bufp) (offset : Z) : HM Z :=
  p ← check_roffset buf offset width;
  peek <$> load p width.

Definition sshbuf_peek_u64 : bufp -> Z -> HM Z := sshbuf_peek_uint 8 PEEK_U64.
Definition sshbuf_peek_u32 : bufp -> Z -> HM Z := sshbuf_peek_uint 4 PEEK_U32.
Definition sshbuf_peek_u16 : bufp -> Z -> HM Z := sshbuf_peek_uint 2 PEEK_U16.
Definition sshbuf_peek_u8 : bufp -> Z -> HM Z := sshbuf_peek_uint 1 (fun p => byte_at p 0).

(** Returns the address and the length of the string in the buffer. *)
Definition sshbuf_peek_string_direct (buf : bufp) : HM (ptr * Z) :=
  p ← sshbuf_ptr buf;
  n ← sshbuf_len buf;
  if n <? 4 then throw SSH_ERR_MESSAGE_INCOMPLETE
  else match p with
  | None => throw SSH_ERR_INTERNAL_ERROR
  | Some p =>
      hd ← load p 4;
      let len := PEEK_U32 hd in
      if len >? SSHBUF_SIZE_MAX - 4 then throw SSH_ERR_STRING_TOO_LARGE
      else
        n ← sshbuf_len buf;
        if sizet (n - 4) <? len then throw SSH_ERR_MESSAGE_INCOMPLETE
        else mret (ptr_add p 4, len)
  end.

Definition sshbuf_get_string_direct (buf : bufp) : HM (ptr * Z) :=
  '(p, len) ← sshbuf_peek_string_direct buf;
  catch (sshbuf_consume buf (sizet (len + 4))) (fun _ => throw SSH_ERR_INTERNAL_ERROR);;
  mret (p, len).

Definition sshbuf_skip_string (buf : bufp) : HM unit :=
  sshbuf_get_string_direct buf;; mret tt.

(** The copy handed to the caller: [malloc(len + 1)], the bytes, a NUL. *)
Definition copy_out (p : ptr) (len : Z) : HM (list Z) :=
  ok ← alloc_ok;
  if negb ok then throw SSH_ERR_ALLOC_FAIL
  else
    bs ← (if negb (len =? 0) then load p len else mret []);
    mret (bs ++ [0]).

(** [valp] says whether the caller asked for the value. *)
Definition sshbuf_get_string (buf : bufp) (valp : bool) : HM (option (list Z) * Z) :=
  '(val, len) ← sshbuf_get_string_direct buf;
  v ← (if valp then Some <$> copy_out val len else mret None);
  mret (v, len).

Definition sshbuf_get_cstring (buf : bufp) (valp : bool) : HM (option (list Z) * Z) :=
  '(p, len) ← sshbuf_peek_string_direct buf;
  bs ← (if len >? 0 then load p len else mret []);
  if (len >? 0) && match memchr bs 0 with Some z => z <? len - 1 | None => false end
  then throw SSH_ERR_INVALID_FORMAT
  else
    catch (sshbuf_skip_string buf) (fun _ => throw (-1));;
    v ← (if valp then Some <$> copy_out p len else mret None);
    mret (v, len).

Definition sshbuf_get_stringb (buf v : bufp) : HM unit :=
  sshbuf_peek_string_direct buf;;
  len ← sshbuf_get_u32 buf;
  p ← sshbuf_reserve v len;
  bs ← sshbuf_get buf true len;
  store p bs.

(** ** Writing *)

Definition sshbuf_put (buf : bufp) (v : src) (len : Z) : HM unit :=
  p ← sshbuf_reserve buf len;
  if negb (len =? 0) then bs ← src_load v len; store p bs else mret tt.

Definition sshbuf_putb (buf : bufp) (v : option bufp) : HM unit :=
  match v with
  | None => mret tt
  | Some v => p ← sshbuf_ptr v; n ← sshbuf_len v; sshbuf_put buf (SrcPtr p) n
  end.

(** [out] is what [vsnprintf] makes of the format and its arguments, without
    the NUL; [None] stands for its negative return. *)
Definition sshbuf_putfv (buf : bufp) (out : option (list Z)) : HM unit :=
  match out with
  | None => throw SSH_ERR_INVALID_ARGUMENT
  | Some bs =>
      if zlen bs =? 0 then mret tt
      else
        p ← sshbuf_reserve buf (sizet (zlen bs + 1));
        store p (bs ++ [0]);;
        sshbuf_consume_end buf 1
  end.

Definition sshbuf_putf (buf : bufp) (out : option (list Z)) : HM unit := sshbuf_putfv buf out.

Definition sshbuf_put_uint (width : Z) (poke : Z -> list Z) (buf : bufp) (val : Z) : HM unit :=
  p ← sshbuf_reserve buf width;
  store p (poke val).

Definition sshbuf_put_u64 : bufp -> Z -> HM unit := sshbuf_put_uint 8 POKE_U64.
Definition sshbuf_put_u32 : bufp -> Z -> HM unit := sshbuf_put_uint 4 POKE_U32.
Definition sshbuf_put_u16 : bufp -> Z -> HM unit := sshbuf_put_uint 2 POKE_U16.
Definition sshbuf_put_u8 : bufp -> Z -> HM unit := sshbuf_put_uint 1 (fun v => [u8 v]).

Definition check_woffset (buf : bufp) (offset len : Z) : HM ptr :=
  check_offset buf true offset len;;
  q ← sshbuf_mutable_ptr buf;
  match q with
  | None => throw SSH_ERR_BUFFER_READ_ONLY
  | Some q => mret (ptr_add q offset)
  end.

Definition sshbuf_poke_uint (width : Z) (poke : Z -> list Z) (buf : bufp) (offset val : Z) : HM unit :=
  p ← check_woffset buf offset width;
  store p (poke val).

Definition sshbuf_poke_u64 : bufp -> Z -> Z -> HM unit := sshbuf_poke_uint 8 POKE_U64.
Definition sshbuf_poke_u32 : bufp -> Z -> Z -> HM unit := sshbuf_poke_uint 4 POKE_U32.
Definition sshbuf_poke_u16 : bufp -> Z -> Z -> HM unit := sshbuf_poke_uint 2 POKE_U16.
Definition sshbuf_poke_u8 : bufp -> Z -> Z -> HM unit := sshbuf_poke_uint 1 (fun v => [u8 v]).

Definition sshbuf_poke (buf : bufp) (offset : Z) (v : src) (len : Z) : HM unit :=
  p ← check_woffset buf offset len;
  bs ← src_load v len;
  store p bs.

Definition sshbuf_put_string (buf : bufp) (v : src) (len : Z) : HM unit :=
  if len >? SSHBUF_SIZE_MAX - 4 then throw SSH_ERR_NO_BUFFER_SPACE
  else
    d ← sshbuf_reserve buf (sizet (len + 4));
    store d (POKE_U32 len);;
    if negb (len =? 0) then bs ← src_load v len; store (ptr_add d 4) bs else mret tt.

(** A C string is its bytes up to the NUL; [NULL] is [None]. *)
Definition sshbuf_put_cstring (buf : bufp) (v : option (list Z)) : HM unit :=
  match v with
  | None => sshbuf_put_string buf (SrcPtr None) 0
  | Some bs => sshbuf_put_string buf (SrcBytes bs) (zlen bs)
  end.

Definition sshbuf_put_stringb (buf : bufp) (v : option bufp) : HM unit :=
  match v with
  | None => sshbuf_put_string buf (SrcPtr None) 0
  | Some v => p ← sshbuf_ptr v; n ← sshbuf_len v; sshbuf_put_string buf (SrcPtr p) n
  end.

Definition sshbuf_froms (buf : bufp) : HM bufp :=
  '(p, len) ← sshbuf_peek_string_direct buf;
  ret ← sshbuf_from (Some p) len;
  match ret with
  | None => throw SSH_ERR_ALLOC_FAIL
  | Some ret =>
      catch (sshbuf_consume buf (sizet (len + 4));; sshbuf_set_parent ret buf)
            (fun r => sshbuf_free (Some ret);; throw r);;
      mret ret
  end.

(** ** Bignum bytes *)

(** The loop that skips leading zero bytes. *)
Fixpoint skip_zeros (s : list Z) : list Z :=
  match s with
  | x :: s' => if x =? 0 then skip_zeros s' else s
  | [] => []
  end.

Definition sshbuf_put_bignum2_bytes (buf : bufp) (v : list Z) : HM unit :=
  if zlen v >? SSHBUF_SIZE_MAX - 5 then throw SSH_ERR_NO_BUFFER_SPACE
  else
    let s := skip_zeros v in
    let len := zlen s in
    let prepend := if (len >? 0) && negb (Z.land (byte_at s 0) 0x80 =? 0) then 1 else 0 in
    d ← sshbuf_reserve buf (sizet (len + 4 + prepend));
    store d (POKE_U32 (len + prepend));;
    (if prepend =? 0 then mret tt else store (ptr_add d 4) [0]);;
    if negb (len =? 0) then store (ptr_add d (4 + prepend)) s else mret tt.

(** Returns the address and the length of the number without leading zeros. *)
Definition sshbuf_get_bignum2_bytes_direct (buf : bufp) : HM (ptr * Z) :=
  '(d, olen) ← sshbuf_peek_string_direct buf;
  bs ← (if negb (olen =? 0) then load d olen else mret []);
  let len := olen in
  if negb (len =? 0) && negb (Z.land (byte_at bs 0) 0x80 =? 0)
  then throw SSH_ERR_BIGNUM_IS_NEGATIVE
  else if (len >? SSHBUF_MAX_BIGNUM + 1) ||
          ((len =? SSHBUF_MAX_BIGNUM + 1) && negb (byte_at bs 0 =? 0))
  then throw SSH_ERR_BIGNUM_TOO_LARGE
  else
    let len := zlen (skip_zeros bs) in
    catch (sshbuf_consume buf (sizet (olen + 4))) (fun _ => throw SSH_ERR_INTERNAL_ERROR);;
    mret (ptr_add d (olen - len), len).
