(* ===== verification/SshbufWire.v ===== *)
(** * Wire format: what the typed accessors of [sshbuf-getput-basic.c] read and
    write *)

From S2P Require Import Prelude Ssherr Sshbuf SshbufInv SshbufOps SshbufGetput.

(** ** Big-endian integers *)

Lemma peek_u16_val a b : byte_ok a -> byte_ok b -> PEEK_U16 [a; b] = a * 2 ^ 8 + b.
Proof. unfold byte_ok. intros. unfold PEEK_U16, byte_at. cbn [nth]. rewrite lor_shifted; lia. Qed.

Lemma peek_u32_val a b c d : byte_ok a -> byte_ok b -> byte_ok c -> byte_ok d ->
  PEEK_U32 [a; b; c; d] = a * 2 ^ 24 + b * 2 ^ 16 + c * 2 ^ 8 + d.
Proof.
  unfold byte_ok. intros. unfold PEEK_U32, byte_at. cbn [nth].
  rewrite (lor_shifted c), (lor_shifted b), (lor_shifted a); lia.
Qed.

Lemma peek_u64_val a b c d e f g i :
  byte_ok a -> byte_ok b -> byte_ok c -> byte_ok d -> byte_ok e -> byte_ok f -> byte_ok g -> byte_ok i ->
  PEEK_U64 [a; b; c; d; e; f; g; i] =
  a * 2 ^ 56 + b * 2 ^ 48 + c * 2 ^ 40 + d * 2 ^ 32 + e * 2 ^ 24 + f * 2 ^ 16 + g * 2 ^ 8 + i.
Proof.
  unfold byte_ok. intros. unfold PEEK_U64, byte_at. cbn [nth].
  rewrite (lor_shifted g), (lor_shifted f), (lor_shifted e), (lor_shifted d), (lor_shifted c),
    (lor_shifted b), (lor_shifted a); lia.
Qed.

(** Splitting off the low byte. *)
Lemma shr_split v k k' : 0 <= k -> k' = k + 8 ->
  Z.shiftr v k = Z.shiftr v k' * 2 ^ 8 + Z.land (Z.shiftr v k) 0xff.
Proof.
  intros ? ->. rewrite land_255, <- (Z.shiftr_shiftr v k 8) by lia.
  rewrite (Z.shiftr_div_pow2 (Z.shiftr v k) 8) by lia. change (2 ^ 8) with 256.
  rewrite (Z.mul_comm _ 256). apply Z.div_mod. lia.
Qed.

Lemma peek_poke_u16 v : 0 <= v < 2 ^ 16 -> PEEK_U16 (POKE_U16 v) = v.
Proof.
  intros. unfold POKE_U16. rewrite wrap_small by done.
  rewrite peek_u16_val by apply byte_land_255.
  pose proof (shr_split v 0 8 ltac:(lia) eq_refl). pose proof (shr_split v 8 16 ltac:(lia) eq_refl). rewrite Z.shiftr_0_r in *.
  assert (Z.shiftr v 16 = 0) by (rewrite Z.shiftr_div_pow2 by lia; apply Z.div_small; lia). lia.
Qed.

Lemma peek_poke_u32 v : 0 <= v < 2 ^ 32 -> PEEK_U32 (POKE_U32 v) = v.
Proof.
  intros. unfold POKE_U32. rewrite wrap_small by done.
  rewrite peek_u32_val by apply byte_land_255.
  pose proof (shr_split v 0 8 ltac:(lia) eq_refl). pose proof (shr_split v 8 16 ltac:(lia) eq_refl). pose proof (shr_split v 16 24 ltac:(lia) eq_refl).
  pose proof (shr_split v 24 32 ltac:(lia) eq_refl). rewrite Z.shiftr_0_r in *.
  assert (Z.shiftr v 32 = 0) by (rewrite Z.shiftr_div_pow2 by lia; apply Z.div_small; lia).
  lia.
Qed.

Lemma peek_poke_u64 v : 0 <= v < 2 ^ 64 -> PEEK_U64 (POKE_U64 v) = v.
Proof.
  intros. unfold POKE_U64. rewrite wrap_small by done.
  rewrite peek_u64_val by apply byte_land_255.
  pose proof (shr_split v 0 8 ltac:(lia) eq_refl). pose proof (shr_split v 8 16 ltac:(lia) eq_refl). pose proof (shr_split v 16 24 ltac:(lia) eq_refl).
  pose proof (shr_split v 24 32 ltac:(lia) eq_refl). pose proof (shr_split v 32 40 ltac:(lia) eq_refl). pose proof (shr_split v 40 48 ltac:(lia) eq_refl).
  pose proof (shr_split v 48 56 ltac:(lia) eq_refl). pose proof (shr_split v 56 64 ltac:(lia) eq_refl). rewrite Z.shiftr_0_r in *.
  assert (Z.shiftr v 64 = 0) by (rewrite Z.shiftr_div_pow2 by lia; apply Z.div_small; lia).
  lia.
Qed.

Lemma peek_u32_range hd : bytes_ok hd -> zlen hd = 4 -> 0 <= PEEK_U32 hd < 2 ^ 32.
Proof.
  intros Hok Hl. destruct hd as [|a [|b [|c [|d [|]]]]]; try (unfold zlen in Hl; cbn in Hl; lia).
  repeat (apply Forall_cons in Hok as [? Hok]).
  rewrite peek_u32_val by done. unfold byte_ok in *. lia.
Qed.

Lemma poke_u32_peek hd : bytes_ok hd -> zlen hd = 4 -> POKE_U32 (PEEK_U32 hd) = hd.
Proof.
  intros Hok Hl. pose proof (peek_u32_range hd Hok Hl).
  destruct hd as [|a [|b [|c [|d [|]]]]]; try (unfold zlen in Hl; cbn in Hl; lia).
  repeat (apply Forall_cons in Hok as [? Hok]). unfold byte_ok in *.
  rewrite peek_u32_val in * by done. unfold POKE_U32. rewrite wrap_small by done.
  rewrite !land_255, !Z.shiftr_div_pow2 by lia.
  repeat f_equal; Z.div_mod_to_equations; lia.
Qed.

Lemma poke_ok_u64 v : bytes_ok (POKE_U64 v).
Proof. repeat (constructor; [apply byte_land_255|]). constructor. Qed.
Lemma poke_ok_u32 v : bytes_ok (POKE_U32 v).
Proof. repeat (constructor; [apply byte_land_255|]). constructor. Qed.
Lemma poke_ok_u16 v : bytes_ok (POKE_U16 v).
Proof. repeat (constructor; [apply byte_land_255|]). constructor. Qed.
Lemma poke_ok_u8 v : bytes_ok [u8 v].
Proof. constructor; [|constructor]. unfold byte_ok. pose proof (wrap_range 8 v). lia. Qed.
#[export] Hint Resolve poke_ok_u64 poke_ok_u32 poke_ok_u16 poke_ok_u8 : cbytes.

(** ** Writing inside the contents *)

Section Tail.
Context {rc : nat -> Z} {h : heap} {i : bufp} {s : sshbuf} {p : ptr} {l : list Z}
        (V : view rc h i s p l) (MUT : mutable s = true).

Lemma run_store_cur o bs : 0 <= o -> o + zlen bs <= zlen (cur s p l) -> bytes_ok bs ->
  exists h' l', store (ptr_add p (sb_off s + o)) bs h = (Ok tt, h') /\ eff rc i h h' /\
    view rc h' i s p l' /\ cur s p l' = splice (cur s p l) o bs.
Proof.
  intros Ho Hb Hok. pose proof (view_bounds V) as B. rewrite (zlen_cur V) in Hb.
  destruct (view_excl V MUT) as (_ & _ & _ & Hp0 & _).
  destruct (run_store V MUT (sb_off s + o) bs) as (h' & R & E & V'); [lia|lia|done|].
  exists h', (splice l (sb_off s + o) bs). split_and!; auto.
  unfold cur. rewrite Hp0, Z.add_0_l. apply slice_splice_in; lia.
Qed.
End Tail.

(** ** Appending *)

(** Outcome of an operation meant to append [bs] to buffer [i]: all of it is
    there, or nothing is and the error says why. *)
Definition append_outcome (rc : nat -> Z) (h : heap) (i : bufp) (s : sshbuf) (c bs : list Z)
    (out : res unit * heap) : Prop :=
  let '(r, h') := out in
  eff rc i h h' /\
  match r with
  | Ok _ => contents h' i = Some (c ++ bs) /\ mutable s = true /\
      zlen bs + zlen c <= sb_max_size s /\ sb_max_size <$> h_bufs h' !! i = Some (sb_max_size s)
  | Err e => contents h' i = Some c /\
      (e = SSH_ERR_ALLOC_FAIL /\ (exists k, h_oom h k = true) \/
       e = SSH_ERR_BUFFER_READ_ONLY /\ mutable s = false \/
       e = SSH_ERR_NO_BUFFER_SPACE /\ sb_max_size s < zlen bs + zlen c)
  | Crash => False
  end.

Section Append.
Context {rc : nat -> Z} {h : heap} {i : bufp} {s : sshbuf} {p : ptr} {l : list Z}
        (V : view rc h i s p l).

(** Every appending function reserves and then fills exactly what it reserved. *)
Lemma run_append bs (k : ptr -> HM unit) :
  (forall h1 s1 p1 l1 fill, eff rc i h h1 -> view rc h1 i s1 p1 l1 -> mutable s1 = true ->
     cur s1 p1 l1 = cur s p l ++ fill -> zlen fill = zlen bs ->
     exists h2, k (ptr_add p1 (sb_off s1 + zlen (cur s p l))) h1 = (Ok tt, h2) /\
       eff rc i h1 h2 /\ h_bufs h2 !! i = Some s1 /\ contents h2 i = Some (cur s p l ++ bs)) ->
  append_outcome rc h i s (cur s p l) bs ((sshbuf_reserve i (zlen bs) ≫= k) h).
Proof.
  intros Hk. pose proof (zlen_nonneg bs) as Hn.
  assert (eff rc i h h) as E0 by (apply eff_refl; [apply V|]; rewrite (v_buf _ _ _ _ _ _ V); eauto).
  destruct (decide (mutable s = true /\ zlen bs + zlen (cur s p l) <= sb_max_size s)) as [[MUT Hfit]|Hno].
  - destruct (run_reserve V (zlen bs) Hn MUT Hfit)
      as [(h1 & R & E & K & Ho)|(s1 & p1 & l1 & h1 & fill & R & E & V1 & ID & C1 & Hf & Hmx)].
    + mstep R. cbn. split; [done|]. rewrite K, (view_contents V). auto.
    + mstep R. assert (mutable s1 = true) as MUT1.
      { destruct ID as (_ & Hr & Ho). revert MUT. unfold mutable. by rewrite Hr, Ho. }
      destruct (Hk h1 s1 p1 l1 fill) as (h2 & R2 & E2 & B2 & K2); auto.
      pose proof (zlen_cur V1) as Z1. rewrite C1, zlen_app in Z1.
      replace (sb_size s1 - zlen bs) with (sb_off s1 + zlen (cur s p l)) by lia.
      rewrite R2. cbn. split_and!; auto; [by eapply eff_trans|]. rewrite B2. cbn. congruence.
  - mstep (run_reserve_err V (zlen bs) Hn ltac:(destruct (mutable s); [right|left]; intuition lia)).
    cbn. split; [done|]. split; [by rewrite (view_contents V)|]. right.
    destruct (mutable s); [right|left]; intuition lia.
Qed.

(** The one-store case. *)
Lemma run_append_store bs : bytes_ok bs ->
  append_outcome rc h i s (cur s p l) bs
    ((sshbuf_reserve i (zlen bs) ≫= fun q => store q bs) h).
Proof.
  intros Hok. apply run_append. intros h1 s1 p1 l1 fill E V1 MUT1 C1 Hf.
  pose proof (zlen_nonneg (cur s p l)).
  destruct (run_store_cur V1 MUT1 (zlen (cur s p l)) bs) as (h2 & l2 & R & E2 & V2 & C2);
    [lia|rewrite C1, zlen_app; lia|done|].
  exists h2. split_and!; auto; [apply V2|].
    rewrite (view_contents V2), C2, C1, splice_app_exact by lia. done.
Qed.

Lemma run_put_uint w poke v : zlen (poke v) = w -> bytes_ok (poke v) ->
  append_outcome rc h i s (cur s p l) (poke v) (sshbuf_put_uint w poke i v h).
Proof. intros <- Hok. unfold sshbuf_put_uint. by apply run_append_store. Qed.

Lemma append_ext bs (m m' : HM unit) : m h = m' h ->
  append_outcome rc h i s (cur s p l) bs (m' h) -> append_outcome rc h i s (cur s p l) bs (m h).
Proof. by intros ->. Qed.
End Append.

(** A buffer other than the one an operation works on is seen unchanged. *)
Lemma view_other {rc h h' i j t q lj} :
  eff rc i h h' -> heap_inv rc h -> 1 <= rc i -> j <> i -> view rc h j t q lj -> view rc h' j t q lj.
Proof.
  intros E INV Hrc Hj [I Hr Hb D]. constructor; [apply E|done| |].
  - rewrite (eff_bufs _ _ _ _ E j Hj). done.
  - destruct (inv_data _ _ (eff_inv _ _ _ _ E) j t) as (q' & l' & D').
    { by rewrite (eff_bufs _ _ _ _ E j Hj). }
    pose proof (do_cd _ _ _ _ _ _ D) as C1. pose proof (do_cd _ _ _ _ _ _ D') as C2.
    rewrite C1 in C2. injection C2 as <-.
    assert (h_mem h' !! q.1 = h_mem h !! q.1) as Hm.
    { destruct (eff_mem _ _ _ _ E) as [->|[(s & Hs & Hw & Href) HM]]; [done|].
      apply HM.
      - eapply (inv_fresh_mem _ _ INV). apply (do_mem _ _ _ _ _ _ D).
      - intros (s' & p & Hs' & Hp & Heq). rewrite Hs in Hs'. injection Hs' as <-.
        by eapply (unshared INV i s p j t q). }
    pose proof (do_mem _ _ _ _ _ _ D) as M1. pose proof (do_mem _ _ _ _ _ _ D') as M2.
    rewrite Hm, M1 in M2. by injection M2 as <-.
Qed.

(** What a source of [n] bytes yields, now and while buffer [i] is written. *)
Definition src_yields (rc : nat -> Z) (h : heap) (i : bufp) (v : src) (bs : list Z) : Prop :=
  match v with
  | SrcBytes l => l = bs
  | SrcPtr o => exists j t q lj, j <> i /\ view rc h j t q lj /\ cur t q lj = bs /\
      o = Some (ptr_add q (sb_off t))
  end.

Lemma src_load_yields {rc h h' i v bs} :
  eff rc i h h' -> heap_inv rc h -> 1 <= rc i -> src_yields rc h i v bs ->
  src_load v (zlen bs) h' = (Ok bs, h').
Proof.
  intros E INV Hrc Hy. pose proof (zlen_nonneg bs). destruct v as [b|o]; cbn in *.
  - subst b. rewrite !(proj2 (Z.leb_le _ _)) by lia. cbn. unfold mret, M_ret. by rewrite slice_full.
  - destruct Hy as (j & t & q & lj & Hj & Vj & Hc & ->).
    pose proof (view_other E INV Hrc Hj Vj) as V'.
    replace (ptr_add q (sb_off t)) with (ptr_add (ptr_add q (sb_off t)) 0)
      by (unfold ptr_add; cbn; f_equal; lia).
    rewrite (run_load_cur V') by (rewrite ?Hc; lia). by rewrite Hc, slice_full.
Qed.

Section Strings.
Context {rc : nat -> Z} {h : heap} {i : bufp} {s : sshbuf} {p : ptr} {l : list Z}
        (V : view rc h i s p l).

Lemma run_put v bs : bytes_ok bs -> src_yields rc h i v bs ->
  append_outcome rc h i s (cur s p l) bs (sshbuf_put i v (zlen bs) h).
Proof.
  intros Hok Hy. unfold sshbuf_put. apply (run_append V).
  intros h1 s1 p1 l1 fill E V1 MUT1 C1 Hf. pose proof (zlen_nonneg (cur s p l)).
  destruct (Z.eqb_spec (zlen bs) 0) as [Hz|Hz]; cbn [negb].
  - exists h1. split; [done|]. split.
    + apply eff_refl; [apply V1|]. rewrite (v_buf _ _ _ _ _ _ V1). eauto.
    + split; [apply V1|]. rewrite (view_contents V1), C1. destruct bs; [|unfold zlen in Hz; cbn in Hz; lia].
      destruct fill; [done|unfold zlen in Hf; cbn in Hf; lia].
  - mstep (src_load_yields E (v_inv _ _ _ _ _ _ V) (v_rc _ _ _ _ _ _ V) Hy).
    destruct (run_store_cur V1 MUT1 (zlen (cur s p l)) bs) as (h2 & l2 & R & E2 & V2 & C2);
      [lia|rewrite C1, zlen_app; lia|done|].
    exists h2. split_and!; auto; [apply V2|].
    rewrite (view_contents V2), C2, C1, splice_app_exact by lia. done.
Qed.

(** The encoding of a string: its length, then its bytes. *)
Definition wire_string (bs : list Z) : list Z := POKE_U32 (zlen bs) ++ bs.

Lemma zlen_wire_string bs : zlen (wire_string bs) = zlen bs + 4.
Proof. unfold wire_string. rewrite zlen_app. unfold POKE_U32, zlen. cbn [length]. lia. Qed.

Lemma run_put_string v bs : bytes_ok bs -> src_yields rc h i v bs -> zlen bs <= SSHBUF_SIZE_MAX - 4 ->
  append_outcome rc h i s (cur s p l) (wire_string bs) (sshbuf_put_string i v (zlen bs) h).
Proof.
  intros Hok Hy Hlen. unfold sshbuf_put_string, SSHBUF_SIZE_MAX in *. pose proof (zlen_nonneg bs).
  rewrite Z.gtb_ltb, (proj2 (Z.ltb_ge _ _)) by lia. rewrite wrap_small by lia.
  rewrite <- (zlen_wire_string bs). apply (run_append V).
  intros h1 s1 p1 l1 fill E V1 MUT1 C1 Hf. pose proof (zlen_nonneg (cur s p l)).
  rewrite zlen_wire_string in Hf.
  assert (zlen (POKE_U32 (zlen bs)) = 4) as H4 by done.
  destruct (run_store_cur V1 MUT1 (zlen (cur s p l)) (POKE_U32 (zlen bs)))
    as (h2 & l2 & R & E2 & V2 & C2); [lia|rewrite C1, zlen_app; lia|auto with cbytes|].
  mstep R. destruct (Z.eqb_spec (zlen bs) 0) as [Hz|Hz]; cbn [negb].
  - exists h2. split_and!; auto; [apply V2|].
    rewrite (view_contents V2), C2, C1. unfold wire_string.
    destruct bs; [|unfold zlen in Hz; cbn in Hz; lia].
    rewrite app_nil_r, splice_app_exact; [done|]. lia.
  - mstep (src_load_yields (eff_trans _ _ _ _ _ E E2) (v_inv _ _ _ _ _ _ V) (v_rc _ _ _ _ _ _ V) Hy).
    pose proof (zlen_cur V1) as Z1. pose proof (zlen_cur V2) as Z2.
    destruct (run_store_cur V2 MUT1 (zlen (cur s p l) + 4) bs) as (h3 & l3 & R3 & E3 & V3 & C3);
      [lia|rewrite Z2, <- Z1, C1, zlen_app; lia|done|].
    exists h3. replace (ptr_add (ptr_add p1 (sb_off s1 + zlen (cur s p l))) 4)
      with (ptr_add p1 (sb_off s1 + (zlen (cur s p l) + 4))) by (unfold ptr_add; cbn; f_equal; lia).
    split_and!; [done|by eapply eff_trans|apply V3|].
    rewrite (view_contents V3), C3, C2, C1. unfold wire_string. rewrite <- H4.
    rewrite splice_app_two; [done|]. lia.
Qed.

Lemma run_put_string_long v n : SSHBUF_SIZE_MAX - 4 < n ->
  sshbuf_put_string i v n h = (Err SSH_ERR_NO_BUFFER_SPACE, h).
Proof.
  intros. unfold sshbuf_put_string. rewrite Z.gtb_ltb, (proj2 (Z.ltb_lt _ _)) by lia. done.
Qed.
End Strings.

(** ** Reading *)

(** The decoder of a string, on the bytes of a buffer. *)
Definition parse_string (c : list Z) : Z + (list Z * list Z) :=
  if zlen c <? 4 then inl SSH_ERR_MESSAGE_INCOMPLETE
  else
    let n := PEEK_U32 (slice c 0 4) in
    if n >? SSHBUF_SIZE_MAX - 4 then inl SSH_ERR_STRING_TOO_LARGE
    else if zlen c - 4 <? n then inl SSH_ERR_MESSAGE_INCOMPLETE
    else inr (slice c 4 n, drop (Z.to_nat (n + 4)) c).

Lemma parse_wire_string bs rest : zlen bs <= SSHBUF_SIZE_MAX - 4 ->
  parse_string (wire_string bs ++ rest) = inr (bs, rest).
Proof.
  intros Hl. unfold parse_string, SSHBUF_SIZE_MAX in *.
  pose proof (zlen_nonneg bs). pose proof (zlen_nonneg rest).
  assert (zlen (POKE_U32 (zlen bs)) = 4) as H4 by done.
  rewrite zlen_app, zlen_wire_string, (proj2 (Z.ltb_ge _ _)) by lia.
  unfold wire_string. rewrite <- app_assoc, <- H4, slice_prefix.
  rewrite peek_poke_u32 by lia.
  rewrite Z.gtb_ltb, !(proj2 (Z.ltb_ge _ _)) by lia.
  rewrite slice_second. do 2 f_equal.
  rewrite (app_assoc (POKE_U32 _)).
  replace (zlen bs + zlen (POKE_U32 (zlen bs))) with (zlen (POKE_U32 (zlen bs) ++ bs))
    by (rewrite zlen_app; lia).
  apply drop_zlen.
Qed.

(** The decoder accepts nothing but encodings. *)
Lemma parse_string_inv c bs rest : bytes_ok c -> parse_string c = inr (bs, rest) ->
  c = wire_string bs ++ rest /\ zlen bs <= SSHBUF_SIZE_MAX - 4.
Proof.
  unfold parse_string. intros Hok.
  destruct (Z.ltb_spec (zlen c) 4) as [|H4]; [done|].
  pose proof (bytes_ok_slice c 0 4 Hok) as Hhd.
  assert (zlen (slice c 0 4) = 4) as Hl4 by (apply zlen_slice; lia).
  pose proof (peek_u32_range _ Hhd Hl4) as Hr.
  destruct (Z.gtb_spec (PEEK_U32 (slice c 0 4)) (SSHBUF_SIZE_MAX - 4)) as [|Hmx]; [done|].
  destruct (Z.ltb_spec (zlen c - 4) (PEEK_U32 (slice c 0 4))) as [|Hlen]; [done|].
  intros [= <- <-]. rewrite zlen_slice by lia. split; [|done].
  unfold wire_string. rewrite zlen_slice, poke_u32_peek by (done || lia).
  rewrite <- slice_app by lia. unfold slice. rewrite drop_0, Z.add_comm, take_drop. done.
Qed.

Section Read.
Context {rc : nat -> Z} {h : heap} {i : bufp} {s : sshbuf} {p : ptr} {l : list Z}
        (V : view rc h i s p l).

(** Consuming part of the contents leaves memory, and so earlier pointers
    into the buffer, as they were. *)
Lemma run_load_after n o h' : h_mem h' = h_mem h -> 0 <= o -> 0 <= n ->
  o + n <= zlen (cur s p l) ->
  load (ptr_add (ptr_add p (sb_off s)) o) n h' = (Ok (slice (cur s p l) o n), h').
Proof.
  intros Hm Ho Hn Hb. pose proof (run_load_cur V o n Ho Hn Hb) as R. revert R.
  unfold load. rewrite Hm. destruct (h_mem h !! _); [|done]. case_match; [|done].
  intros [= E]. by rewrite <- E.
Qed.

Lemma run_get n : 0 <= n <= zlen (cur s p l) ->
  exists s' h', sshbuf_get i true n h = (Ok (slice (cur s p l) 0 n), h') /\ eff rc i h h' /\
    view rc h' i s' p l /\ cur s' p l = drop (Z.to_nat n) (cur s p l) /\ same_id s s' /\
    h_mem h' = h_mem h.
Proof.
  intros Hn. destruct (run_consume V n Hn) as (s' & h' & R & E & V' & Hm & ID & C & _).
  exists s', h'. split_and!; auto. unfold sshbuf_get. mstep (run_ptr V). mstep R. cbn [andb].
  destruct (Z.eqb_spec n 0) as [->|Hn0]; cbn [negb]; [done|].
  pose proof (run_load_after n 0 h' Hm ltac:(lia) ltac:(lia) ltac:(lia)) as L.
  revert L. unfold ptr_add. cbn [fst snd]. by rewrite Z.add_0_r.
Qed.

Lemma run_get_uint w peek : 0 <= w ->
  if w <=? zlen (cur s p l) then
    exists s' h', sshbuf_get_uint w peek i h = (Ok (peek (slice (cur s p l) 0 w)), h') /\
      eff rc i h h' /\ view rc h' i s' p l /\ cur s' p l = drop (Z.to_nat w) (cur s p l) /\
      same_id s s' /\ h_mem h' = h_mem h
  else sshbuf_get_uint w peek i h = (Err SSH_ERR_MESSAGE_INCOMPLETE, h).
Proof.
  intros Hw. unfold sshbuf_get_uint. destruct (Z.leb_spec w (zlen (cur s p l))).
  - destruct (run_consume V w) as (s' & h' & R & E & V' & Hm & ID & C & _); [lia|].
    exists s', h'. split_and!; auto. mstep (run_ptr V). mstep R.
    pose proof (run_load_after w 0 h' Hm ltac:(lia) ltac:(lia) ltac:(lia)) as L.
    replace (ptr_add (ptr_add p (sb_off s)) 0) with (ptr_add p (sb_off s)) in L
      by (unfold ptr_add; cbn; f_equal; lia).
    unfold fmap, M_fmap. by mstep L.
  - mstep (run_ptr V). by mstep (run_consume_short V w ltac:(lia)).
Qed.

Lemma run_peek_string_direct :
  sshbuf_peek_string_direct i h =
    (match parse_string (cur s p l) with
     | inl e => Err e
     | inr (bs, _) => Ok (ptr_add (ptr_add p (sb_off s)) 4, zlen bs)
     end, h).
Proof.
  pose proof (zlen_cur V) as Z. pose proof (view_bounds V) as B.
  unfold sshbuf_peek_string_direct. mstep (run_ptr V). mstep (run_len V). unfold parse_string. rewrite <- Z.
  destruct (Z.ltb_spec (zlen (cur s p l)) 4); [done|].
  pose proof (run_load_after 4 0 h eq_refl ltac:(lia) ltac:(lia) ltac:(lia)) as L.
  replace (ptr_add (ptr_add p (sb_off s)) 0) with (ptr_add p (sb_off s)) in L
    by (unfold ptr_add; cbn; f_equal; lia).
  mstep L. destruct (Z.gtb_spec (PEEK_U32 (slice (cur s p l) 0 4)) (SSHBUF_SIZE_MAX - 4)); [done|].
  mstep (run_len V). rewrite <- Z, wrap_small by lia.
  destruct (Z.ltb_spec (zlen (cur s p l) - 4) (PEEK_U32 (slice (cur s p l) 0 4))); [done|].
  rewrite zlen_slice; [done|lia| |lia].
  apply peek_u32_range; [apply bytes_ok_slice, (bytes_ok_cur V)|apply zlen_slice; lia].
Qed.

Lemma run_get_string_direct :
  match parse_string (cur s p l) with
  | inl e => sshbuf_get_string_direct i h = (Err e, h)
  | inr (bs, rest) => exists s' h',
      sshbuf_get_string_direct i h = (Ok (ptr_add (ptr_add p (sb_off s)) 4, zlen bs), h') /\
      eff rc i h h' /\ view rc h' i s' p l /\ cur s' p l = rest /\ same_id s s' /\
      h_mem h' = h_mem h
  end.
Proof.
  unfold sshbuf_get_string_direct. pose proof run_peek_string_direct as R0.
  destruct (parse_string (cur s p l)) as [e|[bs rest]] eqn:P; [by mstep R0|].
  mstep R0. destruct (parse_string_inv _ _ _ (bytes_ok_cur V) P) as [Hc Hmx].
  unfold SSHBUF_SIZE_MAX in Hmx. pose proof (zlen_nonneg bs). pose proof (zlen_nonneg rest).
  rewrite wrap_small by lia.
  destruct (run_consume V (zlen bs + 4)) as (s' & h' & R & E & V' & Hm & ID & C & _).
  { rewrite Hc, zlen_app, zlen_wire_string. lia. }
  exists s', h'. split_and!; auto.
  - rewrite (bind_ok _ _ _ tt h'); [done|]. unfold catch. by rewrite R.
  - rewrite C, Hc, <- zlen_wire_string. apply drop_zlen.
Qed.

(** Copies handed to the caller come from the same, unmodified, memory. *)
Lemma run_copy_out h' bs rest : h_mem h' = h_mem h -> parse_string (cur s p l) = inr (bs, rest) ->
  copy_out (ptr_add (ptr_add p (sb_off s)) 4) (zlen bs) h' =
    (if h_oom h' (h_tick h') then Err SSH_ERR_ALLOC_FAIL else Ok (bs ++ [0]), set_tick h').
Proof.
  intros Hm P. destruct (parse_string_inv _ _ _ (bytes_ok_cur V) P) as [Hc _].
  pose proof (zlen_nonneg bs). pose proof (zlen_nonneg rest).
  unfold copy_out. assert (alloc_ok h' = (Ok (negb (h_oom h' (h_tick h'))), set_tick h')) as Ra by done.
  mstep Ra. destruct (h_oom h' (h_tick h')); cbn [negb]; [done|].
  rewrite (bind_ok _ _ _ bs (set_tick h')); [done|].
  destruct (Z.eqb_spec (zlen bs) 0) as [Hz|Hz]; cbn [negb].
  - destruct bs; [done|unfold zlen in Hz; cbn in Hz; lia].
  - assert (zlen (POKE_U32 (zlen bs)) = 4) as H4 by done.
    assert (4 + zlen bs <= zlen (cur s p l)) by (rewrite Hc, zlen_app, zlen_wire_string; lia).
    rewrite run_load_after by (done || lia). do 2 f_equal. rewrite Hc. unfold wire_string.
    rewrite <- app_assoc, <- H4. apply slice_second.
Qed.

Lemma run_get_string :
  match parse_string (cur s p l) with
  | inl e => sshbuf_get_string i true h = (Err e, h)
  | inr (bs, rest) => exists s' h' r, sshbuf_get_string i true h = (r, h') /\
      eff rc i h h' /\ view rc h' i s' p l /\ cur s' p l = rest /\ same_id s s' /\
      (r = Ok (Some (bs ++ [0]), zlen bs) \/ (r = Err SSH_ERR_ALLOC_FAIL /\ exists k, h_oom h k = true))
  end.
Proof.
  unfold sshbuf_get_string. pose proof run_get_string_direct as R0.
  destruct (parse_string (cur s p l)) as [e|[bs rest]] eqn:P; [by mstep R0|].
  destruct R0 as (s' & h' & R & E & V' & C & ID & Hm).
  pose proof (run_copy_out h' bs rest Hm P) as RC.
  assert (eff rc i h (set_tick h')) as E'.
  { eapply eff_trans; [exact E|]. apply eff_tick; [apply V'|]. rewrite (v_buf _ _ _ _ _ _ V'). eauto. }
  exists s', (set_tick h'). mstep R. destruct (h_oom h' (h_tick h')) eqn:Ho.
  - exists (Err SSH_ERR_ALLOC_FAIL). split_and!; auto; [|by apply view_tick|].
    2:{ right. split; [done|]. exists (h_tick h'). by rewrite <- (eff_oom _ _ _ _ E). }
    unfold fmap, M_fmap. rewrite (bind_err _ _ _ SSH_ERR_ALLOC_FAIL (set_tick h')); [done|]. by mstep RC.
  - exists (Ok (Some (bs ++ [0]), zlen bs)). split_and!; auto; [|by apply view_tick].
    unfold fmap, M_fmap. rewrite (bind_ok _ _ _ (Some (bs ++ [0])) (set_tick h')); [done|]. by mstep RC.
Qed.
End Read.
