(* ===== verification/SshbufWire2.v ===== *)
(** * Wire format, continued: peeks and pokes, copies between buffers, child
    buffers over strings, bignum bytes *)

From S2P Require Import Prelude Ssherr Sshbuf SshbufInv SshbufOps SshbufLife SshbufGetput SshbufWire.

(** ** Peek and poke *)

Section PeekPoke.
Context {rc : nat -> Z} {h : heap} {i : bufp} {s : sshbuf} {p : ptr} {l : list Z}
        (V : view rc h i s p l).

(** The bound check of [check_offset] is exact: no wrapped sum passes it. *)
Lemma run_check_offset wr o n : 0 <= o <= SIZE_MAX -> 0 <= n <= SIZE_MAX ->
  check_offset i wr o n h =
    (if o + n >=? SIZE_MAX then Err SSH_ERR_INVALID_ARGUMENT
     else if o + n >? zlen (cur s p l)
     then Err (if wr then SSH_ERR_NO_BUFFER_SPACE else SSH_ERR_MESSAGE_INCOMPLETE)
     else Ok tt, h).
Proof.
  intros Ho Hn. unfold check_offset, SIZE_MAX in *. mstep (run_ptr V).
  rewrite wrap_small by lia.
  destruct (Z.geb_spec o (2 ^ 64 - 1 - n)), (Z.geb_spec (o + n) (2 ^ 64 - 1)); try lia; [done|].
  mstep (run_len V). rewrite (zlen_cur V), wrap_small by lia.
  by destruct (o + n >? sb_size s - sb_off s).
Qed.

Lemma run_peek_uint w peek o : 0 <= o <= SIZE_MAX -> 0 <= w <= 8 ->
  sshbuf_peek_uint w peek i o h =
    (if o + w >=? SIZE_MAX then Err SSH_ERR_INVALID_ARGUMENT
     else if o + w >? zlen (cur s p l) then Err SSH_ERR_MESSAGE_INCOMPLETE
     else Ok (peek (slice (cur s p l) o w)), h).
Proof.
  intros Ho Hw. unfold sshbuf_peek_uint, check_roffset.
  pose proof (run_check_offset false o w Ho ltac:(unfold SIZE_MAX; lia)) as R.
  destruct (o + w >=? SIZE_MAX); [unfold mbind at 1, M_bind; by mstep R|].
  destruct (Z.gtb_spec (o + w) (zlen (cur s p l))); [unfold mbind at 1, M_bind; by mstep R|].
  rewrite (bind_ok _ _ _ (ptr_add (ptr_add p (sb_off s)) o) h).
  - unfold fmap, M_fmap. by mstep (run_load_cur V o w ltac:(lia) ltac:(lia) ltac:(lia)).
  - mstep R. by mstep (run_ptr V).
Qed.

(** A poke overwrites bytes already in the buffer, or changes nothing. *)
Lemma run_poke_uint w poke o v : 0 <= o <= SIZE_MAX -> 0 <= w <= 8 ->
  zlen (poke v) = w -> bytes_ok (poke v) ->
  exists r h', sshbuf_poke_uint w poke i o v h = (r, h') /\ eff rc i h h' /\
    match r with
    | Ok _ => mutable s = true /\ contents h' i = Some (splice (cur s p l) o (poke v))
    | Err _ => h' = h
    | Crash => False
    end.
Proof.
  intros Ho Hw Hl Hok. unfold sshbuf_poke_uint, check_woffset.
  assert (eff rc i h h) as E0 by (apply eff_refl; [apply V|]; rewrite (v_buf _ _ _ _ _ _ V); eauto).
  pose proof (run_check_offset true o w Ho ltac:(unfold SIZE_MAX; lia)) as R.
  destruct (o + w >=? SIZE_MAX).
  { eexists (Err _), h. rewrite (bind_err _ _ _ SSH_ERR_INVALID_ARGUMENT h); [done|]. by mstep R. }
  destruct (Z.gtb_spec (o + w) (zlen (cur s p l))).
  { eexists (Err _), h. rewrite (bind_err _ _ _ SSH_ERR_NO_BUFFER_SPACE h); [done|]. by mstep R. }
  destruct (mutable s) eqn:MUT.
  - destruct (run_store_cur V MUT o (poke v)) as (h' & l' & R2 & E & V' & C'); [lia|lia|done|].
    exists (Ok tt), h'. rewrite (bind_ok _ _ _ (ptr_add p (sb_off s + o)) h).
    + split_and!; auto. by rewrite (view_contents V'), C'.
    + mstep R. mstep (run_mutable_ptr V). rewrite MUT. unfold ptr_add, mret, M_ret. cbn.
      do 3 f_equal. lia.
  - exists (Err SSH_ERR_BUFFER_READ_ONLY), h.
    rewrite (bind_err _ _ _ SSH_ERR_BUFFER_READ_ONLY h); [done|].
    mstep R. mstep (run_mutable_ptr V). by rewrite MUT.
Qed.
End PeekPoke.

(** ** C strings *)

(** [sshbuf_get_cstring] refuses a NUL anywhere but at the end. *)
Definition cstring_ok (bs : list Z) : bool :=
  match memchr bs 0 with Some z => negb (z <? zlen bs - 1) | None => true end.

Lemma run_get_cstring {rc h i s p l} (V : view rc h i s p l) :
  match parse_string (cur s p l) with
  | inl e => sshbuf_get_cstring i true h = (Err e, h)
  | inr (bs, rest) =>
      if cstring_ok bs then exists s' h' r, sshbuf_get_cstring i true h = (r, h') /\
        eff rc i h h' /\ view rc h' i s' p l /\ cur s' p l = rest /\
        (r = Ok (Some (bs ++ [0]), zlen bs) \/ (r = Err SSH_ERR_ALLOC_FAIL /\ exists k, h_oom h k = true))
      else sshbuf_get_cstring i true h = (Err SSH_ERR_INVALID_FORMAT, h)
  end.
Proof.
  unfold sshbuf_get_cstring. pose proof (run_peek_string_direct V) as RP.
  pose proof (run_get_string_direct V) as RD.
  destruct (parse_string (cur s p l)) as [e|[bs rest]] eqn:P; [by mstep RP|].
  mstep RP. destruct (parse_string_inv _ _ _ (bytes_ok_cur V) P) as [Hc _].
  pose proof (zlen_nonneg bs). pose proof (zlen_nonneg rest).
  assert (zlen (POKE_U32 (zlen bs)) = 4) as H4 by done.
  rewrite (bind_ok _ _ _ bs h).
  2:{ destruct (Z.gtb_spec (zlen bs) 0).
      - rewrite (run_load_after V) by (rewrite ?Hc, ?zlen_app, ?zlen_wire_string; done || lia).
        rewrite Hc. unfold wire_string. rewrite <- app_assoc, <- H4 at 1. by rewrite slice_second.
      - destruct bs; [done|]. unfold zlen in *. cbn in *. lia. }
  assert ((zlen bs >? 0) && match memchr bs 0 with Some z => z <? zlen bs - 1 | None => false end
          = negb (cstring_ok bs)) as Hcond.
  { unfold cstring_ok. destruct bs as [|x bs]; [done|]. rewrite zlen_cons in *. pose proof (zlen_nonneg bs).
    rewrite Z.gtb_ltb, (proj2 (Z.ltb_lt _ _)) by lia. cbn [andb].
    destruct (memchr (x :: bs) 0); [by rewrite negb_involutive|done]. }
  rewrite Hcond. destruct (cstring_ok bs); cbn [negb]; [|done].
  destruct RD as (s' & h' & R & E & V' & C & ID & Hm).
  pose proof (run_copy_out V h' bs rest Hm P) as RC.
  assert (eff rc i h (set_tick h')) as E'.
  { eapply eff_trans; [exact E|]. apply eff_tick; [apply V'|]. rewrite (v_buf _ _ _ _ _ _ V'). eauto. }
  exists s', (set_tick h').
  rewrite (bind_ok _ _ _ tt h').
  2:{ unfold catch, sshbuf_skip_string. by rewrite (bind_ok _ _ _ _ _ R). }
  unfold fmap, M_fmap. destruct (h_oom h' (h_tick h')) eqn:Ho.
  - exists (Err SSH_ERR_ALLOC_FAIL). split_and!; auto; [|by apply view_tick|].
    + rewrite (bind_err _ _ _ SSH_ERR_ALLOC_FAIL (set_tick h')); [done|]. by mstep RC.
    + right. split; [done|]. exists (h_tick h'). by rewrite <- (eff_oom _ _ _ _ E).
  - exists (Ok (Some (bs ++ [0]), zlen bs)). split_and!; auto; [|by apply view_tick].
    rewrite (bind_ok _ _ _ (Some (bs ++ [0])) (set_tick h')); [done|]. by mstep RC.
Qed.

(** ** Child buffers over a string *)

Lemma framed_consume k s0 i n h : i <> k -> framed k s0 (sshbuf_consume i n) h.
Proof.
  intros Hi. unfold sshbuf_consume, sshbuf_len. apply framed_bind; [by apply framed_sanity|].
  intros _ h1 _. destruct (n =? 0); [done|].
  apply framed_bind.
  { apply framed_bind; [by apply framed_sanity|]. intros _ h2 _.
    apply framed_bind; [by apply framed_deref|]. done. }
  intros m h2 _. destruct (n >? m); [done|].
  apply framed_bind; [by apply framed_modify|]. intros _ h3 _.
  apply framed_bind; [by apply framed_deref|]. intros s h4 _.
  destruct (sb_off s =? sb_size s); [by apply framed_assign|done].
Qed.

(** [sshbuf_froms]: the string leaves the parent and becomes a read-only child
    that shares its memory. *)
Lemma run_froms {rc h i s p l} (V : view rc h i s p l) :
  sb_refcount s < SSHBUF_REFS_MAX ->
  match parse_string (cur s p l) with
  | inl e => sshbuf_froms i h = (Err e, h)
  | inr (bs, rest) =>
      (sshbuf_froms i h = (Err SSH_ERR_ALLOC_FAIL, set_tick h)) \/
      exists c h', sshbuf_froms i h = (Ok c, h') /\ h_bufs h !! c = None /\
        heap_inv (rc_add rc c 1) h' /\ h_mem h' = h_mem h /\
        (forall j, j <> i -> j <> c -> h_bufs h' !! j = h_bufs h !! j) /\
        contents h' c = Some bs /\ contents h' i = Some rest /\
        exists cs, h_bufs h' !! c = Some cs /\ sb_parent cs = Some i /\ mutable cs = false
  end.
Proof.
  intros Hmax. unfold sshbuf_froms. pose proof (run_peek_string_direct V) as RP.
  destruct (parse_string (cur s p l)) as [e|[bs rest]] eqn:P; [by mstep RP|].
  mstep RP. destruct (parse_string_inv _ _ _ (bytes_ok_cur V) P) as [Hc Hmx].
  unfold SSHBUF_SIZE_MAX in Hmx. pose proof (zlen_nonneg bs). pose proof (zlen_nonneg rest).
  pose proof (view_bounds V) as B. pose proof V as [INV Hrc Hs D].
  set (q := ptr_add (ptr_add p (sb_off s)) 4).
  pose proof (run_from_raw h (Some q) (zlen bs)) as Rf.
  destruct (bool_decide_reflect (Some q = None)) as [?|_]; [done|]. cbn [orb] in Rf.
  rewrite Z.gtb_ltb, (proj2 (Z.ltb_ge _ _)) in Rf by (unfold SSHBUF_SIZE_MAX; lia).
  destruct (h_oom h (h_tick h)); [left; by mstep Rf|right].
  mstep Rf. set (k := h_next h) in *. fold (child_buf q (zlen bs)).
  assert (h_bufs h !! k = None) as Hk by (apply (fresh_buf INV)).
  pose proof (inv_fresh_buf _ _ INV i s Hs) as Hik. fold k in Hik.
  change (set_next _) with (ins k (child_buf q (zlen bs)) (set_next (set_tick h))).
  rewrite (wrap_small _ (zlen bs + 4)) by lia.
  assert (zlen bs + 4 + zlen rest = zlen (cur s p l)) as Hz
    by (rewrite Hc, zlen_app, zlen_wire_string; lia).
  destruct (run_consume (view_next (view_tick V)) (zlen bs + 4))
    as (s1 & h1 & R1 & E1 & V1 & Hm1 & (Hp1 & Hr1 & Ho1) & C1 & _); [lia|].
  pose proof (framed_consume k (child_buf q (zlen bs)) i (zlen bs + 4) (set_next (set_tick h)) ltac:(lia)) as F.
  unfold framed in F. rewrite R1 in F. cbn [fst snd] in F.
  pose proof (zlen_cur V) as ZC.
  destruct (run_attach V1 k q (zlen bs)) as (h' & R2 & Hb' & Hm' & INV').
  { rewrite (eff_bufs _ _ _ _ E1 k) by lia. done. }
  { done. }
  { pose proof (eff_next _ _ _ _ E1) as N. cbn in N. fold k in N. lia. }
  { by rewrite Hr1. }
  { done. }
  { unfold q. cbn. lia. }
  { lia. }
  { unfold q. cbn. lia. }
  { unfold SSHBUF_SIZE_MAX. lia. }
  rewrite (bind_ok _ _ _ tt h').
  2:{ unfold catch. rewrite (bind_ok _ _ _ _ _ F). by rewrite R2. }
  exists k, h'. cbn in Hm1. split_and!; auto.
  - congruence.
  - intros j Hj Hjk. rewrite Hb', !lookup_insert_ne by done. by rewrite (eff_bufs _ _ _ _ E1 j).
  - rewrite (contents_unfold h' k (with_parent (Some i) (child_buf q (zlen bs))) q l).
    + cbn. rewrite Z.sub_0_r, Z.add_0_r. f_equal.
      transitivity (slice (cur s p l) 4 (zlen bs)).
      * unfold cur. rewrite slice_slice by lia. done.
      * assert (zlen (POKE_U32 (zlen bs)) = 4) as H4 by done.
        rewrite Hc. unfold wire_string. rewrite <- app_assoc, <- H4 at 1. apply slice_second.
    + rewrite Hb'. apply lookup_insert_eq.
    + done.
    + rewrite Hm', Hm1. apply (do_mem _ _ _ _ _ _ D).
  - rewrite (contents_unfold h' i (with_refcount (sb_refcount s1 + 1) s1) p l).
    + cbn. fold (cur s1 p l). rewrite C1, Hc, <- zlen_wire_string. f_equal. apply drop_zlen.
    + rewrite Hb', lookup_insert_ne by lia. apply lookup_insert_eq.
    + apply (do_cd _ _ _ _ _ _ (v_data _ _ _ _ _ _ V1)).
    + rewrite Hm', Hm1. apply (do_mem _ _ _ _ _ _ D).
  - eexists. split_and!; [rewrite Hb'; apply lookup_insert_eq|done|done].
Qed.

(** ** Bignum bytes *)

(** One store into a partly filled reservation. *)
Lemma run_fill_step {rc h i s p l} (V : view rc h i s p l) pre fill bs :
  mutable s = true -> cur s p l = pre ++ fill -> zlen bs <= zlen fill -> bytes_ok bs ->
  exists h' l', store (ptr_add p (sb_off s + zlen pre)) bs h = (Ok tt, h') /\ eff rc i h h' /\
    view rc h' i s p l' /\ cur s p l' = (pre ++ bs) ++ drop (length bs) fill.
Proof.
  intros MUT Hc Hl Hok. pose proof (zlen_nonneg pre).
  destruct (run_store_cur V MUT (zlen pre) bs) as (h' & l' & R & E & V' & C');
    [lia|rewrite Hc, zlen_app; lia|done|].
  exists h', l'. split_and!; auto. rewrite C', Hc. unfold splice, zlen.
  rewrite Nat2Z.id, take_app_length, <- app_assoc. do 2 f_equal.
  rewrite drop_app_ge by lia. f_equal. lia.
Qed.

(** The encoding: no leading zeros, one zero byte when the top bit is set. *)
Definition bignum_bytes (v : list Z) : list Z :=
  let s := skip_zeros v in
  if (zlen s >? 0) && negb (Z.land (byte_at s 0) 0x80 =? 0) then 0 :: s else s.

Lemma skip_zeros_ok v : bytes_ok v -> bytes_ok (skip_zeros v).
Proof.
  induction v as [|x v IH]; intros Hok; [done|]. cbn. apply Forall_cons in Hok as [? ?].
  destruct (x =? 0); auto. by constructor.
Qed.

Lemma skip_zeros_le v : zlen (skip_zeros v) <= zlen v.
Proof.
  induction v as [|x v IH]; [done|]. cbn [skip_zeros]. rewrite zlen_cons. destruct (x =? 0); [lia|].
  rewrite zlen_cons. lia.
Qed.

Lemma skip_zeros_suffix v : skip_zeros v = drop (length v - length (skip_zeros v)) v.
Proof.
  induction v as [|x v IH]; [done|]. pose proof (skip_zeros_le v). unfold zlen in *. cbn [skip_zeros].
  destruct (x =? 0).
  - replace (length (x :: v) - length (skip_zeros v))%nat
      with (S (length v - length (skip_zeros v))) by (cbn; lia). done.
  - rewrite Nat.sub_diag. done.
Qed.

Lemma skip_zeros_idem v : skip_zeros (skip_zeros v) = skip_zeros v.
Proof.
  induction v as [|x v IH]; [done|]. cbn [skip_zeros]. destruct (x =? 0) eqn:E; [done|].
  cbn. by rewrite E.
Qed.

Lemma skip_zeros_bignum_bytes v : skip_zeros (bignum_bytes v) = skip_zeros v.
Proof. unfold bignum_bytes. case_match; [cbn|]; apply skip_zeros_idem. Qed.

Lemma bignum_bytes_ok v : bytes_ok v -> bytes_ok (bignum_bytes v).
Proof.
  intros Hok. apply skip_zeros_ok in Hok. unfold bignum_bytes. case_match; [|done].
  constructor; [unfold byte_ok; lia|done].
Qed.

(** The encoding is never read as a negative number. *)
Lemma bignum_bytes_msb v : bignum_bytes v <> [] -> Z.land (byte_at (bignum_bytes v) 0) 0x80 = 0.
Proof.
  unfold bignum_bytes. intros Hn.
  destruct ((zlen (skip_zeros v) >? 0) && _) eqn:E; [done|].
  destruct (skip_zeros v) as [|x s]; [done|].
  rewrite zlen_cons in E. pose proof (zlen_nonneg s).
  rewrite Z.gtb_ltb, (proj2 (Z.ltb_lt _ _)) in E by lia. cbn [andb] in E. lia.
Qed.

Lemma run_put_bignum2_bytes {rc h i s p l} (V : view rc h i s p l) v :
  bytes_ok v -> zlen v <= SSHBUF_SIZE_MAX - 5 ->
  append_outcome rc h i s (cur s p l) (wire_string (bignum_bytes v))
    (sshbuf_put_bignum2_bytes i v h).
Proof.
  intros Hok Hl. unfold sshbuf_put_bignum2_bytes, SSHBUF_SIZE_MAX in *.
  rewrite Z.gtb_ltb, (proj2 (Z.ltb_ge _ _)) by lia.
  pose proof (skip_zeros_le v). pose proof (skip_zeros_ok v Hok) as Hs.
  pose proof (zlen_nonneg (skip_zeros v)). unfold bignum_bytes.
  set (pre := if _ && _ then 1 else 0).
  set (bb := if _ && _ then 0 :: skip_zeros v else skip_zeros v).
  assert (0 <= pre <= 1 /\ zlen bb = zlen (skip_zeros v) + pre /\ bytes_ok bb) as (Hpre & Hbb & Hbok).
  { unfold pre, bb. case_match; rewrite ?zlen_cons; split_and!; auto; try lia.
    constructor; [unfold byte_ok; lia|done]. }
  rewrite wrap_small by lia.
  replace (zlen (skip_zeros v) + 4 + pre) with (zlen (wire_string bb))
    by (rewrite zlen_wire_string; lia).
  apply (run_append V). intros h1 s1 p1 l1 fill E V1 MUT1 C1 Hf. rewrite <- Hbb.
  rewrite zlen_wire_string in Hf. assert (zlen (POKE_U32 (zlen bb)) = 4) as H4 by done.
  destruct (run_fill_step V1 (cur s p l) fill (POKE_U32 (zlen bb)))
    as (h2 & l2 & R2 & E2 & V2 & C2); [done|done|lia|auto with cbytes|].
  mstep R2. set (fill2 := drop (length (POKE_U32 (zlen bb))) fill) in C2.
  assert (zlen fill2 = zlen bb) as Hf2 by (unfold fill2, zlen in *; rewrite length_drop; lia).
  set (base := cur s p l ++ POKE_U32 (zlen bb)) in *.
  assert (zlen base = zlen (cur s p l) + 4) as Hbase by (unfold base; rewrite zlen_app; lia).
  assert (forall n, ptr_add (ptr_add p1 (sb_off s1 + zlen (cur s p l))) (4 + n) =
                    ptr_add p1 (sb_off s1 + (zlen base + n))) as Hptr.
  { intros n. unfold ptr_add. cbn. f_equal. lia. }
  assert (exists h3 l3, ((if pre =? 0 then mret tt
      else store (ptr_add (ptr_add p1 (sb_off s1 + zlen (cur s p l))) 4) [0]) : HM unit) h2 = (Ok tt, h3) /\
    eff rc i h2 h3 /\ view rc h3 i s1 p1 l3 /\
    exists pz fill3, cur s1 p1 l3 = (base ++ pz) ++ fill3 /\ zlen pz = pre /\
      bb = pz ++ skip_zeros v /\ zlen fill3 = zlen (skip_zeros v)) as (h3 & l3 & R3 & E3 & V3 & pz & fill3 & C3 & Hpz & Hbbz & Hf3).
  { unfold pre, bb in *. case_match eqn:Hmsb; cbn [Z.eqb].
    - destruct (run_fill_step V2 base fill2 [0]) as (h3 & l3 & R3 & E3 & V3 & C3);
        [done|done|rewrite Hf2, zlen_cons, zlen_nil; lia|constructor; [unfold byte_ok; lia|constructor]|].
      specialize (Hptr 0). rewrite !Z.add_0_r in Hptr. rewrite Hptr.
      exists h3, l3. split_and!; auto. exists [0], (drop 1 fill2). split_and!; auto.
      unfold zlen in *. rewrite length_drop. cbn in *. lia.
    - exists h2, l2. split_and!; auto; [by apply eff_refl; [apply V2|]; rewrite (v_buf _ _ _ _ _ _ V2); eauto|].
      exists [], fill2. rewrite app_nil_r. auto. }
  mstep R3. destruct (Z.eqb_spec (zlen (skip_zeros v)) 0) as [Hz|Hz]; cbn [negb].
  - exists h3. split_and!; [done|by eapply eff_trans|apply V3|]. rewrite (view_contents V3), C3.
    destruct fill3; [|unfold zlen in *; cbn in *; lia].
    destruct (skip_zeros v); [|unfold zlen in Hz; cbn in Hz; lia].
    unfold wire_string. rewrite Hbbz, !app_nil_r. unfold base. rewrite Hbbz, !app_nil_r, <- app_assoc. done.
  - rewrite Hptr. destruct (run_fill_step V3 (base ++ pz) fill3 (skip_zeros v))
      as (h4 & l4 & R4 & E4 & V4 & C4); [done|done|lia|done|].
    rewrite zlen_app, Hpz in R4. exists h4.
    split_and!; [done|by eapply eff_trans; [exact E2|]; eapply eff_trans; [exact E3|]|apply V4|].
    rewrite (view_contents V4), C4, drop_ge by (unfold zlen in *; lia). rewrite app_nil_r.
    unfold wire_string, base. rewrite <- !app_assoc. by rewrite <- Hbbz.
Qed.

Lemma run_get_bignum2_bytes_direct {rc h i s p l} (V : view rc h i s p l) :
  match parse_string (cur s p l) with
  | inl e => sshbuf_get_bignum2_bytes_direct i h = (Err e, h)
  | inr (bs, rest) =>
      if negb (zlen bs =? 0) && negb (Z.land (byte_at bs 0) 0x80 =? 0)
      then sshbuf_get_bignum2_bytes_direct i h = (Err SSH_ERR_BIGNUM_IS_NEGATIVE, h)
      else if (zlen bs >? SSHBUF_MAX_BIGNUM + 1) ||
              ((zlen bs =? SSHBUF_MAX_BIGNUM + 1) && negb (byte_at bs 0 =? 0))
      then sshbuf_get_bignum2_bytes_direct i h = (Err SSH_ERR_BIGNUM_TOO_LARGE, h)
      else exists s' h' q, sshbuf_get_bignum2_bytes_direct i h = (Ok (q, zlen (skip_zeros bs)), h') /\
        eff rc i h h' /\ view rc h' i s' p l /\ cur s' p l = rest /\
        load q (zlen (skip_zeros bs)) h' = (Ok (skip_zeros bs), h')
  end.
Proof.
  unfold sshbuf_get_bignum2_bytes_direct. pose proof (run_peek_string_direct V) as RP.
  destruct (parse_string (cur s p l)) as [e|[bs rest]] eqn:P; [by mstep RP|].
  mstep RP. destruct (parse_string_inv _ _ _ (bytes_ok_cur V) P) as [Hc Hmx].
  unfold SSHBUF_SIZE_MAX in Hmx. pose proof (zlen_nonneg bs). pose proof (zlen_nonneg rest).
  assert (zlen (POKE_U32 (zlen bs)) = 4) as H4 by done.
  assert (4 + zlen bs + zlen rest = zlen (cur s p l)) as Hlen
    by (rewrite Hc, zlen_app, zlen_wire_string; lia).
  assert (slice (cur s p l) 4 (zlen bs) = bs) as Hsl.
  { rewrite Hc. unfold wire_string. rewrite <- app_assoc, <- H4 at 1. apply slice_second. }
  rewrite (bind_ok _ _ _ bs h).
  2:{ destruct (Z.eqb_spec (zlen bs) 0); cbn [negb].
      - destruct bs; [done|]. unfold zlen in *. cbn in *. lia.
      - rewrite (run_load_after V) by (done || lia). by rewrite Hsl. }
  destruct (negb (zlen bs =? 0) && _); [done|]. destruct ((zlen bs >? _) || _); [done|].
  pose proof (skip_zeros_le bs). pose proof (zlen_nonneg (skip_zeros bs)).
  rewrite wrap_small by lia.
  destruct (run_consume V (zlen bs + 4)) as (s' & h' & R & E & V' & Hm & ID & C & _); [lia|].
  exists s', h', (ptr_add (ptr_add (ptr_add p (sb_off s)) 4) (zlen bs - zlen (skip_zeros bs))).
  split_and!; auto.
  - rewrite (bind_ok _ _ _ tt h'); [done|]. unfold catch. by rewrite R.
  - rewrite C, Hc, <- zlen_wire_string. apply drop_zlen.
  - replace (ptr_add (ptr_add (ptr_add p (sb_off s)) 4) (zlen bs - zlen (skip_zeros bs)))
      with (ptr_add (ptr_add p (sb_off s)) (4 + (zlen bs - zlen (skip_zeros bs))))
      by (unfold ptr_add; cbn; f_equal; lia).
    rewrite (run_load_after V) by (done || lia). do 2 f_equal.
    rewrite <- (slice_slice _ 4 (zlen bs)) by lia. rewrite Hsl.
    unfold slice. rewrite take_ge by (rewrite length_drop; unfold zlen; lia).
    rewrite (skip_zeros_suffix bs) at 2. f_equal. unfold zlen. lia.
Qed.
