(* ===== verification/SshbufThms.v ===== *)
(** * Properties of the buffer library

    Safety and isolation of every sequence of calls, release of memory, and
    round trips of the wire format. *)

From S2P Require Import Prelude Ssherr Sshbuf SshbufInv SshbufOps SshbufLife SshbufGetput.
From S2P Require Import SshbufWire SshbufWire2.

(** ** The calls of the library *)

Inductive width := W8 | W16 | W32 | W64.

Definition width_bytes (w : width) : Z :=
  match w with W8 => 1 | W16 => 2 | W32 => 4 | W64 => 8 end.
Definition peek (w : width) : list Z -> Z :=
  match w with W8 => fun p => byte_at p 0 | W16 => PEEK_U16 | W32 => PEEK_U32 | W64 => PEEK_U64 end.
Definition poke (w : width) : Z -> list Z :=
  match w with W8 => fun v => [u8 v] | W16 => POKE_U16 | W32 => POKE_U32 | W64 => POKE_U64 end.
Definition get_uint (w : width) : bufp -> HM Z :=
  match w with W8 => sshbuf_get_u8 | W16 => sshbuf_get_u16 | W32 => sshbuf_get_u32 | W64 => sshbuf_get_u64 end.
Definition put_uint (w : width) : bufp -> Z -> HM unit :=
  match w with W8 => sshbuf_put_u8 | W16 => sshbuf_put_u16 | W32 => sshbuf_put_u32 | W64 => sshbuf_put_u64 end.
Definition peek_uint (w : width) : bufp -> Z -> HM Z :=
  match w with W8 => sshbuf_peek_u8 | W16 => sshbuf_peek_u16 | W32 => sshbuf_peek_u32 | W64 => sshbuf_peek_u64 end.
Definition poke_uint (w : width) : bufp -> Z -> Z -> HM unit :=
  match w with W8 => sshbuf_poke_u8 | W16 => sshbuf_poke_u16 | W32 => sshbuf_poke_u32 | W64 => sshbuf_poke_u64 end.

Lemma put_uint_eq w : put_uint w = sshbuf_put_uint (width_bytes w) (poke w).
Proof. by destruct w. Qed.
Lemma get_uint_eq w : get_uint w = sshbuf_get_uint (width_bytes w) (peek w).
Proof. by destruct w. Qed.
Lemma peek_uint_eq w : peek_uint w = sshbuf_peek_uint (width_bytes w) (peek w).
Proof. by destruct w. Qed.
Lemma poke_uint_eq w : poke_uint w = sshbuf_poke_uint (width_bytes w) (poke w).
Proof. by destruct w. Qed.
Lemma zlen_poke w v : zlen (poke w v) = width_bytes w.
Proof. by destruct w. Qed.
Lemma poke_ok w v : bytes_ok (poke w v).
Proof. destruct w; [apply poke_ok_u8|apply poke_ok_u16|apply poke_ok_u32|apply poke_ok_u64]. Qed.
Lemma width_range w : 0 <= width_bytes w <= 8.
Proof. destruct w; cbn; lia. Qed.

Lemma peek_poke w v : 0 <= v < 2 ^ (8 * width_bytes w) -> peek w (poke w v) = v.
Proof.
  destruct w; cbn [peek poke width_bytes]; intros Hv.
  - unfold byte_at. cbn. by apply wrap_small.
  - by apply peek_poke_u16.
  - by apply peek_poke_u32.
  - by apply peek_poke_u64.
Qed.

Inductive call :=
| CNew
| CFrom (bs : list Z)
| CFromb (i : bufp)
| CFroms (i : bufp)
| CFree (i : bufp)
| CReset (i : bufp)
| CSetMax (i : bufp) (m : Z)
| CConsume (i : bufp) (n : Z)
| CConsumeEnd (i : bufp) (n : Z)
| CReserve (i : bufp) (n : Z)
| CPut (i : bufp) (bs : list Z)
| CPutb (i v : bufp)
| CPutUint (w : width) (i : bufp) (v : Z)
| CPutString (i : bufp) (bs : list Z)
| CPutStringb (i v : bufp)
| CPutBignum (i : bufp) (bs : list Z)
| CGet (i : bufp) (n : Z)
| CGetUint (w : width) (i : bufp)
| CGetString (i : bufp)
| CGetCstring (i : bufp)
| CGetBignum (i : bufp)
| CPeekUint (w : width) (i : bufp) (o : Z)
| CPokeUint (w : width) (i : bufp) (o v : Z).

(** The call; a constructor hands back the new buffer. [CFrom] wraps bytes of
    the caller's own, in a block of their own. *)
Definition exec (c : call) : HM (option bufp) :=
  match c with
  | CNew => sshbuf_new
  | CFrom bs => b ← add_block bs; sshbuf_from (Some (b, 0)) (zlen bs)
  | CFromb i => sshbuf_fromb i
  | CFroms i => Some <$> sshbuf_froms i
  | CFree i => sshbuf_free (Some i);; mret None
  | CReset i => sshbuf_reset i;; mret None
  | CSetMax i m => sshbuf_set_max_size i m;; mret None
  | CConsume i n => sshbuf_consume i n;; mret None
  | CConsumeEnd i n => sshbuf_consume_end i n;; mret None
  | CReserve i n => sshbuf_reserve i n;; mret None
  | CPut i bs => sshbuf_put i (SrcBytes bs) (zlen bs);; mret None
  | CPutb i v => sshbuf_putb i (Some v);; mret None
  | CPutUint w i v => put_uint w i v;; mret None
  | CPutString i bs => sshbuf_put_string i (SrcBytes bs) (zlen bs);; mret None
  | CPutStringb i v => sshbuf_put_stringb i (Some v);; mret None
  | CPutBignum i bs => sshbuf_put_bignum2_bytes i bs;; mret None
  | CGet i n => sshbuf_get i true n;; mret None
  | CGetUint w i => get_uint w i;; mret None
  | CGetString i => sshbuf_get_string i true;; mret None
  | CGetCstring i => sshbuf_get_cstring i true;; mret None
  | CGetBignum i => sshbuf_get_bignum2_bytes_direct i;; mret None
  | CPeekUint w i o => peek_uint w i o;; mret None
  | CPokeUint w i o v => poke_uint w i o v;; mret None
  end.

(** The buffer a call works on. *)
Definition target (c : call) : option bufp :=
  match c with
  | CNew | CFrom _ => None
  | CFromb i | CFroms i | CFree i | CReset i | CSetMax i _ | CConsume i _ | CConsumeEnd i _
  | CReserve i _ | CPut i _ | CPutb i _ | CPutUint _ i _ | CPutString i _ | CPutStringb i _
  | CPutBignum i _ | CGet i _ | CGetUint _ i | CGetString i | CGetCstring i | CGetBignum i
  | CPeekUint _ i _ | CPokeUint _ i _ _ => Some i
  end.

(** What the library asks of its callers: handles they hold, arguments of
    their C types, no copy of a buffer into itself, and the two limits the
    library does not enforce itself (see [reset_small_max], [fromb_refs_max]). *)
Definition valid (rc : nat -> Z) (h : heap) (c : call) : Prop :=
  (forall i, target c = Some i -> 1 <= rc i) /\
  match c with
  | CFromb i | CFroms i => forall s, h_bufs h !! i = Some s -> sb_refcount s < SSHBUF_REFS_MAX
  | CReset i => forall s, h_bufs h !! i = Some s -> SSHBUF_SIZE_INIT <= sb_max_size s \/ mutable s = false
  | CSetMax _ n | CConsume _ n | CConsumeEnd _ n | CReserve _ n | CGet _ n => 0 <= n
  | CFrom bs | CPut _ bs | CPutString _ bs | CPutBignum _ bs => bytes_ok bs
  | CPutb i v | CPutStringb i v => 1 <= rc v /\ v <> i
  | CPeekUint _ _ o | CPokeUint _ _ o _ => 0 <= o <= SIZE_MAX
  | _ => True
  end.

(** The callers' references after a call. *)
Definition rc_after (rc : nat -> Z) (c : call) (r : res (option bufp)) : nat -> Z :=
  match c, r with
  | CFree i, _ => rc_add rc i (-1)
  | _, Ok (Some b) => rc_add rc b 1
  | _, _ => rc
  end.

(** ** One call *)

(** What one call guarantees. *)
Definition good (rc : nat -> Z) (h : heap) (c : call) (out : res (option bufp) * heap) : Prop :=
  let '(r, h') := out in
  r <> Crash /\ heap_inv (rc_after rc c r) h' /\
  (forall j, target c <> Some j -> is_Some (h_bufs h' !! j) -> is_Some (h_bufs h !! j) ->
     contents h' j = contents h j).

Lemma good_eff rc h c i {A} (m : HM A) :
  heap_inv rc h -> 1 <= rc i -> target c = Some i ->
  rc_after rc c (Ok None) = rc -> (forall e, rc_after rc c (Err e) = rc) ->
  (exists r h', m h = (r, h') /\ r <> Crash /\ eff rc i h h') ->
  good rc h c ((m;; mret None) h).
Proof.
  intros INV Hrc Ht Ho He (r & h' & R & Hr & E).
  destruct r as [a|e|]; [mstep R|mstep R|done]; cbn; rewrite ?Ho, ?He.
  - split_and!; [done|apply E|]. intros j Hj _ _. apply (eff_contents rc i); auto. congruence.
  - split_and!; [done|apply E|]. intros j Hj _ _. apply (eff_contents rc i); auto. congruence.
Qed.

Lemma append_no_crash {rc h i s c bs} (m : HM unit) :
  append_outcome rc h i s c bs (m h) -> exists r h', m h = (r, h') /\ r <> Crash /\ eff rc i h h'.
Proof.
  unfold append_outcome. destruct (m h) as [r h'] eqn:R. intros [E Hr].
  exists r, h'. split_and!; auto. by destruct r.
Qed.

Lemma src_yields_buf {rc h i j} : heap_inv rc h -> 1 <= rc j -> j <> i ->
  exists q n bs, sshbuf_ptr j h = (Ok q, h) /\ sshbuf_len j h = (Ok n, h) /\ n = zlen bs /\
    bytes_ok bs /\ src_yields rc h i (SrcPtr q) bs.
Proof.
  intros INV Hrc Hj. destruct (view_intro rc h j INV Hrc) as (t & q & lj & Vj).
  eexists _, _, (cur t q lj). split_and!; [apply (run_ptr Vj)|apply (run_len Vj)|..].
  - by rewrite (zlen_cur Vj).
  - apply (bytes_ok_cur Vj).
  - exists j, t, q, lj. auto.
Qed.

Section OneCall.
Context {rc : nat -> Z} {h : heap} (INV : heap_inv rc h).

Lemma eff_none {i} : 1 <= rc i -> eff rc i h h.
Proof. intros. apply eff_refl; [done|]. by apply (inv_live _ _ INV). Qed.

Lemma good_consume i n : 1 <= rc i -> 0 <= n ->
  exists r h', sshbuf_consume i n h = (r, h') /\ r <> Crash /\ eff rc i h h'.
Proof.
  intros Hrc Hn. destruct (view_intro rc h i INV Hrc) as (s & p & l & V).
  destruct (decide (n <= zlen (cur s p l))).
  - destruct (run_consume V n) as (s' & h' & R & E & _); [lia|]. by eexists _, h'.
  - rewrite (run_consume_short V n) by lia. eexists _, h. split_and!; [done..|]. by apply eff_none.
Qed.

Lemma good_consume_end i n : 1 <= rc i -> 0 <= n ->
  exists r h', sshbuf_consume_end i n h = (r, h') /\ r <> Crash /\ eff rc i h h'.
Proof.
  intros Hrc Hn. destruct (view_intro rc h i INV Hrc) as (s & p & l & V).
  destruct (decide (n <= zlen (cur s p l))).
  - destruct (run_consume_end V n) as (s' & h' & R & E & _); [lia|]. by eexists _, h'.
  - rewrite (run_consume_end_short V n) by lia. eexists _, h. split_and!; [done..|]. by apply eff_none.
Qed.

Lemma good_reserve i n : 1 <= rc i -> 0 <= n ->
  exists r h', sshbuf_reserve i n h = (r, h') /\ r <> Crash /\ eff rc i h h'.
Proof.
  intros Hrc Hn. destruct (view_intro rc h i INV Hrc) as (s & p & l & V).
  destruct (decide (mutable s = true /\ n + zlen (cur s p l) <= sb_max_size s)) as [[MUT Hfit]|Hno].
  - destruct (run_reserve V n Hn MUT Hfit)
      as [(h1 & R & E & _)|(s1 & p1 & l1 & h1 & fill & R & E & _)]; by eexists _, h1.
  - rewrite (run_reserve_err V n Hn ltac:(destruct (mutable s); [right|left]; intuition lia)).
    eexists _, h. split_and!; [done..|]. by apply eff_none.
Qed.

Lemma good_put i v bs : 1 <= rc i -> bytes_ok bs -> src_yields rc h i v bs ->
  exists r h', sshbuf_put i v (zlen bs) h = (r, h') /\ r <> Crash /\ eff rc i h h'.
Proof.
  intros Hrc Hok Hy. destruct (view_intro rc h i INV Hrc) as (s & p & l & V).
  apply (append_no_crash _ (run_put V v bs Hok Hy)).
Qed.

Lemma good_put_string i v bs : 1 <= rc i -> bytes_ok bs -> src_yields rc h i v bs ->
  exists r h', sshbuf_put_string i v (zlen bs) h = (r, h') /\ r <> Crash /\ eff rc i h h'.
Proof.
  intros Hrc Hok Hy. destruct (view_intro rc h i INV Hrc) as (s & p & l & V).
  destruct (decide (zlen bs <= SSHBUF_SIZE_MAX - 4)).
  - apply (append_no_crash _ (run_put_string V v bs Hok Hy ltac:(done))).
  - rewrite (run_put_string_long (h := h) (i := i)) by lia.
    eexists _, h. split_and!; [done..|]. by apply eff_none.
Qed.

Lemma good_put_bignum i bs : 1 <= rc i -> bytes_ok bs ->
  exists r h', sshbuf_put_bignum2_bytes i bs h = (r, h') /\ r <> Crash /\ eff rc i h h'.
Proof.
  intros Hrc Hok. destruct (view_intro rc h i INV Hrc) as (s & p & l & V).
  destruct (decide (zlen bs <= SSHBUF_SIZE_MAX - 5)).
  - apply (append_no_crash _ (run_put_bignum2_bytes V bs Hok ltac:(done))).
  - unfold sshbuf_put_bignum2_bytes. rewrite Z.gtb_ltb, (proj2 (Z.ltb_lt _ _)) by lia.
    eexists _, h. split_and!; [done..|]. by apply eff_none.
Qed.

Lemma good_get i n : 1 <= rc i -> 0 <= n ->
  exists r h', sshbuf_get i true n h = (r, h') /\ r <> Crash /\ eff rc i h h'.
Proof.
  intros Hrc Hn. destruct (view_intro rc h i INV Hrc) as (s & p & l & V).
  destruct (decide (n <= zlen (cur s p l))).
  - destruct (run_get V n) as (s' & h' & R & E & _); [lia|]. by eexists _, h'.
  - unfold sshbuf_get. mstep (run_ptr V). mstep (run_consume_short V n ltac:(lia)).
    eexists _, h. split_and!; [done..|]. by apply eff_none.
Qed.

Lemma good_get_uint w i : 1 <= rc i ->
  exists r h', get_uint w i h = (r, h') /\ r <> Crash /\ eff rc i h h'.
Proof.
  intros Hrc. destruct (view_intro rc h i INV Hrc) as (s & p & l & V). rewrite get_uint_eq.
  pose proof (width_range w).
  pose proof (run_get_uint V (width_bytes w) (peek w) ltac:(lia)) as R.
  destruct (_ <=? _).
  - destruct R as (s' & h' & R & E & _). by eexists _, h'.
  - rewrite R. eexists _, h. split_and!; [done..|]. by apply eff_none.
Qed.

Lemma good_get_string i : 1 <= rc i ->
  exists r h', sshbuf_get_string i true h = (r, h') /\ r <> Crash /\ eff rc i h h'.
Proof.
  intros Hrc. destruct (view_intro rc h i INV Hrc) as (s & p & l & V).
  pose proof (run_get_string V) as R. destruct (parse_string _) as [e|[bs rest]].
  - rewrite R. eexists _, h. split_and!; [done..|]. by apply eff_none.
  - destruct R as (s' & h' & r & R & E & _ & _ & _ & [->|[-> _]]); by eexists _, h'.
Qed.

Lemma good_get_cstring i : 1 <= rc i ->
  exists r h', sshbuf_get_cstring i true h = (r, h') /\ r <> Crash /\ eff rc i h h'.
Proof.
  intros Hrc. destruct (view_intro rc h i INV Hrc) as (s & p & l & V).
  pose proof (run_get_cstring V) as R. destruct (parse_string _) as [e|[bs rest]].
  - rewrite R. eexists _, h. split_and!; [done..|]. by apply eff_none.
  - destruct (cstring_ok bs).
    + destruct R as (s' & h' & r & R & E & _ & _ & [->|[-> _]]); by eexists _, h'.
    + rewrite R. eexists _, h. split_and!; [done..|]. by apply eff_none.
Qed.

Lemma good_get_bignum i : 1 <= rc i ->
  exists r h', sshbuf_get_bignum2_bytes_direct i h = (r, h') /\ r <> Crash /\ eff rc i h h'.
Proof.
  intros Hrc. destruct (view_intro rc h i INV Hrc) as (s & p & l & V).
  pose proof (run_get_bignum2_bytes_direct V) as R. destruct (parse_string _) as [e|[bs rest]].
  - rewrite R. eexists _, h. split_and!; [done..|]. by apply eff_none.
  - destruct (negb _ && _); [|destruct (_ || _)].
    + rewrite R. eexists _, h. split_and!; [done..|]. by apply eff_none.
    + rewrite R. eexists _, h. split_and!; [done..|]. by apply eff_none.
    + destruct R as (s' & h' & q & R & E & _). by eexists _, h'.
Qed.

Lemma good_peek w i o : 1 <= rc i -> 0 <= o <= SIZE_MAX ->
  exists r h', peek_uint w i o h = (r, h') /\ r <> Crash /\ eff rc i h h'.
Proof.
  intros Hrc Ho. destruct (view_intro rc h i INV Hrc) as (s & p & l & V). rewrite peek_uint_eq.
  pose proof (width_range w). rewrite (run_peek_uint V) by lia.
  eexists _, h. split_and!; [done|by repeat case_match|]. by apply eff_none.
Qed.

Lemma good_poke w i o v : 1 <= rc i -> 0 <= o <= SIZE_MAX ->
  exists r h', poke_uint w i o v h = (r, h') /\ r <> Crash /\ eff rc i h h'.
Proof.
  intros Hrc Ho. destruct (view_intro rc h i INV Hrc) as (s & p & l & V). rewrite poke_uint_eq.
  pose proof (width_range w).
  destruct (run_poke_uint V (width_bytes w) (poke w) o v) as (r & h' & R & E & Hr);
    [lia|lia|apply zlen_poke|apply poke_ok|]. exists r, h'. split_and!; auto. by destruct r.
Qed.

Lemma good_reset i : 1 <= rc i ->
  (forall s, h_bufs h !! i = Some s -> SSHBUF_SIZE_INIT <= sb_max_size s \/ mutable s = false) ->
  exists r h', sshbuf_reset i h = (r, h') /\ r <> Crash /\ eff rc i h h'.
Proof.
  intros Hrc Hmx. destruct (view_intro rc h i INV Hrc) as (s & p & l & V).
  destruct (run_reset V) as (h' & R & E & _).
  { intros MUT. destruct (Hmx s (v_buf _ _ _ _ _ _ V)); [done|congruence]. }
  by eexists _, h'.
Qed.

Lemma good_set_max i m : 1 <= rc i -> 0 <= m ->
  exists r h', sshbuf_set_max_size i m h = (r, h') /\ r <> Crash /\ eff rc i h h'.
Proof.
  intros Hrc Hm. destruct (view_intro rc h i INV Hrc) as (s & p & l & V).
  destruct (run_set_max_size V m Hm) as (r & h' & R & Hr & E & _). by exists r, h'.
Qed.

(** Calls that create or release a buffer. *)
Lemma good_new : good rc h CNew (exec CNew h).
Proof.
  unfold exec, good. destruct (run_new rc h INV)
    as [(h' & -> & INV' & [Hb MG])|(b & h' & -> & Hfr & INV' & [Hb MG] & _)].
  - split_and!; [done..|]. intros j _ _ [t Ht]. apply (mem_grows_contents INV); eauto.
    rewrite Ht. by apply Hb.
  - split_and!; [done..|]. intros j _ _ [t Ht]. apply (mem_grows_contents INV); eauto.
    rewrite Ht. by apply Hb.
Qed.

Lemma good_from bs : bytes_ok bs -> good rc h (CFrom bs) (exec (CFrom bs) h).
Proof.
  intros Hok. unfold exec, good. set (b := h_next h).
  set (h1 := set_next (set_mem <[b := bs]> h)).
  rewrite (bind_ok _ _ _ b h1) by done. pose proof (fresh_mem INV) as Hfb. fold b in Hfb.
  assert (mem_grows h h1) as MG1.
  { unfold mem_grows, h1. cbn. split_and!; [| |lia].
    - intros b' l Hl. rewrite lookup_insert_ne; [done|congruence].
    - intros b' l Hl. apply lookup_insert_Some in Hl as [[<- <-]|[_ Hl]]; [split; [unfold b; lia|done]|].
      pose proof (inv_fresh_mem _ _ INV b' l Hl). split; [lia|by eapply (inv_bytes _ _ INV)]. }
  assert (heap_inv rc h1) as INV1.
  { constructor; try apply INV; try apply MG1.
    - intros i s Hi. destruct (inv_data _ _ INV i s Hi) as (q & l & []). exists q, l.
      constructor; auto. by apply MG1.
    - intros i s Hi. cbn. pose proof (inv_fresh_buf _ _ INV i s Hi). lia. }
  assert (h_mem h1 !! b = Some bs) as Hb1 by (cbn; apply lookup_insert_eq).
  assert (foreign h1 (b, 0) (zlen bs)) as Hfor.
  { split; [exists bs; cbn; split_and!; auto; lia|]. intros j t q Ht Hq Heq. exfalso.
    destruct (inv_data _ _ INV j t Ht) as (q' & l & D). rewrite (do_cd _ _ _ _ _ _ D) in Hq.
    injection Hq as ->. pose proof (do_mem _ _ _ _ _ _ D). cbn in Heq. congruence. }
  assert (forall j, is_Some (h_bufs h !! j) -> contents h1 j = contents h j) as K1.
  { intros j Hj. by apply (mem_grows_contents INV). }
  destruct (run_from rc h1 (b, 0) (zlen bs) bs INV1 Hfor Hb1 (zlen_nonneg bs))
    as [(h' & -> & INV' & [Hb MG])|(k & h' & -> & Hfr & INV' & [Hb MG] & _)];
    (split_and!; [done..|]; intros j _ _ [t Ht]; rewrite <- K1 by eauto;
     apply (mem_grows_contents INV1); eauto; cbn in Ht |- *; rewrite Ht; by apply Hb).
Qed.

Lemma good_fromb i : valid rc h (CFromb i) -> good rc h (CFromb i) (exec (CFromb i) h).
Proof.
  intros [Hrc Hmx]. specialize (Hrc i eq_refl). unfold exec, good.
  destruct (view_intro rc h i INV Hrc) as (s & p & l & V). specialize (Hmx s (v_buf _ _ _ _ _ _ V)).
  destruct (run_fromb V Hmx)
    as [(h' & -> & INV' & [Hb MG])|(b & h' & -> & Hfr & INV' & Hi & Hoth & Hm & _)].
  - split_and!; [done..|]. intros j _ _ [t Ht]. apply (mem_grows_contents INV); eauto.
    rewrite Ht. by apply Hb.
  - split_and!; [done..|]. intros j Hj _ [t Ht]. cbn in Hj.
    apply contents_eq; [apply Hoth; [congruence|intros ->; congruence]|]. by rewrite Hm.
Qed.

Lemma good_froms i : valid rc h (CFroms i) -> good rc h (CFroms i) (exec (CFroms i) h).
Proof.
  intros [Hrc Hmx]. specialize (Hrc i eq_refl). unfold exec, good.
  destruct (view_intro rc h i INV Hrc) as (s & p & l & V). specialize (Hmx s (v_buf _ _ _ _ _ _ V)).
  pose proof (run_froms V Hmx) as R. unfold fmap, M_fmap.
  destruct (parse_string _) as [e|[bs rest]]; [by mstep R|].
  destruct R as [R|(b & h' & R & Hfr & INV' & Hm & Hoth & _)]; mstep R.
  - split_and!; [done|by apply inv_tick|]. done.
  - cbn. split_and!; [done..|]. intros j Hj _ [t Ht]. cbn in Hj.
    apply contents_eq; [apply Hoth; [congruence|intros ->; congruence]|]. by rewrite Hm.
Qed.

Lemma good_free i : 1 <= rc i -> good rc h (CFree i) (exec (CFree i) h).
Proof.
  intros Hrc. unfold exec, good. destruct (run_free rc h i INV Hrc) as (h' & R & INV' & SV & _).
  mstep R. cbn. split_and!; [done..|]. intros j _ Hj _. by apply SV.
Qed.

(** Every valid call ends normally, keeps the invariant and leaves the other
    buffers' contents alone. *)
Lemma exec_good c : valid rc h c -> good rc h c (exec c h).
Proof.
  intros Hv. pose proof Hv as [Ht Hc].
  destruct c as [|bs|i|i|i|i|i m|i n|i n|i n|i bs|i v|w i v|i bs|i v|i bs|i n|w i|i|i|i|w i o|w i o v];
    cbn [target] in Ht; try specialize (Ht _ eq_refl);
    try (apply (good_eff rc h _ i); [done|done|done|done|done|]; cbn in Hc).
  - apply good_new.
  - by apply good_from.
  - by apply good_fromb.
  - by apply good_froms.
  - by apply good_free.
  - by apply good_reset.
  - by apply good_set_max.
  - by apply good_consume.
  - by apply good_consume_end.
  - by apply good_reserve.
  - by apply good_put.
  - destruct Hc as [Hv' Hne]. destruct (src_yields_buf (i := i) INV Hv' Hne) as (q & n & bs & R1 & R2 & -> & Hok & Hy).
    unfold sshbuf_putb. mstep R1. mstep R2. by apply good_put.
  - destruct (view_intro rc h i INV Ht) as (s & p & l & V). rewrite put_uint_eq.
    apply (append_no_crash _ (run_put_uint V _ (poke w) v (zlen_poke w v) (poke_ok w v))).
  - by apply good_put_string.
  - destruct Hc as [Hv' Hne]. destruct (src_yields_buf (i := i) INV Hv' Hne) as (q & n & bs & R1 & R2 & -> & Hok & Hy).
    unfold sshbuf_put_stringb. mstep R1. mstep R2. by apply good_put_string.
  - by apply good_put_bignum.
  - by apply good_get.
  - by apply good_get_uint.
  - by apply good_get_string.
  - by apply good_get_cstring.
  - by apply good_get_bignum.
  - by apply good_peek.
  - by apply good_poke.
Qed.
End OneCall.

(** ** Sequences of calls *)

(** The heaps callers can reach from an empty one. *)
Inductive reach : (nat -> Z) -> heap -> Prop :=
| reach_init oom pg : reach (fun _ => 0) (mk_heap ∅ ∅ 0 0 oom pg)
| reach_call rc h c : reach rc h -> valid rc h c ->
    reach (rc_after rc c (exec c h).1) (exec c h).2.

Inductive calls : (nat -> Z) -> heap -> list call -> (nat -> Z) -> heap -> Prop :=
| calls_nil rc h : calls rc h [] rc h
| calls_cons rc h c cs rc' h' : valid rc h c ->
    calls (rc_after rc c (exec c h).1) (exec c h).2 cs rc' h' ->
    calls rc h (c :: cs) rc' h'.

Lemma exec_inv rc h c : heap_inv rc h -> valid rc h c ->
  heap_inv (rc_after rc c (exec c h).1) (exec c h).2.
Proof.
  intros INV Hv. pose proof (exec_good INV c Hv) as G. unfold good in G.
  destruct (exec c h) as [r h']. by destruct G as (_ & ? & _).
Qed.

Lemma reach_inv rc h : reach rc h -> heap_inv rc h.
Proof.
  induction 1 as [oom pg|rc h c _ IH Hv]; [|by apply exec_inv].
  constructor; cbn; intros; try done; lia.
Qed.

Lemma rc_after_keep rc c r j : (forall i, 0 <= rc i) -> target c <> Some j ->
  rc j <= rc_after rc c r j.
Proof.
  intros Hnn Hj. destruct c; destruct r as [[b|]|e|]; cbn in *; unfold rc_add; repeat case_decide;
    subst; try lia; congruence.
Qed.

Definition empty_heap : heap := mk_heap ∅ ∅ 0 0 (fun _ => false) 4096.

(** C13: No sequence of valid buffer calls, with any pattern of allocation
    failures, ends in a raised SIGSEGV, an access outside live memory or a
    second free; and in every heap reached, reference counts, sizes and
    ownership satisfy the invariant. *)
Theorem calls_never_crash rc h c :
  reach rc h -> valid rc h c ->
  heap_inv rc h /\ (exec c h).1 <> Crash.
Proof.
  intros R Hv. pose proof (reach_inv rc h R) as INV. split; [done|].
  pose proof (exec_good INV c Hv) as G. unfold good in G. by destruct (exec c h), G.
Qed.

Lemma calls_never_crash_witness :
  heap_inv (fun _ => 0) empty_heap /\ (exec CNew empty_heap).1 <> Crash.
Proof.
  apply (calls_never_crash (fun _ => 0) empty_heap CNew).
  - apply reach_init.
  - split; [intros i [=]|done].
Defined.

(** C14: A buffer keeps its contents through any sequence of calls on other
    buffers, whatever happens to its parent: data behind a child is not
    modified, moved or freed while the child is held. *)
Theorem held_buffer_stable rc h cs rc' h' j :
  heap_inv rc h -> calls rc h cs rc' h' -> 1 <= rc j ->
  Forall (fun c => target c <> Some j) cs ->
  1 <= rc' j /\ contents h' j = contents h j.
Proof.
  intros INV C. revert INV. induction C as [rc h|rc h c cs rc' h' Hv _ IH]; intros INV Hj Hall; [done|].
  apply Forall_cons in Hall as [Hc Hall].
  pose proof (rc_after_keep rc c (exec c h).1 j (inv_rc _ _ INV) Hc) as Hk.
  pose proof (exec_inv rc h c INV Hv) as INV'.
  destruct IH as [? ->]; [done|lia|done|]. split; [done|].
  pose proof (exec_good INV c Hv) as G. unfold good in G. destruct (exec c h) as [r h1].
  destruct G as (_ & _ & G). apply G; [done| |by apply (inv_live _ _ INV)].
  apply (inv_live _ _ INV'). cbn in *. lia.
Qed.

(** A heap and its references after some calls. *)
Fixpoint after (cs : list call) (x : (nat -> Z) * heap) : (nat -> Z) * heap :=
  match cs with
  | [] => x
  | c :: cs => after cs (rc_after x.1 c (exec c x.2).1, (exec c x.2).2)
  end.

Fixpoint valid_all (cs : list call) (x : (nat -> Z) * heap) : Prop :=
  match cs with
  | [] => True
  | c :: cs => valid x.1 x.2 c /\ valid_all cs (rc_after x.1 c (exec c x.2).1, (exec c x.2).2)
  end.

Lemma calls_after cs : forall x, valid_all cs x -> calls x.1 x.2 cs (after cs x).1 (after cs x).2.
Proof.
  induction cs as [|c cs IH]; intros x Hv; [apply calls_nil|].
  destruct Hv as [Hv Hvs]. apply calls_cons; [done|]. apply (IH _ Hvs).
Qed.

Lemma reach_after cs : forall x, reach x.1 x.2 -> valid_all cs x -> reach (after cs x).1 (after cs x).2.
Proof.
  induction cs as [|c cs IH]; intros x Hr Hv; [done|].
  destruct Hv as [Hv Hvs]. apply IH; [|done]. by apply reach_call.
Qed.

Lemma lookup_check (m : gmap nat sshbuf) (i : nat) (P : sshbuf -> Prop) `{forall s, Decision (P s)} :
  match m !! i with Some s => bool_decide (P s) | None => true end = true ->
  forall s, m !! i = Some s -> P s.
Proof. intros Hb s Hs. rewrite Hs in Hb. by apply bool_decide_eq_true in Hb. Qed.

(** Discharges [valid] on a concrete heap. *)
Ltac solve_valid :=
  split;
  [ intros ? [= <-] || intros ? [=]; vm_compute; discriminate
  | cbv beta match;
    lazymatch goal with
    | |- True => exact I
    | |- bytes_ok _ => repeat constructor; vm_compute; discriminate
    | |- forall s, _ -> _ => eapply lookup_check; vm_compute; reflexivity
    | |- _ => vm_compute; repeat split; discriminate
    end ].

(** A child over a string of its parent, which is then written to (refused),
    reset and freed. *)
Definition demo_make : list call := [CNew; CPut 0 (str "xyz"); CFromb 0].
Definition demo_abuse : list call := [CPutString 0 (str "ab"); CReset 0; CFree 0].
Definition demo : (nat -> Z) * heap := after demo_make (fun _ => 0, empty_heap).

Lemma demo_reach : reach demo.1 demo.2.
Proof.
  apply reach_after; [apply reach_init|]. repeat (split; [solve_valid|]). exact I.
Qed.

Lemma demo_abuse_valid : valid_all demo_abuse demo.
Proof. repeat (split; [solve_valid|]). exact I. Qed.

Lemma demo_release_valid : valid_all [CFree 0; CFree 2] demo.
Proof. repeat (split; [solve_valid|]). exact I. Qed.

Lemma held_buffer_stable_witness :
  contents (after demo_abuse demo).2 2%nat = Some (str "xyz") /\
  contents demo.2 2%nat = Some (str "xyz").
Proof.
  destruct (held_buffer_stable demo.1 demo.2 demo_abuse (after demo_abuse demo).1
    (after demo_abuse demo).2 2%nat) as [_ E].
  - apply reach_inv, demo_reach.
  - apply calls_after, demo_abuse_valid.
  - vm_compute. discriminate.
  - repeat constructor; discriminate.
  - split; [rewrite E|]; vm_compute; reflexivity.
Defined.

(** C15: When every caller has released its references, nothing is left: the
    last release frees the parents that were kept alive for their children. *)
Theorem released_heap_empty rc h :
  reach rc h -> (forall i, rc i = 0) -> h_bufs h = ∅.
Proof.
  intros R Hz. pose proof (reach_inv rc h R) as INV. apply map_empty. intros i.
  destruct (h_bufs h !! i) as [s|] eqn:Hi; [|done]. exfalso.
  (* a live buffer has a child, which is younger: unbounded ascent *)
  assert (forall n i s, h_bufs h !! i = Some s -> (h_next h - i <= n)%nat -> False) as Asc.
  { intros n. induction n as [|n IH]; intros k t Hk Hn.
    - pose proof (inv_fresh_buf _ _ INV k t Hk). lia.
    - pose proof (proj1 (sane_spec k t) (inv_sane _ _ INV k t Hk)) as (_ & _ & Href & _).
      rewrite (inv_ref _ _ INV k t Hk), Hz in Href.
      destruct (map_choose (filter (child_of k) (h_bufs h))) as (j & u & Hj).
      { intros E. unfold nrefs in Href. rewrite E, map_size_empty in Href. lia. }
      apply map_lookup_filter_Some in Hj as [Hj Hc]. unfold child_of in Hc. cbn in Hc.
      destruct (inv_data _ _ INV j u Hj) as (p & l & D).
      destruct (do_parent _ _ _ _ _ _ D k Hc) as (_ & Hlt & _).
      apply (IH j u Hj). lia. }
  eapply (Asc _ i s Hi). reflexivity.
Qed.

Lemma released_heap_empty_witness :
  h_bufs (after [CFree 0; CFree 2] demo).2 = ∅.
Proof.
  apply (released_heap_empty (after [CFree 0; CFree 2] demo).1).
  - apply reach_after; [apply demo_reach|apply demo_release_valid].
  - intros i. destruct i as [|[|[|i]]]; vm_compute; reflexivity.
Defined.

