(* ===== verification/SshbufMsg.v ===== *)
(** * Wire format properties of the buffer library

    Round trips of typed messages, strings and bignums, the all-or-nothing
    append, and the two corner cases of [sshbuf.c] excluded from the calls
    proved safe in SshbufThms. *)

From S2P Require Import Prelude Ssherr Sshbuf SshbufInv SshbufOps SshbufLife SshbufGetput.
From S2P Require Import SshbufWire SshbufWire2 SshbufThms.

(** ** Typed messages *)

(** A field of a message, as the protocol code puts and gets it. *)
Inductive field :=
| FUint (w : width) (v : Z)
| FString (bs : list Z).

Inductive kind := KUint (w : width) | KString.

Definition kind_of (f : field) : kind :=
  match f with FUint w _ => KUint w | FString _ => KString end.

Definition field_ok (f : field) : Prop :=
  match f with
  | FUint w v => 0 <= v < 2 ^ (8 * width_bytes w)
  | FString bs => bytes_ok bs /\ zlen bs <= SSHBUF_SIZE_MAX - 4
  end.

Definition wire_field (f : field) : list Z :=
  match f with FUint w v => poke w v | FString bs => wire_string bs end.

Definition wire (fs : list field) : list Z := concat (wire_field <$> fs).

Definition put_field (i : bufp) (f : field) : HM unit :=
  match f with
  | FUint w v => put_uint w i v
  | FString bs => sshbuf_put_string i (SrcBytes bs) (zlen bs)
  end.

Definition get_field (i : bufp) (k : kind) : HM field :=
  match k with
  | KUint w => FUint w <$> get_uint w i
  | KString => '(v, len) ← sshbuf_get_string i true; mret (FString (slice (default [] v) 0 len))
  end.

Fixpoint put_fields (i : bufp) (fs : list field) : HM unit :=
  match fs with
  | [] => mret tt
  | f :: fs => put_field i f;; put_fields i fs
  end.

Fixpoint get_fields (i : bufp) (ks : list kind) : HM (list field) :=
  match ks with
  | [] => mret []
  | k :: ks => f ← get_field i k; fs ← get_fields i ks; mret (f :: fs)
  end.

Lemma wire_cons f fs : wire (f :: fs) = wire_field f ++ wire fs.
Proof. done. Qed.

Lemma zlen_wire_nonneg fs : 0 <= zlen (wire fs).
Proof. apply zlen_nonneg. Qed.

(** No allocation fails. *)
Definition no_oom (h : heap) : Prop := forall n, h_oom h n = false.

Lemma no_oom_eff rc i h h' : no_oom h -> eff rc i h h' -> no_oom h'.
Proof. intros Hn E n. rewrite (eff_oom _ _ _ _ E). apply Hn. Qed.

Lemma no_oom_ex h : no_oom h -> ~ exists k, h_oom h k = true.
Proof. intros Hn [k Hk]. by rewrite Hn in Hk. Qed.

Lemma put_field_outcome {rc h i s p l} (V : view rc h i s p l) f : field_ok f ->
  append_outcome rc h i s (cur s p l) (wire_field f) (put_field i f h).
Proof.
  destruct f as [w v|bs]; cbn [field_ok put_field wire_field].
  - intros _. rewrite put_uint_eq. apply (run_put_uint V); [apply zlen_poke|apply poke_ok].
  - intros [Hok Hl]. by apply (run_put_string V).
Qed.

Lemma put_field_ok {rc h i s p l} (V : view rc h i s p l) f :
  field_ok f -> no_oom h -> mutable s = true -> zlen (wire_field f) + zlen (cur s p l) <= sb_max_size s ->
  exists s' p' l' h', put_field i f h = (Ok tt, h') /\ eff rc i h h' /\ view rc h' i s' p' l' /\
    mutable s' = true /\ sb_max_size s' = sb_max_size s /\
    cur s' p' l' = cur s p l ++ wire_field f.
Proof.
  intros Hf Hn MUT Hfit. pose proof (put_field_outcome V f Hf) as O. unfold append_outcome in O.
  destruct (put_field i f h) as [[[]|e|] h'] eqn:R; [| |by destruct O].
  - destruct O as (E & C & _ & _ & Hmx). destruct (view_eff V h' E) as (s' & p' & l' & V' & M' & _).
    rewrite (v_buf _ _ _ _ _ _ V') in Hmx. cbn in Hmx. injection Hmx as Hmx.
    exists s', p', l', h'. split_and!; auto; [congruence|].
    rewrite (view_contents V') in C. by injection C.
  - exfalso. destruct O as (_ & _ & [[_ Ho]|[[_ ?]|[_ ?]]]); [by apply (no_oom_ex h)|congruence|lia].
Qed.

Lemma get_field_ok {rc h i s p l} (V : view rc h i s p l) f rest :
  field_ok f -> no_oom h -> cur s p l = wire_field f ++ rest ->
  exists s' h', get_field i (kind_of f) h = (Ok f, h') /\ eff rc i h h' /\
    view rc h' i s' p l /\ cur s' p l = rest.
Proof.
  intros Hf Hn Hc. pose proof (zlen_nonneg rest). destruct f as [w v|bs]; cbn [field_ok wire_field kind_of get_field] in *.
  - pose proof (width_range w). rewrite get_uint_eq.
    pose proof (run_get_uint V (width_bytes w) (peek w) ltac:(lia)) as R.
    rewrite Hc, zlen_app, zlen_poke, (proj2 (Z.leb_le _ _)) in R by lia.
    destruct R as (s' & h' & R & E & V' & C & _). exists s', h'.
    rewrite <- (zlen_poke w v), slice_prefix, peek_poke in R by done.
    rewrite <- (zlen_poke w v), drop_zlen in C.
    split_and!; auto. unfold fmap, M_fmap. rewrite zlen_poke in R. by mstep R.
  - destruct Hf as [Hok Hl]. pose proof (run_get_string V) as R.
    rewrite Hc, parse_wire_string in R by done.
    destruct R as (s' & h' & r & R & E & V' & C & _ & [->|[_ Ho]]); [|by apply no_oom_ex in Ho].
    exists s', h'. split_and!; auto. mstep R. unfold mret, M_ret. cbn [from_option]; unfold id.
    by rewrite slice_prefix.
Qed.

Lemma put_fields_ok fs : forall rc h i s p l, view rc h i s p l ->
  Forall field_ok fs -> no_oom h -> mutable s = true ->
  zlen (wire fs) + zlen (cur s p l) <= sb_max_size s ->
  exists s' p' l' h', put_fields i fs h = (Ok tt, h') /\ eff rc i h h' /\
    view rc h' i s' p' l' /\ cur s' p' l' = cur s p l ++ wire fs.
Proof.
  induction fs as [|f fs IH]; intros rc h i s p l V Hok Hn MUT Hfit.
  - exists s, p, l, h. rewrite app_nil_r. split_and!; auto.
    apply eff_refl; [apply V|]. rewrite (v_buf _ _ _ _ _ _ V). eauto.
  - apply Forall_cons in Hok as [Hf Hok]. rewrite wire_cons, zlen_app in *.
    pose proof (zlen_wire_nonneg fs).
    destruct (put_field_ok V f Hf Hn MUT ltac:(lia))
      as (s1 & p1 & l1 & h1 & R1 & E1 & V1 & M1 & X1 & C1).
    destruct (IH rc h1 i s1 p1 l1 V1 Hok (no_oom_eff _ _ _ _ Hn E1) M1)
      as (s2 & p2 & l2 & h2 & R2 & E2 & V2 & C2); [rewrite C1, zlen_app; lia|].
    exists s2, p2, l2, h2. split_and!; auto.
    + cbn [put_fields]. by mstep R1.
    + by eapply eff_trans.
    + by rewrite C2, C1, <- app_assoc.
Qed.

Lemma get_fields_ok fs : forall rc h i s p l rest, view rc h i s p l ->
  Forall field_ok fs -> no_oom h -> cur s p l = wire fs ++ rest ->
  exists s' h', get_fields i (kind_of <$> fs) h = (Ok fs, h') /\ eff rc i h h' /\
    view rc h' i s' p l /\ cur s' p l = rest.
Proof.
  induction fs as [|f fs IH]; intros rc h i s p l rest V Hok Hn Hc.
  - exists s, h. split_and!; auto.
    apply eff_refl; [apply V|]. rewrite (v_buf _ _ _ _ _ _ V). eauto.
  - apply Forall_cons in Hok as [Hf Hok]. rewrite wire_cons, <- app_assoc in Hc.
    destruct (get_field_ok V f _ Hf Hn Hc) as (s1 & h1 & R1 & E1 & V1 & C1).
    destruct (IH rc h1 i s1 p l rest V1 Hok (no_oom_eff _ _ _ _ Hn E1) C1)
      as (s2 & h2 & R2 & E2 & V2 & C2).
    exists s2, h2. split_and!; auto; [|by eapply eff_trans].
    cbn [fmap list_fmap get_fields]. mstep R1. by mstep R2.
Qed.

(** C31: Reading back a message: any sequence of integers and strings put into
    an empty buffer that can hold it is put without error, and the matching
    reads return exactly the same fields and leave the buffer empty. *)
Theorem message_roundtrip rc h i s fs :
  heap_inv rc h -> 1 <= rc i -> no_oom h ->
  h_bufs h !! i = Some s -> mutable s = true -> contents h i = Some [] ->
  Forall field_ok fs -> zlen (wire fs) <= sb_max_size s ->
  exists h1 h2, put_fields i fs h = (Ok tt, h1) /\ contents h1 i = Some (wire fs) /\
    get_fields i (kind_of <$> fs) h1 = (Ok fs, h2) /\ contents h2 i = Some [].
Proof.
  intros INV Hrc Hn Hs MUT Hc Hok Hfit.
  destruct (view_intro rc h i INV Hrc) as (s0 & p & l & V).
  rewrite (v_buf _ _ _ _ _ _ V) in Hs. injection Hs as ->.
  rewrite (view_contents V) in Hc. injection Hc as Hc.
  destruct (put_fields_ok fs rc h i s p l V Hok Hn MUT) as (s1 & p1 & l1 & h1 & R1 & E1 & V1 & C1).
  { rewrite Hc. unfold zlen at 2. cbn. lia. }
  rewrite Hc in C1. cbn in C1.
  destruct (get_fields_ok fs rc h1 i s1 p1 l1 [] V1 Hok (no_oom_eff _ _ _ _ Hn E1))
    as (s2 & h2 & R2 & E2 & V2 & C2); [by rewrite app_nil_r|].
  exists h1, h2. split_and!; auto.
  - by rewrite (view_contents V1), C1.
  - by rewrite (view_contents V2), C2.
Qed.

Definition demo_new : (nat -> Z) * heap := after [CNew] (fun _ => 0, empty_heap).

Lemma demo_new_inv : heap_inv demo_new.1 demo_new.2.
Proof.
  apply reach_inv, reach_after; [apply reach_init|]. repeat (split; [solve_valid|]). exact I.
Qed.

Definition demo_fields : list field := [FUint W8 20; FString (str "ssh-rsa"); FUint W64 (2 ^ 63 + 5)].

Lemma message_roundtrip_witness :
  exists h1 h2, put_fields 0 demo_fields demo_new.2 = (Ok tt, h1) /\
    contents h1 0%nat = Some (wire demo_fields) /\
    get_fields 0 (kind_of <$> demo_fields) h1 = (Ok demo_fields, h2) /\ contents h2 0%nat = Some [].
Proof.
  eapply (message_roundtrip demo_new.1 demo_new.2 0%nat).
  - apply demo_new_inv.
  - vm_compute. discriminate.
  - intros n. vm_compute. reflexivity.
  - vm_compute. reflexivity.
  - vm_compute. reflexivity.
  - vm_compute. reflexivity.
  - repeat constructor; vm_compute; discriminate || reflexivity.
  - vm_compute. discriminate.
Defined.

(** ** Strings and bignums *)

Lemma contents_view {rc h i c} : heap_inv rc h -> 1 <= rc i -> contents h i = Some c ->
  exists s p l, view rc h i s p l /\ cur s p l = c.
Proof.
  intros INV Hrc Hc. destruct (view_intro rc h i INV Hrc) as (s & p & l & V).
  exists s, p, l. split; [done|]. rewrite (view_contents V) in Hc. by injection Hc.
Qed.

(** Reading a string implements the decoder of the RFC 4251 encoding: on a
    prefix that is no valid encoding the documented error is returned and the
    buffer is untouched; otherwise exactly one encoded string is removed from
    the front and returned with a terminating NUL (or, when memory runs out,
    SSH_ERR_ALLOC_FAIL). *)
Theorem get_string_refines_decoder rc h i c :
  heap_inv rc h -> 1 <= rc i -> contents h i = Some c ->
  match parse_string c with
  | inl e => sshbuf_get_string i true h = (Err e, h)
  | inr (bs, rest) =>
      c = wire_string bs ++ rest /\
      exists r h', sshbuf_get_string i true h = (r, h') /\ heap_inv rc h' /\
        contents h' i = Some rest /\
        (r = Ok (Some (bs ++ [0]), zlen bs) \/
         r = Err SSH_ERR_ALLOC_FAIL /\ exists k, h_oom h k = true)
  end.
Proof.
  intros INV Hrc Hc. destruct (contents_view INV Hrc Hc) as (s & p & l & V & <-).
  pose proof (run_get_string V) as R.
  destruct (parse_string (cur s p l)) as [e|[bs rest]] eqn:P; [done|].
  destruct (parse_string_inv _ _ _ (bytes_ok_cur V) P) as [Hw _]. split; [done|].
  destruct R as (s' & h' & r & R & _ & V' & C & _ & O). exists r, h'. split_and!; auto.
  - apply V'.
  - by rewrite (view_contents V'), C.
Qed.

Lemma get_string_refines_decoder_witness :
  sshbuf_get_string 2 true demo.2 = (Err SSH_ERR_MESSAGE_INCOMPLETE, demo.2).
Proof.
  apply (get_string_refines_decoder demo.1 demo.2 2%nat (str "xyz")).
  - apply reach_inv, demo_reach.
  - vm_compute. discriminate.
  - vm_compute. reflexivity.
Defined.

(** Appending a string is all or nothing: either the encoding is at the end
    of the buffer, or an error is returned, for the documented reason, and the
    buffer's bytes are what they were. *)
Theorem put_string_atomic rc h i s c bs :
  heap_inv rc h -> 1 <= rc i -> h_bufs h !! i = Some s -> contents h i = Some c ->
  bytes_ok bs ->
  match sshbuf_put_string i (SrcBytes bs) (zlen bs) h with
  | (Ok _, h') => heap_inv rc h' /\ contents h' i = Some (c ++ wire_string bs)
  | (Err e, h') => heap_inv rc h' /\ contents h' i = Some c /\
      (e = SSH_ERR_ALLOC_FAIL /\ (exists k, h_oom h k = true) \/
       e = SSH_ERR_BUFFER_READ_ONLY /\ mutable s = false \/
       e = SSH_ERR_NO_BUFFER_SPACE /\ sb_max_size s < zlen (wire_string bs) + zlen c)
  | (Crash, _) => False
  end.
Proof.
  intros INV Hrc Hs Hc Hok. destruct (contents_view INV Hrc Hc) as (s0 & p & l & V & <-).
  rewrite (v_buf _ _ _ _ _ _ V) in Hs. injection Hs as ->.
  destruct (decide (zlen bs <= SSHBUF_SIZE_MAX - 4)) as [Hl|Hl].
  - pose proof (run_put_string V (SrcBytes bs) bs Hok eq_refl Hl) as O.
    unfold append_outcome in O. destruct (sshbuf_put_string _ _ _ _) as [[[]|e|] h'];
      destruct O as [E O]; [| |done].
    + destruct O as [O _]. split; [apply E|done].
    + split; [apply E|]. exact O.
  - rewrite run_put_string_long by lia. split_and!; [done|done|]. right. right. split; [done|].
    pose proof (view_bounds V) as B. pose proof (zlen_nonneg (cur s p l)).
    rewrite zlen_wire_string. unfold SSHBUF_SIZE_MAX in Hl. lia.
Qed.

Lemma put_string_atomic_witness :
  match sshbuf_put_string 0 (SrcBytes (str "a")) (zlen (str "a")) demo_new.2 with
  | (Ok _, h') => heap_inv demo_new.1 h' /\ contents h' 0%nat = Some ([] ++ wire_string (str "a"))
  | _ => False
  end.
Proof.
  pose proof (put_string_atomic demo_new.1 demo_new.2 0%nat
    (mk_sshbuf (Some (1%nat, 0)) (Some (1%nat, 0)) 0 0 SSHBUF_SIZE_MAX SSHBUF_SIZE_INIT false 1 None)
    [] (str "a") demo_new_inv) as H.
  destruct (sshbuf_put_string _ _ _ _) as [[[]|e|] h'] eqn:E.
  - apply H; [vm_compute; discriminate|vm_compute; reflexivity|vm_compute; reflexivity|].
    repeat constructor; vm_compute; discriminate.
  - exfalso. assert (is_ok (sshbuf_put_string 0 (SrcBytes (str "a")) (zlen (str "a")) demo_new.2).1 = true)
      as B by (vm_compute; reflexivity). rewrite E in B. discriminate.
  - exfalso. assert (is_ok (sshbuf_put_string 0 (SrcBytes (str "a")) (zlen (str "a")) demo_new.2).1 = true)
      as B by (vm_compute; reflexivity). rewrite E in B. discriminate.
Defined.

Lemma zlen_bignum_bytes v : zlen (bignum_bytes v) <= zlen (skip_zeros v) + 1.
Proof. unfold bignum_bytes. case_match; rewrite ?zlen_cons; lia. Qed.

Lemma bignum_bytes_positive v :
  negb (zlen (bignum_bytes v) =? 0) && negb (Z.land (byte_at (bignum_bytes v) 0) 0x80 =? 0) = false.
Proof.
  destruct (decide (bignum_bytes v = [])) as [->|Hn]; [done|].
  rewrite (bignum_bytes_msb v Hn). by rewrite andb_false_r.
Qed.

Lemma bignum_bytes_fits v : zlen (skip_zeros v) <= SSHBUF_MAX_BIGNUM ->
  (zlen (bignum_bytes v) >? SSHBUF_MAX_BIGNUM + 1) ||
  ((zlen (bignum_bytes v) =? SSHBUF_MAX_BIGNUM + 1) && negb (byte_at (bignum_bytes v) 0 =? 0)) = false.
Proof.
  intros Hl. pose proof (zlen_bignum_bytes v). rewrite Z.gtb_ltb, (proj2 (Z.ltb_ge _ _)) by lia.
  cbn [orb]. unfold bignum_bytes. destruct ((zlen (skip_zeros v) >? 0) && _) eqn:E.
  - change (byte_at (0 :: skip_zeros v) 0) with 0. by rewrite andb_false_r.
  - rewrite (proj2 (Z.eqb_neq _ _)) by lia. done.
Qed.

(** A bignum put as bytes and read back is the same number without its
    leading zero bytes; what is written is a canonical, non-negative mpint. *)
Theorem bignum_roundtrip rc h i s v :
  heap_inv rc h -> 1 <= rc i -> no_oom h ->
  h_bufs h !! i = Some s -> mutable s = true -> contents h i = Some [] ->
  bytes_ok v -> zlen (skip_zeros v) <= SSHBUF_MAX_BIGNUM -> zlen v <= SSHBUF_SIZE_MAX - 5 ->
  SSHBUF_MAX_BIGNUM + 5 <= sb_max_size s ->
  exists h1 h2 q, sshbuf_put_bignum2_bytes i v h = (Ok tt, h1) /\
    contents h1 i = Some (wire_string (bignum_bytes v)) /\
    sshbuf_get_bignum2_bytes_direct i h1 = (Ok (q, zlen (skip_zeros v)), h2) /\
    load q (zlen (skip_zeros v)) h2 = (Ok (skip_zeros v), h2) /\
    contents h2 i = Some [].
Proof.
  intros INV Hrc Hn Hs MUT Hc Hok Hl Hlv Hmx.
  destruct (contents_view INV Hrc Hc) as (s0 & p & l & V & Hcur).
  rewrite (v_buf _ _ _ _ _ _ V) in Hs. injection Hs as ->.
  pose proof (zlen_bignum_bytes v) as Hb. pose proof (zlen_nonneg (bignum_bytes v)).
  pose proof (run_put_bignum2_bytes V v Hok Hlv) as O. unfold append_outcome in O. rewrite Hcur in O.
  destruct (sshbuf_put_bignum2_bytes i v h) as [[[]|e|] h1]; destruct O as [E O]; [| |done].
  2:{ exfalso. rewrite zlen_nil, zlen_wire_string in O.
      destruct O as (_ & [[_ Ho]|[[_ ?]|[_ ?]]]); [by apply (no_oom_ex h)|congruence|lia]. }
  destruct O as [C1 _]. rewrite app_nil_l in C1.
  destruct (contents_view (eff_inv _ _ _ _ E) Hrc C1) as (s1 & p1 & l1 & V1 & Hcur1).
  pose proof (run_get_bignum2_bytes_direct V1) as G. rewrite Hcur1 in G.
  pose proof (parse_wire_string (bignum_bytes v) []) as P. rewrite app_nil_r in P.
  rewrite P in G by (change SSHBUF_SIZE_MAX with 0x8000000; change SSHBUF_MAX_BIGNUM with 2048 in Hl; lia).
  rewrite bignum_bytes_positive, bignum_bytes_fits, skip_zeros_bignum_bytes in G by done.
  destruct G as (s2 & h2 & q & G & _ & V2 & C2 & L2). exists h1, h2, q. split_and!; auto.
  by rewrite (view_contents V2), C2.
Qed.

Lemma bignum_roundtrip_witness :
  exists h1 h2 q, sshbuf_put_bignum2_bytes 0 [0; 0; 0x80; 1] demo_new.2 = (Ok tt, h1) /\
    contents h1 0%nat = Some (wire_string (bignum_bytes [0; 0; 0x80; 1])) /\
    sshbuf_get_bignum2_bytes_direct 0 h1 = (Ok (q, zlen (skip_zeros [0; 0; 0x80; 1])), h2) /\
    load q (zlen (skip_zeros [0; 0; 0x80; 1])) h2 = (Ok (skip_zeros [0; 0; 0x80; 1]), h2) /\
    contents h2 0%nat = Some [].
Proof.
  eapply (bignum_roundtrip demo_new.1 demo_new.2 0%nat).
  - apply demo_new_inv.
  - vm_compute. discriminate.
  - intros n. vm_compute. reflexivity.
  - vm_compute. reflexivity.
  - vm_compute. reflexivity.
  - vm_compute. reflexivity.
  - repeat constructor; vm_compute; discriminate || reflexivity.
  - vm_compute. discriminate.
  - vm_compute. discriminate.
  - vm_compute. discriminate.
Defined.

(** ** Corner cases *)

(** [sshbuf_reset] reallocates to SSHBUF_SIZE_INIT bytes whatever the
    buffer's maximum size: after [sshbuf_set_max_size] below 256, a reset
    leaves more allocated than allowed and the next call on the buffer fails
    its sanity check, which kills the process. *)
Theorem reset_small_max :
  let h := (sshbuf_reset 0 ((sshbuf_set_max_size 0 64) (sshbuf_new empty_heap).2).2).2 in
  (sshbuf_new empty_heap).1 = Ok (Some 0%nat) /\
  (sshbuf_set_max_size 0 64 (sshbuf_new empty_heap).2).1 = Ok tt /\
  (sb_alloc <$> h_bufs h !! 0%nat) = Some 256 /\ (sb_max_size <$> h_bufs h !! 0%nat) = Some 64 /\
  (sshbuf_len 0 h).1 = Crash.
Proof. vm_compute. auto. Qed.

(** A buffer with as many references as the sanity check allows. *)
Definition full_refs : heap :=
  set_bufs (alter (with_refcount SSHBUF_REFS_MAX) 0%nat) demo_new.2.

(** [sshbuf_set_parent] does not compare the parent's reference count with
    SSHBUF_REFS_MAX: one more child of a buffer at the limit is created without
    an error, and every later call on the parent fails its sanity check. *)
Lemma fromb_refs_max :
  (sshbuf_len 0 full_refs).1 = Ok 0 /\
  is_ok (sshbuf_fromb 0 full_refs).1 = true /\
  (sshbuf_len 0 (sshbuf_fromb 0 full_refs).2).1 = Crash.
Proof. vm_compute. auto. Qed.
