(* ===== verification/Cstring.v ===== *)
(** * C strings

    A C string is the list of its bytes before the NUL. The functions of the C
    library (C locale) and of openbsd-compat that the components use. *)

From S2P Require Import Prelude.

(** ** Characters *)

Definition isspace (c : Z) : bool := (c =? 32) || ((9 <=? c) && (c <=? 13)).
Definition isupper (c : Z) : bool := (65 <=? c) && (c <=? 90).
Definition isdigit (c : Z) : bool := (48 <=? c) && (c <=? 57).
Definition tolower (c : Z) : Z := if isupper c then c + 32 else c.

(** ** Searching *)

(** [strchr(s, c) - s]. *)
Fixpoint strchr (s : list Z) (c : Z) : option Z :=
  match s with
  | [] => None
  | x :: s' => if x =? c then Some 0 else Z.succ <$> strchr s' c
  end.

(** [strrchr(s, c) - s]. *)
Fixpoint strrchr (s : list Z) (c : Z) : option Z :=
  match s with
  | [] => None
  | x :: s' =>
      match strrchr s' c with
      | Some i => Some (Z.succ i)
      | None => if x =? c then Some 0 else None
      end
  end.

Lemma strchr_inv s : forall c v, strchr s c = Some v -> 0 <= v < zlen s /\ nth (Z.to_nat v) s 0 = c.
Proof.
  induction s as [|x s IH]; intros c v; [done|]. cbn [strchr]. rewrite zlen_cons.
  pose proof (zlen_nonneg s). destruct (Z.eqb_spec x c) as [->|].
  - intros [= <-]. split; [lia|done].
  - destruct (strchr s c) as [w|] eqn:E; [|done]. intros [= <-].
    destruct (IH _ _ E) as [Hw Hn]. split; [lia|].
    replace (Z.to_nat (Z.succ w)) with (S (Z.to_nat w)) by lia. done.
Qed.

(** [strspn(s, accept)]. *)
Fixpoint strspn (s accept : list Z) : Z :=
  match s with
  | [] => 0
  | x :: s' => if bool_decide (x ∈ accept) then Z.succ (strspn s' accept) else 0
  end.

(** ** [strsep] of openbsd-compat *)

(** The token, and what [*stringp] points to afterwards. *)
Fixpoint strsep (s : list Z) (delim : list Z) : list Z * option (list Z) :=
  match s with
  | [] => ([], None)
  | c :: s' =>
      if bool_decide (c ∈ delim) then ([], Some s')
      else let '(tok, rest) := strsep s' delim in (c :: tok, rest)
  end.

(** All tokens of a comma-separated list, in the order [strsep] returns them. *)
Fixpoint split (s : list Z) : list (list Z) :=
  match s with
  | [] => [[]]
  | c :: s' =>
      if c =? chr "," then [] :: split s'
      else match split s' with
           | t :: ts => (c :: t) :: ts
           | [] => [[c]]
           end
  end.

Lemma split_nonempty s : split s <> [].
Proof. destruct s as [|c s]; cbn [split]; [done|]. destruct (c =? _); [done|]. by destruct (split s). Qed.

Lemma split_strsep s :
  split s = (strsep s (str ",")).1 ::
    match (strsep s (str ",")).2 with Some r => split r | None => [] end.
Proof.
  change (str ",") with [chr ","].
  induction s as [|c s IH]; [done|]. cbn [split strsep].
  destruct (Z.eqb_spec c (chr ",")) as [->|Hc].
  - by rewrite bool_decide_eq_true_2 by by apply list_elem_of_singleton.
  - rewrite bool_decide_eq_false_2 by (intros Hin; by apply list_elem_of_singleton in Hin).
    rewrite IH. by destruct (strsep s [chr ","]) as [tok rest].
Qed.

(** [join]: the inverse of [split]. *)
Fixpoint join (ts : list (list Z)) : list Z :=
  match ts with
  | [] => []
  | [t] => t
  | t :: ts => t ++ chr "," :: join ts
  end.

Lemma join_split s : join (split s) = s.
Proof.
  induction s as [|c s IH]; [done|]. cbn [split]. pose proof (split_nonempty s).
  destruct (Z.eqb_spec c (chr ",")) as [->|Hc]; destruct (split s) as [|t [|t' ts]]; try done; cbn in *; congruence.
Qed.

Definition no_comma (t : list Z) : Prop := chr "," ∉ t.

Lemma split_no_comma s : Forall no_comma (split s).
Proof.
  induction s as [|c s IH]; [repeat constructor; apply not_elem_of_nil|]. cbn [split].
  destruct (Z.eqb_spec c (chr ",")) as [->|Hc]; [constructor; [apply not_elem_of_nil|done]|].
  destruct (split s) as [|t ts].
  - constructor; [|constructor]. apply not_elem_of_cons. split; [done|apply not_elem_of_nil].
  - apply Forall_cons in IH as [Ht Hts]. constructor; [|done]. by apply not_elem_of_cons.
Qed.

Lemma split_single t : no_comma t -> split t = [t].
Proof.
  unfold no_comma. induction t as [|c t IH]; intros Ht; [done|]. apply not_elem_of_cons in Ht as [Hc Ht].
  cbn [split]. rewrite (proj2 (Z.eqb_neq c (chr ","))) by done. by rewrite IH.
Qed.

Lemma split_cons t s : no_comma t -> split (t ++ chr "," :: s) = t :: split s.
Proof.
  unfold no_comma. induction t as [|c t IH]; intros Ht; [done|]. apply not_elem_of_cons in Ht as [Hc Ht].
  cbn [app split]. rewrite (proj2 (Z.eqb_neq c (chr ","))) by done. by rewrite IH.
Qed.

Lemma split_join ts : ts <> [] -> Forall no_comma ts -> split (join ts) = ts.
Proof.
  induction ts as [|t ts IH]; intros Hne Hc; [done|]. apply Forall_cons in Hc as [Ht Hts].
  destruct ts as [|t' ts]; [by apply split_single|]. cbn [join]. rewrite split_cons by done.
  f_equal. by apply IH.
Qed.

(** ** [strlcpy], [strlcat] of openbsd-compat *)

(** What the destination of [siz] bytes holds, and the return value. *)
Definition strlcpy (src : list Z) (siz : Z) : list Z * Z :=
  (if siz =? 0 then [] else slice src 0 (siz - 1), zlen src).

Definition strlcat (dst src : list Z) (siz : Z) : list Z * Z :=
  let dlen := Z.min siz (zlen dst) in
  let n := siz - dlen in
  if n =? 0 then (dst, dlen + zlen src)
  else (dst ++ slice src 0 (n - 1), dlen + zlen src).

(** ** Numbers *)

Definition LLONG_MAX : Z := 2 ^ 63 - 1.
Definition LLONG_MIN : Z := - 2 ^ 63.
Definition INT_MAX : Z := 2 ^ 31 - 1.

(** The digits at the front of [s] and the rest. *)
Fixpoint span_digits (s : list Z) : list Z * list Z :=
  match s with
  | c :: s' => if isdigit c then let '(d, r) := span_digits s' in (c :: d, r) else ([], s)
  | [] => ([], [])
  end.

Definition dec_val (ds : list Z) : Z := foldl (fun a c => 10 * a + (c - 48)) 0 ds.

Fixpoint skip_space (s : list Z) : list Z :=
  match s with
  | c :: s' => if isspace c then skip_space s' else s
  | [] => []
  end.

(** [strtoll(s, &ep, 10)]: [None] when no digit follows the optional white
    space and sign ([ep == s]); otherwise the exact value and [ep]. *)
Definition strtoll (s : list Z) : option (Z * list Z) :=
  let s := skip_space s in
  let '(neg, s) :=
    match s with
    | c :: r => if c =? chr "-" then (true, r) else if c =? chr "+" then (false, r) else (false, s)
    | [] => (false, s)
    end in
  let '(ds, ep) := span_digits s in
  if bool_decide (ds = []) then None
  else Some (if neg then - dec_val ds else dec_val ds, ep).

Inductive numerr := INVALID | TOOSMALL | TOOLARGE.

(** [strtonum]: the value, or which error string is set. A value out of the
    range of [long long] is clamped by [strtoll] with [errno] set to ERANGE. *)
Definition strtonum (s : list Z) (minval maxval : Z) : numerr + Z :=
  if minval >? maxval then inl INVALID
  else match strtoll s with
       | None => inl INVALID
       | Some (v, ep) =>
           if negb (bool_decide (ep = [])) then inl INVALID
           else
             let ll := Z.max LLONG_MIN (Z.min LLONG_MAX v) in
             let erange := negb (ll =? v) in
             if ((ll =? LLONG_MIN) && erange) || (ll <? minval) then inl TOOSMALL
             else if ((ll =? LLONG_MAX) && erange) || (ll >? maxval) then inl TOOLARGE
             else inr ll
       end.

Example strtonum_ex : strtonum (str "24") 0 INT_MAX = inr 24 /\
  strtonum (str " +7") 0 INT_MAX = inr 7 /\ strtonum (str "-1") 0 INT_MAX = inl TOOSMALL /\
  strtonum (str "99999999999999999999") 0 INT_MAX = inl TOOLARGE /\
  strtonum (str "3x") 0 INT_MAX = inl INVALID.
Proof. vm_compute. auto. Qed.

(** A number in range, whatever the spelling. *)
Lemma strtonum_range s lo hi v : strtonum s lo hi = inr v -> lo <= v <= hi.
Proof.
  unfold strtonum. destruct (Z.gtb_spec lo hi); [done|]. destruct (strtoll s) as [[x ep]|]; [|done].
  destruct (bool_decide (ep = [])); cbn [negb]; [|done].
  destruct ((_ && _) || _) eqn:E1; [done|]. destruct (((_ =? LLONG_MAX) && _) || _) eqn:E2; [done|].
  intros [= <-]. zbool. rewrite ?Z.gtb_ltb in *. zbool. lia.
Qed.
