(* ===== verification/Base64.v ===== *)
(** * Base64: [openbsd-compat/base64.c]

    [b64_ntop] and [b64_pton], the decoder as the state machine of the code
    with its output array. A C string is the list of its bytes before the NUL. *)

From S2P Require Import Prelude Cstring.

Definition Base64 : list Z :=
  Eval vm_compute in str "ABCDEFGHIJKLMNOPQRSTUVWXYZabcdefghijklmnopqrstuvwxyz0123456789+/".
Definition Pad64 : Z := Eval vm_compute in chr "=".

Definition digit (v : Z) : Z := nth (Z.to_nat v) Base64 0.

(** ** Encoding *)

(** The four sextets of three input bytes. *)
Definition output0 (i0 : Z) : Z := u8 (Z.shiftr i0 2).
Definition output1 (i0 i1 : Z) : Z := u8 (Z.shiftl (Z.land i0 0x03) 4 + Z.shiftr i1 4).
Definition output2 (i1 i2 : Z) : Z := u8 (Z.shiftl (Z.land i1 0x0f) 2 + Z.shiftr i2 6).
Definition output3 (i2 : Z) : Z := u8 (Z.land i2 0x3f).

(** The loop over whole groups: the characters stored and the bytes left, or
    [None] when the target is too small. *)
Fixpoint b64_ntop_loop (src : list Z) (datalength targsize : Z) : option (list Z * list Z) :=
  match src with
  | i0 :: i1 :: i2 :: src' =>
      if datalength + 4 >? targsize then None
      else
        '(out, rest) ← b64_ntop_loop src' (datalength + 4) targsize;
        Some ([digit (output0 i0); digit (output1 i0 i1); digit (output2 i1 i2); digit (output3 i2)]
              ++ out, rest)
  | _ => Some ([], src)
  end.

(** [None] is the return value -1. *)
Definition b64_ntop (src : list Z) (targsize : Z) : option (list Z) :=
  '(out, rest) ← b64_ntop_loop src 0 targsize;
  let datalength := zlen out in
  tail ← match rest with
         | [] => Some []
         | _ =>
             let i0 := nth 0 rest 0 in let i1 := nth 1 rest 0 in let i2 := nth 2 rest 0 in
             if datalength + 4 >? targsize then None
             else Some [digit (output0 i0); digit (output1 i0 i1);
                        (if zlen rest =? 1 then Pad64 else digit (output2 i1 i2)); Pad64]
         end;
  if zlen out + zlen tail >=? targsize then None else Some (out ++ tail).

(** ** Decoding *)

(** The output array: absent when [target] is NULL. *)
Abbreviation target := (option (list Z)).

(** A guarded write: [None] is the return of -1 by the bounds check. *)
Definition put_target (t : target) (in_bounds : bool) (f : list Z -> list Z) : option target :=
  match t with
  | None => Some None
  | Some l => if in_bounds then Some (Some (f l)) else None
  end.

Definition set_at (i v : Z) (l : list Z) : list Z := <[Z.to_nat i := u8 v]> l.
Definition or_at (i v : Z) (l : list Z) : list Z :=
  <[Z.to_nat i := u8 (Z.lor (nth (Z.to_nat i) l 0) v)]> l.

(** One sextet [v]: the [switch] on the state. *)
Definition pton_digit (state tarindex : Z) (t : target) (targsize v : Z) : option (Z * Z * target) :=
  match state with
  | 0 =>
      t ← put_target t (tarindex <? targsize) (set_at tarindex (Z.shiftl v 2));
      Some (1, tarindex, t)
  | 1 =>
      t ← put_target t (u32 (tarindex + 1) <? targsize)
            (fun l => set_at (tarindex + 1) (Z.shiftl (Z.land v 0x0f) 4)
                        (or_at tarindex (Z.shiftr v 4) l));
      Some (2, u32 (tarindex + 1), t)
  | 2 =>
      t ← put_target t (u32 (tarindex + 1) <? targsize)
            (fun l => set_at (tarindex + 1) (Z.shiftl (Z.land v 0x03) 6)
                        (or_at tarindex (Z.shiftr v 2) l));
      Some (3, u32 (tarindex + 1), t)
  | _ =>
      t ← put_target t (tarindex <? targsize) (or_at tarindex v);
      Some (0, u32 (tarindex + 1), t)
  end.

(** The main loop. The last component is [None] when the string ended, or what
    follows the first pad character. *)
Fixpoint pton_loop (src : list Z) (state tarindex : Z) (t : target) (targsize : Z)
  : option (Z * Z * target * option (list Z)) :=
  match src with
  | [] => Some (state, tarindex, t, None)
  | ch :: src =>
      if isspace ch then pton_loop src state tarindex t targsize
      else if ch =? Pad64 then Some (state, tarindex, t, Some src)
      else
        v ← strchr Base64 ch;
        '(state, tarindex, t) ← pton_digit state tarindex t targsize v;
        pton_loop src state tarindex t targsize
  end.

Fixpoint skip_spaces (src : list Z) : list Z :=
  match src with
  | [] => []
  | ch :: src' => if isspace ch then skip_spaces src' else src
  end.

(** The checks after a single trailing pad: only whitespace follows, and the
    bits past the last whole byte are zero. *)
Definition pton_tail (rest : list Z) (tarindex : Z) (t : target) : bool :=
  bool_decide (skip_spaces rest = []) &&
  match t with
  | Some l => nth (Z.to_nat tarindex) l 0 =? 0
  | None => true
  end.

(** What follows the main loop: the number of bytes and the array, or [None]
    for -1. *)
Definition pton_finish (r : Z * Z * target * option (list Z)) : option (Z * target) :=
  let '(state, tarindex, t, pad) := r in
  match pad with
  | Some rest =>
      match state with
      | 0 | 1 => None
      | 2 =>
          match skip_spaces rest with
          | ch :: rest =>
              if negb (ch =? Pad64) then None
              else if pton_tail rest tarindex t then Some (tarindex, t) else None
          | [] => None
          end
      | _ => if pton_tail rest tarindex t then Some (tarindex, t) else None
      end
  | None => if negb (state =? 0) then None else Some (tarindex, t)
  end.

Definition b64_pton (src : list Z) (t : target) (targsize : Z) : option (Z * target) :=
  pton_loop src 0 0 t targsize ≫= pton_finish.

Example b64_ntop_ex : b64_ntop (str "light wor") 100 = Some (str "bGlnaHQgd29y").
Proof. reflexivity. Qed.
Example b64_ntop_pad_ex : b64_ntop (str "light w") 13 = Some (str "bGlnaHQgdw==").
Proof. reflexivity. Qed.
Example b64_pton_ex :
  b64_pton (str "bGln aHQgdw= = ") (Some (zeros 9)) 9 = Some (7, Some (str "light w" ++ [0; 0])).
Proof. reflexivity. Qed.

(** ** The encoding as a function, and the sextets as arithmetic *)

Fixpoint enc (bs : list Z) : list Z :=
  match bs with
  | i0 :: i1 :: i2 :: bs =>
      digit (output0 i0) :: digit (output1 i0 i1) :: digit (output2 i1 i2) :: digit (output3 i2) :: enc bs
  | [i0; i1] => [digit (output0 i0); digit (output1 i0 i1); digit (output2 i1 0); Pad64]
  | [i0] => [digit (output0 i0); digit (output1 i0 0); Pad64; Pad64]
  | [] => []
  end.

(** Induction by groups of three. *)
Lemma list_ind3 (P : list Z -> Prop) :
  P [] -> (forall a, P [a]) -> (forall a b, P [a; b]) ->
  (forall a b c l, P l -> P (a :: b :: c :: l)) -> forall l, P l.
Proof.
  intros H0 H1 H2 H3 l.
  cut (P l /\ (forall a, P (a :: l)) /\ (forall a b, P (a :: b :: l))); [tauto|].
  induction l as [|c l (IH & IH1 & IH2)]; auto.
Qed.

Lemma zlen_enc bs : zlen (enc bs) = 4 * ((zlen bs + 2) / 3).
Proof.
  induction bs as [|a|a b|a b c l IH] using list_ind3; [done..|].
  cbn [enc]. rewrite !zlen_cons, IH.
  replace (1 + (1 + (1 + zlen l)) + 2) with (zlen l + 2 + 1 * 3) by lia.
  rewrite Z.div_add by lia. lia.
Qed.

Lemma b64_ntop_loop_spec src : forall dl n,
  match b64_ntop_loop src dl n with
  | Some (out, rest) =>
      enc src = out ++ enc rest /\ (length rest < 3)%nat /\ (out <> [] -> dl + zlen out <= n)
  | None => n < dl + zlen (enc src)
  end.
Proof.
  induction src as [|a|a b|a b c l IH] using list_ind3; intros dl n;
    [cbn; split_and!; done || lia..|].
  cbn [b64_ntop_loop enc]. rewrite !zlen_cons. pose proof (zlen_nonneg (enc l)).
  destruct (Z.gtb_spec (dl + 4) n) as [|Hle]; [lia|].
  specialize (IH (dl + 4) n). destruct (b64_ntop_loop l (dl + 4) n) as [[out rest]|]; cbn; [|lia].
  destruct IH as (-> & ? & Hb). split_and!; auto. intros _. rewrite !zlen_cons.
  destruct out; [rewrite zlen_nil; lia|]. specialize (Hb ltac:(done)). lia.
Qed.

(** The encoder returns the encoding when it and its NUL fit the target. *)
Lemma b64_ntop_spec src n : 0 <= n ->
  b64_ntop src n = if zlen (enc src) <? n then Some (enc src) else None.
Proof.
  intros Hn. unfold b64_ntop. pose proof (b64_ntop_loop_spec src 0 n) as L.
  destruct (b64_ntop_loop src 0 n) as [[out rest]|]; cbn [mbind option_bind].
  2:{ destruct (Z.ltb_spec (zlen (enc src)) n); [lia|done]. }
  destruct L as (-> & Hr & Hb). rewrite zlen_app. pose proof (zlen_nonneg out).
  assert (zlen out <= n) as Hb' by (destruct out; [done|]; specialize (Hb ltac:(done)); lia).
  assert (forall tl x y z w, zlen tl = 4 -> tl = [x; y; z; w] ->
    (t ← (if zlen out + 4 >? n then None else Some [x; y; z; w]);
     if zlen out + zlen t >=? n then None else Some (out ++ t)) =
    (if zlen out + zlen tl <? n then Some (out ++ tl) else None)) as Tail.
  { intros tl x y z w H4 <-. rewrite Z.gtb_ltb, H4.
    destruct (Z.ltb_spec n (zlen out + 4)); cbn [mbind option_bind]; rewrite ?Z.geb_leb, ?H4;
      [|destruct (Z.leb_spec n (zlen out + 4))]; destruct (Z.ltb_spec (zlen out + 4) n); done || lia. }
  destruct rest as [|a [|b [|c l]]]; [| | |cbn in Hr; lia].
  - cbn [enc mbind option_bind]. rewrite zlen_nil, Z.geb_leb.
    destruct (Z.leb_spec n (zlen out + 0)), (Z.ltb_spec (zlen out + 0) n); done || lia.
  - by apply Tail.
  - by apply Tail.
Qed.

Section Sextets.
Implicit Types a b c : Z.

Lemma output0_val a : byte_ok a -> output0 a = a / 4.
Proof.
  unfold output0, byte_ok. intros. rewrite Z.shiftr_div_pow2 by lia. change (2 ^ 2) with 4.
  apply wrap_small. dlia.
Qed.

Lemma output1_val a b : byte_ok a -> byte_ok b -> output1 a b = a mod 4 * 16 + b / 16.
Proof.
  unfold output1, byte_ok. intros. change 0x03 with (Z.ones 2).
  rewrite Z.land_ones, Z.shiftl_mul_pow2, Z.shiftr_div_pow2 by lia.
  change (2 ^ 2) with 4. change (2 ^ 4) with 16. apply wrap_small. dlia.
Qed.

Lemma output2_val b c : byte_ok b -> byte_ok c -> output2 b c = b mod 16 * 4 + c / 64.
Proof.
  unfold output2, byte_ok. intros. change 0x0f with (Z.ones 4).
  rewrite Z.land_ones, Z.shiftl_mul_pow2, Z.shiftr_div_pow2 by lia.
  change (2 ^ 2) with 4. change (2 ^ 4) with 16. change (2 ^ 6) with 64. apply wrap_small. dlia.
Qed.

Lemma output3_val c : byte_ok c -> output3 c = c mod 64.
Proof.
  unfold output3, byte_ok. intros. change 0x3f with (Z.ones 6).
  rewrite Z.land_ones by lia. change (2 ^ 6) with 64. apply wrap_small. dlia.
Qed.
End Sextets.

(** ** The alphabet *)

Lemma sextet_cases (P : Z -> Prop) :
  Forall P (Z.of_nat <$> seq 0 64) -> forall v, 0 <= v < 64 -> P v.
Proof.
  intros HP v Hv. rewrite Forall_forall in HP. apply HP, list_elem_of_fmap.
  exists (Z.to_nat v). split; [lia|]. apply elem_of_seq. lia.
Qed.

Lemma digit_props v : 0 <= v < 64 ->
  strchr Base64 (digit v) = Some v /\ isspace (digit v) = false /\ (digit v =? Pad64) = false.
Proof. revert v. apply sextet_cases. repeat constructor. Qed.

Lemma strchr_digit c v : strchr Base64 c = Some v -> 0 <= v < 64 /\ c = digit v.
Proof. intros H. by destruct (strchr_inv _ _ _ H) as [? <-]. Qed.

Lemma output_range a b : byte_ok a -> byte_ok b ->
  0 <= output0 a < 64 /\ 0 <= output1 a b < 64 /\ 0 <= output2 a b < 64 /\ 0 <= output3 a < 64.
Proof.
  intros Ha Hb. rewrite output0_val, output1_val, output2_val, output3_val by done.
  unfold byte_ok in *. split_and!; dlia.
Qed.

(** ** The bytes the decoder assembles *)

Definition byte0 (v0 v1 : Z) : Z := u8 (Z.lor (u8 (Z.shiftl v0 2)) (Z.shiftr v1 4)).
Definition byte1 (v1 v2 : Z) : Z := u8 (Z.lor (u8 (Z.shiftl (Z.land v1 0x0f) 4)) (Z.shiftr v2 2)).
Definition byte2 (v2 v3 : Z) : Z := u8 (Z.lor (u8 (Z.shiftl (Z.land v2 0x03) 6)) v3).

Lemma lor_field a b k : 0 <= k -> 0 <= a -> 0 <= b < 2 ^ k -> a * 2 ^ k + b < 256 ->
  u8 (Z.lor (u8 (Z.shiftl a k)) b) = a * 2 ^ k + b.
Proof.
  intros Hk Ha Hb Hs. assert (0 < 2 ^ k) by (apply Z.pow_pos_nonneg; lia).
  rewrite (wrap_small 8 (Z.shiftl a k)) by (rewrite Z.shiftl_mul_pow2 by lia; split; [nia|change (2 ^ 8) with 256; lia]).
  rewrite lor_shifted by lia. apply wrap_small. split; [nia|done].
Qed.

Section Bytes.
Context (v w : Z).

Lemma byte0_val : 0 <= v < 64 -> 0 <= w < 64 -> byte0 v w = v * 4 + w / 16.
Proof.
  intros. unfold byte0. rewrite Z.shiftr_div_pow2 by lia. change (2 ^ 4) with 16.
  rewrite lor_field by (change (2 ^ 2) with 4; dlia). done.
Qed.

Lemma byte1_val : 0 <= v < 64 -> 0 <= w < 64 -> byte1 v w = v mod 16 * 16 + w / 4.
Proof.
  intros. unfold byte1. change 0x0f with (Z.ones 4). rewrite Z.land_ones, Z.shiftr_div_pow2 by lia.
  change (2 ^ 4) with 16. change (2 ^ 2) with 4.
  rewrite lor_field by (change (2 ^ 4) with 16; dlia). done.
Qed.

Lemma byte2_val : 0 <= v < 64 -> 0 <= w < 64 -> byte2 v w = v mod 4 * 64 + w.
Proof.
  intros. unfold byte2. change 0x03 with (Z.ones 2). rewrite Z.land_ones by lia. change (2 ^ 2) with 4.
  rewrite lor_field by (change (2 ^ 6) with 64; dlia). done.
Qed.
End Bytes.

(** Three bytes survive the sextets, and four sextets survive the bytes. *)
Lemma bytes_of_outputs a b c : byte_ok a -> byte_ok b -> byte_ok c ->
  byte0 (output0 a) (output1 a b) = a /\
  byte1 (output1 a b) (output2 b c) = b /\
  byte2 (output2 b c) (output3 c) = c.
Proof.
  intros Ha Hb Hc. pose proof (output_range a b Ha Hb). pose proof (output_range b c Hb Hc).
  pose proof (output_range c c Hc Hc).
  rewrite byte0_val, byte1_val, byte2_val by tauto.
  rewrite output0_val, output1_val, output2_val, output3_val by done.
  unfold byte_ok in *. split_and!; dlia.
Qed.

Lemma outputs_of_bytes v0 v1 v2 v3 : 0 <= v0 < 64 -> 0 <= v1 < 64 -> 0 <= v2 < 64 -> 0 <= v3 < 64 ->
  output0 (byte0 v0 v1) = v0 /\
  output1 (byte0 v0 v1) (byte1 v1 v2) = v1 /\
  output2 (byte1 v1 v2) (byte2 v2 v3) = v2 /\
  output3 (byte2 v2 v3) = v3.
Proof.
  intros. rewrite byte0_val, byte1_val, byte2_val by done.
  rewrite output0_val, output1_val, output2_val, output3_val by (unfold byte_ok; dlia).
  split_and!; dlia.
Qed.

Lemma byte_ok_u8 x : byte_ok (u8 x).
Proof. unfold byte_ok. pose proof (wrap_range 8 x). lia. Qed.

(** ** The decoder, group by group *)

Lemma set_at_mid pre x post v : set_at (zlen pre) v (pre ++ x :: post) = pre ++ u8 v :: post.
Proof.
  unfold set_at, zlen. rewrite Nat2Z.id, insert_app_r_alt, Nat.sub_diag by lia. done.
Qed.

Lemma or_at_mid pre x post v :
  or_at (zlen pre) v (pre ++ x :: post) = pre ++ u8 (Z.lor x v) :: post.
Proof.
  unfold or_at, zlen. rewrite Nat2Z.id, nth_middle, insert_app_r_alt, Nat.sub_diag by lia. done.
Qed.

Lemma mid_next pre x (post : list Z) : pre ++ x :: post = (pre ++ [x]) ++ post.
Proof. by rewrite <- app_assoc. Qed.

Section Groups.
Context (n : Z) (Hn : n <= 2 ^ 31).
Implicit Types (pre post src : list Z).

Lemma pton_loop_digit v src st k t : 0 <= v < 64 ->
  pton_loop (digit v :: src) st k t n =
  ('(st, k, t) ← pton_digit st k t n v; pton_loop src st k t n).
Proof.
  intros Hv. destruct (digit_props v Hv) as (Hs & Hsp & Hp). cbn [pton_loop].
  by rewrite Hsp, Hp, Hs.
Qed.

Lemma pton_digit0 pre x post v : zlen pre < n ->
  pton_digit 0 (zlen pre) (Some (pre ++ x :: post)) n v =
  Some (1, zlen pre, Some (pre ++ u8 (Z.shiftl v 2) :: post)).
Proof.
  intros. cbn. rewrite (proj2 (Z.ltb_lt _ _)) by lia. cbn. by rewrite set_at_mid.
Qed.

(** States 1 and 2: the low bits of one byte, the high bits of the next. *)
Lemma pton_digit12 pre x y post v st hi lo :
  zlen pre + 1 < n -> (st = 1 /\ hi = Z.shiftr v 4 /\ lo = Z.shiftl (Z.land v 0x0f) 4 \/
                       st = 2 /\ hi = Z.shiftr v 2 /\ lo = Z.shiftl (Z.land v 0x03) 6) ->
  pton_digit st (zlen pre) (Some (pre ++ x :: y :: post)) n v =
  Some (st + 1, zlen (pre ++ [0]), Some ((pre ++ [u8 (Z.lor x hi)]) ++ u8 lo :: post)).
Proof.
  intros Hk Hst. pose proof (zlen_nonneg pre).
  assert (u32 (zlen pre + 1) = zlen pre + 1) as E by (apply wrap_small; lia).
  assert (set_at (zlen pre + 1) lo (or_at (zlen pre) hi (pre ++ x :: y :: post)) =
          (pre ++ [u8 (Z.lor x hi)]) ++ u8 lo :: post) as W.
  { rewrite or_at_mid, mid_next.
    replace (zlen pre + 1) with (zlen (pre ++ [u8 (Z.lor x hi)])) by (rewrite zlen_app; done).
    apply set_at_mid. }
  assert (zlen (pre ++ [0]) = zlen pre + 1) as L by (rewrite zlen_app; done).
  destruct Hst as [(-> & -> & ->)|(-> & -> & ->)]; cbn -[zlen app Z.shiftr Z.shiftl Z.land];
    rewrite E, (proj2 (Z.ltb_lt _ _)) by lia; cbn -[zlen app Z.shiftr Z.shiftl Z.land];
    by rewrite W, L.
Qed.

Lemma pton_digit3 pre x post v : zlen pre < n ->
  pton_digit 3 (zlen pre) (Some (pre ++ x :: post)) n v =
  Some (0, zlen (pre ++ [0]), Some ((pre ++ [u8 (Z.lor x v)]) ++ post)).
Proof.
  intros. pose proof (zlen_nonneg pre). cbn. rewrite (proj2 (Z.ltb_lt _ _)) by lia. cbn.
  rewrite or_at_mid, wrap_small by lia. by rewrite mid_next, zlen_app.
Qed.

Section Prefix.
Context (v0 v1 v2 v3 : Z) (H0 : 0 <= v0 < 64) (H1 : 0 <= v1 < 64) (H2 : 0 <= v2 < 64) (H3 : 0 <= v3 < 64).

Lemma pton_two pre x0 x1 post src : zlen pre + 1 < n ->
  pton_loop (digit v0 :: digit v1 :: src) 0 (zlen pre) (Some (pre ++ x0 :: x1 :: post)) n =
  pton_loop src 2 (zlen (pre ++ [byte0 v0 v1]))
    (Some ((pre ++ [byte0 v0 v1]) ++ u8 (Z.shiftl (Z.land v1 0x0f) 4) :: post)) n.
Proof using H0 H1 Hn.
  intros. rewrite pton_loop_digit, pton_digit0 by lia. cbn [mbind option_bind].
  rewrite pton_loop_digit by lia. erewrite pton_digit12 by eauto. cbn [mbind option_bind].
  rewrite !zlen_app. done.
Qed.

Lemma pton_three pre x0 x1 x2 post src : zlen pre + 2 < n ->
  pton_loop (digit v0 :: digit v1 :: digit v2 :: src) 0 (zlen pre)
    (Some (pre ++ x0 :: x1 :: x2 :: post)) n =
  pton_loop src 3 (zlen (pre ++ [byte0 v0 v1; byte1 v1 v2]))
    (Some ((pre ++ [byte0 v0 v1; byte1 v1 v2]) ++ u8 (Z.shiftl (Z.land v2 0x03) 6) :: post)) n.
Proof using H0 H1 H2 Hn.
  intros. rewrite pton_two by lia. rewrite pton_loop_digit by lia.
  erewrite pton_digit12 by (rewrite ?zlen_app, ?zlen_cons, ?zlen_nil; eauto || lia).
  cbn [mbind option_bind]. rewrite <- !app_assoc. rewrite !zlen_app. done.
Qed.

Lemma pton_four pre x0 x1 x2 post src : zlen pre + 2 < n ->
  pton_loop (digit v0 :: digit v1 :: digit v2 :: digit v3 :: src) 0 (zlen pre)
    (Some (pre ++ x0 :: x1 :: x2 :: post)) n =
  pton_loop src 0 (zlen (pre ++ [byte0 v0 v1; byte1 v1 v2; byte2 v2 v3]))
    (Some ((pre ++ [byte0 v0 v1; byte1 v1 v2; byte2 v2 v3]) ++ post)) n.
Proof using H0 H1 H2 H3 Hn.
  intros. rewrite pton_three by lia. rewrite pton_loop_digit by lia.
  rewrite pton_digit3 by (rewrite zlen_app, !zlen_cons, zlen_nil; lia).
  cbn [mbind option_bind]. rewrite <- !app_assoc. rewrite !zlen_app. done.
Qed.
End Prefix.

Lemma pton_loop_pad src st k t : pton_loop (Pad64 :: src) st k t n = Some (st, k, t, Some src).
Proof. done. Qed.
End Groups.

Section Decode.
Implicit Types (pre post src bs : list Z).

(** The whole decoder from a group boundary. *)
Definition pton_from pre post src : option (Z * target) :=
  pton_loop src 0 (zlen pre) (Some (pre ++ post)) (zlen (pre ++ post)) ≫= pton_finish.

Definition fits pre post src : Prop := zlen src <= zlen post /\ zlen (pre ++ post) <= 2 ^ 31.

Lemma fits_uncons pre post c0 src : fits pre post (c0 :: src) ->
  exists x0 post', post = x0 :: post' /\ zlen src <= zlen post' /\ zlen pre < zlen (pre ++ post) <= 2 ^ 31.
Proof.
  intros [Hl Hb]. rewrite zlen_cons in Hl. pose proof (zlen_nonneg src).
  destruct post as [|x post]; [rewrite zlen_nil in Hl; lia|]. exists x, post.
  rewrite zlen_app, zlen_cons in *. pose proof (zlen_nonneg post). split_and!; done || lia.
Qed.

Lemma fits_group pre post c0 c1 c2 src : fits pre post (c0 :: c1 :: c2 :: src) ->
  exists x0 x1 x2 post', post = x0 :: x1 :: x2 :: post' /\ zlen src <= zlen post' /\
    zlen pre + 2 < zlen (pre ++ post) <= 2 ^ 31.
Proof.
  intros F. destruct (fits_uncons _ _ _ _ F) as (x0 & post0 & -> & ? & ?).
  destruct post0 as [|x1 [|x2 post']]; rewrite ?zlen_cons, ?zlen_nil in *;
    pose proof (zlen_nonneg src); [lia|lia|].
  destruct F as [? ?]. rewrite zlen_app, !zlen_cons in *. pose proof (zlen_nonneg post').
  exists x0, x1, x2, post'. split_and!; done || lia.
Qed.

(** Same array, longer prefix. *)
Lemma zlen_same pre (l l' post : list Z) : length l = length l' ->
  zlen (pre ++ l ++ post) = zlen ((pre ++ l') ++ post).
Proof. intros. unfold zlen. rewrite !length_app. lia. Qed.

Lemma pton_from_four v0 v1 v2 v3 pre x0 x1 x2 post src :
  0 <= v0 < 64 -> 0 <= v1 < 64 -> 0 <= v2 < 64 -> 0 <= v3 < 64 ->
  zlen pre + 2 < zlen (pre ++ x0 :: x1 :: x2 :: post) <= 2 ^ 31 ->
  pton_from pre (x0 :: x1 :: x2 :: post) (digit v0 :: digit v1 :: digit v2 :: digit v3 :: src) =
  pton_from (pre ++ [byte0 v0 v1; byte1 v1 v2; byte2 v2 v3]) post src.
Proof.
  intros. unfold pton_from. rewrite pton_four by lia.
  by rewrite <- (zlen_same pre [x0; x1; x2]).
Qed.

Lemma pton_from_three v0 v1 v2 pre x0 x1 x2 post src :
  0 <= v0 < 64 -> 0 <= v1 < 64 -> 0 <= v2 < 64 ->
  zlen pre + 2 < zlen (pre ++ x0 :: x1 :: x2 :: post) <= 2 ^ 31 ->
  pton_from pre (x0 :: x1 :: x2 :: post) (digit v0 :: digit v1 :: digit v2 :: Pad64 :: src) =
  if bool_decide (skip_spaces src = []) && (u8 (Z.shiftl (Z.land v2 0x03) 6) =? 0)
  then Some (zlen pre + 2, Some (pre ++ [byte0 v0 v1; byte1 v1 v2] ++ [0] ++ post)) else None.
Proof.
  intros. unfold pton_from. rewrite pton_three by lia.
  rewrite pton_loop_pad. cbn [mbind option_bind pton_finish].
  unfold pton_tail, zlen at 1. rewrite Nat2Z.id, nth_middle.
  destruct (bool_decide _); [|done].
  destruct (Z.eqb_spec (u8 (Z.shiftl (Z.land v2 3) 6)) 0) as [->|]; [|done].
  rewrite <- app_assoc, zlen_app. done.
Qed.

Lemma pton_from_two v0 v1 pre x0 x1 post src :
  0 <= v0 < 64 -> 0 <= v1 < 64 ->
  zlen pre + 1 < zlen (pre ++ x0 :: x1 :: post) <= 2 ^ 31 ->
  pton_from pre (x0 :: x1 :: post) (digit v0 :: digit v1 :: Pad64 :: src) =
  match skip_spaces src with
  | [] => None
  | c :: src => if (c =? Pad64) && bool_decide (skip_spaces src = []) &&
      (u8 (Z.shiftl (Z.land v1 0x0f) 4) =? 0)
    then Some (zlen pre + 1, Some (pre ++ [byte0 v0 v1] ++ [0] ++ post)) else None
  end.
Proof.
  intros. unfold pton_from. rewrite pton_two by lia.
  rewrite pton_loop_pad. cbn [mbind option_bind pton_finish].
  destruct (skip_spaces src) as [|c src']; [done|].
  destruct (c =? Pad64); cbn [negb andb]; [|done].
  unfold pton_tail, zlen at 1. rewrite Nat2Z.id, nth_middle.
  destruct (bool_decide _); [|done].
  destruct (Z.eqb_spec (u8 (Z.shiftl (Z.land v1 0x0f) 4)) 0) as [->|]; [|done].
  rewrite <- app_assoc, zlen_app. done.
Qed.

(** The encoding of any bytes is decoded to them. *)
Lemma pton_enc bs : bytes_ok bs -> forall pre post, fits pre post (enc bs) ->
  exists post', pton_from pre post (enc bs) = Some (zlen pre + zlen bs, Some (pre ++ bs ++ post')).
Proof.
  assert (byte_ok 0) as Z0 by (unfold byte_ok; lia).
  induction bs as [|a|a b|a b c l IH] using list_ind3; intros Hok pre post F; cbn [enc] in *.
  - exists post. cbn. by rewrite Z.add_0_r.
  - apply Forall_cons in Hok as [Ha _]. pose proof (output_range a 0 Ha Z0).
    destruct (fits_group _ _ _ _ _ _ F) as (x0 & x1 & x2 & post' & -> & _ & Hb).
    rewrite pton_from_two by lia. cbn [skip_spaces].
    change (isspace Pad64) with false. cbv match. rewrite Z.eqb_refl.
    exists (0 :: x2 :: post'). destruct (bytes_of_outputs a 0 0) as (-> & Hz & _); [done..|].
    assert (u8 (Z.shiftl (Z.land (output1 a 0) 0x0f) 4) = 0) as ->; [|done].
    rewrite output1_val by done. change 0x0f with (Z.ones 4).
    rewrite Z.land_ones, Z.shiftl_mul_pow2 by lia. change (2 ^ 4) with 16.
    replace ((a mod 4 * 16 + 0 / 16) mod 16) with 0 by dlia. done.
  - apply Forall_cons in Hok as [Ha [Hb _]%Forall_cons].
    pose proof (output_range a b Ha Hb). pose proof (output_range b 0 Hb Z0).
    destruct (fits_group _ _ _ _ _ _ F) as (x0 & x1 & x2 & post' & -> & _ & Hbd).
    rewrite pton_from_three by lia. cbn [skip_spaces].
    exists (0 :: post'). destruct (bytes_of_outputs a b 0) as (-> & -> & _); [done..|].
    assert (u8 (Z.shiftl (Z.land (output2 b 0) 0x03) 6) = 0) as ->; [|done].
    rewrite output2_val by done. change 0x03 with (Z.ones 2).
    rewrite Z.land_ones, Z.shiftl_mul_pow2 by lia. change (2 ^ 2) with 4. change (2 ^ 6) with 64.
    replace ((b mod 16 * 4 + 0 / 64) mod 4) with 0 by dlia. done.
  - apply Forall_cons in Hok as [Ha [Hb [Hc Hl]%Forall_cons]%Forall_cons].
    pose proof (output_range a b Ha Hb). pose proof (output_range b c Hb Hc). pose proof (output_range c c Hc Hc).
    destruct (fits_group _ _ _ _ _ _ F) as (x0 & x1 & x2 & post' & -> & Hl' & Hbd).
    rewrite pton_from_four by lia. destruct (bytes_of_outputs a b c) as (-> & -> & ->); [done..|].
    destruct (IH Hl (pre ++ [a; b; c]) post') as (post'' & ->).
    { rewrite zlen_cons in Hl'. split; [lia|]. rewrite <- (zlen_same pre [x0; x1; x2]) by done. apply Hbd. }
    exists post''. rewrite zlen_app, !zlen_cons, zlen_nil, <- app_assoc. do 2 f_equal. lia.
Qed.

(** ** Only encodings are accepted *)

Definition nospace src : Prop := Forall (fun c => isspace c = false) src.

Lemma skip_spaces_id src : nospace src -> skip_spaces src = src.
Proof. destruct 1 as [|c src Hc _]; [done|]. cbn. by rewrite Hc. Qed.

Lemma char_cases c : isspace c = false ->
  c = Pad64 \/ (exists v, 0 <= v < 64 /\ c = digit v) \/
  forall src st k t n, pton_loop (c :: src) st k t n = None.
Proof.
  intros Hs. destruct (Z.eqb_spec c Pad64) as [|Hp]; [by left|]. right.
  destruct (strchr Base64 c) as [v|] eqn:E; [left; exists v; by apply strchr_digit|right].
  intros. cbn [pton_loop]. rewrite Hs, (proj2 (Z.eqb_neq _ _) Hp), E. done.
Qed.

(** A last group that is cut short. *)
Lemma pton_short0 pre post src : zlen pre < zlen (pre ++ post) <= 2 ^ 31 -> nospace src ->
  (src = [] \/ exists c0, src = [c0]) -> forall r, pton_from pre post src = Some r -> src = [].
Proof.
  intros Hb Hns [->|[c0 ->]] r; [done|]. apply Forall_cons in Hns as [H0 _].
  destruct post as [|x0 post]; [rewrite app_nil_r in Hb; lia|].
  destruct (char_cases c0 H0) as [->|[(v & Hv & ->)|Hbad]]; unfold pton_from; [done| |by rewrite Hbad].
  rewrite pton_loop_digit, pton_digit0 by lia. done.
Qed.

Lemma pton_second pre post c0 c1 src r :
  fits pre post (c0 :: c1 :: src) -> isspace c0 = false -> isspace c1 = false ->
  pton_from pre post (c0 :: c1 :: src) = Some r ->
  exists v0 v1, 0 <= v0 < 64 /\ 0 <= v1 < 64 /\ c0 = digit v0 /\ c1 = digit v1.
Proof.
  intros F H0 H1. destruct (fits_uncons _ _ _ _ F) as (x0 & post' & -> & _ & Hb). unfold pton_from.
  destruct (char_cases c0 H0) as [->|[(v0 & Hv0 & ->)|Hbad]]; [done| |by rewrite Hbad].
  rewrite pton_loop_digit, pton_digit0 by lia. cbn [mbind option_bind].
  destruct (char_cases c1 H1) as [->|[(v1 & Hv1 & ->)|Hbad]]; [done| |by rewrite Hbad].
  intros _. eauto 6.
Qed.

Lemma enc_two v0 v1 : 0 <= v0 < 64 -> 0 <= v1 < 64 -> u8 (Z.shiftl (Z.land v1 0x0f) 4) = 0 ->
  [digit v0; digit v1; Pad64; Pad64] = enc [byte0 v0 v1].
Proof.
  intros H0 H1 Hz. destruct (outputs_of_bytes v0 v1 0 0 H0 H1) as (E0 & E1 & _); [lia..|].
  unfold byte1 in E1. rewrite Hz in E1. change (u8 (Z.lor 0 (Z.shiftr 0 2))) with 0 in E1.
  cbn [enc]. by rewrite E0, E1.
Qed.

Lemma enc_three v0 v1 v2 : 0 <= v0 < 64 -> 0 <= v1 < 64 -> 0 <= v2 < 64 ->
  u8 (Z.shiftl (Z.land v2 0x03) 6) = 0 ->
  [digit v0; digit v1; digit v2; Pad64] = enc [byte0 v0 v1; byte1 v1 v2].
Proof.
  intros H0 H1 H2 Hz. destruct (outputs_of_bytes v0 v1 v2 0 H0 H1 H2) as (E0 & E1 & E2 & _); [lia|].
  unfold byte2 in E2. rewrite Hz in E2. change (u8 (Z.lor 0 0)) with 0 in E2.
  cbn [enc]. by rewrite E0, E1, E2.
Qed.

Definition decoded pre src (m : Z) (t : target) : Prop :=
  exists bs post', bytes_ok bs /\ src = enc bs /\ m = zlen pre + zlen bs /\
    t = Some (pre ++ bs ++ post').

Lemma decoded_nil pre post : decoded pre [] (zlen pre) (Some (pre ++ post)).
Proof. exists [], post. rewrite Z.add_0_r. split_and!; [constructor|done..]. Qed.

(** The third character of a group: a pad closes a one-byte group. *)
Lemma pton_third pre x0 x1 x2 post v0 v1 c2 src m t :
  0 <= v0 < 64 -> 0 <= v1 < 64 -> nospace (c2 :: src) ->
  zlen pre + 2 < zlen (pre ++ x0 :: x1 :: x2 :: post) <= 2 ^ 31 ->
  pton_from pre (x0 :: x1 :: x2 :: post) (digit v0 :: digit v1 :: c2 :: src) = Some (m, t) ->
  decoded pre (digit v0 :: digit v1 :: c2 :: src) m t \/
  exists v2, 0 <= v2 < 64 /\ c2 = digit v2.
Proof.
  intros H0 H1 [Hc2 Hns]%Forall_cons Hb R.
  destruct (char_cases c2 Hc2) as [->|[(v2 & Hv2 & ->)|Hbad]]; [left|right; by eauto|].
  - rewrite pton_from_two, skip_spaces_id in R by (done || lia).
    destruct src as [|c3 src]; [done|]. apply Forall_cons in Hns as [_ Hns].
    rewrite skip_spaces_id in R by done. destruct (_ && _) eqn:E; [|done].
    apply andb_true_iff in E as [[->%Z.eqb_eq ->%bool_decide_eq_true]%andb_true_iff Hz%Z.eqb_eq].
    injection R as <- <-. exists [byte0 v0 v1], (0 :: x2 :: post). split_and!; auto using enc_two.
    by repeat (apply Forall_cons; split; [apply byte_ok_u8|]).
  - exfalso. unfold pton_from in R. rewrite pton_two, Hbad in R by lia. done.
Qed.

(** The fourth one: a pad closes a two-byte group. *)
Lemma pton_fourth pre x0 x1 x2 post v0 v1 v2 c3 src m t :
  0 <= v0 < 64 -> 0 <= v1 < 64 -> 0 <= v2 < 64 -> nospace (c3 :: src) ->
  zlen pre + 2 < zlen (pre ++ x0 :: x1 :: x2 :: post) <= 2 ^ 31 ->
  pton_from pre (x0 :: x1 :: x2 :: post) (digit v0 :: digit v1 :: digit v2 :: c3 :: src) = Some (m, t) ->
  decoded pre (digit v0 :: digit v1 :: digit v2 :: c3 :: src) m t \/
  exists v3, 0 <= v3 < 64 /\ c3 = digit v3.
Proof.
  intros H0 H1 H2 [Hc3 Hns]%Forall_cons Hb R.
  destruct (char_cases c3 Hc3) as [->|[(v3 & Hv3 & ->)|Hbad]]; [left|right; by eauto|].
  - rewrite pton_from_three, skip_spaces_id in R by (done || lia). destruct (_ && _) eqn:E; [|done].
    apply andb_true_iff in E as [->%bool_decide_eq_true Hz%Z.eqb_eq].
    injection R as <- <-. exists [byte0 v0 v1; byte1 v1 v2], (0 :: post).
    split_and!; auto using enc_three. by repeat (apply Forall_cons; split; [apply byte_ok_u8|]).
  - exfalso. unfold pton_from in R. rewrite pton_three, Hbad in R by lia. done.
Qed.

Lemma pton_sound_aux N : forall src pre post m t, (length src <= N)%nat ->
  nospace src -> fits pre post src -> pton_from pre post src = Some (m, t) -> decoded pre src m t.
Proof.
  induction N as [|N IH]; intros src pre post m t HN Hns F R.
  { destruct src; [|cbn in HN; lia]. injection R as <- <-. apply decoded_nil. }
  destruct src as [|c0 [|c1 [|c2 src]]].
  - injection R as <- <-. apply decoded_nil.
  - destruct (fits_uncons _ _ _ _ F) as (x0 & post' & E & _ & Hb).
    apply (pton_short0 pre post) in R; [done|done|done|eauto].
  - exfalso. apply Forall_cons in Hns as [Hc0 [Hc1 _]%Forall_cons].
    destruct (pton_second _ _ _ _ _ _ F Hc0 Hc1 R) as (v0 & v1 & H0 & H1 & -> & ->).
    destruct (fits_uncons _ _ _ _ F) as (x0 & post0 & -> & Hl & Hb).
    destruct post0 as [|x1 post']; [rewrite zlen_cons, !zlen_nil in Hl; lia|].
    unfold pton_from in R. rewrite zlen_app, !zlen_cons in *. pose proof (zlen_nonneg post').
    rewrite pton_two in R by lia. done.
  - apply Forall_cons in Hns as [Hc0 [Hc1 Hns]%Forall_cons].
    destruct (pton_second _ _ _ _ _ _ F Hc0 Hc1 R) as (v0 & v1 & H0 & H1 & -> & ->).
    destruct (fits_group _ _ _ _ _ _ F) as (x0 & x1 & x2 & post' & -> & Hl & Hb).
    destruct (pton_third _ _ _ _ _ _ _ _ _ _ _ H0 H1 Hns Hb R) as [|(v2 & H2 & ->)]; [done|].
    apply Forall_cons in Hns as [_ Hns]. destruct src as [|c3 src].
    { exfalso. unfold pton_from in R. rewrite pton_three in R by lia. done. }
    destruct (pton_fourth _ _ _ _ _ _ _ _ _ _ _ _ H0 H1 H2 Hns Hb R) as [|(v3 & H3 & ->)]; [done|].
    rewrite pton_from_four in R by lia. apply Forall_cons in Hns as [_ Hns].
    apply IH in R; [|cbn in HN; lia|done|].
    + destruct R as (bs & post'' & Hok & -> & -> & ->).
      destruct (outputs_of_bytes v0 v1 v2 v3) as (E0 & E1 & E2 & E3); [lia..|].
      exists (byte0 v0 v1 :: byte1 v1 v2 :: byte2 v2 v3 :: bs), post''. cbn [enc].
      rewrite E0, E1, E2, E3, zlen_app, !zlen_cons, zlen_nil, <- app_assoc. split_and!; auto; [|lia].
      by repeat (apply Forall_cons; split; [apply byte_ok_u8|]).
    + rewrite zlen_cons in Hl. split; [lia|]. rewrite <- (zlen_same pre [x0; x1; x2]) by done. apply Hb.
Qed.
End Decode.

(** ** Whitespace *)

Fixpoint strip (s : list Z) : list Z :=
  match s with
  | [] => []
  | c :: s' => if isspace c then strip s' else c :: strip s'
  end.

Lemma strip_nospace s : nospace (strip s).
Proof.
  induction s as [|c s IH]; [constructor|]. cbn. destruct (isspace c) eqn:E; [done|]. by constructor.
Qed.

Lemma strip_id s : nospace s -> strip s = s.
Proof. induction 1 as [|c s Hc _ IH]; [done|]. cbn. by rewrite Hc, IH. Qed.

Lemma strip_le s : zlen (strip s) <= zlen s.
Proof.
  induction s as [|c s IH]; [done|]. cbn [strip]. rewrite zlen_cons.
  destruct (isspace c); [lia|]. rewrite zlen_cons. lia.
Qed.

Lemma skip_spaces_strip s : strip s =
  match skip_spaces s with [] => [] | c :: s' => c :: strip s' end.
Proof.
  induction s as [|c s IH]; [done|]. cbn [strip skip_spaces].
  destruct (isspace c) eqn:E; [done|]. cbn [strip]. done.
Qed.

Lemma pton_loop_strip src : forall st k t n,
  pton_loop (strip src) st k t n =
  match pton_loop src st k t n with
  | Some (st, k, t, pad) => Some (st, k, t, option_map strip pad)
  | None => None
  end.
Proof.
  induction src as [|c src IH]; intros; [done|]. cbn [strip pton_loop].
  destruct (isspace c) eqn:E; [apply IH|]. cbn [pton_loop]. rewrite E.
  destruct (c =? Pad64); [done|]. destruct (strchr Base64 c) as [v|]; [|done].
  cbn [mbind option_bind]. destruct (pton_digit st k t n v) as [[[st' k'] t']|]; [|done]. apply IH.
Qed.

Lemma pton_tail_strip rest k t : pton_tail (strip rest) k t = pton_tail rest k t.
Proof.
  unfold pton_tail. rewrite (skip_spaces_id (strip rest)) by apply strip_nospace.
  rewrite skip_spaces_strip. by destruct (skip_spaces rest).
Qed.

Lemma pton_finish_strip st k t pad :
  pton_finish (st, k, t, option_map strip pad) = pton_finish (st, k, t, pad).
Proof.
  destruct pad as [rest|]; [|done]. cbn [pton_finish option_map].
  rewrite pton_tail_strip, (skip_spaces_id (strip rest)) by apply strip_nospace.
  rewrite (skip_spaces_strip rest). destruct (skip_spaces rest) as [|c r]; [done|].
  by rewrite pton_tail_strip.
Qed.

(** White space anywhere changes nothing. *)
Lemma b64_pton_strip src t n : b64_pton (strip src) t n = b64_pton src t n.
Proof.
  unfold b64_pton. rewrite pton_loop_strip.
  destruct (pton_loop src 0 0 t n) as [[[[st k] t'] pad]|]; [|done].
  apply pton_finish_strip.
Qed.

(** ** Round trips *)

(** What [b64_ntop] writes, [b64_pton] reads back to the same bytes, even
    with white space inserted anywhere. *)
Theorem b64_roundtrip bs targsize s s' t :
  bytes_ok bs -> 0 <= targsize -> b64_ntop bs targsize = Some s -> strip s' = s ->
  zlen s <= zlen t <= 2 ^ 31 ->
  exists post, b64_pton s' (Some t) (zlen t) = Some (zlen bs, Some (bs ++ post)).
Proof.
  intros Hok Hn E Hs Ht. rewrite b64_ntop_spec in E by done.
  destruct (_ <? _); [|done]. injection E as <-.
  rewrite <- b64_pton_strip, Hs. by apply (pton_enc bs Hok [] t).
Qed.

Lemma b64_roundtrip_witness : exists post,
  b64_pton (str "bGln aHQgdw==") (Some (zeros 13)) (zlen (zeros 13)) =
  Some (zlen (str "light w"), Some (str "light w" ++ post)).
Proof.
  apply (b64_roundtrip (str "light w") 13 (str "bGlnaHQgdw==")).
  - repeat constructor; vm_compute; discriminate.
  - lia.
  - reflexivity.
  - reflexivity.
  - vm_compute. split; discriminate.
Defined.

(** C32: [b64_pton] accepts nothing else: a string it decodes is, white space
    aside, exactly what [b64_ntop] writes for the decoded bytes. Padding and
    the unused low bits carry no hidden data. *)
Theorem b64_canonical s t m t' :
  zlen s <= zlen t <= 2 ^ 31 -> b64_pton s (Some t) (zlen t) = Some (m, Some t') ->
  0 <= m <= zlen t' /\ b64_ntop (slice t' 0 m) (zlen s + 1) = Some (strip s).
Proof.
  intros Ht R. pose proof (strip_le s). rewrite <- b64_pton_strip in R.
  apply (pton_sound_aux (length (strip s)) (strip s) [] t) in R as (bs & post & Hok & Hs & -> & [= ->]);
    [|done|apply strip_nospace|split; rewrite ?app_nil_l; lia].
  pose proof (zlen_nonneg bs). pose proof (zlen_nonneg s). pose proof (zlen_nonneg post). rewrite zlen_app.
  change (zlen []) with 0. rewrite Z.add_0_l, slice_prefix. split; [lia|].
  rewrite Hs in *. rewrite b64_ntop_spec by lia. by rewrite (proj2 (Z.ltb_lt _ _)) by lia.
Qed.

Lemma b64_canonical_witness :
  0 <= 1 <= zlen [105; 0; 0; 0; 0; 0; 0] /\
  b64_ntop (slice [105; 0; 0; 0; 0; 0; 0] 0 1) (zlen (str "aQ = =") + 1) = Some (strip (str "aQ = =")).
Proof.
  apply (b64_canonical (str "aQ = =") (zeros 7) 1 [105; 0; 0; 0; 0; 0; 0]).
  - vm_compute. split; discriminate.
  - reflexivity.
Defined.
