(* ===== verification/SshbufMisc.v ===== *)
(** * Encodings and searches on buffers: [sshbuf-misc.c]

    Hexadecimal and base64 conversions, comparison, search, and
    [sshbuf_get_nulterminated_string] of [sshbuf-getput-basic.c]. Strings the
    functions allocate are values; each allocation can fail. *)

From S2P Require Import Prelude Ssherr Sshbuf SshbufGetput Base64.

(** ** Hexadecimal *)

Definition hex : list Z := Eval vm_compute in str "0123456789abcdef".

Definition hexdig (v : Z) : Z := nth (Z.to_nat v) hex 0.

Definition b16_of (bs : list Z) : list Z :=
  concat ((fun b => [hexdig (Z.land (Z.shiftr b 4) 0xf); hexdig (Z.land b 0xf)]) <$> bs).

Definition sshbuf_dtob16 (buf : bufp) : HM (option (list Z)) :=
  len ← sshbuf_len buf;
  p ← sshbuf_ptr buf;
  if len =? 0 then
    ok ← alloc_ok; mret (if (ok : bool) then Some [] else None)
  else match p with
  | None => mret None
  | Some p =>
      if SIZE_MAX / 2 <=? len then mret None
      else
        ok ← alloc_ok;
        if negb ok then mret None
        else bs ← load p len; mret (Some (b16_of bs))
  end.

Definition b16tod (v : Z) : Z :=
  if (chr "0" <=? v) && (v <=? chr "9") then v - chr "0"
  else if (chr "a" <=? v) && (v <=? chr "f") then 10 + v - chr "a"
  else if (chr "A" <=? v) && (v <=? chr "F") then 10 + v - chr "A"
  else -1.

(** The loop over the string; [false] when the caller frees the buffer and
    returns NULL. Past the last character [b16[o + 1]] is the NUL. *)
Fixpoint b16tod_loop (ret : bufp) (b16 : list Z) : HM bool :=
  match b16 with
  | [] => mret true
  | c1 :: rest =>
      let c2 := default 0 (head rest) in
      if (b16tod c1 =? -1) || (b16tod c2 =? -1) then mret false
      else
        r ← try_ (sshbuf_put_u8 ret (u8 (Z.lor (Z.shiftl (b16tod c1) 4) (b16tod c2))));
        match r, rest with
        | inl _, _ => mret false
        | inr _, _ :: rest' => b16tod_loop ret rest'
        | inr _, [] => mret true
        end
  end.

Definition sshbuf_b16tod (b16 : list Z) : HM (option bufp) :=
  ret ← sshbuf_new;
  match ret with
  | None => mret None
  | Some ret =>
      ok ← b16tod_loop ret b16;
      if (ok : bool) then mret (Some ret)
      else sshbuf_free (Some ret);; mret None
  end.

(** ** Base64 *)

(** The copy with a newline after every 70th character; [i] counts them. *)
Fixpoint dtob64_wrap (b64 : bufp) (s : list Z) (i : Z) : HM unit :=
  match s with
  | [] => if negb (sizet (i - 1) mod 70 =? 69) then sshbuf_put_u8 b64 10 else mret tt
  | c :: s =>
      sshbuf_put_u8 b64 c;;
      (if i mod 70 =? 69 then sshbuf_put_u8 b64 10 else mret tt);;
      dtob64_wrap b64 s (i + 1)
  end.

Definition sshbuf_dtob64 (d b64 : bufp) (wrap : bool) : HM unit :=
  n ← sshbuf_len d;
  if n >=? SIZE_MAX / 2 then throw SSH_ERR_INVALID_ARGUMENT
  else if n =? 0 then mret tt
  else
    let slen := (n + 2) / 3 * 4 + 1 in
    ok ← alloc_ok;
    if negb ok then throw SSH_ERR_ALLOC_FAIL
    else
      p ← sshbuf_ptr d;
      bs ← src_load (SrcPtr p) n;
      match b64_ntop bs slen with
      | None => throw SSH_ERR_INTERNAL_ERROR
      | Some s =>
          if wrap then dtob64_wrap b64 s 0
          else sshbuf_put b64 (SrcBytes s) (zlen s)
      end.

(** A copy of the buffer as a C string, without its NUL. *)
Definition sshbuf_dup_string (buf : bufp) : HM (option (list Z)) :=
  s ← sshbuf_ptr buf;
  l ← sshbuf_len buf;
  match s with
  | None => mret None
  | Some s =>
      if l >=? SIZE_MAX then mret None
      else
        bs ← (if l >? 0 then load s l else mret []);
        match memchr bs 0 with
        | Some z =>
            if negb (z =? l - 1) then mret None
            else ok ← alloc_ok; mret (if (ok : bool) then Some (slice bs 0 (l - 1)) else None)
        | None => ok ← alloc_ok; mret (if (ok : bool) then Some bs else None)
        end
  end.

Definition sshbuf_dtob64_string (buf : bufp) (wrap : bool) : HM (option (list Z)) :=
  tmp ← sshbuf_new;
  match tmp with
  | None => mret None
  | Some tmp =>
      r ← try_ (sshbuf_dtob64 buf tmp wrap);
      match r with
      | inl _ => sshbuf_free (Some tmp);; mret None
      | inr _ =>
          ret ← sshbuf_dup_string tmp;
          sshbuf_free (Some tmp);;
          mret ret
      end
  end.

(** [junk n]: what a fresh block of [n] bytes holds. *)
Definition sshbuf_b64tod (junk : Z -> list Z) (buf : bufp) (b64 : list Z) : HM unit :=
  let plen := zlen b64 in
  if plen =? 0 then mret tt
  else
    ok ← alloc_ok;
    if negb ok then throw SSH_ERR_ALLOC_FAIL
    else
      match b64_pton b64 (Some (junk plen)) plen with
      | Some (n, Some p) =>
          let nlen := i32 n in
          if nlen <? 0 then throw SSH_ERR_INVALID_FORMAT
          else sshbuf_put buf (SrcBytes p) nlen
      | _ => throw SSH_ERR_INVALID_FORMAT
      end.

(** [sshbuf_ptr(b)[l - 1]] *)
Definition last_byte (b : bufp) (l : Z) : HM Z :=
  p ← sshbuf_ptr b;
  bs ← src_load (SrcPtr ((fun p => ptr_add p (l - 1)) <$> p)) 1;
  mret (byte_at bs 0).

(** The loop that removes padding; it shortens the buffer each time round, so
    its length is enough fuel. *)
Fixpoint strip_padding (fuel : nat) (b : bufp) : HM unit :=
  match fuel with
  | O => crash
  | S fuel =>
      l ← sshbuf_len b;
      p ← sshbuf_ptr b;
      if (l <=? 1) || bool_decide (p = None) then throw SSH_ERR_INTERNAL_ERROR
      else
        c ← last_byte b l;
        if negb (c =? chr "=") then mret tt
        else sshbuf_consume_end b 1;; strip_padding fuel b
  end.

Definition url_char (c : Z) : Z :=
  if c =? chr "+" then chr "-" else if c =? chr "/" then chr "_" else c.

(** What is done with the temporary buffer before it is freed. *)
Definition dtourlb64_body (d b64 b : bufp) (wrap : bool) : HM unit :=
  sshbuf_dtob64 d b wrap;;
  n ← sshbuf_len b;
  strip_padding (S (Z.to_nat n)) b;;
  l ← sshbuf_len b;
  q ← sshbuf_mutable_ptr b;
  match q with
  | None => throw SSH_ERR_INTERNAL_ERROR
  | Some q =>
      bs ← load q l;
      store q (url_char <$> bs);;
      sshbuf_putb b64 (Some b)
  end.

Definition sshbuf_dtourlb64 (d b64 : bufp) (wrap : bool) : HM unit :=
  n ← sshbuf_len d;
  if n =? 0 then mret tt
  else
    b ← sshbuf_new;
    match b with
    | None => throw SSH_ERR_ALLOC_FAIL
    | Some b =>
        r ← try_ (dtourlb64_body d b64 b wrap);
        sshbuf_free (Some b);;
        match r with inl e => throw e | inr _ => mret tt end
    end.

(** ** Comparison and search *)

Definition sshbuf_cmp (b : bufp) (offset : Z) (s : list Z) : HM unit :=
  let len := zlen s in
  p ← sshbuf_ptr b;
  match p with
  | None => throw SSH_ERR_INTERNAL_ERROR
  | Some p =>
      if (offset >? SSHBUF_SIZE_MAX) || (len >? SSHBUF_SIZE_MAX) || (len =? 0)
      then throw SSH_ERR_INVALID_ARGUMENT
      else
        n ← sshbuf_len b;
        if sizet (offset + len) >? n then throw SSH_ERR_MESSAGE_INCOMPLETE
        else
          bs ← load (ptr_add p offset) len;
          if negb (bool_decide (bs = s)) then throw SSH_ERR_INVALID_FORMAT else mret tt
  end.

Definition sshbuf_equals (a b : bufp) : HM unit :=
  p ← sshbuf_ptr a;
  q ← sshbuf_ptr b;
  match p, q with
  | Some p, Some q =>
      la ← sshbuf_len a;
      lb ← sshbuf_len b;
      if negb (la =? lb) then throw SSH_ERR_MESSAGE_INCOMPLETE
      else if la =? 0 then mret tt
      else
        x ← load p la;
        y ← load q la;
        if negb (bool_decide (x = y)) then throw SSH_ERR_INVALID_FORMAT else mret tt
  | _, _ => throw SSH_ERR_INTERNAL_ERROR
  end.

(** [memmem]: the offset of the first occurrence of [s]. *)
Fixpoint memmem (l s : list Z) : option Z :=
  if bool_decide (s `prefix_of` l) then Some 0
  else match l with
       | [] => None
       | _ :: l' => Z.succ <$> memmem l' s
       end.

Definition sshbuf_find (b : bufp) (start_offset : Z) (s : list Z) : HM Z :=
  let len := zlen s in
  p ← sshbuf_ptr b;
  match p with
  | None => throw SSH_ERR_INTERNAL_ERROR
  | Some p =>
      if (start_offset >? SSHBUF_SIZE_MAX) || (len >? SSHBUF_SIZE_MAX) || (len =? 0)
      then throw SSH_ERR_INVALID_ARGUMENT
      else
        n ← sshbuf_len b;
        if (start_offset >? n) || (sizet (start_offset + len) >? n)
        then throw SSH_ERR_MESSAGE_INCOMPLETE
        else
          bs ← load (ptr_add p start_offset) (n - start_offset);
          match memmem bs s with
          | None => throw SSH_ERR_INVALID_FORMAT
          | Some o => mret (start_offset + o)
          end
  end.

(** [read_]: the outcome of [read(fd, d, maxlen)], [None] for a return of -1,
    otherwise the bytes stored at [d]. *)
Definition sshbuf_read (read_ : option (list Z)) (buf : bufp) (maxlen : Z) : HM Z :=
  d ← sshbuf_reserve buf maxlen;
  let data := default [] read_ in
  store d data;;
  let adjust := maxlen - zlen data in
  (if negb (adjust =? 0) then
     catch (sshbuf_consume_end buf adjust) (fun _ =>
       store (ptr_add d (if read_ is Some data then zlen data else -1)) (zeros adjust);;
       throw SSH_ERR_INTERNAL_ERROR)
   else mret tt);;
  match read_ with
  | None => throw SSH_ERR_SYSTEM_ERROR
  | Some data => if zlen data =? 0 then throw SSH_ERR_SYSTEM_ERROR else mret (zlen data)
  end.

(** ** NUL-terminated strings in a buffer *)

(** [strdup(sshbuf_ptr(buf))]: the bytes before the first NUL of the [n] bytes
    of the buffer; reading on past them is outside the buffer. *)
Definition strdup_buf (buf : bufp) : HM (list Z) :=
  p ← sshbuf_ptr buf;
  n ← sshbuf_len buf;
  bs ← src_load (SrcPtr p) n;
  match memchr bs 0 with
  | None => crash
  | Some z =>
      ok ← alloc_ok;
      if negb ok then throw SSH_ERR_ALLOC_FAIL else mret (slice bs 0 z)
  end.

Definition sshbuf_get_nulterminated_string (buf : bufp) (maxlen : Z) : HM (list Z * Z) :=
  r ← try_ (sshbuf_find buf 0 [0]);
  match r with
  | inl e =>
      n ← sshbuf_len buf;
      if (e =? SSH_ERR_INVALID_FORMAT) && (n <? maxlen) then throw SSH_ERR_MESSAGE_INCOMPLETE
      else throw e
  | inr len =>
      if len >? maxlen then throw SSH_ERR_INVALID_FORMAT
      else
        val ← strdup_buf buf;
        sshbuf_consume buf (sizet (len + 1));;
        mret (val, len)
  end.
