(* ===== verification/SshbufMiscThms.v ===== *)
(** * Properties of [sshbuf-misc.c]: conversions round-trip, searches find *)

From S2P Require Import Prelude Ssherr Sshbuf SshbufInv SshbufOps SshbufLife SshbufGetput.
From S2P Require Import SshbufWire SshbufWire2 SshbufThms SshbufMsg Cstring Base64 SshbufMisc.

(** ** Shared steps *)

Lemma append_ok {rc h i s c bs} (m : HM unit) :
  append_outcome rc h i s c bs (m h) -> no_oom h -> mutable s = true ->
  zlen bs + zlen c <= sb_max_size s ->
  exists h', m h = (Ok tt, h') /\ eff rc i h h' /\ contents h' i = Some (c ++ bs).
Proof.
  unfold append_outcome. intros O Hn MUT Hfit.
  destruct (m h) as [[[]|e|] h'] eqn:R; destruct O as [E O]; [|exfalso|done].
  - destruct O as [C _]. eauto.
  - destruct O as (_ & [[_ Ho]|[[_ ?]|[_ ?]]]); [by apply (no_oom_ex h)|congruence|lia].
Qed.

Lemma run_alloc_ok h : no_oom h -> alloc_ok h = (Ok true, set_tick h).
Proof. intros Hn. unfold alloc_ok. by rewrite Hn. Qed.

Lemma no_oom_tick h : no_oom h -> no_oom (set_tick h).
Proof. done. Qed.

(** All the bytes of a buffer, loaded from its pointer. *)
Lemma run_load_all {rc h i s p l} (V : view rc h i s p l) h' : h_mem h' = h_mem h ->
  load (ptr_add p (sb_off s)) (sb_size s - sb_off s) h' = (Ok (cur s p l), h').
Proof.
  intros Hm. pose proof (view_bounds V) as B. pose proof (zlen_cur V) as Z.
  replace (ptr_add p (sb_off s)) with (ptr_add (ptr_add p (sb_off s)) 0)
    by (unfold ptr_add; cbn; f_equal; lia).
  rewrite (run_load_after V) by (done || lia). by rewrite <- Z, slice_full.
Qed.

Lemma new_no_oom rc h : heap_inv rc h -> no_oom h ->
  exists b h' s, sshbuf_new h = (Ok (Some b), h') /\ h_bufs h !! b = None /\
    heap_inv (rc_add rc b 1) h' /\ extends h h' /\ no_oom h' /\ contents h' b = Some [] /\
    h_bufs h' !! b = Some s /\ mutable s = true /\ sb_max_size s = SSHBUF_SIZE_MAX.
Proof.
  intros INV Hn.
  assert (exists b h', sshbuf_new h = (Ok (Some b), h') /\ no_oom h') as (b0 & h0 & R0 & Hn0).
  { unfold sshbuf_new, new_buf, new_block, modify_buf, fmap, M_fmap, mbind, M_bind, alloc_ok.
    rewrite Hn. cbn. rewrite Hn. cbn. unfold deref. cbn. rewrite lookup_insert_eq. cbn.
    by eexists _, _. }
  destruct (run_new rc h INV) as [(h' & R & _)|(b & h' & R & F & I & X & C & s & Hs & MUT & MX)];
    [congruence|].
  rewrite R in R0. injection R0 as -> ->. by exists b0, h0, s.
Qed.

(** ** Hexadecimal *)

Lemma nibble_cases (P : Z -> Prop) :
  Forall P (Z.of_nat <$> seq 0 16) -> forall v, 0 <= v < 16 -> P v.
Proof.
  intros HP v Hv. rewrite Forall_forall in HP. apply HP, list_elem_of_fmap.
  exists (Z.to_nat v). split; [lia|]. apply elem_of_seq. lia.
Qed.

Lemma b16tod_hexdig v : 0 <= v < 16 -> b16tod (hexdig v) = v.
Proof. revert v. apply nibble_cases. repeat constructor. Qed.

Lemma nibbles b : byte_ok b ->
  0 <= Z.land (Z.shiftr b 4) 0xf < 16 /\ 0 <= Z.land b 0xf < 16 /\
  Z.lor (Z.shiftl (Z.land (Z.shiftr b 4) 0xf) 4) (Z.land b 0xf) = b.
Proof.
  unfold byte_ok. intros Hb. change 0xf with (Z.ones 4).
  rewrite !Z.land_ones, Z.shiftr_div_pow2 by lia. change (2 ^ 4) with 16.
  split_and!; [dlia..|]. rewrite lor_shifted by (change (2 ^ 4) with 16; dlia).
  change (2 ^ 4) with 16. dlia.
Qed.

Lemma b16_of_cons b bs :
  b16_of (b :: bs) = hexdig (Z.land (Z.shiftr b 4) 0xf) :: hexdig (Z.land b 0xf) :: b16_of bs.
Proof. done. Qed.

Lemma run_b16tod_loop bs : forall rc h i s p l, view rc h i s p l -> bytes_ok bs -> no_oom h ->
  mutable s = true -> zlen bs + zlen (cur s p l) <= sb_max_size s ->
  exists h', b16tod_loop i (b16_of bs) h = (Ok true, h') /\ eff rc i h h' /\
    contents h' i = Some (cur s p l ++ bs).
Proof.
  induction bs as [|b bs IH]; intros rc h i s p l V Hok Hn MUT Hfit.
  - exists h. rewrite app_nil_r, (view_contents V). split_and!; [done| |done].
    apply eff_refl; [apply V|]. rewrite (v_buf _ _ _ _ _ _ V). eauto.
  - apply Forall_cons in Hok as [Hb Hok]. destruct (nibbles b Hb) as (Hhi & Hlo & E).
    rewrite zlen_cons in Hfit. pose proof (zlen_nonneg bs).
    destruct (put_field_ok V (FUint W8 b) Hb Hn MUT) as (s1 & p1 & l1 & h1 & R1 & E1 & V1 & M1 & X1 & C1).
    { cbn [wire_field]. rewrite zlen_poke. cbn [width_bytes]. lia. }
    cbn [put_field put_uint wire_field poke] in R1, C1. rewrite wrap_small in C1 by done.
    destruct (IH rc h1 i s1 p1 l1 V1 Hok (no_oom_eff _ _ _ _ Hn E1) M1) as (h2 & R2 & E2 & C2).
    { rewrite C1, zlen_app, zlen_cons, zlen_nil. lia. }
    exists h2. split_and!; [|by eapply eff_trans|by rewrite C2, C1, <- app_assoc].
    rewrite b16_of_cons. cbn [b16tod_loop head default from_option id]. unfold id.
    rewrite !b16tod_hexdig by done.
    rewrite !(proj2 (Z.eqb_neq _ _)) by lia. cbn [orb]. rewrite E, wrap_small by done.
    rewrite (bind_ok _ _ _ (inr tt) h1); [done|]. unfold try_. by rewrite R1.
Qed.

Lemma run_dtob16 {rc h i s p l} (V : view rc h i s p l) : no_oom h ->
  sshbuf_dtob16 i h = (Ok (Some (b16_of (cur s p l))), set_tick h).
Proof.
  intros Hn. unfold sshbuf_dtob16. mstep (run_len V). mstep (run_ptr V).
  pose proof (zlen_cur V) as Z. pose proof (view_bounds V) as B.
  destruct (Z.eqb_spec (sb_size s - sb_off s) 0) as [H0|H0].
  - mstep (run_alloc_ok h Hn). destruct (cur s p l); [done|]. rewrite zlen_cons in Z.
    pose proof (zlen_nonneg l0). lia.
  - rewrite (proj2 (Z.leb_gt _ _)) by (change (SIZE_MAX / 2) with (2 ^ 63 - 1); lia).
    mstep (run_alloc_ok h Hn). cbn [negb]. by mstep (run_load_all V (set_tick h) eq_refl).
Qed.

(** The hexadecimal form of a buffer's bytes, parsed again, is a fresh
    buffer that holds the same bytes. *)
Theorem b16_roundtrip rc h i c :
  heap_inv rc h -> 1 <= rc i -> no_oom h -> contents h i = Some c ->
  exists text h1 b h2, sshbuf_dtob16 i h = (Ok (Some text), h1) /\
    sshbuf_b16tod text h1 = (Ok (Some b), h2) /\ h_bufs h !! b = None /\
    heap_inv (rc_add rc b 1) h2 /\ contents h2 b = Some c.
Proof.
  intros INV Hrc Hn Hc. destruct (contents_view INV Hrc Hc) as (s & p & l & V & <-).
  exists (b16_of (cur s p l)), (set_tick h). unfold sshbuf_b16tod.
  destruct (new_no_oom rc (set_tick h)) as (b & h1 & sb & R & F & I & _ & Hn1 & C1 & Hs & MUT & MX);
    [by apply inv_tick|done|].
  assert (1 <= rc_add rc b 1 b) as Hb.
  { unfold rc_add. rewrite decide_True by done. pose proof (inv_rc _ _ INV b). lia. }
  destruct (contents_view I Hb C1) as (s1 & p1 & l1 & V1 & Hcur).
  rewrite (v_buf _ _ _ _ _ _ V1) in Hs. injection Hs as ->.
  destruct (run_b16tod_loop (cur s p l) _ _ _ _ _ _ V1 (bytes_ok_cur V) Hn1 MUT) as (h2 & R2 & E2 & C2).
  { rewrite Hcur, zlen_nil, MX, (zlen_cur V). pose proof (view_bounds V). unfold SSHBUF_SIZE_MAX. lia. }
  exists b, h2. split_and!; [by apply (run_dtob16 V)| |done|apply E2|by rewrite C2, Hcur].
  mstep R. by mstep R2.
Qed.

Lemma b16_roundtrip_witness :
  exists text h1 b h2, sshbuf_dtob16 2 demo.2 = (Ok (Some text), h1) /\
    sshbuf_b16tod text h1 = (Ok (Some b), h2) /\ h_bufs demo.2 !! b = None /\
    heap_inv (rc_add demo.1 b 1) h2 /\ contents h2 b = Some (str "xyz").
Proof.
  apply (b16_roundtrip demo.1 demo.2 2%nat).
  - apply reach_inv, demo_reach.
  - vm_compute. discriminate.
  - intros n. vm_compute. reflexivity.
  - vm_compute. reflexivity.
Defined.

(** ** Base64 *)

(** The text with its newlines. *)
Fixpoint wrap_text (s : list Z) (i : Z) : list Z :=
  match s with
  | [] => if negb (sizet (i - 1) mod 70 =? 69) then [10] else []
  | c :: s => c :: (if i mod 70 =? 69 then [10] else []) ++ wrap_text s (i + 1)
  end.

Lemma strip_app s t : strip (s ++ t) = strip s ++ strip t.
Proof. induction s as [|c s IH]; [done|]. cbn. rewrite IH. by destruct (isspace c). Qed.

Lemma strip_wrap_text s : forall i, strip (wrap_text s i) = strip s.
Proof.
  induction s as [|c s IH]; intros i; cbn [wrap_text]; [by case_match|].
  cbn [strip]. rewrite strip_app, IH. by destruct (isspace c), (i mod 70 =? 69).
Qed.

Lemma zlen_wrap_text s : forall i, zlen s <= zlen (wrap_text s i) <= 2 * zlen s + 1.
Proof.
  induction s as [|c s IH]; intros i; cbn [wrap_text]; [case_match; rewrite ?zlen_cons, ?zlen_nil; lia|].
  rewrite !zlen_cons, zlen_app. specialize (IH (i + 1)).
  destruct (i mod 70 =? 69); rewrite ?zlen_cons, ?zlen_nil; lia.
Qed.

Lemma bytes_ok_wrap_text s : bytes_ok s -> forall i, bytes_ok (wrap_text s i).
Proof.
  intros Hok. induction Hok as [|c s Hc _ IH]; intros i; cbn [wrap_text].
  - case_match; repeat constructor; lia.
  - constructor; [done|]. apply bytes_ok_app. split; [|done].
    case_match; repeat constructor; lia.
Qed.

Definition put_bytes (i : bufp) (bs : list Z) : HM unit := put_fields i (FUint W8 <$> bs).

Lemma put_fields_app i fs gs h :
  put_fields i (fs ++ gs) h = (put_fields i fs;; put_fields i gs) h.
Proof.
  revert h. induction fs as [|f fs IH]; intros h; [done|]. cbn [app put_fields].
  unfold mbind, M_bind in *. destruct (put_field i f h) as [[[]|e|] h1]; [|done..]. apply IH.
Qed.

Lemma dtob64_wrap_puts b s : forall i h, dtob64_wrap b s i h = put_bytes b (wrap_text s i) h.
Proof.
  assert (forall v h, sshbuf_put_u8 b v h = put_bytes b [v] h) as P1.
  { intros v h. unfold put_bytes. cbn [fmap list_fmap put_fields put_field put_uint].
    unfold mbind, M_bind. by destruct (sshbuf_put_u8 b v h) as [[[]|e|] h1]. }
  induction s as [|c s IH]; intros i h; cbn [dtob64_wrap wrap_text].
  - case_match; [apply P1|done].
  - unfold put_bytes in *. rewrite fmap_cons, fmap_app.
    cbn [put_fields put_field put_uint]. unfold mbind, M_bind.
    destruct (sshbuf_put_u8 b c h) as [[[]|e|] h1]; [|done..].
    rewrite put_fields_app. unfold mbind, M_bind. destruct (i mod 70 =? 69).
    + rewrite P1. destruct (put_fields b (FUint W8 <$> [10]) h1) as [[[]|e|] h2]; [|done..]. apply IH.
    + cbn. apply IH.
Qed.

Lemma wire_bytes bs : bytes_ok bs -> wire (FUint W8 <$> bs) = bs.
Proof.
  induction 1 as [|b bs Hb _ IH]; [done|]. rewrite fmap_cons, wire_cons, IH. cbn.
  by rewrite wrap_small.
Qed.

Lemma digit_ok v : byte_ok (digit v).
Proof.
  unfold digit. assert (bytes_ok Base64) as Hb by (repeat constructor; vm_compute; discriminate).
  destruct (nth_in_or_default (Z.to_nat v) Base64 0) as [Hin| ->]; [|unfold byte_ok; lia].
  apply list_elem_of_In in Hin. unfold bytes_ok in Hb. rewrite Forall_forall in Hb. by apply Hb.
Qed.

Lemma enc_ok bs : bytes_ok (enc bs).
Proof.
  assert (byte_ok Pad64) by (vm_compute; split; congruence).
  induction bs as [|a|a b|a b c l IH] using list_ind3; cbn [enc];
    repeat (apply Forall_cons; split; [done || apply digit_ok|]); done || constructor.
Qed.

Lemma enc_nospace bs : bytes_ok bs -> strip (enc bs) = enc bs.
Proof.
  intros Hok. apply strip_id. assert (byte_ok 0) by (unfold byte_ok; lia).
  assert (forall v, 0 <= v < 64 -> isspace (digit v) = false) as D by (intros; by apply digit_props).
  induction bs as [|a|a b|a b c l IH] using list_ind3; cbn [enc].
  - constructor.
  - apply Forall_cons in Hok as [Ha _]. pose proof (output_range a 0).
    repeat (apply Forall_cons; split; [done || apply D; tauto|]). constructor.
  - apply Forall_cons in Hok as [Ha [Hb _]%Forall_cons]. pose proof (output_range a b). pose proof (output_range b 0).
    repeat (apply Forall_cons; split; [done || apply D; tauto|]). constructor.
  - apply Forall_cons in Hok as [Ha [Hb [Hc Hl]%Forall_cons]%Forall_cons].
    pose proof (output_range a b). pose proof (output_range b c). pose proof (output_range c c).
    repeat (apply Forall_cons; split; [apply D; tauto|]). by apply IH.
Qed.

(** The text [sshbuf_dtob64] appends. *)
Definition b64_text (wrap : bool) (c : list Z) : list Z :=
  if wrap then wrap_text (enc c) 0 else enc c.

Lemma b64_text_size wrap c : zlen (b64_text wrap c) <= 4 * zlen c + 10.
Proof.
  pose proof (zlen_nonneg c). pose proof (zlen_enc c). unfold b64_text.
  destruct wrap; [pose proof (zlen_wrap_text (enc c) 0)|]; dlia.
Qed.

Lemma cur_empty {rc h i s p l} (V : view rc h i s p l) :
  sb_size s - sb_off s = 0 -> cur s p l = [].
Proof.
  intros H0. pose proof (zlen_cur V) as Z. destruct (cur s p l); [done|].
  rewrite zlen_cons in Z. pose proof (zlen_nonneg l0). lia.
Qed.

Lemma run_put_bytes {rc h i s p l} (V : view rc h i s p l) bs :
  bytes_ok bs -> no_oom h -> mutable s = true -> zlen bs + zlen (cur s p l) <= sb_max_size s ->
  exists h', put_bytes i bs h = (Ok tt, h') /\ eff rc i h h' /\ contents h' i = Some (cur s p l ++ bs).
Proof.
  intros Hok Hn MUT Hfit.
  destruct (put_fields_ok (FUint W8 <$> bs) rc h i s p l V) as (s' & p' & l' & h' & R & E & V' & C);
    [|done|done|by rewrite wire_bytes|].
  - apply Forall_fmap. eapply Forall_impl; [exact Hok|]. done.
  - exists h'. rewrite wire_bytes in C by done. split_and!; auto. by rewrite (view_contents V'), C.
Qed.

Lemma run_dtob64 {rc h d b s p l t q k} wrap (V : view rc h d s p l) (W : view rc h b t q k) :
  no_oom h -> mutable t = true ->
  zlen (b64_text wrap (cur s p l)) + zlen (cur t q k) <= sb_max_size t -> cur s p l <> [] ->
  exists h', sshbuf_dtob64 d b wrap h = (Ok tt, h') /\ eff rc b h h' /\
    contents h' b = Some (cur t q k ++ b64_text wrap (cur s p l)).
Proof.
  intros Hn MUT Hfit Hne. unfold sshbuf_dtob64. mstep (run_len V).
  pose proof (view_bounds V) as B. pose proof (zlen_cur V) as Z.
  assert (sb_size s - sb_off s <> 0) as H0 by (intros H0; by apply Hne, (cur_empty V)).
  rewrite Z.geb_leb, (proj2 (Z.leb_gt _ _)) by (change (SIZE_MAX / 2) with (2 ^ 63 - 1); lia).
  rewrite (proj2 (Z.eqb_neq _ _)) by done. mstep (run_alloc_ok h Hn). cbn [negb].
  mstep (run_ptr (view_tick V)). cbn [src_load]. mstep (run_load_all V (set_tick h) eq_refl).
  rewrite b64_ntop_spec by dlia. rewrite zlen_enc, Z, (proj2 (Z.ltb_lt _ _)) by lia.
  pose proof (eff_tick rc h b (v_inv _ _ _ _ _ _ W)) as ET. rewrite (v_buf _ _ _ _ _ _ W) in ET.
  assert (exists h', put_bytes b (b64_text true (cur s p l)) (set_tick h) = (Ok tt, h') /\
            eff rc b (set_tick h) h' /\ contents h' b = Some (cur t q k ++ b64_text true (cur s p l)) \/
          wrap = false) as [h' X].
  { destruct wrap; [|by exists h; right].
    destruct (run_put_bytes (view_tick W) (b64_text true (cur s p l))) as (h' & R);
      [apply bytes_ok_wrap_text, enc_ok|done|done|done|by exists h'; left]. }
  destruct wrap.
  - destruct X as [(R & E & C)|]; [|done]. exists h'. rewrite dtob64_wrap_puts. split_and!; auto.
    eapply eff_trans; [apply ET|]; eauto.
  - pose proof (run_put (view_tick W) (SrcBytes (enc (cur s p l))) (enc (cur s p l)) (enc_ok _) eq_refl) as O.
    destruct (append_ok _ O Hn MUT Hfit) as (h2 & R & E & C). exists h2. split_and!; auto.
    eapply eff_trans; [apply ET|]; eauto.
Qed.

Lemma put_prefix i bs post h :
  sshbuf_put i (SrcBytes (bs ++ post)) (zlen bs) h = sshbuf_put i (SrcBytes bs) (zlen bs) h.
Proof.
  unfold sshbuf_put, mbind, M_bind. destruct (sshbuf_reserve i (zlen bs) h) as [[q|e|] h1]; [|done..].
  pose proof (zlen_nonneg bs). pose proof (zlen_nonneg post). case_match; [|done]. cbn [src_load].
  rewrite zlen_app, !(proj2 (Z.leb_le _ _)) by lia. cbn [andb]. by rewrite slice_prefix, slice_full.
Qed.

Lemma run_b64tod {rc h i s p l} (V : view rc h i s p l) junk text bs :
  (forall n, 0 <= n -> zlen (junk n) = n) -> bytes_ok bs -> strip text = enc bs -> bs <> [] ->
  zlen text <= SSHBUF_SIZE_MAX -> no_oom h -> mutable s = true ->
  zlen bs + zlen (cur s p l) <= sb_max_size s ->
  exists h', sshbuf_b64tod junk i text h = (Ok tt, h') /\ eff rc i h h' /\
    contents h' i = Some (cur s p l ++ bs).
Proof.
  intros Hj Hok Ht Hne Hl Hn MUT Hfit. unfold SSHBUF_SIZE_MAX in Hl. unfold sshbuf_b64tod.
  pose proof (zlen_enc bs) as Ze. pose proof (strip_le text) as Zs. rewrite Ht in Zs.
  assert (0 < zlen bs) as Hpos by (destruct bs; [done|]; rewrite zlen_cons; pose proof (zlen_nonneg bs); lia).
  rewrite (proj2 (Z.eqb_neq _ _)) by dlia. mstep (run_alloc_ok h Hn). cbn [negb].
  rewrite <- b64_pton_strip, Ht. destruct (pton_enc bs Hok [] (junk (zlen text))) as (post & E).
  { split; rewrite ?app_nil_l, Hj; dlia. }
  unfold pton_from in E. rewrite app_nil_l, Hj in E by dlia. unfold b64_pton.
  change (zlen []) with 0 in E. rewrite E. change (i32 (0 + zlen bs)) with (swrap 32 (zlen bs)).
  rewrite swrap_small by dlia. rewrite (proj2 (Z.ltb_ge _ _)) by lia.
  rewrite app_nil_l, put_prefix.
  destruct (append_ok _ (run_put (view_tick V) (SrcBytes bs) bs Hok eq_refl) Hn MUT Hfit) as (h' & R & EF & C).
  exists h'. split_and!; auto. eapply eff_trans; [apply eff_tick; [apply V|]|done].
  rewrite (v_buf _ _ _ _ _ _ V). eauto.
Qed.

(** Base64 through the buffers: the text [sshbuf_dtob64] appends for the
    bytes of [d], with or without line breaks, is decoded by [sshbuf_b64tod]
    to exactly those bytes, appended to the destination. *)
Theorem dtob64_b64tod_roundtrip rc h d b o wrap junk sb so c cb co :
  heap_inv rc h -> 1 <= rc d -> 1 <= rc b -> 1 <= rc o -> no_oom h ->
  b <> o -> (forall n, 0 <= n -> zlen (junk n) = n) ->
  contents h d = Some c -> contents h b = Some cb -> contents h o = Some co ->
  h_bufs h !! b = Some sb -> h_bufs h !! o = Some so -> mutable sb = true -> mutable so = true ->
  c <> [] -> 4 * zlen c + 10 + zlen cb <= sb_max_size sb -> zlen c + zlen co <= sb_max_size so ->
  exists text h1 h2, sshbuf_dtob64 d b wrap h = (Ok tt, h1) /\
    contents h1 b = Some (cb ++ text) /\
    sshbuf_b64tod junk o text h1 = (Ok tt, h2) /\ contents h2 o = Some (co ++ c).
Proof.
  intros INV Hd Hb Ho Hn Hbo Hj Cd Cb Co Sb So Mb Mo Hne Fb Fo.
  destruct (contents_view INV Hd Cd) as (s & p & l & V & <-).
  destruct (contents_view INV Hb Cb) as (t & q & k & W & <-).
  rewrite (v_buf _ _ _ _ _ _ W) in Sb. injection Sb as ->.
  pose proof (b64_text_size wrap (cur s p l)) as Hsz. pose proof (view_bounds W) as BW.
  destruct (run_dtob64 wrap V W) as (h1 & R1 & E1 & C1); [done|done|lia|done|].
  assert (contents h1 o = Some co) as Co1 by (rewrite (eff_contents rc b h); auto).
  assert (h_bufs h1 !! o = Some so) as So1 by (rewrite (eff_bufs _ _ _ _ E1); auto).
  destruct (contents_view (eff_inv _ _ _ _ E1) Ho Co1) as (u & r & m & U & <-).
  rewrite (v_buf _ _ _ _ _ _ U) in So1. injection So1 as ->.
  destruct (run_b64tod U junk (b64_text wrap (cur s p l)) (cur s p l)) as (h2 & R2 & E2 & C2);
    [done|apply (bytes_ok_cur V)| |done|pose proof (zlen_nonneg (cur sb q k)); unfold SSHBUF_SIZE_MAX; lia
    |by eapply no_oom_eff|done|done|].
  - unfold b64_text. destruct wrap; rewrite ?strip_wrap_text; apply enc_nospace, (bytes_ok_cur V).
  - by exists (b64_text wrap (cur s p l)), h1, h2.
Qed.

Definition demo_three : (nat -> Z) * heap :=
  after [CNew; CPut 0 (str "xyz!"); CNew; CNew] (fun _ => 0, empty_heap).

Lemma demo_three_inv : heap_inv demo_three.1 demo_three.2.
Proof.
  apply reach_inv, reach_after; [apply reach_init|]. repeat (split; [solve_valid|]). exact I.
Qed.

Lemma dtob64_b64tod_roundtrip_witness :
  exists text h1 h2, sshbuf_dtob64 0 2 true demo_three.2 = (Ok tt, h1) /\
    contents h1 2%nat = Some ([] ++ text) /\
    sshbuf_b64tod zeros 4 text h1 = (Ok tt, h2) /\ contents h2 4%nat = Some ([] ++ str "xyz!").
Proof.
  eapply (dtob64_b64tod_roundtrip demo_three.1 demo_three.2 0%nat 2%nat 4%nat true zeros).
  - apply demo_three_inv.
  - vm_compute. discriminate.
  - vm_compute. discriminate.
  - vm_compute. discriminate.
  - intros n. vm_compute. reflexivity.
  - discriminate.
  - apply zlen_zeros.
  - vm_compute. reflexivity.
  - vm_compute. reflexivity.
  - vm_compute. reflexivity.
  - vm_compute. reflexivity.
  - vm_compute. reflexivity.
  - vm_compute. reflexivity.
  - vm_compute. reflexivity.
  - discriminate.
  - vm_compute. discriminate.
  - vm_compute. discriminate.
Defined.

(** With line wrapping [sshbuf_dtourlb64] keeps the padding: the newline at
    the end of the text hides the pad characters from the loop that removes
    them, so the output is not the unpadded RFC 4648 form. Without wrapping the
    padding is removed. *)
Lemma dtourlb64_padding :
  contents (sshbuf_dtourlb64 0 2 false demo_three.2).2 2%nat = Some (str "eHl6IQ") /\
  contents (sshbuf_dtourlb64 0 2 true demo_three.2).2 2%nat = Some (str "eHl6IQ==" ++ [10]).
Proof. vm_compute. auto. Qed.

(** ** Searches *)

Lemma memmem_spec l s :
  match memmem l s with
  | Some o => 0 <= o <= zlen l /\ s `prefix_of` drop (Z.to_nat o) l /\
      forall k, 0 <= k < o -> ~ s `prefix_of` drop (Z.to_nat k) l
  | None => forall k, 0 <= k <= zlen l -> ~ s `prefix_of` drop (Z.to_nat k) l
  end.
Proof.
  induction l as [|x l IH]; cbn [memmem]; case_bool_decide as Hp.
  - split_and!; [done|done|done|lia].
  - intros k Hk. change (zlen []) with 0 in Hk. by replace k with 0 by lia.
  - split_and!; [done|apply zlen_nonneg|done|lia].
  - pose proof (zlen_nonneg l). rewrite zlen_cons.
    assert (forall k, 0 < k -> drop (Z.to_nat k) (x :: l) = drop (Z.to_nat (k - 1)) l) as D.
    { intros k Hk. by replace (Z.to_nat k) with (S (Z.to_nat (k - 1))) by lia. }
    destruct (memmem l s) as [o|]; cbn.
    + destruct IH as (Ho & Hpre & Hmin). rewrite D by lia.
      replace (Z.succ o - 1) with o by lia. split_and!; [lia|lia|done|].
      intros k Hk. destruct (decide (k = 0)) as [->|]; [done|]. rewrite D by lia. apply Hmin. lia.
    + intros k Hk. destruct (decide (k = 0)) as [->|]; [done|]. rewrite D by lia. apply IH. lia.
Qed.

Lemma run_find {rc h i s p l} (V : view rc h i s p l) start pat :
  0 <= start -> pat <> [] -> start <= SSHBUF_SIZE_MAX -> zlen pat <= SSHBUF_SIZE_MAX ->
  sshbuf_find i start pat h =
  (if (zlen (cur s p l) <? start + zlen pat) then Err SSH_ERR_MESSAGE_INCOMPLETE
   else match memmem (drop (Z.to_nat start) (cur s p l)) pat with
        | None => Err SSH_ERR_INVALID_FORMAT
        | Some o => Ok (start + o)
        end, h).
Proof.
  intros H0 Hne Hs Hp. unfold sshbuf_find. mstep (run_ptr V).
  assert (0 < zlen pat) as Hpos by (destruct pat; [done|]; rewrite zlen_cons; pose proof (zlen_nonneg pat); lia).
  rewrite !Z.gtb_ltb, !(proj2 (Z.ltb_ge _ _)) by lia. rewrite (proj2 (Z.eqb_neq _ _)) by lia. cbn [orb].
  mstep (run_len V). rewrite <- (zlen_cur V), !Z.gtb_ltb. unfold SSHBUF_SIZE_MAX in *. rewrite wrap_small by lia.
  destruct (Z.ltb_spec (zlen (cur s p l)) (start + zlen pat)); [by rewrite orb_true_r|].
  rewrite (proj2 (Z.ltb_ge _ _)) by lia. cbn [orb].
  rewrite (bind_ok _ _ _ (drop (Z.to_nat start) (cur s p l)) h); [by case_match|].
  rewrite (run_load_cur V) by lia. do 2 f_equal. unfold slice. apply take_ge.
  rewrite length_drop. unfold zlen. lia.
Qed.

(** [sshbuf_find] returns the first occurrence at or after the start
    offset, and reports SSH_ERR_INVALID_FORMAT only when there is none. *)
Theorem find_first rc h i c start pat :
  heap_inv rc h -> 1 <= rc i -> contents h i = Some c ->
  0 <= start -> pat <> [] -> start + zlen pat <= zlen c ->
  match sshbuf_find i start pat h with
  | (Ok o, h') => h' = h /\ start <= o /\ pat `prefix_of` drop (Z.to_nat o) c /\
      forall k, start <= k < o -> ~ pat `prefix_of` drop (Z.to_nat k) c
  | (Err e, h') => h' = h /\ e = SSH_ERR_INVALID_FORMAT /\
      forall k, start <= k <= zlen c -> ~ pat `prefix_of` drop (Z.to_nat k) c
  | (Crash, _) => False
  end.
Proof.
  intros INV Hrc Hc H0 Hne Hl. destruct (contents_view INV Hrc Hc) as (s & p & l & V & <-).
  pose proof (zlen_nonneg pat). pose proof (zlen_cur V). pose proof (view_bounds V).
  rewrite (run_find V) by (unfold SSHBUF_SIZE_MAX; done || lia).
  rewrite (proj2 (Z.ltb_ge _ _)) by lia.
  pose proof (memmem_spec (drop (Z.to_nat start) (cur s p l)) pat) as M.
  assert (forall k, start <= k -> drop (Z.to_nat (k - start)) (drop (Z.to_nat start) (cur s p l)) =
                                  drop (Z.to_nat k) (cur s p l)) as D.
  { intros k Hk. rewrite drop_drop. f_equal. lia. }
  destruct (memmem _ _) as [o|].
  - destruct M as (Ho & Hp & Hmin). split_and!; [done|lia| |].
    + rewrite <- D by lia. by replace (start + o - start) with o by lia.
    + intros k Hk. rewrite <- D by lia. apply Hmin. lia.
  - split_and!; [done|done|]. intros k Hk. rewrite <- D by lia. apply M.
    unfold zlen in *. rewrite length_drop. lia.
Qed.

Lemma find_first_witness :
  match sshbuf_find 2 1 (str "z") demo.2 with
  | (Ok o, h') => h' = demo.2 /\ 1 <= o /\ str "z" `prefix_of` drop (Z.to_nat o) (str "xyz") /\
      forall k, 1 <= k < o -> ~ str "z" `prefix_of` drop (Z.to_nat k) (str "xyz")
  | (Err e, h') => h' = demo.2 /\ e = SSH_ERR_INVALID_FORMAT /\
      forall k, 1 <= k <= zlen (str "xyz") -> ~ str "z" `prefix_of` drop (Z.to_nat k) (str "xyz")
  | (Crash, _) => False
  end.
Proof.
  apply (find_first demo.1 demo.2 2%nat (str "xyz") 1 (str "z")).
  - apply reach_inv, demo_reach.
  - vm_compute. discriminate.
  - vm_compute. reflexivity.
  - lia.
  - discriminate.
  - vm_compute. discriminate.
Defined.

(** ** NUL-terminated strings *)

Lemma memmem_nul l : memmem l [0] = memchr l 0.
Proof.
  induction l as [|x l IH]; [done|]. cbn [memmem memchr]. rewrite IH.
  case_bool_decide as Hp; destruct (Z.eqb_spec x 0) as [->|Hx]; try done.
  - by apply prefix_cons_inv_1 in Hp.
  - exfalso. apply Hp. by apply prefix_cons, prefix_nil.
Qed.

Lemma memchr_split l c z : memchr l c = Some z ->
  0 <= z < zlen l /\ l = slice l 0 z ++ c :: drop (Z.to_nat (z + 1)) l.
Proof.
  revert z. induction l as [|x l IH]; intros z; [done|]. cbn [memchr]. rewrite zlen_cons.
  pose proof (zlen_nonneg l). destruct (Z.eqb_spec x c) as [->|Hx].
  - intros [= <-]. split; [lia|done].
  - destruct (memchr l c) as [w|]; [|done]. intros [= <-]. destruct (IH w eq_refl) as [Hw E].
    split; [lia|]. rewrite slice_cons_0 by lia. replace (Z.succ w - 1) with w by lia.
    replace (Z.to_nat (Z.succ w + 1)) with (S (Z.to_nat (w + 1))) by lia. cbn. by f_equal.
Qed.

(** [sshbuf_get_nulterminated_string] takes the bytes before the first NUL
    and the NUL off the front; without a NUL, or past the length limit, it
    changes nothing and says whether more input could help. *)
Theorem get_nulterminated_string_spec rc h i c maxlen :
  heap_inv rc h -> 1 <= rc i -> contents h i = Some c -> no_oom h ->
  match memchr c 0 with
  | None => sshbuf_get_nulterminated_string i maxlen h =
      (Err (if (zlen c =? 0) || (zlen c <? maxlen) then SSH_ERR_MESSAGE_INCOMPLETE
            else SSH_ERR_INVALID_FORMAT), h)
  | Some z =>
      if maxlen <? z then sshbuf_get_nulterminated_string i maxlen h = (Err SSH_ERR_INVALID_FORMAT, h)
      else exists val rest h', c = val ++ 0 :: rest /\ zlen val = z /\
        sshbuf_get_nulterminated_string i maxlen h = (Ok (val, z), h') /\
        heap_inv rc h' /\ contents h' i = Some rest
  end.
Proof.
  intros INV Hrc Hc Hn. destruct (contents_view INV Hrc Hc) as (s & p & l & V & <-).
  unfold sshbuf_get_nulterminated_string. pose proof (zlen_nonneg (cur s p l)).
  pose proof (run_find V 0 [0]) as F. rewrite Z2Nat.inj_0, drop_0, memmem_nul in F.
  specialize (F ltac:(lia) ltac:(done) ltac:(done) ltac:(done)). change (0 + zlen [0]) with 1 in F.
  destruct (memchr (cur s p l) 0) as [z|] eqn:M.
  - destruct (memchr_split _ _ _ M) as [Hz Hsplit]. rewrite (proj2 (Z.ltb_ge _ _)) in F by lia.
    rewrite (bind_ok _ _ _ (inr z) h) by (unfold try_; by rewrite F). rewrite Z.gtb_ltb.
    destruct (maxlen <? z); [done|]. unfold strdup_buf. pose proof (zlen_cur V). pose proof (view_bounds V).
    destruct (run_consume (view_tick V) (z + 1)) as (s' & h' & R & E & V' & _ & _ & C & _); [lia|].
    exists (slice (cur s p l) 0 z), (drop (Z.to_nat (z + 1)) (cur s p l)), h'.
    split_and!; [done|apply zlen_slice; lia| |apply E|by rewrite (view_contents V'), C].
    rewrite (bind_ok _ _ _ (slice (cur s p l) 0 z) (set_tick h)).
    + rewrite wrap_small by lia. by mstep R.
    + mstep (run_ptr V). mstep (run_len V). cbn [src_load]. mstep (run_load_all V h eq_refl).
      rewrite M. by mstep (run_alloc_ok h Hn).
  - rewrite (bind_ok _ _ _ (inl (if zlen (cur s p l) <? 1 then SSH_ERR_MESSAGE_INCOMPLETE
                                 else SSH_ERR_INVALID_FORMAT)) h)
      by (unfold try_; rewrite F; by case_match).
    mstep (run_len V). rewrite <- (zlen_cur V).
    destruct (Z.ltb_spec (zlen (cur s p l)) 1), (Z.eqb_spec (zlen (cur s p l)) 0);
      [done|lia|lia|]. cbn. by destruct (zlen (cur s p l) <? maxlen).
Qed.

Lemma get_nulterminated_string_spec_witness :
  sshbuf_get_nulterminated_string 2 100 demo.2 = (Err SSH_ERR_MESSAGE_INCOMPLETE, demo.2).
Proof.
  apply (get_nulterminated_string_spec demo.1 demo.2 2%nat (str "xyz") 100).
  - apply reach_inv, demo_reach.
  - vm_compute. discriminate.
  - vm_compute. reflexivity.
  - intros n. vm_compute. reflexivity.
Defined.
