(* ===== verification/Words.v ===== *)
(** * Numbers in 32-bit words

    The number of a list of words, least significant first, and its bits.
    Shared by the bit vectors and the network addresses. *)

From S2P Require Import Prelude.

(** ** The number of a list of words *)

Fixpoint words_val (d : list Z) : Z :=
  match d with
  | [] => 0
  | w :: d => w + 2 ^ 32 * words_val d
  end.

Definition word_ok (w : Z) : Prop := 0 <= w < 2 ^ 32.

Lemma words_val_nonneg d : Forall word_ok d -> 0 <= words_val d.
Proof. induction 1 as [|w d Hw _ IH]; cbn [words_val]; [lia|]. unfold word_ok in Hw. lia. Qed.

Lemma words_val_app d e : words_val (d ++ e) = words_val d + 2 ^ (32 * zlen d) * words_val e.
Proof.
  induction d as [|w d IH]; [cbn [app words_val]; change (2 ^ (32 * zlen [])) with 1; lia|].
  cbn [app words_val]. rewrite IH, zlen_cons.
  pose proof (zlen_nonneg d). rewrite (Z.mul_add_distr_l 32), Z.pow_add_r by lia. lia.
Qed.

Lemma words_val_zeros n : words_val (zeros n) = 0.
Proof. unfold zeros. induction (Z.to_nat n) as [|k IH]; cbn [replicate words_val]; lia. Qed.

(** The words from [k] on are zero. *)
Lemma words_val_high d k : (forall i, (k <= i)%nat -> nth i d 0 = 0) -> words_val (drop k d) = 0.
Proof.
  revert k. induction d as [|w d IH]; intros k Hz; [by rewrite drop_nil|]. destruct k as [|k]; cbn [drop].
  - cbn [words_val]. pose proof (Hz 0%nat ltac:(lia)) as H0. cbn in H0.
    specialize (IH 0%nat). rewrite drop_0 in IH. rewrite H0, IH; [done|].
    intros i Hi. apply (Hz (S i)). lia.
  - apply IH. intros i Hi. apply (Hz (S i)). lia.
Qed.

Lemma words_val_insert d k v : (k < length d)%nat ->
  words_val (<[k := v]> d) = words_val d + 2 ^ (32 * Z.of_nat k) * (v - nth k d 0).
Proof.
  revert k. induction d as [|w d IH]; intros [|k] Hk; cbn [length] in Hk; [lia|lia| |].
  - cbn [insert list_insert words_val nth]. change (2 ^ (32 * Z.of_nat 0)) with 1. lia.
  - change (<[S k := v]> (w :: d)) with (w :: <[k := v]> d). cbn [words_val nth]. rewrite IH by lia.
    replace (32 * Z.of_nat (S k)) with (32 + 32 * Z.of_nat k) by lia. rewrite Z.pow_add_r by lia. lia.
Qed.

Lemma words_val_bound d : Forall word_ok d -> words_val d < 2 ^ (32 * zlen d).
Proof.
  induction 1 as [|w d Hw _ IH]; [done|]. cbn [words_val]. rewrite zlen_cons.
  pose proof (zlen_nonneg d). rewrite (Z.mul_add_distr_l 32), Z.pow_add_r by lia. unfold word_ok in Hw.
  change (32 * 1) with 32. nia.
Qed.

Lemma testbit_high w n : word_ok w -> 32 <= n -> Z.testbit w n = false.
Proof.
  intros Hw Hn. destruct (Z.eq_dec w 0) as [->|H0]; [apply Z.bits_0|].
  unfold word_ok in Hw. apply Z.bits_above_log2; [lia|].
  apply Z.lt_le_trans with 32; [|lia]. apply Z.log2_lt_pow2; lia.
Qed.

Lemma words_testbit d n : Forall word_ok d -> 0 <= n ->
  Z.testbit (words_val d) n = Z.testbit (nth (Z.to_nat (n / 32)) d 0) (n mod 32).
Proof.
  intros Hd. revert n. induction Hd as [|w d Hw Hd IH]; intros n Hn.
  - cbn [words_val]. rewrite Z.bits_0. by destruct (Z.to_nat (n / 32)); cbn; rewrite Z.bits_0.
  - cbn [words_val].
    replace (w + 2 ^ 32 * words_val d) with (Z.lor (Z.shiftl (words_val d) 32) w)
      by (rewrite lor_shifted by (done || lia); lia).
    rewrite Z.lor_spec, Z.shiftl_spec by lia. destruct (Z.lt_ge_cases n 32).
    + rewrite Z.testbit_neg_r by lia. rewrite Z.div_small, Z.mod_small by lia. done.
    + rewrite IH by lia. rewrite (testbit_high w n), orb_false_r by done.
      replace n with (n - 32 + 1 * 32) at 3 4 by lia. rewrite Z.div_add, Z.mod_add by lia.
      rewrite Z2Nat.inj_add by (lia || dlia). replace (Z.to_nat 1) with 1%nat by lia.
      by rewrite Nat.add_1_r.
Qed.

Lemma word_ok_0 : word_ok 0.
Proof. unfold word_ok. lia. Qed.

Lemma nth_word_ok d i : Forall word_ok d -> word_ok (nth i d 0).
Proof.
  intros Hd. destruct (nth_in_or_default i d 0) as [Hin| ->]; [|apply word_ok_0].
  apply list_elem_of_In in Hin. rewrite Forall_forall in Hd. by apply Hd.
Qed.

Lemma log2_word x : word_ok x -> Z.log2 x < 32.
Proof.
  intros Hx. unfold word_ok in Hx. destruct (Z.eq_dec x 0) as [->|]; [done|].
  apply Z.log2_lt_pow2; lia.
Qed.

Lemma lor_word x y : word_ok x -> word_ok y -> word_ok (Z.lor x y).
Proof.
  intros Hx Hy. pose proof (log2_word x Hx). pose proof (log2_word y Hy). unfold word_ok in *.
  assert (0 <= Z.lor x y) by (apply Z.lor_nonneg; lia). split; [done|].
  destruct (Z.eq_dec (Z.lor x y) 0) as [->|]; [lia|]. apply Z.log2_lt_pow2; [lia|].
  rewrite Z.log2_lor by lia. by apply Z.max_lub_lt.
Qed.

Lemma land_word x y : word_ok x -> 0 <= y -> word_ok (Z.land x y).
Proof.
  intros Hx Hy. pose proof (log2_word x Hx). unfold word_ok in *.
  assert (0 <= Z.land x y) by (apply Z.land_nonneg; lia). split; [done|].
  destruct (Z.eq_dec (Z.land x y) 0) as [->|]; [lia|]. apply Z.log2_lt_pow2; [lia|].
  pose proof (Z.log2_land x y). lia.
Qed.

(** * Little-endian numbers

    The 32-bit loads and stores of [chacha.c] and [poly1305.c], and the number
    a byte string stands for. *)

(** [p[i]]. *)
Definition le_at (p : list Z) (i : nat) : Z := nth i p 0.

(** [U8TO32_LE(p + o)] and [U8TO32_LITTLE(p + o)]. *)
Definition U8TO32_LE (p : list Z) (o : nat) : Z :=
  Z.lor (le_at p o)
  (Z.lor (Z.shiftl (le_at p (o + 1)) 8)
  (Z.lor (Z.shiftl (le_at p (o + 2)) 16) (Z.shiftl (le_at p (o + 3)) 24))).

(** [U32TO8_LE(p, v)]: the four bytes stored. *)
Definition U32TO8_LE (v : Z) : list Z :=
  [u8 v; u8 (Z.shiftr v 8); u8 (Z.shiftr v 16); u8 (Z.shiftr v 24)].

(** The number of a byte string, least significant byte first. *)
Fixpoint le_val (l : list Z) : Z :=
  match l with
  | [] => 0
  | b :: l => b + 256 * le_val l
  end.

Lemma le_val_nonneg l : bytes_ok l -> 0 <= le_val l.
Proof. induction 1 as [|b l Hb _ IH]; cbn [le_val]; [lia|]. unfold byte_ok in Hb. lia. Qed.

Lemma le_value_app l k : le_val (l ++ k) = le_val l + 256 ^ zlen l * le_val k.
Proof.
  induction l as [|b l IH]; [change (256 ^ zlen []) with 1; cbn [app le_val]; lia|].
  cbn [app le_val]. rewrite IH, zlen_cons, Z.pow_add_r by (lia || apply zlen_nonneg). lia.
Qed.

Lemma le_value_bound l : bytes_ok l -> le_val l < 256 ^ zlen l.
Proof.
  induction 1 as [|b l Hb _ IH]; [done|]. cbn [le_val]. rewrite zlen_cons, Z.pow_add_r by (lia || apply zlen_nonneg).
  unfold byte_ok in Hb. lia.
Qed.

Lemma le_val_zeros n : le_val (replicate n 0) = 0.
Proof. induction n as [|n IH]; cbn [replicate le_val]; lia. Qed.

Lemma le_at_ok p i : bytes_ok p -> byte_ok (le_at p i).
Proof.
  intros Hp. unfold le_at. destruct (nth_in_or_default i p 0) as [Hin| ->]; [|unfold byte_ok; lia].
  apply list_elem_of_In in Hin. unfold bytes_ok in Hp. rewrite Forall_forall in Hp. by apply Hp.
Qed.

Lemma lor_low a b k : 0 <= k -> 0 <= a < 2 ^ k -> Z.lor a (Z.shiftl b k) = a + b * 2 ^ k.
Proof. intros. rewrite Z.lor_comm, lor_shifted by done. lia. Qed.

(** A load is the sum of its bytes. *)
Lemma U8TO32_LE_sum p o : bytes_ok p ->
  U8TO32_LE p o = le_at p o + 256 * le_at p (o + 1) + 65536 * le_at p (o + 2) + 16777216 * le_at p (o + 3).
Proof.
  intros Hp. unfold U8TO32_LE.
  pose proof (le_at_ok p o Hp) as H0. pose proof (le_at_ok p (o + 1) Hp) as H1.
  pose proof (le_at_ok p (o + 2) Hp) as H2. pose proof (le_at_ok p (o + 3) Hp) as H3. unfold byte_ok in *.
  set (b0 := le_at p o) in *. set (b1 := le_at p (o + 1)) in *.
  set (b2 := le_at p (o + 2)) in *. set (b3 := le_at p (o + 3)) in *. clearbody b0 b1 b2 b3.
  replace (Z.shiftl b3 24) with (Z.shiftl (Z.shiftl b3 8) 16) by (rewrite Z.shiftl_shiftl by lia; done).
  rewrite <- (Z.shiftl_lor b2 (Z.shiftl b3 8) 16).
  replace (Z.shiftl (Z.lor b2 (Z.shiftl b3 8)) 16) with (Z.shiftl (Z.shiftl (Z.lor b2 (Z.shiftl b3 8)) 8) 8)
    by (rewrite Z.shiftl_shiftl by lia; done).
  rewrite <- (Z.shiftl_lor b1 _ 8).
  rewrite (lor_low b0), (Z.lor_comm b1), lor_shifted, (lor_low b2) by lia. lia.
Qed.

Lemma U8TO32_LE_range p o : bytes_ok p -> 0 <= U8TO32_LE p o < 2 ^ 32.
Proof.
  intros Hp. rewrite U8TO32_LE_sum by done.
  pose proof (le_at_ok p o Hp) as H0. pose proof (le_at_ok p (o + 1) Hp) as H1.
  pose proof (le_at_ok p (o + 2) Hp) as H2. pose proof (le_at_ok p (o + 3) Hp) as H3. unfold byte_ok in *. lia.
Qed.

(** A store is read back. *)
Lemma le_val_store v : 0 <= v < 2 ^ 32 -> le_val (U32TO8_LE v) = v.
Proof.
  intros Hv. unfold U32TO8_LE, wrap. cbn [le_val]. rewrite !Z.shiftr_div_pow2 by lia.
  change (2 ^ 8) with 256. change (2 ^ 16) with 65536. change (2 ^ 24) with 16777216.
  change (2 ^ 32) with 4294967296 in Hv. dlia.
Qed.

Lemma bytes_ok_store v : bytes_ok (U32TO8_LE v).
Proof.
  unfold U32TO8_LE, bytes_ok. repeat constructor; unfold byte_ok;
    match goal with |- context [wrap 8 ?x] => pose proof (wrap_range 8 x ltac:(lia)) end; lia.
Qed.

Lemma byte_cases (l : list Z) n : length l = n -> l = map (fun i => le_at l i) (seq 0 n).
Proof.
  intros <-. induction l as [|b l IH]; [done|]. cbn [length seq map]. f_equal.
  rewrite <- seq_shift, map_map. done.
Qed.

Lemma le_at_take n p i : (i < n)%nat -> le_at (take n p) i = le_at p i.
Proof. intros Hi. unfold le_at. by rewrite !nth_lookup, lookup_take_lt. Qed.

Lemma le_at_drop n p i : le_at (drop n p) i = le_at p (n + i).
Proof. unfold le_at. by rewrite !nth_lookup, lookup_drop. Qed.

Lemma load_take n p o : (o + 3 < n)%nat -> U8TO32_LE (take n p) o = U8TO32_LE p o.
Proof. intros Ho. unfold U8TO32_LE. by rewrite !le_at_take by lia. Qed.

Lemma load_drop n p o : U8TO32_LE (drop n p) o = U8TO32_LE p (n + o).
Proof. unfold U8TO32_LE. by rewrite !le_at_drop, !Nat.add_assoc. Qed.
