(* ===== verification/Bitmap.v ===== *)
(** * Bit vectors: [bitmap.c]

    The words as a list, the capacity and the top index as the code keeps
    them. An access outside the words is [None]; the theorems show there is
    none. A bitmap in use represents a natural number, and every operation is
    an operation on that number. *)

From S2P Require Import Prelude.

Definition BITMAP_MAX : Z := 2 ^ 24.
Definition BITMAP_BYTES : Z := 4.
Definition BITMAP_BITS : Z := 32.
Definition BITMAP_WMASK : Z := 31.

Record bitmap := mk_bitmap { bm_d : list Z; bm_len : Z; bm_top : Z }.

Definition rd (b : bitmap) (i : Z) : option Z := znth (bm_d b) i.

Definition wr (b : bitmap) (i v : Z) : option bitmap :=
  if (0 <=? i) && (i <? zlen (bm_d b))
  then Some (mk_bitmap (<[Z.to_nat i := v]> (bm_d b)) (bm_len b) (bm_top b)) else None.

Definition set_top (t : Z) (b : bitmap) : bitmap := mk_bitmap (bm_d b) (bm_len b) t.

(** [ok1], [ok2]: whether the two allocations succeed. *)
Definition bitmap_new (ok1 ok2 : bool) : option bitmap :=
  if negb ok1 then None else if negb ok2 then None else Some (mk_bitmap [0] 1 0).

Definition bitmap_zero (b : bitmap) : bitmap := mk_bitmap (zeros (bm_len b)) (bm_len b) 0.

Definition bitmap_test_bit (b : bitmap) (n : Z) : option Z :=
  if bm_top b >=? bm_len b then Some 0
  else if (bm_len b =? 0) || (n / BITMAP_BITS >? bm_top b) then Some 0
  else w ← rd b (n / BITMAP_BITS);
       Some (Z.land (Z.shiftr w (Z.land n BITMAP_WMASK)) 1).

(** Returns 0 or -1. [ok]: whether [recallocarray] succeeds; it keeps the old
    words and clears the new ones. *)
Definition reserve (ok : bool) (b : bitmap) (n : Z) : Z * bitmap :=
  if (bm_top b >=? bm_len b) || (n >? BITMAP_MAX) then (-1, b)
  else
    let nlen := n / BITMAP_BITS + 1 in
    if bm_len b <? nlen then
      if negb ok then (-1, b)
      else (0, mk_bitmap (bm_d b ++ zeros (nlen - bm_len b)) nlen (bm_top b))
    else (0, b).

Definition bitmap_set_bit (ok : bool) (b : bitmap) (n : Z) : option (Z * bitmap) :=
  let '(r, b) := reserve ok b n in
  if negb (r =? 0) then Some (r, b)
  else
    let offset := n / BITMAP_BITS in
    let b := if offset >? bm_top b then set_top offset b else b in
    w ← rd b offset;
    b ← wr b offset (Z.lor w (u32 (Z.shiftl 1 (Z.land n BITMAP_WMASK))));
    Some (0, b).

(** The loop of [retop], structural on the index. *)
Fixpoint retop_loop (d : list Z) (top : nat) : option nat :=
  match top with
  | O => Some O
  | S t => w ← d !! top; if w =? 0 then retop_loop d t else Some top
  end.

Definition retop (b : bitmap) : option bitmap :=
  if bm_top b >=? bm_len b then Some b
  else t ← retop_loop (bm_d b) (Z.to_nat (bm_top b)); Some (set_top (Z.of_nat t) b).

Definition bitmap_clear_bit (b : bitmap) (n : Z) : option bitmap :=
  if (bm_top b >=? bm_len b) || (n >? BITMAP_MAX) then Some b
  else
    let offset := n / BITMAP_BITS in
    if offset >? bm_top b then Some b
    else
      w ← rd b offset;
      b ← wr b offset (Z.land w (u32 (Z.lnot (u32 (Z.shiftl 1 (Z.land n BITMAP_WMASK))))));
      retop b.

(** The search for the most significant bit; 32 rounds are enough for a
    non-zero word, and [None] is a loop that does not end. *)
Fixpoint msb_loop (fuel : nat) (w bits : Z) : option Z :=
  match fuel with
  | O => None
  | S fuel =>
      if Z.land w (u32 (Z.shiftl 1 (BITMAP_BITS - 1))) =? 0
      then msb_loop fuel (u32 (Z.shiftl w 1)) (bits - 1)
      else Some bits
  end.

Definition bitmap_nbits (b : bitmap) : option (Z * bitmap) :=
  b ← retop b;
  if bm_top b >=? bm_len b then Some (0, b)
  else
    none ← (if bm_len b =? 0 then Some true
            else if bm_top b =? 0 then w0 ← rd b 0; Some (w0 =? 0)
            else Some false);
    if (none : bool) then Some (0, b)
    else
      w ← rd b (bm_top b);
      bits ← msb_loop 32 w ((bm_top b + 1) * BITMAP_BITS);
      Some (bits, b).

Definition bitmap_nbytes (b : bitmap) : option (Z * bitmap) :=
  '(bits, b) ← bitmap_nbits b; Some ((bits + 7) / 8, b).

(** The two loops of [bitmap_to_string]: [s[need - 1 - k++]] gets byte [j] of
    each word in turn, while [k < l]. *)
Fixpoint put_word (w : Z) (js : list Z) (k l need : Z) (s : list Z) : option (Z * list Z) :=
  match js with
  | [] => Some (k, s)
  | j :: js =>
      if k >=? l then Some (k, s)
      else
        let i := need - 1 - k in
        if (0 <=? i) && (i <? zlen s)
        then put_word w js (k + 1) l need (<[Z.to_nat i := Z.land (Z.shiftr w (j * 8)) 0xff]> s)
        else None
  end.

Fixpoint put_words (ws : list Z) (k l need : Z) (s : list Z) : option (list Z) :=
  match ws with
  | [] => Some s
  | w :: ws => '(k, s) ← put_word w [0; 1; 2; 3] k l need s; put_words ws k l need s
  end.

(** [p]: the caller's [l] bytes. Returns 0 or -1, the bytes, and the bitmap
    with the top that [bitmap_nbits] found. *)
Definition bitmap_to_string (b : bitmap) (p : list Z) : option (Z * list Z * bitmap) :=
  '(need, b) ← bitmap_nbytes b;
  let l := zlen p in
  if (l <? need) || (bm_top b >=? bm_len b) then Some (-1, p, b)
  else
    let l := if l >? need then need else l in
    s ← put_words (take (Z.to_nat (bm_top b + 1)) (bm_d b)) 0 l need p;
    Some (0, s, b).

Fixpoint from_loop (s : list Z) (offset shift : Z) (b : bitmap) : option bitmap :=
  match s with
  | [] => Some b
  | x :: s =>
      w ← rd b offset;
      b ← wr b offset (Z.lor w (u32 (Z.shiftl x shift)));
      if shift =? 0 then from_loop s (sizet (offset - 1)) (BITMAP_BITS - 8) b
      else from_loop s offset (shift - 8) b
  end.

Definition bitmap_from_string (ok : bool) (b : bitmap) (s : list Z) : option (Z * bitmap) :=
  let l := zlen s in
  if l >? BITMAP_MAX / 8 then Some (-1, b)
  else
    let '(r, b) := reserve ok b (u32 (l * 8)) in
    if negb (r =? 0) then Some (r, b)
    else
      let b := bitmap_zero b in
      if l =? 0 then Some (0, b)
      else
        let offset := (l + (BITMAP_BYTES - 1)) / BITMAP_BYTES - 1 in
        let shift := (l + (BITMAP_BYTES - 1)) mod BITMAP_BYTES * 8 in
        b ← from_loop s offset shift (set_top offset b);
        b ← retop b;
        Some (0, b).

Example bitmap_ex :
  (b ← bitmap_new true true;
   '(_, b) ← bitmap_set_bit true b 33;
   '(_, b) ← bitmap_set_bit true b 9;
   '(_, s, b) ← bitmap_to_string b (zeros 6);
   '(_, c) ← bitmap_from_string true b (take 5 s);
   Some (s, bm_d b, bm_d c, bm_top c)) = Some ([2; 0; 0; 2; 0; 0], [512; 2], [512; 2], 1).
Proof. reflexivity. Qed.
