(* ===== verification/BitmapThms.v ===== *)
(** * Properties of [bitmap.c]: operations on the number a bitmap represents *)

From S2P Require Import Prelude Words Bitmap.

(** ** The representation *)

Record bm_ok (b : bitmap) : Prop := {
  bok_len : bm_len b = zlen (bm_d b);
  bok_top : 0 <= bm_top b < bm_len b;
  bok_words : Forall word_ok (bm_d b);
  bok_high : forall i, bm_top b < Z.of_nat i -> nth i (bm_d b) 0 = 0;
  bok_max : bm_len b <= 2 ^ 19 + 1
}.

Definition value (b : bitmap) : Z := words_val (bm_d b).

Lemma rd_nth b i : 0 <= i < zlen (bm_d b) -> rd b i = Some (nth (Z.to_nat i) (bm_d b) 0).
Proof.
  intros Hi. unfold rd, znth. rewrite (proj2 (Z.ltb_ge _ _)) by lia.
  destruct (lookup_lt_is_Some_2 (bm_d b) (Z.to_nat i)) as [w Hw]; [unfold zlen in Hi; lia|].
  rewrite Hw. f_equal. symmetry. by apply nth_lookup_Some with (d := 0) in Hw.
Qed.

Lemma wr_ok b i v : 0 <= i < zlen (bm_d b) ->
  wr b i v = Some (mk_bitmap (<[Z.to_nat i := v]> (bm_d b)) (bm_len b) (bm_top b)).
Proof.
  intros. unfold wr. rewrite (proj2 (Z.leb_le _ _)), (proj2 (Z.ltb_lt _ _)) by lia. done.
Qed.

Lemma nth_insert (d : list Z) (i k : nat) v : (i < length d)%nat ->
  nth k (<[i := v]> d) 0 = if decide (k = i) then v else nth k d 0.
Proof.
  intros Hi. rewrite !nth_lookup. case_decide as E.
  - subst. by rewrite list_lookup_insert_eq.
  - by rewrite list_lookup_insert_ne.
Qed.

Lemma nth_zeros k n : nth k (zeros n) 0 = 0.
Proof.
  rewrite nth_lookup. destruct (zeros n !! k) as [x|] eqn:E; [|done].
  by apply lookup_replicate in E as [-> _].
Qed.

Lemma zlen_insert (d : list Z) i v : zlen (<[i := v]> d) = zlen d.
Proof. unfold zlen. by rewrite length_insert. Qed.

(** Bit masks of the code. *)
Lemma land_31 n : 0 <= n -> Z.land n BITMAP_WMASK = n mod 32.
Proof. intros. change BITMAP_WMASK with (Z.ones 5). by rewrite Z.land_ones. Qed.

Lemma mask_val k : 0 <= k < 32 -> u32 (Z.shiftl 1 k) = 2 ^ k.
Proof.
  intros. rewrite Z.shiftl_1_l. apply wrap_small. split; [apply Z.pow_nonneg; lia|].
  apply Z.pow_lt_mono_r; lia.
Qed.

Lemma pow_word k : 0 <= k < 32 -> word_ok (2 ^ k).
Proof. intros. rewrite <- mask_val by lia. unfold word_ok. apply wrap_range. lia. Qed.

(** ** Reading and changing bits *)

Section Ops.
Context (b : bitmap) (B : bm_ok b).

Lemma top_not_invalid : (bm_top b >=? bm_len b) = false.
Proof using B. destruct B. rewrite Z.geb_leb. apply Z.leb_gt. lia. Qed.

Lemma run_test_bit n : 0 <= n -> bitmap_test_bit b n = Some (Z.b2z (Z.testbit (value b) n)).
Proof using B.
  intros Hn. unfold bitmap_test_bit. rewrite top_not_invalid. unfold value.
  rewrite (words_testbit _ n (bok_words _ B) Hn). change BITMAP_BITS with 32.
  pose proof (bok_top _ B). pose proof (bok_len _ B).
  rewrite (proj2 (Z.eqb_neq (bm_len b) 0)) by lia. cbn [orb]. rewrite Z.gtb_ltb.
  destruct (Z.ltb_spec (bm_top b) (n / 32)).
  - rewrite (bok_high _ B) by lia. by rewrite Z.bits_0.
  - rewrite rd_nth by (split; dlia). cbn [mbind option_bind]. f_equal.
    rewrite land_31 by done. change 1 with (Z.ones 1) at 1. rewrite Z.land_ones by lia.
    change (2 ^ 1) with 2. rewrite Z.testbit_spec' by dlia. rewrite Z.shiftr_div_pow2 by dlia. done.
Qed.

(** Room for bit [n]: the number is unchanged. *)
Lemma run_bitmap_reserve ok n : 0 <= n ->
  let '(r, b') := reserve ok b n in
  bm_ok b' /\ value b' = value b /\ bm_top b' = bm_top b /\
  (r = 0 /\ n / 32 < zlen (bm_d b') /\ n <= BITMAP_MAX \/ r = -1 /\ b' = b /\ (BITMAP_MAX < n \/ ok = false)).
Proof using B.
  intros Hn. unfold reserve. rewrite top_not_invalid. cbn [orb]. rewrite Z.gtb_ltb.
  destruct (Z.ltb_spec BITMAP_MAX n); [split_and!; auto|]. change BITMAP_BITS with 32.
  destruct B as [Bl Bt Bw Bh Bm]. unfold BITMAP_MAX in *.
  destruct (Z.ltb_spec (bm_len b) (n / 32 + 1)).
  2:{ split_and!; auto. left. split_and!; auto. lia. }
  destruct ok; cbn [negb]; [|split_and!; auto].
  pose proof (zlen_nonneg (bm_d b)).
  assert (zlen (bm_d b ++ zeros (n / 32 + 1 - bm_len b)) = n / 32 + 1) as L
    by (rewrite zlen_app, zlen_zeros by lia; lia).
  split_and!; [constructor; cbn| |done|left; cbn; split_and!; lia].
  - done.
  - lia.
  - apply Forall_app. split; [done|]. apply Forall_replicate, word_ok_0.
  - intros i Hi. destruct (Nat.lt_ge_cases i (length (bm_d b))).
    + rewrite app_nth1 by done. by apply Bh.
    + rewrite app_nth2 by done. apply nth_zeros.
  - dlia.
  - unfold value. cbn. rewrite words_val_app, words_val_zeros. lia.
Qed.

(** Bits after one word of a number is replaced. *)
Lemma testbit_insert d k v m : Forall word_ok d -> 0 <= k < zlen d -> word_ok v -> 0 <= m ->
  Z.testbit (words_val (<[Z.to_nat k := v]> d)) m =
  if decide (m / 32 = k) then Z.testbit v (m mod 32) else Z.testbit (words_val d) m.
Proof.
  intros Hd Hk Hv Hm. rewrite words_testbit by (done || by apply Forall_insert).
  rewrite nth_insert by (unfold zlen in Hk; lia). rewrite (words_testbit d) by done.
  assert (0 <= m / 32) by dlia.
  destruct (decide (m / 32 = k)) as [->|Hne]; [by rewrite decide_True|].
  rewrite decide_False; [done|]. intros E. apply Hne. lia.
Qed.

Lemma run_set_bit ok n : 0 <= n < 2 ^ 32 ->
  exists r b', bitmap_set_bit ok b n = Some (r, b') /\ bm_ok b' /\
    (r = 0 /\ n <= BITMAP_MAX /\ value b' = Z.setbit (value b) n \/
     r = -1 /\ b' = b /\ (BITMAP_MAX < n \/ ok = false)).
Proof using B.
  intros Hn. unfold bitmap_set_bit. pose proof (run_bitmap_reserve ok n ltac:(lia)) as R.
  destruct (reserve ok b n) as [r b1]. destruct R as (B1 & V1 & T1 & [(-> & Hi & Hmx)|(-> & -> & Hbad)]).
  2:{ exists (-1), b. split_and!; auto. }
  cbn [Z.eqb negb]. change BITMAP_BITS with 32. set (k := n / 32) in *.
  assert (0 <= k) as Hk by (unfold k; dlia). rewrite Z.gtb_ltb.
  set (b2 := if bm_top b1 <? k then set_top k b1 else b1).
  assert (bm_d b2 = bm_d b1 /\ bm_len b2 = bm_len b1 /\ bm_top b2 = Z.max (bm_top b1) k) as (D2 & L2 & T2).
  { unfold b2. destruct (Z.ltb_spec (bm_top b1) k); cbn; split_and!; done || lia. }
  destruct B1 as [Bl Bt Bw Bh Bm].
  rewrite rd_nth by (rewrite D2; lia). cbn [mbind option_bind]. rewrite wr_ok by (rewrite D2; lia).
  cbn [mbind option_bind]. rewrite D2, land_31, mask_val by (lia || apply Z.mod_pos_bound; lia).
  pose proof (Z.mod_pos_bound n 32 ltac:(lia)) as Hm.
  assert (word_ok (Z.lor (nth (Z.to_nat k) (bm_d b1) 0) (2 ^ (n mod 32)))) as Hw
    by (apply lor_word; [by apply nth_word_ok|by apply pow_word]).
  eexists 0, _. split; [done|]. split.
  - constructor; cbn; rewrite ?zlen_insert; [lia|lia|by apply Forall_insert| |lia].
    intros i Hi'. rewrite nth_insert by (unfold zlen in Hi; lia).
    rewrite decide_False by lia. apply Bh. lia.
  - left. split_and!; [done|done|]. rewrite <- V1. unfold value. cbn. apply Z.bits_inj'. intros m Hm0.
    rewrite testbit_insert by (done || lia). rewrite Z.setbit_eqb by lia.
    pose proof (Z.div_mod m 32 ltac:(lia)). pose proof (Z.div_mod n 32 ltac:(lia)).
    case_decide as E.
    + rewrite Z.lor_spec, Z.pow2_bits_eqb by lia. rewrite (words_testbit _ m) by (done || lia). rewrite E.
      rewrite orb_comm. f_equal. destruct (Z.eqb_spec (n mod 32) (m mod 32)), (Z.eqb_spec n m); unfold k in *; lia || done.
    + rewrite (proj2 (Z.eqb_neq n m)); [done|]. intros ->. done.
Qed.
End Ops.

Lemma retop_loop_spec d t : (t < length d)%nat ->
  exists t', retop_loop d t = Some t' /\ (t' <= t)%nat /\ (t' = 0%nat \/ nth t' d 0 <> 0) /\
    forall i, (t' < i <= t)%nat -> nth i d 0 = 0.
Proof.
  induction t as [|t IH]; intros Ht; [exists 0%nat; split_and!; auto; lia|]. cbn [retop_loop].
  destruct (lookup_lt_is_Some_2 d (S t)) as [w Hw]; [lia|]. rewrite Hw. cbn [mbind option_bind].
  pose proof (nth_lookup_Some d (S t) 0 w Hw) as N. destruct (Z.eqb_spec w 0) as [->|H0].
  - destruct IH as (t' & R & Hle & Hz & Hi); [lia|]. exists t'. split_and!; auto.
    intros i Hi'. destruct (decide (i = S t)) as [->|]; [done|]. apply Hi. lia.
  - exists (S t). split_and!; auto; [by rewrite N; right|lia].
Qed.

(** [retop] keeps the number and leaves no empty word at the top. *)
Lemma run_retop b : bm_ok b ->
  exists b', retop b = Some b' /\ bm_ok b' /\ bm_d b' = bm_d b /\
    (bm_top b' = 0 \/ nth (Z.to_nat (bm_top b')) (bm_d b') 0 <> 0).
Proof.
  intros B. unfold retop. rewrite top_not_invalid by done. destruct B as [Bl Bt Bw Bh Bm].
  destruct (retop_loop_spec (bm_d b) (Z.to_nat (bm_top b))) as (t' & R & Hle & Hz & Hi);
    [unfold zlen in Bl; lia|].
  rewrite R. cbn [mbind option_bind]. eexists. split; [done|]. split_and!; [constructor|done|]; cbn.
  - done.
  - lia.
  - done.
  - intros i Hi'. destruct (decide (bm_top b < Z.of_nat i)); [by apply Bh|]. apply Hi. lia.
  - done.
  - rewrite Nat2Z.id. destruct Hz as [->|]; auto.
Qed.

Lemma clear_mask_bits k m : 0 <= k < 32 -> 0 <= m < 32 ->
  Z.testbit (u32 (Z.lnot (2 ^ k))) m = negb (k =? m).
Proof.
  intros. unfold wrap. rewrite Z.mod_pow2_bits_low by lia. rewrite Z.lnot_spec by lia.
  by rewrite Z.pow2_bits_eqb by lia.
Qed.

Lemma run_clear_bit b n : bm_ok b -> 0 <= n <= BITMAP_MAX ->
  exists b', bitmap_clear_bit b n = Some b' /\ bm_ok b' /\ value b' = Z.clearbit (value b) n.
Proof.
  intros B Hn. unfold bitmap_clear_bit. rewrite top_not_invalid by done. cbn [orb].
  rewrite Z.gtb_ltb, (proj2 (Z.ltb_ge _ _)) by lia. change BITMAP_BITS with 32. rewrite Z.gtb_ltb.
  set (k := n / 32). assert (0 <= k) as Hk by (unfold k; dlia).
  pose proof (Z.mod_pos_bound n 32 ltac:(lia)) as Hm.
  destruct (Z.ltb_spec (bm_top b) k) as [Hgt|Hle].
  - exists b. split_and!; auto. apply Z.bits_inj'. intros m Hm0. rewrite Z.clearbit_eqb by lia.
    destruct (Z.eqb_spec n m) as [<-|]; [|by rewrite andb_true_r].
    rewrite andb_false_r. unfold value. rewrite words_testbit by (done || apply B).
    rewrite (bok_high _ B) by (unfold k in *; lia). apply Z.bits_0.
  - destruct B as [Bl Bt Bw Bh Bm]. rewrite rd_nth by lia. cbn [mbind option_bind].
    rewrite wr_ok by lia. cbn [mbind option_bind]. rewrite land_31, mask_val by lia.
    set (v := Z.land _ _).
    assert (word_ok v) as Hv
      by (apply land_word; [by apply nth_word_ok|apply (proj1 (wrap_range 32 _ ltac:(lia)))]).
    set (b1 := mk_bitmap _ _ _). assert (bm_ok b1) as B1.
    { constructor; cbn; rewrite ?zlen_insert; auto; [by apply Forall_insert|].
      intros i Hi. rewrite nth_insert by (unfold zlen in Bl; lia).
      rewrite decide_False by lia. by apply Bh. }
    destruct (run_retop b1 B1) as (b' & R & B' & D' & _). exists b'. split_and!; auto.
    unfold value. rewrite D'. cbn. apply Z.bits_inj'. intros m Hm0.
    rewrite testbit_insert by (done || lia). rewrite Z.clearbit_eqb by lia.
    pose proof (Z.div_mod m 32 ltac:(lia)). pose proof (Z.div_mod n 32 ltac:(lia)).
    case_decide as E.
    + unfold v. rewrite Z.land_spec, clear_mask_bits by (lia || apply Z.mod_pos_bound; lia).
      rewrite (words_testbit _ m) by (done || lia). rewrite E. f_equal. f_equal.
      destruct (Z.eqb_spec (n mod 32) (m mod 32)), (Z.eqb_spec n m); unfold k in *; lia || done.
    + rewrite (proj2 (Z.eqb_neq n m)), andb_true_r; [done|]. intros ->. done.
Qed.

(** ** Size *)

Lemma bit31_zero w : word_ok w ->
  (Z.land w (u32 (Z.shiftl 1 (BITMAP_BITS - 1))) =? 0) = negb (Z.testbit w 31).
Proof.
  intros Hw. rewrite mask_val by (unfold BITMAP_BITS; lia). change (BITMAP_BITS - 1) with 31.
  destruct (Z.testbit w 31) eqn:E; cbn [negb].
  - apply Z.eqb_neq. intros H. apply (f_equal (fun z => Z.testbit z 31)) in H.
    rewrite Z.land_spec, E, Z.pow2_bits_true, Z.bits_0 in H by lia. done.
  - apply Z.eqb_eq, Z.bits_inj'. intros m Hm. rewrite Z.land_spec, Z.bits_0, Z.pow2_bits_eqb by lia.
    destruct (Z.eqb_spec 31 m) as [<-|]; [by rewrite E|by rewrite andb_false_r].
Qed.

Lemma testbit31_log2 w : 0 < w -> word_ok w -> Z.testbit w 31 = (31 <=? Z.log2 w).
Proof.
  intros H0 Hw. pose proof (log2_word w Hw). destruct (Z.leb_spec 31 (Z.log2 w)).
  - replace 31 with (Z.log2 w) by lia. apply Z.bit_log2. lia.
  - apply Z.bits_above_log2; lia.
Qed.

Lemma msb_loop_spec fuel : forall w bits, 0 < w -> word_ok w -> 31 - Z.log2 w < Z.of_nat fuel ->
  msb_loop fuel w bits = Some (bits - (31 - Z.log2 w)).
Proof.
  induction fuel as [|fuel IH]; intros w bits H0 Hw Hf; pose proof (log2_word w Hw); [lia|].
  cbn [msb_loop]. rewrite bit31_zero, testbit31_log2 by done.
  destruct (Z.leb_spec 31 (Z.log2 w)); cbn [negb]; [f_equal; lia|].
  assert (Z.log2 (2 * w) = Z.log2 w + 1) as L by (rewrite Z.log2_double; lia).
  assert (2 * w < 2 ^ 32) as Hlt by (apply Z.log2_lt_pow2; lia).
  rewrite Z.shiftl_mul_pow2, (Z.mul_comm w) by lia. change (2 ^ 1) with 2.
  rewrite wrap_small by lia.
  rewrite IH; [|lia|split; lia|lia]. f_equal. lia.
Qed.

(** The top word carries the most significant bits. *)
Lemma value_top b : bm_ok b ->
  value b = words_val (take (Z.to_nat (bm_top b)) (bm_d b)) +
            2 ^ (32 * bm_top b) * nth (Z.to_nat (bm_top b)) (bm_d b) 0.
Proof.
  intros [Bl Bt Bw Bh Bm]. unfold value. set (t := Z.to_nat (bm_top b)).
  assert (t < length (bm_d b))%nat as Ht by (unfold t, zlen in *; lia).
  destruct (lookup_lt_is_Some_2 (bm_d b) t Ht) as [w Hw].
  pose proof (nth_lookup_Some (bm_d b) t 0 w Hw) as N. rewrite N.
  rewrite <- (take_drop_middle (bm_d b) t w Hw) at 1. rewrite words_val_app. cbn [words_val].
  rewrite (words_val_high _ (S t)) by (intros i Hi; apply Bh; unfold t in Hi; lia).
  replace (zlen (take t (bm_d b))) with (bm_top b) by (unfold zlen; rewrite length_take; unfold t, zlen in *; lia).
  lia.
Qed.

Definition bit_length (v : Z) : Z := if v =? 0 then 0 else Z.log2 v + 1.

Lemma run_nbits b : bm_ok b ->
  exists b', bitmap_nbits b = Some (bit_length (value b), b') /\ bm_ok b' /\ bm_d b' = bm_d b /\
    (bm_top b' = 0 \/ nth (Z.to_nat (bm_top b')) (bm_d b') 0 <> 0).
Proof.
  intros B. unfold bitmap_nbits. destruct (run_retop b B) as (b' & R & B' & D' & Hz). rewrite R.
  cbn [mbind option_bind]. rewrite top_not_invalid by done. exists b'.
  assert (value b = value b') as -> by (unfold value; by rewrite D').
  split_and!; auto. pose proof (value_top b' B') as VT. pose proof (bok_top _ B') as Bt.
  pose proof (bok_len _ B') as Bl. pose proof (nth_word_ok _ (Z.to_nat (bm_top b')) (bok_words _ B')) as Hw.
  set (w := nth (Z.to_nat (bm_top b')) (bm_d b') 0) in *. unfold bit_length.
  rewrite (proj2 (Z.eqb_neq (bm_len b') 0)) by lia.
  destruct (Z.eqb_spec (bm_top b') 0) as [T0|T0].
  - rewrite (rd_nth b' 0) by lia. replace (nth (Z.to_nat 0) (bm_d b') 0) with w by (unfold w; by rewrite T0).
    cbn [mbind option_bind].
    assert (value b' = w) as ->.
    { rewrite VT, T0. change (Z.to_nat 0) with 0%nat. rewrite take_0. change (2 ^ (32 * 0)) with 1. cbn [words_val]. lia. }
    destruct (Z.eqb_spec w 0) as [W0|W0]; [done|]. rewrite (rd_nth b' (bm_top b')) by lia. fold w. cbn [mbind option_bind].
    unfold word_ok in Hw. rewrite msb_loop_spec; [|lia|done|pose proof (Z.log2_nonneg w); lia].
    cbn [mbind option_bind]. rewrite T0. do 2 f_equal. unfold BITMAP_BITS. lia.
  - destruct Hz as [?|W0]; [lia|]. fold w in W0. cbn [mbind option_bind]. rewrite rd_nth by lia. fold w.
    unfold word_ok in Hw. cbn [mbind option_bind].
    rewrite msb_loop_spec; [|lia|done|pose proof (Z.log2_nonneg w); lia].
    cbn [mbind option_bind]. pose proof (Z.log2_nonneg w).
    set (lo := words_val (take (Z.to_nat (bm_top b')) (bm_d b'))) in *.
    assert (0 <= lo < 2 ^ (32 * bm_top b')) as Hlo.
    { assert (Forall word_ok (take (Z.to_nat (bm_top b')) (bm_d b'))) as Hf by apply Forall_take, B'.
      split; [by apply words_val_nonneg|]. pose proof (words_val_bound _ Hf) as Hb.
      replace (zlen (take (Z.to_nat (bm_top b')) (bm_d b'))) with (bm_top b') in Hb; [done|].
      unfold zlen in *. rewrite length_take. lia. }
    assert (0 < 2 ^ (32 * bm_top b')) by (apply Z.pow_pos_nonneg; lia).
    rewrite (proj2 (Z.eqb_neq (value b') 0)) by nia.
    assert (Z.log2 (value b') = 32 * bm_top b' + Z.log2 w) as ->.
    { apply Z.log2_unique; [lia|]. pose proof (Z.log2_spec w ltac:(lia)) as [S1 S2].
      rewrite Z.pow_succ_r in S2 by lia. rewrite Z.pow_succ_r, !Z.pow_add_r by lia. rewrite VT. nia. }
    do 2 f_equal. unfold BITMAP_BITS. lia.
Qed.

(** ** Strings *)

Fixpoint le_val (bs : list Z) : Z :=
  match bs with
  | [] => 0
  | b :: bs => b + 256 * le_val bs
  end.

(** The number of a big-endian byte string. *)
Definition be_val (s : list Z) : Z := le_val (rev s).

Lemma le_val_app bs cs : le_val (bs ++ cs) = le_val bs + 256 ^ zlen bs * le_val cs.
Proof.
  induction bs as [|b bs IH]; [cbn [app le_val]; change (256 ^ zlen []) with 1; lia|].
  cbn [app le_val]. rewrite IH, zlen_cons. pose proof (zlen_nonneg bs).
  rewrite Z.pow_add_r by lia. change (256 ^ 1) with 256. lia.
Qed.

Lemma le_val_bound bs : bytes_ok bs -> 0 <= le_val bs < 256 ^ zlen bs.
Proof.
  induction 1 as [|b bs Hb _ IH]; [done|]. cbn [le_val]. rewrite zlen_cons.
  pose proof (zlen_nonneg bs). rewrite Z.pow_add_r by lia. unfold byte_ok in Hb.
  change (256 ^ 1) with 256. lia.
Qed.

Lemma le_val_take n bs : bytes_ok bs -> le_val bs < 256 ^ Z.of_nat n -> le_val (take n bs) = le_val bs.
Proof.
  intros Hok Hlt. rewrite <- (take_drop n bs) at 2. rewrite le_val_app.
  destruct (decide (length bs <= n)%nat).
  { rewrite (drop_ge bs) by done. cbn [le_val]. lia. }
  assert (zlen (take n bs) = Z.of_nat n) as L by (unfold zlen; rewrite length_take; lia).
  pose proof (le_val_bound (drop n bs) (Forall_drop _ _ _ Hok)).
  pose proof (le_val_bound (take n bs) (Forall_take _ _ _ Hok)).
  rewrite <- (take_drop n bs), le_val_app, L in Hlt. rewrite L.
  assert (0 < 256 ^ Z.of_nat n) by (apply Z.pow_pos_nonneg; lia).
  assert (le_val (drop n bs) = 0) as -> by nia. lia.
Qed.

(** Byte [j] of a word, and the bytes of a list of words from the low end. *)
Definition word_byte (w j : Z) : Z := Z.land (Z.shiftr w (j * 8)) 0xff.

Definition bytes_of_words (ws : list Z) : list Z := concat ((fun w => word_byte w <$> [0; 1; 2; 3]) <$> ws).

Lemma word_bytes_val w : word_ok w -> le_val (word_byte w <$> [0; 1; 2; 3]) = w.
Proof.
  intros Hw. unfold word_ok in Hw. cbn [fmap list_fmap le_val]. unfold word_byte.
  rewrite !land_255, !Z.shiftr_div_pow2 by lia.
  change (2 ^ (0 * 8)) with 1. change (2 ^ (1 * 8)) with 256. change (2 ^ (2 * 8)) with 65536.
  change (2 ^ (3 * 8)) with 16777216. dlia.
Qed.

Lemma bytes_of_words_val ws : Forall word_ok ws -> le_val (bytes_of_words ws) = words_val ws.
Proof.
  induction 1 as [|w ws Hw _ IH]; [done|]. unfold bytes_of_words in *. rewrite fmap_cons. cbn [concat].
  rewrite le_val_app, IH, word_bytes_val by done. done.
Qed.

Lemma bytes_of_words_ok ws : bytes_ok (bytes_of_words ws).
Proof.
  unfold bytes_of_words. induction ws as [|w ws IH]; [constructor|]. rewrite fmap_cons. cbn [concat].
  apply bytes_ok_app. split; [|done]. repeat (apply Forall_cons; split; [apply byte_land_255|]). constructor.
Qed.

Lemma zlen_bytes_of_words ws : zlen (bytes_of_words ws) = 4 * zlen ws.
Proof.
  unfold bytes_of_words. induction ws as [|w ws IH]; [done|]. rewrite fmap_cons. cbn [concat].
  rewrite zlen_app, IH, zlen_cons. unfold zlen at 1. cbn. lia.
Qed.

(** The output array is filled from position [need - 1] downwards: after the
    bytes [bs], of the free part [pre] the last [length bs] places hold them
    in reverse; bytes that find no place are dropped. *)
Definition filled (pre bs post : list Z) : list Z :=
  take (length pre - length bs) pre ++ rev (take (length pre) bs) ++ post.

Lemma filled_nil pre post : filled pre [] post = pre ++ post.
Proof. unfold filled. rewrite take_nil, Nat.sub_0_r, take_ge by done. done. Qed.

Lemma filled_full bs post : filled [] bs post = post.
Proof. done. Qed.

Lemma filled_snoc pre x b bs post : filled (pre ++ [x]) (b :: bs) post = filled pre bs (b :: post).
Proof.
  unfold filled. rewrite length_app. cbn [length].
  replace (length pre + 1 - S (length bs))%nat with (length pre - length bs)%nat by lia.
  rewrite take_app_le by lia. f_equal. rewrite Nat.add_1_r. cbn [take rev].
  by rewrite <- app_assoc.
Qed.

Lemma filled_app pre bs cs post :
  filled (take (length pre - length bs) pre) cs (rev (take (length pre) bs) ++ post) =
  filled pre (bs ++ cs) post.
Proof.
  revert bs post. induction pre as [|x pre IH] using rev_ind; intros bs post; [by rewrite take_nil|].
  destruct bs as [|b bs]; cbn [app].
  - rewrite take_nil, Nat.sub_0_r, take_ge by done. done.
  - rewrite filled_snoc, <- IH, length_app. cbn [length].
    replace (length pre + 1 - S (length bs))%nat with (length pre - length bs)%nat by lia.
    rewrite take_app_le by lia. rewrite Nat.add_1_r. cbn [take rev]. by rewrite <- app_assoc.
Qed.

Lemma put_word_spec w js : forall pre post need, zlen pre <= need ->
  put_word w js (need - zlen pre) need need (pre ++ post) =
  Some (need - zlen (take (length pre - length js) pre), filled pre (word_byte w <$> js) post).
Proof.
  induction js as [|j js IH]; intros pre post need Hn.
  - cbn [put_word fmap list_fmap length]. rewrite filled_nil, Nat.sub_0_r, (take_ge pre) by done. done.
  - cbn [put_word]. rewrite Z.geb_leb. destruct pre as [|x pre _] using rev_ind.
    + rewrite take_nil, zlen_nil, Z.sub_0_r, Z.leb_refl, filled_full. done.
    + rewrite zlen_app in *. change (zlen [x]) with 1 in *. pose proof (zlen_nonneg pre).
      pose proof (zlen_nonneg post). rewrite (proj2 (Z.leb_gt _ _)) by lia.
      replace (need - 1 - (need - (zlen pre + 1))) with (zlen pre) by lia.
      rewrite !zlen_app, (proj2 (Z.leb_le _ _)), (proj2 (Z.ltb_lt _ _)) by (change (zlen [x]) with 1; lia).
      cbn [andb]. rewrite <- app_assoc. cbn [app].
      replace (<[Z.to_nat (zlen pre) := Z.land (Z.shiftr w (j * 8)) 255]> (pre ++ x :: post))
        with (pre ++ word_byte w j :: post)
        by (unfold zlen; rewrite Nat2Z.id, insert_app_r_alt, Nat.sub_diag by lia; done).
      replace (need - (zlen pre + 1) + 1) with (need - zlen pre) by lia.
      rewrite IH by lia. rewrite fmap_cons, filled_snoc, length_app. cbn [length].
      replace (length pre + 1 - S (length js))%nat with (length pre - length js)%nat by lia.
      by rewrite take_app_le by lia.
Qed.

Lemma put_words_spec ws : forall pre post need, zlen pre <= need ->
  put_words ws (need - zlen pre) need need (pre ++ post) = Some (filled pre (bytes_of_words ws) post).
Proof.
  induction ws as [|w ws IH]; intros pre post need Hn.
  - cbn. by rewrite filled_nil.
  - cbn [put_words]. rewrite put_word_spec by done. cbn [mbind option_bind].
    set (k := (length pre - length [0; 1; 2; 3])%nat).
    change (filled pre (word_byte w <$> [0; 1; 2; 3]) post)
      with (take k pre ++ rev (take (length pre) (word_byte w <$> [0; 1; 2; 3])) ++ post).
    rewrite IH by (unfold zlen in *; rewrite length_take; lia).
    change (bytes_of_words (w :: ws)) with ((word_byte w <$> [0; 1; 2; 3]) ++ bytes_of_words ws).
    by rewrite <- filled_app.
Qed.

Lemma run_to_string b p : bm_ok b ->
  let need := (bit_length (value b) + 7) / 8 in
  exists b', bm_ok b' /\ bm_d b' = bm_d b /\
    if zlen p <? need then bitmap_to_string b p = Some (-1, p, b')
    else exists s, bitmap_to_string b p = Some (0, s ++ drop (Z.to_nat need) p, b') /\
      zlen s = need /\ bytes_ok s /\ be_val s = value b.
Proof.
  intros B need. unfold bitmap_to_string, bitmap_nbytes.
  destruct (run_nbits b B) as (b' & R & B' & D' & Hz). rewrite R. cbn [mbind option_bind].
  fold need. rewrite top_not_invalid by done. rewrite orb_false_r.
  exists b'. split_and!; auto. destruct (Z.ltb_spec (zlen p) need); [done|].
  replace (if zlen p >? need then need else zlen p) with need
    by (rewrite Z.gtb_ltb; destruct (Z.ltb_spec need (zlen p)); lia).
  pose proof B' as [Bl Bt Bw Bh Bm].
  set (ws := take (Z.to_nat (bm_top b' + 1)) (bm_d b')).
  assert (value b = words_val ws) as VE.
  { unfold value. rewrite <- D'. rewrite <- (take_drop (Z.to_nat (bm_top b' + 1)) (bm_d b')) at 1.
    fold ws. rewrite words_val_app.
    rewrite (words_val_high _ (Z.to_nat (bm_top b' + 1))) by (intros i Hi; apply Bh; lia). lia. }
  assert (Forall word_ok ws) as Hws by by apply Forall_take.
  assert (zlen ws = bm_top b' + 1) as Lws by (unfold ws, zlen in *; rewrite length_take; lia).
  assert (0 <= value b) as V0 by (rewrite VE; by apply words_val_nonneg).
  assert (0 <= need) as N0 by (unfold need, bit_length; destruct (_ =? _); pose proof (Z.log2_nonneg (value b)); dlia).
  assert (value b < 256 ^ need) as Hlt.
  { unfold need, bit_length. destruct (Z.eqb_spec (value b) 0) as [->|]; [done|].
    pose proof (Z.log2_nonneg (value b)). change 256 with (2 ^ 8). rewrite <- Z.pow_mul_r by dlia.
    apply Z.log2_lt_pow2; dlia. }
  assert (need <= zlen (bytes_of_words ws)) as Hbs.
  { rewrite zlen_bytes_of_words, Lws. unfold need, bit_length.
    destruct (Z.eqb_spec (value b) 0); [dlia|]. pose proof (words_val_bound ws Hws) as Hb.
    rewrite Lws, <- VE in Hb. apply Z.log2_lt_pow2 in Hb; [dlia|lia]. }
  assert (zlen (take (Z.to_nat need) p) = need) as Lp by (unfold zlen in *; rewrite length_take; lia).
  pose proof (put_words_spec ws (take (Z.to_nat need) p) (drop (Z.to_nat need) p) need) as P.
  rewrite Lp, Z.sub_diag, take_drop in P. rewrite P by lia. cbn [mbind option_bind].
  exists (rev (take (Z.to_nat need) (bytes_of_words ws))). unfold filled.
  replace (length (take (Z.to_nat need) p)) with (Z.to_nat need) by (unfold zlen in Lp; lia).
  replace (Z.to_nat need - length (bytes_of_words ws))%nat with 0%nat by (unfold zlen in Hbs; lia).
  split_and!; [done|..].
  - unfold zlen in *. rewrite length_rev, length_take. lia.
  - apply Forall_rev, Forall_take, bytes_of_words_ok.
  - unfold be_val. rewrite rev_involutive, le_val_take, bytes_of_words_val; auto using bytes_of_words_ok.
    by rewrite bytes_of_words_val, Z2Nat.id, <- VE.
Qed.

Lemma be_val_cons x s : be_val (x :: s) = be_val s + 256 ^ zlen s * x.
Proof.
  unfold be_val. cbn [rev]. rewrite le_val_app. cbn [le_val]. unfold zlen at 1. rewrite length_rev.
  fold (zlen s). lia.
Qed.

(** A byte or-ed into a word whose bits from there down are clear. *)
Lemma lor_byte w x q : word_ok w -> byte_ok x -> 0 <= q < 4 ->
  (forall m, 0 <= m < 8 * q + 8 -> Z.testbit w m = false) ->
  Z.lor w (u32 (Z.shiftl x (8 * q))) = w + x * 2 ^ (8 * q) /\ word_ok (w + x * 2 ^ (8 * q)).
Proof.
  intros Hw Hx Hq Hlow. unfold byte_ok in Hx.
  assert (x * 2 ^ (8 * q) < 2 ^ (8 * q + 8)) as Hxl.
  { rewrite Z.pow_add_r by lia. change (2 ^ 8) with 256. assert (0 < 2 ^ (8 * q)) by (apply Z.pow_pos_nonneg; lia). nia. }
  assert (0 <= x * 2 ^ (8 * q)) as Hx0 by (apply Z.mul_nonneg_nonneg; [lia|apply Z.pow_nonneg; lia]).
  assert (2 ^ (8 * q + 8) <= 2 ^ 32) as Hp by (apply Z.pow_le_mono_r; lia).
  assert (u32 (Z.shiftl x (8 * q)) = x * 2 ^ (8 * q)) as E
    by (rewrite Z.shiftl_mul_pow2 by lia; apply wrap_small; lia).
  assert (Z.land w (x * 2 ^ (8 * q)) = 0) as L.
  { apply Z.bits_inj'. intros m Hm. rewrite Z.land_spec, Z.bits_0.
    destruct (Z.lt_ge_cases m (8 * q + 8)); [by rewrite Hlow by lia|].
    rewrite (Z.bits_above_log2 (x * 2 ^ (8 * q))), andb_false_r; [done|lia|].
    destruct (Z.eq_dec (x * 2 ^ (8 * q)) 0) as [->|]; [cbn; lia|].
    apply Z.lt_le_trans with (8 * q + 8); [|lia]. apply Z.log2_lt_pow2; lia. }
  pose proof (Z.add_lor_land w (x * 2 ^ (8 * q))) as A. rewrite L in A. rewrite E.
  split; [lia|]. replace (w + x * 2 ^ (8 * q)) with (Z.lor w (x * 2 ^ (8 * q))) by lia.
  apply lor_word; [done|]. unfold word_ok. lia.
Qed.

Lemma mod_low_bits v k m : 0 <= k -> v mod 256 ^ k = 0 -> 0 <= m < 8 * k -> Z.testbit v m = false.
Proof.
  intros Hk Hv Hm. change 256 with (2 ^ 8) in Hv. rewrite <- Z.pow_mul_r in Hv by lia.
  rewrite <- (Z.mod_pow2_bits_low v (8 * k) m) by lia. rewrite Hv. apply Z.bits_0.
Qed.

Lemma run_from_loop s : forall b offset shift, bytes_ok s -> Forall word_ok (bm_d b) ->
  (s <> [] -> offset = (zlen s - 1) / 4 /\ shift = 8 * ((zlen s - 1) mod 4) /\ offset < zlen (bm_d b)) ->
  zlen (bm_d b) <= 2 ^ 32 ->
  words_val (bm_d b) mod 256 ^ zlen s = 0 ->
  exists d', from_loop s offset shift b = Some (mk_bitmap d' (bm_len b) (bm_top b)) /\
    zlen d' = zlen (bm_d b) /\ Forall word_ok d' /\ words_val d' = words_val (bm_d b) + be_val s /\
    (s <> [] -> forall i, offset < Z.of_nat i -> nth i d' 0 = nth i (bm_d b) 0).
Proof.
  induction s as [|x s IH]; intros b offset shift Hok Hd Hpos Hbig Hmod.
  { exists (bm_d b). cbn. destruct b. split_and!; auto. unfold be_val. cbn. lia. }
  destruct (Hpos ltac:(done)) as (Ho & Hs & Hr). clear Hpos. apply Forall_cons in Hok as [Hx Hok].
  rewrite zlen_cons in *. pose proof (zlen_nonneg s) as Ls. replace (1 + zlen s - 1) with (zlen s) in * by lia.
  set (q := zlen s mod 4) in *. pose proof (Z.mod_pos_bound (zlen s) 4 ltac:(lia)) as Hq.
  pose proof (Z.div_mod (zlen s) 4 ltac:(lia)) as Hdm. rewrite <- Ho in Hdm. fold q in Hdm, Hq.
  assert (0 <= offset) as Ho0 by lia. set (w := nth (Z.to_nat offset) (bm_d b) 0).
  pose proof (nth_word_ok (bm_d b) (Z.to_nat offset) Hd) as Hw. fold w in Hw.
  assert (forall m, 0 <= m < 8 * q + 8 -> Z.testbit w m = false) as Hlow.
  { intros m Hm. rewrite <- (mod_low_bits (words_val (bm_d b)) (1 + zlen s) (32 * offset + m)) by (done || lia).
    rewrite words_testbit by (done || lia). unfold w.
    rewrite (Z.mul_comm 32), Z.add_comm, Z.div_add, Z.mod_add, Z.div_small, Z.mod_small by lia. done. }
  destruct (lor_byte w x q Hw Hx Hq Hlow) as [EL HL].
  cbn [from_loop]. rewrite rd_nth by lia. fold w. cbn [mbind option_bind].
  rewrite wr_ok by lia. cbn [mbind option_bind]. rewrite Hs, EL.
  set (b1 := mk_bitmap _ _ _).
  assert (words_val (bm_d b1) = words_val (bm_d b) + 256 ^ zlen s * x) as V1.
  { cbn [bm_d b1]. rewrite words_val_insert by (unfold zlen in Hr; lia). fold w.
    rewrite Z2Nat.id by lia. replace (256 ^ zlen s) with (2 ^ (32 * offset) * 2 ^ (8 * q)); [lia|].
    rewrite <- Z.pow_add_r by lia. change 256 with (2 ^ 8). rewrite <- Z.pow_mul_r by lia. f_equal. lia. }
  assert (0 < 256 ^ zlen s) as Hpw by (apply Z.pow_pos_nonneg; lia).
  assert (words_val (bm_d b1) mod 256 ^ zlen s = 0) as Hm1.
  { rewrite V1, Z.mul_comm, Z.mod_add by lia. rewrite Z.pow_add_r in Hmod by lia.
    apply Z.mod_divide; [lia|]. apply Z.mod_divide in Hmod; [|lia].
    destruct Hmod as [z Hz]. exists (z * 256 ^ 1). lia. }
  assert (Forall word_ok (bm_d b1)) as Hd1 by by apply Forall_insert.
  set (offset' := if 8 * q =? 0 then sizet (offset - 1) else offset).
  set (shift' := if 8 * q =? 0 then BITMAP_BITS - 8 else 8 * q - 8).
  assert (zlen (bm_d b1) = zlen (bm_d b)) as L1 by apply zlen_insert.
  assert (s <> [] -> offset' = (zlen s - 1) / 4 /\ shift' = 8 * ((zlen s - 1) mod 4)) as Hnext.
  { intros Hne. assert (0 < zlen s) by (destruct s; [done|]; rewrite zlen_cons; pose proof (zlen_nonneg s); lia).
    unfold offset', shift', BITMAP_BITS, q in *. destruct (Z.eqb_spec (8 * (zlen s mod 4)) 0); [|split; dlia].
    rewrite wrap_small by dlia. split; dlia. }
  destruct (IH b1 offset' shift' Hok Hd1) as (d' & R & L' & W' & V' & K'); [|lia|done|].
  { intros Hne. destruct (Hnext Hne) as [-> ->]. split_and!; [done|done|]. rewrite L1. dlia. }
  exists d'. split_and!.
  - etransitivity; [|exact R]. unfold offset', shift'. by destruct (8 * q =? 0).
  - by rewrite L'.
  - done.
  - rewrite V', V1, be_val_cons. lia.
  - intros _ i Hi.
    assert (nth i (bm_d b1) 0 = nth i (bm_d b) 0) as N1.
    { cbn [bm_d b1]. rewrite nth_insert by (unfold zlen in Hr; lia). by rewrite decide_False by lia. }
    destruct s as [|y s]; [by injection R as <-|]. rewrite K'; [done|done|].
    destruct (Hnext ltac:(done)) as [-> _]. dlia.
Qed.

Lemma zero_ok b : bm_ok b -> bm_ok (bitmap_zero b) /\ value (bitmap_zero b) = 0.
Proof.
  intros [Bl Bt Bw Bh Bm]. pose proof (zlen_nonneg (bm_d b)). split; [constructor; cbn|apply words_val_zeros].
  - rewrite zlen_zeros by lia. done.
  - lia.
  - apply Forall_replicate, word_ok_0.
  - intros. apply nth_zeros.
  - done.
Qed.

Lemma run_from_string ok b s : bm_ok b -> bytes_ok s ->
  exists r b', bitmap_from_string ok b s = Some (r, b') /\ bm_ok b' /\
    (r = 0 /\ zlen s <= BITMAP_MAX / 8 /\ value b' = be_val s \/
     r = -1 /\ b' = b /\ (BITMAP_MAX / 8 < zlen s \/ ok = false)).
Proof.
  intros B Hok. unfold bitmap_from_string. rewrite Z.gtb_ltb. pose proof (zlen_nonneg s).
  destruct (Z.ltb_spec (BITMAP_MAX / 8) (zlen s)) as [|Hl]; [exists (-1), b; split_and!; auto 6|].
  change (BITMAP_MAX / 8) with (2 ^ 21) in *. rewrite wrap_small by lia.
  pose proof (run_bitmap_reserve b B ok (zlen s * 8) ltac:(lia)) as R.
  destruct (reserve ok b (zlen s * 8)) as [r b1].
  destruct R as (B1 & _ & _ & [(-> & Hi & _)|(-> & -> & [Hbad|Hbad])]); cbn [Z.eqb negb].
  2:{ unfold BITMAP_MAX in Hbad. lia. }
  2:{ exists (-1), b. split_and!; auto. }
  destruct (zero_ok b1 B1) as [B2 V2]. destruct (Z.eqb_spec (zlen s) 0) as [L0|L0].
  { destruct s; [|rewrite zlen_cons in L0; pose proof (zlen_nonneg s); lia].
    exists 0, (bitmap_zero b1). split_and!; auto. }
  change BITMAP_BYTES with 4. set (offset := (zlen s + (4 - 1)) / 4 - 1).
  assert (zlen (bm_d (bitmap_zero b1)) = zlen (bm_d b1)) as Lz
    by (cbn; rewrite zlen_zeros; destruct B1; lia).
  assert (offset = (zlen s - 1) / 4) as Ho by (unfold offset; dlia).
  destruct (run_from_loop s (set_top offset (bitmap_zero b1)) offset ((zlen s + (4 - 1)) mod 4 * 8))
    as (d' & R & L' & W' & V' & K'); cbn [set_top bm_d].
  - done.
  - apply B2.
  - intros _. rewrite Lz, Ho. split_and!; dlia.
  - rewrite Lz. destruct B1. lia.
  - change (words_val (bm_d (bitmap_zero b1))) with (value (bitmap_zero b1)). rewrite V2. apply Z.mod_0_l.
    apply Z.pow_nonzero; lia.
  - rewrite R. cbn [mbind option_bind set_top bm_len bm_top].
    set (b3 := mk_bitmap d' (bm_len (bitmap_zero b1)) offset).
    destruct (run_retop b3) as (b' & R' & B' & D' & _).
    { cbn [set_top bm_d] in L'. destruct B1 as [Bl Bt Bw Bh Bm].
      constructor; cbn; [lia|rewrite Ho; dlia|done| |done].
      intros i Hi'. rewrite K'; [apply nth_zeros|by intros ->|done]. }
    rewrite R'. exists 0, b'. split_and!; auto. left. split_and!; auto.
    unfold value. rewrite D'. cbn [b3 bm_d]. rewrite V'. cbn [set_top bm_d].
    change (words_val (bm_d (bitmap_zero b1))) with (value (bitmap_zero b1)). lia.
Qed.

(** ** Refinement *)

Inductive bop :=
| BSet (n : Z) (ok : bool)
| BClear (n : Z)
| BZero
| BFrom (s : list Z) (ok : bool).

Definition bexec (o : bop) (b : bitmap) : option (Z * bitmap) :=
  match o with
  | BSet n ok => bitmap_set_bit ok b n
  | BClear n => b ← bitmap_clear_bit b n; Some (0, b)
  | BZero => Some (0, bitmap_zero b)
  | BFrom s ok => bitmap_from_string ok b s
  end.

Definition bop_ok (o : bop) : Prop :=
  match o with
  | BSet n _ => 0 <= n < 2 ^ 32
  | BClear n => 0 <= n <= BITMAP_MAX
  | BZero => True
  | BFrom s _ => bytes_ok s
  end.

(** The operation on numbers; a failed call changes nothing. *)
Definition bspec (o : bop) (r v : Z) : Z :=
  if negb (r =? 0) then v
  else match o with
       | BSet n _ => Z.setbit v n
       | BClear n => Z.clearbit v n
       | BZero => 0
       | BFrom s _ => be_val s
       end.

(** The failures that are allowed: an index or length over the limit, or no
    memory. *)
Definition bfail (o : bop) : Prop :=
  match o with
  | BSet n ok => BITMAP_MAX < n \/ ok = false
  | BFrom s ok => BITMAP_MAX / 8 < zlen s \/ ok = false
  | _ => False
  end.

Lemma bexec_refines o b : bm_ok b -> bop_ok o ->
  exists r b', bexec o b = Some (r, b') /\ bm_ok b' /\ value b' = bspec o r (value b) /\
    (r = 0 \/ r = -1 /\ bfail o).
Proof.
  intros B Ho. unfold bspec. destruct o as [n ok|n| |s ok]; cbn [bexec bfail bop_ok] in *.
  - destruct (run_set_bit b B ok n Ho) as (r & b' & R & B' & [(-> & _ & V)|(-> & -> & F)]);
      eexists _, _; split_and!; eauto.
  - destruct (run_clear_bit b n B Ho) as (b' & R & B' & V). exists 0, b'. rewrite R. split_and!; auto.
  - destruct (zero_ok b B). exists 0, (bitmap_zero b). split_and!; auto.
  - destruct (run_from_string ok b s B Ho) as (r & b' & R & B' & [(-> & _ & V)|(-> & -> & F)]);
      eexists _, _; split_and!; eauto.
Qed.

(** The return codes and the bitmap after a sequence of calls. *)
Fixpoint bexecs (os : list bop) (b : bitmap) : option (list Z * bitmap) :=
  match os with
  | [] => Some ([], b)
  | o :: os => '(r, b) ← bexec o b; '(rs, b) ← bexecs os b; Some (r :: rs, b)
  end.

Fixpoint bspecs (os : list bop) (rs : list Z) (v : Z) : Z :=
  match os, rs with
  | o :: os, r :: rs => bspecs os rs (bspec o r v)
  | _, _ => v
  end.

Lemma bexecs_refines os : forall b, bm_ok b -> Forall bop_ok os ->
  exists rs b', bexecs os b = Some (rs, b') /\ bm_ok b' /\ value b' = bspecs os rs (value b) /\
    Forall2 (fun o r => r = 0 \/ r = -1 /\ bfail o) os rs.
Proof.
  induction os as [|o os IH]; intros b B Hok; [exists [], b; split_and!; auto|].
  apply Forall_cons in Hok as [Ho Hok]. destruct (bexec_refines o b B Ho) as (r & b1 & R & B1 & V1 & F1).
  destruct (IH b1 B1 Hok) as (rs & b2 & R2 & B2 & V2 & F2). exists (r :: rs), b2.
  cbn [bexecs]. rewrite R. cbn [mbind option_bind]. rewrite R2. cbn [mbind option_bind bspecs].
  rewrite <- V1. split_and!; auto.
Qed.

Definition bitmap_init : bitmap := mk_bitmap [0] 1 0.

Lemma bitmap_init_ok : bm_ok bitmap_init.
Proof.
  constructor; cbn; [done|lia|constructor; [apply word_ok_0|constructor]| |lia].
  intros i Hi. destruct i as [|i]; [lia|]. by destruct i.
Qed.



Lemma bit_length_max v : 0 <= v -> v < 2 ^ BITMAP_MAX -> bit_length v <= 2 ^ 24.
Proof.
  change (2 ^ 24) with BITMAP_MAX. generalize (eq_refl : (0 <=? BITMAP_MAX) = true).
  generalize BITMAP_MAX. intros m Hm%Z.leb_le H0 Hv. unfold bit_length.
  destruct (Z.eqb_spec v 0); [done|]. apply Z.log2_lt_pow2 in Hv; lia.
Qed.

(** The string form round-trips: a bitmap written to a large enough array
    and read into any other bitmap gives the same number, the string is as
    short as the number allows and the rest of the array is untouched; a
    smaller array is refused. *)
Theorem bitmap_string_roundtrip b p c :
  bm_ok b -> bm_ok c -> value b < 2 ^ BITMAP_MAX ->
  let need := (bit_length (value b) + 7) / 8 in
  if zlen p <? need then exists b', bitmap_to_string b p = Some (-1, p, b')
  else exists s b' c', bitmap_to_string b p = Some (0, s ++ drop (Z.to_nat need) p, b') /\
    zlen s = need /\ bitmap_from_string true c s = Some (0, c') /\
    bm_ok c' /\ value c' = value b.
Proof.
  intros B C Hv need. destruct (run_to_string b p B) as (b' & B' & D' & R). fold need in R.
  destruct (zlen p <? need); [by exists b'|]. destruct R as (s & R & Ls & Hok & Hs).
  destruct (run_from_string true c s C Hok) as (r & c' & R' & C' & [(-> & _ & V)|(_ & _ & [Hbig|Hbad])]).
  - exists s, b', c'. split_and!; auto. congruence.
  - exfalso. change (BITMAP_MAX / 8) with (2 ^ 21) in Hbig. rewrite Ls in Hbig.
    pose proof (bit_length_max (value b) (words_val_nonneg _ (bok_words _ B)) Hv) as Hbl.
    clear Hv. unfold need in Hbig. dlia.
  - done.
Qed.

Lemma below_max v : v < 8 -> v < 2 ^ BITMAP_MAX.
Proof.
  intros Hv. assert (2 ^ 3 <= 2 ^ BITMAP_MAX) as Hp; [|change (2 ^ 3) with 8 in Hp; lia].
  generalize (eq_refl : (3 <=? BITMAP_MAX) = true). generalize BITMAP_MAX. intros m Hm%Z.leb_le.
  apply Z.pow_le_mono_r; lia.
Qed.

Lemma bitmap_string_roundtrip_witness :
  exists s b' c', bitmap_to_string (mk_bitmap [5; 0; 0] 3 2) [7; 7] = Some (0, s ++ drop 1 [7; 7], b') /\
    zlen s = 1 /\ bitmap_from_string true bitmap_init s = Some (0, c') /\
    bm_ok c' /\ value c' = 5.
Proof.
  apply (bitmap_string_roundtrip (mk_bitmap [5; 0; 0] 3 2) [7; 7] bitmap_init).
  - constructor; cbn.
    + reflexivity.
    + lia.
    + repeat constructor; vm_compute; discriminate || reflexivity.
    + intros i Hi. destruct i as [|[|[|[|i]]]]; lia || reflexivity.
    + lia.
  - apply bitmap_init_ok.
  - apply below_max. vm_compute. reflexivity.
Defined.
