(* ===== verification/Match.v ===== *)
(** * Pattern matching: [match.c]

    [match_pattern] with the state arrays of its automaton, the pattern lists
    built on it, and the selection of algorithm names from proposals. *)

From S2P Require Import Prelude Cstring.

(** ** [match_pattern] *)

Definition star : Z := Eval vm_compute in chr "*".
Definition quest : Z := Eval vm_compute in chr "?".

(** [states[i]] and [pattern[i]]. *)
Definition on (states : list bool) (i : nat) : bool := nth i states false.
Definition pat_at (pattern : list Z) (i : nat) : Z := nth i pattern 0.

(** One round of the loop of [epsilon_closure]. *)
Definition closure_step (pattern : list Z) (states : list bool) (i : nat) : list bool :=
  if negb (on states i) || negb (pat_at pattern i =? star) then states
  else <[S i := true]> states.

Definition epsilon_closure (states : list bool) (pattern : list Z) (M : nat) : list bool :=
  foldl (closure_step pattern) states (seq 0 M).

(** One round of the loop that computes [next_states] for the character [c]. *)
Definition next_step (pattern : list Z) (states : list bool) (c : Z)
    (next : list bool) (i : nat) : list bool :=
  if negb (on states i) then next
  else if pat_at pattern i =? star then <[i := true]> next
  else if (pat_at pattern i =? quest) || (pat_at pattern i =? c) then <[S i := true]> next
  else next.

Definition advance (pattern : list Z) (M : nat) (states : list bool) (c : Z) : list bool :=
  epsilon_closure
    (foldl (next_step pattern states c) (replicate (S M) false) (seq 0 M)) pattern M.

(** The loop over the input. *)
Fixpoint match_loop (pattern : list Z) (M : nat) (s : list Z) (states : list bool) : bool :=
  match s with
  | [] => on states M
  | c :: s =>
      let states := advance pattern M states c in
      if negb (existsb id states) then false
      else match_loop pattern M s states
  end.

Definition match_pattern (s pattern : list Z) : bool :=
  let M := length pattern in
  if (M =? 0)%nat then bool_decide (s = [])
  else match_loop pattern M s (epsilon_closure (true :: replicate M false) pattern M).

(** ** Pattern lists *)

Definition SUB_SIZE : Z := 1024.

(** The copy into [sub]: characters up to a comma or the end, at most
    [room] of them. *)
Fixpoint take_sub (pattern : list Z) (room : nat) (dolower : bool) : list Z * list Z :=
  match pattern, room with
  | c :: pattern', S room =>
      if c =? chr "," then ([], pattern)
      else
        let '(sub, rest) := take_sub pattern' room dolower in
        ((if dolower && isupper c then tolower c else c) :: sub, rest)
  | _, _ => ([], pattern)
  end.

(** The loop; every round consumes a character, so the pattern's length is
    enough fuel. *)
Fixpoint match_list_loop (fuel : nat) (string pattern : list Z) (dolower : bool) (got_positive : Z) : Z :=
  match fuel, pattern with
  | _, [] => got_positive
  | O, _ => got_positive
  | S fuel, c :: p =>
      let '(negated, pattern) := if c =? chr "!" then (true, p) else (false, pattern) in
      let '(sub, pattern) := take_sub pattern (Z.to_nat (SUB_SIZE - 1)) dolower in
      if zlen sub >=? SUB_SIZE - 1 then 0
      else
        let pattern := match pattern with
                       | c :: p => if c =? chr "," then p else pattern
                       | [] => [] end in
        if match_pattern string sub then
          if negated then -1 else match_list_loop fuel string pattern dolower 1
        else match_list_loop fuel string pattern dolower got_positive
  end.

Definition match_pattern_list (string pattern : list Z) (dolower : bool) : Z :=
  match_list_loop (length pattern) string pattern dolower 0.

(** The Windows branch: the first slash of the caller's pattern is overwritten
    with a backslash; the string after the call comes second. *)
Fixpoint backslash_first (p : list Z) : list Z :=
  match p with
  | [] => []
  | c :: p => if c =? chr "/" then chr "\" :: p else c :: backslash_first p
  end.

Definition match_usergroup_pattern_list (string pattern : list Z) : Z * list Z :=
  let pattern := backslash_first pattern in
  (match_pattern_list string pattern true, pattern).

Definition lowercase (s : list Z) : list Z := tolower <$> s.

Definition match_hostname (host pattern : list Z) : Z :=
  match_pattern_list (lowercase host) pattern true.

(** ** Selecting from proposals *)

Definition MAX_PROP : nat := 40.

(** Tokens up to the first empty one. *)
Fixpoint until_empty (ts : list (list Z)) : list (list Z) :=
  match ts with
  | [] => []
  | t :: ts => if bool_decide (t = []) then [] else t :: until_empty ts
  end.

(** The search over the client's tokens; [off] is the offset of the current
    one in the list, so that [next] is the offset after its comma. [strlen(c)]
    is taken after [strsep] has put NULs over the commas: it is [first], the
    length of the first token. *)
Fixpoint match_list_search (client : list (list Z)) (server : list (list Z)) (off first : Z)
  : option (list Z) * Z :=
  match client with
  | [] => (None, first)
  | p :: client' =>
      if bool_decide (p = []) then (None, first)
      else if bool_decide (p ∈ server) then
        (Some p, if bool_decide (client' = []) then first else off + zlen p + 1)
      else match_list_search client' server (off + zlen p + 1) first
  end.

Definition match_list (client server : list Z) : option (list Z) * Z :=
  match_list_search (split client) (take MAX_PROP (until_empty (split server))) 0
    (zlen (default [] (head (split client)))).

(** The loop of [filter_list] over the tokens of the proposal. *)
Fixpoint filter_loop (ts : list (list Z)) (filter : list Z) (denylist : bool) (fix_prop : list Z) (len : Z)
  : list Z :=
  match ts with
  | [] => fix_prop
  | cp :: ts =>
      let r := match_pattern_list cp filter false in
      let fix_prop :=
        if (denylist && negb (r =? 1)) || (negb denylist && (r =? 1)) then
          let fix_prop := if bool_decide (fix_prop = []) then fix_prop
                          else (strlcat fix_prop (str ",") len).1 in
          (strlcat fix_prop cp len).1
        else fix_prop in
      filter_loop ts filter denylist fix_prop len
  end.

(** [ok]: whether the two allocations succeed. *)
Definition filter_list (ok : bool) (proposal filter : list Z) (denylist : bool) : option (list Z) :=
  if negb ok then None
  else Some (filter_loop (split proposal) filter denylist [] (zlen proposal + 1)).

Definition match_filter_denylist (ok : bool) (proposal filter : list Z) : option (list Z) :=
  filter_list ok proposal filter true.
Definition match_filter_allowlist (ok : bool) (proposal filter : list Z) : option (list Z) :=
  filter_list ok proposal filter false.

Example match_ex :
  match_pattern (str "www.example.org") (str "*.exam?le.o*g") = true /\
  match_pattern (str "aab") (str "a*a") = false /\
  match_pattern_list (str "host.b") (str "*.a,!host.*,*.b") false = -1 /\
  match_list (str "x,b,a") (str "a,b") = (Some (str "b"), 4) /\
  match_list (str "xyz,b") (str "a,b") = (Some (str "b"), 3) /\
  match_filter_denylist true (str "aes128-cbc,aes128-ctr,3des-cbc") (str "*-cbc") = Some (str "aes128-ctr").
Proof. vm_compute. repeat split. Qed.
