(* ===== verification/MatchThms.v ===== *)
(** * Properties of [match.c] *)

From S2P Require Import Prelude Cstring Match.

(** ** Wildcard patterns *)

(** What one pattern character matches: a star any string, a question mark any
    one character, another character itself. *)
Definition item_match (c : Z) (w : list Z) : Prop :=
  if c =? star then True else if c =? quest then exists x, w = [x] else w = [c].

(** A string matches a pattern when it is cut into one piece per character. *)
Definition glob (p s : list Z) : Prop := exists ws, Forall2 item_match p ws /\ s = concat ws.

Lemma glob_nil s : glob [] s <-> s = [].
Proof.
  split.
  - intros (ws & Hf & ->). by apply Forall2_nil_inv_l in Hf as ->.
  - intros ->. exists []. by split; [constructor|].
Qed.

Lemma glob_snoc p c s : glob (p ++ [c]) s <-> exists s1 w, s = s1 ++ w /\ glob p s1 /\ item_match c w.
Proof.
  split.
  - intros (ws & Hf & ->). apply Forall2_app_inv_l in Hf as (ws1 & ws2 & H1 & H2 & ->).
    apply Forall2_cons_inv_l in H2 as (w & ws3 & Hw & H3 & ->). apply Forall2_nil_inv_l in H3 as ->.
    exists (concat ws1), w. rewrite concat_app. cbn. rewrite app_nil_r. split_and!; auto. by exists ws1.
  - intros (s1 & w & -> & (ws & Hf & ->) & Hw). exists (ws ++ [w]). split.
    + apply Forall2_app; [done|]. by constructor.
    + rewrite concat_app. cbn. by rewrite app_nil_r.
Qed.

(** The last character decides how a longer string is matched. *)
Lemma glob_star p s : glob (p ++ [star]) s <-> exists s1 w, s = s1 ++ w /\ glob p s1.
Proof. rewrite glob_snoc. split; intros (s1 & w & H); exists s1, w; naive_solver. Qed.

Lemma glob_star_snoc p s x : glob (p ++ [star]) (s ++ [x]) <-> glob p (s ++ [x]) \/ glob (p ++ [star]) s.
Proof.
  rewrite !glob_star. split.
  - intros (s1 & w & E & G). destruct w as [|y w _] using rev_ind; [left; by rewrite E, app_nil_r|].
    rewrite app_assoc in E. apply app_inj_tail in E as [-> ->]. right. by exists s1, w.
  - intros [G|(s1 & w & -> & G)]; [exists (s ++ [x]), []|exists s1, (w ++ [x])].
    + by rewrite app_nil_r.
    + by rewrite app_assoc.
Qed.

Lemma glob_star_nil p : glob (p ++ [star]) [] <-> glob p [].
Proof.
  rewrite glob_star. split.
  - intros (s1 & w & E & G). symmetry in E. by apply app_eq_nil in E as [-> ->].
  - intros G. by exists [], [].
Qed.

Lemma glob_char_snoc p c s x : c <> star ->
  glob (p ++ [c]) (s ++ [x]) <-> glob p s /\ (c = quest \/ c = x).
Proof.
  intros Hc. rewrite glob_snoc. unfold item_match. rewrite (proj2 (Z.eqb_neq c star)) by done. split.
  - intros (s1 & w & E & G & Hw). destruct (Z.eqb_spec c quest).
    + destruct Hw as [y ->]. apply app_inj_tail in E as [-> ->]. auto.
    + subst w. apply app_inj_tail in E as [-> ->]. auto.
  - intros [G Hx]. exists s, [x]. split_and!; auto. destruct (Z.eqb_spec c quest); [by exists x|].
    destruct Hx; congruence.
Qed.

Lemma glob_char_nil p c : c <> star -> ~ glob (p ++ [c]) [].
Proof.
  intros Hc. rewrite glob_snoc. unfold item_match. rewrite (proj2 (Z.eqb_neq c star)) by done.
  intros (s1 & w & E & _ & Hw). symmetry in E. apply app_eq_nil in E as [-> ->].
  destruct (c =? quest); [by destruct Hw|done].
Qed.

(** ** The loops of the automaton *)

Section Automaton.
Context (pattern : list Z).
Let M := length pattern.

Lemma on_insert st i j : (i < length st)%nat ->
  on (<[i := true]> st) j = (bool_decide (j = i)) || on st j.
Proof.
  intros Hi. unfold on. rewrite !nth_lookup. case_bool_decide as E.
  - subst. by rewrite list_lookup_insert_eq.
  - by rewrite list_lookup_insert_ne.
Qed.

Definition is_star (i : nat) : bool := pat_at pattern i =? star.
Definition accepts (i : nat) (c : Z) : bool :=
  negb (is_star i) && ((pat_at pattern i =? quest) || (pat_at pattern i =? c)).

Lemma closure_prefix st n : length st = S M -> (n <= M)%nat ->
  let st' := foldl (closure_step pattern) st (seq 0 n) in
  length st' = S M /\ on st' 0 = on st 0 /\
  (forall j, (j < n)%nat -> on st' (S j) = on st (S j) || (on st' j && is_star j)) /\
  (forall j, (n < j)%nat -> on st' j = on st j).
Proof.
  intros Hl. induction n as [|n IH]; intros Hn; [cbn; split_and!; auto; lia|].
  rewrite seq_S, foldl_app. cbn [foldl]. rewrite Nat.add_0_l.
  set (st1 := foldl (closure_step pattern) st (seq 0 n)) in *.
  destruct IH as (L1 & Z1 & S1 & H1); [lia|]. unfold closure_step. fold (is_star n).
  destruct (on st1 n) eqn:On, (is_star n) eqn:Is; cbn [negb orb].
  - split_and!.
    + by rewrite length_insert.
    + rewrite on_insert by lia. rewrite bool_decide_eq_false_2 by lia. done.
    + intros j Hj. rewrite !on_insert by lia. rewrite (bool_decide_eq_false_2 (j = S n)) by lia. cbn [orb].
      case_bool_decide as E.
      * replace j with n by lia. rewrite On, Is. by rewrite orb_true_r.
      * cbn [orb]. apply S1. lia.
    + intros j Hj. rewrite on_insert by lia. rewrite bool_decide_eq_false_2 by lia. apply H1. lia.
  - split_and!; auto; [|intros j Hj; apply H1; lia].
    intros j Hj. destruct (decide (j = n)) as [->|]; [|apply S1; lia].
    rewrite H1 by lia. by rewrite On, Is, orb_false_r.
  - split_and!; auto; [|intros j Hj; apply H1; lia].
    intros j Hj. destruct (decide (j = n)) as [->|]; [|apply S1; lia].
    rewrite H1 by lia. by rewrite On, orb_false_r.
  - split_and!; auto; [|intros j Hj; apply H1; lia].
    intros j Hj. destruct (decide (j = n)) as [->|]; [|apply S1; lia].
    rewrite H1 by lia. by rewrite On, orb_false_r.
Qed.

Lemma closure_spec st : length st = S M ->
  let st' := epsilon_closure st pattern M in
  length st' = S M /\ on st' 0 = on st 0 /\
  (forall j, (j < M)%nat -> on st' (S j) = on st (S j) || (on st' j && is_star j)).
Proof. intros Hl. destruct (closure_prefix st M Hl) as (? & ? & ? & _); auto. Qed.

Lemma on_replicate n j : on (replicate n false) j = false.
Proof.
  unfold on. rewrite nth_lookup. destruct (replicate n false !! j) as [b|] eqn:E; [|done].
  by apply lookup_replicate in E as [-> _].
Qed.

Lemma on_insert_iff st i j : (i < length st)%nat ->
  on (<[i := true]> st) j = true <-> j = i \/ on st j = true.
Proof. intros Hi. rewrite on_insert by done. by rewrite orb_true_iff, bool_decide_eq_true. Qed.

(** Where the character [c] leads from the states below [n]. *)
Definition reached (st : list bool) (c : Z) (n j : nat) : Prop :=
  ((j < n)%nat /\ on st j = true /\ is_star j = true) \/
  exists i, j = S i /\ (i < n)%nat /\ on st i = true /\ accepts i c = true.

Lemma next_prefix st c n : (n <= M)%nat ->
  let ns := foldl (next_step pattern st c) (replicate (S M) false) (seq 0 n) in
  length ns = S M /\ forall j, on ns j = true <-> reached st c n j.
Proof.
  induction n as [|n IH]; intros Hn.
  { cbn [seq foldl]. split; [by rewrite length_replicate|]. intros j. rewrite on_replicate.
    unfold reached. split; [done|]. intros [[? _]|(i & _ & ? & _)]; lia. }
  rewrite seq_S, foldl_app. cbn [foldl]. rewrite Nat.add_0_l.
  set (ns := foldl (next_step pattern st c) (replicate (S M) false) (seq 0 n)) in *.
  destruct IH as (L & H); [lia|].
  assert (forall j, reached st c (S n) j <-> reached st c n j \/
    (on st n = true /\ (j = n /\ is_star n = true \/ j = S n /\ accepts n c = true))) as Step.
  { intros j. unfold reached. split.
    - intros [(Hj & Hs & Hp)|(i & -> & Hi & Hs & Hp)].
      + destruct (decide (j = n)) as [->|]; [auto|]. left. left. split_and!; auto. lia.
      + destruct (decide (i = n)) as [->|]; [auto|]. left. right. exists i. split_and!; auto. lia.
    - intros [[(Hj & Hs & Hp)|(i & -> & Hi & Hs & Hp)]|(Hs & [(-> & Hp)|(-> & Hp)])].
      + left. split_and!; auto.
      + right. exists i. split_and!; auto.
      + left. split_and!; auto.
      + right. exists n. split_and!; auto. }
  unfold next_step. fold (is_star n). unfold accepts in *.
  destruct (on st n); cbn [negb].
  2:{ split; [done|]. intros j. rewrite H, Step. naive_solver. }
  destruct (is_star n); cbn [negb andb] in *.
  { split; [by rewrite length_insert|]. intros j. rewrite on_insert_iff by lia. rewrite H, Step. naive_solver. }
  destruct (_ || _); (split; [by rewrite ?length_insert|]); intros j;
    rewrite ?on_insert_iff by lia; rewrite H, Step; naive_solver.
Qed.

(** One input character, in closed form. *)
Lemma advance_spec st c : let st' := advance pattern M st c in
  length st' = S M /\
  (on st' 0 = true <-> (0 < M)%nat /\ on st 0 = true /\ is_star 0 = true) /\
  forall j, (j < M)%nat ->
    (on st' (S j) = true <->
       ((S j < M)%nat /\ on st (S j) = true /\ is_star (S j) = true) \/
       (on st j = true /\ accepts j c = true) \/ (on st' j = true /\ is_star j = true)).
Proof.
  cbv zeta. unfold advance. destruct (next_prefix st c M ltac:(lia)) as (L & H).
  set (ns := foldl _ _ _) in *. destruct (closure_spec ns L) as (L' & Z' & S'). split_and!; auto.
  - rewrite Z', H. unfold reached. naive_solver lia.
  - intros j Hj. rewrite S' by done. rewrite orb_true_iff, andb_true_iff, H. unfold reached.
    split.
    + intros [[?|(i & [= <-] & ? & ?)]|?]; auto.
    + intros [?|[[? ?]|?]]; auto. left. right. by exists j.
Qed.

(** ** The states mean prefixes of the pattern *)

(** State [j] stands for the pattern's first [up j] characters: a star is
    counted as soon as it is reached. *)
Definition up (j : nat) : nat := if is_star j then S j else j.

Definition means (st : list bool) (x : list Z) : Prop :=
  length st = S M /\ forall j, (j <= M)%nat -> on st j = true <-> glob (take (up j) pattern) x.

Lemma take_S_pat j : (j < M)%nat -> take (S j) pattern = take j pattern ++ [pat_at pattern j].
Proof.
  intros Hj. destruct (lookup_lt_is_Some_2 pattern j Hj) as [c Hc]. rewrite (take_S_r _ _ c Hc).
  unfold pat_at. by rewrite (nth_lookup_Some _ _ 0 c Hc).
Qed.

Lemma is_star_lt j : is_star j = true -> (j < M)%nat.
Proof.
  unfold is_star, pat_at. intros H. destruct (Nat.lt_ge_cases j (length pattern)); [done|].
  by rewrite nth_overflow in H.
Qed.

Lemma is_star_pat j : is_star j = true -> pat_at pattern j = star.
Proof. unfold is_star. apply Z.eqb_eq. Qed.

(** The prefix ending at state [j], after one more character. *)
Lemma glob_prefix_step j x c : (j < M)%nat ->
  glob (take (S j) pattern) (x ++ [c]) <->
  (is_star j = true /\ (glob (take j pattern) (x ++ [c]) \/ glob (take (S j) pattern) x)) \/
  (accepts j c = true /\ glob (take j pattern) x).
Proof.
  intros Hj. rewrite take_S_pat by done. unfold accepts, is_star. destruct (Z.eqb_spec (pat_at pattern j) star) as [->|Hc].
  - rewrite glob_star_snoc. cbn [negb andb]. naive_solver.
  - rewrite glob_char_snoc by done. cbn [negb andb]. rewrite orb_true_iff, !Z.eqb_eq. naive_solver.
Qed.

Lemma means_advance st x c : means st x -> means (advance pattern M st c) (x ++ [c]).
Proof.
  intros [L H]. destruct (advance_spec st c) as (L' & Z' & S'). split; [done|].
  set (st' := advance pattern M st c) in *.
  assert (forall j, (j <= M)%nat ->
    (on st' j = true <-> (is_star j = true /\ glob (take (S j) pattern) x) \/ glob (take j pattern) (x ++ [c]))) as K.
  { induction j as [|j IH]; intros Hj.
    - rewrite Z', take_0, glob_nil. rewrite (H 0%nat) by lia. unfold up. split.
      + intros (_ & G & Hs). rewrite Hs in G. auto.
      + intros [[Hs G]|E]; [|by destruct x]. rewrite Hs. split_and!; auto. by apply is_star_lt.
    - rewrite S' by lia. rewrite IH by lia. rewrite glob_prefix_step by lia.
      rewrite (H j) by lia. rewrite (H (S j)) by lia. unfold up, accepts in *. split.
      + intros [(Hl & G & Hs)|[[G Ha]|[[[Hs G]|G] Hs']]].
        * rewrite Hs in G. auto.
        * destruct (is_star j); [done|]. auto.
        * auto.
        * auto.
      + intros [[Hs G]|[[Hs [G|G]]|[Ha G]]].
        * left. rewrite Hs. split_and!; auto. by apply is_star_lt.
        * auto.
        * right. right. auto.
        * right. left. destruct (is_star j); [done|]. auto. }
  intros j Hj. rewrite K by done. unfold up. destruct (is_star j) eqn:Hs.
  - rewrite glob_prefix_step by by apply is_star_lt. unfold accepts. rewrite Hs. cbn [negb andb]. naive_solver.
  - naive_solver.
Qed.

Lemma means_init : means (epsilon_closure (true :: replicate M false) pattern M) [].
Proof.
  destruct (closure_spec (true :: replicate M false)) as (L & Z0 & S0); [cbn; by rewrite length_replicate|].
  split; [done|]. set (st := epsilon_closure _ _ _) in *.
  assert (forall j, (j <= M)%nat -> on st j = true <-> glob (take j pattern) []) as K.
  { induction j as [|j IH]; intros Hj; [rewrite Z0, take_0, glob_nil; done|].
    rewrite S0, take_S_pat by lia. change (on (true :: replicate M false) (S j)) with (on (replicate M false) j).
    rewrite on_replicate. cbn [orb]. rewrite andb_true_iff, IH by lia. unfold is_star.
    destruct (Z.eqb_spec (pat_at pattern j) star) as [->|Hc]; [rewrite glob_star_nil; naive_solver|].
    split; [naive_solver|]. intros G. by apply glob_char_nil in G. }
  intros j Hj. rewrite K by done. unfold up. destruct (is_star j) eqn:Hs; [|done].
  rewrite take_S_pat by by apply is_star_lt. rewrite is_star_pat by done. by rewrite glob_star_nil.
Qed.

(** A set without active states stays so. *)
Lemma advance_dead st c : (forall j, on st j = false) -> forall j, on (advance pattern M st c) j = false.
Proof.
  intros Hd. destruct (advance_spec st c) as (L' & Z' & S'). set (st' := advance _ _ _ _) in *.
  assert (forall j, (j <= M)%nat -> on st' j = false) as K.
  { induction j as [|j IH]; intros Hj; apply not_true_is_false.
    - rewrite Z', Hd. naive_solver.
    - rewrite S' by lia. rewrite !Hd, IH by lia. naive_solver. }
  intros j. destruct (Nat.le_gt_cases j M); [by apply K|]. unfold on. apply nth_overflow. lia.
Qed.

Lemma dead_no_glob s : forall st x, means st x -> (forall j, on st j = false) -> ~ glob pattern (x ++ s).
Proof.
  induction s as [|c s IH]; intros st x Hm Hd G.
  - rewrite app_nil_r in G. destruct Hm as [_ H]. specialize (H M ltac:(lia)). unfold up in H.
    destruct (is_star M) eqn:E; [apply is_star_lt in E; lia|].
    rewrite (take_ge pattern M) in H by done. apply H in G. by rewrite Hd in G.
  - apply (IH (advance pattern M st c) (x ++ [c])).
    + by apply means_advance.
    + by apply advance_dead.
    + by rewrite <- app_assoc.
Qed.

Lemma match_loop_spec s : forall st x, means st x ->
  match_loop pattern M s st = true <-> glob pattern (x ++ s).
Proof.
  induction s as [|c s IH]; intros st x Hm; cbn [match_loop].
  - rewrite app_nil_r. destruct Hm as [_ H]. specialize (H M ltac:(lia)). unfold up in H.
    destruct (is_star M) eqn:E; [apply is_star_lt in E; lia|]. by rewrite (take_ge pattern M) in H by done.
  - pose proof (means_advance st x c Hm) as Hm'.
    replace (x ++ c :: s) with ((x ++ [c]) ++ s) by by rewrite <- app_assoc.
    destruct (existsb id (advance pattern M st c)) eqn:E; cbn [negb]; [by apply IH|].
    split; [done|]. intros G. exfalso. apply (dead_no_glob s _ _ Hm') in G; [done|].
    intros j. apply not_true_is_false. intros Hj. apply not_true_iff_false in E. apply E, existsb_exists.
    exists true. split; [|done]. unfold on in Hj.
    destruct (nth_in_or_default j (advance pattern M st c) false) as [Hin|Hd]; [by rewrite Hj in Hin|congruence].
Qed.
End Automaton.

Lemma match_pattern_glob s pattern : match_pattern s pattern = true <-> glob pattern s.
Proof.
  unfold match_pattern. destruct (Nat.eqb_spec (length pattern) 0) as [E|E].
  - apply nil_length_inv in E as ->. by rewrite bool_decide_eq_true, glob_nil.
  - apply (match_loop_spec pattern s _ []), means_init.
Qed.

(** C37: The automaton of [match_pattern] accepts exactly the strings that the
    wildcard pattern describes: a string cut into one piece per pattern
    character, any piece for a star, one character for a question mark, the
    character itself otherwise. *)
Theorem match_pattern_correct s pattern : match_pattern s pattern = true <-> glob pattern s.
Proof. apply match_pattern_glob. Qed.

(** ** Pattern lists *)

(** The entries of a list: a trailing comma adds none. *)
Fixpoint drop_last_empty (ts : list (list Z)) : list (list Z) :=
  match ts with
  | [] => []
  | [t] => if bool_decide (t = []) then [] else [t]
  | t :: ts => t :: drop_last_empty ts
  end.

Definition low (dolower : bool) (c : Z) : Z := if dolower && isupper c then tolower c else c.

Definition entry (dolower : bool) (t : list Z) : bool * list Z :=
  match t with
  | c :: t' => if c =? chr "!" then (true, low dolower <$> t') else (false, low dolower <$> t)
  | [] => (false, [])
  end.

Definition entries (dolower : bool) (pattern : list Z) : list (bool * list Z) :=
  entry dolower <$> drop_last_empty (split pattern).

(** Entries in order: a negated match ends the search. *)
Fixpoint scan (s : list Z) (es : list (bool * list Z)) (got : Z) : Z :=
  match es with
  | [] => got
  | (neg, sub) :: es =>
      if zlen sub >=? SUB_SIZE - 1 then 0
      else if match_pattern s sub then if (neg : bool) then -1 else scan s es 1
      else scan s es got
  end.

Lemma entries_cons dolower p : p <> [] ->
  entries dolower p = entry dolower (strsep p (str ",")).1 ::
    match (strsep p (str ",")).2 with Some r => entries dolower r | None => [] end.
Proof.
  intros Hp. unfold entries. rewrite split_strsep.
  destruct (strsep p (str ",")) as [tok rest] eqn:E; cbn [fst snd].
  destruct rest as [r|].
  - pose proof (split_nonempty r). destruct (split r); [done|]. done.
  - cbn [drop_last_empty]. case_bool_decide as Ht; [|done]. exfalso. subst tok. destruct p as [|c p]; [done|].
    cbn [strsep] in E. case_bool_decide as Hc.
    + discriminate.
    + destruct (strsep p _); discriminate.
Qed.

Lemma strsep_comma p tok rest : strsep p (str ",") = (tok, rest) ->
  p = tok ++ match rest with Some r => chr "," :: r | None => [] end /\ no_comma tok.
Proof.
  change (str ",") with [chr ","]. revert tok rest.
  induction p as [|c p IH]; intros tok rest E; cbn [strsep] in E.
  - injection E as <- <-. split; [done|apply not_elem_of_nil].
  - case_bool_decide as Hc.
    + injection E as <- <-. apply list_elem_of_singleton in Hc as ->. split; [done|apply not_elem_of_nil].
    + destruct (strsep p [chr ","]) as [t r]. injection E as <- <-. destruct (IH t r eq_refl) as [-> Ht].
      split; [done|]. apply not_elem_of_cons. split; [|done]. intros E. apply Hc. by apply list_elem_of_singleton.
Qed.

Lemma take_sub_spec dl tok rest : no_comma tok ->
  (match rest with c :: _ => c = chr "," | [] => True end) -> forall room,
  (length tok <= room)%nat /\ take_sub (tok ++ rest) room dl = (low dl <$> tok, rest) \/
  (room < length tok)%nat /\ zlen (take_sub (tok ++ rest) room dl).1 = Z.of_nat room.
Proof.
  unfold no_comma. intros Ht Hr. induction tok as [|c tok IH]; intros room.
  - left. split; [cbn; lia|]. destruct rest as [|c rest], room; cbn; try done. subst c. done.
  - apply not_elem_of_cons in Ht as [Hc Ht]. destruct room as [|room]; [right; split; [cbn; lia|done]|].
    cbn [app take_sub]. rewrite (proj2 (Z.eqb_neq c (chr ","))) by done.
    destruct (IH Ht room) as [[Hl E]|[Hl E]]; destruct (take_sub (tok ++ rest) room dl) as [sub r].
    + injection E as -> ->. left. split; [cbn; lia|done].
    + right. split; [cbn; lia|]. cbn [fst] in *. rewrite zlen_cons. lia.
Qed.

Lemma match_list_loop_scan s dl : forall fuel p got, (length p <= fuel)%nat ->
  match_list_loop fuel s p dl got = scan s (entries dl p) got.
Proof.
  induction fuel as [|fuel IH]; intros p got Hf; destruct p as [|c p]; [done|cbn in Hf; lia|done|].
  rewrite entries_cons by done. destruct (strsep (c :: p) (str ",")) as [tok rest] eqn:E. cbn [fst snd].
  destruct (strsep_comma _ _ _ E) as [Hp Htok].
  set (tl := match rest with Some r => chr "," :: r | None => [] end) in *.
  assert (match tl with c :: _ => c = chr "," | [] => True end) as Htl by by destruct rest.
  assert (exists neg body, (if c =? chr "!" then (true, p) else (false, c :: p)) = (neg, body ++ tl) /\
    no_comma body /\ entry dl tok = (neg, low dl <$> body)) as (neg & body & Eb & Hb & ->).
  { destruct tok as [|c' tok]; cbn in Hp.
    - exists false, []. destruct rest as [r|]; [|done]. injection Hp as -> ->. cbn. split_and!; [done|apply not_elem_of_nil|done].
    - injection Hp as <- ->. cbn [entry]. destruct (c =? chr "!").
      + exists true, tok. split_and!; auto. by apply not_elem_of_cons in Htok as [_ ?].
      + exists false, (c :: tok). auto. }
  cbn [match_list_loop]. rewrite Eb. cbn [scan].
  destruct (take_sub_spec dl body tl Hb Htl (Z.to_nat (SUB_SIZE - 1))) as [[Hl ->]|[Hl Hz]].
  - destruct (zlen _ >=? SUB_SIZE - 1); [done|].
    assert (forall g, match_list_loop fuel s
       (match tl with c0 :: p0 => if c0 =? chr "," then p0 else tl | [] => [] end) dl g =
       scan s (match rest with Some r => entries dl r | None => [] end) g) as Next.
    { intros g. destruct rest as [r|]; cbn [tl]; [|by destruct fuel].
      rewrite Z.eqb_refl. apply IH. apply (f_equal length) in Hp. rewrite length_app in Hp. cbn in Hp, Hf. lia. }
    destruct (match_pattern s _); [destruct neg; [done|]|]; apply Next.
  - destruct (take_sub (body ++ tl) _ dl) as [sub r]. cbn [fst] in Hz.
    rewrite Hz, Z2Nat.id by (unfold SUB_SIZE; lia). rewrite Z.geb_leb, Z.leb_refl.
    rewrite Z.geb_leb, (proj2 (Z.leb_le _ _)); [done|]. unfold zlen. rewrite length_fmap. unfold SUB_SIZE in *. lia.
Qed.

(** C38: The verdict of a pattern list does not depend on the order of its
    entries: -1 when a negated entry describes the string, otherwise 1 when a
    plain entry does, otherwise 0 (for entries below the 1023-character
    limit). *)
Theorem match_pattern_list_correct string pattern dolower :
  Forall (fun e => zlen e.2 < SUB_SIZE - 1) (entries dolower pattern) ->
  let neg := exists e, e ∈ entries dolower pattern /\ e.1 = true /\ glob e.2 string in
  let pos := exists e, e ∈ entries dolower pattern /\ e.1 = false /\ glob e.2 string in
  let r := match_pattern_list string pattern dolower in
  (r = -1 <-> neg) /\ (r = 1 <-> ~ neg /\ pos) /\ (r = 0 <-> ~ neg /\ ~ pos).
Proof.
  intros Hl neg pos r. unfold neg, pos, r, match_pattern_list. rewrite match_list_loop_scan by done.
  clear neg pos r. generalize dependent (entries dolower pattern). clear pattern dolower. intros es Hl.
  assert (forall got, got = 0 \/ got = 1 ->
    ((exists e, e ∈ es /\ e.1 = true /\ glob e.2 string) /\ scan string es got = -1) \/
    (~ (exists e, e ∈ es /\ e.1 = true /\ glob e.2 string) /\
      (((exists e, e ∈ es /\ e.1 = false /\ glob e.2 string) \/ got = 1) /\ scan string es got = 1 \/
       ~ (exists e, e ∈ es /\ e.1 = false /\ glob e.2 string) /\ got = 0 /\ scan string es got = 0))) as K.
  { induction Hl as [|[n sub] es Hz _ IH]; intros got Hg.
    - right. split; [intros (e & He & _); by apply not_elem_of_nil in He|]. cbn.
      destruct Hg as [->| ->]; [right|left; auto]. split_and!; auto.
      intros (e & He & _). by apply not_elem_of_nil in He.
    - cbn [scan]. cbn [snd] in Hz. rewrite Z.geb_leb, (proj2 (Z.leb_gt _ _)) by lia.
      pose proof (match_pattern_glob string sub) as MC.
      setoid_rewrite elem_of_cons.
      destruct (match_pattern string sub); [destruct n|].
      + left. split; [|done]. exists (true, sub). naive_solver.
      + specialize (IH 1 ltac:(auto)). naive_solver.
      + specialize (IH got Hg). naive_solver. }
  destruct (K 0 ltac:(auto)) as [[N ->]|[N [[[P|P] ->]|(P & _ & ->)]]]; [| |lia|]; clear K;
    split_and!; split; intros; try lia; tauto.
Qed.

Lemma match_pattern_list_correct_witness :
  let neg := exists e, e ∈ entries true (str "!*.bad,A*") /\ e.1 = true /\ glob e.2 (str "abc") in
  let pos := exists e, e ∈ entries true (str "!*.bad,A*") /\ e.1 = false /\ glob e.2 (str "abc") in
  let r := match_pattern_list (str "abc") (str "!*.bad,A*") true in
  (r = -1 <-> neg) /\ (r = 1 <-> ~ neg /\ pos) /\ (r = 0 <-> ~ neg /\ ~ pos).
Proof.
  apply (match_pattern_list_correct (str "abc") (str "!*.bad,A*") true).
  repeat constructor.
Defined.

(** On Windows only the first slash of a user or group list becomes a
    backslash: in a list with two domain/name entries the second one is left
    with its slash and does not match the domain\name it is meant for, though
    it does on its own. The caller's string is changed. *)
Theorem usergroup_second_slash :
  match_usergroup_pattern_list (str "d\b") (str "d/b") = (1, str "d\b") /\
  match_usergroup_pattern_list (str "d\a") (str "d/a,d/b") = (1, str "d\a,d/b") /\
  match_usergroup_pattern_list (str "d\b") (str "d/a,d/b") = (0, str "d\a,d/b").
Proof. vm_compute. auto. Qed.

(** ** Proposals *)

(** The names a server list offers: at most 40, up to an empty one. *)
Definition offered (server : list Z) : list (list Z) := take MAX_PROP (until_empty (split server)).

(** The client's names that the server offers, in the client's order. *)
Definition common (client server : list Z) : list (list Z) :=
  base.filter (fun p => p ∈ offered server) (until_empty (split client)).

Lemma join_cons t ts : ts <> [] -> join (t :: ts) = t ++ chr "," :: join ts.
Proof. by destruct ts. Qed.

Lemma match_list_search_spec srv first : forall ts x client, ts <> [] -> Forall no_comma ts ->
  client = x ++ join ts ->
  match match_list_search ts srv (zlen x) first with
  | (Some p, next) => exists pre post, until_empty ts = pre ++ p :: until_empty post /\
      Forall (fun t => t ∉ srv) pre /\ p ∈ srv /\
      ((post = [] /\ next = first /\ ts = pre ++ [p]) \/
       (post <> [] /\ 0 <= next <= zlen client /\ split (drop (Z.to_nat next) client) = post))
  | (None, _) => Forall (fun t => t ∉ srv) (until_empty ts)
  end.
Proof.
  induction ts as [|p ts IH]; intros x client Hne Hc ->; [done|]. apply Forall_cons in Hc as [Hp Hc].
  cbn [match_list_search until_empty]. case_bool_decide as Hemp; [constructor|].
  case_bool_decide as Hin.
  - exists [], ts. split_and!; auto. case_bool_decide as Hts; [subst; auto|]. right. split; [done|].
    rewrite join_cons, app_assoc, zlen_app, zlen_cons, zlen_app by done.
    pose proof (zlen_nonneg x). pose proof (zlen_nonneg p). pose proof (zlen_nonneg (join ts)).
    split; [lia|].
    replace (Z.to_nat (zlen x + zlen p + 1)) with (S (length (x ++ p))) by (rewrite length_app; unfold zlen; lia).
    rewrite drop_app_ge by lia. replace (S (length (x ++ p)) - length (x ++ p))%nat with 1%nat by lia.
    cbn [drop]. by apply split_join.
  - destruct ts as [|q ts]; [cbn; constructor; [done|constructor]|].
    replace (zlen x + zlen p + 1) with (zlen (x ++ p ++ [chr ","])) by (rewrite !zlen_app, zlen_cons, zlen_nil; lia).
    specialize (IH (x ++ p ++ [chr ","]) (x ++ join (p :: q :: ts)) ltac:(done) Hc).
    destruct (match_list_search (q :: ts) srv _ first) as [[r|] next].
    + destruct IH as (pre & post & E & Hpre & Hr & D); [by rewrite join_cons, <- !app_assoc|].
      exists (p :: pre), post. rewrite E. split_and!; auto.
      destruct D as [(-> & -> & D)|D]; [left|right; done]. split_and!; auto. by rewrite D.
    + constructor; [done|]. apply IH. by rewrite join_cons, <- !app_assoc.
Qed.

Lemma filter_none (P : list Z -> Prop) `{forall t, Decision (P t)} l :
  Forall (fun t => ~ P t) l -> base.filter P l = [].
Proof.
  induction 1 as [|t l Ht _ IH]; [done|]. by rewrite filter_cons_False.
Qed.

(** [match_list] returns the client's first name that the server offers,
    and [next] lets the caller go on behind it: repeated calls on the rest of
    the client's list enumerate exactly the common names, in the client's
    order, each once. *)
Theorem match_list_enumerates client server :
  match match_list client server with
  | (Some p, next) =>
      0 <= next <= zlen client /\
      common client server = p :: common (drop (Z.to_nat next) client) server
  | (None, _) => common client server = []
  end.
Proof.
  unfold match_list. fold (offered server).
  pose proof (match_list_search_spec (offered server) (zlen (default [] (head (split client)))) (split client)
    [] client (split_nonempty client) (split_no_comma client) (eq_sym (join_split client))) as S.
  change (zlen []) with 0 in S.
  destruct (match_list_search _ _ _ _) as [[p|] next].
  2:{ unfold common. by apply filter_none. }
  destruct S as (pre & post & E & Hpre & Hp & D). unfold common. rewrite E.
  rewrite filter_app, (filter_none _ pre Hpre), filter_cons_True by done. cbn [app].
  destruct D as [(-> & -> & Ets)|(Hne & Hn & Hs)]; [|by rewrite Hs].
  destruct pre as [|t pre]; cbn [app] in Ets; rewrite Ets; cbn [head from_option id]; unfold id.
  - rewrite <- (join_split client), Ets. cbn [join]. pose proof (zlen_nonneg p). split; [lia|].
    rewrite drop_ge by (unfold zlen; lia). done.
  - rewrite <- (join_split client), Ets. rewrite join_cons by by destruct pre.
    rewrite zlen_app, zlen_cons. pose proof (zlen_nonneg t). pose proof (zlen_nonneg (join (pre ++ [p]))).
    split; [lia|]. rewrite drop_zlen. done.
Qed.

(** ** Filtering *)

Definition keeps (filter : list Z) (denylist : bool) (t : list Z) : bool :=
  let r := match_pattern_list t filter false in
  (denylist && negb (r =? 1)) || (negb denylist && (r =? 1)).

Lemma strlcat_fits dst src siz : zlen dst + zlen src < siz -> (strlcat dst src siz).1 = dst ++ src.
Proof.
  intros H. unfold strlcat. pose proof (zlen_nonneg dst). pose proof (zlen_nonneg src).
  rewrite (Z.min_r siz) by lia. rewrite (proj2 (Z.eqb_neq _ _)) by lia. cbn [fst]. f_equal.
  unfold slice. rewrite Z2Nat.inj_0, drop_0. apply take_ge. unfold zlen in *. lia.
Qed.

Lemma join_snoc ts t : ts <> [] -> join (ts ++ [t]) = join ts ++ chr "," :: t.
Proof.
  induction ts as [|u ts IH]; intros Hne; [done|]. destruct ts as [|v ts]; [done|].
  change ((u :: v :: ts) ++ [t]) with (u :: ((v :: ts) ++ [t])).
  rewrite !join_cons, IH by done. by rewrite <- app_assoc.
Qed.

Lemma join_nil_inv ts : Forall (fun t => t <> []) ts -> join ts = [] -> ts = [].
Proof.
  intros Hne. destruct Hne as [|t ts Ht _]; [done|]. destruct ts as [|u ts]; [done|].
  rewrite join_cons by done. intros E. by apply app_eq_nil in E as [? _].
Qed.

Lemma filter_loop_spec filter deny len : forall ts kept,
  Forall (fun t => t <> []) ts -> Forall (fun t => t <> []) kept ->
  zlen (join (kept ++ ts)) < len ->
  filter_loop ts filter deny (join kept) len = join (kept ++ List.filter (keeps filter deny) ts).
Proof.
  induction ts as [|cp ts IH]; intros kept Hts Hk Hl; cbn [filter_loop List.filter]; [by rewrite app_nil_r|].
  apply Forall_cons in Hts as [Hcp Hts]. fold (keeps filter deny cp).
  assert (zlen (join (kept ++ [cp])) <= zlen (join (kept ++ cp :: ts)) /\
          zlen (join (kept ++ ts)) <= zlen (join (kept ++ cp :: ts))) as [L1 L2].
  { clear. induction kept as [|k kept IH]; cbn [app].
    - change (join [cp]) with cp. pose proof (zlen_nonneg cp).
      destruct ts as [|u ts]; [change (join []) with (@nil Z); change (join [cp]) with cp; rewrite zlen_nil; lia|].
      rewrite join_cons, zlen_app, zlen_cons by done. pose proof (zlen_nonneg (join (u :: ts))). lia.
    - destruct IH as [I1 I2]. rewrite (join_cons k (kept ++ [cp])), (join_cons k (kept ++ cp :: ts)) by by destruct kept.
      rewrite !zlen_app, !zlen_cons. split; [lia|]. destruct (decide (kept ++ ts = [])) as [->|].
      + cbn [join]. pose proof (zlen_nonneg (join (kept ++ cp :: ts))). lia.
      + rewrite join_cons, zlen_app, zlen_cons by done. lia. }
  destruct (keeps filter deny cp).
  - replace (kept ++ cp :: List.filter (keeps filter deny) ts)
      with ((kept ++ [cp]) ++ List.filter (keeps filter deny) ts) by by rewrite <- app_assoc.
    rewrite <- IH; [|done|apply Forall_app; by repeat constructor|by rewrite <- app_assoc].
    f_equal. case_bool_decide as E.
    + apply join_nil_inv in E; [|done]. subst kept. cbn [app join] in *. apply strlcat_fits. rewrite zlen_nil. lia.
    + rewrite join_snoc in * by by intros ->. rewrite zlen_app, zlen_cons in L1. pose proof (zlen_nonneg cp).
      rewrite (strlcat_fits (join kept)) by (change (zlen (str ",")) with 1; lia).
      rewrite strlcat_fits by (rewrite zlen_app; change (zlen (str ",")) with 1; lia). by rewrite <- app_assoc.
  - apply IH; auto. lia.
Qed.

(** Filtering a proposal keeps exactly the names the filter list matches
    (allow) or does not match (deny), in order, joined by single commas; the
    bounded copies never truncate. *)
Theorem filter_list_correct proposal filter denylist :
  Forall (fun t => t <> []) (split proposal) ->
  filter_list true proposal filter denylist =
  Some (join (List.filter (keeps filter denylist) (split proposal))).
Proof.
  intros Hne. unfold filter_list. cbn [negb]. f_equal.
  apply (filter_loop_spec filter denylist _ (split proposal) []); [done|constructor|].
  cbn [app]. rewrite join_split. lia.
Qed.

Lemma filter_list_correct_witness :
  filter_list true (str "a-cbc,b-ctr") (str "*-cbc") true =
  Some (join (List.filter (keeps (str "*-cbc") true) (split (str "a-cbc,b-ctr")))).
Proof. apply (filter_list_correct (str "a-cbc,b-ctr") (str "*-cbc") true). repeat constructor; discriminate. Defined.
