(* ===== verification/Addr.v ===== *)
(** * Network addresses: [addr.c]

    The 128-bit union of [struct xaddr] as its four 32-bit words in network
    byte order (the value [ntohl] gives); [v4] is the first word, [addr8[i]]
    byte [i]. Bitwise operations and equality do not depend on the byte order.
    Errors (-1) are [None]. *)

From S2P Require Import Prelude Cstring.

Inductive family := AF_INET | AF_INET6 | AF_OTHER (n : Z).

#[export] Instance family_eq_dec : EqDecision family.
Proof. solve_decision. Defined.

Record xaddr := mk_xaddr { xa_af : family; xa_words : list Z; xa_scope : Z }.

Definition addr32 (a : xaddr) (i : nat) : Z := nth i (xa_words a) 0.
Definition v4 (a : xaddr) : Z := addr32 a 0.
Definition addr8 (a : xaddr) (i : nat) : Z :=
  Z.land (Z.shiftr (addr32 a (i / 4)) (24 - 8 * Z.of_nat (i mod 4))) 0xff.

Definition set32 (i : nat) (v : Z) (a : xaddr) : xaddr :=
  mk_xaddr (xa_af a) (<[i := v]> (xa_words a)) (xa_scope a).

Definition addr_unicast_masklen (af : family) : Z :=
  match af with AF_INET => 32 | AF_INET6 => 128 | _ => -1 end.

Definition masklen_valid (af : family) (masklen : Z) : Z :=
  match af with
  | AF_INET => if masklen <=? 32 then 0 else -1
  | AF_INET6 => if masklen <=? 128 then 0 else -1
  | _ => -1
  end.

(** ** Socket addresses *)

Record sockaddr := mk_sockaddr { sa_family : family; sa_port : Z; sa_addr : list Z; sa_scope : Z }.

Definition SIZEOF_IN : Z := 16.
Definition SIZEOF_IN6 : Z := 28.

(** [has_scope]: whether the build has [sin6_scope_id] (the Windows one is
    configured without it). *)
Definition addr_xaddr_to_sa (has_scope : bool) (xa : xaddr) (len port : Z) : option (sockaddr * Z) :=
  match xa_af xa with
  | AF_INET =>
      if len <? SIZEOF_IN then None
      else Some (mk_sockaddr AF_INET port [v4 xa] 0, SIZEOF_IN)
  | AF_INET6 =>
      if len <? SIZEOF_IN6 then None
      else Some (mk_sockaddr AF_INET6 port (xa_words xa) (if has_scope then xa_scope xa else 0), SIZEOF_IN6)
  | _ => None
  end.

Definition addr_sa_to_xaddr (has_scope : bool) (sa : sockaddr) (slen : Z) : option xaddr :=
  match sa_family sa with
  | AF_INET =>
      if slen <? SIZEOF_IN then None
      else Some (mk_xaddr AF_INET (sa_addr sa ++ [0; 0; 0]) 0)
  | AF_INET6 =>
      if slen <? SIZEOF_IN6 then None
      else Some (mk_xaddr AF_INET6 (sa_addr sa) (if has_scope then sa_scope sa else 0))
  | _ => None
  end.

(** ** Masks and logic *)

Definition not32 (w : Z) : Z := u32 (Z.lnot w).

Definition addr_invert (n : xaddr) : option xaddr :=
  match xa_af n with
  | AF_INET => Some (set32 0 (not32 (v4 n)) n)
  | AF_INET6 => Some (mk_xaddr AF_INET6 (not32 <$> xa_words n) (xa_scope n))
  | _ => None
  end.

Definition mask32 (l : Z) : Z := Z.land (u32 (Z.shiftl 0xffffffff (32 - l))) 0xffffffff.

(** The loop over the words of an IPv6 mask. *)
Fixpoint mask_words (n : nat) (l : Z) : list Z :=
  match n with
  | O => []
  | S n =>
      if l >=? 32 then 0xffffffff :: mask_words n (l - 32)
      else (if negb (l =? 0) then mask32 l else 0) :: replicate n 0
  end.

Definition addr_netmask (af : family) (l : Z) : option xaddr :=
  if negb (masklen_valid af l =? 0) then None
  else match af with
       | AF_INET => Some (mk_xaddr AF_INET [(if l =? 0 then 0 else mask32 l); 0; 0; 0] 0)
       | AF_INET6 => Some (mk_xaddr AF_INET6 (mask_words 4 l) 0)
       | _ => None
       end.

Definition addr_hostmask (af : family) (l : Z) : option xaddr :=
  n ← addr_netmask af l; addr_invert n.

(** [addr_and] and [addr_or] share their shape. *)
Definition addr_logic (op : Z -> Z -> Z) (a b : xaddr) : option xaddr :=
  if bool_decide (xa_af a <> xa_af b) then None
  else match xa_af a with
       | AF_INET => Some (set32 0 (op (v4 a) (v4 b)) a)
       | AF_INET6 => Some (mk_xaddr AF_INET6 (zip_with op (xa_words a) (xa_words b)) (xa_scope a))
       | _ => None
       end.

Definition addr_and : xaddr -> xaddr -> option xaddr := addr_logic Z.land.
Definition addr_or : xaddr -> xaddr -> option xaddr := addr_logic Z.lor.

(** ** Comparison *)

(** The byte loop: the first difference. *)
Fixpoint cmp_bytes (a b : xaddr) (ix : list nat) : option Z :=
  match ix with
  | [] => None
  | i :: ix =>
      if negb (addr8 a i - addr8 b i =? 0) then Some (addr8 a i - addr8 b i) else cmp_bytes a b ix
  end.

Definition addr_cmp (a b : xaddr) : Z :=
  if bool_decide (xa_af a <> xa_af b) then
    if bool_decide (xa_af a = AF_INET6) then 1 else -1
  else match xa_af a with
       | AF_INET => if v4 a =? v4 b then 0 else if v4 a >? v4 b then 1 else -1
       | AF_INET6 =>
           match cmp_bytes a b (seq 0 16) with
           | Some d => d
           | None => if xa_scope a =? xa_scope b then 0
                     else if xa_scope a >? xa_scope b then 1 else -1
           end
       | _ => -1
       end.

Definition addr_is_all0s (a : xaddr) : Z :=
  match xa_af a with
  | AF_INET => if v4 a =? 0 then 0 else -1
  | AF_INET6 => if existsb (fun i => negb (addr32 a i =? 0)) [0; 1; 2; 3]%nat then -1 else 0
  | _ => -1
  end.

(** The loop with carry, from the last word. *)
Fixpoint incr_words (ix : list nat) (a : xaddr) : xaddr :=
  match ix with
  | [] => a
  | i :: ix =>
      let n := u32 (addr32 a (3 - i) + 1) in
      let a := set32 (3 - i) n a in
      if negb (n =? 0) then a else incr_words ix a
  end.

Definition addr_increment (a : xaddr) : xaddr :=
  match xa_af a with
  | AF_INET => set32 0 (u32 (v4 a + 1)) a
  | AF_INET6 => incr_words [0; 1; 2; 3]%nat a
  | _ => a
  end.

Definition addr_host_is_all0s (a : xaddr) (masklen : Z) : Z :=
  match addr_hostmask (xa_af a) masklen with
  | None => -1
  | Some m => match addr_and a m with None => -1 | Some r => addr_is_all0s r end
  end.

Definition addr_host_to_all1s (a : xaddr) (masklen : Z) : option xaddr :=
  m ← addr_hostmask (xa_af a) masklen; addr_or a m.

Definition addr_netmatch (host net : xaddr) (masklen : Z) : Z :=
  if bool_decide (xa_af host <> xa_af net) then -1
  else match addr_netmask (xa_af host) masklen with
       | None => -1
       | Some m => match addr_and host m with None => -1 | Some r => addr_cmp r net end
       end.

(** ** Text

    The resolver is a parameter: [getaddrinfo] with AI_NUMERICHOST gives the
    socket address of a numeric host string and its length. *)

Section Text.
Context (has_scope : bool) (getaddrinfo : list Z -> option (sockaddr * Z)).

Definition addr_pton (p : list Z) : option xaddr :=
  '(sa, slen) ← getaddrinfo p; addr_sa_to_xaddr has_scope sa slen.

Definition ADDRBUF_SIZE : Z := 64.

(** The result of [addr_pton_cidr]: [inl] of -1 or -2, or the address and the
    mask length. *)
Definition addr_pton_cidr (p : list Z) : Z + xaddr * Z :=
  let '(addrbuf, n) := strlcpy p ADDRBUF_SIZE in
  if n >=? ADDRBUF_SIZE then inl (-1)
  else
    let '(addr, mp) :=
      match strchr addrbuf (chr "/") with
      | Some i => (slice addrbuf 0 i, Some (drop (Z.to_nat (i + 1)) addrbuf))
      | None => (addrbuf, None)
      end in
    match (match mp with
           | Some mp => match strtonum mp 0 INT_MAX with inl _ => None | inr v => Some (Some (u32 v)) end
           | None => Some None
           end) with
    | None => inl (-1)
    | Some masklen =>
        match addr_pton addr with
        | None => inl (-1)
        | Some tmp =>
            let masklen := match masklen with
                           | Some l => l
                           | None => u32 (addr_unicast_masklen (xa_af tmp)) end in
            if masklen_valid (xa_af tmp) masklen =? -1 then inl (-2)
            else if negb (addr_host_is_all0s tmp masklen =? 0) then inl (-2)
            else inr (tmp, masklen)
        end
    end.
End Text.

(** [getnameinfo] with NI_NUMERICHOST, a parameter as well: the text for a
    socket address if it fits the size given. *)
Definition addr_ntop (has_scope : bool) (getnameinfo : sockaddr -> Z -> Z -> option (list Z))
    (n : xaddr) (len : Z) : option (list Z) :=
  '(sa, slen) ← addr_xaddr_to_sa has_scope n 128 0;
  if len =? 0 then None else getnameinfo sa slen len.

Example addr_ex :
  let a := mk_xaddr AF_INET6 [0x20010db8; 0; 0; 0x1ff] 0 in
  let n := mk_xaddr AF_INET6 [0x20010db8; 0; 0; 0] 0 in
  addr_netmatch a n 119 = 0 /\ addr_netmatch a n 120 = 1 /\
  addr_host_is_all0s n 32 = 0 /\ addr_host_is_all0s a 120 = -1.
Proof. vm_compute. auto. Qed.
