(* ===== verification/AddrThms.v ===== *)
(** * Properties of [addr.c]: addresses as numbers *)

From S2P Require Import Prelude Cstring Words Addr.

(** ** The number of an address *)

Definition width (af : family) : Z := match af with AF_INET => 32 | AF_INET6 => 128 | _ => 0 end.

Record xa_ok (a : xaddr) : Prop := {
  xok_len : length (xa_words a) = 4%nat;
  xok_words : Forall word_ok (xa_words a)
}.

(** Network order: the first word is the most significant. *)
Definition val6 (ws : list Z) : Z := words_val (rev ws).

Definition addr_val (a : xaddr) : Z :=
  match xa_af a with AF_INET => v4 a | AF_INET6 => val6 (xa_words a) | _ => 0 end.

Lemma val6_bits ws n : length ws = 4%nat -> Forall word_ok ws -> 0 <= n ->
  Z.testbit (val6 ws) n =
  if n <? 128 then Z.testbit (nth (Z.to_nat (3 - n / 32)) ws 0) (n mod 32) else false.
Proof.
  intros Hl Hok Hn. unfold val6. rewrite words_testbit by (done || by apply Forall_rev).
  assert (0 <= n / 32) by dlia. destruct (Z.ltb_spec n 128).
  - assert (n / 32 < 4) by dlia. rewrite rev_nth by lia. rewrite Hl. do 2 f_equal. lia.
  - rewrite nth_overflow by (rewrite length_rev, Hl; dlia). apply Z.bits_0.
Qed.

Lemma v4_ok a : xa_ok a -> word_ok (v4 a).
Proof. intros []. by apply nth_word_ok. Qed.

(** An address has no bits beyond its width. *)
Lemma addr_val_high a n : xa_ok a -> width (xa_af a) <= n -> 0 <= n -> Z.testbit (addr_val a) n = false.
Proof.
  intros A Hn H0. unfold addr_val, width in *. destruct (xa_af a).
  - apply testbit_high; [by apply v4_ok|done].
  - destruct A. rewrite val6_bits by done. by rewrite (proj2 (Z.ltb_ge _ _)).
  - apply Z.bits_0.
Qed.

Lemma addr_val_nonneg a : xa_ok a -> 0 <= addr_val a.
Proof.
  intros A. unfold addr_val. destruct (xa_af a); [apply (v4_ok a A)| |done].
  apply words_val_nonneg, Forall_rev, A.
Qed.

(** ** Masks *)

Definition wmask (l : Z) : Z := if l >=? 32 then 0xffffffff else if 0 <? l then mask32 l else 0.

Lemma ones32_bits m : 0 <= m < 32 -> Z.testbit 0xffffffff m = true.
Proof. intros. change 0xffffffff with (Z.ones 32). by apply Z.ones_spec_low. Qed.

Lemma wmask_bits l m : 0 <= m < 32 -> Z.testbit (wmask l) m = (32 - l <=? m).
Proof.
  intros Hm. unfold wmask. rewrite Z.geb_leb. destruct (Z.leb_spec 32 l).
  - rewrite ones32_bits by done. symmetry. apply Z.leb_le. lia.
  - destruct (Z.ltb_spec 0 l).
    + unfold mask32, wrap. rewrite Z.land_spec, ones32_bits, andb_true_r by done.
      rewrite Z.mod_pow2_bits_low, Z.shiftl_spec by lia. destruct (Z.leb_spec (32 - l) m).
      * apply ones32_bits. lia.
      * apply Z.testbit_neg_r. lia.
    + rewrite Z.bits_0. symmetry. apply Z.leb_gt. lia.
Qed.

Lemma wmask_ok l : word_ok (wmask l).
Proof.
  unfold wmask. destruct (l >=? 32); [unfold word_ok; lia|]. destruct (0 <? l); [|apply word_ok_0].
  unfold mask32. apply land_word; [|lia]. unfold word_ok. apply wrap_range. lia.
Qed.

Lemma mask_words_wmask n : forall l, 0 <= l ->
  mask_words n l = (fun i => wmask (l - 32 * Z.of_nat i)) <$> seq 0 n.
Proof.
  induction n as [|n IH]; intros l Hl; [done|]. cbn [mask_words seq]. rewrite <- (fmap_S_seq 0 n), fmap_cons.
  rewrite <- list_fmap_compose. cbn [Z.of_nat]. rewrite Z.mul_0_r, Z.sub_0_r. unfold wmask at 1.
  rewrite Z.geb_leb. destruct (Z.leb_spec 32 l).
  - f_equal. rewrite IH by lia. apply list_fmap_ext. intros i x _. cbn. f_equal. lia.
  - f_equal.
    + destruct (Z.ltb_spec 0 l), (Z.eqb_spec l 0); try lia; done.
    + replace (replicate n 0) with ((fun _ : nat => 0) <$> seq 0 n).
      * apply list_fmap_ext. intros i x _. cbn. unfold wmask. rewrite Z.geb_leb.
        rewrite (proj2 (Z.leb_gt _ _)), (proj2 (Z.ltb_ge _ _)) by lia. done.
      * clear. generalize 0%nat. induction n as [|n IH]; intros k; [done|]. cbn. by rewrite <- (IH (S k)).
Qed.

Lemma netmask_spec af l m : 0 <= l -> addr_netmask af l = Some m ->
  xa_af m = af /\ xa_ok m /\ l <= width af /\
  forall n, 0 <= n < width af -> Z.testbit (addr_val m) n = (width af - l <=? n).
Proof.
  intros Hl. unfold addr_netmask, masklen_valid.
  destruct af; cbn [width]; [destruct (Z.leb_spec l 32)|destruct (Z.leb_spec l 128)|]; cbn [Z.eqb negb]; try done.
  - intros [= <-]. split_and!; [done| |lia|].
    + constructor; [done|]. constructor; [|repeat constructor; vm_compute; congruence].
      pose proof (wmask_ok l) as W. unfold wmask in W. destruct (Z.eqb_spec l 0); [apply word_ok_0|].
      rewrite Z.geb_leb in W. destruct (Z.leb_spec 32 l); [|rewrite (proj2 (Z.ltb_lt _ _)) in W by lia; done].
      replace l with 32 by lia. vm_compute. split; congruence.
    + intros n Hn. unfold addr_val, v4, addr32. cbn. rewrite <- wmask_bits by lia. f_equal.
      unfold wmask. rewrite Z.geb_leb. destruct (Z.leb_spec 32 l), (Z.eqb_spec l 0); try lia.
      * by replace l with 32 by lia.
      * by rewrite (proj2 (Z.ltb_ge _ _)) by lia.
      * by rewrite (proj2 (Z.ltb_lt _ _)) by lia.
  - intros E. apply (inj Some) in E. subst m. assert (xa_ok (mk_xaddr AF_INET6 (mask_words 4 l) 0)) as Ok.
    { constructor; cbn [xa_words]; rewrite mask_words_wmask by done; [done|].
      apply Forall_fmap, Forall_true. intros. apply wmask_ok. }
    split_and!; [done|done|lia|]. intros n Hn. unfold addr_val. cbn [xa_af xa_words].
    rewrite val6_bits by (apply Ok || lia). rewrite (proj2 (Z.ltb_lt _ _)) by lia.
    rewrite mask_words_wmask by done.
    assert (0 <= n / 32 < 4) by dlia.
    rewrite (nth_lookup_Some _ _ 0 (wmask (l - 32 * (3 - n / 32)))).
    + rewrite wmask_bits by (apply Z.mod_pos_bound; lia). pose proof (Z.div_mod n 32 ltac:(lia)).
      destruct (Z.leb_spec (32 - (l - 32 * (3 - n / 32))) (n mod 32)), (Z.leb_spec (128 - l) n); lia || done.
    + rewrite list_lookup_fmap, lookup_seq_lt by lia. cbn. do 2 f_equal. lia.
Qed.

(** ** Bitwise operations *)

Section Logic.
Context (op : Z -> Z -> Z) (f : bool -> bool -> bool)
  (op_bits : forall x y n, Z.testbit (op x y) n = f (Z.testbit x n) (Z.testbit y n))
  (f_ff : f false false = false)
  (op_word : forall x y, word_ok x -> word_ok y -> word_ok (op x y)).

Lemma op_zero : op 0 0 = 0.
Proof using op_bits f_ff. apply Z.bits_inj'. intros n _. by rewrite op_bits, Z.bits_0, f_ff. Qed.

Lemma logic_spec a b : xa_ok a -> xa_ok b -> xa_af a = xa_af b -> 0 < width (xa_af a) ->
  exists r, addr_logic op a b = Some r /\ xa_af r = xa_af a /\ xa_ok r /\ xa_scope r = xa_scope a /\
    addr_val r = op (addr_val a) (addr_val b).
Proof using op_bits f_ff op_word.
  intros A B Haf Hw. unfold addr_logic. rewrite bool_decide_eq_false_2 by tauto.
  pose proof A as [La Wa]. pose proof B as [Lb Wb]. unfold addr_val. rewrite <- Haf.
  destruct (xa_af a) eqn:E; [| |cbn in Hw; lia]; eexists; (split; [done|]); cbn [xa_af set32 xa_scope].
  - split_and!; auto.
    + constructor; cbn; [by rewrite length_insert|]. apply Forall_insert; [done|].
      apply op_word; by apply v4_ok.
    + unfold v4, addr32. cbn [set32 xa_words].
      rewrite (nth_lookup (<[_ := _]> _)), list_lookup_insert_eq by lia. by rewrite E.
  - assert (Forall word_ok (zip_with op (xa_words a) (xa_words b))) as Wz.
    { clear -Wa Wb op_word. revert Wb. generalize (xa_words b). induction Wa as [|x ws Hx _ IH]; intros [|y ys] Wy; cbn;
        try constructor; apply Forall_cons in Wy as [? ?]; auto. }
    split_and!; auto.
    + constructor; cbn; [|done]. rewrite length_zip_with. lia.
    + cbn [xa_words]. apply Z.bits_inj'. intros n Hn. rewrite op_bits.
      rewrite !val6_bits by (done || rewrite ?length_zip_with; lia).
      destruct (n <? 128); [|done]. rewrite <- op_bits. f_equal.
      set (k := Z.to_nat (3 - n / 32)).
      rewrite !nth_lookup, lookup_zip_with. destruct (Nat.lt_ge_cases k 4).
      * destruct (lookup_lt_is_Some_2 (xa_words a) k) as [x ->]; [lia|].
        destruct (lookup_lt_is_Some_2 (xa_words b) k) as [y ->]; [lia|]. done.
      * rewrite !lookup_ge_None_2 by lia. cbn. by rewrite op_zero.
Qed.
End Logic.

Lemma and_spec a b : xa_ok a -> xa_ok b -> xa_af a = xa_af b -> 0 < width (xa_af a) ->
  exists r, addr_and a b = Some r /\ xa_af r = xa_af a /\ xa_ok r /\ xa_scope r = xa_scope a /\
    addr_val r = Z.land (addr_val a) (addr_val b).
Proof.
  apply (logic_spec Z.land andb); [apply Z.land_spec|done|].
  intros x y Hx Hy. apply land_word; [done|apply Hy].
Qed.

Lemma or_spec a b : xa_ok a -> xa_ok b -> xa_af a = xa_af b -> 0 < width (xa_af a) ->
  exists r, addr_or a b = Some r /\ xa_af r = xa_af a /\ xa_ok r /\ xa_scope r = xa_scope a /\
    addr_val r = Z.lor (addr_val a) (addr_val b).
Proof. apply (logic_spec Z.lor orb); [apply Z.lor_spec|done|apply lor_word]. Qed.

Lemma not32_ok w : word_ok (not32 w).
Proof. unfold not32, word_ok. apply wrap_range. lia. Qed.

Lemma not32_bits w m : 0 <= m < 32 -> Z.testbit (not32 w) m = negb (Z.testbit w m).
Proof. intros. unfold not32, wrap. rewrite Z.mod_pow2_bits_low, Z.lnot_spec by lia. done. Qed.

Lemma invert_spec m : xa_ok m -> 0 < width (xa_af m) ->
  exists r, addr_invert m = Some r /\ xa_af r = xa_af m /\ xa_ok r /\
    forall n, 0 <= n < width (xa_af m) -> Z.testbit (addr_val r) n = negb (Z.testbit (addr_val m) n).
Proof.
  intros A Hw. pose proof A as [La Wa]. unfold addr_invert, addr_val.
  destruct (xa_af m) eqn:E; [| |cbn in Hw; lia]; eexists; (split; [done|]); cbn [xa_af set32 width].
  - split_and!; auto.
    + constructor; cbn; [by rewrite length_insert|]. apply Forall_insert; [done|apply not32_ok].
    + intros n Hn. rewrite E. unfold v4, addr32. cbn [set32 xa_words].
      rewrite (nth_lookup (<[_ := _]> _)), list_lookup_insert_eq by lia. by apply not32_bits.
  - assert (xa_ok (mk_xaddr AF_INET6 (not32 <$> xa_words m) (xa_scope m))) as Ok.
    { constructor; cbn; [by rewrite length_fmap|]. apply Forall_fmap, Forall_true. intros. apply not32_ok. }
    split_and!; auto. intros n Hn. cbn [xa_words]. rewrite !val6_bits by (done || apply Ok || lia).
    rewrite (proj2 (Z.ltb_lt _ _)) by lia. rewrite <- not32_bits by (apply Z.mod_pos_bound; lia). f_equal.
    assert (0 <= n / 32 < 4) by dlia. rewrite !nth_lookup, list_lookup_fmap.
    destruct (lookup_lt_is_Some_2 (xa_words m) (Z.to_nat (3 - n / 32))) as [x ->]; [lia|]. done.
Qed.

(** Clearing and setting the bits below [k]. *)
Definition clear_low (v k : Z) : Z := Z.shiftl (Z.shiftr v k) k.
Definition set_low (v k : Z) : Z := Z.lor v (Z.ones k).

Lemma clear_low_bits v k n : 0 <= k -> 0 <= n ->
  Z.testbit (clear_low v k) n = (k <=? n) && Z.testbit v n.
Proof.
  intros Hk Hn. unfold clear_low. rewrite Z.shiftl_spec by lia. destruct (Z.leb_spec k n); cbn [andb].
  - rewrite Z.shiftr_spec by lia. f_equal. lia.
  - apply Z.testbit_neg_r. lia.
Qed.

Lemma netmask_valid af l : 0 <= l <= width af -> 0 < width af -> is_Some (addr_netmask af l).
Proof.
  intros Hl Hw. unfold addr_netmask, masklen_valid. destruct af; cbn [width] in *; [| |lia];
    rewrite (proj2 (Z.leb_le _ _)) by lia; by eexists.
Qed.

(** Masking an address keeps its network part. *)
Lemma and_netmask a l m : xa_ok a -> 0 <= l -> 0 < width (xa_af a) -> addr_netmask (xa_af a) l = Some m ->
  exists r, addr_and a m = Some r /\ xa_af r = xa_af a /\ xa_ok r /\ xa_scope r = xa_scope a /\
    addr_val r = clear_low (addr_val a) (width (xa_af a) - l).
Proof.
  intros A Hl Hw Hm. destruct (netmask_spec _ _ _ Hl Hm) as (Haf & M & Hle & Hb).
  destruct (and_spec a m A M ltac:(done) Hw) as (r & R & Raf & Rok & Rs & Rv).
  exists r. split_and!; auto. rewrite Rv. apply Z.bits_inj'. intros n Hn.
  rewrite Z.land_spec, clear_low_bits, andb_comm by lia.
  destruct (Z.lt_ge_cases n (width (xa_af a))); [by rewrite Hb|].
  rewrite (addr_val_high a n), !andb_false_r by (done || lia). done.
Qed.

Lemma hostmask_spec af l : 0 <= l <= width af -> 0 < width af ->
  exists m, addr_hostmask af l = Some m /\ xa_af m = af /\ xa_ok m /\ addr_val m = Z.ones (width af - l).
Proof.
  intros Hl Hw. destruct (netmask_valid af l Hl Hw) as [m Hm]. unfold addr_hostmask. rewrite Hm.
  cbn [mbind option_bind]. destruct (netmask_spec af l m ltac:(lia) Hm) as (Haf & M & _ & Hb).
  destruct (invert_spec m M ltac:(by rewrite Haf)) as (r & R & Raf & Rok & Rb). rewrite Haf in *.
  exists r. split_and!; auto. apply Z.bits_inj'. intros n Hn.
  rewrite Z.testbit_ones_nonneg by lia. destruct (Z.lt_ge_cases n (width af)).
  - rewrite Rb, Hb by lia. destruct (Z.leb_spec (width af - l) n), (Z.ltb_spec n (width af - l)); lia || done.
  - rewrite addr_val_high by (done || rewrite ?Raf; lia). symmetry. apply Z.ltb_ge. lia.
Qed.

(** ** Comparison *)

Definition addr_bytes (a : xaddr) : list Z := addr8 a <$> seq 0 16.

Fixpoint be_num (xs : list Z) : Z :=
  match xs with
  | [] => 0
  | x :: xs => x * 256 ^ zlen xs + be_num xs
  end.

Lemma be_num_bound xs : bytes_ok xs -> 0 <= be_num xs < 256 ^ zlen xs.
Proof.
  induction 1 as [|x xs Hx _ IH]; [done|]. cbn [be_num]. rewrite zlen_cons. pose proof (zlen_nonneg xs).
  rewrite Z.pow_add_r by lia. unfold byte_ok in Hx. change (256 ^ 1) with 256. nia.
Qed.

Lemma addr_bytes_ok a : bytes_ok (addr_bytes a).
Proof. apply Forall_fmap, Forall_true. intros. unfold compose, addr8. apply byte_land_255. Qed.

Definition be32 (w : Z) : list Z :=
  (fun k => Z.land (Z.shiftr w k) 0xff) <$> [24; 16; 8; 0].

Lemma be_num_app xs ys : be_num (xs ++ ys) = be_num xs * 256 ^ zlen ys + be_num ys.
Proof.
  induction xs as [|x xs IH]; [done|]. cbn [app be_num]. rewrite IH, zlen_app.
  pose proof (zlen_nonneg xs). pose proof (zlen_nonneg ys). rewrite Z.pow_add_r by lia. lia.
Qed.

Lemma be_num_be32 w : word_ok w -> be_num (be32 w) = w.
Proof.
  unfold word_ok, be32. intros Hw. cbn [fmap list_fmap be_num]. rewrite !land_255, !Z.shiftr_div_pow2 by lia.
  unfold zlen. cbn [length Z.of_nat Pos.of_succ_nat Pos.succ].
  change (2 ^ 24) with 16777216. change (2 ^ 16) with 65536. change (2 ^ 8) with 256. change (2 ^ 0) with 1.
  change (256 ^ 3) with 16777216. change (256 ^ 2) with 65536. change (256 ^ 1) with 256. change (256 ^ 0) with 1. dlia.
Qed.

Lemma addr_bytes_val a : xa_ok a -> be_num (addr_bytes a) = val6 (xa_words a).
Proof.
  intros [La Wa]. assert (addr_bytes a = concat (be32 <$> xa_words a)) as ->.
  { unfold addr_bytes, addr8, addr32.
    destruct (xa_words a) as [|w0 [|w1 [|w2 [|w3 [|]]]]]; cbn in La; try lia. reflexivity. }
  clear La. unfold val6. induction Wa as [|w ws Hw _ IH]; [done|]. rewrite fmap_cons. cbn [concat rev].
  rewrite be_num_app, be_num_be32, IH, words_val_app by done. cbn [words_val].
  assert (zlen (concat (be32 <$> ws)) = 4 * zlen ws) as ->.
  { clear. induction ws as [|w ws IH]; [done|]. rewrite fmap_cons. cbn [concat]. rewrite zlen_app, IH, zlen_cons.
    change (zlen (be32 w)) with 4. lia. }
  unfold zlen. rewrite length_rev. rewrite Z.pow_mul_r by lia. change (256 ^ 4) with (2 ^ 32).
  rewrite <- Z.pow_mul_r by lia. lia.
Qed.

(** Byte strings of one length compare like their numbers: the first
    difference has the sign of the difference. *)
Lemma cmp_bytes_sign a b ix :
  match cmp_bytes a b ix with
  | None => (addr8 a <$> ix) = (addr8 b <$> ix)
  | Some d => (d < 0 <-> be_num (addr8 a <$> ix) < be_num (addr8 b <$> ix)) /\ d <> 0 /\
      be_num (addr8 a <$> ix) <> be_num (addr8 b <$> ix)
  end.
Proof.
  induction ix as [|i ix IH]; [done|]. cbn [cmp_bytes fmap list_fmap].
  assert (forall c, bytes_ok (addr8 c <$> ix)) as OK.
  { intros c. apply Forall_fmap, Forall_true. intros. unfold compose, addr8. apply byte_land_255. }
  pose proof (be_num_bound _ (OK a)) as Ba. pose proof (be_num_bound _ (OK b)) as Bb.
  assert (zlen (addr8 a <$> ix) = zlen ix /\ zlen (addr8 b <$> ix) = zlen ix) as [La Lb]
    by (unfold zlen; by rewrite !length_fmap).
  rewrite La in Ba. rewrite Lb in Bb.
  destruct (Z.eqb_spec (addr8 a i - addr8 b i) 0) as [E|E]; cbn [negb].
  - assert (addr8 a i = addr8 b i) as Ei by lia. destruct (cmp_bytes a b ix).
    + cbn [be_num]. rewrite Ei, La, Lb. destruct IH as (H1 & H2 & H3). split_and!; lia.
    + by rewrite Ei, IH.
  - cbn [be_num]. rewrite La, Lb. pose proof (zlen_nonneg ix).
    assert (0 < 256 ^ zlen ix) by (apply Z.pow_pos_nonneg; lia). split_and!; nia.
Qed.

Lemma cmp_spec a b : xa_ok a -> xa_ok b -> xa_af a = xa_af b -> 0 < width (xa_af a) ->
  let scope x := match xa_af x with AF_INET6 => xa_scope x | _ => 0 end in
  (addr_cmp a b = 0 <-> addr_val a = addr_val b /\ scope a = scope b) /\
  (addr_cmp a b < 0 <-> addr_val a < addr_val b \/ (addr_val a = addr_val b /\ scope a < scope b)).
Proof.
  intros A B Haf Hw scope. unfold addr_cmp. rewrite bool_decide_eq_false_2 by tauto.
  unfold scope, addr_val. rewrite <- Haf. destruct (xa_af a) eqn:E; [| |cbn in Hw; lia].
  - rewrite Z.gtb_ltb. destruct (Z.eqb_spec (v4 a) (v4 b)), (Z.ltb_spec (v4 b) (v4 a)); lia.
  - rewrite <- (addr_bytes_val a A), <- (addr_bytes_val b B). pose proof (cmp_bytes_sign a b (seq 0 16)) as S.
    fold (addr_bytes a) (addr_bytes b) in S. destruct (cmp_bytes a b (seq 0 16)) as [d|].
    + destruct S as (H1 & H2 & H3). lia.
    + rewrite S. rewrite Z.gtb_ltb.
      destruct (Z.eqb_spec (xa_scope a) (xa_scope b)), (Z.ltb_spec (xa_scope b) (xa_scope a)); lia.
Qed.

(** ** Networks *)

(** A scope only distinguishes IPv6 addresses. *)
Definition scope (a : xaddr) : Z := match xa_af a with AF_INET6 => xa_scope a | _ => 0 end.

Lemma netmatch_spec host net l : xa_ok host -> xa_ok net -> 0 < width (xa_af host) ->
  0 <= l <= width (xa_af host) ->
  addr_netmatch host net l = 0 <->
  xa_af host = xa_af net /\ scope host = scope net /\
  clear_low (addr_val host) (width (xa_af host) - l) = addr_val net.
Proof.
  intros A B Hw Hl. unfold addr_netmatch. case_bool_decide as Haf; [naive_solver lia|].
  destruct (netmask_valid (xa_af host) l Hl Hw) as [m Hm]. rewrite Hm.
  destruct (and_netmask host l m A ltac:(lia) Hw Hm) as (r & R & Raf & Rok & Rs & Rv). rewrite R.
  destruct (cmp_spec r net Rok B) as [H _]; [by rewrite Raf|by rewrite Raf|].
  cbv zeta in H. rewrite Rv, Raf, Rs in H. unfold scope. rewrite H. naive_solver.
Qed.

Lemma land_ones_zero v k : 0 <= k -> Z.land v (Z.ones k) = 0 <-> clear_low v k = v.
Proof.
  intros Hk. split; intros H; apply Z.bits_inj'; intros n Hn.
  - rewrite clear_low_bits by lia. destruct (Z.leb_spec k n); [done|]. cbn [andb].
    apply (f_equal (fun z => Z.testbit z n)) in H.
    rewrite Z.land_spec, Z.ones_spec_low, Z.bits_0, andb_true_r in H by lia. done.
  - rewrite Z.land_spec, Z.bits_0, Z.testbit_ones_nonneg by lia. destruct (Z.ltb_spec n k); [|by rewrite andb_false_r].
    rewrite <- H, clear_low_bits by lia. rewrite (proj2 (Z.leb_gt _ _)) by lia. done.
Qed.

Lemma is_all0s_spec a : xa_ok a -> 0 < width (xa_af a) -> addr_is_all0s a = 0 <-> addr_val a = 0.
Proof.
  intros [La Wa] Hw. unfold addr_is_all0s, addr_val. destruct (xa_af a); [| |cbn in Hw; lia].
  - destruct (Z.eqb_spec (v4 a) 0); lia.
  - unfold val6, addr32. destruct (xa_words a) as [|w0 [|w1 [|w2 [|w3 [|]]]]]; cbn in La; try lia.
    apply Forall_cons in Wa as [W0 [W1 [W2 [W3 _]%Forall_cons]%Forall_cons]%Forall_cons].
    unfold word_ok in *. cbn [existsb nth rev app words_val].
    destruct (Z.eqb_spec w0 0), (Z.eqb_spec w1 0), (Z.eqb_spec w2 0), (Z.eqb_spec w3 0); cbn [negb orb]; lia.
Qed.

Lemma host_is_all0s_spec a l : xa_ok a -> 0 < width (xa_af a) -> 0 <= l <= width (xa_af a) ->
  addr_host_is_all0s a l = 0 <-> clear_low (addr_val a) (width (xa_af a) - l) = addr_val a.
Proof.
  intros A Hw Hl. unfold addr_host_is_all0s. destruct (hostmask_spec (xa_af a) l Hl Hw) as (m & -> & Maf & M & Mv).
  destruct (and_spec a m A M ltac:(done) Hw) as (r & -> & Raf & R & _ & Rv).
  rewrite is_all0s_spec by (done || by rewrite Raf). rewrite Rv, Mv. apply land_ones_zero. lia.
Qed.

Section Cidr.
Context (has_scope : bool) (getaddrinfo : list Z -> option (sockaddr * Z)).

(** What the resolver promises: numeric addresses have the four words (one for
    IPv4) of their family. *)
Definition resolver_ok : Prop := forall p sa slen, getaddrinfo p = Some (sa, slen) ->
  match sa_family sa with
  | AF_INET => exists w, sa_addr sa = [w] /\ word_ok w
  | AF_INET6 => length (sa_addr sa) = 4%nat /\ Forall word_ok (sa_addr sa)
  | _ => True
  end.

Lemma pton_ok p a : resolver_ok -> addr_pton has_scope getaddrinfo p = Some a ->
  xa_ok a /\ 0 < width (xa_af a).
Proof.
  intros Rk. unfold addr_pton. destruct (getaddrinfo p) as [[sa slen]|] eqn:E; [|done].
  specialize (Rk p sa slen E). cbn [mbind option_bind]. unfold addr_sa_to_xaddr.
  destruct (sa_family sa); [|destruct (slen <? SIZEOF_IN6); [done|]|done].
  - destruct (slen <? SIZEOF_IN); [done|]. destruct Rk as (w & -> & Hw). intros [= <-].
    split; [constructor; [done|]|done]. cbn. repeat (constructor; [done || apply word_ok_0|]). constructor.
  - destruct Rk. intros [= <-]. split; [by constructor|done].
Qed.

Lemma cidr_ok p net l : resolver_ok -> addr_pton_cidr has_scope getaddrinfo p = inr (net, l) ->
  xa_ok net /\ 0 < width (xa_af net) /\ 0 <= l <= width (xa_af net) /\
  clear_low (addr_val net) (width (xa_af net) - l) = addr_val net.
Proof.
  intros Rk. unfold addr_pton_cidr. destruct (strlcpy p ADDRBUF_SIZE) as [buf n].
  destruct (n >=? ADDRBUF_SIZE); [done|].
  destruct (match strchr buf (chr "/") with Some _ => _ | None => _ end) as [addr mp].
  assert (forall o, (match mp with
     | Some mp => match strtonum mp 0 INT_MAX with inl _ => None | inr v => Some (Some (u32 v)) end
     | None => Some None end) = Some (Some o) -> 0 <= o) as Hnn.
  { intros o. destruct mp as [m|]; [|done]. destruct (strtonum m 0 INT_MAX); [done|]. intros [= <-]. apply wrap_range. lia. }
  destruct (match mp with Some _ => _ | None => _ end) as [ml|]; [|done].
  destruct (addr_pton has_scope getaddrinfo addr) as [tmp|] eqn:E; [|done].
  destruct (pton_ok addr tmp Rk E) as [Ok Hw].
  set (k := match ml with Some l => l | None => u32 (addr_unicast_masklen (xa_af tmp)) end).
  assert (0 <= k) as Hk by (unfold k; destruct ml; [by apply Hnn|apply wrap_range; lia]).
  assert (masklen_valid (xa_af tmp) k = 0 /\ k <= width (xa_af tmp) \/ masklen_valid (xa_af tmp) k = -1) as [[-> Hle]| ->];
    [|cbn [Z.eqb]|done].
  { unfold masklen_valid. destruct (xa_af tmp); [destruct (Z.leb_spec k 32)|destruct (Z.leb_spec k 128)|]; auto. }
  destruct (Z.eqb_spec (addr_host_is_all0s tmp k) 0) as [H0|]; cbn [negb]; [|done].
  intros [= <- <-]. split_and!; auto. apply host_is_all0s_spec; auto.
Qed.
End Cidr.

(** C39: CIDR matching: when a network parses, its host bits are zero and its
    length fits the family, and an address matches it exactly when it has the
    same family and scope and agrees with it on the first [l] bits. *)
Theorem cidr_match_correct has_scope getaddrinfo p net l host :
  resolver_ok getaddrinfo -> addr_pton_cidr has_scope getaddrinfo p = inr (net, l) ->
  xa_ok host -> 0 < width (xa_af host) ->
  0 <= l <= width (xa_af net) /\
  (forall n, 0 <= n < width (xa_af net) - l -> Z.testbit (addr_val net) n = false) /\
  (addr_netmatch host net l = 0 <->
   xa_af host = xa_af net /\ scope host = scope net /\
   forall n, width (xa_af net) - l <= n < width (xa_af net) ->
     Z.testbit (addr_val host) n = Z.testbit (addr_val net) n).
Proof.
  intros Rk Hp H Hw. destruct (cidr_ok has_scope getaddrinfo p net l Rk Hp) as (N & Nw & Hl & Hc).
  split_and!; [lia|lia| |].
  - intros n Hn. rewrite <- Hc, clear_low_bits by lia. by rewrite (proj2 (Z.leb_gt _ _)) by lia.
  - destruct (decide (xa_af host = xa_af net)) as [Haf|Haf].
    + rewrite netmatch_spec by (done || by rewrite Haf). rewrite Haf. split.
      * intros (_ & Hs & E). split_and!; auto. intros n Hn. rewrite <- E, clear_low_bits by lia.
        by rewrite (proj2 (Z.leb_le _ _)) by lia.
      * intros (_ & Hs & E). split_and!; auto. apply Z.bits_inj'. intros n Hn. rewrite clear_low_bits by lia.
        destruct (Z.leb_spec (width (xa_af net) - l) n); cbn [andb].
        -- destruct (Z.lt_ge_cases n (width (xa_af net))); [by apply E|].
           by rewrite !addr_val_high by (done || rewrite ?Haf; lia).
        -- rewrite <- Hc, clear_low_bits by lia. by rewrite (proj2 (Z.leb_gt _ _)) by lia.
    + unfold addr_netmatch. rewrite bool_decide_eq_true_2 by done. naive_solver lia.
Qed.

(** A resolver for one string, for the examples. *)
Definition demo_resolver (p : list Z) : option (sockaddr * Z) :=
  if bool_decide (p = str "10.1.0.0") then Some (mk_sockaddr AF_INET 0 [0x0a010000] 0, 16)
  else if bool_decide (p = str "fe80::1%eth0") then
    Some (mk_sockaddr AF_INET6 0 [0xfe800000; 0; 0; 1] 2, 28)
  else None.

Lemma demo_resolver_ok : resolver_ok demo_resolver.
Proof.
  intros p sa slen. unfold demo_resolver. case_bool_decide.
  - intros [= <- <-]. cbn. eexists. split; [done|]. unfold word_ok. lia.
  - case_bool_decide; [|done]. intros [= <- <-]. cbn. split; [done|].
    repeat (constructor; [unfold word_ok; lia|]). constructor.
Qed.

Lemma cidr_match_correct_witness :
  let net := mk_xaddr AF_INET [0x0a010000; 0; 0; 0] 0 in
  let host := mk_xaddr AF_INET [0x0a01ff07; 0; 0; 0] 0 in
  0 <= 16 <= width (xa_af net) /\
  (forall n, 0 <= n < width (xa_af net) - 16 -> Z.testbit (addr_val net) n = false) /\
  (addr_netmatch host net 16 = 0 <->
   xa_af host = xa_af net /\ scope host = scope net /\
   forall n, width (xa_af net) - 16 <= n < width (xa_af net) ->
     Z.testbit (addr_val host) n = Z.testbit (addr_val net) n).
Proof.
  apply (cidr_match_correct false demo_resolver (str "10.1.0.0/16")
    (mk_xaddr AF_INET [0x0a010000; 0; 0; 0] 0) 16 (mk_xaddr AF_INET [0x0a01ff07; 0; 0; 0] 0)).
  - apply demo_resolver_ok.
  - vm_compute. reflexivity.
  - constructor; [reflexivity|]. repeat constructor; vm_compute; discriminate || reflexivity.
  - reflexivity.
Defined.

(** ** Ranges *)

(** Increment with carry, from the low word. *)
Fixpoint carry (ws : list Z) : list Z :=
  match ws with
  | [] => []
  | w :: ws => let n := u32 (w + 1) in if negb (n =? 0) then n :: ws else n :: carry ws
  end.

Lemma carry_val ws : Forall word_ok ws ->
  Forall word_ok (carry ws) /\ words_val (carry ws) = (words_val ws + 1) mod 2 ^ (32 * zlen ws).
Proof.
  induction 1 as [|w ws Hw Hws IH]; [done|]. cbn [carry]. pose proof (words_val_nonneg ws Hws) as V0.
  pose proof (words_val_bound ws Hws) as Vb. rewrite zlen_cons, Z.mul_add_distr_l, Z.pow_add_r by (pose proof (zlen_nonneg ws); lia).
  change (2 ^ (32 * 1)) with (2 ^ 32). set (P := 2 ^ (32 * zlen ws)) in *.
  assert (0 < P) by (apply Z.pow_pos_nonneg; pose proof (zlen_nonneg ws); lia). unfold word_ok in *.
  destruct (decide (w = 2 ^ 32 - 1)) as [->|Hne].
  - change (u32 (2 ^ 32 - 1 + 1)) with 0. cbn [Z.eqb negb words_val]. destruct IH as [IH1 ->].
    split; [constructor; [lia|done]|].
    replace (2 ^ 32 - 1 + 2 ^ 32 * words_val ws + 1) with (2 ^ 32 * (words_val ws + 1)) by lia.
    rewrite Z.mul_mod_distr_l by lia. lia.
  - rewrite wrap_small by lia. rewrite (proj2 (Z.eqb_neq _ _)) by lia. cbn [negb words_val].
    split; [constructor; [lia|done]|]. rewrite Z.mod_small by nia. lia.
Qed.

Lemma incr_words_carry w0 w1 w2 w3 s :
  xa_words (incr_words [0; 1; 2; 3]%nat (mk_xaddr AF_INET6 [w0; w1; w2; w3] s)) =
  rev (carry [w3; w2; w1; w0]).
Proof.
  cbn [incr_words carry]. unfold addr32 at 1 3, set32 at 1 3. cbn [xa_words nth Nat.sub].
  destruct (negb (u32 (w3 + 1) =? 0)); [done|]. cbn [incr_words]. unfold addr32, set32. cbn.
  repeat (case_match; [done|]). done.
Qed.

Lemma increment_spec a : xa_ok a -> 0 < width (xa_af a) ->
  xa_ok (addr_increment a) /\ xa_af (addr_increment a) = xa_af a /\
  addr_val (addr_increment a) = (addr_val a + 1) mod 2 ^ width (xa_af a).
Proof.
  intros [La Wa] Hw. unfold addr_increment, addr_val. destruct a as [af ws s]. cbn [xa_af xa_words] in *.
  destruct af; [| |cbn in Hw; lia].
  - cbn [set32 xa_af width]. split_and!; [|done|].
    + constructor; cbn; [by rewrite length_insert|]. apply Forall_insert; [done|]. unfold word_ok. apply wrap_range. lia.
    + unfold v4, addr32. cbn [set32 xa_words].
      rewrite (nth_lookup (<[_ := _]> _)), list_lookup_insert_eq by lia. done.
  - assert (xa_af (incr_words [0; 1; 2; 3]%nat (mk_xaddr AF_INET6 ws s)) = AF_INET6) as Haf
      by (cbn [incr_words]; repeat case_match; done).
    destruct ws as [|w0 [|w1 [|w2 [|w3 [|]]]]]; cbn in La; try lia.
    destruct (carry_val [w3; w2; w1; w0]) as [C V]; [by apply Forall_rev in Wa|].
    pose proof (incr_words_carry w0 w1 w2 w3 s) as E. rewrite Haf. split_and!; [|done|].
    + constructor; rewrite E; [|by apply Forall_rev]. cbn [carry]. by repeat case_match.
    + rewrite E. unfold val6. rewrite rev_involutive. exact V.
Qed.

(** The addresses of a network: setting the host bits of its first address
    gives the last one, 2^(width - l) - 1 further, and incrementing is adding
    one modulo 2^width, with the carry across the words of an IPv6 address. *)
Theorem network_range a l : xa_ok a -> 0 < width (xa_af a) -> 0 <= l <= width (xa_af a) ->
  addr_host_is_all0s a l = 0 ->
  (exists z, addr_host_to_all1s a l = Some z /\ xa_ok z /\ xa_af z = xa_af a /\
     addr_val z = addr_val a + (2 ^ (width (xa_af a) - l) - 1)) /\
  addr_val (addr_increment a) = (addr_val a + 1) mod 2 ^ width (xa_af a).
Proof.
  intros A Hw Hl H0. split; [|by apply increment_spec].
  apply host_is_all0s_spec in H0; [|done..].
  unfold addr_host_to_all1s. destruct (hostmask_spec (xa_af a) l Hl Hw) as (m & -> & Maf & M & Mv).
  cbn [mbind option_bind]. destruct (or_spec a m A M ltac:(done) Hw) as (z & -> & Zaf & Z & _ & Zv).
  exists z. split_and!; auto. rewrite Zv, Mv.
  pose proof (Z.add_lor_land (addr_val a) (Z.ones (width (xa_af a) - l))) as E.
  rewrite (proj2 (land_ones_zero (addr_val a) (width (xa_af a) - l) ltac:(lia)) H0) in E. rewrite Z.ones_equiv in *. lia.
Qed.

Lemma network_range_witness :
  let a := mk_xaddr AF_INET6 [0x20010db8; 0xffffffff; 0; 0] 0 in
  (exists z, addr_host_to_all1s a 64 = Some z /\ xa_ok z /\ xa_af z = xa_af a /\
     addr_val z = addr_val a + (2 ^ (width (xa_af a) - 64) - 1)) /\
  addr_val (addr_increment a) = (addr_val a + 1) mod 2 ^ width (xa_af a).
Proof.
  apply (network_range (mk_xaddr AF_INET6 [0x20010db8; 0xffffffff; 0; 0] 0) 64).
  - constructor; [reflexivity|]. repeat constructor; vm_compute; discriminate || reflexivity.
  - reflexivity.
  - split; vm_compute; discriminate.
  - vm_compute. reflexivity.
Defined.

(** Conversion to a socket address and back. *)
Lemma sockaddr_roundtrip has_scope a port sa slen :
  xa_ok a -> addr_xaddr_to_sa has_scope a 128 port = Some (sa, slen) ->
  exists a', addr_sa_to_xaddr has_scope sa slen = Some a' /\ xa_af a' = xa_af a /\
    addr_val a' = addr_val a /\ (has_scope = true \/ scope a = 0 -> scope a' = scope a).
Proof.
  intros A. unfold addr_xaddr_to_sa, addr_sa_to_xaddr, addr_val, scope. destruct (xa_af a) eqn:E; [| |done].
  - intros [= <- <-]. eexists. split; [done|]. cbn. auto.
  - intros [= <- <-]. eexists. split; [done|]. cbn. split_and!; auto. destruct has_scope; naive_solver.
Qed.
