(* ===== verification/AddrMatch.v ===== *)
(** * Address lists: [addrmatch.c], and [match_host_and_ip] and [match_user] of
    [match.c]

    A NULL string is [None]. The resolver and INET6_ADDRSTRLEN come from the
    platform. *)

From S2P Require Import Prelude Cstring Match MatchThms Words Addr AddrThms.

Section AddrMatch.
Context (has_scope : bool) (getaddrinfo : list Z -> option (sockaddr * Z)) (INET6_ADDRSTRLEN : Z).

Abbreviation addr_pton := (addr_pton has_scope getaddrinfo).
Abbreviation addr_pton_cidr := (addr_pton_cidr has_scope getaddrinfo).

(** The loop over the entries; [addr] is the string and its parsed form. *)
Fixpoint match_entries (addr : option (list Z * xaddr)) (ts : list (list Z)) (ret : Z) : Z :=
  match ts with
  | [] => ret
  | cp :: ts =>
      let '(neg, cp) := match cp with
                        | c :: cp' => if c =? chr "!" then (true, cp') else (false, cp)
                        | [] => (false, cp) end in
      let foundit := if (neg : bool) then -1 else match_entries addr ts 1 in
      if bool_decide (cp = []) then -2
      else match addr_pton_cidr cp with
      | inr (match_addr, masklen) =>
          match addr with
          | Some (_, try_addr) =>
              if addr_netmatch try_addr match_addr masklen =? 0 then foundit
              else match_entries addr ts ret
          | None => match_entries addr ts ret
          end
      | inl r =>
          if r =? -2 then -2
          else match addr with
               | Some (s, _) => if match_pattern s cp then foundit else match_entries addr ts ret
               | None => match_entries addr ts ret
               end
      end
  end.

(** [ok]: whether [strdup] succeeds. *)
Definition addr_match_list (ok : bool) (addr : option (list Z)) (_list : list Z) : Z :=
  match (match addr with
         | Some s => match addr_pton s with Some a => Some (Some (s, a)) | None => None end
         | None => Some None
         end) with
  | None => 0
  | Some addr => if negb ok then -1 else match_entries addr (split _list) 0
  end.

Definition VALID_CIDR_CHARS : list Z := Eval vm_compute in str "0123456789abcdefABCDEF.:/".

Fixpoint match_networks (addr : option xaddr) (ts : list (list Z)) (ret : Z) : Z :=
  match ts with
  | [] => ret
  | cp :: ts =>
      if bool_decide (cp = []) then -1
      else if zlen cp >? INET6_ADDRSTRLEN + 3 then -1
      else
        let ret := if negb (strspn cp VALID_CIDR_CHARS =? zlen cp) then -1 else ret in
        match addr_pton_cidr cp with
        | inl _ => -1
        | inr (match_addr, masklen) =>
            match addr with
            | Some try_addr =>
                match_networks addr ts
                  (if addr_netmatch try_addr match_addr masklen =? 0 then 1 else ret)
            | None => match_networks addr ts ret
            end
        end
  end.

Definition addr_match_cidr_list (ok : bool) (addr : option (list Z)) (_list : list Z) : Z :=
  match (match addr with
         | Some s => match addr_pton s with Some a => Some (Some a) | None => None end
         | None => Some None
         end) with
  | None => 0
  | Some addr => if negb ok then -1 else match_networks addr (split _list) 0
  end.

(** ** Hosts and users *)

Definition match_host_and_ip (ok : bool) (host ipaddr : option (list Z)) (patterns : list Z) : Z :=
  let mip := addr_match_list ok ipaddr patterns in
  if mip =? -2 then -1
  else match host, ipaddr with
       | Some host, Some _ =>
           if mip =? -1 then 0
           else
             let mhost := match_hostname host patterns in
             if mhost =? -1 then 0
             else if (mhost =? 0) && (mip =? 0) then 0
             else 1
       | _, _ => 0
       end.

Definition match_user (ok : bool) (user host ipaddr : option (list Z)) (pattern : list Z) : Z :=
  match user with
  | None =>
      if bool_decide (host = None) && bool_decide (ipaddr = None) then
        match strrchr pattern (chr "@") with
        | Some i => if match_host_and_ip ok None None (drop (Z.to_nat (i + 1)) pattern) <? 0 then -1 else 0
        | None => 0
        end
      else 0
  | Some user =>
      match strrchr pattern (chr "@") with
      | None => if match_pattern user pattern then 1 else 0
      | Some i =>
          if match_pattern user (slice pattern 0 i)
          then match_host_and_ip ok host ipaddr (drop (Z.to_nat (i + 1)) pattern)
          else 0
      end
  end.

(** ** Verdicts *)

(** One entry: negated or not, and what it says of the address. *)
Inductive verdict := Bad | Hit | Miss.

Definition split_neg (t : list Z) : bool * list Z :=
  match t with
  | c :: t' => if c =? chr "!" then (true, t') else (false, t)
  | [] => (false, t)
  end.

Definition judge (addr : option (list Z * xaddr)) (cp : list Z) : verdict :=
  if bool_decide (cp = []) then Bad
  else match addr_pton_cidr cp with
  | inr (net, l) =>
      match addr with
      | Some (_, a) => if addr_netmatch a net l =? 0 then Hit else Miss
      | None => Miss
      end
  | inl r =>
      if r =? -2 then Bad
      else match addr with
           | Some (s, _) => if match_pattern s cp then Hit else Miss
           | None => Miss
           end
  end.

Lemma match_entries_judge addr t ts ret :
  match_entries addr (t :: ts) ret =
  let '(neg, cp) := split_neg t in
  match judge addr cp with
  | Bad => -2
  | Hit => if (neg : bool) then -1 else match_entries addr ts 1
  | Miss => match_entries addr ts ret
  end.
Proof.
  cbn [match_entries]. unfold split_neg, judge.
  destruct (match t with c :: cp' => _ | [] => _ end) as [neg cp].
  case_bool_decide; [done|]. destruct (addr_pton_cidr cp) as [r|[net l]].
  - destruct (r =? -2); [done|]. destruct addr as [[s a]|]; [|done]. by destruct (match_pattern s cp).
  - destruct addr as [[s a]|]; [|done]. by destruct (addr_netmatch a net l =? 0).
Qed.

(** What the entries say, regardless of their order. *)
Definition says (addr : option (list Z * xaddr)) (ts : list (list Z)) (n : bool) (v : verdict) : Prop :=
  exists t, t ∈ ts /\ (split_neg t).1 = n /\ judge addr (split_neg t).2 = v.

Lemma says_cons addr t ts n v : says addr (t :: ts) n v <->
  ((split_neg t).1 = n /\ judge addr (split_neg t).2 = v) \/ says addr ts n v.
Proof. unfold says. setoid_rewrite elem_of_cons. naive_solver. Qed.

Lemma says_nil addr n v : ~ says addr [] n v.
Proof. intros (t & Ht & _). by apply not_elem_of_nil in Ht. Qed.

(** The verdict when every entry is well formed. *)
Lemma match_entries_correct addr ts : (forall n, ~ says addr ts n Bad) -> forall ret, ret = 0 \/ ret = 1 ->
  (says addr ts true Hit /\ match_entries addr ts ret = -1) \/
  (~ says addr ts true Hit /\
   ((says addr ts false Hit \/ ret = 1) /\ match_entries addr ts ret = 1 \/
    ~ says addr ts false Hit /\ ret = 0 /\ match_entries addr ts ret = 0)).
Proof.
  induction ts as [|t ts IH]; intros Hb ret Hr.
  - right. split; [apply says_nil|]. cbn. destruct Hr as [->| ->]; [right|left; auto].
    split_and!; auto. apply says_nil.
  - rewrite match_entries_judge. rewrite !says_cons. setoid_rewrite says_cons in Hb.
    destruct (split_neg t) as [neg cp]. cbn [fst snd] in *.
    assert (forall n, ~ says addr ts n Bad) as Hb' by naive_solver. specialize (IH Hb').
    destruct (judge addr cp) eqn:J.
    + exfalso. apply (Hb neg). auto.
    + destruct neg; [left; auto|]. specialize (IH 1 ltac:(auto)). naive_solver.
    + specialize (IH ret Hr). naive_solver.
Qed.


(** Without an address the list is only checked: 0 when every entry is well
    formed and -2 otherwise. (When the copy of the list cannot be allocated
    the result is -1, which the comment reserves for a negated match.) *)
Lemma addr_match_list_null _list :
  (addr_match_list true None _list = 0 <-> forall n, ~ says None (split _list) n Bad) /\
  (addr_match_list true None _list = -2 <-> exists n, says None (split _list) n Bad) /\
  addr_match_list false None _list = -1.
Proof.
  assert (forall ts, (match_entries None ts 0 = 0 /\ forall n, ~ says None ts n Bad) \/
                     (match_entries None ts 0 = -2 /\ exists n, says None ts n Bad)) as K.
  { assert (forall cp, judge None cp <> Hit) as NoHit.
    { intros cp. unfold judge. case_bool_decide; [done|]. destruct (addr_pton_cidr cp) as [r|[]]; [|done]. by destruct (r =? -2). }
    induction ts as [|t ts IH]; [left; split; [done|intros; apply says_nil]|].
    rewrite match_entries_judge. setoid_rewrite says_cons. destruct (split_neg t) as [neg cp]. cbn [fst snd].
    specialize (NoHit cp). destruct (judge None cp); [right; naive_solver|done|].
    destruct IH as [[-> IH]|[-> [n IH]]]; [left; naive_solver|right; split; [done|exists n; auto]]. }
  unfold addr_match_list. cbn [negb]. destruct (K (split _list)) as [[-> H]|[-> [n H]]]; split_and!; auto; split; intros; try lia; try done; naive_solver.
Qed.

(** ** Network lists *)

(** An entry of a network list is an error when it is empty, too long or does
    not parse. *)
Definition bad_network (cp : list Z) : Prop :=
  cp = [] \/ INET6_ADDRSTRLEN + 3 < zlen cp \/ exists e, addr_pton_cidr cp = inl e.

Definition contains (a : xaddr) (cp : list Z) : Prop :=
  exists net l, addr_pton_cidr cp = inr (net, l) /\ addr_netmatch a net l = 0.

Definition valid_chars (cp : list Z) : Prop := strspn cp VALID_CIDR_CHARS = zlen cp.

(** A network list whose entries use the permitted characters: -1 exactly
    when an entry is empty, too long or no network, otherwise 1 when a network
    contains the address, otherwise 0. *)
Theorem addr_match_cidr_list_correct s a _list :
  addr_pton s = Some a -> Forall valid_chars (split _list) ->
  let r := addr_match_cidr_list true (Some s) _list in
  let bad := Exists bad_network (split _list) in
  let hit := Exists (contains a) (split _list) in
  (r = -1 <-> bad) /\ (r = 1 <-> ~ bad /\ hit) /\ (r = 0 <-> ~ bad /\ ~ hit).
Proof.
  intros Hs Hv r bad hit. unfold r, bad, hit, addr_match_cidr_list. rewrite Hs. cbn [negb]. clear r bad hit.
  assert (forall ts, Forall valid_chars ts -> forall ret, ret = 0 \/ ret = 1 ->
    (Exists bad_network ts /\ match_networks (Some a) ts ret = -1) \/
    (~ Exists bad_network ts /\ (Exists (contains a) ts \/ ret = 1) /\ match_networks (Some a) ts ret = 1) \/
    (~ Exists bad_network ts /\ ~ Exists (contains a) ts /\ ret = 0 /\ match_networks (Some a) ts ret = 0)) as K.
  { clear. induction 1 as [|cp ts Hc _ IH]; intros ret Hr.
    - rewrite !Exists_nil. cbn. naive_solver.
    - cbn [match_networks]. rewrite !Exists_cons.
      assert (bad_network cp <-> cp = [] \/ INET6_ADDRSTRLEN + 3 < zlen cp \/ exists e, addr_pton_cidr cp = inl e) as Hbad by done.
      case_bool_decide as Hemp; [naive_solver|]. rewrite Z.gtb_ltb.
      destruct (Z.ltb_spec (INET6_ADDRSTRLEN + 3) (zlen cp)) as [|Hlen]; [naive_solver|].
      unfold valid_chars in Hc. rewrite Hc, Z.eqb_refl. cbn [negb].
      destruct (addr_pton_cidr cp) as [e|[net l]] eqn:E; [naive_solver|].
      assert (contains a cp <-> addr_netmatch a net l = 0) as Hcon.
      { unfold contains. rewrite E. naive_solver. }
      assert (~ bad_network cp) as Hnb by (rewrite Hbad; naive_solver lia).
      destruct (Z.eqb_spec (addr_netmatch a net l) 0) as [Hm|Hm].
      + specialize (IH 1 ltac:(auto)). naive_solver.
      + specialize (IH ret Hr). naive_solver. }
  destruct (K (split _list) Hv 0 ltac:(auto)) as [[B ->]|[(B & [H|H] & ->)|(B & H & _ & ->)]];
    [| |lia|]; split_and!; split; intros; try lia; tauto.
Qed.
End AddrMatch.

(** ** Examples with one resolvable address *)

Definition demo_v4 : xaddr := mk_xaddr AF_INET [0x0a010000; 0; 0; 0] 0.


Lemma addr_match_cidr_list_correct_witness :
  let r := addr_match_cidr_list false demo_resolver 46 true (Some (str "10.1.0.0")) (str "10.1.0.0/16") in
  let bad := Exists (bad_network false demo_resolver 46) (split (str "10.1.0.0/16")) in
  let hit := Exists (contains false demo_resolver demo_v4) (split (str "10.1.0.0/16")) in
  (r = -1 <-> bad) /\ (r = 1 <-> ~ bad /\ hit) /\ (r = 0 <-> ~ bad /\ ~ hit).
Proof.
  apply (addr_match_cidr_list_correct false demo_resolver 46 (str "10.1.0.0") demo_v4).
  - vm_compute. reflexivity.
  - repeat constructor.
Defined.

(** An entry with characters outside the permitted set is reported but not
    skipped: it still reaches the resolver, and when the resolver accepts it
    (here an address with a scope) and the address matches, the error is
    overwritten by a match. *)
Theorem cidr_list_invalid_chars :
  ~ valid_chars (str "fe80::1%eth0") /\
  addr_match_cidr_list false demo_resolver 46 true None (str "fe80::1%eth0") = -1 /\
  addr_match_cidr_list false demo_resolver 46 true (Some (str "fe80::1%eth0")) (str "fe80::1%eth0") = 1.
Proof. split; [|vm_compute; auto]. intros H. vm_compute in H. discriminate. Qed.
