(* ===== verification/Channel.v ===== *)
(** * Channel: the channel state machine (nchan.c) and its data (channels.h)

    A channel joins a local descriptor to the encrypted connection.  [Channel]
    is struct Channel without the fields no modelled function reads (names,
    listeners, multiplexing, confirmation callbacks).  The buffers are the byte
    lists an sshbuf holds; [buf_put] appends under the buffer's maximum, as
    sshbuf_put does.

    The monad's state is one channel and the connection around it: the channel
    packets queued so far ([n_sent], oldest first), the system calls made on
    the channel's descriptors ([n_sys]), the answers of the allocator and of
    the packet layer to come ([n_answers]: true is success, the default), the
    compatibility bits of the peer and the clock.  [fatal] and
    ssh_packet_disconnect end the process; both are values that no function
    catches, and [fatal_resource] is the fatal of a failed allocation or of the
    packet layer.  The build is the Windows one: PTY_ZEROREAD and _AIX are
    undefined, BROKEN_TCGETATTR_ICANON is defined. *)

From S2P Require Import Prelude Ssherr Sshbuf SshbufWire Cstring.

(** ** Constants of channels.h *)

Inductive chan_type :=
| SSH_CHANNEL_X11_LISTENER | SSH_CHANNEL_PORT_LISTENER | SSH_CHANNEL_OPENING
| SSH_CHANNEL_OPEN | SSH_CHANNEL_CLOSED | SSH_CHANNEL_AUTH_SOCKET | SSH_CHANNEL_X11_OPEN
| SSH_CHANNEL_LARVAL | SSH_CHANNEL_RPORT_LISTENER | SSH_CHANNEL_CONNECTING
| SSH_CHANNEL_DYNAMIC | SSH_CHANNEL_ZOMBIE | SSH_CHANNEL_MUX_LISTENER
| SSH_CHANNEL_MUX_CLIENT | SSH_CHANNEL_ABANDONED | SSH_CHANNEL_UNIX_LISTENER
| SSH_CHANNEL_RUNIX_LISTENER | SSH_CHANNEL_MUX_PROXY | SSH_CHANNEL_RDYNAMIC_OPEN
| SSH_CHANNEL_RDYNAMIC_FINISH.

#[export] Instance chan_type_eq_dec : EqDecision chan_type.
Proof. solve_decision. Defined.

Definition CHAN_INPUT_OPEN : Z := 0.
Definition CHAN_INPUT_WAIT_DRAIN : Z := 1.
Definition CHAN_INPUT_WAIT_OCLOSE : Z := 2.
Definition CHAN_INPUT_CLOSED : Z := 3.
Definition CHAN_OUTPUT_OPEN : Z := 0.
Definition CHAN_OUTPUT_WAIT_DRAIN : Z := 1.
Definition CHAN_OUTPUT_WAIT_IEOF : Z := 2.
Definition CHAN_OUTPUT_CLOSED : Z := 3.

Definition CHAN_CLOSE_SENT : Z := 0x01.
Definition CHAN_CLOSE_RCVD : Z := 0x02.
Definition CHAN_EOF_SENT : Z := 0x04.
Definition CHAN_EOF_RCVD : Z := 0x08.
Definition CHAN_LOCAL : Z := 0x10.

Definition CHAN_EXTENDED_IGNORE : Z := 0.
Definition CHAN_EXTENDED_READ : Z := 1.
Definition CHAN_EXTENDED_WRITE : Z := 2.

Definition CHANNEL_RESTORE_RFD : Z := 0x01.
Definition CHANNEL_RESTORE_WFD : Z := 0x02.
Definition CHANNEL_RESTORE_EFD : Z := 0x04.

Definition SSH_CHAN_IO_RFD : Z := 0x01.
Definition SSH_CHAN_IO_WFD : Z := 0x02.
Definition SSH_CHAN_IO_EFD_R : Z := 0x04.
Definition SSH_CHAN_IO_EFD_W : Z := 0x08.
Definition SSH_CHAN_IO_EFD : Z := Z.lor SSH_CHAN_IO_EFD_R SSH_CHAN_IO_EFD_W.
Definition SSH_CHAN_IO_SOCK_R : Z := 0x10.
Definition SSH_CHAN_IO_SOCK_W : Z := 0x20.
Definition SSH_CHAN_IO_SOCK : Z := Z.lor SSH_CHAN_IO_SOCK_R SSH_CHAN_IO_SOCK_W.

Definition CHAN_RBUF : Z := 16 * 1024.
Definition CHANNEL_MAX_READ : Z := 32 * 1024.
Definition CHAN_INPUT_MAX : Z := 16 * 1024 * 1024.

(** [x & mask] as a condition. *)
Definition has (x mask : Z) : bool := negb (Z.land x mask =? 0).

(** ** struct Channel *)

Record Channel := mk_Channel {
  c_type : chan_type;
  c_self : Z;
  c_remote_id : Z;
  c_have_remote_id : bool;
  c_istate : Z;
  c_ostate : Z;
  c_flags : Z;
  c_rfd : Z;
  c_wfd : Z;
  c_efd : Z;
  c_sock : Z;
  c_io_want : Z;
  c_io_ready : Z;
  c_pfds : list Z;
  c_isatty : bool;
  c_force_drain : bool;
  c_restore_block : Z;
  c_restore_flags : list Z;
  c_input : list Z;
  c_output : list Z;
  c_extended : list Z;
  c_remote_window : Z;
  c_remote_maxpacket : Z;
  c_local_window : Z;
  c_local_window_exceeded : Z;
  c_local_window_max : Z;
  c_local_consumed : Z;
  c_local_maxpacket : Z;
  c_extended_usage : Z;
  c_ctype : list Z;
  c_open_confirm : bool;
  c_detach_user : bool;
  c_detach_close : bool;
  c_input_filter : bool;
  c_output_filter : bool;
  c_datagram : bool;
  c_inactive_deadline : Z;
  c_lastused : Z
}.

(** The record rebuilt from its fields, and [assign]: the same record with one
    field replaced. *)
Definition rebuild (c : Channel) : Channel :=
  mk_Channel (c_type c) (c_self c) (c_remote_id c) (c_have_remote_id c) (c_istate c) (c_ostate c)
    (c_flags c) (c_rfd c) (c_wfd c) (c_efd c) (c_sock c) (c_io_want c) (c_io_ready c)
    (c_pfds c) (c_isatty c) (c_force_drain c) (c_restore_block c) (c_restore_flags c)
    (c_input c) (c_output c) (c_extended c) (c_remote_window c) (c_remote_maxpacket c)
    (c_local_window c) (c_local_window_exceeded c) (c_local_window_max c) (c_local_consumed
    c) (c_local_maxpacket c) (c_extended_usage c) (c_ctype c) (c_open_confirm c)
    (c_detach_user c) (c_detach_close c) (c_input_filter c) (c_output_filter c) (c_datagram
    c) (c_inactive_deadline c) (c_lastused c).

Ltac assign c field v :=
  let t := eval cbv [rebuild] in (rebuild c) in
  lazymatch t with context G [field c] => let r := context G [v] in exact r end.

(** Assignments to one field. *)
Definition with_type (v : chan_type) (c : Channel) : Channel := ltac:(assign c c_type v).
Definition with_self (v : Z) (c : Channel) : Channel := ltac:(assign c c_self v).
Definition with_remote_id (v : Z) (c : Channel) : Channel := ltac:(assign c c_remote_id v).
Definition with_have_remote_id (v : bool) (c : Channel) : Channel := ltac:(assign c c_have_remote_id v).
Definition with_istate (v : Z) (c : Channel) : Channel := ltac:(assign c c_istate v).
Definition with_ostate (v : Z) (c : Channel) : Channel := ltac:(assign c c_ostate v).
Definition with_flags (v : Z) (c : Channel) : Channel := ltac:(assign c c_flags v).
Definition with_rfd (v : Z) (c : Channel) : Channel := ltac:(assign c c_rfd v).
Definition with_wfd (v : Z) (c : Channel) : Channel := ltac:(assign c c_wfd v).
Definition with_efd (v : Z) (c : Channel) : Channel := ltac:(assign c c_efd v).
Definition with_sock (v : Z) (c : Channel) : Channel := ltac:(assign c c_sock v).
Definition with_io_want (v : Z) (c : Channel) : Channel := ltac:(assign c c_io_want v).
Definition with_io_ready (v : Z) (c : Channel) : Channel := ltac:(assign c c_io_ready v).
Definition with_pfds (v : list Z) (c : Channel) : Channel := ltac:(assign c c_pfds v).
Definition with_isatty (v : bool) (c : Channel) : Channel := ltac:(assign c c_isatty v).
Definition with_force_drain (v : bool) (c : Channel) : Channel := ltac:(assign c c_force_drain v).
Definition with_restore_block (v : Z) (c : Channel) : Channel := ltac:(assign c c_restore_block v).
Definition with_restore_flags (v : list Z) (c : Channel) : Channel := ltac:(assign c c_restore_flags v).
Definition with_input (v : list Z) (c : Channel) : Channel := ltac:(assign c c_input v).
Definition with_output (v : list Z) (c : Channel) : Channel := ltac:(assign c c_output v).
Definition with_extended (v : list Z) (c : Channel) : Channel := ltac:(assign c c_extended v).
Definition with_remote_window (v : Z) (c : Channel) : Channel := ltac:(assign c c_remote_window v).
Definition with_remote_maxpacket (v : Z) (c : Channel) : Channel := ltac:(assign c c_remote_maxpacket v).
Definition with_local_window (v : Z) (c : Channel) : Channel := ltac:(assign c c_local_window v).
Definition with_local_window_exceeded (v : Z) (c : Channel) : Channel := ltac:(assign c c_local_window_exceeded v).
Definition with_local_window_max (v : Z) (c : Channel) : Channel := ltac:(assign c c_local_window_max v).
Definition with_local_consumed (v : Z) (c : Channel) : Channel := ltac:(assign c c_local_consumed v).
Definition with_local_maxpacket (v : Z) (c : Channel) : Channel := ltac:(assign c c_local_maxpacket v).
Definition with_extended_usage (v : Z) (c : Channel) : Channel := ltac:(assign c c_extended_usage v).
Definition with_ctype (v : list Z) (c : Channel) : Channel := ltac:(assign c c_ctype v).
Definition with_open_confirm (v : bool) (c : Channel) : Channel := ltac:(assign c c_open_confirm v).
Definition with_detach_user (v : bool) (c : Channel) : Channel := ltac:(assign c c_detach_user v).
Definition with_detach_close (v : bool) (c : Channel) : Channel := ltac:(assign c c_detach_close v).
Definition with_input_filter (v : bool) (c : Channel) : Channel := ltac:(assign c c_input_filter v).
Definition with_output_filter (v : bool) (c : Channel) : Channel := ltac:(assign c c_output_filter v).
Definition with_datagram (v : bool) (c : Channel) : Channel := ltac:(assign c c_datagram v).
Definition with_inactive_deadline (v : Z) (c : Channel) : Channel := ltac:(assign c c_inactive_deadline v).
Definition with_lastused (v : Z) (c : Channel) : Channel := ltac:(assign c c_lastused v).

(** Reads of a field after assignments. *)
Ltac cfields := cbn [
  c_type c_self c_remote_id c_have_remote_id c_istate c_ostate c_flags c_rfd c_wfd c_efd c_sock
  c_io_want c_io_ready c_pfds c_isatty c_force_drain c_restore_block c_restore_flags c_input
  c_output c_extended c_remote_window c_remote_maxpacket c_local_window c_local_window_exceeded
  c_local_window_max c_local_consumed c_local_maxpacket c_extended_usage c_ctype c_open_confirm
  c_detach_user c_detach_close c_input_filter c_output_filter c_datagram c_inactive_deadline
  c_lastused with_type with_self with_remote_id with_have_remote_id with_istate with_ostate
  with_flags with_rfd with_wfd with_efd with_sock with_io_want with_io_ready with_pfds with_isatty
  with_force_drain with_restore_block with_restore_flags with_input with_output with_extended
  with_remote_window with_remote_maxpacket with_local_window with_local_window_exceeded
  with_local_window_max with_local_consumed with_local_maxpacket with_extended_usage with_ctype
  with_open_confirm with_detach_user with_detach_close with_input_filter with_output_filter
  with_datagram with_inactive_deadline with_lastused].
Ltac cfields_in H := cbn [
  c_type c_self c_remote_id c_have_remote_id c_istate c_ostate c_flags c_rfd c_wfd c_efd c_sock
  c_io_want c_io_ready c_pfds c_isatty c_force_drain c_restore_block c_restore_flags c_input
  c_output c_extended c_remote_window c_remote_maxpacket c_local_window c_local_window_exceeded
  c_local_window_max c_local_consumed c_local_maxpacket c_extended_usage c_ctype c_open_confirm
  c_detach_user c_detach_close c_input_filter c_output_filter c_datagram c_inactive_deadline
  c_lastused with_type with_self with_remote_id with_have_remote_id with_istate with_ostate
  with_flags with_rfd with_wfd with_efd with_sock with_io_want with_io_ready with_pfds with_isatty
  with_force_drain with_restore_block with_restore_flags with_input with_output with_extended
  with_remote_window with_remote_maxpacket with_local_window with_local_window_exceeded
  with_local_window_max with_local_consumed with_local_maxpacket with_extended_usage with_ctype
  with_open_confirm with_detach_user with_detach_close with_input_filter with_output_filter
  with_datagram with_inactive_deadline with_lastused] in H.

Definition CHANNEL_EFD_INPUT_ACTIVE (c : Channel) : bool :=
  (c_extended_usage c =? CHAN_EXTENDED_READ) &&
  (negb (c_efd c =? -1) || (zlen (c_extended c) >? 0)).

Definition CHANNEL_EFD_OUTPUT_ACTIVE (c : Channel) : bool :=
  (c_extended_usage c =? CHAN_EXTENDED_WRITE) && negb (c_efd c =? -1) &&
  (negb (has (c_flags c) (Z.lor CHAN_EOF_RCVD CHAN_CLOSE_RCVD)) || (zlen (c_extended c) >? 0)).

(** ** The connection *)

(** Channel messages (RFC 4254), with the recipient's channel number. *)
Inductive msg :=
| MSG_CHANNEL_DATA (id : Z) (data : list Z)
| MSG_CHANNEL_EXTENDED_DATA (id : Z) (code : Z) (data : list Z)
| MSG_CHANNEL_WINDOW_ADJUST (id : Z) (n : Z)
| MSG_CHANNEL_EOF (id : Z)
| MSG_CHANNEL_CLOSE (id : Z)
| MSG_CHANNEL_EOW (id : Z).  (* the request eow@openssh.com *)

Inductive shut := SHUT_RD | SHUT_WR.
Inductive errno := EINTR | EAGAIN | EWOULDBLOCK | EPIPE | EBADF | EOTHER.

#[export] Instance errno_eq_dec : EqDecision errno.
Proof. solve_decision. Defined.

Inductive syscall :=
| SysClose (fd : Z)
| SysShutdown (fd : Z) (how : shut)
| SysSetfl (fd fl : Z)
| SysRead (fd : Z) (data : list Z)
| SysWrite (fd : Z) (data : list Z).

Record net := mk_net {
  n_sent : list msg;
  n_sys : list syscall;
  n_answers : list bool;
  n_new_openssh : bool;
  n_bug_exteof : bool;
  n_errno : errno;
  n_now : Z;
  n_lastused : Z
}.

Record ssh := mk_ssh { s_chan : Channel; s_net : net }.

Definition net_sent (m : msg) (n : net) : net :=
  mk_net (n_sent n ++ [m]) (n_sys n) (n_answers n) (n_new_openssh n) (n_bug_exteof n)
    (n_errno n) (n_now n) (n_lastused n).
Definition net_sys (c : syscall) (n : net) : net :=
  mk_net (n_sent n) (n_sys n ++ [c]) (n_answers n) (n_new_openssh n) (n_bug_exteof n)
    (n_errno n) (n_now n) (n_lastused n).
Definition net_pop (n : net) : net :=
  mk_net (n_sent n) (n_sys n) (tail (n_answers n)) (n_new_openssh n) (n_bug_exteof n)
    (n_errno n) (n_now n) (n_lastused n).
Definition net_errno (e : errno) (n : net) : net :=
  mk_net (n_sent n) (n_sys n) (n_answers n) (n_new_openssh n) (n_bug_exteof n)
    e (n_now n) (n_lastused n).
Definition net_used (n : net) : net :=
  mk_net (n_sent n) (n_sys n) (n_answers n) (n_new_openssh n) (n_bug_exteof n)
    (n_errno n) (n_now n) (n_now n).

Abbreviation CM := (M ssh).

Definition EXIT_FATAL : Z := 1.
Definition EXIT_DISCONNECT : Z := 2.
Definition EXIT_RESOURCE : Z := 3.
Definition fatal {A} : CM A := throw EXIT_FATAL.
Definition fatal_resource {A} : CM A := throw EXIT_RESOURCE.
Definition ssh_packet_disconnect {A} : CM A := throw EXIT_DISCONNECT.

Definition getc : CM Channel := gets s_chan.
Definition modc (f : Channel -> Channel) : CM unit := fun s => (Ok tt, mk_ssh (f (s_chan s)) (s_net s)).
Definition modn (f : net -> net) : CM unit := fun s => (Ok tt, mk_ssh (s_chan s) (f (s_net s))).

(** The next answer of the allocator or of the packet layer. *)
Definition answer : CM bool := fun s =>
  (Ok (hd true (n_answers (s_net s))), mk_ssh (s_chan s) (net_pop (s_net s))).

(** sshpkt_start .. sshpkt_send; every caller treats a failure as fatal. *)
Definition sshpkt_send (m : msg) : CM unit :=
  ok ← answer;
  if (ok : bool) then modn (net_sent m) else fatal_resource.

(** Appends to a buffer of maximum size [max]; [None] is an error. *)
Definition buf_put (max : Z) (b bs : list Z) : CM (option (list Z)) :=
  ok ← answer;
  mret (if (ok : bool) && (zlen b + zlen bs <=? max) then Some (b ++ bs) else None).

(** ** Descriptors *)

Inductive fdsel := RFD | WFD | EFD | SOCK.

Definition get_fd (f : fdsel) (c : Channel) : Z :=
  match f with RFD => c_rfd c | WFD => c_wfd c | EFD => c_efd c | SOCK => c_sock c end.
Definition set_fd (f : fdsel) (v : Z) (c : Channel) : Channel :=
  match f with
  | RFD => with_rfd v c | WFD => with_wfd v c | EFD => with_efd v c | SOCK => with_sock v c
  end.

(** One [if ( *fdp == c->f)] block of channel_close_fd: [*fdp] is read when the
    block runs, after the blocks before it. *)
Definition forget_fd (p f : fdsel) (io : Z) (pfd : nat) (c : Channel) : Channel :=
  if get_fd p c =? get_fd f c then
    with_pfds (<[pfd := -1]> (c_pfds c))
      (set_fd f (-1)
        (with_io_ready (Z.land (c_io_ready c) (Z.lnot io))
          (with_io_want (Z.land (c_io_want c) (Z.lnot io)) c)))
  else c.

Definition restore_call (p : fdsel) (c : Channel) : option syscall :=
  if (get_fd p c =? c_rfd c) && has (c_restore_block c) CHANNEL_RESTORE_RFD
  then Some (SysSetfl (get_fd p c) (nth 0 (c_restore_flags c) 0))
  else if (get_fd p c =? c_wfd c) && has (c_restore_block c) CHANNEL_RESTORE_WFD
  then Some (SysSetfl (get_fd p c) (nth 1 (c_restore_flags c) 0))
  else if (get_fd p c =? c_efd c) && has (c_restore_block c) CHANNEL_RESTORE_EFD
  then Some (SysSetfl (get_fd p c) (nth 2 (c_restore_flags c) 0))
  else None.

Definition channel_close_fd (p : fdsel) : CM unit :=
  c ← getc;
  let fd := get_fd p c in
  if fd =? -1 then mret tt
  else
    (if restore_call p c is Some call then modn (net_sys call) else mret tt);;
    modc (forget_fd p RFD SSH_CHAN_IO_RFD 0);;
    modc (forget_fd p WFD SSH_CHAN_IO_WFD 1);;
    modc (forget_fd p EFD SSH_CHAN_IO_EFD 2);;
    modc (forget_fd p SOCK SSH_CHAN_IO_SOCK 3);;
    modn (net_sys (SysClose fd));;
    modc (set_fd p (-1)).

Definition channel_close_fds : CM unit :=
  c ← getc;
  channel_close_fd SOCK;;
  (if negb (c_rfd c =? c_sock c) then channel_close_fd RFD else mret tt);;
  (if negb (c_wfd c =? c_sock c) && negb (c_wfd c =? c_rfd c)
   then channel_close_fd WFD else mret tt);;
  (if negb (c_efd c =? c_sock c) && negb (c_efd c =? c_rfd c) && negb (c_efd c =? c_wfd c)
   then channel_close_fd EFD else mret tt).

(** ** nchan.c: shutting down one direction *)

Definition chan_shutdown_write : CM unit :=
  modc (with_output []);;
  c ← getc;
  if decide (c_type c = SSH_CHANNEL_LARVAL) then mret tt
  else if negb (c_sock c =? -1) then modn (net_sys (SysShutdown (c_sock c) SHUT_WR))
  else channel_close_fd WFD.

Definition chan_shutdown_read : CM unit :=
  c ← getc;
  if decide (c_type c = SSH_CHANNEL_LARVAL) then mret tt
  else if negb (c_sock c =? -1) then modn (net_sys (SysShutdown (c_sock c) SHUT_RD))
  else channel_close_fd RFD.

Definition chan_shutdown_extended_read : CM unit :=
  c ← getc;
  if bool_decide (c_type c = SSH_CHANNEL_LARVAL) || (c_efd c =? -1) then mret tt
  else if negb (c_extended_usage c =? CHAN_EXTENDED_READ)
          && negb (c_extended_usage c =? CHAN_EXTENDED_IGNORE) then mret tt
  else channel_close_fd EFD.

(** ** nchan.c: state changes and messages *)

Definition chan_set_istate (next : Z) : CM unit :=
  c ← getc;
  if (c_istate c >? CHAN_INPUT_CLOSED) || (next >? CHAN_INPUT_CLOSED) then fatal
  else modc (with_istate next).

Definition chan_set_ostate (next : Z) : CM unit :=
  c ← getc;
  if (c_ostate c >? CHAN_OUTPUT_CLOSED) || (next >? CHAN_OUTPUT_CLOSED) then fatal
  else modc (with_ostate next).

Definition set_flag (f : Z) : CM unit := modc (fun c => with_flags (Z.lor (c_flags c) f) c).

Definition chan_send_eof2 : CM unit :=
  c ← getc;
  if c_istate c =? CHAN_INPUT_WAIT_DRAIN then
    if negb (c_have_remote_id c) then fatal
    else sshpkt_send (MSG_CHANNEL_EOF (c_remote_id c));; set_flag CHAN_EOF_SENT
  else mret tt.

Definition chan_send_close2 : CM unit :=
  c ← getc;
  if negb (c_ostate c =? CHAN_OUTPUT_CLOSED) || negb (c_istate c =? CHAN_INPUT_CLOSED)
  then mret tt
  else if has (c_flags c) CHAN_CLOSE_SENT then mret tt
  else if negb (c_have_remote_id c) then fatal
  else sshpkt_send (MSG_CHANNEL_CLOSE (c_remote_id c));; set_flag CHAN_CLOSE_SENT.

Definition chan_send_eow2 : CM unit :=
  c ← getc;
  if c_ostate c =? CHAN_OUTPUT_CLOSED then mret tt
  else
    new_openssh ← gets (fun s => n_new_openssh (s_net s));
    if negb new_openssh then mret tt
    else if negb (c_have_remote_id c) then fatal
    else sshpkt_send (MSG_CHANNEL_EOW (c_remote_id c)).

(** ** nchan.c: events *)

Definition chan_read_failed : CM unit :=
  c ← getc;
  if c_istate c =? CHAN_INPUT_OPEN then
    chan_shutdown_read;; chan_set_istate CHAN_INPUT_WAIT_DRAIN
  else mret tt.

Definition chan_ibuf_empty : CM unit :=
  c ← getc;
  if negb (zlen (c_input c) =? 0) then mret tt
  else if c_istate c =? CHAN_INPUT_WAIT_DRAIN then
    (if negb (has (c_flags c) (Z.lor CHAN_CLOSE_SENT CHAN_LOCAL)) then chan_send_eof2
     else mret tt);;
    chan_set_istate CHAN_INPUT_CLOSED
  else mret tt.

Definition chan_obuf_empty : CM unit :=
  c ← getc;
  if negb (zlen (c_output c) =? 0) then mret tt
  else if c_ostate c =? CHAN_OUTPUT_WAIT_DRAIN then
    chan_shutdown_write;; chan_set_ostate CHAN_OUTPUT_CLOSED
  else mret tt.

Definition chan_rcvd_eow : CM unit :=
  c ← getc;
  if c_istate c =? CHAN_INPUT_OPEN then
    chan_shutdown_read;; chan_set_istate CHAN_INPUT_CLOSED
  else mret tt.

Definition chan_rcvd_ieof : CM unit :=
  set_flag CHAN_EOF_RCVD;;
  c ← getc;
  (if c_ostate c =? CHAN_OUTPUT_OPEN then chan_set_ostate CHAN_OUTPUT_WAIT_DRAIN
   else mret tt);;
  c ← getc;
  if (c_ostate c =? CHAN_OUTPUT_WAIT_DRAIN) && (zlen (c_output c) =? 0)
     && negb (CHANNEL_EFD_OUTPUT_ACTIVE c)
  then chan_obuf_empty
  else mret tt.

Definition chan_rcvd_oclose : CM unit :=
  c ← getc;
  (if negb (has (c_flags c) CHAN_LOCAL) then set_flag CHAN_CLOSE_RCVD else mret tt);;
  if decide (c_type c = SSH_CHANNEL_LARVAL) then
    chan_set_ostate CHAN_OUTPUT_CLOSED;; chan_set_istate CHAN_INPUT_CLOSED
  else
    (if c_ostate c =? CHAN_OUTPUT_OPEN then chan_set_ostate CHAN_OUTPUT_WAIT_DRAIN
     else mret tt);;
    c ← getc;
    if c_istate c =? CHAN_INPUT_OPEN then
      chan_shutdown_read;; chan_shutdown_extended_read;; chan_set_istate CHAN_INPUT_CLOSED
    else if c_istate c =? CHAN_INPUT_WAIT_DRAIN then
      (if negb (has (c_flags c) CHAN_LOCAL) then chan_send_eof2 else mret tt);;
      chan_shutdown_extended_read;; chan_set_istate CHAN_INPUT_CLOSED
    else mret tt.

Definition chan_write_failed : CM unit :=
  c ← getc;
  if (c_ostate c =? CHAN_OUTPUT_OPEN) || (c_ostate c =? CHAN_OUTPUT_WAIT_DRAIN) then
    chan_shutdown_write;;
    (if bool_decide (c_ctype c = str "session") then chan_send_eow2 else mret tt);;
    chan_set_ostate CHAN_OUTPUT_CLOSED
  else mret tt.

Definition chan_mark_dead : CM unit := modc (with_type SSH_CHANNEL_ZOMBIE).

Definition chan_is_dead (do_send : bool) : CM bool :=
  c ← getc;
  exteof ← gets (fun s => n_bug_exteof (s_net s));
  if decide (c_type c = SSH_CHANNEL_ZOMBIE) then mret true
  else if negb (c_istate c =? CHAN_INPUT_CLOSED) || negb (c_ostate c =? CHAN_OUTPUT_CLOSED)
  then mret false
  else if (exteof : bool) && (c_extended_usage c =? CHAN_EXTENDED_WRITE)
          && negb (c_efd c =? -1) && (zlen (c_extended c) >? 0) then mret false
  else if has (c_flags c) CHAN_LOCAL then mret true
  else if negb (has (c_flags c) CHAN_CLOSE_SENT) && negb do_send
          && has (c_flags c) CHAN_CLOSE_RCVD then mret true
  else
    (if negb (has (c_flags c) CHAN_CLOSE_SENT) && do_send then chan_send_close2
     else mret tt);;
    c ← getc;
    mret (has (c_flags c) CHAN_CLOSE_SENT && has (c_flags c) CHAN_CLOSE_RCVD).
