(* ===== verification/ByteQueue.v ===== *)
(** * ByteQueue: what the channel layer asks of a buffer

    Channels use an sshbuf as a bounded first-in first-out queue of bytes.
    [ByteQueue] states that contract; sshbuf on its heap discharges it, and so
    do the byte lists that stand for buffers in the channel model.  Sequences
    of operations are shown to behave as on a list against the interface
    alone. *)

From S2P Require Import Prelude Ssherr Sshbuf SshbufInv SshbufOps SshbufLife SshbufGetput SshbufWire.
From S2P Require Import SshbufThms SshbufMsg Cstring Channel.

Class ByteQueue (St B : Type) := {
  (** The queue [b] holds these bytes. *)
  bq_is : St -> B -> list Z -> Prop;
  bq_put : B -> list Z -> M St unit;
  bq_consume : B -> Z -> M St unit;
  (** Appending is all or nothing, and succeeds only within the largest size. *)
  bq_put_law st b l bs : bytes_ok bs -> bq_is st b l ->
    match bq_put b bs st with
    | (Ok _, st') => zlen l + zlen bs <= SSHBUF_SIZE_MAX /\ bq_is st' b (l ++ bs)
    | (Err _, st') => bq_is st' b l
    | (Crash, _) => False
    end;
  (** Consuming drops bytes at the front, and fails only for want of bytes. *)
  bq_consume_law st b l n : 0 <= n -> bq_is st b l ->
    match bq_consume b n st with
    | (Ok _, st') => n <= zlen l /\ bq_is st' b (drop (Z.to_nat n) l)
    | (Err _, st') => zlen l < n /\ bq_is st' b l
    | (Crash, _) => False
    end
}.

(** ** Sequences of operations, against the interface *)

Inductive qop := QPut (bs : list Z) | QConsume (n : Z).

Definition qop_ok (o : qop) : Prop :=
  match o with QPut bs => bytes_ok bs | QConsume n => 0 <= n end.

Section Client.
Context {St B : Type} `{ByteQueue St B}.

Definition qexec (b : B) (o : qop) : M St unit :=
  match o with QPut bs => bq_put b bs | QConsume n => bq_consume b n end.

(** Runs the operations, whatever each returns; the outcomes are kept. *)
Fixpoint qrun (b : B) (os : list qop) (st : St) : list (res unit) * St :=
  match os with
  | [] => ([], st)
  | o :: os =>
      let '(r, st') := qexec b o st in
      let '(rs, st'') := qrun b os st' in (r :: rs, st'')
  end.

(** The bytes that went in and came out, according to the outcomes. *)
Fixpoint went_in (os : list qop) (rs : list (res unit)) : list Z :=
  match os, rs with
  | QPut bs :: os, r :: rs => (if is_ok r then bs else []) ++ went_in os rs
  | QConsume _ :: os, _ :: rs => went_in os rs
  | _, _ => []
  end.

Fixpoint came_out (os : list qop) (rs : list (res unit)) : Z :=
  match os, rs with
  | QConsume n :: os, r :: rs => (if is_ok r then n else 0) + came_out os rs
  | QPut _ :: os, _ :: rs => came_out os rs
  | _, _ => 0
  end.

Lemma queue_fifo b os : forall st l, Forall qop_ok os -> bq_is st b l ->
  let '(rs, st') := qrun b os st in
  Forall (fun r => is_crash r = false) rs /\ 0 <= came_out os rs <= zlen (l ++ went_in os rs) /\
  bq_is st' b (drop (Z.to_nat (came_out os rs)) (l ++ went_in os rs)).
Proof.
  induction os as [|o os IH]; intros st l Hok Hl; cbn.
  { rewrite app_nil_r. pose proof (zlen_nonneg l). by split_and!. }
  inversion Hok as [|? ? Ho Hos]; subst. destruct o as [bs|n]; cbn [qexec qop_ok] in *.
  - pose proof (bq_put_law st b l bs Ho Hl) as L. destruct (bq_put b bs st) as [[[]|e|] st1]; [| |done].
    + destruct L as [_ L]. specialize (IH st1 _ Hos L). destruct (qrun b os st1) as [rs st'].
      cbn. rewrite app_assoc. destruct IH as (? & ? & ?). split_and!; auto; lia.
    + specialize (IH st1 _ Hos L). destruct (qrun b os st1) as [rs st']. cbn.
      destruct IH as (? & ? & ?). split_and!; auto; lia.
  - pose proof (bq_consume_law st b l n Ho Hl) as L.
    destruct (bq_consume b n st) as [[[]|e|] st1]; [| |done]; destruct L as [Hn L];
      specialize (IH st1 _ Hos L); destruct (qrun b os st1) as [rs st']; cbn;
      destruct IH as (F & C & Q); (split; [by constructor|]).
    + rewrite zlen_app in *. assert (zlen (drop (Z.to_nat n) l) = zlen l - n) as E
        by (unfold zlen in *; rewrite length_drop; lia). split; [lia|].
      rewrite <- (drop_app_le l) in Q by (unfold zlen in *; lia). rewrite drop_drop in Q.
      by rewrite Z2Nat.inj_add by lia.
    + by split.
Qed.
End Client.

(** ** sshbuf implements the interface *)

(** A buffer of the heap, held by the caller. *)
Definition sshbuf_is (h : heap) (i : bufp) (l : list Z) : Prop :=
  exists rc, heap_inv rc h /\ 1 <= rc i /\ contents h i = Some l.

Lemma sshbuf_is_view h i l : sshbuf_is h i l ->
  exists rc s p lm, view rc h i s p lm /\ cur s p lm = l.
Proof.
  intros (rc & I & R & C). destruct (view_intro rc h i I R) as (s & p & lm & V).
  exists rc, s, p, lm. split; [done|]. rewrite (view_contents V) in C. congruence.
Qed.

Lemma view_max {rc h i s p lm} : view rc h i s p lm -> sb_max_size s <= SSHBUF_SIZE_MAX.
Proof. intros V. apply (sane_spec i), (inv_sane _ _ (v_inv _ _ _ _ _ _ V)), V. Qed.

Lemma view_is rc h i s p lm : view rc h i s p lm -> sshbuf_is h i (cur s p lm).
Proof. intros V. exists rc. split_and!; [apply V|apply V|apply (view_contents V)]. Qed.

#[export] Program Instance sshbuf_queue : ByteQueue heap bufp := {
  bq_is := sshbuf_is;
  bq_put i bs := sshbuf_put i (SrcBytes bs) (zlen bs);
  bq_consume := sshbuf_consume
}.
Next Obligation.
  intros h i l bs Hok Hl. cbv beta. destruct (sshbuf_is_view h i l Hl) as (rc & s & p & lm & V & <-).
  pose proof (run_put V (SrcBytes bs) bs Hok eq_refl) as O. unfold append_outcome in O.
  destruct (sshbuf_put i (SrcBytes bs) (zlen bs) h) as [[[]|e|] h']; cbv beta iota in O; [| |by destruct O as [_ []]].
  - destruct O as (E & C & _ & B & _). pose proof (view_max V). split; [lia|].
    exists rc. split_and!; [apply E|apply V|done].
  - destruct O as (E & C & _). exists rc. split_and!; [apply E|apply V|done].
Qed.
Next Obligation.
  intros h i l n Hn Hl. cbv beta. destruct (sshbuf_is_view h i l Hl) as (rc & s & p & lm & V & <-).
  destruct (Z.lt_ge_cases (zlen (cur s p lm)) n) as [Hs|Hs].
  - rewrite (run_consume_short V n Hs). split; [done|]. by eapply view_is.
  - destruct (run_consume V n ltac:(lia)) as (s' & h' & -> & _ & V' & _ & _ & <- & _).
    split; [done|]. by eapply view_is.
Qed.

(** ** The buffers of the channel model implement it too *)

Inductive cbuf := CInput | COutput | CExtended.

Definition get_buf (b : cbuf) (c : Channel) : list Z :=
  match b with CInput => c_input c | COutput => c_output c | CExtended => c_extended c end.
Definition set_buf (b : cbuf) (l : list Z) (c : Channel) : Channel :=
  match b with CInput => with_input l c | COutput => with_output l c | CExtended => with_extended l c end.
Definition max_buf (b : cbuf) : Z :=
  match b with CInput => CHAN_INPUT_MAX | COutput | CExtended => SSHBUF_SIZE_MAX end.

Definition cbuf_put (b : cbuf) (bs : list Z) : CM unit :=
  c ← getc;
  r ← buf_put (max_buf b) (get_buf b c) bs;
  match r with Some l => modc (set_buf b l) | None => throw SSH_ERR_NO_BUFFER_SPACE end.

Definition cbuf_consume (b : cbuf) (n : Z) : CM unit :=
  c ← getc;
  if zlen (get_buf b c) <? n then throw SSH_ERR_MESSAGE_INCOMPLETE
  else modc (set_buf b (drop (Z.to_nat n) (get_buf b c))).

Lemma get_set_buf b l c : get_buf b (set_buf b l c) = l.
Proof. by destruct b. Qed.

#[export] Program Instance channel_queue : ByteQueue ssh cbuf := {
  bq_is s b l := get_buf b (s_chan s) = l;
  bq_put := cbuf_put;
  bq_consume := cbuf_consume
}.
Next Obligation.
  intros s b l bs _ <-. unfold cbuf_put, buf_put, mbind, M_bind. cbn.
  destruct (hd _ _); cbn; [|done].
  destruct (Z.leb_spec (zlen (get_buf b (s_chan s)) + zlen bs) (max_buf b)); cbn; [|done].
  split; [|apply get_set_buf]. destruct b; cbn in *; unfold CHAN_INPUT_MAX, SSHBUF_SIZE_MAX in *; lia.
Qed.
Next Obligation.
  intros s b l n Hn <-. unfold cbuf_consume, mbind, M_bind. cbn.
  destruct (Z.ltb_spec (zlen (get_buf b (s_chan s))) n); cbn; [done|]. split; [done|apply get_set_buf].
Qed.


