(* ===== verification/ChannelIO.v ===== *)
(** * ChannelIO: the data path of channels (channels.c)

    The functions of channels.c that move bytes between a channel's
    descriptors, its buffers and the connection, on one channel.  What the
    operating system returns to a call is an argument: [rd] is the error or the
    bytes a descriptor has ready (a read takes at most what it asked for, an
    empty list is end of file), [wr] the error or the number of bytes a write
    would accept.  A call on descriptor -1 fails with EBADF.

    The incoming-message handlers are modelled from the point where the channel
    has been found ([channel_from_packet_id]) and is not a multiplexing proxy:
    their argument is the packet after the channel number. *)

From S2P Require Import Prelude Ssherr Sshbuf SshbufGetput SshbufWire SshbufWire2 Cstring Channel.

Definition sys_read (fd : Z) (rd : errno + list Z) (n : Z) : errno + list Z :=
  if fd =? -1 then inl EBADF
  else match rd with inl e => inl e | inr bs => inr (take (Z.to_nat n) bs) end.

Definition sys_write (fd : Z) (wr : errno + Z) (n : Z) : errno + Z :=
  if fd =? -1 then inl EBADF
  else match wr with inl e => inl e | inr k => inr (Z.max 0 (Z.min k n)) end.

Definition channel_set_used_time : CM unit :=
  modn net_used;;
  now ← gets (fun s => n_lastused (s_net s));
  modc (with_lastused now).

(** Descriptor errors that mean "try again later". *)
Definition again (force : bool) (e : errno) : bool :=
  bool_decide (e = EINTR) || (negb force && bool_decide (e = EAGAIN \/ e = EWOULDBLOCK)).

(** sshbuf_read into the input buffer: 0 with the bytes appended, or an error
    with errno set (as it was, when the reservation failed). *)
Definition read_input (rd : errno + list Z) (maxlen : Z) : CM (option errno) :=
  c ← getc;
  ok ← answer;
  if negb ok || (zlen (c_input c) + maxlen >? CHAN_INPUT_MAX) then
    e ← gets (fun s => n_errno (s_net s)); mret (Some e)
  else
    match sys_read (c_rfd c) rd maxlen with
    | inl e => modn (net_errno e);; mret (Some e)
    | inr [] => modn (net_errno EPIPE);; mret (Some EPIPE)
    | inr bs =>
        modn (net_sys (SysRead (c_rfd c) bs));;
        modc (fun c => with_input (c_input c ++ bs) c);;
        mret None
    end.

Section Callbacks.
(** The filters and the user's close callback are function pointers. *)
Context (input_filter : list Z -> CM Z)
        (output_filter : CM (option (list Z)))
        (detach_user : bool -> CM unit).

Definition read_fail : CM Z :=
  c ← getc;
  if negb (bool_decide (c_type c = SSH_CHANNEL_OPEN)) then chan_mark_dead;; mret (-1)
  else chan_read_failed;; mret (-1).

Definition channel_handle_rfd (rd : errno + list Z) : CM Z :=
  c ← getc;
  let force := c_isatty c && c_detach_close c && negb (c_istate c =? CHAN_INPUT_CLOSED) in
  let avail := CHAN_INPUT_MAX - zlen (c_input c) in
  if negb force && negb (has (c_io_ready c) SSH_CHAN_IO_RFD) then mret 1
  else if avail =? 0 then mret 1
  else if negb (c_input_filter c) && negb (c_datagram c) then
    let have := zlen (c_input c) in
    let open := bool_decide (c_type c = SSH_CHANNEL_OPEN) in
    if open && (have >=? c_remote_window c) then mret 1
    else
      let maxlen := if open && (CHANNEL_MAX_READ >? c_remote_window c - have)
                    then c_remote_window c - have else CHANNEL_MAX_READ in
      let maxlen := if maxlen >? avail then avail else maxlen in
      r ← read_input rd maxlen;
      match r with
      | Some e => if again force e then mret 1 else read_fail
      | None => channel_set_used_time;; mret 1
      end
  else
    match sys_read (c_rfd c) rd CHAN_RBUF with
    | inl e => if again force e then mret 1 else read_fail
    | inr [] => read_fail
    | inr buf =>
        modn (net_sys (SysRead (c_rfd c) buf));;
        channel_set_used_time;;
        if c_input_filter c then
          r ← input_filter buf;
          (if r =? -1 then chan_read_failed else mret tt);; mret 1
        else
          b ← buf_put CHAN_INPUT_MAX (c_input c)
                (if c_datagram c then wire_string buf else buf);
          if b is Some b then modc (with_input b);; mret 1 else fatal_resource
    end.

Definition write_fail : CM Z :=
  c ← getc;
  if negb (bool_decide (c_type c = SSH_CHANNEL_OPEN)) then chan_mark_dead;; mret (-1)
  else chan_write_failed;; mret (-1).

(** [olen - sshbuf_len(c->output)] added to local_consumed. *)
Definition account_output (olen : Z) : CM unit :=
  modc (fun c => with_local_consumed (u32 (c_local_consumed c + (olen - zlen (c_output c)))) c).

Definition channel_handle_wfd (wr : errno + Z) : CM Z :=
  c ← getc;
  let olen := zlen (c_output c) in
  if negb (has (c_io_ready c) SSH_CHAN_IO_WFD) then mret 1
  else if olen =? 0 then mret 1
  else
    buf ← (if c_output_filter c then output_filter
           else if c_datagram c then
             match parse_string (c_output c) with
             | inl _ => fatal
             | inr (bs, rest) => modc (with_output rest);; mret (Some bs)
             end
           else mret (Some (c_output c)));
    match buf with
    | None => write_fail
    | Some buf =>
        match sys_write (c_wfd c) wr (zlen buf) with
        | inl e => if again false e then mret 1 else write_fail
        | inr len =>
            if len <=? 0 then write_fail
            else
              modn (net_sys (SysWrite (c_wfd c) (take (Z.to_nat len) buf)));;
              (if c_datagram c then mret tt
               else
                 channel_set_used_time;;
                 c ← getc;
                 if zlen (c_output c) <? len then fatal
                 else modc (fun c => with_output (drop (Z.to_nat len) (c_output c)) c));;
              account_output olen;;
              mret 1
        end
    end.

Definition channel_handle_efd_write (wr : errno + Z) : CM Z :=
  c ← getc;
  if negb (has (c_io_ready c) SSH_CHAN_IO_EFD_W) then mret 1
  else if zlen (c_extended c) =? 0 then mret 1
  else
    match sys_write (c_efd c) wr (zlen (c_extended c)) with
    | inl e => if again false e then mret 1 else channel_close_fd EFD;; mret 1
    | inr len =>
        if len <=? 0 then channel_close_fd EFD;; mret 1
        else
          modn (net_sys (SysWrite (c_efd c) (take (Z.to_nat len) (c_extended c))));;
          modc (fun c => with_extended (drop (Z.to_nat len) (c_extended c)) c);;
          modc (fun c => with_local_consumed (u32 (c_local_consumed c + len)) c);;
          channel_set_used_time;;
          mret 1
    end.

Definition channel_handle_efd_read (rd : errno + list Z) : CM Z :=
  c ← getc;
  let force := c_isatty c && c_detach_close c && negb (c_istate c =? CHAN_INPUT_CLOSED) in
  if negb force && negb (has (c_io_ready c) SSH_CHAN_IO_EFD_R) then mret 1
  else
    match sys_read (c_efd c) rd CHAN_RBUF with
    | inl e => if again force e then mret 1 else channel_close_fd EFD;; mret 1
    | inr [] => channel_close_fd EFD;; mret 1
    | inr buf =>
        modn (net_sys (SysRead (c_efd c) buf));;
        channel_set_used_time;;
        if c_extended_usage c =? CHAN_EXTENDED_IGNORE then mret 1
        else
          b ← buf_put SSHBUF_SIZE_MAX (c_extended c) buf;
          if b is Some b then modc (with_extended b);; mret 1 else fatal_resource
    end.

Definition channel_handle_efd (rd : errno + list Z) (wr : errno + Z) : CM Z :=
  c ← getc;
  if c_efd c =? -1 then mret 1
  else if c_extended_usage c =? CHAN_EXTENDED_WRITE then channel_handle_efd_write wr
  else if (c_extended_usage c =? CHAN_EXTENDED_READ)
          || (c_extended_usage c =? CHAN_EXTENDED_IGNORE) then channel_handle_efd_read rd
  else mret 1.

Definition channel_check_window : CM Z :=
  c ← getc;
  if bool_decide (c_type c = SSH_CHANNEL_OPEN)
     && negb (has (c_flags c) (Z.lor CHAN_CLOSE_SENT CHAN_CLOSE_RCVD))
     && ((u32 (c_local_window_max c - c_local_window c) >? u32 (c_local_maxpacket c * 3))
         || (c_local_window c <? c_local_window_max c / 2))
     && (c_local_consumed c >? 0)
  then
    if negb (c_have_remote_id c) then fatal
    else
      sshpkt_send (MSG_CHANNEL_WINDOW_ADJUST (c_remote_id c) (c_local_consumed c));;
      modc (fun c => with_local_window (u32 (c_local_window c + c_local_consumed c)) c);;
      modc (with_local_consumed 0);;
      mret 1
  else mret 1.

(** What the operating system answers during one pass over a channel. *)
Record io := mk_io {
  io_rd : errno + list Z; io_wr : errno + Z; io_erd : errno + list Z; io_ewr : errno + Z
}.

Definition channel_post_open (x : io) : CM unit :=
  _ ← channel_handle_rfd (io_rd x);
  _ ← channel_handle_wfd (io_wr x);
  _ ← channel_handle_efd (io_erd x) (io_ewr x);
  _ ← channel_check_window;
  mret tt.

Definition want (b : Z) : CM unit := modc (fun c => with_io_want (Z.lor (c_io_want c) b) c).

Definition channel_pre_open : CM unit :=
  modc (with_io_want 0);;
  c ← getc;
  (if (c_istate c =? CHAN_INPUT_OPEN) && (c_remote_window c >? 0)
      && (zlen (c_input c) <? c_remote_window c)
      && (zlen (c_input c) + CHAN_RBUF <=? CHAN_INPUT_MAX)
   then want SSH_CHAN_IO_RFD else mret tt);;
  (if (c_ostate c =? CHAN_OUTPUT_OPEN) || (c_ostate c =? CHAN_OUTPUT_WAIT_DRAIN) then
     if zlen (c_output c) >? 0 then want SSH_CHAN_IO_WFD
     else if c_ostate c =? CHAN_OUTPUT_WAIT_DRAIN then
       if CHANNEL_EFD_OUTPUT_ACTIVE c then mret tt else chan_obuf_empty
     else mret tt
   else mret tt);;
  c ← getc;
  if negb (c_efd c =? -1)
     && negb ((c_istate c =? CHAN_INPUT_CLOSED) && (c_ostate c =? CHAN_OUTPUT_CLOSED)) then
    if (c_extended_usage c =? CHAN_EXTENDED_WRITE) && (zlen (c_extended c) >? 0)
    then want SSH_CHAN_IO_EFD_W
    else if negb (c_efd c =? -1) && negb (has (c_flags c) CHAN_EOF_SENT)
            && ((c_extended_usage c =? CHAN_EXTENDED_READ)
                || (c_extended_usage c =? CHAN_EXTENDED_IGNORE))
            && (zlen (c_extended c) <? c_remote_window c)
    then want SSH_CHAN_IO_EFD_R
    else mret tt
  else mret tt.

Definition channel_force_close (abandon : bool) : CM unit :=
  c ← getc;
  (if c_istate c =? CHAN_INPUT_OPEN then chan_read_failed else mret tt);;
  c ← getc;
  (if c_istate c =? CHAN_INPUT_WAIT_DRAIN then modc (with_input []);; chan_ibuf_empty
   else mret tt);;
  c ← getc;
  (if (c_ostate c =? CHAN_OUTPUT_OPEN) || (c_ostate c =? CHAN_OUTPUT_WAIT_DRAIN)
   then modc (with_output []);; chan_write_failed
   else mret tt);;
  c ← getc;
  (if c_detach_user c then detach_user true else mret tt);;
  c ← getc;
  (if negb (c_efd c =? -1) then channel_close_fd EFD else mret tt);;
  (if abandon then modc (with_type SSH_CHANNEL_ABANDONED) else mret tt);;
  modc (with_inactive_deadline 0);;
  modc (with_lastused 0).

(** channel_garbage_collect up to the call of channel_free: [true] when the
    channel is to be freed. *)
Definition channel_garbage_collect : CM bool :=
  c ← getc;
  ready ← (if c_detach_user c then
             dead ← chan_is_dead (c_detach_close c);
             if negb dead then mret false
             else
               detach_user false;;
               c ← getc;
               mret (negb (c_detach_user c))
           else mret true);
  if negb ready then mret false else chan_is_dead true.
End Callbacks.

(** ** Sending what is buffered *)

(** The part of [have] bytes the peer's window and packet size allow. *)
Definition clip (have window maxpacket : Z) : Z :=
  let len := if have >? window then window else have in
  if len >? maxpacket then maxpacket else len.

Definition spend (n : Z) : CM unit :=
  modc (fun c => with_remote_window (u32 (c_remote_window c - n)) c).

Definition channel_output_poll_input_open : CM Z :=
  c ← getc;
  let len := zlen (c_input c) in
  if len =? 0 then
    (if c_istate c =? CHAN_INPUT_WAIT_DRAIN then
       if CHANNEL_EFD_INPUT_ACTIVE c then mret tt else chan_ibuf_empty
     else mret tt);; mret 0
  else if negb (c_have_remote_id c) then fatal
  else if c_datagram c then
    match parse_string (c_input c) with
    | inl _ => fatal
    | inr (pkt, rest) =>
        modc (with_input rest);;
        if (zlen pkt >? c_remote_window c) || (zlen pkt >? c_remote_maxpacket c) then mret 0
        else
          sshpkt_send (MSG_CHANNEL_DATA (c_remote_id c) pkt);;
          spend (zlen pkt);;
          mret 1
    end
  else
    let len := clip len (c_remote_window c) (c_remote_maxpacket c) in
    if len =? 0 then mret 0
    else
      sshpkt_send (MSG_CHANNEL_DATA (c_remote_id c) (take (Z.to_nat len) (c_input c)));;
      modc (with_input (drop (Z.to_nat len) (c_input c)));;
      spend len;;
      mret 1.

Definition SSH2_EXTENDED_DATA_STDERR : Z := 1.

Definition channel_output_poll_extended_read : CM Z :=
  c ← getc;
  let len := zlen (c_extended c) in
  if len =? 0 then mret 0
  else
    let len := clip len (c_remote_window c) (c_remote_maxpacket c) in
    if len =? 0 then mret 0
    else if negb (c_have_remote_id c) then fatal
    else
      sshpkt_send (MSG_CHANNEL_EXTENDED_DATA (c_remote_id c) SSH2_EXTENDED_DATA_STDERR
                     (take (Z.to_nat len) (c_extended c)));;
      modc (with_extended (drop (Z.to_nat len) (c_extended c)));;
      spend len;;
      mret 1.

(** The body of the loop of channel_output_poll, on one channel. *)
Definition channel_output_poll : CM Z :=
  c ← getc;
  if negb (bool_decide (c_type c = SSH_CHANNEL_OPEN)) then mret 0
  else if has (c_flags c) (Z.lor CHAN_CLOSE_SENT CHAN_CLOSE_RCVD) then mret 0
  else
    ret ← (if (c_istate c =? CHAN_INPUT_OPEN) || (c_istate c =? CHAN_INPUT_WAIT_DRAIN)
           then channel_output_poll_input_open else mret 0);
    c ← getc;
    ret' ← (if negb (has (c_flags c) CHAN_EOF_SENT)
               && (c_extended_usage c =? CHAN_EXTENDED_READ)
            then channel_output_poll_extended_read else mret 0);
    mret (Z.lor ret ret').

(** ** Incoming messages *)

(** sshpkt_get_u32 and sshpkt_get_end on the rest of a packet. *)
Definition parse_u32 (p : list Z) : Z + (Z * list Z) :=
  if zlen p <? 4 then inl SSH_ERR_MESSAGE_INCOMPLETE
  else inr (PEEK_U32 (slice p 0 4), drop 4 p).

Definition at_end (p : list Z) : bool := zlen p =? 0.

Definition channel_input_data (p : list Z) : CM unit :=
  c ← getc;
  if negb (bool_decide (c_type c = SSH_CHANNEL_OPEN \/ c_type c = SSH_CHANNEL_RDYNAMIC_OPEN
                        \/ c_type c = SSH_CHANNEL_RDYNAMIC_FINISH
                        \/ c_type c = SSH_CHANNEL_X11_OPEN))
  then mret tt
  else
    match parse_string p with
    | inl _ => fatal
    | inr (data, rest) =>
        if negb (at_end rest) then fatal
        else
          let win_len := if c_datagram c then zlen data + 4 else zlen data in
          if negb (c_ostate c =? CHAN_OUTPUT_OPEN) then
            modc (with_local_window
                    (if win_len >? c_local_window c then 0
                     else u32 (c_local_window c - win_len)));;
            modc (with_local_consumed (u32 (c_local_consumed c + win_len)))
          else if win_len >? c_local_maxpacket c then mret tt
          else
            (if win_len >? c_local_window c then
               let exceeded := u32 (c_local_window_exceeded c + (win_len - c_local_window c)) in
               modc (with_local_window_exceeded exceeded);;
               modc (with_local_window 0);;
               if exceeded >? c_local_window_max c / 10 then ssh_packet_disconnect
               else mret tt
             else
               modc (with_local_window (u32 (c_local_window c - win_len)));;
               modc (with_local_window_exceeded 0));;
            b ← buf_put SSHBUF_SIZE_MAX (c_output c)
                  (if c_datagram c then wire_string data else data);
            if b is Some b then modc (with_output b) else fatal_resource
    end.

Definition channel_input_extended_data (p : list Z) : CM unit :=
  c ← getc;
  exteof ← gets (fun s => n_bug_exteof (s_net s));
  if negb (bool_decide (c_type c = SSH_CHANNEL_OPEN)) then mret tt
  else if has (c_flags c) CHAN_EOF_RCVD && negb exteof then ssh_packet_disconnect
  else
    match parse_u32 p with
    | inl _ => ssh_packet_disconnect
    | inr (tcode, p) =>
        if (c_efd c =? -1) || negb (c_extended_usage c =? CHAN_EXTENDED_WRITE)
           || negb (tcode =? SSH2_EXTENDED_DATA_STDERR) then mret tt
        else
          match parse_string p with
          | inl _ => ssh_packet_disconnect
          | inr (data, rest) =>
              if negb (at_end rest) then ssh_packet_disconnect
              else if zlen data >? c_local_window c then mret tt
              else
                b ← buf_put SSHBUF_SIZE_MAX (c_extended c) data;
                (if b is Some b then modc (with_extended b) else mret tt);;
                modc (with_local_window (u32 (c_local_window c - zlen data)))
          end
    end.

Definition channel_input_ieof (p : list Z) : CM unit :=
  if negb (at_end p) then ssh_packet_disconnect
  else
    chan_rcvd_ieof;;
    c ← getc;
    if c_force_drain c && (c_istate c =? CHAN_INPUT_OPEN) then
      modc (with_istate CHAN_INPUT_WAIT_DRAIN);;
      if zlen (c_input c) =? 0 then chan_ibuf_empty else mret tt
    else mret tt.

Definition channel_input_oclose (p : list Z) : CM unit :=
  if negb (at_end p) then ssh_packet_disconnect else chan_rcvd_oclose.

Definition channel_input_window_adjust (p : list Z) : CM unit :=
  c ← getc;
  match parse_u32 p with
  | inl _ => ssh_packet_disconnect
  | inr (adjust, rest) =>
      if negb (at_end rest) then ssh_packet_disconnect
      else
        let new_rwin := u32 (c_remote_window c + adjust) in
        if new_rwin <? c_remote_window c then fatal
        else modc (with_remote_window new_rwin)
  end.

Section OpenReplies.
(** The opener's callback: [true] for a confirmation. *)
Context (open_confirm : bool -> CM unit).

Definition channel_input_open_confirmation (p : list Z) : CM unit :=
  c ← getc;
  if negb (bool_decide (c_type c = SSH_CHANNEL_OPENING)) then ssh_packet_disconnect
  else
    match parse_u32 p with
    | inl _ => ssh_packet_disconnect
    | inr (remote_id, p) =>
        modc (with_remote_id remote_id);;
        match parse_u32 p with
        | inl _ => ssh_packet_disconnect
        | inr (remote_window, p) =>
            match parse_u32 p with
            | inl _ => ssh_packet_disconnect
            | inr (remote_maxpacket, rest) =>
                if negb (at_end rest) then ssh_packet_disconnect
                else
                  modc (with_have_remote_id true);;
                  modc (with_remote_window remote_window);;
                  modc (with_remote_maxpacket remote_maxpacket);;
                  modc (with_type SSH_CHANNEL_OPEN);;
                  (if c_open_confirm c then open_confirm true else mret tt);;
                  channel_set_used_time
            end
        end
    end.

Definition channel_input_open_failure (p : list Z) : CM unit :=
  c ← getc;
  if negb (bool_decide (c_type c = SSH_CHANNEL_OPENING)) then ssh_packet_disconnect
  else
    match parse_u32 p with
    | inl _ => ssh_packet_disconnect
    | inr (_, p) =>
        match parse_string p with
        | inl _ => ssh_packet_disconnect
        | inr (text, p) =>
            ok ← answer;
            if negb ok || negb (cstring_ok text) then ssh_packet_disconnect
            else
              match parse_string p with
              | inl _ => ssh_packet_disconnect
              | inr (_, rest) =>
                  if negb (at_end rest) then ssh_packet_disconnect
                  else
                    (if c_open_confirm c then open_confirm false else mret tt);;
                    chan_mark_dead
              end
        end
    end.
End OpenReplies.
