(* ===== verification/ChanLogic.v ===== *)
(** * ChanLogic: reasoning about channel computations

    A postcondition calculus for the channel monad, and the one fact every
    client needs of channel_close_fd: it touches descriptors only. *)

From S2P Require Import Prelude Ssherr Sshbuf SshbufGetput SshbufWire Cstring Channel ChannelIO.

(** ** Postconditions

    [wp X m Q s]: from [s], [m] returns and [Q] holds of its value and state,
    or ends the process and [X] holds of the exit and the state. *)
Definition wp {A} (X : Z -> ssh -> Prop) (m : CM A) (Q : A -> ssh -> Prop) (s : ssh) : Prop :=
  match m s with
  | (Ok a, s') => Q a s'
  | (Err e, s') => X e s'
  | (Crash, _) => False
  end.

Section Rules.
Context {X : Z -> ssh -> Prop}.

Lemma wp_bind {A B} (m : CM A) (k : A -> CM B) Q s :
  wp X m (fun a s' => wp X (k a) Q s') s -> wp X (m ≫= k) Q s.
Proof. unfold wp, mbind, M_bind. by destruct (m s) as [[]]. Qed.

Lemma wp_ret {A} (a : A) (Q : A -> ssh -> Prop) s : Q a s -> wp X (mret a) Q s.
Proof. done. Qed.

Lemma wp_getc (Q : Channel -> ssh -> Prop) s : Q (s_chan s) s -> wp X getc Q s.
Proof. done. Qed.

Lemma wp_gets {A} (f : ssh -> A) (Q : A -> ssh -> Prop) s : Q (f s) s -> wp X (gets f) Q s.
Proof. done. Qed.

Lemma wp_modc f (Q : unit -> ssh -> Prop) s :
  Q tt (mk_ssh (f (s_chan s)) (s_net s)) -> wp X (modc f) Q s.
Proof. done. Qed.

Lemma wp_modn f (Q : unit -> ssh -> Prop) s :
  Q tt (mk_ssh (s_chan s) (f (s_net s))) -> wp X (modn f) Q s.
Proof. done. Qed.

Lemma wp_answer (Q : bool -> ssh -> Prop) s :
  (forall b, Q b (mk_ssh (s_chan s) (net_pop (s_net s)))) -> wp X answer Q s.
Proof. intros H. apply H. Qed.

Lemma wp_throw {A} e (Q : A -> ssh -> Prop) s : X e s -> wp X (throw e) Q s.
Proof. done. Qed.

Lemma wp_mono {A} (m : CM A) (P Q : A -> ssh -> Prop) s :
  wp X m P s -> (forall a s', P a s' -> Q a s') -> wp X m Q s.
Proof. unfold wp. destruct (m s) as [[]]; auto. Qed.

Lemma wp_conj {A} (Y : Z -> ssh -> Prop) (m : CM A) (P Q : A -> ssh -> Prop) s :
  wp X m P s -> wp Y m Q s -> wp X m (fun a s' => P a s' /\ Q a s') s.
Proof. unfold wp. destruct (m s) as [[]]; auto. Qed.

Lemma wp_send m (Q : unit -> ssh -> Prop) s :
  X EXIT_RESOURCE (mk_ssh (s_chan s) (net_pop (s_net s))) ->
  Q tt (mk_ssh (s_chan s) (net_sent m (net_pop (s_net s)))) -> wp X (sshpkt_send m) Q s.
Proof.
  intros HX HQ. unfold sshpkt_send. apply wp_bind, wp_answer. intros []; [done|].
  by apply wp_throw.
Qed.

Lemma wp_buf_put max b bs (Q : option (list Z) -> ssh -> Prop) s :
  Q None (mk_ssh (s_chan s) (net_pop (s_net s))) ->
  (zlen b + zlen bs <= max -> Q (Some (b ++ bs)) (mk_ssh (s_chan s) (net_pop (s_net s)))) ->
  wp X (buf_put max b bs) Q s.
Proof.
  intros HN HS. unfold buf_put. apply wp_bind, wp_answer. intros ok. apply wp_ret.
  destruct ok; [|done]. cbn [andb].
  destruct (Z.leb_spec (zlen b + zlen bs) max); auto.
Qed.
End Rules.

(** Computations that keep an invariant on every path that returns. *)
Definition preserves {A} (X : Z -> ssh -> Prop) (I : ssh -> Prop) (m : CM A) : Prop :=
  forall s, I s -> wp X m (fun _ s' => I s') s.

Section Preserves.
Context {X : Z -> ssh -> Prop} {I : ssh -> Prop}.

Lemma preserves_ret {A} (a : A) : preserves X I (mret a).
Proof. intros s H. done. Qed.

Lemma preserves_bind {A B} (m : CM A) (k : A -> CM B) :
  preserves X I m -> (forall a, preserves X I (k a)) -> preserves X I (m ≫= k).
Proof.
  intros Hm Hk s H. apply wp_bind. eapply wp_mono; [by apply Hm|]. intros a s' H'. by apply Hk.
Qed.

Lemma preserves_if {A} (b : bool) (m m' : CM A) :
  preserves X I m -> preserves X I m' -> preserves X I (if b then m else m').
Proof. by destruct b. Qed.

Lemma preserves_getc : preserves X I getc.
Proof. intros s H. done. Qed.

Lemma preserves_then {A} (m : CM A) (Q : A -> ssh -> Prop) s :
  preserves X I m -> I s -> (forall a s', I s' -> Q a s') -> wp X m Q s.
Proof. intros Hm H HQ. eapply wp_mono; [by apply Hm|]. done. Qed.

(** An invariant that looks at the state only through [f]. *)
Lemma preserves_modc f : (forall c n, I (mk_ssh c n) -> I (mk_ssh (f c) n)) -> preserves X I (modc f).
Proof. intros H [c n] HI. apply wp_modc. by apply H. Qed.

Lemma preserves_modn f : (forall c n, I (mk_ssh c n) -> I (mk_ssh c (f n))) -> preserves X I (modn f).
Proof. intros H [c n] HI. apply wp_modn. by apply H. Qed.
End Preserves.

Create HintDb chan.
#[export] Hint Resolve preserves_ret preserves_bind preserves_if preserves_getc : chan.

(** One step of symbolic execution; [wps] runs to the next call or branch. *)
Ltac wp1 := lazymatch goal with
  | |- wp _ (_ ≫= _) _ _ => apply wp_bind
  | |- wp _ (mret _) _ _ => apply wp_ret
  | |- wp _ getc _ _ => apply wp_getc
  | |- wp _ (gets _) _ _ => apply wp_gets
  | |- wp _ (modc _) _ _ => apply wp_modc
  | |- wp _ (modn _) _ _ => apply wp_modn
  | |- wp _ fatal _ _ => apply wp_throw
  | |- wp _ fatal_resource _ _ => apply wp_throw
  | |- wp _ ssh_packet_disconnect _ _ => apply wp_throw
  | |- wp _ (sshpkt_send _) _ _ => apply wp_send
  | |- wp _ (set_flag _) _ _ => unfold set_flag
  | |- wp _ (let _ := _ in _) _ _ => cbv zeta
  end; cbv beta; cbn [s_chan s_net].

(** Runs to the next call or branch. *)
Ltac wps := repeat wp1.

(** Splits the branch the execution has reached. *)
Ltac wif := lazymatch goal with
  | |- wp _ (if ?b then _ else _) _ _ => let H := fresh "Hif" in destruct b eqn:H
  | |- wp _ (match ?x with _ => _ end) _ _ => let H := fresh "Hif" in destruct x eqn:H
  end.

(** ** Facts about flag words *)

Lemma has_lor_l x y m : has (Z.lor x y) m = has x m || has y m.
Proof.
  unfold has. rewrite Z.land_lor_distr_l.
  destruct (Z.eqb_spec (Z.land x m) 0) as [->|Hx]; [by rewrite Z.lor_0_l|]. cbn.
  destruct (Z.eqb_spec (Z.lor (Z.land x m) (Z.land y m)) 0) as [H|]; [|done].
  apply Z.lor_eq_0_iff in H. lia.
Qed.

Lemma has_lor_r x a b : has x (Z.lor a b) = has x a || has x b.
Proof. unfold has. rewrite !(Z.land_comm x). apply (has_lor_l a b x). Qed.

(** ** Descriptors only *)

(** The channel with new descriptors and poll bits. *)
Definition upd_fds (r w e k iw ir : Z) (pf : list Z) (c : Channel) : Channel :=
  with_rfd r (with_wfd w (with_efd e (with_sock k (with_io_want iw (with_io_ready ir
    (with_pfds pf c)))))).

Definition fd_call (x : syscall) : Prop :=
  match x with SysRead _ _ | SysWrite _ _ => False | _ => True end.

Definition net_calls (xs : list syscall) (n : net) : net :=
  mk_net (n_sent n) (n_sys n ++ xs) (n_answers n) (n_new_openssh n) (n_bug_exteof n)
    (n_errno n) (n_now n) (n_lastused n).

(** [gone v v']: a descriptor is as it was or closed. *)
Definition gone (v v' : Z) : Prop := v' = v \/ v' = -1.

Definition fd_only (s s' : ssh) : Prop := exists r w e k iw ir pf xs,
  s' = mk_ssh (upd_fds r w e k iw ir pf (s_chan s)) (net_calls xs (s_net s)) /\
  gone (c_rfd (s_chan s)) r /\ gone (c_wfd (s_chan s)) w /\ gone (c_efd (s_chan s)) e /\
  Forall fd_call xs.

Lemma fd_only_refl s : fd_only s s.
Proof.
  destruct s as [c n]. exists (c_rfd c), (c_wfd c), (c_efd c), (c_sock c), (c_io_want c),
    (c_io_ready c), (c_pfds c), []. unfold gone. split_and!; auto.
  unfold net_calls. rewrite app_nil_r. by destruct c, n.
Qed.

Lemma fd_only_trans s1 s2 s3 : fd_only s1 s2 -> fd_only s2 s3 -> fd_only s1 s3.
Proof.
  intros (r & w & e & k & iw & ir & pf & xs & -> & Hr & Hw & He & Hx)
    (r' & w' & e' & k' & iw' & ir' & pf' & xs' & -> & Hr' & Hw' & He' & Hx').
  cbn [s_chan s_net] in *. exists r', w', e', k', iw', ir', pf', (xs ++ xs').
  unfold gone in *. unfold upd_fds in *. cfields_in Hr'. cfields_in Hw'. cfields_in He'.
  split_and!; try (intuition congruence); [|by apply Forall_app].
  unfold net_calls. cbn. by rewrite app_assoc.
Qed.

Definition drop_if (f g : fdsel) (v : Z) : Z :=
  match f, g with
  | RFD, RFD | WFD, WFD | EFD, EFD | SOCK, SOCK => -1
  | _, _ => v
  end.

Lemma gone_drop_if f g v : gone v (drop_if f g v).
Proof. unfold gone. destruct f, g; auto. Qed.

Lemma fd_only_upd c n f iw ir pf :
  fd_only (mk_ssh c n)
    (mk_ssh (upd_fds (drop_if f RFD (c_rfd c)) (drop_if f WFD (c_wfd c)) (drop_if f EFD (c_efd c))
              (drop_if f SOCK (c_sock c)) iw ir pf c) n).
Proof.
  do 8 eexists. split; [|split_and!; [apply gone_drop_if..|apply Forall_nil_2]].
  unfold net_calls. rewrite app_nil_r. by destruct n.
Qed.

Lemma set_fd_upd f c :
  set_fd f (-1) c =
  upd_fds (drop_if f RFD (c_rfd c)) (drop_if f WFD (c_wfd c)) (drop_if f EFD (c_efd c))
    (drop_if f SOCK (c_sock c)) (c_io_want c) (c_io_ready c) (c_pfds c) c.
Proof. by destruct c, f. Qed.

Lemma forget_upd f iw ir pf c :
  with_pfds pf (set_fd f (-1) (with_io_ready ir (with_io_want iw c))) =
  upd_fds (drop_if f RFD (c_rfd c)) (drop_if f WFD (c_wfd c)) (drop_if f EFD (c_efd c))
    (drop_if f SOCK (c_sock c)) iw ir pf c.
Proof. by destruct c, f. Qed.

Lemma fd_only_forget p f io pfd c n : fd_only (mk_ssh c n) (mk_ssh (forget_fd p f io pfd c) n).
Proof.
  unfold forget_fd. destruct (_ =? _); [|apply fd_only_refl].
  rewrite forget_upd. apply fd_only_upd.
Qed.

Lemma fd_only_set_fd p c n : fd_only (mk_ssh c n) (mk_ssh (set_fd p (-1) c) n).
Proof. rewrite set_fd_upd. apply fd_only_upd. Qed.

Lemma fd_only_call x c n : fd_call x -> fd_only (mk_ssh c n) (mk_ssh c (net_sys x n)).
Proof.
  intros Hx. exists (c_rfd c), (c_wfd c), (c_efd c), (c_sock c), (c_io_want c),
    (c_io_ready c), (c_pfds c), [x]. unfold gone. split_and!; auto. by destruct c.
Qed.

Section CloseFd.
Context {X : Z -> ssh -> Prop}.

Lemma wp_close_fd p (Q : unit -> ssh -> Prop) s :
  (forall s', fd_only s s' -> Q tt s') -> wp X (channel_close_fd p) Q s.
Proof.
  intros H. unfold channel_close_fd. do 2 wp1. destruct (_ =? _); [wp1; apply H, fd_only_refl|].
  destruct s as [c n]. cbn [s_chan].
  assert (exists n', fd_only (mk_ssh c n) (mk_ssh c n') /\
    (if restore_call p c is Some call then modn (net_sys call) else mret tt) (mk_ssh c n)
    = (Ok tt, mk_ssh c n')) as (n' & Hn & E).
  { unfold restore_call. repeat case_match; simplify_eq; eexists; (split; [|reflexivity]);
      (apply fd_only_call; done) || apply fd_only_refl. }
  unfold wp. rewrite (bind_ok _ _ _ _ _ E). fold (wp (A := unit) X).
  apply H.
  eapply fd_only_trans; [apply Hn|]. cbn [s_chan s_net].
  do 4 (eapply fd_only_trans; [apply fd_only_forget|]).
  eapply fd_only_trans; [|apply fd_only_set_fd]. by apply fd_only_call.
Qed.

Lemma wp_shutdown_write (Q : unit -> ssh -> Prop) s :
  (forall s', fd_only (mk_ssh (with_output [] (s_chan s)) (s_net s)) s' -> Q tt s') ->
  wp X chan_shutdown_write Q s.
Proof.
  intros H. unfold chan_shutdown_write. do 4 wp1. destruct (decide _); [wp1; apply H, fd_only_refl|].
  destruct (negb _); [wp1; by apply H, fd_only_call|]. by apply wp_close_fd.
Qed.

Lemma wp_shutdown_read (Q : unit -> ssh -> Prop) s :
  (forall s', fd_only s s' -> Q tt s') -> wp X chan_shutdown_read Q s.
Proof.
  intros H. unfold chan_shutdown_read. do 2 wp1. destruct (decide _); [wp1; apply H, fd_only_refl|].
  destruct (negb _); [|by apply wp_close_fd]. wp1. destruct s. by apply H, fd_only_call.
Qed.

Lemma wp_shutdown_extended_read (Q : unit -> ssh -> Prop) s :
  (forall s', fd_only s s' -> Q tt s') -> wp X chan_shutdown_extended_read Q s.
Proof.
  intros H. unfold chan_shutdown_extended_read. do 2 wp1.
  destruct (_ || _); [wp1; apply H, fd_only_refl|].
  destruct (_ && _); [wp1; apply H, fd_only_refl|]. by apply wp_close_fd.
Qed.
End CloseFd.
