(* ===== verification/ChanProto.v ===== *)
(** * ChanProto: the messages of a channel obey RFC 4254

    Whatever happens to a channel, the sequence of messages it sends is one
    the protocol allows: at most one EOF and no data after it, at most one
    CLOSE and nothing after it. *)

From S2P Require Import Prelude Ssherr Sshbuf SshbufGetput SshbufWire Cstring Channel ChannelIO ChanLogic.

(** ** The protocol, as an automaton over the messages sent *)

(** The state is (EOF sent, CLOSE sent). *)
Definition proto_step (st : bool * bool) (m : msg) : option (bool * bool) :=
  let '(eof, close) := st in
  if (close : bool) then None
  else match m with
  | MSG_CHANNEL_DATA _ _ | MSG_CHANNEL_EXTENDED_DATA _ _ _ =>
      if (eof : bool) then None else Some (false, false)
  | MSG_CHANNEL_EOF _ => if (eof : bool) then None else Some (true, false)
  | MSG_CHANNEL_CLOSE _ => Some (eof, true)
  | MSG_CHANNEL_WINDOW_ADJUST _ _ | MSG_CHANNEL_EOW _ => Some (eof, false)
  end.

Definition proto (ms : list msg) : option (bool * bool) :=
  foldl (fun o m => o ≫= fun st => proto_step st m) (Some (false, false)) ms.

Lemma proto_snoc ms m : proto (ms ++ [m]) = proto ms ≫= fun st => proto_step st m.
Proof. unfold proto. by rewrite foldl_app. Qed.

(** ** The invariant *)

Record pview (i o f : Z) (ms : list msg) : Prop := {
  p_trace : proto ms = Some (has f CHAN_EOF_SENT, has f CHAN_CLOSE_SENT);
  p_eof : has f CHAN_EOF_SENT = true -> i = CHAN_INPUT_CLOSED;
  p_close : has f CHAN_CLOSE_SENT = true -> i = CHAN_INPUT_CLOSED /\ o = CHAN_OUTPUT_CLOSED;
  p_i : i = CHAN_INPUT_OPEN \/ i = CHAN_INPUT_WAIT_DRAIN \/ i = CHAN_INPUT_CLOSED;
  p_o : o = CHAN_OUTPUT_OPEN \/ o = CHAN_OUTPUT_WAIT_DRAIN \/ o = CHAN_OUTPUT_CLOSED
}.

Definition pinv (s : ssh) : Prop :=
  pview (c_istate (s_chan s)) (c_ostate (s_chan s)) (c_flags (s_chan s)) (n_sent (s_net s)).

(** What is true of the messages sent when the process ends. *)
Definition pexit (e : Z) (s : ssh) : Prop := is_Some (proto (n_sent (s_net s))).

Lemma pview_exit i o f ms : pview i o f ms -> is_Some (proto ms).
Proof. intros H. rewrite (p_trace _ _ _ _ H). eauto. Qed.

(** *** Views under the changes the code makes *)

Ltac chan_consts := unfold CHAN_INPUT_OPEN, CHAN_INPUT_WAIT_DRAIN, CHAN_INPUT_CLOSED,
  CHAN_OUTPUT_OPEN, CHAN_OUTPUT_WAIT_DRAIN, CHAN_OUTPUT_CLOSED in *.

Section Views.
Context {i o f : Z} {ms : list msg} (V : pview i o f ms).

(** Flags other than the two of the automaton do not matter. *)
Lemma pview_flag b : has b CHAN_EOF_SENT = false -> has b CHAN_CLOSE_SENT = false ->
  pview i o (Z.lor f b) ms.
Proof. intros H1 H2. destruct V. split; rewrite ?has_lor_l, ?H1, ?H2, ?orb_false_r; auto. Qed.

Lemma pview_istate i' : has f CHAN_EOF_SENT = false -> has f CHAN_CLOSE_SENT = false ->
  i' = CHAN_INPUT_OPEN \/ i' = CHAN_INPUT_WAIT_DRAIN \/ i' = CHAN_INPUT_CLOSED ->
  pview i' o f ms.
Proof. intros H1 H2 Hi. destruct V. split; rewrite ?H1, ?H2 in *; done. Qed.

Lemma pview_iclosed : pview CHAN_INPUT_CLOSED o f ms.
Proof. destruct V. split; auto. intros H. split; [done|]. by apply p_close0. Qed.

Lemma pview_oclosed : pview i CHAN_OUTPUT_CLOSED f ms.
Proof. destruct V. split; auto. intros H. split; [|done]. by apply p_close0. Qed.

Lemma pview_odrain : o = CHAN_OUTPUT_OPEN -> pview i CHAN_OUTPUT_WAIT_DRAIN f ms.
Proof.
  intros ->. destruct V. split; auto. intros H. destruct (p_close0 H) as [_ ?]. done.
Qed.

Lemma pview_not_eof : i <> CHAN_INPUT_CLOSED ->
  has f CHAN_EOF_SENT = false /\ has f CHAN_CLOSE_SENT = false.
Proof.
  intros Hi. destruct V. destruct (has f CHAN_EOF_SENT), (has f CHAN_CLOSE_SENT); naive_solver.
Qed.

Lemma pview_idrain : i = CHAN_INPUT_OPEN -> pview CHAN_INPUT_WAIT_DRAIN o f ms.
Proof.
  intros Hi. destruct pview_not_eof as [H1 H2]; [by rewrite Hi|]. apply pview_istate; auto.
Qed.

(** Sending EOF while draining, and closing the input. *)
Lemma pview_eof id : i = CHAN_INPUT_WAIT_DRAIN ->
  pview CHAN_INPUT_CLOSED o (Z.lor f CHAN_EOF_SENT) (ms ++ [MSG_CHANNEL_EOF id]).
Proof.
  intros Hi. destruct pview_not_eof as [H1 H2]; [by rewrite Hi|].
  split; rewrite ?has_lor_l, ?H1, ?H2; try done; try apply V; [|auto].
  rewrite proto_snoc, (p_trace _ _ _ _ V), H1, H2. done.
Qed.

Lemma pview_send_close id : i = CHAN_INPUT_CLOSED -> o = CHAN_OUTPUT_CLOSED ->
  has f CHAN_CLOSE_SENT = false ->
  pview i o (Z.lor f CHAN_CLOSE_SENT) (ms ++ [MSG_CHANNEL_CLOSE id]).
Proof.
  intros -> -> H2. split; rewrite ?has_lor_l, ?H2, ?orb_false_r; try done; auto.
  rewrite proto_snoc, (p_trace _ _ _ _ V), H2. cbn [mbind option_bind proto_step].
  done.
Qed.

(** Data may be sent while neither flag is set, the rest while CLOSE is not. *)
Lemma pview_send_data m :
  (exists id d, m = MSG_CHANNEL_DATA id d) \/ (exists id k d, m = MSG_CHANNEL_EXTENDED_DATA id k d) ->
  has f CHAN_EOF_SENT = false -> has f CHAN_CLOSE_SENT = false -> pview i o f (ms ++ [m]).
Proof.
  intros Hm H1 H2. destruct V. split; auto.
  rewrite proto_snoc, p_trace0, H1, H2. by destruct Hm as [(? & ? & ->)|(? & ? & ? & ->)].
Qed.

Lemma pview_send_other m :
  (exists id n, m = MSG_CHANNEL_WINDOW_ADJUST id n) \/ (exists id, m = MSG_CHANNEL_EOW id) ->
  has f CHAN_CLOSE_SENT = false -> pview i o f (ms ++ [m]).
Proof.
  intros Hm H2. destruct V. split; auto.
  rewrite proto_snoc, p_trace0, H2. by destruct Hm as [(? & ? & ->)|(? & ->)].
Qed.
End Views.

Lemma pinv_fd_only s s' : fd_only s s' -> pinv s -> pinv s'.
Proof. intros (? & ? & ? & ? & ? & ? & ? & ? & -> & _). done. Qed.

(** Assignments to fields the invariant does not read. *)
Lemma pinv_other f :
  (forall c, c_istate (f c) = c_istate c /\ c_ostate (f c) = c_ostate c /\ c_flags (f c) = c_flags c) ->
  preserves pexit pinv (modc f).
Proof.
  intros H. apply preserves_modc. intros c n. unfold pinv. cbn [s_chan s_net].
  by destruct (H c) as (-> & -> & ->).
Qed.

Lemma pinv_net f : (forall n, n_sent (f n) = n_sent n) -> preserves pexit pinv (modn f).
Proof. intros H. apply preserves_modn. intros c n. unfold pinv. cbn [s_chan s_net]. by rewrite H. Qed.

#[export] Hint Extern 1 (preserves pexit pinv (modc _)) => apply pinv_other; intros; split_and!; reflexivity : chan.
#[export] Hint Extern 1 (preserves pexit pinv (modn _)) => apply pinv_net; intros; reflexivity : chan.

(** ** nchan.c *)

Lemma p_close_fd p : preserves pexit pinv (channel_close_fd p).
Proof. intros s H. apply wp_close_fd. intros s' Hs. by eapply pinv_fd_only. Qed.

(** Opens an execution from a state that satisfies the invariant. *)
Ltac pstart op :=
  intros s V; unfold op; wp1; wp1; chan_consts.

Ltac pdone := by eapply pview_exit.

Lemma p_set_istate next s (Q : unit -> ssh -> Prop) : c_istate (s_chan s) <= 3 -> next <= 3 ->
  Q tt (mk_ssh (with_istate next (s_chan s)) (s_net s)) -> wp pexit (chan_set_istate next) Q s.
Proof.
  intros H1 H2 HQ. unfold chan_set_istate, CHAN_INPUT_CLOSED. do 2 wp1.
  rewrite !Z.gtb_ltb, !(proj2 (Z.ltb_ge _ _)) by done. cbn [orb]. by wp1.
Qed.

Lemma p_set_ostate next s (Q : unit -> ssh -> Prop) : c_ostate (s_chan s) <= 3 -> next <= 3 ->
  Q tt (mk_ssh (with_ostate next (s_chan s)) (s_net s)) -> wp pexit (chan_set_ostate next) Q s.
Proof.
  intros H1 H2 HQ. unfold chan_set_ostate, CHAN_OUTPUT_CLOSED. do 2 wp1.
  rewrite !Z.gtb_ltb, !(proj2 (Z.ltb_ge _ _)) by done. cbn [orb]. by wp1.
Qed.

Lemma pinv_ranges s : pinv s -> c_istate (s_chan s) <= 3 /\ c_ostate (s_chan s) <= 3.
Proof. intros V. pose proof (p_i _ _ _ _ V). pose proof (p_o _ _ _ _ V). chan_consts. lia. Qed.

Lemma p_read_failed : preserves pexit pinv chan_read_failed.
Proof.
  pstart chan_read_failed. destruct (Z.eqb_spec (c_istate (s_chan s)) 0) as [E|]; [|by wp1].
  wp1. apply wp_shutdown_read. intros s' F. pose proof (pinv_fd_only _ _ F V) as V'.
  assert (c_istate (s_chan s') = 0) as E'
    by (destruct F as (? & ? & ? & ? & ? & ? & ? & ? & -> & _); exact E).
  apply p_set_istate; [lia|done|]. by apply (pview_idrain V').
Qed.

(** EOF is sent, when it must be, as the input closes. *)
Lemma p_finish_input (b : bool) (m : CM unit) s : pinv s ->
  c_istate (s_chan s) = CHAN_INPUT_WAIT_DRAIN ->
  (forall s1 Q, (forall s2, fd_only s1 s2 -> Q tt s2) -> wp pexit m Q s1) ->
  wp pexit ((if b then chan_send_eof2 else mret tt);; m;; chan_set_istate CHAN_INPUT_CLOSED)
    (fun _ s' => pinv s') s.
Proof.
  intros V E Hm. pose proof (pinv_ranges _ V) as [Hi Ho]. wp1. destruct b.
  - unfold chan_send_eof2. do 2 wp1. rewrite E, Z.eqb_refl.
    destruct (negb _); [wp1; pdone|]. wps; [pdone|].
    apply Hm. intros s2 (? & ? & ? & ? & ? & ? & ? & ? & -> & _).
    apply p_set_istate; [done..|]. by apply (pview_eof V).
  - wps. apply Hm. intros s2 (? & ? & ? & ? & ? & ? & ? & ? & -> & _).
    apply p_set_istate; [done..|]. by apply (pview_iclosed V).
Qed.

Lemma p_ibuf_empty : preserves pexit pinv chan_ibuf_empty.
Proof.
  pstart chan_ibuf_empty. destruct (negb _); [by wp1|].
  destruct (Z.eqb_spec (c_istate (s_chan s)) 1) as [E|]; [|by wp1].
  pose proof (p_finish_input (negb (has (c_flags (s_chan s)) (Z.lor CHAN_CLOSE_SENT CHAN_LOCAL)))
    (mret tt) s V E) as H.
  eapply H. intros s1 Q HQ. apply wp_ret, HQ, fd_only_refl.
Qed.

Lemma p_obuf_empty : preserves pexit pinv chan_obuf_empty.
Proof.
  pstart chan_obuf_empty. destruct (negb _); [by wp1|].
  destruct (_ =? _); [|by wp1]. pose proof (pinv_ranges _ V) as [_ Ho].
  wp1. apply wp_shutdown_write. intros s' (? & ? & ? & ? & ? & ? & ? & ? & -> & _).
  apply p_set_ostate; [done..|]. by apply (pview_oclosed V).
Qed.

Lemma p_rcvd_eow : preserves pexit pinv chan_rcvd_eow.
Proof.
  pstart chan_rcvd_eow. destruct (_ =? _); [|by wp1]. pose proof (pinv_ranges _ V) as [Hi _].
  wp1. apply wp_shutdown_read. intros s' (? & ? & ? & ? & ? & ? & ? & ? & -> & _).
  apply p_set_istate; [done..|]. by apply (pview_iclosed V).
Qed.

Lemma p_set_flag b : has b CHAN_EOF_SENT = false -> has b CHAN_CLOSE_SENT = false ->
  preserves pexit pinv (set_flag b).
Proof. intros H1 H2 s V. unfold set_flag. wp1. by apply (pview_flag V). Qed.

(** The output starts draining if it was open. *)
Lemma p_drain_output s (b : bool) (Q : unit -> ssh -> Prop) : pinv s ->
  (b = true -> c_ostate (s_chan s) = CHAN_OUTPUT_OPEN) ->
  (forall s', pinv s' -> c_istate (s_chan s') = c_istate (s_chan s) ->
     c_flags (s_chan s') = c_flags (s_chan s) -> Q tt s') ->
  wp pexit (if b then chan_set_ostate CHAN_OUTPUT_WAIT_DRAIN else mret tt) Q s.
Proof.
  intros V E HQ. destruct b; [|wp1; by apply HQ]. pose proof (pinv_ranges _ V) as [_ Ho].
  apply p_set_ostate; [done..|]. apply HQ; [|done..]. by apply (pview_odrain V), E.
Qed.

Lemma p_rcvd_ieof : preserves pexit pinv chan_rcvd_ieof.
Proof.
  unfold chan_rcvd_ieof. apply preserves_bind; [by apply p_set_flag|]. intros _ s V.
  do 2 wp1. wp1. apply p_drain_output; [done|apply Z.eqb_eq|]. intros s' V' _ _.
  do 2 wp1. destruct (_ && _); [by apply p_obuf_empty|by wp1].
Qed.

Lemma p_rcvd_oclose : preserves pexit pinv chan_rcvd_oclose.
Proof.
  intros s V. unfold chan_rcvd_oclose. do 3 wp1.
  assert (preserves pexit pinv (if negb (has (c_flags (s_chan s)) CHAN_LOCAL)
    then set_flag CHAN_CLOSE_RCVD else mret tt)) as Hf.
  { apply preserves_if; [by apply p_set_flag|apply preserves_ret]. }
  assert (forall Q : unit -> ssh -> Prop, (forall s', pinv s' ->
      c_ostate (s_chan s') = c_ostate (s_chan s) -> Q tt s') ->
      wp pexit (if negb (has (c_flags (s_chan s)) CHAN_LOCAL)
                then set_flag CHAN_CLOSE_RCVD else mret tt) Q s) as Hstep.
  { intros Q HQ. pose proof (Hf s V) as W. revert W. unfold wp.
    destruct (negb _); cbn; intros W; by apply HQ. }
  apply Hstep. clear Hf Hstep. intros s1 V1 Eo. destruct (decide _).
  { wp1. pose proof (pinv_ranges _ V1) as [Hi Ho]. apply p_set_ostate; [done..|].
    apply p_set_istate; [done..|]. apply (pview_iclosed (pview_oclosed V1)). }
  wp1. apply p_drain_output; [done|rewrite <- Eo; apply Z.eqb_eq|]. intros s2 V2 _ _. do 2 wp1.
  destruct (Z.eqb_spec (c_istate (s_chan s2)) CHAN_INPUT_OPEN) as [Ei|].
  { wp1. apply wp_shutdown_read. intros s3 F3. wp1. apply wp_shutdown_extended_read.
    intros s4 F4. pose proof (fd_only_trans _ _ _ F3 F4) as (? & ? & ? & ? & ? & ? & ? & ? & -> & _).
    pose proof (pinv_ranges _ V2) as [Hi _]. apply p_set_istate; [done..|].
    by apply (pview_iclosed V2). }
  destruct (Z.eqb_spec (c_istate (s_chan s2)) CHAN_INPUT_WAIT_DRAIN) as [Ei|]; [|by wp1].
  apply p_finish_input; [done..|]. intros s3 Q HQ. by apply wp_shutdown_extended_read.
Qed.

Lemma p_write_failed : preserves pexit pinv chan_write_failed.
Proof.
  pstart chan_write_failed. destruct (_ || _) eqn:Eo; [|by wp1].
  pose proof (pinv_ranges _ V) as [_ Ho].
  assert (has (c_flags (s_chan s)) CHAN_CLOSE_SENT = false) as Hc.
  { destruct (has _ _) eqn:Hc; [|done]. destruct (p_close _ _ _ _ V Hc) as [_ Hc'].
    rewrite Hc' in Eo. done. }
  wp1. apply wp_shutdown_write. intros s' (? & ? & ? & ? & ? & ? & ? & ? & -> & _).
  assert (forall n, pview (c_istate (s_chan s)) (c_ostate (s_chan s)) (c_flags (s_chan s)) (n_sent n) ->
    wp pexit (chan_set_ostate 3) (fun _ s' => pinv s')
      (mk_ssh (upd_fds x x0 x1 x2 x3 x4 x5 (with_output [] (s_chan s))) n)) as Hend.
  { intros n Vn. apply p_set_ostate; [done..|]. by apply (pview_oclosed Vn). }
  wp1. destruct (bool_decide _); [|wp1; by apply Hend].
  unfold chan_send_eow2. wps. wif; [wps; by apply Hend|].
  wps. wif; [wps; by apply Hend|]. wif; [wps; pdone|].
  wps; [pdone|]. apply Hend. apply (pview_send_other V); [|done]. eauto.
Qed.

Lemma p_is_dead do_send : preserves pexit pinv (chan_is_dead do_send).
Proof.
  intros s V. unfold chan_is_dead. do 4 wp1. destruct (decide _); [by wp1|].
  destruct (negb _ || negb _) eqn:Es; [by wp1|]. zbool.
  destruct (_ && _ && _ && _); [by wp1|]. destruct (has _ CHAN_LOCAL); [by wp1|].
  destruct (negb _ && negb _ && _); [by wp1|].
  wp1. destruct (negb _ && do_send) eqn:Ec; [|by wps]. zbool.
  unfold chan_send_close2. wps. destruct (negb _ || negb _); [by wps|].
  destruct (has _ CHAN_CLOSE_SENT) eqn:Hc; [by wps|].
  destruct (negb (c_have_remote_id _)); [wps; pdone|]. wps; [pdone|].
  by apply (pview_send_close V).
Qed.

Lemma p_mark_dead : preserves pexit pinv chan_mark_dead.
Proof. unfold chan_mark_dead. auto with chan. Qed.

#[export] Hint Resolve p_close_fd p_read_failed p_ibuf_empty p_obuf_empty p_rcvd_eow p_rcvd_ieof
  p_rcvd_oclose p_write_failed p_is_dead p_mark_dead : chan.

(** ** channels.c *)

Ltac pexec := repeat (first [progress wps | wif]).

Lemma p_answer : preserves pexit pinv answer.
Proof. intros s V. apply wp_answer. intros b. done. Qed.

Lemma p_buf_put max b bs : preserves pexit pinv (buf_put max b bs).
Proof. unfold buf_put. apply preserves_bind; [apply p_answer|]. auto with chan. Qed.

Lemma p_gets {A} (f : ssh -> A) : preserves pexit pinv (gets f).
Proof. intros s V. done. Qed.

Lemma p_throw {A} e : preserves pexit pinv (A := A) (throw e).
Proof. intros s V. apply wp_throw. by eapply pview_exit. Qed.

Lemma p_used_time : preserves pexit pinv channel_set_used_time.
Proof. unfold channel_set_used_time. auto 6 using p_gets with chan. Qed.

(** Every match of a computation on data the invariant ignores. *)
Lemma p_option {A B} (x : option A) (m : A -> CM B) (m' : CM B) :
  (forall a, preserves pexit pinv (m a)) -> preserves pexit pinv m' ->
  preserves pexit pinv (match x with Some a => m a | None => m' end).
Proof. by destruct x. Qed.

#[export] Hint Resolve p_answer p_buf_put p_gets p_throw p_used_time p_option : chan.
#[export] Hint Extern 2 (preserves _ _ (match ?x with _ => _ end)) => destruct x : chan.
#[export] Hint Extern 2 (preserves _ _ (let _ := _ in _)) => cbv zeta : chan.
#[export] Hint Extern 2 (preserves _ _ fatal) => apply p_throw : chan.
#[export] Hint Extern 2 (preserves _ _ fatal_resource) => apply p_throw : chan.
#[export] Hint Extern 2 (preserves _ _ ssh_packet_disconnect) => apply p_throw : chan.

(** Runs the structure of a computation, leaving calls to the hints. *)
Ltac pauto := repeat first
  [ lazymatch goal with |- preserves _ _ (_ ≫= _) => apply preserves_bind; [|intros] end
  | apply preserves_ret | apply preserves_getc | apply p_answer | apply p_throw | apply p_gets
  | solve [auto 3 with chan]
  | progress cbv zeta
  | match goal with
    | |- preserves _ _ (if ?b then _ else _) => destruct b
    | |- preserves _ _ (match ?x with _ => _ end) => destruct x
    end ].

Lemma p_read_input rd maxlen : preserves pexit pinv (read_input rd maxlen).
Proof. unfold read_input. pauto. Qed.

Section Callbacks.
Context (input_filter : list Z -> CM Z) (output_filter : CM (option (list Z)))
        (detach_user open_confirm : bool -> CM unit).
(** What the callbacks are expected to keep. *)
Hypothesis Hin : forall bs, preserves pexit pinv (input_filter bs).
Hypothesis Hout : preserves pexit pinv output_filter.
Hypothesis Hdetach : forall b, preserves pexit pinv (detach_user b).
Hypothesis Hconfirm : forall b, preserves pexit pinv (open_confirm b).

Lemma p_handle_rfd rd : preserves pexit pinv (channel_handle_rfd input_filter rd).
Proof.
  unfold channel_handle_rfd, read_fail. pauto; apply p_read_input || apply Hin.
Qed.

Lemma p_handle_wfd wr : preserves pexit pinv (channel_handle_wfd output_filter wr).
Proof. unfold channel_handle_wfd, write_fail, account_output. pauto; apply Hout. Qed.

Lemma p_handle_efd rd wr : preserves pexit pinv (channel_handle_efd rd wr).
Proof. unfold channel_handle_efd, channel_handle_efd_write, channel_handle_efd_read. pauto. Qed.

Lemma p_check_window : preserves pexit pinv channel_check_window.
Proof.
  intros s V. unfold channel_check_window. wps. wif; [|by wps]. zbool.
  wif; [wps; pdone|]. wps; [pdone|].
  rewrite has_lor_r in *. zbool. apply (pview_send_other V); eauto.
Qed.

Lemma p_post_open x : preserves pexit pinv (channel_post_open input_filter output_filter x).
Proof.
  unfold channel_post_open.
  pauto; apply p_handle_rfd || apply p_handle_wfd || apply p_handle_efd || apply p_check_window.
Qed.

Lemma p_pre_open : preserves pexit pinv channel_pre_open.
Proof. unfold channel_pre_open, want. pauto. Qed.

Lemma p_force_close abandon : preserves pexit pinv (channel_force_close detach_user abandon).
Proof. unfold channel_force_close. pauto; apply Hdetach. Qed.

Lemma p_garbage_collect : preserves pexit pinv (channel_garbage_collect detach_user).
Proof. unfold channel_garbage_collect. pauto; apply Hdetach. Qed.

Lemma p_open_confirmation p : preserves pexit pinv (channel_input_open_confirmation open_confirm p).
Proof. unfold channel_input_open_confirmation. pauto; apply Hconfirm. Qed.

Lemma p_open_failure p : preserves pexit pinv (channel_input_open_failure open_confirm p).
Proof. unfold channel_input_open_failure. pauto; apply Hconfirm. Qed.

(** Data is sent only while the input is open or draining, or before EOF. *)
Lemma p_send_data m k s : pinv s ->
  (exists id d, m = MSG_CHANNEL_DATA id d) \/ (exists id j d, m = MSG_CHANNEL_EXTENDED_DATA id j d) ->
  has (c_flags (s_chan s)) CHAN_EOF_SENT = false -> has (c_flags (s_chan s)) CHAN_CLOSE_SENT = false ->
  preserves pexit pinv k -> wp pexit (sshpkt_send m;; k : CM Z) (fun _ s' => pinv s') s.
Proof.
  intros V Hm H1 H2 Hk. wps; [pdone|]. apply Hk. by apply (pview_send_data V).
Qed.

(** chan_ibuf_empty does not send CLOSE. *)
Lemma ibuf_empty_close b s : has (c_flags (s_chan s)) CHAN_CLOSE_SENT = b ->
  wp (fun _ _ => True) chan_ibuf_empty
    (fun _ s' => has (c_flags (s_chan s')) CHAN_CLOSE_SENT = b) s.
Proof.
  intros Hb. unfold chan_ibuf_empty, chan_send_eof2, chan_set_istate. pexec; try done.
  cfields. by rewrite has_lor_l, orb_false_r.
Qed.

Lemma p_poll_input s : pinv s -> c_istate (s_chan s) <> CHAN_INPUT_CLOSED ->
  wp pexit channel_output_poll_input_open
    (fun _ s' => pinv s' /\ has (c_flags (s_chan s')) CHAN_CLOSE_SENT = false) s.
Proof.
  intros V Hi. destruct (pview_not_eof V Hi) as [H1 H2].
  unfold channel_output_poll_input_open, spend. wps. wif.
  { wps. wif; [wif|]; wps; auto.
    eapply wp_mono; [apply (wp_conj (fun _ _ => True)); [by apply p_ibuf_empty|by apply ibuf_empty_close]|].
    intros _ s' [V' Hc]. by wps. }
  wif; [wps; pdone|]. wif.
  - wif; [wps; pdone|]. destruct p as [pkt rest]. wps. wif; wps; auto; [pdone|].
    split; [|done]. apply (pview_send_data V); eauto.
  - wif; wps; auto; [pdone|]. split; [|done]. apply (pview_send_data V); eauto.
Qed.

Lemma p_poll_extended s : pinv s -> has (c_flags (s_chan s)) CHAN_EOF_SENT = false ->
  has (c_flags (s_chan s)) CHAN_CLOSE_SENT = false ->
  wp pexit channel_output_poll_extended_read (fun _ s' => pinv s') s.
Proof.
  intros V H1 H2. unfold channel_output_poll_extended_read, spend.
  wps. wif; wps; auto. wif; wps; auto. wif; wps; [pdone..|].
  apply (pview_send_data V); eauto 6.
Qed.

Lemma p_output_poll : preserves pexit pinv channel_output_poll.
Proof.
  intros s V. unfold channel_output_poll. wps. wif; wps; auto. wif; wps; auto.
  rewrite has_lor_r in Hif0. zbool. eapply (wp_mono _
    (fun _ s' => pinv s' /\ has (c_flags (s_chan s')) CHAN_CLOSE_SENT = false)).
  - wif; [|by wps]. apply p_poll_input; [done|]. chan_consts.
    apply orb_true_iff in Hif0 as [E|E]; apply Z.eqb_eq in E; lia.
  - intros r s' [V' Hc]. wps. wif; [|by wps]. zbool.
    eapply wp_mono; [by apply p_poll_extended|]. intros. by wps.
Qed.

Lemma p_input_data p : preserves pexit pinv (channel_input_data p).
Proof. unfold channel_input_data. pauto. Qed.

Lemma p_input_extended_data p : preserves pexit pinv (channel_input_extended_data p).
Proof. unfold channel_input_extended_data. pauto. Qed.

Lemma p_input_ieof p : preserves pexit pinv (channel_input_ieof p).
Proof.
  unfold channel_input_ieof. apply preserves_if; [apply p_throw|].
  apply preserves_bind; [apply p_rcvd_ieof|]. intros _ s V. wps. wif; [|by wps]. zbool. wps.
  assert (pinv (mk_ssh (with_istate CHAN_INPUT_WAIT_DRAIN (s_chan s)) (s_net s))) as V'
    by by apply (pview_idrain V).
  wif; [by apply p_ibuf_empty|by wps].
Qed.

Lemma p_input_oclose p : preserves pexit pinv (channel_input_oclose p).
Proof. unfold channel_input_oclose. pauto. Qed.

Lemma p_input_window_adjust p : preserves pexit pinv (channel_input_window_adjust p).
Proof. unfold channel_input_window_adjust. pauto. Qed.

(** ** Everything that can happen to a channel *)

Inductive event :=
| EvPre                              (* channel_handler, before the poll *)
| EvPost (ready : Z) (x : io)        (* after it, with the descriptors that are ready *)
| EvPoll                             (* channel_output_poll *)
| EvGc                               (* channel_garbage_collect *)
| EvForceClose (abandon : bool)
| EvData (p : list Z) | EvExtended (p : list Z) | EvEof (p : list Z) | EvClose (p : list Z)
| EvAdjust (p : list Z) | EvEow | EvConfirmation (p : list Z) | EvFailure (p : list Z).

Definition exec (e : event) : CM unit :=
  c ← getc;
  let is_open := bool_decide (c_type c = SSH_CHANNEL_OPEN) in
  match e with
  | EvPre => if is_open then channel_pre_open else mret tt
  | EvPost ready x =>
      if is_open then modc (with_io_ready ready);; channel_post_open input_filter output_filter x
      else mret tt
  | EvPoll => _ ← channel_output_poll; mret tt
  | EvGc => _ ← channel_garbage_collect detach_user; mret tt
  | EvForceClose abandon => channel_force_close detach_user abandon
  | EvData p => channel_input_data p
  | EvExtended p => channel_input_extended_data p
  | EvEof p => channel_input_ieof p
  | EvClose p => channel_input_oclose p
  | EvAdjust p => channel_input_window_adjust p
  | EvEow => chan_rcvd_eow
  | EvConfirmation p => channel_input_open_confirmation open_confirm p
  | EvFailure p => channel_input_open_failure open_confirm p
  end.

(** A history: events until one ends the process. *)
Fixpoint history (es : list event) : CM unit :=
  match es with [] => mret tt | e :: es => exec e;; history es end.

Lemma p_exec e : preserves pexit pinv (exec e).
Proof.
  unfold exec. apply preserves_bind; [apply preserves_getc|]. intros c. cbv zeta.
  destruct e; pauto; first
    [apply p_pre_open | apply p_post_open | apply p_output_poll | apply p_garbage_collect
    | apply p_force_close | apply p_input_data | apply p_input_extended_data | apply p_input_ieof
    | apply p_input_oclose | apply p_input_window_adjust | apply p_open_confirmation
    | apply p_open_failure].
Qed.

Lemma p_history es : preserves pexit pinv (history es).
Proof.
  induction es as [|e es IH]; [apply preserves_ret|].
  apply preserves_bind; [apply p_exec|]. intros _. apply IH.
Qed.
End Callbacks.

(** ** What the automaton accepts *)

Definition is_data (m : msg) : bool :=
  match m with MSG_CHANNEL_DATA _ _ | MSG_CHANNEL_EXTENDED_DATA _ _ _ => true | _ => false end.
Definition is_eof (m : msg) : bool := match m with MSG_CHANNEL_EOF _ => true | _ => false end.
Definition is_close (m : msg) : bool := match m with MSG_CHANNEL_CLOSE _ => true | _ => false end.

Definition proto_from (st : option (bool * bool)) (ms : list msg) : option (bool * bool) :=
  foldl (fun o m => o ≫= fun st => proto_step st m) st ms.

Lemma proto_from_none ms : proto_from None ms = None.
Proof. by induction ms. Qed.

Lemma proto_from_cons st m ms : proto_from st (m :: ms) = proto_from (st ≫= fun st => proto_step st m) ms.
Proof. done. Qed.

Lemma proto_after_close e ms : is_Some (proto_from (Some (e, true)) ms) -> ms = [].
Proof. destruct ms; [done|]. rewrite proto_from_cons. cbn. rewrite proto_from_none. by intros []. Qed.

Lemma proto_after_eof ms : is_Some (proto_from (Some (true, false)) ms) ->
  Forall (fun m => is_data m = false /\ is_eof m = false) ms.
Proof.
  induction ms as [|m ms IH]; [done|]. rewrite proto_from_cons. intros H. constructor.
  - destruct m; cbn in H; rewrite ?proto_from_none in H; by destruct H.
  - destruct m; cbn in H; rewrite ?proto_from_none in H; try (by destruct H); auto.
    by apply proto_after_close in H as ->.
Qed.

Lemma proto_split pre m post : is_Some (proto (pre ++ m :: post)) ->
  exists st st', proto pre = Some st /\ proto_step st m = Some st' /\ is_Some (proto_from (Some st') post).
Proof.
  unfold proto. rewrite foldl_app. fold (proto pre). change (foldl _ (proto pre) (m :: post))
    with (proto_from (proto pre) (m :: post)). rewrite proto_from_cons.
  destruct (proto pre) as [st|]; cbn; [|rewrite proto_from_none; by intros []].
  destruct (proto_step st m) as [st'|] eqn:E; [|rewrite proto_from_none; by intros []]. eauto 6.
Qed.

Lemma proto_close_sent ms e : proto ms = Some (e, true) -> exists m, m ∈ ms /\ is_close m = true.
Proof.
  induction ms as [|m ms IH] using rev_ind; [done|]. rewrite proto_snoc.
  destruct (proto ms) as [[e' c']|] eqn:E; [|done]. cbn.
  destruct c'; [done|]. intros H. exists m. split; [set_solver|].
  destruct m; repeat case_match; by simplify_eq/=.
Qed.

(** A channel nothing has been sent on. *)
Definition fresh (s : ssh) : Prop :=
  c_istate (s_chan s) = CHAN_INPUT_OPEN /\ c_ostate (s_chan s) = CHAN_OUTPUT_OPEN /\
  c_flags (s_chan s) = 0 /\ n_sent (s_net s) = [].

Lemma fresh_pinv s : fresh s -> pinv s.
Proof. intros (Hi & Ho & Hf & Hs). unfold pinv. rewrite Hi, Ho, Hf, Hs. split; auto; done. Qed.

(** C11: Whatever happens to a channel, in whatever order (descriptors becoming
    ready, any bytes arriving in channel messages, buffers polled, forced closes,
    garbage collection, allocation and packet failures), the messages it sends
    obey RFC 4254: after EOF no data and no second EOF, and nothing at all after
    CLOSE.  Callbacks need only keep the same discipline. *)
Theorem channel_protocol fi fo du oc es s :
  (forall bs, preserves pexit pinv (fi bs)) -> preserves pexit pinv fo ->
  (forall b, preserves pexit pinv (du b)) -> (forall b, preserves pexit pinv (oc b)) ->
  fresh s ->
  let sent := n_sent (s_net (history fi fo du oc es s).2) in
  (forall pre id post, sent = pre ++ MSG_CHANNEL_EOF id :: post ->
     Forall (fun m => is_data m = false /\ is_eof m = false) post) /\
  (forall pre id post, sent = pre ++ MSG_CHANNEL_CLOSE id :: post -> post = []).
Proof.
  intros H1 H2 H3 H4 F sent.
  assert (is_Some (proto sent)) as P.
  { pose proof (p_history fi fo du oc H1 H2 H3 H4 es s (fresh_pinv _ F)) as W. subst sent.
    revert W. unfold wp. destruct (history _ _ _ _ es s) as [[]]; [|done..]. apply pview_exit. }
  split; intros pre id post E; rewrite E in P; apply proto_split in P as ([e c] & st' & _ & S & P).
  - destruct c, e; simplify_eq/=. by apply proto_after_eof.
  - destruct c; simplify_eq/=. by eapply proto_after_close.
Qed.

(** *** A concrete channel *)

Definition demo_channel : Channel :=
  mk_Channel SSH_CHANNEL_OPEN 0 7 true 0 0 0 5 6 (-1) (-1) 0 0 [-1; -1; -1; -1]
    false false 0 [] [] [] [] 64 32 64 0 64 0 32 CHAN_EXTENDED_IGNORE
    (str "direct-tcpip") false false false false false false 0 0.
Definition demo_net : net := mk_net [] [] [] true false EINTR 100 0.
Definition demo_ssh : ssh := mk_ssh demo_channel demo_net.
Definition demo_events : list event :=
  [EvPre; EvPost 1 (mk_io (inr (str "hello")) (inr 0) (inr []) (inr 0)); EvPoll;
   EvData (wire_string (str "yes"));
   EvPost 3 (mk_io (inr []) (inr 3) (inr []) (inr 0)); EvPoll; EvClose []; EvPre; EvGc; EvPoll].

(** No callbacks registered. *)
Definition no_filter (bs : list Z) : CM Z := mret 0.
Definition no_outfilter : CM (option (list Z)) := mret None.
Definition no_callback (b : bool) : CM unit := mret tt.

Lemma channel_protocol_witness :
  n_sent (s_net (history no_filter no_outfilter no_callback no_callback demo_events demo_ssh).2)
    = [MSG_CHANNEL_DATA 7 (str "hello"); MSG_CHANNEL_EOF 7; MSG_CHANNEL_CLOSE 7] /\
  (forall post pre id, [MSG_CHANNEL_DATA 7 (str "hello"); MSG_CHANNEL_EOF 7; MSG_CHANNEL_CLOSE 7]
     = pre ++ MSG_CHANNEL_CLOSE id :: post -> post = []).
Proof.
  assert (n_sent (s_net (history no_filter no_outfilter no_callback no_callback demo_events demo_ssh).2)
    = [MSG_CHANNEL_DATA 7 (str "hello"); MSG_CHANNEL_EOF 7; MSG_CHANNEL_CLOSE 7]) as E
    by (vm_compute; reflexivity).
  split; [exact E|]. intros post pre id H.
  eapply (channel_protocol no_filter no_outfilter no_callback no_callback demo_events demo_ssh).
  - intros. apply preserves_ret.
  - apply preserves_ret.
  - intros. apply preserves_ret.
  - intros. apply preserves_ret.
  - vm_compute. auto.
  - rewrite E. exact H.
Defined.
