(* ===== verification/ChanClose.v ===== *)
(** * ChanClose: the end of a channel

    A channel is freed only when CLOSE went both ways, and once the peer's
    CLOSE is in and the output has been written, one pass of the loop answers
    it and frees the channel. *)

From S2P Require Import Prelude Ssherr Sshbuf SshbufGetput SshbufWire Cstring Channel ChannelIO ChanLogic ChanProto.

(** channel_garbage_collect frees a channel only after CLOSE was sent and
    received and both directions are closed (zombies, which never opened, and
    local channels, which have no peer, apart). *)
Theorem freed_after_both_closes du s s' :
  pinv s -> c_type (s_chan s) <> SSH_CHANNEL_ZOMBIE -> has (c_flags (s_chan s)) CHAN_LOCAL = false ->
  c_detach_user (s_chan s) = false ->
  channel_garbage_collect du s = (Ok true, s') ->
  (exists m, m ∈ n_sent (s_net s') /\ is_close m = true) /\
  has (c_flags (s_chan s)) CHAN_CLOSE_RCVD = true /\
  c_istate (s_chan s) = CHAN_INPUT_CLOSED /\ c_ostate (s_chan s) = CHAN_OUTPUT_CLOSED.
Proof.
  intros V Hz Hl Hd E.
  assert (wp pexit (channel_garbage_collect du) (fun r s' => r = true -> pinv s' /\
    has (c_flags (s_chan s')) CHAN_CLOSE_SENT = true /\ has (c_flags (s_chan s)) CHAN_CLOSE_RCVD = true /\
    c_istate (s_chan s) = CHAN_INPUT_CLOSED /\ c_ostate (s_chan s) = CHAN_OUTPUT_CLOSED) s) as W.
  { unfold channel_garbage_collect. wps. rewrite Hd. wps. cbn [negb].
    pose proof (p_is_dead true s V) as P. eapply (wp_conj (fun _ _ => True) _ _
      (fun r s' => r = true -> has (c_flags (s_chan s')) CHAN_CLOSE_SENT = true /\
        has (c_flags (s_chan s)) CHAN_CLOSE_RCVD = true /\
        c_istate (s_chan s) = CHAN_INPUT_CLOSED /\ c_ostate (s_chan s) = CHAN_OUTPUT_CLOSED)) in P.
    { eapply wp_mono; [exact P|]. cbn. naive_solver. }
    unfold chan_is_dead, chan_send_close2. wps. wif; [done|]. wif; wps; [done|]. zbool.
    wif; wps; [done|]. rewrite Hl. rewrite andb_false_r. cbn [andb]. wps.
    wif; wps; [|intros Hr; zbool; auto].
    repeat (wif; wps; try done); cfields; rewrite ?has_lor_l; intros Hr; zbool; [done|].
    split_and!; try done; rewrite ?has_lor_l, ?orb_true_r, ?orb_false_r in *; naive_solver. }
  revert W. unfold wp. rewrite E. intros W. destruct (W eq_refl) as (V' & Hc & ?). split; [|done].
  eapply proto_close_sent. rewrite (p_trace _ _ _ _ V'), Hc. done.
Qed.

(** ** Answering the peer's CLOSE *)

(** Executions with memory and a working connection: sends succeed. *)
Lemma wp_send_ok {X : Z -> ssh -> Prop} m (Q : unit -> ssh -> Prop) c n : n_answers n = [] ->
  (forall n', n_answers n' = [] -> n_sent n' = n_sent n ++ [m] -> Q tt (mk_ssh c n')) ->
  wp X (sshpkt_send m) Q (mk_ssh c n).
Proof.
  intros Hn HQ. unfold wp, sshpkt_send, answer, mbind, M_bind. cbn. rewrite Hn. cbn.
  apply HQ; cbn; [by rewrite Hn|done].
Qed.

(** The part of the state the end of a channel depends on. *)
Record closing (c : Channel) (n : net) : Prop := {
  cl_type : c_type c = SSH_CHANNEL_OPEN;
  cl_remote : c_have_remote_id c = true;
  cl_local : has (c_flags c) CHAN_LOCAL = false;
  cl_sent : has (c_flags c) CHAN_CLOSE_SENT = false;
  cl_detach : c_detach_user c = false;
  cl_output : c_output c = [];
  cl_ext : c_extended_usage c = CHAN_EXTENDED_WRITE -> c_extended c = [];
  cl_answers : n_answers n = []
}.

Lemma closing_fd_only s s' : fd_only s s' -> closing (s_chan s) (s_net s) ->
  closing (s_chan s') (s_net s') /\ c_istate (s_chan s') = c_istate (s_chan s) /\
  c_ostate (s_chan s') = c_ostate (s_chan s) /\ c_flags (s_chan s') = c_flags (s_chan s).
Proof. intros (? & ? & ? & ? & ? & ? & ? & ? & -> & _) [????????]. by split_and!. Qed.

Definition never (e : Z) (s : ssh) : Prop := False.

Section Stages.
Implicit Types (c : Channel) (n : net) (s : ssh).

Lemma stage_istate s (Q : unit -> ssh -> Prop) : c_istate (s_chan s) <= 3 ->
  Q tt (mk_ssh (with_istate 3 (s_chan s)) (s_net s)) -> wp never (chan_set_istate 3) Q s.
Proof.
  intros H HQ. unfold chan_set_istate, CHAN_INPUT_CLOSED. wps.
  rewrite !Z.gtb_ltb, !(proj2 (Z.ltb_ge _ _)) by lia. cbn [orb]. by wps.
Qed.

Lemma stage_ostate s v (Q : unit -> ssh -> Prop) : c_ostate (s_chan s) <= 3 -> v <= 3 ->
  Q tt (mk_ssh (with_ostate v (s_chan s)) (s_net s)) -> wp never (chan_set_ostate v) Q s.
Proof.
  intros H Hv HQ. unfold chan_set_ostate, CHAN_OUTPUT_CLOSED. wps.
  rewrite !Z.gtb_ltb, !(proj2 (Z.ltb_ge _ _)) by lia. cbn [orb]. by wps.
Qed.

Definition in_closed s : Prop :=
  closing (s_chan s) (s_net s) /\ c_istate (s_chan s) = 3 /\
  (c_ostate (s_chan s) = 1 \/ c_ostate (s_chan s) = 3) /\
  has (c_flags (s_chan s)) CHAN_CLOSE_RCVD = true.

Lemma closing_istate c n v : closing c n -> closing (with_istate v c) n.
Proof. by intros [????????]. Qed.
Lemma closing_ostate c n v : closing c n -> closing (with_ostate v c) n.
Proof. by intros [????????]. Qed.
Lemma closing_want c n v : closing c n -> closing (with_io_want v c) n.
Proof. by intros [????????]. Qed.
Lemma closing_flag c n b : closing c n -> has b CHAN_LOCAL = false -> has b CHAN_CLOSE_SENT = false ->
  closing (with_flags (Z.lor (c_flags c) b) c) n.
Proof.
  intros [????????] H1 H2. split; cfields; rewrite ?has_lor_l, ?H1, ?H2, ?orb_false_r; done.
Qed.

(** The input side after CLOSE arrived: whatever it was, it is closed. *)
Lemma stage_input s (m : CM unit) (Q : unit -> ssh -> Prop) :
  closing (s_chan s) (s_net s) -> c_istate (s_chan s) = 0 \/ c_istate (s_chan s) = 1 ->
  (forall s1 P, (forall s2, fd_only s1 s2 -> P tt s2) -> wp never m P s1) ->
  (forall s', closing (s_chan s') (s_net s') -> c_istate (s_chan s') = 3 ->
     c_ostate (s_chan s') = c_ostate (s_chan s) ->
     has (c_flags (s_chan s')) CHAN_CLOSE_RCVD = has (c_flags (s_chan s)) CHAN_CLOSE_RCVD -> Q tt s') ->
  wp never (chan_send_eof2;; m;; chan_set_istate 3) Q s.
Proof.
  intros C Hi Hm HQ. destruct s as [c n]. wps. unfold chan_send_eof2. wps.
  assert (forall c' n', closing c' n' -> c_istate c' = c_istate c -> c_ostate c' = c_ostate c ->
    has (c_flags c') CHAN_CLOSE_RCVD = has (c_flags c) CHAN_CLOSE_RCVD ->
    wp never m (fun _ s' => wp never (chan_set_istate 3) Q s') (mk_ssh c' n')) as Hrest.
  { intros c' n' C' Ei Eo Ef. apply Hm. intros s2 F.
    destruct (closing_fd_only _ _ F C') as (C2 & E1 & E2 & E3). cbn [s_chan s_net] in *.
    apply stage_istate; [lia|]. apply HQ; cbn [s_chan s_net]; cfields; try congruence.
    by apply closing_istate. }
  cbn [s_chan s_net] in *. unfold CHAN_INPUT_WAIT_DRAIN.
  destruct (Z.eqb_spec (c_istate c) 1); wps; [|by apply Hrest].
  rewrite (cl_remote _ _ C). cbn [negb]. wp1. apply wp_send_ok; [by apply C|].
  intros n' Hn' _. wps. apply Hrest; cfields; try done.
  - apply closing_flag; [|done..]. by destruct C.
  - by rewrite has_lor_l, orb_false_r.
Qed.

Lemma stage_oclose s : closing (s_chan s) (s_net s) -> pinv s ->
  wp never (channel_input_oclose []) (fun _ s' => in_closed s') s.
Proof.
  intros C V. unfold channel_input_oclose.
  unfold chan_rcvd_oclose. change (negb (at_end [])) with false. cbv iota. wps. rewrite (cl_local _ _ C). cbn [negb]. wps.
  rewrite decide_False by (rewrite (cl_type _ _ C); done). wps.
  pose proof (p_i _ _ _ _ V) as Hi. pose proof (p_o _ _ _ _ V) as Ho. chan_consts.
  set (c1 := with_flags (Z.lor (c_flags (s_chan s)) CHAN_CLOSE_RCVD) (s_chan s)).
  assert (closing c1 (s_net s)) as C1 by by apply closing_flag.
  assert (has (c_flags c1) CHAN_CLOSE_RCVD = true) as R1
    by (unfold c1; cfields; by rewrite has_lor_l, orb_true_r).
  apply (wp_mono _ (fun _ s' => closing (s_chan s') (s_net s') /\ c_istate (s_chan s') = c_istate (s_chan s)
    /\ (c_ostate (s_chan s') = 1 \/ c_ostate (s_chan s') = 3)
    /\ has (c_flags (s_chan s')) CHAN_CLOSE_RCVD = true)).
  { destruct (Z.eqb_spec (c_ostate (s_chan s)) 0) as [E|E]; wps.
    - apply stage_ostate; [cbn [s_chan]; unfold c1; cfields; lia|lia|]. cbn [s_chan s_net].
      split_and!; [by apply closing_ostate|done|by left|done].
    - split_and!; try done. cbn [s_chan]. unfold c1. cfields. lia. }
  intros _ s2 (C2 & Ei & Eo & R2). wps.
  destruct (Z.eqb_spec (c_istate (s_chan s2)) 0) as [E0|E0].
  { wps. apply wp_shutdown_read. intros s3 F3. wps. apply wp_shutdown_extended_read. intros s4 F4.
    destruct (closing_fd_only _ _ (fd_only_trans _ _ _ F3 F4) C2) as (C4 & E1 & E2 & E3).
    apply stage_istate; [lia|]. split_and!; cbn [s_chan s_net]; cfields;
      [by apply closing_istate|done|by rewrite E2|by rewrite E3]. }
  destruct (Z.eqb_spec (c_istate (s_chan s2)) 1) as [E1|E1]; wps; [|split_and!; try done; lia].
  rewrite (cl_local _ _ C2). cbn [negb].
  pose proof (stage_input s2 chan_shutdown_extended_read (fun _ s' => in_closed s') C2 (or_intror E1)) as H.
  specialize (H (fun s1 P => wp_shutdown_extended_read P s1)).
  assert (forall s', closing (s_chan s') (s_net s') -> c_istate (s_chan s') = 3 ->
     c_ostate (s_chan s') = c_ostate (s_chan s2) ->
     has (c_flags (s_chan s')) CHAN_CLOSE_RCVD = has (c_flags (s_chan s2)) CHAN_CLOSE_RCVD ->
     in_closed s') as HQ by (intros s' ? ? H1 H2; split_and!; rewrite ?H1, ?H2; done).
  specialize (H HQ). unfold wp, mbind, M_bind in *.
  destruct (chan_send_eof2 s2) as [[]]; done.
Qed.

Lemma efd_inactive c n : closing c n -> has (c_flags c) CHAN_CLOSE_RCVD = true ->
  CHANNEL_EFD_OUTPUT_ACTIVE c = false.
Proof.
  intros C R. unfold CHANNEL_EFD_OUTPUT_ACTIVE. rewrite has_lor_r, R, orb_true_r. cbn [negb orb].
  destruct (Z.eqb_spec (c_extended_usage c) CHAN_EXTENDED_WRITE) as [E|]; [|done].
  by rewrite (cl_ext _ _ C E), andb_false_r.
Qed.

Definition both_closed s : Prop := in_closed s /\ c_ostate (s_chan s) = 3.

Lemma stage_pre s : in_closed s -> wp never channel_pre_open (fun _ s' => both_closed s') s.
Proof.
  intros (C & Ei & Eo & R). unfold channel_pre_open, want. wps.
  unfold CHAN_INPUT_OPEN, CHAN_OUTPUT_OPEN, CHAN_OUTPUT_WAIT_DRAIN.
  assert (exists c0, c0 = with_io_want 0 (s_chan s)) as [c0 Hc0] by eauto. rewrite <- Hc0.
  assert (closing c0 (s_net s)) as C0 by (subst; by apply closing_want).
  assert (c_istate c0 = 3 /\ c_ostate c0 = c_ostate (s_chan s) /\ c_flags c0 = c_flags (s_chan s))
    as (Ei0 & Eo0 & Ef0) by by subst.
  rewrite Ei0. cbn [Z.eqb andb]. wps.
  apply (wp_mono _ (fun _ s' => both_closed s')).
  - rewrite (cl_output _ _ C0). change (zlen [] >? 0) with false.
    destruct Eo as [Eo|Eo]; rewrite Eo0, Eo; cbn [Z.eqb Pos.eqb orb].
    + rewrite (efd_inactive c0 (s_net s)) by (done || by rewrite Ef0). unfold chan_obuf_empty. wps.
      rewrite (cl_output _ _ C0). change (negb (zlen [] =? 0)) with false.
      rewrite Eo0, Eo. change (1 =? CHAN_OUTPUT_WAIT_DRAIN) with true. cbv iota. wps.
      apply wp_shutdown_write. intros s' F. cbn [s_chan s_net] in *.
      assert (closing (with_output [] c0) (s_net s)) as C1 by by destruct C0.
      destruct (closing_fd_only _ _ F C1) as (C2 & E1 & E2 & E3). cbn [s_chan s_net] in *.
      apply stage_ostate; [rewrite E2; cfields; lia|done|].
      split; [|done]. split_and!; cbn [s_chan s_net]; cfields; [by apply closing_ostate| |by right|].
      * rewrite E1. exact Ei0.
      * rewrite E3. cfields. by rewrite Ef0.
    + wps. split; cbn [s_chan]; [|lia]. split_and!; cbn [s_chan s_net]; auto; [lia|by rewrite Ef0].
  - intros _ s' ((C' & Ei' & Eo' & R') & Eoc). wps. rewrite Ei', Eoc.
    change ((3 =? CHAN_INPUT_CLOSED) && (3 =? CHAN_OUTPUT_CLOSED)) with true. rewrite andb_false_r.
    wps. split; [|done]. by split_and!.
Qed.

Lemma stage_gc du s : both_closed s ->
  wp never (channel_garbage_collect du)
    (fun r s' => r = true /\ last (n_sent (s_net s')) = Some (MSG_CHANNEL_CLOSE (c_remote_id (s_chan s)))) s.
Proof.
  intros ((C & Ei & Eo & R) & Eoc). destruct s as [c n]. cbn [s_chan s_net] in *.
  unfold channel_garbage_collect. wps. rewrite (cl_detach _ _ C). wps. cbn [negb].
  unfold chan_is_dead. wps. rewrite decide_False by (rewrite (cl_type _ _ C); done).
  rewrite Ei, Eoc. change (negb (3 =? CHAN_INPUT_CLOSED) || negb (3 =? CHAN_OUTPUT_CLOSED)) with false.
  destruct (_ && _ && _ && _) eqn:Hx.
  { zbool. rewrite (cl_ext _ _ C) in * by done. done. }
  rewrite (cl_local _ _ C), (cl_sent _ _ C). cbn [negb andb]. wps.
  unfold chan_send_close2. wps. rewrite Ei, Eoc, (cl_sent _ _ C), (cl_remote _ _ C).
  change (negb (3 =? CHAN_OUTPUT_CLOSED) || negb (3 =? CHAN_INPUT_CLOSED)) with false. cbn [negb].
  cbv iota. wp1. apply wp_send_ok; [by apply C|]. intros n' _ Hs. wps. cfields.
  rewrite !has_lor_l, R, Hs. rewrite !orb_true_r. split; [by rewrite andb_true_r|].
  by rewrite last_snoc.
Qed.
End Stages.



(** The state in which the demonstration channel is freed. *)
Definition demo_closed : ssh := Eval vm_compute in
  (history no_filter no_outfilter no_callback no_callback [EvClose []; EvPre] demo_ssh).2.

Lemma freed_after_both_closes_witness :
  exists s', channel_garbage_collect no_callback demo_closed = (Ok true, s') /\
    (exists m, m ∈ n_sent (s_net s') /\ is_close m = true).
Proof.
  exists (channel_garbage_collect no_callback demo_closed).2.
  assert (channel_garbage_collect no_callback demo_closed =
    (Ok true, (channel_garbage_collect no_callback demo_closed).2)) as E by (vm_compute; reflexivity).
  split; [exact E|].
  eapply (freed_after_both_closes no_callback demo_closed).
  - unfold pinv. apply Build_pview; vm_compute; (reflexivity || discriminate || auto).
  - vm_compute. discriminate.
  - vm_compute. reflexivity.
  - vm_compute. reflexivity.
  - exact E.
Defined.

(** ** Closing descriptors *)

(** The descriptors closed by a list of calls. *)
Definition closed (xs : list syscall) : list Z :=
  concat ((fun x => match x with SysClose fd => [fd] | _ => [] end) <$> xs).

Lemma closed_app xs ys : closed (xs ++ ys) = closed xs ++ closed ys.
Proof. unfold closed. by rewrite fmap_app, concat_app. Qed.

Lemma get_forget p f g io pfd c : get_fd f c <> -1 -> get_fd f c <> get_fd p c ->
  get_fd f (forget_fd p g io pfd c) = get_fd f c.
Proof.
  intros H1 H2. unfold forget_fd. destruct (Z.eqb_spec (get_fd p c) (get_fd g c)) as [E|]; [|done].
  destruct f, g; cbn in *; congruence.
Qed.

Lemma get_forget_gone p f g io pfd c : get_fd f c = -1 -> get_fd f (forget_fd p g io pfd c) = -1.
Proof. intros H. unfold forget_fd. destruct (_ =? _); [|done]. destruct f, g; cbn in *; auto. Qed.

Lemma get_forget_self p g io pfd c :
  get_fd p (forget_fd p g io pfd c) = get_fd p c \/ get_fd p (forget_fd p g io pfd c) = -1.
Proof. unfold forget_fd. destruct (_ =? _); [|auto]. destruct p, g; cbn; auto. Qed.

Lemma get_set_fd f p v c : f <> p -> get_fd f (set_fd p v c) = get_fd f c.
Proof. by destruct f, p. Qed.

(** A block of channel_close_fd leaves alone the fields with another descriptor. *)
Lemma forget_keeps p f g io pfd c v : v <> get_fd f c ->
  (get_fd p c = v \/ get_fd p c = -1) ->
  get_fd f (forget_fd p g io pfd c) = get_fd f c /\
  (get_fd p (forget_fd p g io pfd c) = v \/ get_fd p (forget_fd p g io pfd c) = -1).
Proof.
  intros Hv Hp. split.
  - destruct (decide (get_fd f c = -1)) as [E|E]; [by rewrite get_forget_gone|].
    apply get_forget; [done|]. destruct Hp; congruence.
  - destruct (get_forget_self p g io pfd c); intuition congruence.
Qed.

(** channel_close_fd closes the descriptor once and keeps the others. *)
Lemma run_close_fd p c n : exists c' n',
  channel_close_fd p (mk_ssh c n) = (Ok tt, mk_ssh c' n') /\
  closed (n_sys n') = closed (n_sys n) ++ (if get_fd p c =? -1 then [] else [get_fd p c]) /\
  (forall f, get_fd f c <> get_fd p c -> get_fd f c' = get_fd f c).
Proof.
  unfold channel_close_fd, mbind, M_bind, getc, gets. cbn [s_chan s_net].
  destruct (Z.eqb_spec (get_fd p c) (-1)) as [E|E].
  { do 2 eexists. split_and!; [reflexivity|by rewrite app_nil_r|done]. }
  assert (exists n1, (if restore_call p c is Some call then modn (net_sys call) else mret tt) (mk_ssh c n)
    = (Ok tt, mk_ssh c n1) /\ closed (n_sys n1) = closed (n_sys n)) as (n1 & -> & C1).
  { unfold restore_call. repeat case_match; simplify_eq; eexists; (split; [reflexivity|]); cbn [net_sys n_sys s_net];
      (reflexivity || (rewrite closed_app; apply app_nil_r)). }
  unfold modc, modn. cbn [s_chan s_net]. do 2 eexists. split_and!; [reflexivity|cbn [net_sys n_sys]; by rewrite closed_app, C1|].
  intros f Hf. assert (get_fd p c <> get_fd f c) as Hf' by auto.
  set (c1 := forget_fd p RFD SSH_CHAN_IO_RFD 0 c).
  destruct (forget_keeps p f RFD SSH_CHAN_IO_RFD 0 c (get_fd p c) Hf' (or_introl eq_refl)) as [F1 P1].
  fold c1 in F1, P1. rewrite <- F1 in Hf'.
  set (c2 := forget_fd p WFD SSH_CHAN_IO_WFD 1 c1).
  destruct (forget_keeps p f WFD SSH_CHAN_IO_WFD 1 c1 (get_fd p c) Hf' P1) as [F2 P2].
  fold c2 in F2, P2. rewrite <- F2 in Hf'.
  set (c3 := forget_fd p EFD SSH_CHAN_IO_EFD 2 c2).
  destruct (forget_keeps p f EFD SSH_CHAN_IO_EFD 2 c2 (get_fd p c) Hf' P2) as [F3 P3].
  fold c3 in F3, P3. rewrite <- F3 in Hf'.
  destruct (forget_keeps p f SOCK SSH_CHAN_IO_SOCK 3 c3 (get_fd p c) Hf' P3) as [F4 P4].
  rewrite get_set_fd by (intros E'; apply Hf; by rewrite E'). congruence.
Qed.

(** A guarded close, in a state where the field still has its first value [v]. *)
Lemma run_guarded_close (b : bool) p c n v : (b = true -> get_fd p c = v) -> exists c' n',
  (if b then channel_close_fd p else mret tt) (mk_ssh c n) = (Ok tt, mk_ssh c' n') /\
  closed (n_sys n') = closed (n_sys n) ++ filter (fun fd => fd <> -1) (if b then [v] else []) /\
  (forall f, get_fd f c <> v -> get_fd f c' = get_fd f c).
Proof.
  intros Hb. destruct b.
  - destruct (run_close_fd p c n) as (c' & n' & E & C & K). rewrite (Hb eq_refl) in *.
    exists c', n'. split_and!; [done| |done]. rewrite C. f_equal.
    destruct (Z.eqb_spec v (-1)) as [->|]; [done|]. by rewrite filter_cons_True.
  - exists c, n. split_and!; [done|by rewrite app_nil_r|done].
Qed.

(** The descriptors of a channel, without repetition and without -1. *)
Definition descriptors (c : Channel) : list Z :=
  filter (fun fd => fd <> -1)
    ([c_sock c] ++ (if negb (c_rfd c =? c_sock c) then [c_rfd c] else []) ++
     (if negb (c_wfd c =? c_sock c) && negb (c_wfd c =? c_rfd c) then [c_wfd c] else []) ++
     (if negb (c_efd c =? c_sock c) && negb (c_efd c =? c_rfd c) && negb (c_efd c =? c_wfd c)
      then [c_efd c] else [])).

Lemma descriptors_nodup c : NoDup (descriptors c).
Proof.
  unfold descriptors. apply NoDup_filter.
  destruct (Z.eqb_spec (c_rfd c) (c_sock c)), (Z.eqb_spec (c_wfd c) (c_sock c)),
    (Z.eqb_spec (c_wfd c) (c_rfd c)), (Z.eqb_spec (c_efd c) (c_sock c)),
    (Z.eqb_spec (c_efd c) (c_rfd c)), (Z.eqb_spec (c_efd c) (c_wfd c)); cbn;
    repeat constructor; set_solver.
Qed.

Lemma descriptors_all c f : get_fd f c <> -1 -> get_fd f c ∈ descriptors c.
Proof.
  intros H. apply list_elem_of_filter. split; [done|]. destruct f; cbn [get_fd] in *;
  destruct (Z.eqb_spec (c_rfd c) (c_sock c)), (Z.eqb_spec (c_wfd c) (c_sock c)),
    (Z.eqb_spec (c_wfd c) (c_rfd c)), (Z.eqb_spec (c_efd c) (c_sock c)),
    (Z.eqb_spec (c_efd c) (c_rfd c)), (Z.eqb_spec (c_efd c) (c_wfd c)); cbn;
    apply list_elem_of_In; cbn; intuition congruence.
Qed.

(** Channel_close_fds closes every descriptor of the channel, and no
    descriptor twice, however rfd, wfd, efd and sock coincide. *)
Theorem close_fds_once c n : exists s',
  channel_close_fds (mk_ssh c n) = (Ok tt, s') /\
  closed (n_sys (s_net s')) = closed (n_sys n) ++ descriptors c /\
  NoDup (descriptors c) /\
  (forall f, get_fd f c <> -1 -> get_fd f c ∈ descriptors c).
Proof.
  unfold channel_close_fds. rewrite (bind_ok _ _ _ c (mk_ssh c n)) by done.
  destruct (run_guarded_close true SOCK c n (c_sock c)) as (c1 & n1 & E1 & C1 & K1); [done|].
  rewrite (bind_ok _ _ _ _ _ E1).
  destruct (run_guarded_close (negb (c_rfd c =? c_sock c)) RFD c1 n1 (c_rfd c))
    as (c2 & n2 & E2 & C2 & K2).
  { intros H. zbool. by apply (K1 RFD). }
  rewrite (bind_ok _ _ _ _ _ E2).
  destruct (run_guarded_close (negb (c_wfd c =? c_sock c) && negb (c_wfd c =? c_rfd c)) WFD c2 n2 (c_wfd c))
    as (c3 & n3 & E3 & C3 & K3).
  { intros H. zbool. pose proof (K1 WFD ltac:(done)) as F1. cbn [get_fd] in *.
    pose proof (K2 WFD) as F2. cbn [get_fd] in F2. rewrite F1 in F2. by apply F2. }
  rewrite (bind_ok _ _ _ _ _ E3).
  destruct (run_guarded_close (negb (c_efd c =? c_sock c) && negb (c_efd c =? c_rfd c)
    && negb (c_efd c =? c_wfd c)) EFD c3 n3 (c_efd c)) as (c4 & n4 & E4 & C4 & K4).
  { intros H. zbool. pose proof (K1 EFD) as F1. pose proof (K2 EFD) as F2. pose proof (K3 EFD) as F3.
    cbn [get_fd] in *. specialize (F1 ltac:(done)). rewrite F1 in F2. specialize (F2 ltac:(done)).
    rewrite F2 in F3. by apply F3. }
  rewrite E4. eexists. split; [done|]. cbn [s_net].
  split_and!; [|apply descriptors_nodup|apply descriptors_all].
  rewrite C4, C3, C2, C1, <- !app_assoc. unfold descriptors. by rewrite !filter_app.
Qed.
