(* ===== verification/ChanQuiet.v ===== *)
(** * ChanQuiet: what the channel state machine leaves alone

    The functions of nchan.c change states, flags and descriptors and send
    EOF, CLOSE and end-of-write messages.  [quiet] says what they do not do:
    they move no data, change no window, and drop the output only when they
    close it. *)

From S2P Require Import Prelude Ssherr Sshbuf SshbufGetput SshbufWire Cstring Channel ChannelIO ChanLogic ChanProto.

(** Messages that carry neither data nor window. *)
Definition control (m : msg) : Prop :=
  match m with MSG_CHANNEL_EOF _ | MSG_CHANNEL_CLOSE _ | MSG_CHANNEL_EOW _ => True | _ => False end.

(** The fields of the data path. *)
Definition core (c : Channel) :=
  (c_type c, c_have_remote_id c, c_remote_id c, c_datagram c, c_input_filter c, c_output_filter c,
   c_detach_user c, c_extended_usage c, c_local_maxpacket c, c_remote_maxpacket c,
   c_local_window_max c, c_input c, c_extended c, c_remote_window c, c_local_window c,
   c_local_consumed c).

Record quiet (s s' : ssh) : Prop := {
  q_sent : exists ms, n_sent (s_net s') = n_sent (s_net s) ++ ms /\ Forall control ms;
  q_sys : exists xs, n_sys (s_net s') = n_sys (s_net s) ++ xs /\ Forall fd_call xs;
  q_core : core (s_chan s') = core (s_chan s);
  q_rfd : gone (c_rfd (s_chan s)) (c_rfd (s_chan s'));
  q_wfd : gone (c_wfd (s_chan s)) (c_wfd (s_chan s'));
  q_efd : gone (c_efd (s_chan s)) (c_efd (s_chan s'));
  q_istate : c_istate (s_chan s') = c_istate (s_chan s) \/
    (c_istate (s_chan s') = 1 /\ c_istate (s_chan s) = 0) \/ c_istate (s_chan s') = 3;
  q_ostate : c_ostate (s_chan s') = c_ostate (s_chan s) \/
    (c_ostate (s_chan s') = 1 /\ c_ostate (s_chan s) = 0) \/ c_ostate (s_chan s') = 3;
  q_output : c_output (s_chan s') = c_output (s_chan s) \/
    (c_output (s_chan s') = [] /\ c_ostate (s_chan s') = 3);
  q_oclosed : c_ostate (s_chan s') = 3 -> c_ostate (s_chan s) = 3 \/ c_output (s_chan s') = [];
  q_flags : has (c_flags (s_chan s')) CHAN_EOF_RCVD = has (c_flags (s_chan s)) CHAN_EOF_RCVD;
  q_exteof : n_bug_exteof (s_net s') = n_bug_exteof (s_net s)
}.

Lemma gone_refl v : gone v v.
Proof. by left. Qed.

Lemma gone_trans u v w : gone u v -> gone v w -> gone u w.
Proof. unfold gone. naive_solver. Qed.

Lemma quiet_refl s : quiet s s.
Proof.
  split; auto using gone_refl; exists []; by rewrite app_nil_r.
Qed.

Lemma quiet_trans s1 s2 s3 : quiet s1 s2 -> quiet s2 s3 -> quiet s1 s3.
Proof.
  intros [(ms & Em & Fm) (xs & Ex & Fx) C R W E I O P L G B]
    [(ms' & Em' & Fm') (xs' & Ex' & Fx') C' R' W' E' I' O' P' L' G' B'].
  split; try congruence; try (by eapply gone_trans); try lia.
  - exists (ms ++ ms'). by rewrite Em', Em, app_assoc, Forall_app.
  - exists (xs ++ xs'). by rewrite Ex', Ex, app_assoc, Forall_app.
  - destruct P' as [P'|P']; [|auto]. destruct P as [P|[P P3]]; [left; congruence|].
    right. split; [congruence|]. lia.
  - intros H. destruct (L' H) as [H'|H']; [|auto]. destruct (L H') as [?|H2]; [auto|].
    right. destruct P' as [P'|[P' _]]; congruence.
Qed.

#[export] Instance quiet_preorder : PreOrder quiet.
Proof. split; [exact quiet_refl|exact quiet_trans]. Qed.

Lemma quiet_fd_only s s' : fd_only s s' -> quiet s s'.
Proof.
  intros (r & w & e & k & iw & ir & pf & xs & -> & Hr & Hw & He & Hx).
  split; cbn [s_chan s_net]; auto; [exists []; by rewrite app_nil_r|exists xs; done].
Qed.

(** The only exit the channel code takes on a channel that is set up right. *)
Definition resource (e : Z) (s : ssh) : Prop := e = EXIT_RESOURCE.

(** What the state machine needs of a channel to run without an internal error. *)
Definition set_up (s : ssh) : Prop :=
  c_type (s_chan s) <> SSH_CHANNEL_LARVAL /\ c_have_remote_id (s_chan s) = true /\
  c_istate (s_chan s) <= 3 /\ c_ostate (s_chan s) <= 3.

Lemma set_up_quiet s s' : quiet s s' -> set_up s -> set_up s'.
Proof.
  intros Q (T & R & I & O). pose proof (q_core _ _ Q) as C. unfold core in C.
  destruct (q_istate _ _ Q) as [?|[[]|]]; destruct (q_ostate _ _ Q) as [?|[[]|]];
    split_and!; (congruence || lia).
Qed.

(** ** Each function is quiet *)

(** [hushed m]: [m] is quiet, and ends the process only for lack of resources. *)
Definition hushed {A} (m : CM A) : Prop :=
  forall s, set_up s -> wp resource m (fun _ s' => quiet s s') s.

Lemma hushed_ret {A} (a : A) : hushed (mret a).
Proof. intros s _. apply wp_ret, quiet_refl. Qed.

Lemma hushed_bind {A B} (m : CM A) (k : A -> CM B) :
  hushed m -> (forall a, hushed (k a)) -> hushed (m ≫= k).
Proof.
  intros Hm Hk s S. apply wp_bind. eapply wp_mono; [by apply Hm|]. cbv beta. intros a s1 Q1.
  eapply wp_mono; [apply Hk; by eapply set_up_quiet|]. intros b s2 Q2. by etransitivity.
Qed.

Lemma hushed_close_fd p : hushed (channel_close_fd p).
Proof. intros s _. apply wp_close_fd. intros s'. apply quiet_fd_only. Qed.

Lemma hushed_shutdown_read : hushed chan_shutdown_read.
Proof. intros s _. apply wp_shutdown_read. intros s'. apply quiet_fd_only. Qed.

Lemma hushed_shutdown_extended_read : hushed chan_shutdown_extended_read.
Proof. intros s _. apply wp_shutdown_extended_read. intros s'. apply quiet_fd_only. Qed.

Ltac qsplit := split; cbn [s_chan s_net net_sent net_pop n_sent n_sys n_bug_exteof];
  try (cfields; by auto using gone_refl);
  try (exists []; by rewrite app_nil_r).

Lemma hushed_flag f : has f CHAN_EOF_RCVD = false -> hushed (set_flag f).
Proof.
  intros H s _. unfold set_flag. wps. qsplit. cfields. by rewrite has_lor_l, H, orb_false_r.
Qed.

Lemma hushed_send m : control m -> hushed (sshpkt_send m).
Proof. intros H s _. wps; [done|]. qsplit. exists [m]. auto. Qed.

Lemma wp_istate s v (Q : unit -> ssh -> Prop) : set_up s -> v <= 3 ->
  Q tt (mk_ssh (with_istate v (s_chan s)) (s_net s)) -> wp resource (chan_set_istate v) Q s.
Proof.
  intros (_ & _ & H & _) Hv HQ. unfold chan_set_istate, CHAN_INPUT_CLOSED. wps.
  rewrite !Z.gtb_ltb, !(proj2 (Z.ltb_ge _ _)) by lia. cbn [orb]. by wps.
Qed.

Lemma wp_ostate s v (Q : unit -> ssh -> Prop) : set_up s -> v <= 3 ->
  Q tt (mk_ssh (with_ostate v (s_chan s)) (s_net s)) -> wp resource (chan_set_ostate v) Q s.
Proof.
  intros (_ & _ & _ & H) Hv HQ. unfold chan_set_ostate, CHAN_OUTPUT_CLOSED. wps.
  rewrite !Z.gtb_ltb, !(proj2 (Z.ltb_ge _ _)) by lia. cbn [orb]. by wps.
Qed.

Lemma hushed_iclosed : hushed (chan_set_istate CHAN_INPUT_CLOSED).
Proof. intros s S. apply wp_istate; [done..|]. qsplit. Qed.

Lemma quiet_ostate s v : v = c_ostate (s_chan s) \/ (v = 1 /\ c_ostate (s_chan s) = 0) \/ v = 3 ->
  (v = 3 -> c_ostate (s_chan s) = 3 \/ c_output (s_chan s) = []) ->
  quiet s (mk_ssh (with_ostate v (s_chan s)) (s_net s)).
Proof. intros H1 H2. qsplit. Qed.

(** The output is dropped and closed at once. *)
Lemma quiet_drop s v : v = 3 ->
  quiet s (mk_ssh (with_ostate v (with_output [] (s_chan s))) (s_net s)).
Proof. intros ->. qsplit. Qed.

Lemma hushed_eof2 : hushed chan_send_eof2.
Proof.
  intros s S. unfold chan_send_eof2. wps. wif; [|by apply hushed_ret]. destruct S as (T & R & S).
  rewrite R. cbn [negb]. apply hushed_bind; [by apply hushed_send| |done]. intros _. by apply hushed_flag.
Qed.

Lemma hushed_if {A} (b : bool) (m m' : CM A) : hushed m -> hushed m' -> hushed (if b then m else m').
Proof. by destruct b. Qed.

Lemma hushed_read_failed : hushed chan_read_failed.
Proof.
  intros s S. unfold chan_read_failed. wps. wif; [|by apply hushed_ret]. apply Z.eqb_eq in Hif.
  wps. apply wp_shutdown_read. intros s' F. pose proof (quiet_fd_only _ _ F) as Q.
  apply wp_istate; [by eapply set_up_quiet|done|]. etransitivity; [exact Q|].
  assert (c_istate (s_chan s') = 0) as E
    by (destruct F as (? & ? & ? & ? & ? & ? & ? & ? & -> & _); exact Hif).
  qsplit.
Qed.

Lemma hushed_ibuf_empty : hushed chan_ibuf_empty.
Proof.
  intros s S. unfold chan_ibuf_empty. wps. wif; [by apply hushed_ret|]. wif; [|by apply hushed_ret].
  apply hushed_bind; [|intros _; apply hushed_iclosed|done].
  apply hushed_if; [apply hushed_eof2|apply hushed_ret].
Qed.

(** The output is reset, then closed. *)
Lemma wp_close_output s (m : CM unit) (Q : unit -> ssh -> Prop) : set_up s -> hushed m ->
  (forall s', quiet s s' -> Q tt s') ->
  wp resource (chan_shutdown_write;; m;; chan_set_ostate CHAN_OUTPUT_CLOSED) Q s.
Proof.
  intros S Hm HQ. wps. apply wp_shutdown_write. intros s1 F. wps.
  set (s0 := mk_ssh (with_output [] (s_chan s)) (s_net s)) in F.
  assert (set_up s1) as S1 by (eapply set_up_quiet; [by apply quiet_fd_only|exact S]).
  eapply wp_mono; [by apply Hm|]. cbv beta. intros _ s2 Q2.
  assert (quiet s0 s2) as Q0 by (etransitivity; [by apply quiet_fd_only|exact Q2]).
  apply wp_ostate; [by eapply set_up_quiet|done|]. apply HQ.
  destruct Q0 as [A B C D E G I O P L K N]. subst s0. cbn [s_chan s_net] in *.
  assert (c_output (s_chan s2) = []) as Eo by by destruct P as [->|[]].
  split; cbn [s_chan s_net]; cfields; auto; try done.
Qed.

Lemma hushed_obuf_empty : hushed chan_obuf_empty.
Proof.
  intros s S. unfold chan_obuf_empty. wps. wif; [by apply hushed_ret|]. wif; [|by apply hushed_ret].
  pose proof (wp_close_output s (mret tt) (fun _ s' => quiet s s') S (hushed_ret tt)) as H.
  exact (H (fun s' Q => Q)).
Qed.

Lemma hushed_rcvd_eow : hushed chan_rcvd_eow.
Proof.
  intros s S. unfold chan_rcvd_eow. wps. wif; [|by apply hushed_ret].
  apply hushed_bind; [apply hushed_shutdown_read|intros _; apply hushed_iclosed|done].
Qed.

Lemma hushed_write_failed : hushed chan_write_failed.
Proof.
  intros s S. unfold chan_write_failed. wps. wif; [|by apply hushed_ret].
  apply wp_close_output; [done| |auto]. apply hushed_if; [|apply hushed_ret].
  intros s1 S1. unfold chan_send_eow2. wps. wif; [by apply hushed_ret|].
  wps. wif; [by apply hushed_ret|]. destruct S1 as (T & R & S1). rewrite R. cbn [negb].
  by apply hushed_send.
Qed.

Lemma wp_odrain s (b : bool) : set_up s -> (b = true -> c_ostate (s_chan s) = 0) ->
  wp resource (if b then chan_set_ostate CHAN_OUTPUT_WAIT_DRAIN else mret tt)
    (fun _ s' => quiet s s') s.
Proof.
  intros S H. destruct b; [|by apply hushed_ret].
  apply wp_ostate; [done..|]. apply quiet_ostate; [|done]. right. left. auto.
Qed.

(** The rest of chan_rcvd_ieof, once EOF has been noted. *)
Lemma rcvd_ieof_quiet s : set_up s ->
  wp resource chan_rcvd_ieof
    (fun _ s' => quiet (mk_ssh (with_flags (Z.lor (c_flags (s_chan s)) CHAN_EOF_RCVD) (s_chan s)) (s_net s)) s') s.
Proof.
  intros S. unfold chan_rcvd_ieof. wps. set (s0 := mk_ssh (with_flags _ _) _).
  assert (set_up s0) as S0 by exact S.
  eapply wp_mono; [apply wp_odrain; [done|apply Z.eqb_eq]|]. cbv beta. intros _ s1 Q1. wps.
  eapply wp_mono; [apply (hushed_if _ _ _ hushed_obuf_empty (hushed_ret tt)); by eapply set_up_quiet|].
  cbv beta. intros _ s2 Q2. by etransitivity.
Qed.

Lemma hushed_rcvd_oclose : hushed chan_rcvd_oclose.
Proof.
  intros s S. unfold chan_rcvd_oclose. wps. rewrite decide_False by apply S.
  assert (forall b : bool, wp resource (if b then set_flag CHAN_CLOSE_RCVD else mret tt)
    (fun _ s' => quiet s s' /\ c_ostate (s_chan s') = c_ostate (s_chan s)) s) as Hf.
  { intros []; [|wps; split; [apply quiet_refl|done]].
    apply (wp_conj (fun _ _ => True)); [by apply hushed_flag|]. unfold set_flag. by wps. }
  eapply wp_mono; [apply Hf|]. cbv beta. intros _ s1 [Q1 Eo]. wps.
  pose proof (set_up_quiet _ _ Q1 S) as S1.
  eapply wp_mono; [apply wp_odrain; [done|rewrite Eo; apply Z.eqb_eq]|]. cbv beta. intros _ s2 Q2.
  pose proof (set_up_quiet _ _ Q2 S1) as S2. wps.
  apply (wp_mono _ (fun _ s3 => quiet s2 s3));
    [|cbv beta; intros _ s3 Q3; etransitivity; [exact Q1|]; by etransitivity].
  wif; [|wif; [|by apply hushed_ret]].
  - apply hushed_bind; [apply hushed_shutdown_read| |done]. intros _.
    apply hushed_bind; [apply hushed_shutdown_extended_read|intros _; apply hushed_iclosed].
  - apply hushed_bind; [apply hushed_if; [apply hushed_eof2|apply hushed_ret]| |done]. intros _.
    apply hushed_bind; [apply hushed_shutdown_extended_read|intros _; apply hushed_iclosed].
Qed.

Lemma hushed_is_dead b : hushed (chan_is_dead b).
Proof.
  intros s S. unfold chan_is_dead. wps. repeat (wif; [by apply hushed_ret|]).
  apply hushed_bind; [|intros _ s1 _; wps; apply quiet_refl|done].
  apply hushed_if; [|apply hushed_ret]. intros s1 S1. unfold chan_send_close2. wps.
  wif; [by apply hushed_ret|]. wif; [by apply hushed_ret|].
  destruct S1 as (T & R & S1). rewrite R. cbn [negb].
  apply hushed_bind; [by apply hushed_send| |done]. intros _. by apply hushed_flag.
Qed.
