(* ===== verification/ChanFlow.v ===== *)
(** * ChanFlow: flow control and data at one end of a channel

    [flow k base recv s]: an end set up with configuration [k], which had sent
    [base] and has received the messages [recv], keeps its books: what it sent is what it read, in
    order; what it wrote is what it received, in order; the window it believes
    to have is the window it was given less what it sent; the window it
    announced covers what it received.  Every event keeps [flow] when the
    message received, if any, respects the window. *)

From S2P Require Import Prelude Ssherr Sshbuf SshbufGetput SshbufWire SshbufWire2 Cstring.
From S2P Require Import Channel ChannelIO ChanLogic ChanProto ChanQuiet.

(** ** Accounts of a history *)

Definition size (m : msg) : Z :=
  match m with MSG_CHANNEL_DATA _ d | MSG_CHANNEL_EXTENDED_DATA _ _ d => zlen d | _ => 0 end.
Definition adjust (m : msg) : Z := match m with MSG_CHANNEL_WINDOW_ADJUST _ n => n | _ => 0 end.
Definition payload (m : msg) : list Z := match m with MSG_CHANNEL_DATA _ d => d | _ => [] end.

Definition total (f : msg -> Z) (ms : list msg) : Z := foldr (fun m a => f m + a) 0 ms.
Definition stream (ms : list msg) : list Z := concat (payload <$> ms).

Definition reads (fd : Z) (xs : list syscall) : list Z :=
  concat ((fun x => match x with SysRead f d => if f =? fd then d else [] | _ => [] end) <$> xs).
Definition writes (fd : Z) (xs : list syscall) : list Z :=
  concat ((fun x => match x with SysWrite f d => if f =? fd then d else [] | _ => [] end) <$> xs).

Section Accounts.
Implicit Types (ms : list msg) (xs : list syscall).

Lemma total_app f ms ms' : total f (ms ++ ms') = total f ms + total f ms'.
Proof. unfold total. induction ms; cbn; lia. Qed.

Lemma total_one f m : total f [m] = f m.
Proof. unfold total. cbn. lia. Qed.

Lemma stream_app ms ms' : stream (ms ++ ms') = stream ms ++ stream ms'.
Proof. unfold stream. by rewrite fmap_app, concat_app. Qed.

Lemma stream_one m : stream [m] = payload m.
Proof. apply app_nil_r. Qed.

Lemma reads_app fd xs xs' : reads fd (xs ++ xs') = reads fd xs ++ reads fd xs'.
Proof. unfold reads. by rewrite fmap_app, concat_app. Qed.

Lemma writes_app fd xs xs' : writes fd (xs ++ xs') = writes fd xs ++ writes fd xs'.
Proof. unfold writes. by rewrite fmap_app, concat_app. Qed.

Lemma control_accounts ms : Forall control ms ->
  total size ms = 0 /\ total adjust ms = 0 /\ stream ms = [].
Proof.
  induction 1 as [|m ms Hm _ (IH1 & IH2 & IH3)]; [done|].
  assert (size m = 0 /\ adjust m = 0 /\ payload m = []) as (E1 & E2 & E3) by by destruct m.
  unfold total, stream in *. cbn. rewrite E1, E2, E3, IH1, IH2. cbn. rewrite IH3. auto.
Qed.

Lemma fd_call_accounts xs fd : Forall fd_call xs -> reads fd xs = [] /\ writes fd xs = [].
Proof.
  induction 1 as [|x xs Hx _ (IH1 & IH2)]; [done|].
  unfold reads, writes in *. destruct x; try done; cbn; rewrite IH1, IH2; auto.
Qed.

Lemma writes_read fd f d xs : writes fd (xs ++ [SysRead f d]) = writes fd xs.
Proof. rewrite writes_app. apply app_nil_r. Qed.

Lemma reads_write fd f d xs : reads fd (xs ++ [SysWrite f d]) = reads fd xs.
Proof. rewrite reads_app. apply app_nil_r. Qed.

Lemma reads_read f d xs : reads f (xs ++ [SysRead f d]) = reads f xs ++ d.
Proof. rewrite reads_app. unfold reads at 2. cbn. by rewrite Z.eqb_refl, app_nil_r. Qed.

Lemma writes_write f d xs : writes f (xs ++ [SysWrite f d]) = writes f xs ++ d.
Proof. rewrite writes_app. unfold writes at 2. cbn. by rewrite Z.eqb_refl, app_nil_r. Qed.

Lemma reads_read_ne fd f d xs : f <> fd -> reads fd (xs ++ [SysRead f d]) = reads fd xs.
Proof.
  intros H. rewrite reads_app. unfold reads at 2. cbn. apply Z.eqb_neq in H as ->. apply app_nil_r.
Qed.

Lemma writes_write_ne fd f d xs : f <> fd -> writes fd (xs ++ [SysWrite f d]) = writes fd xs.
Proof.
  intros H. rewrite writes_app. unfold writes at 2. cbn. apply Z.eqb_neq in H as ->. apply app_nil_r.
Qed.
End Accounts.
Create Rewrite HintDb accounts.
#[export] Hint Rewrite total_app stream_app total_one stream_one writes_read reads_write : accounts.

(** ** The invariant *)

Record config := mk_config {
  k_rfd : Z; k_wfd : Z; k_efd : Z; k_usage : Z;
  k_lwin : Z;   (* the window first announced to the peer *)
  k_lmax : Z;   (* the largest packet accepted *)
  k_rwin : Z;   (* the window the peer announced *)
  k_rmax : Z    (* the largest packet the peer accepts *)
}.

Record config_ok (k : config) : Prop := {
  ko_efd : k_efd k <> -1 -> k_efd k <> k_rfd k /\ k_efd k <> k_wfd k;
  ko_lwin : 0 <= k_lwin k < 2 ^ 32;
  ko_lmax : 0 <= k_lmax k <= SSHBUF_SIZE_MAX - 4;
  ko_rwin : 0 <= k_rwin k < 2 ^ 32;
  ko_rmax : 0 <= k_rmax k
}.

(** Bytes held for the extended descriptor, which count against the window. *)
Definition held (c : Channel) : Z :=
  if c_extended_usage c =? CHAN_EXTENDED_WRITE then zlen (c_extended c) else 0.

(** Extended data is standard error. *)
Definition code_ok (m : msg) : Prop :=
  match m with MSG_CHANNEL_EXTENDED_DATA _ code _ => code = SSH2_EXTENDED_DATA_STDERR | _ => True end.

Record flow (k : config) (base recv : list msg) (s : ssh) : Prop := {
  f_base : base `prefix_of` n_sent (s_net s);
  f_type : c_type (s_chan s) = SSH_CHANNEL_OPEN \/
    (c_type (s_chan s) = SSH_CHANNEL_ABANDONED /\ c_ostate (s_chan s) = 3);
  f_id : c_have_remote_id (s_chan s) = true;
  f_plain : c_datagram (s_chan s) = false /\ c_input_filter (s_chan s) = false /\
    c_output_filter (s_chan s) = false /\ c_detach_user (s_chan s) = false;
  f_config : c_extended_usage (s_chan s) = k_usage k /\ c_local_maxpacket (s_chan s) = k_lmax k /\
    c_remote_maxpacket (s_chan s) = k_rmax k /\ c_local_window_max (s_chan s) = k_lwin k;
  f_rfd : gone (k_rfd k) (c_rfd (s_chan s));
  f_wfd : gone (k_wfd k) (c_wfd (s_chan s));
  f_efd : gone (k_efd k) (c_efd (s_chan s));
  f_range : (c_istate (s_chan s) = 0 \/ c_istate (s_chan s) = 1 \/ c_istate (s_chan s) = 3) /\
    (c_ostate (s_chan s) = 0 \/ c_ostate (s_chan s) = 1 \/ c_ostate (s_chan s) = 3);
  (* sending *)
  f_sent : stream (n_sent (s_net s)) `prefix_of` reads (k_rfd k) (n_sys (s_net s));
  f_input : c_istate (s_chan s) <> 3 ->
    stream (n_sent (s_net s)) ++ c_input (s_chan s) = reads (k_rfd k) (n_sys (s_net s));
  f_rwin : c_remote_window (s_chan s) =
    k_rwin k + total adjust recv - total size (n_sent (s_net s));
  f_rpos : 0 <= c_remote_window (s_chan s) < 2 ^ 32;
  f_small : Forall (fun m => size m <= k_rmax k /\ 0 <= adjust m < 2 ^ 32 /\ code_ok m) (n_sent (s_net s));
  (* receiving *)
  f_written : writes (k_wfd k) (n_sys (s_net s)) ++ c_output (s_chan s) `prefix_of` stream recv;
  f_output : c_ostate (s_chan s) = 0 ->
    writes (k_wfd k) (n_sys (s_net s)) ++ c_output (s_chan s) = stream recv;
  f_closed : c_ostate (s_chan s) = 3 -> c_output (s_chan s) = [];
  f_lwin : k_lwin k + total adjust (n_sent (s_net s)) <= c_local_window (s_chan s) + total size recv;
  f_lpos : 0 <= c_local_window (s_chan s) /\ 0 <= c_local_consumed (s_chan s);
  f_sum : c_local_window (s_chan s) + c_local_consumed (s_chan s) + zlen (c_output (s_chan s))
    + held (s_chan s) <= k_lwin k;
  f_eof : has (c_flags (s_chan s)) CHAN_EOF_RCVD = true -> exists m, m ∈ recv /\ is_eof m = true
}.

(** Checks the books after a change, field by field. *)
Ltac fsplit V := destruct V; cbn [s_chan s_net] in *; split;
  cbn [s_chan s_net net_sys net_sent n_sent n_sys]; cfields; autorewrite with accounts;
  try assumption; try done; try (by apply prefix_app_r).

Section Flow.
Context {k : config} (K : config_ok k) {base recv : list msg}.
Abbreviation inv := (flow k base recv).

Lemma flow_set_up s : inv s -> set_up s.
Proof.
  intros V. pose proof (f_range _ _ _ _ V). split_and!; try lia; [|apply V].
  destruct (f_type _ _ _ _ V) as [->|[-> _]]; done.
Qed.

Lemma flow_quiet s s' : inv s -> quiet s s' -> inv s'.
Proof.
  intros V [(ms & Em & Fm) (xs & Ex & Fx) C R W E I O P L G B].
  destruct (control_accounts _ Fm) as (A1 & A2 & A3). unfold core in C. injection C as
    C1 C2 C3 C4 C5 C6 C7 C8 C9 C10 C11 C12 C13 C14 C15 C16.
  assert (forall fd, reads fd (n_sys (s_net s')) = reads fd (n_sys (s_net s)) /\
                     writes fd (n_sys (s_net s')) = writes fd (n_sys (s_net s))) as AS.
  { intros fd. destruct (fd_call_accounts _ fd Fx) as [H1 H2].
    by rewrite Ex, reads_app, writes_app, H1, H2, !app_nil_r. }
  assert (stream (n_sent (s_net s')) = stream (n_sent (s_net s)) /\
    total size (n_sent (s_net s')) = total size (n_sent (s_net s)) /\
    total adjust (n_sent (s_net s')) = total adjust (n_sent (s_net s))) as (B1 & B2 & B3).
  { rewrite Em, stream_app, !total_app, A1, A2, A3, app_nil_r. split_and!; [done|lia|lia]. }
  assert (held (s_chan s') = held (s_chan s)) as B4 by (unfold held; by rewrite C8, C13).
  pose proof (zlen_nonneg (c_output (s_chan s))) as Z0.
  destruct V. split; try (by eapply gone_trans); rewrite ?B1, ?B2, ?B3, ?B4, ?(proj1 (AS _)), ?(proj2 (AS _)),
    ?C1, ?C2, ?C4, ?C5, ?C6, ?C7, ?C8, ?C9, ?C10, ?C11, ?C12, ?C14, ?C15, ?C16, ?G; try done.
  - rewrite Em. by apply prefix_app_r.
  - destruct f_type0 as [|[? Ho]]; [by left|]. right. split; [done|]. lia.
  - lia.
  - intros Hi. apply f_input0. lia.
  - rewrite Em, Forall_app. split; [done|]. eapply Forall_impl; [exact Fm|].
    pose proof (ko_rmax _ K). intros [] []; cbn; intuition lia.
  - destruct P as [->|[-> _]]; [done|]. rewrite app_nil_r.
    etransitivity; [|exact f_written0]. by apply prefix_app_r.
  - intros Ho. destruct P as [->|[_ H3]]; [|lia]. apply f_output0. lia.
  - intros Ho. destruct (L Ho) as [H3|H3]; [|done]. destruct P as [->|[-> _]]; auto.
  - destruct P as [->|[-> _]]; [done|]. change (zlen (@nil Z)) with 0. lia.
Qed.

(** *** The steps that move data *)

Lemma gone_same v v' : gone v v' -> v' <> -1 -> v' = v.
Proof. by intros [->|]. Qed.

Lemma flow_read c n bs : inv (mk_ssh c n) -> c_rfd c <> -1 ->
  inv (mk_ssh (with_input (c_input c ++ bs) c) (net_sys (SysRead (c_rfd c) bs) n)).
Proof.
  intros V Hr. pose proof (gone_same _ _ (f_rfd _ _ _ _ V) Hr) as E. cbn [s_chan] in E.
  fsplit V; rewrite E, reads_read; cbn [s_chan s_net] in *.
  - by apply prefix_app_r.
  - intros Hi. by rewrite app_assoc, f_input0.
Qed.

Lemma flow_read_extended c n bs : inv (mk_ssh c n) -> c_efd c <> -1 ->
  c_extended_usage c <> CHAN_EXTENDED_WRITE -> forall ext,
  inv (mk_ssh (with_extended ext c) (net_sys (SysRead (c_efd c) bs) n)).
Proof.
  intros V He Hu ext. pose proof (gone_same _ _ (f_efd _ _ _ _ V) He) as E. cbn [s_chan] in E.
  destruct (ko_efd _ K) as [H1 H2]; [congruence|].
  fsplit V; rewrite ?reads_read_ne by congruence; try done.
  unfold held in *. cfields. cbn [s_chan] in *. apply Z.eqb_neq in Hu. by rewrite Hu in *.
Qed.

Lemma take_drop_zlen {A} (l : list A) len : 0 <= len <= zlen l ->
  zlen (drop (Z.to_nat len) l) = zlen l - len.
Proof. intros. unfold zlen in *. rewrite length_drop. lia. Qed.

Lemma flow_write c n len : inv (mk_ssh c n) -> c_wfd c <> -1 -> 0 <= len <= zlen (c_output c) ->
  inv (mk_ssh (with_local_consumed (u32 (c_local_consumed c + len))
                 (with_output (drop (Z.to_nat len) (c_output c)) c))
         (net_sys (SysWrite (c_wfd c) (take (Z.to_nat len) (c_output c))) n)).
Proof.
  intros V Hw Hl. pose proof (gone_same _ _ (f_wfd _ _ _ _ V) Hw) as E. cbn [s_chan] in E.
  pose proof (f_sum _ _ _ _ V) as S. pose proof (f_lpos _ _ _ _ V) as [L1 L2]. pose proof (ko_lwin _ K).
  assert (0 <= held c) as H0 by (unfold held; destruct (_ =? _); [apply zlen_nonneg|lia]).
  assert (0 <= c_local_consumed c + len < 2 ^ 32) as W.
  { cbn [s_chan] in *. pose proof (zlen_nonneg (c_output c)). lia. }
  rewrite (wrap_small 32) by exact W.
  fsplit V; rewrite ?E, ?writes_write, <- ?app_assoc, ?take_drop; try done.
  - intros Ho. cbn [s_chan] in *. rewrite f_closed0 by done. by rewrite drop_nil.
  - lia.
  - cbn [s_chan] in *. rewrite take_drop_zlen by done. unfold held in *. cfields. lia.
Qed.

Lemma flow_write_extended c n len : inv (mk_ssh c n) -> c_efd c <> -1 ->
  c_extended_usage c = CHAN_EXTENDED_WRITE -> 0 <= len <= zlen (c_extended c) ->
  inv (mk_ssh (with_local_consumed (u32 (c_local_consumed c + len))
                 (with_extended (drop (Z.to_nat len) (c_extended c)) c))
         (net_sys (SysWrite (c_efd c) (take (Z.to_nat len) (c_extended c))) n)).
Proof.
  intros V He Hu Hl. pose proof (gone_same _ _ (f_efd _ _ _ _ V) He) as E. cbn [s_chan] in E.
  destruct (ko_efd _ K) as [H1 H2]; [congruence|].
  pose proof (f_sum _ _ _ _ V) as S. pose proof (f_lpos _ _ _ _ V) as [L1 L2]. pose proof (ko_lwin _ K).
  unfold held in S. cbn [s_chan] in *. rewrite Hu in S. cbn [Z.eqb Pos.eqb CHAN_EXTENDED_WRITE] in S.
  pose proof (zlen_nonneg (c_output c)).
  assert (0 <= c_local_consumed c + len < 2 ^ 32) as W by lia.
  rewrite (wrap_small 32) by exact W.
  fsplit V; rewrite ?writes_write_ne by congruence; try done; cbn [s_chan] in *.
  - lia.
  - unfold held. cfields. rewrite Hu. cbn [Z.eqb Pos.eqb CHAN_EXTENDED_WRITE].
    rewrite take_drop_zlen by done. lia.
Qed.

Lemma flow_adjust c n : inv (mk_ssh c n) ->
  inv (mk_ssh (with_local_consumed 0 (with_local_window (u32 (c_local_window c + c_local_consumed c)) c))
         (net_sent (MSG_CHANNEL_WINDOW_ADJUST (c_remote_id c) (c_local_consumed c)) n)).
Proof.
  intros V. pose proof (f_sum _ _ _ _ V) as S. pose proof (f_lpos _ _ _ _ V) as [L1 L2].
  pose proof (ko_lwin _ K). pose proof (ko_rmax _ K). cbn [s_chan] in *.
  assert (0 <= held c) as H0' by (unfold held; destruct (_ =? _); [apply zlen_nonneg|lia]).
  pose proof (zlen_nonneg (c_output c)).
  rewrite (wrap_small 32) by lia.
  fsplit V; cbn [size adjust payload s_chan s_net] in *; rewrite ?app_nil_r, ?Z.add_0_r; try done.
  - apply Forall_app. split; [done|]. constructor; [|done]. cbn. intuition lia.
  - lia.
  - unfold held in *. cfields. lia.
Qed.

Lemma flow_send c n len : inv (mk_ssh c n) -> c_istate c <> 3 ->
  0 <= len <= zlen (c_input c) -> len <= c_remote_window c -> len <= c_remote_maxpacket c ->
  inv (mk_ssh (with_remote_window (u32 (c_remote_window c - len))
                 (with_input (drop (Z.to_nat len) (c_input c)) c))
         (net_sent (MSG_CHANNEL_DATA (c_remote_id c) (take (Z.to_nat len) (c_input c))) n)).
Proof.
  intros V Hi Hl Hw Hp. pose proof (f_rpos _ _ _ _ V). cbn [s_chan] in *.
  rewrite (wrap_small 32) by lia.
  assert (zlen (take (Z.to_nat len) (c_input c)) = len) as El
    by (unfold zlen in *; rewrite length_take; lia).
  fsplit V; cbn [size adjust payload s_chan s_net] in *; rewrite ?El, ?Z.add_0_r; try done.
  - rewrite <- (f_input0 Hi). apply prefix_app. exists (drop (Z.to_nat len) (c_input c)).
    by rewrite take_drop.
  - intros _. by rewrite <- app_assoc, take_drop, f_input0.
  - lia.
  - lia.
  - apply Forall_app. split; [done|]. constructor; [|done]. cbn. destruct f_config0 as (_ & _ & <- & _). unfold SSH2_EXTENDED_DATA_STDERR. intuition lia.
Qed.

Lemma flow_send_extended c n len ext : inv (mk_ssh c n) -> c_extended_usage c <> CHAN_EXTENDED_WRITE ->
  0 <= len <= zlen (c_extended c) -> len <= c_remote_window c -> len <= c_remote_maxpacket c ->
  inv (mk_ssh (with_remote_window (u32 (c_remote_window c - len)) (with_extended ext c))
         (net_sent (MSG_CHANNEL_EXTENDED_DATA (c_remote_id c) SSH2_EXTENDED_DATA_STDERR
                      (take (Z.to_nat len) (c_extended c))) n)).
Proof.
  intros V Hu Hl Hw Hp. pose proof (f_rpos _ _ _ _ V). cbn [s_chan] in *.
  rewrite (wrap_small 32) by lia.
  assert (zlen (take (Z.to_nat len) (c_extended c)) = len) as El
    by (unfold zlen in *; rewrite length_take; lia).
  fsplit V; cbn [size adjust payload s_chan s_net] in *; rewrite ?El, ?app_nil_r, ?Z.add_0_r; try done.
  - lia.
  - lia.
  - apply Forall_app. split; [done|]. constructor; [|done]. cbn. destruct f_config0 as (_ & _ & <- & _). unfold SSH2_EXTENDED_DATA_STDERR. intuition lia.
  - unfold held in *. cfields. apply Z.eqb_neq in Hu. by rewrite Hu in *.
Qed.

(** *** Every function keeps the books *)

Lemma flow_hushed {A} (m : CM A) : hushed m -> preserves resource inv m.
Proof.
  intros Hm s V. eapply wp_mono; [apply Hm; by apply flow_set_up|]. intros a s' Q. by eapply flow_quiet.
Qed.

Lemma hushed_modc f :
  (forall c, core (f c) = core c /\ c_rfd (f c) = c_rfd c /\ c_wfd (f c) = c_wfd c /\
     c_efd (f c) = c_efd c /\ c_istate (f c) = c_istate c /\ c_ostate (f c) = c_ostate c /\
     c_output (f c) = c_output c /\ c_flags (f c) = c_flags c) -> hushed (modc f).
Proof.
  intros H [c n] _. apply wp_modc. destruct (H c) as (H1 & H2 & H3 & H4 & H5 & H6 & H7 & H8).
  split; cbn [s_chan s_net]; rewrite ?H2, ?H3, ?H4, ?H5, ?H6, ?H7, ?H8; auto using gone_refl;
    exists []; by rewrite app_nil_r.
Qed.

Lemma hushed_modn f :
  (forall n, n_sent (f n) = n_sent n /\ n_sys (f n) = n_sys n /\ n_bug_exteof (f n) = n_bug_exteof n) ->
  hushed (modn f).
Proof.
  intros H [c n] _. apply wp_modn. destruct (H n) as (H1 & H2 & H3).
  split; cbn [s_chan s_net]; rewrite ?H1, ?H2, ?H3; auto using gone_refl;
    exists []; by rewrite app_nil_r.
Qed.

Lemma hushed_answer : hushed answer.
Proof. intros s S. apply wp_answer. intros b. by apply (hushed_modn net_pop). Qed.

Lemma hushed_gets {A} (f : ssh -> A) : hushed (gets f).
Proof. intros s _. apply wp_gets, quiet_refl. Qed.

Lemma hushed_used_time : hushed channel_set_used_time.
Proof.
  unfold channel_set_used_time. apply hushed_bind; [by apply hushed_modn|]. intros _.
  apply hushed_bind; [apply hushed_gets|]. intros v. by apply hushed_modc.
Qed.

Lemma flow_pop c n : inv (mk_ssh c n) -> inv (mk_ssh c (net_pop n)).
Proof. intros V. exact (flow_hushed _ hushed_answer _ V). Qed.

(** After the invariant holds, finish with a quiet computation. *)
Lemma then_hushed {A} (m : CM A) s (Q : A -> ssh -> Prop) : hushed m -> inv s ->
  (forall a s', inv s' -> Q a s') -> wp resource m Q s.
Proof. intros Hm V HQ. eapply wp_mono; [by apply flow_hushed|]. auto. Qed.

Lemma flow_errno c n e : inv (mk_ssh c n) -> inv (mk_ssh c (net_errno e n)).
Proof. intros V. exact (flow_hushed _ (hushed_modn (net_errno e) (fun _ => conj eq_refl (conj eq_refl eq_refl))) _ V). Qed.

(** The handlers of descriptors run on open channels only. *)
Definition oinv (s : ssh) : Prop := inv s /\ c_type (s_chan s) = SSH_CHANNEL_OPEN.

Lemma oflow_hushed {A} (m : CM A) : hushed m -> preserves resource oinv m.
Proof.
  intros Hm s [V T]. eapply wp_mono; [apply Hm; by apply flow_set_up|]. cbv beta. intros a s' Q.
  split; [by eapply flow_quiet|]. pose proof (q_core _ _ Q) as C. unfold core in C. congruence.
Qed.

(** States that agree in everything the books look at. *)
Lemma flow_same s s' : inv s ->
  core (s_chan s') = core (s_chan s) /\ c_rfd (s_chan s') = c_rfd (s_chan s) /\
  c_wfd (s_chan s') = c_wfd (s_chan s) /\ c_efd (s_chan s') = c_efd (s_chan s) /\
  c_istate (s_chan s') = c_istate (s_chan s) /\ c_ostate (s_chan s') = c_ostate (s_chan s) /\
  c_output (s_chan s') = c_output (s_chan s) /\ c_flags (s_chan s') = c_flags (s_chan s) /\
  n_sent (s_net s') = n_sent (s_net s) /\ n_sys (s_net s') = n_sys (s_net s) /\
  n_bug_exteof (s_net s') = n_bug_exteof (s_net s) -> inv s'.
Proof.
  intros V (H1 & H2 & H3 & H4 & H5 & H6 & H7 & H8 & H9 & H10 & H11). eapply flow_quiet; [exact V|].
  split; rewrite ?H2, ?H3, ?H4, ?H5, ?H6, ?H7, ?H8, ?H9, ?H10, ?H11; auto using gone_refl;
    exists []; by rewrite app_nil_r.
Qed.

Lemma flow_read_input rd maxlen : preserves resource oinv (read_input rd maxlen).
Proof.
  intros [c n] [V T]. cbn [s_chan] in T. unfold read_input. wps. apply wp_answer. intros ok. wps.
  pose proof (flow_pop _ _ V) as V'. wif; [by wps|].
  unfold sys_read. destruct (Z.eqb_spec (c_rfd c) (-1)) as [|Hr]; [wps; split; [by apply flow_errno|done]|].
  destruct rd as [e|bs]; [wps; split; [by apply flow_errno|done]|].
  destruct (take _ bs) as [|b bs']; wps; (split; [|done]); [by apply flow_errno|by apply flow_read].
Qed.

Lemma flow_read_fail : preserves resource oinv read_fail.
Proof.
  intros s V. unfold read_fail. wps. rewrite bool_decide_true by apply V. cbn [negb].
  wps. eapply wp_mono; [apply (oflow_hushed _ hushed_read_failed _ V)|]. intros. by wps.
Qed.

Lemma flow_write_fail : preserves resource oinv write_fail.
Proof.
  intros s V. unfold write_fail. wps. rewrite bool_decide_true by apply V. cbn [negb].
  wps. eapply wp_mono; [apply (oflow_hushed _ hushed_write_failed _ V)|]. intros. by wps.
Qed.

Section Handlers.
Context (fi : list Z -> CM Z) (fo : CM (option (list Z))).

Lemma flow_handle_rfd rd : preserves resource oinv (channel_handle_rfd fi rd).
Proof.
  intros s V. unfold channel_handle_rfd. wps. wif; [by wps|]. wif; [by wps|].
  destruct (f_plain _ _ _ _ (proj1 V)) as (-> & -> & _). cbn [negb andb].
  wif; [by wps|]. cbv zeta. wp1. eapply wp_mono; [by apply flow_read_input|]. cbv beta.
  intros r s' V'. destruct r as [e|].
  - wif; [by wps|by apply flow_read_fail].
  - wp1. eapply wp_mono; [by apply (oflow_hushed _ hushed_used_time)|]. intros. by wps.
Qed.

Lemma flow_handle_wfd wr : preserves resource oinv (channel_handle_wfd fo wr).
Proof.
  intros s V. unfold channel_handle_wfd. wps. wif; [by wps|]. wif; [by wps|].
  destruct (f_plain _ _ _ _ (proj1 V)) as (Hd & _ & Hf & _). rewrite Hd, Hf. wps.
  unfold sys_write. destruct (Z.eqb_spec (c_wfd (s_chan s)) (-1)) as [|Hw]; [by apply flow_write_fail|].
  destruct wr as [e|n]; [wif; [by wps|by apply flow_write_fail]|].
  wif; [by apply flow_write_fail|]. zbool. set (len := Z.max 0 _) in *.
  wps. destruct s as [c nt]. cbn [s_chan s_net] in *.
  pose proof (zlen_nonneg (c_output c)). unfold channel_set_used_time. wps.
  cfields. destruct (Z.ltb_spec (zlen (c_output c)) len); [lia|]. wps. unfold account_output. wps. cfields.
  destruct V as [V T]. rewrite take_drop_zlen by lia.
  replace (zlen (c_output c) - (zlen (c_output c) - len)) with len by lia.
  split; [|done]. eapply flow_same; [apply (flow_write c nt len V Hw); lia|]. by split_and!.
Qed.

Lemma flow_close_efd : preserves resource oinv (channel_close_fd EFD;; mret 1).
Proof. apply oflow_hushed, hushed_bind; [apply hushed_close_fd|intros; apply hushed_ret]. Qed.

Lemma flow_handle_efd_write wr : forall s, oinv s -> c_extended_usage (s_chan s) = CHAN_EXTENDED_WRITE ->
  wp resource (channel_handle_efd_write wr) (fun _ s' => oinv s') s.
Proof.
  intros s V Hu. unfold channel_handle_efd_write. wps. wif; [by wps|]. wif; [by wps|].
  unfold sys_write. destruct (Z.eqb_spec (c_efd (s_chan s)) (-1)) as [|He]; [by apply flow_close_efd|].
  destruct wr as [e|n]; [wif; [by wps|by apply flow_close_efd]|].
  wif; [by apply flow_close_efd|]. zbool. set (len := Z.max 0 _) in *.
  destruct s as [c nt]. cbn [s_chan s_net] in *. pose proof (zlen_nonneg (c_extended c)).
  unfold channel_set_used_time. wps. destruct V as [V T]. split; [|done].
  eapply flow_same; [apply (flow_write_extended c nt len V He Hu); lia|]. by split_and!.
Qed.

Lemma flow_handle_efd_read rd : forall s, oinv s -> c_extended_usage (s_chan s) <> CHAN_EXTENDED_WRITE ->
  wp resource (channel_handle_efd_read rd) (fun _ s' => oinv s') s.
Proof.
  intros s V Hu. unfold channel_handle_efd_read. wps. wif; [by wps|].
  unfold sys_read. destruct (Z.eqb_spec (c_efd (s_chan s)) (-1)) as [|He]; [wif; [by wps|by apply flow_close_efd]|].
  destruct rd as [e|bs]; [wif; [by wps|by apply flow_close_efd]|].
  destruct (take _ bs) as [|b bs']; [by apply flow_close_efd|].
  destruct s as [c nt]. cbn [s_chan s_net] in *. unfold channel_set_used_time. wps. destruct V as [V T].
  pose proof (flow_read_extended c nt (b :: bs') V He Hu) as V'.
  wif; wps.
  - split; [|done]. eapply flow_same; [apply (V' (c_extended c))|]. by split_and!.
  - apply wp_buf_put; [by wps|]. intros _. wps. split; [|done].
    eapply flow_same; [apply (V' (c_extended c ++ b :: bs'))|]. by split_and!.
Qed.

Lemma flow_handle_efd rd wr : preserves resource oinv (channel_handle_efd rd wr).
Proof.
  intros s V. unfold channel_handle_efd. wps. wif; [by wps|].
  destruct (Z.eqb_spec (c_extended_usage (s_chan s)) CHAN_EXTENDED_WRITE); [by apply flow_handle_efd_write|].
  wif; [by apply flow_handle_efd_read|by wps].
Qed.

Lemma flow_check_window : preserves resource oinv channel_check_window.
Proof.
  intros [c n] [V T]. unfold channel_check_window. wps. wif; [|by wps].
  rewrite (f_id _ _ _ _ V : c_have_remote_id c = true). cbn [negb]. wps; [done|].
  split; [|done]. exact (flow_adjust c (net_pop n) (flow_pop _ _ V)).
Qed.

Lemma flow_post_open x : preserves resource oinv (channel_post_open fi fo x).
Proof.
  unfold channel_post_open. repeat (apply preserves_bind; [|intros _]); [|apply flow_handle_wfd
    |apply flow_handle_efd|apply flow_check_window|apply preserves_ret]. apply flow_handle_rfd.
Qed.
End Handlers.

Lemma hushed_getc : hushed getc.
Proof. intros s _. apply wp_getc, quiet_refl. Qed.

Lemma flow_pre_open : preserves resource inv channel_pre_open.
Proof.
  apply flow_hushed. unfold channel_pre_open, want.
  apply hushed_bind; [by apply hushed_modc|]. intros _. apply hushed_bind; [apply hushed_getc|]. intros c.
  apply hushed_bind; [|intros _; apply hushed_bind; [|intros _; apply hushed_bind; [apply hushed_getc|]]].
  - apply hushed_if; [by apply hushed_modc|apply hushed_ret].
  - repeat apply hushed_if; try apply hushed_ret; [by apply hushed_modc|apply hushed_obuf_empty].
  - intros c'. repeat apply hushed_if; try apply hushed_ret; by apply hushed_modc.
Qed.

Lemma flow_poll_input s : inv s -> c_istate (s_chan s) <> 3 ->
  wp resource channel_output_poll_input_open (fun _ s' => inv s') s.
Proof.
  intros V Hi. unfold channel_output_poll_input_open. wps. wif.
  { wp1. apply then_hushed; [|done|intros; by wps].
    repeat apply hushed_if; try apply hushed_ret. apply hushed_ibuf_empty. }
  rewrite (f_id _ _ _ _ V), (proj1 (f_plain _ _ _ _ V)). cbn [negb]. wif; [by wps|].
  destruct s as [c n]. cbn [s_chan s_net] in *. unfold spend. wps; [done|].
  pose proof (zlen_nonneg (c_input c)). pose proof (f_rpos _ _ _ _ V). pose proof (ko_rmax _ K).
  destruct (f_config _ _ _ _ V) as (_ & _ & Hrm & _). cbn [s_chan] in *.
  unfold clip in *. apply (flow_send c (net_pop n)); [by apply flow_pop|done|..];
    repeat case_match; zbool; lia.
Qed.

Lemma flow_poll_extended s : inv s -> c_extended_usage (s_chan s) <> CHAN_EXTENDED_WRITE ->
  wp resource channel_output_poll_extended_read (fun _ s' => inv s') s.
Proof.
  intros V Hu. unfold channel_output_poll_extended_read. wps. wif; [by wps|]. wif; [by wps|].
  rewrite (f_id _ _ _ _ V). cbn [negb]. destruct s as [c n]. cbn [s_chan s_net] in *. unfold spend. wps; [done|].
  pose proof (zlen_nonneg (c_extended c)). pose proof (f_rpos _ _ _ _ V). pose proof (ko_rmax _ K).
  destruct (f_config _ _ _ _ V) as (_ & _ & Hrm & _). cbn [s_chan] in *.
  unfold clip in *. apply (flow_send_extended c (net_pop n)); [by apply flow_pop|done|..];
    repeat case_match; zbool; lia.
Qed.

Lemma flow_output_poll : preserves resource inv channel_output_poll.
Proof.
  intros s V. unfold channel_output_poll. wps. wif; [by wps|]. wif; [by wps|]. wp1.
  apply (wp_mono _ (fun _ s' => inv s')).
  - wif; [|by wps]. apply flow_poll_input; [done|].
    unfold CHAN_INPUT_OPEN, CHAN_INPUT_WAIT_DRAIN in Hif1. zbool. lia.
  - cbv beta. intros r s' V'. wps. wif; [|by wps]. zbool.
    eapply wp_mono; [apply flow_poll_extended; [done|unfold CHAN_EXTENDED_READ, CHAN_EXTENDED_WRITE in *; lia]|]. intros. by wps.
Qed.

(** *** Forced closes and garbage collection *)

Lemma ibuf_empty_closes s : set_up s -> c_input (s_chan s) = [] -> c_istate (s_chan s) = 1 ->
  wp resource chan_ibuf_empty (fun _ s' => quiet s s' /\ c_istate (s_chan s') = 3) s.
Proof.
  intros S Hin Hi. apply (wp_conj resource); [by apply hushed_ibuf_empty|].
  unfold chan_ibuf_empty. wps. rewrite Hin, Hi. change (negb (zlen [] =? 0)) with false.
  change (1 =? CHAN_INPUT_WAIT_DRAIN) with true. cbv iota. wp1.
  eapply wp_mono; [apply (hushed_if _ _ _ hushed_eof2 (hushed_ret tt)); exact S|]. cbv beta.
  intros _ s1 Q1. apply wp_istate; [by eapply set_up_quiet|done|]. done.
Qed.

Lemma write_failed_closes s : set_up s -> c_ostate (s_chan s) = 0 \/ c_ostate (s_chan s) = 1 ->
  wp resource chan_write_failed (fun _ s' => quiet s s' /\ c_ostate (s_chan s') = 3) s.
Proof.
  intros S Ho. apply (wp_conj resource); [by apply hushed_write_failed|].
  unfold chan_write_failed. wps.
  destruct (_ || _) eqn:E; [|unfold CHAN_OUTPUT_OPEN, CHAN_OUTPUT_WAIT_DRAIN in E; zbool; lia].
  wps. apply wp_shutdown_write. intros s1 F. wps.
  assert (set_up s1) as S1 by (eapply set_up_quiet; [by apply quiet_fd_only|exact S]).
  apply (wp_mono _ (fun _ s2 => set_up s2)); [|cbv beta; intros _ s2 S2; by apply wp_ostate].
  wif; [|by wps]. unfold chan_send_eow2. wps. wif; [by wps|]. wps. wif; [by wps|].
  destruct S1 as (T & R & S1). rewrite R. cbn [negb]. by wps.
Qed.

(** Input that is dropped as its direction closes. *)
Lemma flow_drop_input s s' : inv s ->
  quiet (mk_ssh (with_input [] (s_chan s)) (s_net s)) s' -> c_istate (s_chan s') = 3 -> inv s'.
Proof.
  intros V [A B C D E G I O P L N M] Hi.
  assert (inv (mk_ssh (with_istate 3 (with_input [] (s_chan s))) (s_net s))) as V'
    by (fsplit V; auto; naive_solver).
  eapply flow_quiet; [exact V'|]. cbn [s_chan s_net] in *. split; auto.
Qed.

Lemma quiet_drop_output s s' : quiet (mk_ssh (with_output [] (s_chan s)) (s_net s)) s' ->
  c_ostate (s_chan s') = 3 -> quiet s s'.
Proof.
  intros [A B C D E G I O P L N M] Ho. cbn [s_chan s_net] in *.
  assert (c_output (s_chan s') = []) as Eo by by destruct P as [->|[]].
  split; auto.
Qed.

Lemma flow_force_close du abandon : preserves resource inv (channel_force_close du abandon).
Proof.
  intros s V. unfold channel_force_close. wps.
  apply (wp_mono _ (fun _ s' => inv s')); [apply then_hushed; auto;
    apply hushed_if; [apply hushed_read_failed|apply hushed_ret]|]. clear V s. cbv beta. intros _ s V. wps.
  apply (wp_mono _ (fun _ s' => inv s')).
  { wif; [|by wps]. apply Z.eqb_eq in Hif. wps.
    eapply wp_mono; [apply ibuf_empty_closes; [exact (flow_set_up _ V)|done|exact Hif]|].
    cbv beta. intros _ s' [Q Hi]. by eapply flow_drop_input. }
  clear V s. cbv beta. intros _ s V. wps.
  apply (wp_mono _ (fun _ s' => inv s' /\ c_ostate (s_chan s') = 3)).
  { pose proof (proj2 (f_range _ _ _ _ V)) as Ho.
    unfold CHAN_OUTPUT_OPEN, CHAN_OUTPUT_WAIT_DRAIN. wif; [|wps; zbool; split; [done|lia]]. wps.
    eapply wp_mono; [apply write_failed_closes; [exact (flow_set_up _ V)|]|].
    - cbn [s_chan]. cfields. zbool. lia.
    - cbv beta. intros _ s' [Q Ho']. split; [|done]. eapply flow_quiet; [exact V|]. by apply quiet_drop_output. }
  clear V s. cbv beta. intros _ s [V Ho]. wps. destruct (f_plain _ _ _ _ V) as (_ & _ & _ & ->). wps.
  apply (wp_mono _ (fun _ s' => inv s' /\ c_ostate (s_chan s') = 3)).
  { wif; [|by wps]. apply wp_close_fd. intros s' F. split; [by eapply flow_quiet, quiet_fd_only|].
    by destruct F as (? & ? & ? & ? & ? & ? & ? & ? & -> & _). }
  clear V s Ho. cbv beta. intros _ s [V Ho]. wps.
  apply (wp_mono _ (fun _ s' => inv s')).
  { destruct abandon; wps; [|done]. fsplit V. by right. }
  cbv beta. intros _ s' V'. wps. eapply flow_same; [exact V'|]. by split_and!.
Qed.

Lemma flow_garbage_collect du : preserves resource inv (channel_garbage_collect du).
Proof.
  intros s V. unfold channel_garbage_collect. wps.
  destruct (f_plain _ _ _ _ V) as (_ & _ & _ & ->). wps. cbn [negb].
  by apply (flow_hushed _ (hushed_is_dead true)).
Qed.
End Flow.
