(* ===== verification/ChanPair.v ===== *)
(** * ChanPair: two ends of a channel

    Receiving a message keeps the books of an end ([flow]) when the message
    respects the window.  Two ends connected in both directions by a FIFO
    connection therefore never break each other's window, and what one end
    writes to its descriptor is what the other end read from its own. *)

From S2P Require Import Prelude Ssherr Sshbuf SshbufGetput SshbufWire SshbufWire2 Cstring Channel ChannelIO ChanLogic ChanProto.
From S2P Require Import ChanQuiet ChanFlow.

(** ** Receiving *)

(** The handler of a message, on its encoding after the channel number. *)
Definition deliver (m : msg) : CM unit :=
  match m with
  | MSG_CHANNEL_DATA _ d => channel_input_data (wire_string d)
  | MSG_CHANNEL_EXTENDED_DATA _ code d => channel_input_extended_data (POKE_U32 code ++ wire_string d)
  | MSG_CHANNEL_WINDOW_ADJUST _ n => channel_input_window_adjust (POKE_U32 n)
  | MSG_CHANNEL_EOF _ => channel_input_ieof []
  | MSG_CHANNEL_CLOSE _ => channel_input_oclose []
  | MSG_CHANNEL_EOW _ => chan_rcvd_eow
  end.

(** A message the end can take in its state. *)
Record acceptable (k : config) (recv : list msg) (s : ssh) (m : msg) : Prop := {
  a_window : size m <= c_local_window (s_chan s);
  a_packet : size m <= k_lmax k;
  a_adjust : 0 <= adjust m /\ c_remote_window (s_chan s) + adjust m < 2 ^ 32;
  a_eof : is_data m = true -> Forall (fun m => is_eof m = false) recv;
  a_code : forall id code d, m = MSG_CHANNEL_EXTENDED_DATA id code d -> 0 <= code < 2 ^ 32
}.

Lemma parse_poke_u32 n rest : 0 <= n < 2 ^ 32 -> parse_u32 (POKE_U32 n ++ rest) = inr (n, rest).
Proof.
  intros Hn. unfold parse_u32. assert (zlen (POKE_U32 n) = 4) as H4 by done.
  rewrite zlen_app, H4. pose proof (zlen_nonneg rest).
  rewrite (proj2 (Z.ltb_ge _ _)) by lia. rewrite <- H4, slice_prefix, peek_poke_u32 by lia. done.
Qed.

Section Receive.
Context {k : config} (K : config_ok k) {base recv : list msg}.

(** Messages without data or window only lengthen the history. *)
Lemma flow_control m s : flow k base recv s -> control m -> flow k base (recv ++ [m]) s.
Proof.
  intros V Hm. destruct (control_accounts [m]) as (A1 & A2 & A3); [by constructor|].
  fsplit V; rewrite <- ?(total_one size m), <- ?(total_one adjust m), <- ?(stream_one m), ?A1, ?A2, ?A3,
    ?app_nil_r, ?Z.add_0_r; try done.
  intros H. destruct (f_eof H) as (x & Hx & E). exists x. split; [set_solver|done].
Qed.

(** Data counted by the receiver before it is stored anywhere. *)
Lemma flow_dropped m s : flow k base recv s -> adjust m = 0 ->
  payload m = [] \/ c_ostate (s_chan s) <> 0 -> flow k base (recv ++ [m]) s.
Proof.
  intros V Ha Hp. assert (0 <= size m) as Hs by (destruct m; cbn; try lia; apply zlen_nonneg).
  fsplit V; rewrite ?Ha, ?Z.add_0_r; try lia; try done.
  - intros Ho. destruct Hp as [->|]; [|done]. rewrite app_nil_r. auto.
  - intros H. destruct (f_eof H) as (x & Hx & E). exists x. split; [set_solver|done].
Qed.

(** Data charged against the window and at once counted as consumed. *)
Lemma flow_discard c n id d : flow k base recv (mk_ssh c n) -> c_ostate c <> 0 -> zlen d <= c_local_window c ->
  flow k base (recv ++ [MSG_CHANNEL_DATA id d])
    (mk_ssh (with_local_consumed (c_local_consumed c + zlen d)
              (with_local_window (c_local_window c - zlen d) c)) n).
Proof.
  intros V Ho Hw. pose proof (zlen_nonneg d).
  fsplit V; cbn [size adjust payload]; rewrite ?Z.add_0_r; try lia; try done.
  - unfold held in *. cfields. lia.
  - intros H'. destruct (f_eof H') as (x & Hx & E). exists x. split; [set_solver|done].
Qed.

Lemma flow_store c n id d : flow k base recv (mk_ssh c n) -> c_ostate c = 0 -> zlen d <= c_local_window c ->
  flow k base (recv ++ [MSG_CHANNEL_DATA id d])
    (mk_ssh (with_output (c_output c ++ d) (with_local_window (c_local_window c - zlen d) c)) n).
Proof.
  intros V Ho Hw. pose proof (zlen_nonneg d).
  fsplit V; cbn [size adjust payload]; rewrite ?Z.add_0_r, ?app_assoc; try lia; try done.
  - rewrite f_output by done. done.
  - intros _. by rewrite f_output.
  - rewrite zlen_app. unfold held in *. cfields. lia.
  - intros H'. destruct (f_eof H') as (x & Hx & E). exists x. split; [set_solver|done].
Qed.

Lemma flow_hold c n id code d e : flow k base recv (mk_ssh c n) ->
  c_extended_usage c = CHAN_EXTENDED_WRITE -> zlen d <= c_local_window c ->
  e = c_extended c ++ d \/ e = c_extended c ->
  flow k base (recv ++ [MSG_CHANNEL_EXTENDED_DATA id code d])
    (mk_ssh (with_local_window (c_local_window c - zlen d) (with_extended e c)) n).
Proof.
  intros V Hu Hw He. pose proof (zlen_nonneg d).
  fsplit V; cbn [size adjust payload]; rewrite ?Z.add_0_r, ?app_nil_r; try lia; try done.
  - unfold held in *. cfields. rewrite Hu in *. cbn [Z.eqb Pos.eqb CHAN_EXTENDED_WRITE] in *.
    destruct He as [->| ->]; rewrite ?zlen_app; lia.
  - intros H'. destruct (f_eof H') as (x & Hx & E). exists x. split; [set_solver|done].
Qed.

Lemma flow_open_window c n id a : flow k base recv (mk_ssh c n) -> 0 <= a -> c_remote_window c + a < 2 ^ 32 ->
  flow k base (recv ++ [MSG_CHANNEL_WINDOW_ADJUST id a]) (mk_ssh (with_remote_window (c_remote_window c + a) c) n).
Proof.
  intros V Ha Hw. fsplit V; cbn [size adjust payload]; rewrite ?Z.add_0_r, ?app_nil_r; try lia; try done.
  intros H'. destruct (f_eof H') as (x & Hx & E). exists x. split; [set_solver|done].
Qed.

(** *** The handlers *)

Lemma recv_data id d s : flow k base recv s -> acceptable k recv s (MSG_CHANNEL_DATA id d) ->
  wp resource (deliver (MSG_CHANNEL_DATA id d))
    (fun _ s' => flow k base (recv ++ [MSG_CHANNEL_DATA id d]) s') s.
Proof.
  intros V A. unfold deliver, channel_input_data. wps.
  pose proof (a_window _ _ _ _ A) as Hw. pose proof (a_packet _ _ _ _ A) as Hp. cbn [size] in *.
  destruct (f_type _ _ _ _ V) as [T|[T To]].
  2: { rewrite bool_decide_false by (rewrite T; naive_solver). wps.
       apply flow_dropped; [done..|]. right. lia. }
  rewrite bool_decide_true by auto. cbn [negb].
  pose proof (ko_lmax _ K). rewrite <- (app_nil_r (wire_string d)), parse_wire_string by lia.
  change (negb (at_end [])) with false. cbv iota zeta.
  destruct (f_plain _ _ _ _ V) as (Hd & _). rewrite Hd.
  destruct (f_config _ _ _ _ V) as (_ & Hlm & _). rewrite Hlm.
  pose proof (f_sum _ _ _ _ V) as S. pose proof (f_lpos _ _ _ _ V) as [L1 L2]. pose proof (ko_lwin _ K).
  assert (0 <= held (s_chan s)) by (unfold held; destruct (_ =? _); [apply zlen_nonneg|lia]).
  pose proof (zlen_nonneg (c_output (s_chan s))). pose proof (zlen_nonneg d).
  rewrite (wrap_small 32 (c_local_window _ - _)) by lia.
  rewrite (wrap_small 32 (c_local_consumed _ + _)) by lia.
  rewrite !Z.gtb_ltb, !(proj2 (Z.ltb_ge _ _)) by lia. destruct s as [c n]. cbn [s_chan s_net] in *.
  unfold CHAN_OUTPUT_OPEN. destruct (Z.eqb_spec (c_ostate c) 0) as [Ho|Ho]; cbn [negb]; wps.
  - apply wp_buf_put; [by wps|]. intros _. wps.
    eapply (flow_same K); [exact (flow_store c (net_pop n) id d (flow_pop K _ _ V) Ho Hw)|]. by split_and!.
  - exact (flow_discard c n id d V Ho Hw).
Qed.

Lemma recv_extended id code d s : flow k base recv s ->
  acceptable k recv s (MSG_CHANNEL_EXTENDED_DATA id code d) ->
  wp resource (deliver (MSG_CHANNEL_EXTENDED_DATA id code d))
    (fun _ s' => flow k base (recv ++ [MSG_CHANNEL_EXTENDED_DATA id code d]) s') s.
Proof.
  intros V A. unfold deliver, channel_input_extended_data. wps.
  pose proof (a_window _ _ _ _ A) as Hw. pose proof (a_packet _ _ _ _ A) as Hp. cbn [size] in *.
  assert (flow k base (recv ++ [MSG_CHANNEL_EXTENDED_DATA id code d]) s) as Vdrop
    by (apply flow_dropped; auto).
  wif; [by wps|].
  assert (has (c_flags (s_chan s)) CHAN_EOF_RCVD = false) as ->.
  { destruct (has _ CHAN_EOF_RCVD) eqn:E; [|done]. destruct (f_eof _ _ _ _ V E) as (x & Hx & Ex).
    pose proof (a_eof _ _ _ _ A eq_refl) as F. rewrite Forall_forall in F. specialize (F x Hx). congruence. }
  cbn [andb]. pose proof (a_code _ _ _ _ A id code d eq_refl). rewrite parse_poke_u32 by done.
  wif; [by wps|]. zbool.
  pose proof (ko_lmax _ K). rewrite <- (app_nil_r (wire_string d)), parse_wire_string by lia.
  change (negb (at_end [])) with false. cbv iota.
  rewrite Z.gtb_ltb, (proj2 (Z.ltb_ge _ _)) by lia.
  pose proof (f_sum _ _ _ _ V) as S. pose proof (f_lpos _ _ _ _ V) as [L1 L2]. pose proof (ko_lwin _ K).
  assert (0 <= held (s_chan s)) by (unfold held; destruct (_ =? _); [apply zlen_nonneg|lia]).
  pose proof (zlen_nonneg (c_output (s_chan s))). pose proof (zlen_nonneg d).
  rewrite (wrap_small 32) by lia. destruct s as [c n]. cbn [s_chan s_net] in *.
  pose proof (flow_pop K _ _ V) as V'. wps. apply wp_buf_put; [wps|intros _; wps].
  - eapply (flow_same K); [apply (flow_hold c (net_pop n) id code d (c_extended c) V'); auto|]. by split_and!.
  - eapply (flow_same K); [apply (flow_hold c (net_pop n) id code d (c_extended c ++ d) V'); auto|]. by split_and!.
Qed.

Lemma recv_adjust id a s : flow k base recv s -> acceptable k recv s (MSG_CHANNEL_WINDOW_ADJUST id a) ->
  wp resource (deliver (MSG_CHANNEL_WINDOW_ADJUST id a))
    (fun _ s' => flow k base (recv ++ [MSG_CHANNEL_WINDOW_ADJUST id a]) s') s.
Proof.
  intros V A. unfold deliver, channel_input_window_adjust. wps.
  destruct (a_adjust _ _ _ _ A) as [H1 H2]. cbn [adjust] in *. pose proof (f_rpos _ _ _ _ V).
  rewrite <- (app_nil_r (POKE_U32 a)), parse_poke_u32 by lia. change (negb (at_end [])) with false. cbv iota zeta.
  rewrite (wrap_small 32) by lia. rewrite (proj2 (Z.ltb_ge _ _)) by lia. wps.
  destruct s as [c n]. by apply flow_open_window.
Qed.

Lemma recv_eof id s : flow k base recv s ->
  wp resource (deliver (MSG_CHANNEL_EOF id)) (fun _ s' => flow k base (recv ++ [MSG_CHANNEL_EOF id]) s') s.
Proof.
  intros V. pose proof (flow_control (MSG_CHANNEL_EOF id) s V I) as V1. clear V.
  assert (MSG_CHANNEL_EOF id ∈ recv ++ [MSG_CHANNEL_EOF id]) as Hin by set_solver.
  revert V1 Hin. generalize (recv ++ [MSG_CHANNEL_EOF id]) as rv. intros rv V1 Hin.
  unfold deliver, channel_input_ieof. change (negb (at_end [])) with false. cbv iota. wp1.
  eapply wp_mono; [apply rcvd_ieof_quiet; exact (flow_set_up _ V1)|]. cbv beta. intros _ s1 Q1.
  assert (flow k base rv s1) as V2.
  { eapply (flow_quiet K); [|exact Q1]. fsplit V1. intros _. by exists (MSG_CHANNEL_EOF id). }
  wps. wif; [|by wps]. zbool. wps.
  assert (flow k base rv
    (mk_ssh (with_istate CHAN_INPUT_WAIT_DRAIN (s_chan s1)) (s_net s1))) as V3.
  { unfold CHAN_INPUT_WAIT_DRAIN, CHAN_INPUT_OPEN in *. destruct s1 as [c n]. fsplit V2; try lia.
    intros _. apply f_input. lia. }
  wif; [|by wps]. by apply (flow_hushed K _ hushed_ibuf_empty).
Qed.

(** Receiving an acceptable message keeps the books, and ends the process only
    for lack of resources. *)
Lemma recv_flow m s : flow k base recv s -> acceptable k recv s m ->
  wp resource (deliver m) (fun _ s' => flow k base (recv ++ [m]) s') s.
Proof.
  intros V A. destruct m.
  - by apply recv_data.
  - by apply recv_extended.
  - by apply recv_adjust.
  - by apply recv_eof.
  - apply (flow_hushed K _ hushed_rcvd_oclose), flow_control; done.
  - apply (flow_hushed K _ hushed_rcvd_eow), flow_control; done.
Qed.
End Receive.

(** ** Two ends *)

(** An end: its channel and connection, and what it has received. *)
Record end_ := mk_end { e_ssh : ssh; e_recv : list msg }.
Definition e_sent (x : end_) : list msg := n_sent (s_net (e_ssh x)).
Definition e_sys (x : end_) : list syscall := n_sys (s_net (e_ssh x)).

(** Events that need no message. *)
Definition local (e : event) : bool :=
  match e with EvPre | EvPost _ _ | EvPoll | EvGc | EvForceClose _ => true | _ => false end.

Abbreviation exec_plain := (exec no_filter no_outfilter no_callback no_callback).

(** What one end does: a local event, or the next message of the other end. *)
Inductive end_step (peer : end_) : end_ -> end_ -> Prop :=
| step_local e x s' : local e = true -> exec_plain e (e_ssh x) = (Ok tt, s') ->
    end_step peer x (mk_end s' (e_recv x))
| step_recv m x s' : e_sent peer !! length (e_recv x) = Some m -> deliver m (e_ssh x) = (Ok tt, s') ->
    end_step peer x (mk_end s' (e_recv x ++ [m])).

Inductive pair_step : end_ * end_ -> end_ * end_ -> Prop :=
| step_left x x' y : end_step y x x' -> pair_step (x, y) (x', y)
| step_right x y y' : end_step x y y' -> pair_step (x, y) (x, y').

(** Each end was told the window and packet size of the other. *)
Definition agree (ka kb : config) : Prop := k_rwin ka = k_lwin kb /\ k_rmax ka <= k_lmax kb.

Record end_ok (k : config) (x peer : end_) : Prop := {
  eo_flow : flow k [] (e_recv x) (e_ssh x);
  eo_proto : pinv (e_ssh x);
  eo_recv : e_recv x `prefix_of` e_sent peer
}.

Definition pair_ok (ka kb : config) (p : end_ * end_) : Prop :=
  end_ok ka p.1 p.2 /\ end_ok kb p.2 p.1.

Lemma total_prefix f ms ms' : (forall m, 0 <= f m) -> ms `prefix_of` ms' -> total f ms <= total f ms'.
Proof.
  intros Hf [l ->]. rewrite total_app. assert (0 <= total f l); [|lia].
  unfold total. induction l as [|m l IH]; cbn; [lia|]. pose proof (Hf m). lia.
Qed.

Lemma size_nonneg m : 0 <= size m.
Proof. destruct m; cbn; try lia; apply zlen_nonneg. Qed.

Lemma prefix_snoc_lookup (ms ms' : list msg) m : ms `prefix_of` ms' -> ms' !! length ms = Some m ->
  ms ++ [m] `prefix_of` ms'.
Proof.
  intros [l ->] H. rewrite lookup_app_r, Nat.sub_diag in H by lia.
  destruct l as [|m' l]; [done|]. cbn in H. simplify_eq. exists l. by rewrite <- app_assoc.
Qed.

Section Pair.
Context {ka kb : config} (Ka : config_ok ka) (Kb : config_ok kb)
        (AB : agree ka kb) (BA : agree kb ka).

(** The next message of the other end fits the window we announced. *)
Lemma next_acceptable x y m : pair_ok ka kb (x, y) -> e_sent y !! length (e_recv x) = Some m ->
  acceptable ka (e_recv x) (e_ssh x) m.
Proof.
  intros [X Y] Hm. cbn [fst snd] in *. destruct X as [VX PX RX], Y as [VY PY RY].
  pose proof (prefix_snoc_lookup _ _ _ RX Hm) as RX'.
  pose proof (total_prefix size _ _ size_nonneg RX') as S1. rewrite total_app, total_one in S1.
  pose proof (f_small _ _ _ _ VY) as Fy. pose proof (f_small _ _ _ _ VX) as Fx.
  assert (m ∈ e_sent y) as Hin by (by eapply list_elem_of_lookup_2).
  pose proof (proj1 (Forall_forall _ _) Fy m Hin) as (Hsz & Hadj & Hcode).
  destruct AB as [AB1 AB2], BA as [BA1 BA2].
  pose proof (f_rwin _ _ _ _ VY) as RW. pose proof (f_rpos _ _ _ _ VY).
  pose proof (f_lwin _ _ _ _ VX) as LW.
  pose proof (f_rwin _ _ _ _ VX) as RWx. pose proof (f_lwin _ _ _ _ VY) as LWy.
  pose proof (f_sum _ _ _ _ VY) as SY. pose proof (f_lpos _ _ _ _ VY) as [LY1 LY2].
  pose proof (ko_lwin _ Kb). pose proof (zlen_nonneg (c_output (s_chan (e_ssh y)))).
  assert (0 <= held (s_chan (e_ssh y))) by (unfold held; destruct (_ =? _); [apply zlen_nonneg|lia]).
  unfold e_sent in *.
  assert (total adjust (e_recv y) <= total adjust (n_sent (s_net (e_ssh x)))) as A1.
  { destruct RY as [l E]. rewrite E, total_app. rewrite E, Forall_app in Fx. destruct Fx as [_ Fl].
    assert (0 <= total adjust l); [|lia]. clear E. unfold total.
    induction Fl as [|q l Hq _ IH]; cbn; [lia|]. cbn in Hq. lia. }
  pose proof (total_prefix size _ _ size_nonneg RY) as S2.
  assert (total adjust (e_recv x) + adjust m <= total adjust (n_sent (s_net (e_ssh y)))) as A2.
  { destruct RX' as [l E]. rewrite E, !total_app, total_one. rewrite E, !Forall_app in Fy.
    destruct Fy as [_ Fl]. assert (0 <= total adjust l); [|lia]. clear E. unfold total.
    induction Fl as [|q l Hq _ IH]; cbn; [lia|]. cbn in Hq. lia. }
  split; try lia.
  - intros Hd. destruct RX' as [l E]. pose proof (p_trace _ _ _ _ PY) as T.
    rewrite E, <- app_assoc in T. apply Forall_forall. intros q Hq.
    destruct (is_eof q) eqn:Eq; [|done]. exfalso.
    apply list_elem_of_split in Hq as (l1 & l2 & Hl). rewrite Hl, <- app_assoc in T. cbn in T.
    destruct (proto_split _ _ _ (mk_is_Some _ _ T)) as (st & st' & _ & Hs & Hp).
    destruct q; try done. destruct st as [[] []]; simplify_eq/=.
    apply proto_after_eof in Hp. rewrite Forall_app, Forall_cons in Hp. by destruct Hp as (_ & [? _] & _), m.
  - intros id code d ->. cbn in Hcode. subst. unfold SSH2_EXTENDED_DATA_STDERR. lia.
Qed.
End Pair.

Lemma flow_rebase {k base base' recv s} : flow k base recv s -> base' `prefix_of` n_sent (s_net s) ->
  flow k base' recv s.
Proof. intros [] ?. by split. Qed.

Lemma exec_flow {k base recv} (K : config_ok k) e : local e = true ->
  preserves resource (flow k base recv) (exec_plain e).
Proof.
  intros He s V. unfold exec. wps. destruct e; try done; cbv zeta.
  - wif; [by apply (flow_pre_open K)|by wps].
  - wif; [|by wps]. apply bool_decide_eq_true in Hif. wps.
    eapply wp_mono; [apply (flow_post_open K (base := base) (recv := recv))|].
    + split; [|exact Hif]. eapply (flow_same K); [exact V|]. by split_and!.
    + cbv beta. by intros _ s' [V' _].
  - wp1. eapply wp_mono; [exact (flow_output_poll K _ V)|]. intros. by wps.
  - wp1. eapply wp_mono; [exact (flow_garbage_collect K _ _ V)|]. intros. by wps.
  - by apply (flow_force_close K).
Qed.

Lemma exec_proto e : preserves pexit pinv (exec_plain e).
Proof. apply p_exec; intros; apply preserves_ret. Qed.

Lemma deliver_proto m : preserves pexit pinv (deliver m).
Proof.
  destruct m; [apply p_input_data|apply p_input_extended_data|apply p_input_window_adjust
    |apply p_input_ieof|apply p_input_oclose|apply p_rcvd_eow].
Qed.

(** What a computation that returned leaves behind. *)
Lemma wp_ok {A X} (m : CM A) Q s a s' : wp X m Q s -> m s = (Ok a, s') -> Q a s'.
Proof. unfold wp. intros H E. by rewrite E in H. Qed.

Section PairInv.
Context {ka kb : config} (Ka : config_ok ka) (Kb : config_ok kb)
        (AB : agree ka kb) (BA : agree kb ka).

Lemma end_step_ok x x' y : pair_ok ka kb (x, y) -> end_step y x x' -> pair_ok ka kb (x', y).
Proof.
  intros P S. pose proof P as [X Y]. cbn [fst snd] in *.
  pose proof (flow_rebase (eo_flow _ _ _ X) (reflexivity (e_sent x))) as V.
  assert (exists rv, e_recv x' = rv /\ flow ka (e_sent x) rv (e_ssh x') /\ pinv (e_ssh x') /\
    rv `prefix_of` e_sent y) as (rv & Er & V' & P' & R').
  { destruct S as [e x s' He E|m x s' Hm E]; cbn [e_recv e_ssh]; eexists; (split; [reflexivity|]).
    - split_and!; [exact (wp_ok _ _ _ _ _ (exec_flow Ka e He _ V) E)
        |exact (wp_ok _ _ _ _ _ (exec_proto e _ (eo_proto _ _ _ X)) E)|apply X].
    - split_and!; [exact (wp_ok _ _ _ _ _ (recv_flow Ka m _ V (next_acceptable Kb AB BA _ _ _ P Hm)) E)
        |exact (wp_ok _ _ _ _ _ (deliver_proto m _ (eo_proto _ _ _ X)) E)|].
      apply prefix_snoc_lookup; [apply X|done]. }
  split; cbn [fst snd]; split; rewrite ?Er; try done; try apply Y.
  - exact (flow_rebase V' (prefix_nil _)).
  - etransitivity; [apply Y|apply V'].
Qed.
End PairInv.

Lemma pair_ok_swap ka kb x y : pair_ok ka kb (x, y) -> pair_ok kb ka (y, x).
Proof. by intros [? ?]. Qed.

Lemma pair_steps_ok ka kb p p' : config_ok ka -> config_ok kb -> agree ka kb -> agree kb ka ->
  rtc pair_step p p' -> pair_ok ka kb p -> pair_ok ka kb p'.
Proof.
  intros Ka Kb AB BA. induction 1 as [|p q r S _ IH]; [done|]. intros P. apply IH.
  destruct S as [x x' y S|x y y' S].
  - exact (end_step_ok Ka Kb AB BA _ _ _ P S).
  - apply pair_ok_swap. apply pair_ok_swap in P. exact (end_step_ok Kb Ka BA AB _ _ _ P S).
Qed.

(** *** An end as it is when the channel has just been opened *)

Record opened (k : config) (x : end_) : Prop := {
  op_recv : e_recv x = []; op_sent : e_sent x = []; op_sys : e_sys x = [];
  op_chan : exists c, s_chan (e_ssh x) = c /\ c_type c = SSH_CHANNEL_OPEN /\ c_have_remote_id c = true /\
    c_istate c = 0 /\ c_ostate c = 0 /\ c_flags c = 0 /\ c_datagram c = false /\
    c_input_filter c = false /\ c_output_filter c = false /\ c_detach_user c = false /\
    c_input c = [] /\ c_output c = [] /\ c_extended c = [] /\
    c_rfd c = k_rfd k /\ c_wfd c = k_wfd k /\ c_efd c = k_efd k /\ c_extended_usage c = k_usage k /\
    c_local_window c = k_lwin k /\ c_local_window_max c = k_lwin k /\ c_local_consumed c = 0 /\
    c_local_maxpacket c = k_lmax k /\ c_remote_window c = k_rwin k /\ c_remote_maxpacket c = k_rmax k
}.

Lemma opened_ok k x y : config_ok k -> opened k x -> end_ok k x y.
Proof.
  intros K [R S T (c & Ec & C)]. destruct_and! C. unfold e_sent, e_sys in *.
  pose proof (ko_lwin _ K). pose proof (ko_rwin _ K).
  split; [|apply fresh_pinv; unfold fresh; rewrite Ec; auto|rewrite R; apply prefix_nil].
  assert (held c = 0) as Hh by (unfold held; rewrite H10; by destruct (_ =? _)).
  split; rewrite ?R, ?S, ?T, ?Ec, ?Hh, ?H3, ?H8, ?H9; auto; unfold gone; auto; cbn; try lia; try done.
  change (zlen (@nil Z)) with 0. lia.
Qed.

(** C9: End-to-end delivery: however the two ends of a channel interleave reads,
    writes, polls, closes and the delivery of each other's messages, what one end
    has written to its descriptor is a prefix of what the other end has read from
    its own: nothing is altered, reordered, duplicated or invented.  And nothing
    is held back: once the sender's buffer is empty and the receiver, still open,
    has taken every message and drained its buffer, it has written exactly what
    was read. *)
Theorem pair_delivery ka kb xa xb x y :
  config_ok ka -> config_ok kb -> agree ka kb -> agree kb ka -> opened ka xa -> opened kb xb ->
  rtc pair_step (xa, xb) (x, y) ->
  writes (k_wfd kb) (e_sys y) `prefix_of` reads (k_rfd ka) (e_sys x) /\
  writes (k_wfd ka) (e_sys x) `prefix_of` reads (k_rfd kb) (e_sys y) /\
  (c_istate (s_chan (e_ssh x)) <> 3 -> c_input (s_chan (e_ssh x)) = [] -> e_recv y = e_sent x ->
   c_ostate (s_chan (e_ssh y)) = 0 -> c_output (s_chan (e_ssh y)) = [] ->
   writes (k_wfd kb) (e_sys y) = reads (k_rfd ka) (e_sys x)).
Proof.
  intros Ka Kb AB BA Oa Ob R.
  destruct (pair_steps_ok ka kb _ _ Ka Kb AB BA R) as [[VX _ RX] [VY _ RY]];
    [split; by apply opened_ok|]. cbn [fst snd] in *. unfold e_sys, e_sent in *.
  assert (forall k k' u v, flow k [] (e_recv u) (e_ssh u) -> flow k' [] (e_recv v) (e_ssh v) ->
    e_recv v `prefix_of` n_sent (s_net (e_ssh u)) ->
    writes (k_wfd k') (n_sys (s_net (e_ssh v))) `prefix_of` reads (k_rfd k) (n_sys (s_net (e_ssh u)))) as D.
  { intros k k' u v U V P. etransitivity; [|apply U]. transitivity (stream (e_recv v)).
    - etransitivity; [|apply V]. by apply prefix_app_r.
    - destruct P as [l ->]. rewrite stream_app. by apply prefix_app_r. }
  split_and!; [by eapply D|by eapply D|]. intros Hi Hin Hr Ho Hout.
  pose proof (f_input _ _ _ _ VX Hi) as E1. pose proof (f_output _ _ _ _ VY Ho) as E2.
  rewrite Hin, app_nil_r in E1. rewrite Hout, app_nil_r, Hr in E2. congruence.
Qed.

(** C10: Flow control: between two such ends no message ever exceeds the window or
    the packet size its receiver announced, the window an end announces never
    exceeds the initial one, and neither a local event nor the delivery of the
    next message ends a process except for lack of memory or a broken
    connection: no "peer ignored channel window", no window overflow, no data
    after EOF. *)
Theorem pair_flow_control ka kb xa xb x y :
  config_ok ka -> config_ok kb -> agree ka kb -> agree kb ka -> opened ka xa -> opened kb xb ->
  rtc pair_step (xa, xb) (x, y) ->
  0 <= c_local_window (s_chan (e_ssh x)) <= k_lwin ka /\
  (forall m, e_sent y !! length (e_recv x) = Some m ->
     size m <= c_local_window (s_chan (e_ssh x)) /\ size m <= k_lmax ka /\
     wp resource (deliver m) (fun _ _ => True) (e_ssh x)) /\
  (forall e, local e = true -> wp resource (exec_plain e) (fun _ _ => True) (e_ssh x)).
Proof.
  intros Ka Kb AB BA Oa Ob R.
  pose proof (pair_steps_ok ka kb _ _ Ka Kb AB BA R ltac:(split; by apply opened_ok)) as P.
  pose proof P as [[VX _ _] _]. cbn [fst snd] in *. split_and!.
  - apply VX.
  - pose proof (f_sum _ _ _ _ VX). pose proof (f_lpos _ _ _ _ VX).
    pose proof (zlen_nonneg (c_output (s_chan (e_ssh x)))).
    assert (0 <= held (s_chan (e_ssh x))) by (unfold held; destruct (_ =? _); [apply zlen_nonneg|lia]). lia.
  - intros m Hm. pose proof (next_acceptable Kb AB BA _ _ _ P Hm) as A.
    split_and!; [apply A..|]. eapply wp_mono; [by apply (recv_flow Ka m _ VX)|done].
  - intros e He. eapply wp_mono; [by apply (exec_flow Ka e He _ VX)|done].
Qed.

(** *** A concrete exchange *)

Definition demo_config : config := mk_config 5 6 (-1) CHAN_EXTENDED_IGNORE 64 32 64 32.
Definition demo_end : end_ := mk_end demo_ssh [].
Definition demo_io (rd : list Z) (wr : Z) : io := mk_io (inr rd) (inr wr) (inr []) (inr 0).

(** Runs a step that is known to succeed. *)
Definition after_local (e : event) (x : end_) : end_ := mk_end (exec_plain e (e_ssh x)).2 (e_recv x).
Definition after_recv (m : msg) (x : end_) : end_ := mk_end (deliver m (e_ssh x)).2 (e_recv x ++ [m]).

Definition demo_a : end_ := Eval vm_compute in
  after_local EvPoll (after_local (EvPost 1 (demo_io (str "hello") 0)) demo_end).
Definition demo_b : end_ := Eval vm_compute in
  after_local (EvPost 2 (demo_io [] 5)) (after_recv (MSG_CHANNEL_DATA 7 (str "hello")) demo_end).

Lemma demo_config_ok : config_ok demo_config.
Proof. split; cbn; unfold SSHBUF_SIZE_MAX; lia. Qed.

Lemma demo_opened : opened demo_config demo_end.
Proof. split; try reflexivity. exists demo_channel. by split_and!. Qed.

Lemma demo_steps : rtc pair_step (demo_end, demo_end) (demo_a, demo_b).
Proof.
  eapply rtc_l; [apply step_left, (step_local _ (EvPost 1 (demo_io (str "hello") 0)) demo_end
    (exec_plain (EvPost 1 (demo_io (str "hello") 0)) demo_ssh).2); [done|vm_compute; reflexivity]|].
  eapply rtc_l; [apply step_left, (step_local _ EvPoll _ (e_ssh demo_a)); [done|vm_compute; reflexivity]|].
  eapply rtc_l; [apply step_right, (step_recv _ (MSG_CHANNEL_DATA 7 (str "hello")) demo_end
    (deliver (MSG_CHANNEL_DATA 7 (str "hello")) demo_ssh).2); vm_compute; reflexivity|].
  eapply rtc_l; [apply step_right, (step_local _ (EvPost 2 (demo_io [] 5)) _ (e_ssh demo_b));
    [done|vm_compute; reflexivity]|].
  apply rtc_refl.
Qed.

Lemma pair_delivery_witness :
  writes 6 (e_sys demo_b) = str "hello" /\ writes 6 (e_sys demo_b) `prefix_of` reads 5 (e_sys demo_a).
Proof.
  split; [vm_compute; reflexivity|].
  apply (pair_delivery demo_config demo_config demo_end demo_end demo_a demo_b
    demo_config_ok demo_config_ok); try (split; cbn; lia); try exact demo_opened. exact demo_steps.
Defined.

Lemma pair_flow_control_witness : 0 <= c_local_window (s_chan (e_ssh demo_a)) <= 64.
Proof.
  apply (pair_flow_control demo_config demo_config demo_end demo_end demo_a demo_b
    demo_config_ok demo_config_ok); try (split; cbn; lia); try exact demo_opened. exact demo_steps.
Defined.

(** * ChanLeak: where the window accounts of channels go wrong

    Three paths on which an end and its peer come to disagree about the window,
    outside the hypotheses of ChanPair or allowed by its inequalities. *)

(** ** Datagrams *)

(** A tunnel end: datagrams, a window of 16 bytes. *)
Definition tun_channel : Channel :=
  with_datagram true (with_local_window 16 (with_local_window_max 16 (with_remote_window 16
    (with_ctype (str "tun@openssh.com") demo_channel)))).
Definition tun_end : end_ := mk_end (mk_ssh tun_channel demo_net) [].

(** The sender reads one datagram and sends it; the receiver takes it, writes it
    out and gives the window back; the sender takes the adjustment. *)
Definition tun_sent : end_ := after_local EvPoll (after_local (EvPost 1 (demo_io (str "hello") 0)) tun_end).
Definition tun_done : end_ :=
  after_local (EvPost 2 (demo_io [] 5)) (after_recv (MSG_CHANNEL_DATA 7 (str "hello")) tun_end).
Definition tun_back : end_ := after_recv (MSG_CHANNEL_WINDOW_ADJUST 7 9) tun_sent.


(** ** Data that is dropped *)

(** A channel that holds a full window of unwritten output. *)
Definition full_channel : Channel := with_local_window 0 (with_output (zeros 64) demo_channel).
Definition full_end : end_ := mk_end (mk_ssh full_channel demo_net) [].
(** The write fails. *)
Definition failed_end : end_ :=
  after_local (EvPost 2 (mk_io (inl EAGAIN) (inl EPIPE) (inl EAGAIN) (inl EAGAIN))) full_end.

(** A client whose standard error could not be written and was closed. *)
Definition stderr_gone : Channel := with_extended_usage CHAN_EXTENDED_WRITE demo_channel.
Definition stderr_end : end_ :=
  after_recv (MSG_CHANNEL_EXTENDED_DATA 7 1 (zeros 32)) (mk_end (mk_ssh stderr_gone demo_net) []).

