(* ===== verification/KexNames.v ===== *)
(** * Algorithm name lists: [kex-names.c]

    The table of key exchange methods and the list operations with which the
    configuration is turned into a proposal.  Allocations that may fail draw
    their answer from the state of the computation (an exhausted list means
    success); the [x] functions, which end the process, are taken to succeed. *)

From S2P Require Import Prelude Ssherr Cstring Match MatchThms.

(** ** The method table *)

Definition SSH_DIGEST_MAX_LENGTH : Z := 64.
Definition SSH_DIGEST_MD5 : Z := 0.
Definition SSH_DIGEST_SHA1 : Z := 1.
Definition SSH_DIGEST_SHA256 : Z := 2.
Definition SSH_DIGEST_SHA384 : Z := 3.
Definition SSH_DIGEST_SHA512 : Z := 4.

Definition KEX_NOT_PQ : Z := 0.
Definition KEX_IS_PQ : Z := 1.

(** enum kex_exchange. *)
Definition KEX_DH_GRP1_SHA1 : Z := 1.
Definition KEX_DH_GRP14_SHA1 : Z := 2.
Definition KEX_DH_GRP14_SHA256 : Z := 3.
Definition KEX_DH_GRP16_SHA512 : Z := 4.
Definition KEX_DH_GRP18_SHA512 : Z := 5.
Definition KEX_DH_GEX_SHA1 : Z := 6.
Definition KEX_DH_GEX_SHA256 : Z := 7.
Definition KEX_ECDH_SHA2 : Z := 8.
Definition KEX_C25519_SHA256 : Z := 9.
Definition KEX_KEM_SNTRUP761X25519_SHA512 : Z := 10.
Definition KEX_KEM_MLKEM768X25519_SHA256 : Z := 11.
Definition KEX_KEM_MLKEM768ECDH_SHA256 : Z := 12.
Definition KEX_MAX : Z := 13.

Record kexalg := mk_kexalg {
  ka_name : list Z;
  ka_type : Z;
  ka_ec_nid : Z;
  ka_hash_alg : Z;
  ka_pq_alg : Z
}.

(** OpenSSL's numbers of the three NIST curves. *)
Record curve_nids := { nid_p256 : Z; nid_p384 : Z; nid_p521 : Z }.

Section Table.
Context (nids : curve_nids).

Definition kexalgs : list kexalg := [
  mk_kexalg (str "diffie-hellman-group1-sha1") KEX_DH_GRP1_SHA1 0 SSH_DIGEST_SHA1 KEX_NOT_PQ;
  mk_kexalg (str "diffie-hellman-group14-sha1") KEX_DH_GRP14_SHA1 0 SSH_DIGEST_SHA1 KEX_NOT_PQ;
  mk_kexalg (str "diffie-hellman-group14-sha256") KEX_DH_GRP14_SHA256 0 SSH_DIGEST_SHA256 KEX_NOT_PQ;
  mk_kexalg (str "diffie-hellman-group16-sha512") KEX_DH_GRP16_SHA512 0 SSH_DIGEST_SHA512 KEX_NOT_PQ;
  mk_kexalg (str "diffie-hellman-group18-sha512") KEX_DH_GRP18_SHA512 0 SSH_DIGEST_SHA512 KEX_NOT_PQ;
  mk_kexalg (str "diffie-hellman-group-exchange-sha1") KEX_DH_GEX_SHA1 0 SSH_DIGEST_SHA1 KEX_NOT_PQ;
  mk_kexalg (str "diffie-hellman-group-exchange-sha256") KEX_DH_GEX_SHA256 0 SSH_DIGEST_SHA256 KEX_NOT_PQ;
  mk_kexalg (str "ecdh-sha2-nistp256") KEX_ECDH_SHA2 (nid_p256 nids) SSH_DIGEST_SHA256 KEX_NOT_PQ;
  mk_kexalg (str "ecdh-sha2-nistp384") KEX_ECDH_SHA2 (nid_p384 nids) SSH_DIGEST_SHA384 KEX_NOT_PQ;
  mk_kexalg (str "ecdh-sha2-nistp521") KEX_ECDH_SHA2 (nid_p521 nids) SSH_DIGEST_SHA512 KEX_NOT_PQ;
  mk_kexalg (str "mlkem768nistp256-sha256") KEX_KEM_MLKEM768ECDH_SHA256 (nid_p256 nids) SSH_DIGEST_SHA256 KEX_IS_PQ;
  mk_kexalg (str "curve25519-sha256") KEX_C25519_SHA256 0 SSH_DIGEST_SHA256 KEX_NOT_PQ;
  mk_kexalg (str "curve25519-sha256@libssh.org") KEX_C25519_SHA256 0 SSH_DIGEST_SHA256 KEX_NOT_PQ;
  mk_kexalg (str "sntrup761x25519-sha512") KEX_KEM_SNTRUP761X25519_SHA512 0 SSH_DIGEST_SHA512 KEX_IS_PQ;
  mk_kexalg (str "sntrup761x25519-sha512@openssh.com") KEX_KEM_SNTRUP761X25519_SHA512 0 SSH_DIGEST_SHA512 KEX_IS_PQ;
  mk_kexalg (str "mlkem768x25519-sha256") KEX_KEM_MLKEM768X25519_SHA256 0 SSH_DIGEST_SHA256 KEX_IS_PQ
].

(** [xextendf(sp, sep, "%s", s)]: the new value of the string at [sp]. *)
Definition xextendf (sp : option (list Z)) (sep s : list Z) : list Z :=
  match sp with
  | None | Some [] => s
  | Some p => p ++ sep ++ s
  end.

Definition kex_alg_list (sep : Z) : option (list Z) :=
  foldl (fun ret k => Some (xextendf ret [sep] (ka_name k))) None kexalgs.

(** The first entry with the given name. *)
Definition kex_alg_by_name (name : list Z) : option kexalg :=
  List.find (fun k => bool_decide (ka_name k = name)) kexalgs.

Definition kex_name_valid (name : list Z) : bool :=
  if kex_alg_by_name name is Some _ then true else false.

Definition kex_is_pq_from_name (name : list Z) : bool :=
  if kex_alg_by_name name is Some k then ka_pq_alg k =? KEX_IS_PQ else false.

Definition kex_type_from_name (name : list Z) : Z :=
  if kex_alg_by_name name is Some k then ka_type k else 0.

Definition kex_hash_from_name (name : list Z) : Z :=
  if kex_alg_by_name name is Some k then ka_hash_alg k else -1.

Definition kex_nid_from_name (name : list Z) : Z :=
  if kex_alg_by_name name is Some k then ka_ec_nid k else -1.

(** The loop over the tokens, which ends at an empty one. *)
Fixpoint names_valid_loop (ts : list (list Z)) : bool :=
  match ts with
  | [] => true
  | p :: ts =>
      if bool_decide (p = []) then true
      else if kex_alg_by_name p is None then false
      else names_valid_loop ts
  end.

(** [ok]: whether strdup succeeds. *)
Definition kex_names_valid (ok : bool) (names : option (list Z)) : bool :=
  match names with
  | None | Some [] => false
  | Some names => if negb ok then false else names_valid_loop (split names)
  end.
End Table.

(** ** List operations *)

Definition kex_has_any_alg (proposal algs : list Z) : bool :=
  if (match_list proposal algs).1 is Some _ then true else false.

(** Allocations that may fail. *)
Abbreviation AM := (M (list bool)).

Definition alloc : AM bool := fun oom =>
  match oom with
  | [] => (Ok true, [])
  | b :: oom => (Ok b, oom)
  end.

Definition strdup (s : list Z) : AM (option (list Z)) :=
  ok ← alloc; mret (if (ok : bool) then Some s else None).

(** The loop over the names of [b]. *)
Fixpoint names_cat_loop (ts : list (list Z)) (ret : list Z) (len : Z) : option (list Z) :=
  match ts with
  | [] => Some ret
  | p :: ts =>
      if bool_decide (p = []) then Some ret
      else if kex_has_any_alg ret p then names_cat_loop ts ret len
      else
        let '(ret1, n1) := strlcat ret (str ",") len in
        if n1 >=? len then None
        else
          let '(ret2, n2) := strlcat ret1 p len in
          if n2 >=? len then None
          else names_cat_loop ts ret2 len
  end.

Definition MAX_NAMES_LEN : Z := 1024 * 1024.

Definition kex_names_cat (a b : option (list Z)) : AM (option (list Z)) :=
  match a, b with
  | (None | Some []), None => crash
  | (None | Some []), Some b => strdup b
  | Some a, (None | Some []) => strdup a
  | Some a, Some b =>
      if zlen b >? MAX_NAMES_LEN then mret None
      else
        let len := zlen a + zlen b + 2 in
        ok1 ← alloc;
        if negb ok1 then mret None
        else
          ok2 ← alloc;
          if negb ok2 then mret None
          else mret (names_cat_loop (split b) (strlcpy a len).1 len)
  end.

(** [match_filter_*] with its two allocations. *)
Definition filtered (f : bool -> list Z -> list Z -> option (list Z)) (proposal filter : list Z)
  : AM (option (list Z)) :=
  ok1 ← alloc;
  if negb ok1 then mret (f false proposal filter)
  else ok2 ← alloc; mret (f ok2 proposal filter).

(** The loop that applies the patterns; [ret] is NULL before the first. *)
Fixpoint assemble_loop (patterns : list (list Z)) (all : list Z) (ret : option (list Z))
  : AM (option (list Z)) :=
  match patterns with
  | [] => mret ret
  | cp :: patterns =>
      if bool_decide (head cp = Some (chr "!")) then throw SSH_ERR_INVALID_ARGUMENT
      else
        matching ← filtered match_filter_allowlist all cp;
        match matching with
        | None => throw SSH_ERR_ALLOC_FAIL
        | Some matching =>
            tmp ← kex_names_cat ret (Some matching);
            match tmp with
            | None => throw SSH_ERR_ALLOC_FAIL
            | Some tmp => assemble_loop patterns all (Some tmp)
            end
        end
  end.

(** From the explicit list on: the new value of [*listp]. *)
Definition assemble_patterns (lst all : list Z) : AM (option (list Z)) :=
  ok ← alloc;
  if negb ok then throw SSH_ERR_ALLOC_FAIL
  else
    ret ← assemble_loop (split lst) all None;
    match ret with
    | None | Some [] => throw SSH_ERR_INVALID_ARGUMENT
    | Some ret => mret (Some ret)
    end.

(** The new value of [*listp]; after an error it is NULL when a list was given
    and unchanged otherwise. *)
Definition kex_assemble_names (listp def all : option (list Z)) : AM (option (list Z)) :=
  match def, all with
  | Some def, Some all =>
      match listp with
      | None | Some [] =>
          s ← strdup def;
          if s is None then throw SSH_ERR_ALLOC_FAIL else mret s
      | Some (c :: rest) =>
          if c =? chr "+" then
            tmp ← kex_names_cat (Some def) (Some rest);
            if tmp is Some lst then assemble_patterns lst all else throw SSH_ERR_ALLOC_FAIL
          else if c =? chr "-" then
            r ← filtered match_filter_denylist def rest;
            if r is None then throw SSH_ERR_ALLOC_FAIL else mret r
          else if c =? chr "^" then
            tmp ← kex_names_cat (Some rest) (Some def);
            if tmp is Some lst then assemble_patterns lst all else throw SSH_ERR_ALLOC_FAIL
          else assemble_patterns (c :: rest) all
      end
  | _, _ => throw SSH_ERR_INVALID_ARGUMENT
  end.

Example names_ex :
  kex_names_cat (Some (str "a,b")) (Some (str "b,c,a,c")) [] = (Ok (Some (str "a,b,c")), []) /\
  (kex_assemble_names (Some (str "+x*")) (Some (str "a,b")) (Some (str "a,b,x1,x2")) []).1
    = Ok (Some (str "a,b,x1,x2")) /\
  (kex_assemble_names (Some (str "-a*")) (Some (str "a,b")) (Some (str "a,b,x1")) []).1 = Ok (Some (str "b")) /\
  (kex_assemble_names (Some (str "^x2")) (Some (str "a,b")) (Some (str "a,b,x1,x2")) []).1
    = Ok (Some (str "x2,a,b")) /\
  (kex_assemble_names (Some (str "!a")) (Some (str "a,b")) (Some (str "a,b")) []).1
    = Err SSH_ERR_INVALID_ARGUMENT.
Proof. vm_compute. repeat split. Qed.
