(* ===== verification/KexNamesThms.v ===== *)
(** * What the list operations of [kex-names.c] compute

    The concatenation is an ordered union whose buffer is always large enough;
    the assembled list is the selection of known names by the patterns. *)

From S2P Require Import Prelude Ssherr Cstring Match MatchThms KexNames.

(** ** Ordered union *)

Definition add_name (l : list (list Z)) (p : list Z) : list (list Z) :=
  if bool_decide (p ∈ l) then l else l ++ [p].

(** [l] followed by the names of [k] it does not have, each once. *)
Definition add_names (l k : list (list Z)) : list (list Z) := foldl add_name l k.

(** A list of one or more non-empty names. *)
Definition names_ok (l : list (list Z)) : Prop := l <> [] /\ Forall (fun t => t <> [] /\ no_comma t) l.

Definition well_formed (s : list Z) : Prop := Forall (fun t => t <> []) (split s).

Lemma well_formed_names_ok s : well_formed s -> names_ok (split s).
Proof.
  intros H. split; [apply split_nonempty|]. apply Forall_and. split; [done|apply split_no_comma].
Qed.

Lemma until_empty_full ts : Forall (fun t => t <> []) ts -> until_empty ts = ts.
Proof.
  induction 1 as [|t ts Ht _ IH]; [done|]. cbn [until_empty]. by rewrite bool_decide_eq_false_2, IH.
Qed.

Lemma until_empty_nonempty ts : Forall (fun t => t <> []) (until_empty ts).
Proof.
  induction ts as [|t ts IH]; cbn [until_empty]; [constructor|].
  case_bool_decide; [constructor|by constructor].
Qed.

Lemma elem_of_add_names k : forall l n, n ∈ add_names l k <-> n ∈ l \/ n ∈ k.
Proof.
  induction k as [|p k IH]; intros l n; cbn [add_names foldl].
  - split; [auto|]. intros [?|H]; [done|]. by apply not_elem_of_nil in H.
  - fold (add_names (add_name l p) k). rewrite IH, elem_of_cons. unfold add_name.
    case_bool_decide; [|rewrite elem_of_app, list_elem_of_singleton]; intuition (subst; auto).
Qed.

Lemma add_names_NoDup k : forall l, NoDup l -> NoDup (add_names l k).
Proof.
  induction k as [|p k IH]; intros l Hl; [done|]. apply IH. unfold add_name. case_bool_decide; [done|].
  apply NoDup_app. split_and!; [done| |apply NoDup_singleton].
  intros x Hx H1. apply list_elem_of_singleton in H1. by subst.
Qed.

Lemma add_names_ok l k : names_ok l -> Forall (fun t => t <> [] /\ no_comma t) k -> names_ok (add_names l k).
Proof.
  intros [Hne Hl] Hk. split.
  - intros E. apply Hne. destruct l as [|x l]; [done|].
    assert (x ∈ add_names (x :: l) k) as Hin by (apply elem_of_add_names; left; constructor).
    rewrite E in Hin. by apply not_elem_of_nil in Hin.
  - rewrite Forall_forall in *. intros x Hx. apply elem_of_add_names in Hx as [?|?]; auto.
Qed.

(** ** [kex_names_cat] *)

Lemma match_list_search_hit ts srv : forall off first,
  (if (match_list_search ts srv off first).1 is Some _ then true else false) =
  existsb (fun p => bool_decide (p ∈ srv)) (until_empty ts).
Proof.
  induction ts as [|t ts IH]; intros off first; cbn [match_list_search until_empty]; [done|].
  case_bool_decide as Ht; [done|]. cbn [existsb]. case_bool_decide as Hin; [done|]. apply IH.
Qed.

Lemma has_any_spec ret algs : kex_has_any_alg ret algs = true <->
  exists p, p ∈ until_empty (split ret) /\ p ∈ offered algs.
Proof.
  unfold kex_has_any_alg, match_list. rewrite match_list_search_hit, existsb_exists.
  setoid_rewrite bool_decide_eq_true. setoid_rewrite <- list_elem_of_In. done.
Qed.

Lemma has_any_single ret p : p <> [] -> no_comma p ->
  kex_has_any_alg ret p = bool_decide (p ∈ until_empty (split ret)).
Proof.
  intros Hp Hc. apply eq_bool_prop_intro. rewrite !Is_true_true, has_any_spec, bool_decide_eq_true.
  unfold offered. rewrite (split_single p Hc). cbn [until_empty]. rewrite bool_decide_eq_false_2 by done.
  change (take MAX_PROP [p]) with [p]. setoid_rewrite list_elem_of_singleton. naive_solver.
Qed.

(** The room a list of names takes with one separator each. *)
Definition room (ts : list (list Z)) : Z := foldr (fun t n => zlen t + 1 + n) 0 ts.

Lemma room_nonneg ts : 0 <= room ts.
Proof. induction ts as [|t ts IH]; cbn; [lia|]. pose proof (zlen_nonneg t). unfold room in IH. lia. Qed.

Lemma zlen_join ts : ts <> [] -> zlen (join ts) + 1 = room ts.
Proof.
  induction ts as [|t ts IH]; intros Hne; [done|]. destruct ts as [|u ts]; [cbn; lia|].
  rewrite join_cons, zlen_app, zlen_cons by done. specialize (IH ltac:(done)). cbn [room foldr] in *.
  unfold room in *. cbn [foldr] in IH. lia.
Qed.

Lemma strlcat_len dst src siz : zlen dst <= siz -> (strlcat dst src siz).2 = zlen dst + zlen src.
Proof. intros H. unfold strlcat. rewrite Z.min_r by lia. by case_match. Qed.

Lemma strlcat_fits_pair dst src siz : zlen dst + zlen src < siz ->
  strlcat dst src siz = (dst ++ src, zlen dst + zlen src).
Proof.
  intros H. pose proof (strlcat_fits dst src siz H). pose proof (zlen_nonneg src).
  pose proof (strlcat_len dst src siz ltac:(lia)). destruct (strlcat dst src siz); cbn in *; congruence.
Qed.

Lemma names_cat_loop_spec len ts : forall names, names_ok names -> Forall no_comma ts ->
  zlen (join names) + room ts < len ->
  names_cat_loop ts (join names) len = Some (join (add_names names (until_empty ts))).
Proof.
  induction ts as [|p ts IH]; intros names Hn Hts Hl; cbn [names_cat_loop until_empty]; [done|].
  apply Forall_cons in Hts as [Hp Hts]. cbn [room foldr] in Hl. fold (room ts) in Hl.
  pose proof (zlen_nonneg p). pose proof (room_nonneg ts).
  case_bool_decide as Hemp; [done|]. destruct Hn as [Hne Hok].
  rewrite has_any_single, split_join, until_empty_full;
    [|by eapply Forall_impl; [exact Hok|intros ? []]|done|by eapply Forall_impl; [exact Hok|intros ? []]|done|done].
  cbn [add_names foldl]. fold (add_names (add_name names p) (until_empty ts)). unfold add_name.
  case_bool_decide as Hin; [apply IH; [done|done|lia]|].
  rewrite strlcat_fits_pair by (change (zlen (str ",")) with 1; lia).
  change (zlen (str ",")) with 1. rewrite Z.geb_leb, (proj2 (Z.leb_gt _ _)) by lia.
  rewrite strlcat_fits_pair by (rewrite zlen_app; change (zlen (str ",")) with 1; lia).
  rewrite zlen_app. change (zlen (str ",")) with 1. rewrite Z.geb_leb, (proj2 (Z.leb_gt _ _)) by lia.
  replace ((join names ++ str ",") ++ p) with (join (names ++ [p]))
    by (rewrite join_snoc by done; change (str ",") with [chr ","]; by rewrite <- app_assoc).
  apply IH; [|done|].
  - split; [by destruct names|]. apply Forall_app. split; [done|]. by repeat constructor.
  - rewrite join_snoc, zlen_app, zlen_cons by done. lia.
Qed.

Lemma strlcpy_fits s siz : zlen s < siz -> (strlcpy s siz).1 = s.
Proof.
  intros H. unfold strlcpy. pose proof (zlen_nonneg s). rewrite (proj2 (Z.eqb_neq _ _)) by lia. cbn [fst].
  unfold slice. rewrite drop_0. apply take_ge. unfold zlen in *. lia.
Qed.

Lemma run_names_cat a b : a <> [] -> b <> [] -> well_formed a -> zlen b <= MAX_NAMES_LEN ->
  kex_names_cat (Some a) (Some b) [] =
  (Ok (Some (join (add_names (split a) (until_empty (split b))))), []).
Proof.
  intros Ha Hb Hw Hl. destruct a as [|ca a]; [done|]. destruct b as [|cb b]; [done|].
  unfold kex_names_cat. rewrite Z.gtb_ltb, (proj2 (Z.ltb_ge _ _)) by lia.
  pose proof (zlen_nonneg (ca :: a)). pose proof (zlen_nonneg (cb :: b)).
  unfold mbind, M_bind, alloc. cbn [negb]. unfold mret, M_ret. do 2 f_equal.
  rewrite strlcpy_fits by lia. rewrite <- (join_split (ca :: a)) at 1.
  apply names_cat_loop_spec; [by apply well_formed_names_ok|apply split_no_comma|].
  pose proof (zlen_join (split (cb :: b)) (split_nonempty _)) as R.
  rewrite !join_split in *. lia.
Qed.

(** ** [kex_assemble_names] *)

(** The names of [all] that the pattern [p] selects. *)
Definition selected (all : list Z) (p : list Z) : list (list Z) :=
  List.filter (keeps p false) (split all).

Definition assembled (all : list Z) (pats : list (list Z)) (acc : list (list Z)) : list (list Z) :=
  foldl (fun acc p => add_names acc (selected all p)) acc pats.

Definition negated (p : list Z) : Prop := head p = Some (chr "!").

#[export] Instance negated_dec p : Decision (negated p).
Proof. unfold negated. apply _. Defined.

Section Assemble.
Context (all : list Z) (Hall : well_formed all) (Hdup : NoDup (split all))
  (Hlen : zlen all <= MAX_NAMES_LEN).

Lemma selected_ok p : Forall (fun t => t <> [] /\ no_comma t) (selected all p).
Proof.
  destruct (well_formed_names_ok all Hall) as [_ H]. rewrite Forall_forall in *. intros x Hx.
  apply H. unfold selected in Hx. rewrite list_elem_of_In in *. by apply filter_In in Hx as [? _].
Qed.

Lemma selected_NoDup p : NoDup (selected all p).
Proof. unfold selected. apply NoDup_ListNoDup, List.NoDup_filter, NoDup_ListNoDup, Hdup. Qed.

Lemma room_filter f l : room (List.filter f l) <= room l.
Proof.
  induction l as [|t l IH]; cbn; [lia|]. pose proof (zlen_nonneg t). unfold room in *.
  destruct (f t); cbn; lia.
Qed.

Lemma selected_len p : zlen (join (selected all p)) <= MAX_NAMES_LEN.
Proof.
  destruct (decide (selected all p = [])) as [->|Hne]; [vm_compute; discriminate|].
  pose proof (zlen_join _ Hne). pose proof (room_filter (keeps p false) (split all)).
  pose proof (zlen_join (split all) (split_nonempty all)) as R. rewrite join_split in R.
  unfold selected in *. lia.
Qed.

Lemma run_filtered p : filtered match_filter_allowlist all p [] = (Ok (Some (join (selected all p))), []).
Proof.
  unfold filtered, mbind, M_bind, alloc, match_filter_allowlist, filter_list. cbn [negb].
  unfold mret, M_ret. do 3 f_equal.
  apply (filter_loop_spec p false _ (split all) []); [done|constructor|].
  cbn [app]. rewrite join_split. lia.
Qed.

Lemma add_names_nil l : NoDup l -> add_names [] l = l.
Proof.
  enough (forall k acc, NoDup (acc ++ k) -> add_names acc k = acc ++ k) as H by apply (H l []).
  clear l. induction k as [|p k IH]; intros acc Hnd; cbn [add_names foldl]; [by rewrite app_nil_r|].
  fold (add_names (add_name acc p) k). unfold add_name.
  rewrite bool_decide_eq_false_2.
  - rewrite IH; rewrite <- app_assoc; done.
  - intros Hin. apply NoDup_app in Hnd as (_ & Hd & _). apply (Hd p Hin). constructor.
Qed.

Lemma join_nonempty l : l <> [] -> Forall (fun t => t <> [] /\ no_comma t) l -> join l <> [].
Proof.
  intros Hne Hok E. apply Hne, join_nil_inv; [|done]. by eapply Forall_impl; [exact Hok|intros ? []].
Qed.

(** One round: NULL or the names collected so far, and the new selection. *)
Lemma run_cat_selected acc p ret : Forall (fun t => t <> [] /\ no_comma t) acc ->
  ret = Some (join acc) \/ ret = None /\ acc = [] ->
  kex_names_cat ret (Some (join (selected all p))) [] = (Ok (Some (join (add_names acc (selected all p)))), []).
Proof.
  intros Hacc Hret. pose proof (selected_ok p) as Hs.
  destruct (decide (acc = [])) as [->|Ha].
  - rewrite add_names_nil by apply selected_NoDup. by destruct Hret as [->|[-> _]].
  - destruct Hret as [->|[_ ?]]; [|done]. pose proof (join_nonempty acc Ha Hacc) as Hj.
    destruct (decide (selected all p = [])) as [E|E].
    + rewrite E. cbn [add_names foldl]. destruct (join acc); [done|]. done.
    + rewrite run_names_cat; [|done|by apply join_nonempty| |apply selected_len].
      * rewrite !split_join, until_empty_full; try done;
          by eapply Forall_impl; [first [exact Hs|exact Hacc]|intros ? []].
      * unfold well_formed. rewrite split_join; [|done|]; by eapply Forall_impl; [exact Hacc|intros ? []].
Qed.

Lemma assemble_loop_spec pats : forall acc ret, Forall (fun t => t <> [] /\ no_comma t) acc ->
  ret = Some (join acc) \/ ret = None /\ acc = [] ->
  (Exists negated pats /\ assemble_loop pats all ret [] = (Err SSH_ERR_INVALID_ARGUMENT, [])) \/
  (~ Exists negated pats /\ exists ret', assemble_loop pats all ret [] = (Ok ret', []) /\
     (ret' = Some (join (assembled all pats acc)) \/ ret' = None /\ assembled all pats acc = [])).
Proof.
  induction pats as [|p pats IH]; intros acc ret Hacc Hret; cbn [assemble_loop assembled foldl].
  - right. split; [intros H; inversion H|]. exists ret. split; [done|]. done.
  - case_bool_decide as Hn; [left; split; [by left|done]|].
    rewrite (bind_ok _ _ _ _ _ (run_filtered p)). cbv beta iota.
    rewrite (bind_ok _ _ _ _ _ (run_cat_selected acc p ret Hacc Hret)). cbv beta iota.
    assert (Forall (fun t => t <> [] /\ no_comma t) (add_names acc (selected all p))) as Hok.
    { pose proof (selected_ok p) as Hs. rewrite Forall_forall in *. intros x Hx.
      apply elem_of_add_names in Hx as [?|?]; auto. }
    destruct (IH _ _ Hok (or_introl eq_refl)) as [[HE R]|(HE & r & R & Hr)].
    + left. split; [by right|done].
    + right. split; [|by exists r]. intros [Hp|Hp]%Exists_cons; [by apply Hn|by apply HE].
Qed.

Lemma run_assemble_patterns lst :
  assemble_patterns lst all [] =
  if decide (Exists negated (split lst)) then (Err SSH_ERR_INVALID_ARGUMENT, [])
  else if decide (assembled all (split lst) [] = []) then (Err SSH_ERR_INVALID_ARGUMENT, [])
  else (Ok (Some (join (assembled all (split lst) []))), []).
Proof.
  unfold assemble_patterns. unfold mbind at 1, M_bind at 1. unfold alloc at 1. cbn [negb].
  destruct (assemble_loop_spec (split lst) [] None) as [[HE R]|(HE & r & R & Hr)];
    [constructor|by right| |].
  - rewrite (bind_err _ _ _ _ _ R). by rewrite decide_True.
  - rewrite (bind_ok _ _ _ _ _ R), decide_False by done.
    assert (Forall (fun t => t <> [] /\ no_comma t) (assembled all (split lst) [])) as Hok.
    { clear - Hall. generalize (split lst). assert (Forall (fun t : list Z => t <> [] /\ no_comma t) []) as H0 by constructor.
      revert H0. generalize (@nil (list Z)) as acc. intros acc Hacc pats. revert acc Hacc.
      induction pats as [|p pats IH]; intros acc Hacc; [done|]. apply IH.
      pose proof (selected_ok p) as Hs. rewrite Forall_forall in *. intros x Hx.
      apply elem_of_add_names in Hx as [?|?]; auto. }
    destruct Hr as [->|[-> E]]; [|by rewrite E].
    destruct (decide (assembled all (split lst) [] = [])) as [->|Hne]; [done|].
    pose proof (join_nonempty _ Hne Hok). by destruct (join _).
Qed.

Lemma elem_of_assembled pats n : forall acc,
  n ∈ assembled all pats acc <-> n ∈ acc \/ (n ∈ split all /\ Exists (fun p => keeps p false n = true) pats).
Proof.
  induction pats as [|p pats IH]; intros acc; cbn [assembled foldl].
  - rewrite Exists_nil. intuition.
  - fold (assembled all pats (add_names acc (selected all p))). rewrite IH, elem_of_add_names, Exists_cons.
    unfold selected. rewrite (list_elem_of_In (List.filter _ _)), filter_In, <- list_elem_of_In. intuition.
Qed.

Lemma assembled_NoDup pats : forall acc, NoDup acc -> NoDup (assembled all pats acc).
Proof.
  induction pats as [|p pats IH]; intros acc Hacc; [done|]. by apply IH, add_names_NoDup.
Qed.
End Assemble.

(** What a pattern without a comma selects. *)
Lemma keeps_pattern p n : no_comma p -> ~ negated p ->
  keeps p false n = true <-> p <> [] /\ zlen p < SUB_SIZE - 1 /\ glob p n.
Proof.
  intros Hc Hn. unfold keeps, match_pattern_list. cbn [andb negb orb].
  rewrite match_list_loop_scan, Z.eqb_eq by done. unfold entries. rewrite split_single by done.
  cbn [drop_last_empty]. case_bool_decide as Hp; [subst; cbn; naive_solver|].
  destruct p as [|c p]; [done|]. change (entry false <$> [c :: p]) with [entry false (c :: p)]. cbn [entry].
  destruct (Z.eqb_spec c (chr "!")) as [->|_]; [by destruct Hn|].
  replace (low false <$> c :: p) with (c :: p) by (symmetry; apply list_fmap_id).
  cbn [scan]. rewrite Z.geb_leb. destruct (Z.leb_spec (SUB_SIZE - 1) (zlen (c :: p))); [split; [intros ?; discriminate|intros (_ & ? & _); lia]|].
  rewrite <- match_pattern_glob. destruct (match_pattern n (c :: p)); naive_solver.
Qed.

Lemma run_cat_wf a b : well_formed a -> well_formed b -> zlen b <= MAX_NAMES_LEN ->
  kex_names_cat (Some a) (Some b) [] = (Ok (Some (join (add_names (split a) (split b)))), []) /\
  split (join (add_names (split a) (split b))) = add_names (split a) (split b).
Proof.
  intros Ha Hb Hl.
  assert (forall s, well_formed s -> s <> []) as Hne by (intros s Hs ->; by apply Forall_cons in Hs as [? _]).
  rewrite run_names_cat, until_empty_full by auto. split; [done|].
  destruct (add_names_ok (split a) (split b)) as [Hn Hok]; [by apply well_formed_names_ok..|].
  apply split_join; [done|]. by eapply Forall_impl; [exact Hok|intros ? []].
Qed.

(** The patterns a configured list stands for. *)
Definition patterns_of (c : Z) (rest def : list Z) : list (list Z) :=
  if c =? chr "+" then add_names (split def) (split rest)
  else if c =? chr "^" then add_names (split rest) (split def)
  else split (c :: rest).

(** C30: Assembling a configured algorithm list ([+], [^] or explicit; patterns
    allowed) against the known names [all]: the result has exactly the known
    names that some pattern describes, each once, in the order of the patterns
    (so names behind [^] come first and names behind [+] last); a negated
    pattern or an empty selection is refused. Nothing unknown is let through,
    and the fixed-size copies never fail. *)
Theorem assemble_names_correct c rest def all :
  well_formed def -> well_formed all -> NoDup (split all) -> c <> chr "-" ->
  (c = chr "+" \/ c = chr "^" -> well_formed rest) ->
  zlen def <= MAX_NAMES_LEN -> zlen rest <= MAX_NAMES_LEN -> zlen all <= MAX_NAMES_LEN ->
  let pats := patterns_of c rest def in
  let wanted n := n ∈ split all /\ exists p, p ∈ pats /\ p <> [] /\ zlen p < SUB_SIZE - 1 /\ glob p n in
  match (kex_assemble_names (Some (c :: rest)) (Some def) (Some all) []).1 with
  | Ok (Some r) => ~ Exists negated pats /\ NoDup (split r) /\ (forall n, n ∈ split r <-> wanted n) /\
      split r = assembled all pats []
  | Err e => e = SSH_ERR_INVALID_ARGUMENT /\ (Exists negated pats \/ forall n, ~ wanted n)
  | _ => False
  end.
Proof.
  intros Hdef Hall Hdup Hc Hrest Ld Lr La pats wanted.
  assert (exists lst, kex_assemble_names (Some (c :: rest)) (Some def) (Some all) [] = assemble_patterns lst all [] /\
    split lst = pats) as (lst & -> & El).
  { unfold kex_assemble_names, pats, patterns_of. rewrite (proj2 (Z.eqb_neq c (chr "-"))) by done.
    destruct (Z.eqb_spec c (chr "+")) as [->|]; [|destruct (Z.eqb_spec c (chr "^")) as [->|]].
    - destruct (run_cat_wf def rest) as [R S]; auto. rewrite (bind_ok _ _ _ _ _ R). by eexists.
    - destruct (run_cat_wf rest def) as [R S]; auto. rewrite (bind_ok _ _ _ _ _ R). by eexists.
    - by exists (c :: rest). }
  assert (Forall no_comma pats) as Hpc by (rewrite <- El; apply split_no_comma).
  rewrite run_assemble_patterns, El by done. clear lst El.
  assert (~ Exists negated pats -> forall n, n ∈ assembled all pats [] <-> wanted n) as Hw.
  { intros HE n. rewrite elem_of_assembled, Exists_exists. unfold wanted.
    rewrite Forall_forall in Hpc. rewrite Exists_exists in HE.
    assert (forall p, p ∈ pats -> keeps p false n = true <-> p <> [] /\ zlen p < SUB_SIZE - 1 /\ glob p n) as K
      by (intros p Hp; apply keeps_pattern; eauto).
    split; [intros [Hx|(Ha & p & Hp & Hk)]; [by apply not_elem_of_nil in Hx|]|intros (Ha & p & Hp & Hk)].
    - split; [done|]. exists p. split; [done|]. by apply K.
    - right. split; [done|]. exists p. split; [done|]. by apply K. }
  destruct (decide (Exists negated pats)) as [HE|HE]; cbn [fst]; [auto|]. specialize (Hw HE).
  destruct (decide (assembled all pats [] = [])) as [E|E]; cbn [fst].
  - split; [done|]. right. intros n. rewrite <- Hw, E. apply not_elem_of_nil.
  - rewrite split_join; [|done|]; [split_and!; auto using assembled_NoDup, NoDup_nil_2|].
    rewrite Forall_forall. intros n Hn. apply Hw in Hn as [Hn _].
    pose proof (split_no_comma all) as H. rewrite Forall_forall in H. auto.
Qed.

Lemma assemble_names_correct_witness :
  let pats := patterns_of (chr "+") (str "x*,b") (str "a,b") in
  let wanted n := n ∈ split (str "a,b,x1,x2") /\
    exists p, p ∈ pats /\ p <> [] /\ zlen p < SUB_SIZE - 1 /\ glob p n in
  match (kex_assemble_names (Some (chr "+" :: str "x*,b")) (Some (str "a,b")) (Some (str "a,b,x1,x2")) []).1 with
  | Ok (Some r) => ~ Exists negated pats /\ NoDup (split r) /\ (forall n, n ∈ split r <-> wanted n) /\
      split r = assembled (str "a,b,x1,x2") pats []
  | Err e => e = SSH_ERR_INVALID_ARGUMENT /\ (Exists negated pats \/ forall n, ~ wanted n)
  | _ => False
  end.
Proof.
  apply (assemble_names_correct (chr "+") (str "x*,b") (str "a,b") (str "a,b,x1,x2"));
    try (repeat constructor; discriminate); try (vm_compute; discriminate).
  - apply (bool_decide_unpack _). vm_compute. exact I.
Defined.
