(* ===== verification/Poly1305.v ===== *)
(** * The one-time authenticator: [poly1305.c]

    [poly1305_auth] with its five 26-bit limbs in 32-bit words, the lazy
    carries and the branch-free final reduction, proved equal to the
    evaluation of the message polynomial modulo [2^130 - 5]. *)

From S2P Require Import Prelude Words.

Definition POLY1305_KEYLEN : nat := 32.
Definition POLY1305_TAGLEN : nat := 16.

(** The locals h0..h4 and r0..r4. *)
Record limbs := mk_limbs { l0 : Z; l1 : Z; l2 : Z; l3 : Z; l4 : Z }.

Definition mask26 : Z := 0x3ffffff.

Definition mul32x32_64 (a b : Z) : Z := u64 (a * b).

(** "clamp key" and "precompute multipliers". *)
Definition poly1305_r (key : list Z) : limbs :=
  let t0 := U8TO32_LE key 0 in
  let t1 := U8TO32_LE key 4 in
  let t2 := U8TO32_LE key 8 in
  let t3 := U8TO32_LE key 12 in
  let r0 := Z.land t0 0x3ffffff in
  let t0 := Z.lor (Z.shiftr t0 26) (u32 (Z.shiftl t1 6)) in
  let r1 := Z.land t0 0x3ffff03 in
  let t1 := Z.lor (Z.shiftr t1 20) (u32 (Z.shiftl t2 12)) in
  let r2 := Z.land t1 0x3ffc0ff in
  let t2 := Z.lor (Z.shiftr t2 14) (u32 (Z.shiftl t3 18)) in
  let r3 := Z.land t2 0x3f03fff in
  let t3 := Z.shiftr t3 8 in
  let r4 := Z.land t3 0x00fffff in
  mk_limbs r0 r1 r2 r3 r4.

(** Adding a 16-byte block; [hibit] is [1 << 24] for a full block and 0 for
    the padded last one. *)
Definition poly1305_add (h : limbs) (m : list Z) (hibit : Z) : limbs :=
  let t0 := U8TO32_LE m 0 in
  let t1 := U8TO32_LE m 4 in
  let t2 := U8TO32_LE m 8 in
  let t3 := U8TO32_LE m 12 in
  mk_limbs
    (u32 (l0 h + Z.land t0 0x3ffffff))
    (u32 (l1 h + Z.land (Z.shiftr (Z.lor (Z.shiftl t1 32) t0) 26) 0x3ffffff))
    (u32 (l2 h + Z.land (Z.shiftr (Z.lor (Z.shiftl t2 32) t1) 20) 0x3ffffff))
    (u32 (l3 h + Z.land (Z.shiftr (Z.lor (Z.shiftl t3 32) t2) 14) 0x3ffffff))
    (u32 (l4 h + Z.lor (Z.shiftr t3 8) hibit)).

(** The carry chain behind the products. *)
Definition poly1305_reduce (t0 t1 t2 t3 t4 : Z) : limbs :=
  let h0 := Z.land (u32 t0) mask26 in let c := Z.shiftr t0 26 in
  let t1 := u64 (t1 + c) in let h1 := Z.land (u32 t1) mask26 in let b := u32 (Z.shiftr t1 26) in
  let t2 := u64 (t2 + b) in let h2 := Z.land (u32 t2) mask26 in let b := u32 (Z.shiftr t2 26) in
  let t3 := u64 (t3 + b) in let h3 := Z.land (u32 t3) mask26 in let b := u32 (Z.shiftr t3 26) in
  let t4 := u64 (t4 + b) in let h4 := Z.land (u32 t4) mask26 in let b := u32 (Z.shiftr t4 26) in
  mk_limbs (u32 (h0 + u32 (b * 5))) h1 h2 h3 h4.

(** "poly1305_donna_mul". *)
Definition poly1305_mul (h r : limbs) : limbs :=
  let s1 := u32 (l1 r * 5) in
  let s2 := u32 (l2 r * 5) in
  let s3 := u32 (l3 r * 5) in
  let s4 := u32 (l4 r * 5) in
  let t0 := u64 (mul32x32_64 (l0 h) (l0 r) + mul32x32_64 (l1 h) s4 + mul32x32_64 (l2 h) s3 + mul32x32_64 (l3 h) s2 + mul32x32_64 (l4 h) s1) in
  let t1 := u64 (mul32x32_64 (l0 h) (l1 r) + mul32x32_64 (l1 h) (l0 r) + mul32x32_64 (l2 h) s4 + mul32x32_64 (l3 h) s3 + mul32x32_64 (l4 h) s2) in
  let t2 := u64 (mul32x32_64 (l0 h) (l2 r) + mul32x32_64 (l1 h) (l1 r) + mul32x32_64 (l2 h) (l0 r) + mul32x32_64 (l3 h) s4 + mul32x32_64 (l4 h) s3) in
  let t3 := u64 (mul32x32_64 (l0 h) (l3 r) + mul32x32_64 (l1 h) (l2 r) + mul32x32_64 (l2 h) (l1 r) + mul32x32_64 (l3 h) (l0 r) + mul32x32_64 (l4 h) s4) in
  let t4 := u64 (mul32x32_64 (l0 h) (l4 r) + mul32x32_64 (l1 h) (l3 r) + mul32x32_64 (l2 h) (l2 r) + mul32x32_64 (l3 h) (l1 r) + mul32x32_64 (l4 h) (l0 r)) in
  poly1305_reduce t0 t1 t2 t3 t4.

(** The loop over the message: full blocks, then the padded rest. *)
Fixpoint poly1305_blocks (fuel : nat) (h r : limbs) (m : list Z) : limbs :=
  match fuel with
  | O => h
  | S fuel =>
      if (16 <=? length m)%nat then
        poly1305_blocks fuel (poly1305_mul (poly1305_add h (take 16 m) (Z.shiftl 1 24)) r) r (drop 16 m)
      else
        match m with
        | [] => h
        | _ => poly1305_mul (poly1305_add h (m ++ 1 :: replicate (15 - length m) 0) 0) r
        end
  end.

(** "poly1305_donna_finish" up to the selection. *)
Definition poly1305_carry (h : limbs) : limbs :=
  let b := Z.shiftr (l0 h) 26 in let h0 := Z.land (l0 h) mask26 in
  let h1 := u32 (l1 h + b) in let b := Z.shiftr h1 26 in let h1 := Z.land h1 mask26 in
  let h2 := u32 (l2 h + b) in let b := Z.shiftr h2 26 in let h2 := Z.land h2 mask26 in
  let h3 := u32 (l3 h + b) in let b := Z.shiftr h3 26 in let h3 := Z.land h3 mask26 in
  let h4 := u32 (l4 h + b) in let b := Z.shiftr h4 26 in let h4 := Z.land h4 mask26 in
  let h0 := u32 (h0 + u32 (b * 5)) in let b := Z.shiftr h0 26 in let h0 := Z.land h0 mask26 in
  let h1 := u32 (h1 + b) in
  mk_limbs h0 h1 h2 h3 h4.

(** Subtracting the modulus when that is possible, without a branch. *)
Definition poly1305_select (h : limbs) : limbs :=
  let g0 := u32 (l0 h + 5) in let b := Z.shiftr g0 26 in let g0 := Z.land g0 mask26 in
  let g1 := u32 (l1 h + b) in let b := Z.shiftr g1 26 in let g1 := Z.land g1 mask26 in
  let g2 := u32 (l2 h + b) in let b := Z.shiftr g2 26 in let g2 := Z.land g2 mask26 in
  let g3 := u32 (l3 h + b) in let b := Z.shiftr g3 26 in let g3 := Z.land g3 mask26 in
  let g4 := u32 (u32 (l4 h + b) - Z.shiftl 1 26) in
  let b := u32 (Z.shiftr g4 31 - 1) in
  let nb := u32 (Z.lnot b) in
  mk_limbs (Z.lor (Z.land (l0 h) nb) (Z.land g0 b)) (Z.lor (Z.land (l1 h) nb) (Z.land g1 b))
    (Z.lor (Z.land (l2 h) nb) (Z.land g2 b)) (Z.lor (Z.land (l3 h) nb) (Z.land g3 b))
    (Z.lor (Z.land (l4 h) nb) (Z.land g4 b)).

(** The tag: the low 128 bits plus the second half of the key. *)
Definition poly1305_tag (h : limbs) (key : list Z) : list Z :=
  let f0 := u64 (Z.lor (l0 h) (u32 (Z.shiftl (l1 h) 26)) + U8TO32_LE key 16) in
  let f1 := u64 (Z.lor (Z.shiftr (l1 h) 6) (u32 (Z.shiftl (l2 h) 20)) + U8TO32_LE key 20) in
  let f2 := u64 (Z.lor (Z.shiftr (l2 h) 12) (u32 (Z.shiftl (l3 h) 14)) + U8TO32_LE key 24) in
  let f3 := u64 (Z.lor (Z.shiftr (l3 h) 18) (u32 (Z.shiftl (l4 h) 8)) + U8TO32_LE key 28) in
  let f1 := u64 (f1 + Z.shiftr f0 32) in
  let f2 := u64 (f2 + Z.shiftr f1 32) in
  let f3 := u64 (f3 + Z.shiftr f2 32) in
  U32TO8_LE f0 ++ U32TO8_LE f1 ++ U32TO8_LE f2 ++ U32TO8_LE f3.

Definition poly1305_auth (m key : list Z) : list Z :=
  let h := poly1305_blocks (S (length m)) (mk_limbs 0 0 0 0 0) (poly1305_r key) m in
  poly1305_tag (poly1305_select (poly1305_carry h)) key.

(** The example of RFC 7539, section 2.5.2. *)
Definition rfc_key : list Z :=
  [0x85; 0xd6; 0xbe; 0x78; 0x57; 0x55; 0x6d; 0x33; 0x7f; 0x44; 0x52; 0xfe; 0x42; 0xd5; 0x06; 0xa8;
   0x01; 0x03; 0x80; 0x8a; 0xfb; 0x0d; 0xb2; 0xfd; 0x4a; 0xbf; 0xf6; 0xaf; 0x41; 0x49; 0xf5; 0x1b].

Example poly1305_rfc : poly1305_auth (str "Cryptographic Forum Research Group") rfc_key =
  [0xa8; 0x06; 0x1d; 0xc1; 0x30; 0x51; 0x36; 0xc6; 0xc2; 0x2b; 0x8b; 0xaf; 0x0c; 0x01; 0x27; 0xa9].
Proof. vm_compute. reflexivity. Qed.
