(* ===== verification/Poly1305Thms.v ===== *)
(** * [poly1305_auth] computes Poly1305

    The limbs stand for a number; every step of the code acts on that number
    modulo [2^130 - 5], and no machine operation loses bits. *)

From S2P Require Import Prelude Words Poly1305.

(** ** The number of five limbs *)

Definition p1305 : Z := 2 ^ 130 - 5.
Definition lval (h : limbs) : Z := l0 h + l1 h * 2 ^ 26 + l2 h * 2 ^ 52 + l3 h * 2 ^ 78 + l4 h * 2 ^ 104.

(** The accumulator between blocks. *)
Record acc_ok (h : limbs) : Prop := {
  acc0 : 0 <= l0 h <= 2812000000;
  acc1 : 0 <= l1 h < 2 ^ 26;
  acc2 : 0 <= l2 h < 2 ^ 26;
  acc3 : 0 <= l3 h < 2 ^ 26;
  acc4 : 0 <= l4 h < 2 ^ 26
}.

(** The accumulator with a block added. *)
Record sum_ok (h : limbs) : Prop := {
  sum0 : 0 <= l0 h <= 2880000000;
  sum1 : 0 <= l1 h < 2 ^ 27;
  sum2 : 0 <= l2 h < 2 ^ 27;
  sum3 : 0 <= l3 h < 2 ^ 27;
  sum4 : 0 <= l4 h < 2 ^ 26 + 2 ^ 25
}.

(** The clamped multiplier. *)
Record mult_ok (r : limbs) : Prop := {
  mul0 : 0 <= l0 r <= 0x3ffffff;
  mul1 : 0 <= l1 r <= 0x3ffff03;
  mul2 : 0 <= l2 r <= 0x3ffc0ff;
  mul3 : 0 <= l3 r <= 0x3f03fff;
  mul4 : 0 <= l4 r <= 0x00fffff
}.

Lemma land_mask26 x : Z.land x mask26 = x mod 2 ^ 26.
Proof. change mask26 with (Z.ones 26). by rewrite Z.land_ones. Qed.

(** ** The carry chain *)

Lemma reduce_spec t0 t1 t2 t3 t4 :
  0 <= t0 < 2 ^ 59 -> 0 <= t1 <= 281200000000000000 -> 0 <= t2 <= 281200000000000000 ->
  0 <= t3 <= 281200000000000000 -> 0 <= t4 <= 36660000000000000 ->
  acc_ok (poly1305_reduce t0 t1 t2 t3 t4) /\
  exists k, t0 + t1 * 2 ^ 26 + t2 * 2 ^ 52 + t3 * 2 ^ 78 + t4 * 2 ^ 104 =
            lval (poly1305_reduce t0 t1 t2 t3 t4) + p1305 * k.
Proof.
  intros H0 H1 H2 H3 H4. unfold poly1305_reduce. rewrite !land_mask26, !Z.shiftr_div_pow2 by lia.
  assert (forall t, 0 <= t -> u32 t mod 2 ^ 26 = t mod 2 ^ 26) as Hm.
  { intros t Ht. unfold wrap. change (2 ^ 26) with 67108864. change (2 ^ 32) with 4294967296. dlia. }
  set (c := t0 / 2 ^ 26). assert (0 <= c < 2 ^ 33) as Hc by (unfold c; dlia).
  rewrite !(wrap_small 64 (t1 + c)) by lia. set (u1 := t1 + c) in *.
  assert (0 <= u1 < 2 ^ 58) by lia. set (b1 := u1 / 2 ^ 26). assert (0 <= b1 < 2 ^ 32) as Hb1 by (unfold b1; dlia).
  rewrite !(wrap_small 32 b1) by lia.
  rewrite !(wrap_small 64 (t2 + b1)) by lia. set (u2 := t2 + b1) in *.
  assert (0 <= u2 < 2 ^ 58) by lia. set (b2 := u2 / 2 ^ 26). assert (0 <= b2 < 2 ^ 32) as Hb2 by (unfold b2; dlia).
  rewrite !(wrap_small 32 b2) by lia.
  rewrite !(wrap_small 64 (t3 + b2)) by lia. set (u3 := t3 + b2) in *.
  assert (0 <= u3 < 2 ^ 58) by lia. set (b3 := u3 / 2 ^ 26). assert (0 <= b3 < 2 ^ 32) as Hb3 by (unfold b3; dlia).
  rewrite !(wrap_small 32 b3) by lia.
  rewrite !(wrap_small 64 (t4 + b3)) by lia. set (u4 := t4 + b3) in *.
  set (b4 := u4 / 2 ^ 26). assert (0 <= b4 <= 546400000) as Hb4 by (unfold b4, u4; dlia).
  rewrite !(wrap_small 32 b4), !(wrap_small 32 (b4 * 5)), !Hm by lia.
  pose proof (Z.mod_pos_bound t0 (2 ^ 26) ltac:(lia)). rewrite !(wrap_small 32 (t0 mod 2 ^ 26 + b4 * 5)) by lia.
  pose proof (Z.mod_pos_bound u1 (2 ^ 26) ltac:(lia)). pose proof (Z.mod_pos_bound u2 (2 ^ 26) ltac:(lia)).
  pose proof (Z.mod_pos_bound u3 (2 ^ 26) ltac:(lia)). pose proof (Z.mod_pos_bound u4 (2 ^ 26) ltac:(lia)).
  split; [constructor; cbn [l0 l1 l2 l3 l4]; lia|]. exists b4. unfold lval, p1305. cbn [l0 l1 l2 l3 l4].
  pose proof (Z.div_mod t0 (2 ^ 26) ltac:(lia)). pose proof (Z.div_mod u1 (2 ^ 26) ltac:(lia)).
  pose proof (Z.div_mod u2 (2 ^ 26) ltac:(lia)). pose proof (Z.div_mod u3 (2 ^ 26) ltac:(lia)).
  pose proof (Z.div_mod u4 (2 ^ 26) ltac:(lia)). unfold c, b1, b2, b3, b4, u1, u2, u3, u4 in *. lia.
Qed.

(** ** The multiplication *)

Lemma prod_bound a b A B : 0 <= a <= A -> 0 <= b <= B -> 0 <= a * b <= A * B.
Proof. intros. split; [apply Z.mul_nonneg_nonneg; lia|apply Z.mul_le_mono_nonneg; lia]. Qed.

Lemma mul32_exact a b : 0 <= a < 2 ^ 32 -> 0 <= b < 2 ^ 32 -> mul32x32_64 a b = a * b.
Proof. intros Ha Hb. unfold mul32x32_64. apply wrap_small. change (2 ^ 64) with (2 ^ 32 * 2 ^ 32). nia. Qed.

(** A row of five products. *)
Lemma row_bound a0 b0 a1 b1 a2 b2 a3 b3 a4 b4 A0 B0 A1 B1 A2 B2 A3 B3 A4 B4 T :
  0 <= a0 <= A0 -> 0 <= b0 <= B0 -> 0 <= a1 <= A1 -> 0 <= b1 <= B1 -> 0 <= a2 <= A2 -> 0 <= b2 <= B2 ->
  0 <= a3 <= A3 -> 0 <= b3 <= B3 -> 0 <= a4 <= A4 -> 0 <= b4 <= B4 ->
  A0 * B0 + A1 * B1 + A2 * B2 + A3 * B3 + A4 * B4 <= T ->
  0 <= a0 * b0 + a1 * b1 + a2 * b2 + a3 * b3 + a4 * b4 <= T.
Proof.
  intros Ha0 Hb0 Ha1 Hb1 Ha2 Hb2 Ha3 Hb3 Ha4 Hb4 HT.
  pose proof (prod_bound _ _ _ _ Ha0 Hb0). pose proof (prod_bound _ _ _ _ Ha1 Hb1).
  pose proof (prod_bound _ _ _ _ Ha2 Hb2). pose proof (prod_bound _ _ _ _ Ha3 Hb3).
  pose proof (prod_bound _ _ _ _ Ha4 Hb4). lia.
Qed.

Lemma mul_spec h r : sum_ok h -> mult_ok r ->
  acc_ok (poly1305_mul h r) /\ exists k, lval h * lval r = lval (poly1305_mul h r) + p1305 * k.
Proof.
  intros [A0 A1 A2 A3 A4] [Q0 Q1 Q2 Q3 Q4]. unfold poly1305_mul, lval.
  destruct h as [h0 h1 h2 h3 h4], r as [r0 r1 r2 r3 r4]. cbn [l0 l1 l2 l3 l4] in *.
  rewrite !(wrap_small 32) by lia. rewrite !mul32_exact by lia.
  assert (0 <= h1 <= 2 ^ 27 - 1) as P1 by lia. assert (0 <= h2 <= 2 ^ 27 - 1) as P2 by lia.
  assert (0 <= h3 <= 2 ^ 27 - 1) as P3 by lia. assert (0 <= h4 <= 2 ^ 26 + 2 ^ 25 - 1) as P4 by lia.
  assert (0 <= r1 * 5 <= 0x3ffff03 * 5) as S1 by lia. assert (0 <= r2 * 5 <= 0x3ffc0ff * 5) as S2 by lia.
  assert (0 <= r3 * 5 <= 0x3f03fff * 5) as S3 by lia. assert (0 <= r4 * 5 <= 0x00fffff * 5) as S4 by lia.
  pose proof (row_bound _ _ _ _ _ _ _ _ _ _ _ _ _ _ _ _ _ _ _ _ (2 ^ 59 - 1)
    A0 Q0 P1 S4 P2 S3 P3 S2 P4 S1 ltac:(lia)) as T0.
  pose proof (row_bound _ _ _ _ _ _ _ _ _ _ _ _ _ _ _ _ _ _ _ _ 281200000000000000
    A0 Q1 P1 Q0 P2 S4 P3 S3 P4 S2 ltac:(lia)) as T1.
  pose proof (row_bound _ _ _ _ _ _ _ _ _ _ _ _ _ _ _ _ _ _ _ _ 281200000000000000
    A0 Q2 P1 Q1 P2 Q0 P3 S4 P4 S3 ltac:(lia)) as T2.
  pose proof (row_bound _ _ _ _ _ _ _ _ _ _ _ _ _ _ _ _ _ _ _ _ 281200000000000000
    A0 Q3 P1 Q2 P2 Q1 P3 Q0 P4 S4 ltac:(lia)) as T3.
  pose proof (row_bound _ _ _ _ _ _ _ _ _ _ _ _ _ _ _ _ _ _ _ _ 36660000000000000
    A0 Q4 P1 Q3 P2 Q2 P3 Q1 P4 Q0 ltac:(lia)) as T4.
  clear - T0 T1 T2 T3 T4.
  assert (exists t0 t1 t2 t3 t4, t0 = h0 * r0 + h1 * (r4 * 5) + h2 * (r3 * 5) + h3 * (r2 * 5) + h4 * (r1 * 5) /\
    t1 = h0 * r1 + h1 * r0 + h2 * (r4 * 5) + h3 * (r3 * 5) + h4 * (r2 * 5) /\
    t2 = h0 * r2 + h1 * r1 + h2 * r0 + h3 * (r4 * 5) + h4 * (r3 * 5) /\
    t3 = h0 * r3 + h1 * r2 + h2 * r1 + h3 * r0 + h4 * (r4 * 5) /\
    t4 = h0 * r4 + h1 * r3 + h2 * r2 + h3 * r1 + h4 * r0)
    as (t0 & t1 & t2 & t3 & t4 & E0 & E1 & E2 & E3 & E4) by (repeat eexists).
  rewrite <- E0, <- E1, <- E2, <- E3, <- E4 in *. rewrite !(wrap_small 64) by lia.
  destruct (reduce_spec t0 t1 t2 t3 t4) as [Hok [k Hk]]; [lia..|].
  split; [done|]. unfold lval in Hk.
  exists (k + (h1 * r4 + h2 * r3 + h3 * r2 + h4 * r1) + (h2 * r4 + h3 * r3 + h4 * r2) * 2 ^ 26 +
    (h3 * r4 + h4 * r3) * 2 ^ 52 + h4 * r4 * 2 ^ 78).
  rewrite Z.mul_add_distr_l. unfold p1305 in *.
  transitivity (t0 + t1 * 2 ^ 26 + t2 * 2 ^ 52 + t3 * 2 ^ 78 + t4 * 2 ^ 104 +
    (2 ^ 130 - 5) * (h1 * r4 + h2 * r3 + h3 * r2 + h4 * r1 + (h2 * r4 + h3 * r3 + h4 * r2) * 2 ^ 26 +
    (h3 * r4 + h4 * r3) * 2 ^ 52 + h4 * r4 * 2 ^ 78)); [clear Hk Hok; subst; ring|rewrite Hk; ring].
Qed.

(** ** Loading a block *)

Lemma le_val_words m : bytes_ok m -> length m = 16%nat ->
  le_val m = U8TO32_LE m 0 + 2 ^ 32 * U8TO32_LE m 4 + 2 ^ 64 * U8TO32_LE m 8 + 2 ^ 96 * U8TO32_LE m 12.
Proof.
  intros Hok Hl. rewrite !U8TO32_LE_sum by done. clear Hok.
  do 16 (destruct m as [|? m]; [done|]). destruct m; [|done].
  unfold le_at. cbn [Nat.add nth le_val]. lia.
Qed.

(** The 26-bit pieces of four words. *)
Lemma word_limbs t0 t1 t2 t3 : 0 <= t0 < 2 ^ 32 -> 0 <= t1 < 2 ^ 32 -> 0 <= t2 < 2 ^ 32 -> 0 <= t3 < 2 ^ 32 ->
  Z.land t0 0x3ffffff + Z.land (Z.shiftr (Z.lor (Z.shiftl t1 32) t0) 26) 0x3ffffff * 2 ^ 26 +
  Z.land (Z.shiftr (Z.lor (Z.shiftl t2 32) t1) 20) 0x3ffffff * 2 ^ 52 +
  Z.land (Z.shiftr (Z.lor (Z.shiftl t3 32) t2) 14) 0x3ffffff * 2 ^ 78 + Z.shiftr t3 8 * 2 ^ 104 =
  t0 + 2 ^ 32 * t1 + 2 ^ 64 * t2 + 2 ^ 96 * t3.
Proof.
  intros H0 H1 H2 H3. change 0x3ffffff with mask26. rewrite !land_mask26, !lor_shifted, !Z.shiftr_div_pow2 by lia.
  assert ((t1 * 2 ^ 32 + t0) / 2 ^ 26 mod 2 ^ 26 = t0 / 2 ^ 26 + 2 ^ 6 * (t1 mod 2 ^ 20)) as -> by dlia.
  assert ((t2 * 2 ^ 32 + t1) / 2 ^ 20 mod 2 ^ 26 = t1 / 2 ^ 20 + 2 ^ 12 * (t2 mod 2 ^ 14)) as -> by dlia.
  assert ((t3 * 2 ^ 32 + t2) / 2 ^ 14 mod 2 ^ 26 = t2 / 2 ^ 14 + 2 ^ 18 * (t3 mod 2 ^ 8)) as -> by dlia.
  pose proof (Z.div_mod t0 (2 ^ 26) ltac:(lia)). pose proof (Z.div_mod t1 (2 ^ 20) ltac:(lia)).
  pose proof (Z.div_mod t2 (2 ^ 14) ltac:(lia)). pose proof (Z.div_mod t3 (2 ^ 8) ltac:(lia)). lia.
Qed.

Lemma add_spec h m hibit : acc_ok h -> bytes_ok m -> length m = 16%nat -> hibit = 0 \/ hibit = 2 ^ 24 ->
  sum_ok (poly1305_add h m hibit) /\ lval (poly1305_add h m hibit) = lval h + le_val m + hibit * 2 ^ 104.
Proof.
  intros [A0 A1 A2 A3 A4] Hok Hl Hb. rewrite (le_val_words m) by done.
  pose proof (U8TO32_LE_range m 0 Hok) as W0. pose proof (U8TO32_LE_range m 4 Hok) as W1.
  pose proof (U8TO32_LE_range m 8 Hok) as W2. pose proof (U8TO32_LE_range m 12 Hok) as W3.
  unfold poly1305_add, lval. cbn [l0 l1 l2 l3 l4].
  set (t0 := U8TO32_LE m 0) in *. set (t1 := U8TO32_LE m 4) in *. set (t2 := U8TO32_LE m 8) in *.
  set (t3 := U8TO32_LE m 12) in *. clearbody t0 t1 t2 t3. rewrite <- (word_limbs t0 t1 t2 t3) by done.
  assert (Z.lor (Z.shiftr t3 8) hibit = Z.shiftr t3 8 + hibit) as ->.
  { assert (0 <= Z.shiftr t3 8 < 2 ^ 24) by (rewrite Z.shiftr_div_pow2 by lia; dlia).
    destruct Hb as [->| ->]; [rewrite Z.lor_0_r; lia|].
    change (2 ^ 24) with (Z.shiftl 1 24) at 1. rewrite lor_low by lia. lia. }
  assert (forall x, 0 <= Z.land x 0x3ffffff < 2 ^ 26) as Hm
    by (intros x; change 0x3ffffff with mask26; rewrite land_mask26; apply Z.mod_pos_bound; lia).
  assert (0 <= Z.shiftr t3 8 < 2 ^ 24) as H4 by (rewrite Z.shiftr_div_pow2 by lia; dlia).
  pose proof (Hm t0) as M0. pose proof (Hm (Z.shiftr (Z.lor (Z.shiftl t1 32) t0) 26)) as M1.
  pose proof (Hm (Z.shiftr (Z.lor (Z.shiftl t2 32) t1) 20)) as M2.
  pose proof (Hm (Z.shiftr (Z.lor (Z.shiftl t3 32) t2) 14)) as M3.
  set (x0 := Z.land t0 _) in *. set (x1 := Z.land (Z.shiftr (Z.lor (Z.shiftl t1 32) t0) 26) _) in *.
  set (x2 := Z.land (Z.shiftr (Z.lor (Z.shiftl t2 32) t1) 20) _) in *.
  set (x3 := Z.land (Z.shiftr (Z.lor (Z.shiftl t3 32) t2) 14) _) in *. set (x4 := Z.shiftr t3 8) in *.
  clearbody x0 x1 x2 x3 x4. rewrite !(wrap_small 32) by lia.
  split; [constructor; cbn [l0 l1 l2 l3 l4]; lia|lia].
Qed.

(** ** The multiplier *)

Definition CLAMP : Z := 0x0ffffffc0ffffffc0ffffffc0fffffff.

Lemma land_split n a b c d : 0 <= n -> 0 <= a < 2 ^ n -> 0 <= c < 2 ^ n ->
  Z.land (a + b * 2 ^ n) (c + d * 2 ^ n) = Z.land a c + Z.land b d * 2 ^ n.
Proof.
  intros Hn Ha Hc. rewrite <- !lor_low by done.
  rewrite Z.land_lor_distr_l, !Z.land_lor_distr_r.
  rewrite (Z.land_comm a (Z.shiftl d n)), !land_shifted, Z.lor_0_r, Z.lor_0_l by done.
  rewrite <- Z.shiftl_land, lor_low; [done..|].
  split; [apply Z.land_nonneg; lia|].
  destruct (Z.eq_dec (Z.land a c) 0) as [->|]; [lia|].
  apply Z.log2_lt_pow2; [pose proof (proj2 (Z.land_nonneg a c) (or_introl (proj1 Ha))); lia|].
  pose proof (Z.log2_land a c ltac:(lia) ltac:(lia)).
  destruct (Z.eq_dec a 0) as [->|]; [by rewrite Z.land_0_l in *|].
  pose proof (proj1 (Z.log2_lt_pow2 a n ltac:(lia)) (proj2 Ha)). lia.
Qed.

Lemma land_low x k c : 0 <= k -> 0 <= c < 2 ^ k -> Z.land x c = Z.land (x mod 2 ^ k) c.
Proof.
  intros Hk Hc. rewrite <- (Z.land_ones x k) by done. rewrite <- Z.land_assoc. f_equal.
  rewrite Z.land_comm, Z.land_ones by done. symmetry. by apply Z.mod_small.
Qed.

Lemma land_le x c : 0 <= c -> 0 <= Z.land x c <= c.
Proof.
  intros Hc. split; [apply Z.land_nonneg; auto|].
  pose proof (Z.add_lor_land (Z.ldiff c x) (Z.land c x)) as E.
  rewrite Z.lor_ldiff_and, (Z.land_comm c x), Z.land_assoc, Z.land_ldiff, Z.land_0_l in E.
  pose proof (proj2 (Z.ldiff_nonneg c x) (or_introl Hc)). lia.
Qed.

(** Two neighbouring words shifted together. *)
Lemma lor_words a b n k : 0 <= a < 2 ^ 32 -> 0 <= b -> 0 < n < 32 -> k = 32 - n ->
  Z.lor (Z.shiftr a n) (u32 (Z.shiftl b k)) = a / 2 ^ n + 2 ^ k * (b mod 2 ^ n).
Proof.
  intros Ha Hb Hn ->. rewrite Z.shiftr_div_pow2 by lia.
  assert (u32 (Z.shiftl b (32 - n)) = Z.shiftl (b mod 2 ^ n) (32 - n)) as ->.
  { unfold wrap. rewrite !Z.shiftl_mul_pow2 by lia. replace (2 ^ 32) with (2 ^ n * 2 ^ (32 - n))
      by (rewrite <- Z.pow_add_r by lia; f_equal; lia).
    rewrite Z.mul_mod_distr_r; [done|apply Z.pow_nonzero; lia..]. }
  rewrite lor_low; [lia|lia|]. split; [apply Z.div_pos; [lia|apply Z.pow_pos_nonneg; lia]|].
  apply Z.div_lt_upper_bound; [apply Z.pow_pos_nonneg; lia|]. rewrite <- Z.pow_add_r by lia.
  replace (n + (32 - n)) with 32 by lia. lia.
Qed.

Lemma r_words t0 t1 t2 t3 : 0 <= t0 < 2 ^ 32 -> 0 <= t1 < 2 ^ 32 -> 0 <= t2 < 2 ^ 32 -> 0 <= t3 < 2 ^ 32 ->
  Z.land t0 0x3ffffff + Z.land (Z.lor (Z.shiftr t0 26) (u32 (Z.shiftl t1 6))) 0x3ffff03 * 2 ^ 26 +
  Z.land (Z.lor (Z.shiftr t1 20) (u32 (Z.shiftl t2 12))) 0x3ffc0ff * 2 ^ 52 +
  Z.land (Z.lor (Z.shiftr t2 14) (u32 (Z.shiftl t3 18))) 0x3f03fff * 2 ^ 78 +
  Z.land (Z.shiftr t3 8) 0x00fffff * 2 ^ 104 =
  Z.land (t0 + 2 ^ 32 * t1 + 2 ^ 64 * t2 + 2 ^ 96 * t3) CLAMP.
Proof.
  intros H0 H1 H2 H3. rewrite !lor_words, (Z.shiftr_div_pow2 t3) by lia.
  change CLAMP with (0x3ffffff + (0x3ffff03 + (0x3ffc0ff + (0x3f03fff + 0x00fffff * 2 ^ 26) * 2 ^ 26) * 2 ^ 26) * 2 ^ 26).
  set (a1 := t0 / 2 ^ 26 + 2 ^ 6 * (t1 mod 2 ^ 20)). set (a2 := t1 / 2 ^ 20 + 2 ^ 12 * (t2 mod 2 ^ 14)).
  set (a3 := t2 / 2 ^ 14 + 2 ^ 18 * (t3 mod 2 ^ 8)). set (a4 := t3 / 2 ^ 8).
  assert (0 <= a1 < 2 ^ 26 /\ 0 <= a2 < 2 ^ 26 /\ 0 <= a3 < 2 ^ 26) as (B1 & B2 & B3)
    by (unfold a1, a2, a3; split_and!; dlia).
  replace (t0 + 2 ^ 32 * t1 + 2 ^ 64 * t2 + 2 ^ 96 * t3)
    with (t0 mod 2 ^ 26 + (a1 + (a2 + (a3 + a4 * 2 ^ 26) * 2 ^ 26) * 2 ^ 26) * 2 ^ 26).
  2:{ unfold a1, a2, a3, a4. pose proof (Z.div_mod t0 (2 ^ 26) ltac:(lia)). pose proof (Z.div_mod t1 (2 ^ 20) ltac:(lia)).
      pose proof (Z.div_mod t2 (2 ^ 14) ltac:(lia)). pose proof (Z.div_mod t3 (2 ^ 8) ltac:(lia)). lia. }
  pose proof (Z.mod_pos_bound t0 (2 ^ 26) ltac:(lia)).
  rewrite !land_split by lia.
  rewrite (land_low t0 26) by lia. assert (forall x c, 0 <= c < 2 ^ 26 -> Z.land (x mod 2 ^ 26) c = Z.land x c) as L
    by (intros x c Hc; symmetry; by apply land_low).
  replace (Z.land (t0 / 2 ^ 26 + 2 ^ 6 * (t1 mod 2 ^ 26)) 0x3ffff03) with (Z.land a1 0x3ffff03)
    by (rewrite <- (L _ 0x3ffff03) by lia; rewrite <- (L (t0 / _ + _) 0x3ffff03) by lia; f_equal; unfold a1; dlia).
  replace (Z.land (t1 / 2 ^ 20 + 2 ^ 12 * (t2 mod 2 ^ 20)) 0x3ffc0ff) with (Z.land a2 0x3ffc0ff)
    by (rewrite <- (L _ 0x3ffc0ff) by lia; rewrite <- (L (t1 / _ + _) 0x3ffc0ff) by lia; f_equal; unfold a2; dlia).
  replace (Z.land (t2 / 2 ^ 14 + 2 ^ 18 * (t3 mod 2 ^ 14)) 0x3f03fff) with (Z.land a3 0x3f03fff)
    by (rewrite <- (L _ 0x3f03fff) by lia; rewrite <- (L (t2 / _ + _) 0x3f03fff) by lia; f_equal; unfold a3; dlia).
  lia.
Qed.

Lemma r_spec key : bytes_ok key -> (16 <= length key)%nat ->
  mult_ok (poly1305_r key) /\ lval (poly1305_r key) = Z.land (le_val (take 16 key)) CLAMP.
Proof.
  intros Hok Hl. split.
  - constructor; apply land_le; lia.
  - rewrite le_val_words by (try apply Forall_take; try rewrite length_take; (done || lia)).
    rewrite !load_take by lia. unfold lval, poly1305_r. cbn [l0 l1 l2 l3 l4].
    apply r_words; by apply U8TO32_LE_range.
Qed.

(** ** The message *)

(** The message in pieces of 16 bytes, the last one possibly shorter. *)
Fixpoint chunks (fuel : nat) (m : list Z) : list (list Z) :=
  match fuel, m with
  | S fuel, _ :: _ => take 16 m :: chunks fuel (drop 16 m)
  | _, _ => []
  end.

Definition horner (r a : Z) (c : list Z) : Z := (a + le_val (c ++ [1])) * r mod p1305.

Lemma step_spec h r m hibit a c : acc_ok h -> mult_ok r -> bytes_ok m -> length m = 16%nat ->
  hibit = 0 \/ hibit = 2 ^ 24 -> lval h mod p1305 = a mod p1305 -> le_val m + hibit * 2 ^ 104 = le_val (c ++ [1]) ->
  acc_ok (poly1305_mul (poly1305_add h m hibit) r) /\
  lval (poly1305_mul (poly1305_add h m hibit) r) mod p1305 = horner (lval r) a c mod p1305.
Proof.
  intros Hh Hr Hm Hl Hb Ha Hc. destruct (add_spec h m hibit Hh Hm Hl Hb) as [Hs Es].
  destruct (mul_spec _ r Hs Hr) as [Hok [k Hk]]. split; [done|]. unfold horner.
  rewrite Z.mod_mod by done. rewrite <- Hc.
  replace (lval (poly1305_mul (poly1305_add h m hibit) r))
    with ((lval h + (le_val m + hibit * 2 ^ 104)) * lval r + (- k) * p1305) by (rewrite Es in Hk; lia).
  rewrite Z.mod_add by done. rewrite <- (Z.mul_mod_idemp_l (lval h + _)) by done.
  rewrite <- (Z.add_mod_idemp_l (lval h)), Ha, Z.add_mod_idemp_l, Z.mul_mod_idemp_l by done. done.
Qed.

Lemma horner_mod r a : forall cs, foldl (horner r) a cs mod p1305 = foldl (horner r) a cs \/ cs = [].
Proof.
  intros cs. destruct cs as [|c cs _] using rev_ind; [by right|left].
  rewrite foldl_app. cbn [foldl]. unfold horner at 1 3. by rewrite Z.mod_mod.
Qed.

Lemma horner_eqm r a b cs : a mod p1305 = b mod p1305 ->
  foldl (horner r) a cs mod p1305 = foldl (horner r) b cs mod p1305.
Proof.
  revert a b. induction cs as [|c cs IH]; intros a b H; cbn [foldl]; [done|]. apply IH. unfold horner.
  rewrite <- (Z.mul_mod_idemp_l (a + _)), <- (Z.add_mod_idemp_l a), H by done.
  by rewrite Z.add_mod_idemp_l, Z.mul_mod_idemp_l by done.
Qed.

Lemma blocks_spec r : mult_ok r -> forall fuel h m a, acc_ok h -> bytes_ok m -> lval h mod p1305 = a mod p1305 ->
  acc_ok (poly1305_blocks fuel h r m) /\
  lval (poly1305_blocks fuel h r m) mod p1305 = foldl (horner (lval r)) a (chunks fuel m) mod p1305.
Proof.
  intros Hr. induction fuel as [|fuel IH]; intros h m a Hh Hm Ha; cbn [poly1305_blocks chunks]; [done|].
  destruct (Nat.leb_spec 16 (length m)) as [Hl|Hl].
  - destruct m as [|x m']; [cbn in Hl; lia|]. set (m := x :: m') in *. cbn [foldl].
    destruct (step_spec h r (take 16 m) (Z.shiftl 1 24) a (take 16 m)) as [Hok E]; auto.
    + by apply Forall_take.
    + rewrite length_take. lia.
    + rewrite le_value_app. cbn [le_val]. unfold zlen. rewrite length_take, Nat.min_l by lia. reflexivity || lia.
    + apply IH; [done|by apply Forall_drop|done].
  - destruct m as [|x m']; [done|]. set (m := x :: m') in *.
    rewrite drop_ge, take_ge by lia. assert (chunks fuel [] = []) as -> by by destruct fuel. cbn [foldl].
    apply step_spec; auto.
    + apply Forall_app. split; [done|]. constructor; [unfold byte_ok; lia|]. apply Forall_replicate. unfold byte_ok. lia.
    + rewrite length_app. cbn [length]. rewrite length_replicate. lia.
    + rewrite !le_value_app. cbn [le_val]. rewrite le_val_zeros. lia.
Qed.

(** ** The final reduction *)

(** Limbs in normal form. *)
Definition normal (h : limbs) : Prop :=
  0 <= l0 h < 2 ^ 26 /\ 0 <= l1 h < 2 ^ 26 /\ 0 <= l2 h < 2 ^ 26 /\ 0 <= l3 h < 2 ^ 26 /\ 0 <= l4 h < 2 ^ 26.

Lemma carry_spec h : acc_ok h ->
  normal (poly1305_carry h) /\ exists k, lval h = lval (poly1305_carry h) + p1305 * k.
Proof.
  intros [A0 A1 A2 A3 A4]. unfold poly1305_carry. rewrite !land_mask26, !Z.shiftr_div_pow2 by lia.
  destruct h as [h0 h1 h2 h3 h4]. cbn [l0 l1 l2 l3 l4] in *.
  set (b0 := h0 / 2 ^ 26). assert (0 <= b0 <= 41) as B0 by (unfold b0; dlia).
  rewrite !(wrap_small 32 (h1 + b0)) by lia. set (u1 := h1 + b0) in *.
  set (b1 := u1 / 2 ^ 26). assert (0 <= b1 <= 1) as B1 by (unfold b1, u1; dlia).
  rewrite !(wrap_small 32 (h2 + b1)) by lia. set (u2 := h2 + b1) in *.
  set (b2 := u2 / 2 ^ 26). assert (0 <= b2 <= 1) as B2 by (unfold b2, u2; dlia).
  rewrite !(wrap_small 32 (h3 + b2)) by lia. set (u3 := h3 + b2) in *.
  set (b3 := u3 / 2 ^ 26). assert (0 <= b3 <= 1) as B3 by (unfold b3, u3; dlia).
  rewrite !(wrap_small 32 (h4 + b3)) by lia. set (u4 := h4 + b3) in *.
  set (b4 := u4 / 2 ^ 26). assert (0 <= b4 <= 1) as B4 by (unfold b4, u4; dlia).
  pose proof (Z.mod_pos_bound h0 (2 ^ 26) ltac:(lia)) as M0.
  rewrite !(wrap_small 32 (b4 * 5)), !(wrap_small 32 (h0 mod 2 ^ 26 + b4 * 5)) by lia.
  set (v0 := h0 mod 2 ^ 26 + b4 * 5) in *. pose proof (Z.mod_pos_bound u1 (2 ^ 26) ltac:(lia)) as M1.
  pose proof (Z.mod_pos_bound u2 (2 ^ 26) ltac:(lia)) as M2. pose proof (Z.mod_pos_bound u3 (2 ^ 26) ltac:(lia)) as M3.
  pose proof (Z.mod_pos_bound u4 (2 ^ 26) ltac:(lia)) as M4. pose proof (Z.mod_pos_bound v0 (2 ^ 26) ltac:(lia)) as M5.
  set (b5 := v0 / 2 ^ 26). assert (0 <= b5 <= 1) as B5 by (unfold b5, v0; dlia).
  rewrite !(wrap_small 32 (u1 mod 2 ^ 26 + b5)) by lia.
  (* a carry into the first limb comes with an almost empty second one *)
  assert (u1 mod 2 ^ 26 + b5 < 2 ^ 26) as Hb5.
  { destruct (Z.eq_dec b4 0) as [E4|E4]; [assert (b5 = 0) by (unfold b5, v0; rewrite E4; dlia); lia|].
    assert (u1 mod 2 ^ 26 <= 41); [|lia].
    assert (b3 = 1) by (unfold b4, u4 in *; dlia). assert (b2 = 1) by (unfold b3, u3 in *; dlia).
    assert (b1 = 1) by (unfold b2, u2 in *; dlia). unfold b1, u1 in *. dlia. }
  split; [unfold normal; cbn [l0 l1 l2 l3 l4]; lia|]. exists b4. unfold lval, p1305. cbn [l0 l1 l2 l3 l4].
  pose proof (Z.div_mod h0 (2 ^ 26) ltac:(lia)). pose proof (Z.div_mod u1 (2 ^ 26) ltac:(lia)).
  pose proof (Z.div_mod u2 (2 ^ 26) ltac:(lia)). pose proof (Z.div_mod u3 (2 ^ 26) ltac:(lia)).
  pose proof (Z.div_mod u4 (2 ^ 26) ltac:(lia)). pose proof (Z.div_mod v0 (2 ^ 26) ltac:(lia)).
  unfold b0, b1, b2, b3, b4, b5, v0, u1, u2, u3, u4 in *. lia.
Qed.

(** The masks of the selection. *)
Lemma select_mask x y : 0 <= x < 2 ^ 32 -> 0 <= y < 2 ^ 32 ->
  Z.lor (Z.land x 0) (Z.land y (2 ^ 32 - 1)) = y /\ Z.lor (Z.land x (2 ^ 32 - 1)) (Z.land y 0) = x.
Proof.
  intros Hx Hy. change (2 ^ 32 - 1) with (Z.ones 32). rewrite !Z.land_0_r, Z.lor_0_l, Z.lor_0_r, !Z.land_ones by lia.
  split; by apply Z.mod_small.
Qed.

Lemma select_spec h : normal h ->
  normal (poly1305_select h) /\ lval (poly1305_select h) = lval h mod p1305.
Proof.
  intros (A0 & A1 & A2 & A3 & A4). unfold poly1305_select. rewrite !land_mask26.
  rewrite !(Z.shiftr_div_pow2 _ 26) by lia. change (Z.shiftl 1 26) with (2 ^ 26).
  destruct h as [h0 h1 h2 h3 h4]. cbn [l0 l1 l2 l3 l4] in *.
  rewrite !(wrap_small 32 (h0 + 5)) by lia. set (u0 := h0 + 5) in *.
  set (b0 := u0 / 2 ^ 26). assert (0 <= b0 <= 1) as B0 by (unfold b0, u0; dlia).
  rewrite !(wrap_small 32 (h1 + b0)) by lia. set (u1 := h1 + b0) in *.
  set (b1 := u1 / 2 ^ 26). assert (0 <= b1 <= 1) as B1 by (unfold b1, u1; dlia).
  rewrite !(wrap_small 32 (h2 + b1)) by lia. set (u2 := h2 + b1) in *.
  set (b2 := u2 / 2 ^ 26). assert (0 <= b2 <= 1) as B2 by (unfold b2, u2; dlia).
  rewrite !(wrap_small 32 (h3 + b2)) by lia. set (u3 := h3 + b2) in *.
  set (b3 := u3 / 2 ^ 26). assert (0 <= b3 <= 1) as B3 by (unfold b3, u3; dlia).
  rewrite !(wrap_small 32 (h4 + b3)) by lia. set (u4 := h4 + b3) in *.
  pose proof (Z.mod_pos_bound u0 (2 ^ 26) ltac:(lia)) as M0. pose proof (Z.mod_pos_bound u1 (2 ^ 26) ltac:(lia)) as M1.
  pose proof (Z.mod_pos_bound u2 (2 ^ 26) ltac:(lia)) as M2. pose proof (Z.mod_pos_bound u3 (2 ^ 26) ltac:(lia)) as M3.
  pose proof (Z.div_mod u0 (2 ^ 26) ltac:(lia)). pose proof (Z.div_mod u1 (2 ^ 26) ltac:(lia)).
  pose proof (Z.div_mod u2 (2 ^ 26) ltac:(lia)). pose proof (Z.div_mod u3 (2 ^ 26) ltac:(lia)).
  set (h := mk_limbs h0 h1 h2 h3 h4).
  set (g := mk_limbs (u0 mod 2 ^ 26) (u1 mod 2 ^ 26) (u2 mod 2 ^ 26) (u3 mod 2 ^ 26) (u4 - 2 ^ 26)).
  assert (lval g = lval h - p1305) as Eg.
  { unfold g, h, lval, p1305. cbn [l0 l1 l2 l3 l4]. unfold b0, b1, b2, b3, u0, u1, u2, u3, u4 in *. lia. }
  assert (0 <= lval h < 2 ^ 130) as Hh by (unfold h, lval; cbn [l0 l1 l2 l3 l4]; lia).
  destruct (Z.lt_ge_cases u4 (2 ^ 26)) as [Hlt|Hge].
  - (* below the modulus: kept *)
    assert (u32 (u4 - 2 ^ 26) = u4 - 2 ^ 26 + 2 ^ 32) as E4.
    { unfold wrap. rewrite <- (Z.mod_add _ 1) by lia. apply Z.mod_small. lia. }
    rewrite E4. replace (Z.shiftr (u4 - 2 ^ 26 + 2 ^ 32) 31) with 1
      by (rewrite Z.shiftr_div_pow2 by lia; dlia).
    change (u32 (1 - 1)) with 0. change (u32 (Z.lnot 0)) with (2 ^ 32 - 1).
    rewrite !(fun x y Hx Hy => proj2 (select_mask x y Hx Hy)) by lia. fold h.
    split; [unfold normal, h; cbn [l0 l1 l2 l3 l4]; lia|]. symmetry. apply Z.mod_small.
    assert (lval g < 0) by (unfold g, lval; cbn [l0 l1 l2 l3 l4]; lia). lia.
  - rewrite (wrap_small 32 (u4 - 2 ^ 26)) by lia.
    replace (Z.shiftr (u4 - 2 ^ 26) 31) with 0 by (rewrite Z.shiftr_div_pow2 by lia; dlia).
    change (u32 (0 - 1)) with (2 ^ 32 - 1). change (u32 (Z.lnot (2 ^ 32 - 1))) with 0.
    rewrite !(fun x y Hx Hy => proj1 (select_mask x y Hx Hy)) by lia. fold g.
    split; [unfold normal, g; cbn [l0 l1 l2 l3 l4]; lia|]. rewrite Eg.
    rewrite <- (Z.mod_add (lval h) (-1)) by done. rewrite Z.mod_small; [unfold p1305; lia|].
    assert (0 <= lval g) by (unfold g, lval; cbn [l0 l1 l2 l3 l4]; lia). unfold p1305 in *. lia.
Qed.

(** ** The tag *)

Lemma lor_limbs a b n k : 0 <= a < 2 ^ 26 -> 0 <= b -> 0 <= n <= 26 -> k = 26 - n ->
  Z.lor (Z.shiftr a n) (u32 (Z.shiftl b k)) = a / 2 ^ n + 2 ^ k * (b mod 2 ^ (32 - k)).
Proof.
  intros Ha Hb Hn ->. rewrite Z.shiftr_div_pow2 by lia.
  assert (u32 (Z.shiftl b (26 - n)) = Z.shiftl (b mod 2 ^ (32 - (26 - n))) (26 - n)) as ->.
  { unfold wrap. rewrite !Z.shiftl_mul_pow2 by lia. replace (2 ^ 32) with (2 ^ (32 - (26 - n)) * 2 ^ (26 - n))
      by (rewrite <- Z.pow_add_r by lia; f_equal; lia).
    rewrite Z.mul_mod_distr_r; [done|apply Z.pow_nonzero; lia..]. }
  rewrite lor_low; [lia|lia|]. split; [apply Z.div_pos; [lia|apply Z.pow_pos_nonneg; lia]|].
  apply Z.div_lt_upper_bound; [apply Z.pow_pos_nonneg; lia|]. rewrite <- Z.pow_add_r by lia.
  replace (n + (26 - n)) with 26 by lia. lia.
Qed.

Lemma le_val_store_mod v : 0 <= v -> le_val (U32TO8_LE v) = v mod 2 ^ 32.
Proof.
  intros Hv. unfold U32TO8_LE, wrap. cbn [le_val]. rewrite !Z.shiftr_div_pow2 by lia.
  change (2 ^ 8) with 256. change (2 ^ 16) with 65536. change (2 ^ 24) with 16777216.
  change (2 ^ 32) with 4294967296. dlia.
Qed.

(** Four words added with their carries. *)
Lemma add_words w0 w1 w2 w3 k0 k1 k2 k3 :
  0 <= w0 < 2 ^ 32 -> 0 <= w1 < 2 ^ 32 -> 0 <= w2 < 2 ^ 32 -> 0 <= w3 < 2 ^ 32 ->
  0 <= k0 < 2 ^ 32 -> 0 <= k1 < 2 ^ 32 -> 0 <= k2 < 2 ^ 32 -> 0 <= k3 < 2 ^ 32 ->
  let f0 := u64 (w0 + k0) in
  let f1 := u64 (u64 (w1 + k1) + Z.shiftr f0 32) in
  let f2 := u64 (u64 (w2 + k2) + Z.shiftr f1 32) in
  let f3 := u64 (u64 (w3 + k3) + Z.shiftr f2 32) in
  le_val (U32TO8_LE f0 ++ U32TO8_LE f1 ++ U32TO8_LE f2 ++ U32TO8_LE f3) =
  (w0 + 2 ^ 32 * w1 + 2 ^ 64 * w2 + 2 ^ 96 * w3 + (k0 + 2 ^ 32 * k1 + 2 ^ 64 * k2 + 2 ^ 96 * k3)) mod 2 ^ 128.
Proof.
  intros W0 W1 W2 W3 K0 K1 K2 K3 f0 f1 f2 f3. rewrite !le_value_app.
  change (256 ^ zlen (U32TO8_LE f0)) with (2 ^ 32). change (256 ^ zlen (U32TO8_LE f1)) with (2 ^ 32).
  change (256 ^ zlen (U32TO8_LE f2)) with (2 ^ 32).
  assert (f0 = w0 + k0) as E0 by (apply wrap_small; lia).
  assert (f1 = w1 + k1 + f0 / 2 ^ 32 /\ 0 <= f1 < 2 ^ 34) as [E1 B1].
  { assert (0 <= f0 / 2 ^ 32 < 2 ^ 32) by (rewrite E0; dlia).
    unfold f1. rewrite Z.shiftr_div_pow2, !wrap_small by (rewrite ?wrap_small; lia). lia. }
  assert (f2 = w2 + k2 + f1 / 2 ^ 32 /\ 0 <= f2 < 2 ^ 34) as [E2 B2].
  { assert (0 <= f1 / 2 ^ 32 < 2 ^ 32) by (clear - B1; dlia).
    unfold f2. rewrite Z.shiftr_div_pow2, !wrap_small by (rewrite ?wrap_small; lia). lia. }
  assert (f3 = w3 + k3 + f2 / 2 ^ 32 /\ 0 <= f3 < 2 ^ 34) as [E3 B3].
  { assert (0 <= f2 / 2 ^ 32 < 2 ^ 32) by (clear - B2; dlia).
    unfold f3. rewrite Z.shiftr_div_pow2, !wrap_small by (rewrite ?wrap_small; lia). lia. }
  clearbody f0 f1 f2 f3. rewrite !le_val_store_mod by lia.
  pose proof (Z.div_mod f0 (2 ^ 32) ltac:(lia)). pose proof (Z.div_mod f1 (2 ^ 32) ltac:(lia)).
  pose proof (Z.div_mod f2 (2 ^ 32) ltac:(lia)). pose proof (Z.div_mod f3 (2 ^ 32) ltac:(lia)).
  pose proof (Z.mod_pos_bound f0 (2 ^ 32) ltac:(lia)). pose proof (Z.mod_pos_bound f1 (2 ^ 32) ltac:(lia)).
  pose proof (Z.mod_pos_bound f2 (2 ^ 32) ltac:(lia)). pose proof (Z.mod_pos_bound f3 (2 ^ 32) ltac:(lia)).
  apply Z.mod_unique_pos with (f3 / 2 ^ 32); lia.
Qed.

Lemma tag_spec h key : normal h -> bytes_ok key -> length key = 32%nat ->
  length (poly1305_tag h key) = 16%nat /\ bytes_ok (poly1305_tag h key) /\
  le_val (poly1305_tag h key) = (lval h + le_val (drop 16 key)) mod 2 ^ 128.
Proof.
  intros (A0 & A1 & A2 & A3 & A4) Hok Hl. split_and!; [done|unfold poly1305_tag, bytes_ok; rewrite !Forall_app; split_and!; apply bytes_ok_store|].
  rewrite (le_val_words (drop 16 key)) by (try apply Forall_drop; try rewrite length_drop; (done || lia)).
  rewrite !load_drop. unfold poly1305_tag.
  replace (Z.lor (l0 h) (u32 (Z.shiftl (l1 h) 26))) with (Z.lor (Z.shiftr (l0 h) 0) (u32 (Z.shiftl (l1 h) 26))) by done.
  rewrite !lor_limbs by lia. cbn [Nat.add].
  change (32 - 26) with 6. change (32 - 20) with 12. change (32 - 14) with 18. change (32 - 8) with 24.
  change (2 ^ 0) with 1. rewrite Z.div_1_r. destruct h as [h0 h1 h2 h3 h4]. cbn [l0 l1 l2 l3 l4] in *.
  pose proof (Z.div_mod h1 (2 ^ 6) ltac:(lia)). pose proof (Z.div_mod h2 (2 ^ 12) ltac:(lia)).
  pose proof (Z.div_mod h3 (2 ^ 18) ltac:(lia)). pose proof (Z.div_mod h4 (2 ^ 24) ltac:(lia)).
  pose proof (Z.mod_pos_bound h1 (2 ^ 6) ltac:(lia)). pose proof (Z.mod_pos_bound h2 (2 ^ 12) ltac:(lia)).
  pose proof (Z.mod_pos_bound h3 (2 ^ 18) ltac:(lia)). pose proof (Z.mod_pos_bound h4 (2 ^ 24) ltac:(lia)).
  rewrite add_words by (first [by apply U8TO32_LE_range|lia]).
  unfold lval. cbn [l0 l1 l2 l3 l4].
  rewrite <- (Z.mod_add (_ + _) (h4 / 2 ^ 24)) by done. f_equal. lia.
Qed.

Lemma poly1305_length m key : length (poly1305_auth m key) = 16%nat.
Proof. reflexivity. Qed.

Lemma poly1305_bytes_ok m key : bytes_ok (poly1305_auth m key).
Proof.
  unfold poly1305_auth, poly1305_tag, bytes_ok. rewrite !Forall_app. split_and!; apply bytes_ok_store.
Qed.

(** ** The theorem *)

(** C17: [poly1305_auth] is Poly1305 (RFC 7539, 2.5): the tag is the message
    polynomial, whose coefficients are the 16-byte blocks with a one appended,
    evaluated modulo 2^130 - 5 at the clamped first half of the key, plus the
    second half, modulo 2^128, as 16 bytes. None of the 32- and 64-bit
    operations on the way loses a bit. *)
Theorem poly1305_correct m key : bytes_ok m -> bytes_ok key -> length key = 32%nat ->
  let r := Z.land (le_val (take 16 key)) CLAMP in
  length (poly1305_auth m key) = 16%nat /\ bytes_ok (poly1305_auth m key) /\
  le_val (poly1305_auth m key) =
    (foldl (fun a c => (a + le_val (c ++ [1])) * r mod (2 ^ 130 - 5)) 0 (chunks (S (length m)) m)
     + le_val (drop 16 key)) mod 2 ^ 128.
Proof.
  intros Hm Hk Hl r. destruct (r_spec key Hk ltac:(lia)) as [Hr Er].
  destruct (blocks_spec _ Hr (S (length m)) (mk_limbs 0 0 0 0 0) m 0) as [Hb Eb];
    [constructor; cbn; lia|done|done|].
  destruct (carry_spec _ Hb) as [Hc [k Ek]]. destruct (select_spec _ Hc) as [Hs Es].
  unfold poly1305_auth. destruct (tag_spec _ key Hs Hk Hl) as (L & B & T). split_and!; [done..|].
  rewrite T, Es. f_equal. f_equal. rewrite Er in Eb. fold r in Eb.
  change (fun a c => (a + le_val (c ++ [1])) * r mod (2 ^ 130 - 5)) with (horner r).
  transitivity (foldl (horner r) 0 (chunks (S (length m)) m) mod p1305).
  - rewrite <- Eb, Ek. by rewrite Z.mul_comm, Z.mod_add.
  - by destruct (horner_mod r 0 (chunks (S (length m)) m)) as [E|E]; rewrite E.
Qed.

Lemma poly1305_correct_witness :
  let m := str "Cryptographic Forum Research Group" in
  let r := Z.land (le_val (take 16 rfc_key)) CLAMP in
  length (poly1305_auth m rfc_key) = 16%nat /\ bytes_ok (poly1305_auth m rfc_key) /\
  le_val (poly1305_auth m rfc_key) =
    (foldl (fun a c => (a + le_val (c ++ [1])) * r mod (2 ^ 130 - 5)) 0 (chunks (S (length m)) m)
     + le_val (drop 16 rfc_key)) mod 2 ^ 128.
Proof.
  apply (poly1305_correct (str "Cryptographic Forum Research Group") rfc_key).
  - apply (bool_decide_unpack (Forall (fun b => 0 <= b < 256) _)). vm_compute. exact I.
  - apply (bool_decide_unpack (Forall (fun b => 0 <= b < 256) _)). vm_compute. exact I.
  - reflexivity.
Defined.
