(* ===== verification/Chacha.v ===== *)
(** * The stream cipher: [chacha.c]

    The 16-word state, the rounds, and the loop of [chacha_encrypt_bytes] with
    its 64-byte blocks and the partial last block through [tmp]; proved to be
    the exclusive or with a key stream, hence its own inverse. *)

From S2P Require Import Prelude Words.

(** ** Setting up *)

(** struct chacha_ctx: the words [input[0..15]]. *)
Abbreviation chacha_ctx := (list Z).

Definition word (x : list Z) (i : nat) : Z := nth i x 0.

Definition PLUS (v w : Z) : Z := u32 (v + w).
Definition XOR (v w : Z) : Z := Z.lxor v w.
Definition ROTATE (v n : Z) : Z := Z.lor (u32 (Z.shiftl v n)) (Z.shiftr v (32 - n)).
Definition PLUSONE (v : Z) : Z := PLUS v 1.

Definition sigma : list Z := str "expand 32-byte k".
Definition tau : list Z := str "expand 16-byte k".

(** [chacha_keysetup]: words 12 to 15 keep their values. *)
Definition chacha_keysetup (x : chacha_ctx) (k : list Z) (kbits : Z) : chacha_ctx :=
  let '(k', constants) := if kbits =? 256 then (drop 16 k, sigma) else (k, tau) in
  [U8TO32_LE constants 0; U8TO32_LE constants 4; U8TO32_LE constants 8; U8TO32_LE constants 12;
   U8TO32_LE k 0; U8TO32_LE k 4; U8TO32_LE k 8; U8TO32_LE k 12;
   U8TO32_LE k' 0; U8TO32_LE k' 4; U8TO32_LE k' 8; U8TO32_LE k' 12;
   word x 12; word x 13; word x 14; word x 15].

(** [chacha_ivsetup]; a NULL counter is zero. *)
Definition chacha_ivsetup (x : chacha_ctx) (iv : list Z) (counter : option (list Z)) : chacha_ctx :=
  take 12 x ++
  [match counter with None => 0 | Some c => U8TO32_LE c 0 end;
   match counter with None => 0 | Some c => U8TO32_LE c 4 end;
   U8TO32_LE iv 0; U8TO32_LE iv 4].

(** ** The rounds *)

Definition QUARTERROUND (x : list Z) (a b c d : nat) : list Z :=
  let x := <[a := PLUS (word x a) (word x b)]> x in
  let x := <[d := ROTATE (XOR (word x d) (word x a)) 16]> x in
  let x := <[c := PLUS (word x c) (word x d)]> x in
  let x := <[b := ROTATE (XOR (word x b) (word x c)) 12]> x in
  let x := <[a := PLUS (word x a) (word x b)]> x in
  let x := <[d := ROTATE (XOR (word x d) (word x a)) 8]> x in
  let x := <[c := PLUS (word x c) (word x d)]> x in
  <[b := ROTATE (XOR (word x b) (word x c)) 7]> x.

Definition double_round (x : list Z) : list Z :=
  let x := QUARTERROUND x 0 4 8 12 in
  let x := QUARTERROUND x 1 5 9 13 in
  let x := QUARTERROUND x 2 6 10 14 in
  let x := QUARTERROUND x 3 7 11 15 in
  let x := QUARTERROUND x 0 5 10 15 in
  let x := QUARTERROUND x 1 6 11 12 in
  let x := QUARTERROUND x 2 7 8 13 in
  QUARTERROUND x 3 4 9 14.

(** The words of the key stream for the state [j]: twenty rounds and the sum. *)
Definition chacha_core (j : list Z) : list Z :=
  zip_with PLUS (Nat.iter 10 double_round j) j.

(** ** Encryption *)

(** One block: the words xored with the 64 bytes of [m], stored. *)
Definition xor_block (x : list Z) (m : list Z) : list Z :=
  concat (imap (fun i w => U32TO8_LE (XOR w (U8TO32_LE m (4 * i)))) x).

(** The block counter in words 12 and 13. *)
Definition bump (j : list Z) : list Z :=
  let j12 := PLUSONE (word j 12) in
  let j := <[12%nat := j12]> j in
  if j12 =? 0 then <[13%nat := PLUSONE (word j 13)]> j else j.

(** The loop; [m] is what is left of the input. A last block of less than 64
    bytes goes through [tmp], whose unused end is not copied out (it is taken
    as zeros). Every round consumes 64 bytes, so the length is enough fuel. *)
Fixpoint chacha_loop (fuel : nat) (j : list Z) (m : list Z) : list Z * list Z :=
  match fuel with
  | O => ([], j)
  | S fuel =>
      let m64 := if (length m <? 64)%nat then m ++ replicate (64 - length m) 0 else take 64 m in
      let c := xor_block (chacha_core j) m64 in
      let j := bump j in
      if (length m <=? 64)%nat then (take (length m) c, j)
      else let '(c', j) := chacha_loop fuel j (drop 64 m) in (c ++ c', j)
  end.

(** The bytes written to [c] and the context afterwards (only the counter is
    stored back). *)
Definition chacha_encrypt_bytes (x : chacha_ctx) (m : list Z) : list Z * chacha_ctx :=
  match m with
  | [] => ([], x)
  | _ => let '(c, j) := chacha_loop (length m) x m in
         (c, <[13%nat := word j 13]> (<[12%nat := word j 12]> x))
  end.

(** The block of RFC 7539, section 2.3.2. *)
Example chacha_rfc :
  take 16 (chacha_encrypt_bytes
    (take 12 (chacha_keysetup (replicate 16 0) (map Z.of_nat (seq 0 32)) 256) ++ [1; 0x09000000; 0x4a000000; 0])
    (replicate 64 0)).1 =
  [0x10; 0xf1; 0xe7; 0xe4; 0xd1; 0x3b; 0x59; 0x15; 0x50; 0x0f; 0xdd; 0x1f; 0xa3; 0x20; 0x71; 0xc4].
Proof. vm_compute. reflexivity. Qed.

(** ** The key stream *)

Definition serialize (x : list Z) : list Z := concat (map U32TO8_LE x).

(** [n] blocks of key stream from the state [j] on. *)
Fixpoint keystream (n : nat) (j : list Z) : list Z :=
  match n with
  | O => []
  | S n => serialize (chacha_core j) ++ keystream n (bump j)
  end.

Definition state_ok (x : list Z) : Prop := length x = 16%nat.

Lemma QUARTERROUND_length x a b c d : length (QUARTERROUND x a b c d) = length x.
Proof. unfold QUARTERROUND. by rewrite !length_insert. Qed.

Lemma double_round_length x : length (double_round x) = length x.
Proof. unfold double_round. cbv zeta. rewrite !QUARTERROUND_length. reflexivity. Qed.

Lemma core_length j : state_ok j -> length (chacha_core j) = 16%nat.
Proof.
  unfold state_ok. intros Hj. unfold chacha_core. rewrite length_zip_with.
  assert (forall n, length (Nat.iter n double_round j) = length j) as ->.
  { induction n as [|n IH]; [done|]. change (Nat.iter (S n) double_round j) with (double_round (Nat.iter n double_round j)).
    rewrite double_round_length. exact IH. }
  lia.
Qed.

Lemma core_range j : Forall (fun w => 0 <= w < 2 ^ 32) (chacha_core j).
Proof.
  unfold chacha_core. rewrite Forall_lookup. intros i w Hw.
  apply lookup_zip_with_Some in Hw as (v & u & -> & _). apply wrap_range. lia.
Qed.

Lemma bump_ok j : state_ok j -> state_ok (bump j).
Proof. unfold state_ok, bump. intros <-. case_match; by rewrite ?length_insert. Qed.

(** ** The exclusive or *)

Lemma u8_lxor a b : u8 (Z.lxor a b) = Z.lxor (u8 a) (u8 b).
Proof.
  unfold wrap. apply Z.bits_inj'. intros n Hn. rewrite Z.lxor_spec.
  destruct (Z.lt_ge_cases n 8).
  - by rewrite !Z.mod_pow2_bits_low, Z.lxor_spec by lia.
  - by rewrite !Z.mod_pow2_bits_high by lia.
Qed.

(** Storing a word xored with four bytes. *)
Lemma store_xor w a b c d rest : byte_ok a -> byte_ok b -> byte_ok c -> byte_ok d ->
  U32TO8_LE (XOR w (U8TO32_LE (a :: b :: c :: d :: rest) 0)) = zip_with Z.lxor (U32TO8_LE w) [a; b; c; d].
Proof.
  unfold byte_ok. intros Ha Hb Hc Hd. unfold XOR, U32TO8_LE.
  assert (U8TO32_LE (a :: b :: c :: d :: rest) 0 = a + 256 * b + 65536 * c + 16777216 * d) as E.
  { rewrite <- (load_take 4) by lia. rewrite U8TO32_LE_sum; [done|]. repeat constructor; unfold byte_ok; lia. }
  set (v := U8TO32_LE _ 0) in *. rewrite !Z.shiftr_lxor, !u8_lxor. cbn [zip_with].
  assert (u8 v = a) as -> by (rewrite E; unfold wrap; change (2 ^ 8) with 256; dlia).
  assert (u8 (Z.shiftr v 8) = b) as ->
    by (rewrite E, Z.shiftr_div_pow2 by lia; unfold wrap; change (2 ^ 8) with 256; dlia).
  assert (u8 (Z.shiftr v 16) = c) as ->
    by (rewrite E, Z.shiftr_div_pow2 by lia; unfold wrap; change (2 ^ 8) with 256; change (2 ^ 16) with 65536; dlia).
  assert (u8 (Z.shiftr v 24) = d) as ->
    by (rewrite E, Z.shiftr_div_pow2 by lia; unfold wrap; change (2 ^ 8) with 256; change (2 ^ 24) with 16777216; dlia).
  done.
Qed.

Lemma serialize_length x : length (serialize x) = (4 * length x)%nat.
Proof. unfold serialize. induction x as [|w x IH]; [done|]. cbn [map concat]. rewrite length_app, IH. cbn. lia. Qed.

Lemma xor_block_spec x : forall m, bytes_ok m -> length m = (4 * length x)%nat ->
  xor_block x m = zip_with Z.lxor (serialize x) m.
Proof.
  induction x as [|w x IH]; intros m Hm Hl; [by destruct m|].
  destruct m as [|a [|b [|c [|d m]]]]; cbn [length] in Hl; try lia.
  unfold xor_block. rewrite imap_cons. cbn [concat]. unfold serialize. cbn [map concat]. fold (serialize x).
  unfold bytes_ok in Hm. rewrite !Forall_cons in Hm. destruct Hm as (? & ? & ? & ? & Hm).
  rewrite store_xor by done.
  change (a :: b :: c :: d :: m) with ([a; b; c; d] ++ m) at 2. rewrite zip_with_app by done. f_equal.
  rewrite <- IH by (done || lia). unfold xor_block. f_equal. apply imap_ext. intros i v _. unfold compose.
  replace (4 * S i)%nat with (4 + 4 * i)%nat by lia. rewrite <- load_drop. done.
Qed.

Lemma serialize_ok x : bytes_ok (serialize x).
Proof.
  unfold serialize, bytes_ok. induction x as [|w x IH]; [constructor|]. cbn [map concat].
  apply Forall_app. split; [apply bytes_ok_store|done].
Qed.

Lemma keystream_ok n : forall j, bytes_ok (keystream n j).
Proof.
  induction n as [|n IH]; intros j; cbn [keystream]; [constructor|]. apply Forall_app. split; [apply serialize_ok|apply IH].
Qed.

Lemma keystream_length n : forall j, state_ok j -> length (keystream n j) = (64 * n)%nat.
Proof.
  induction n as [|n IH]; intros j Hj; cbn [keystream]; [done|].
  rewrite length_app, serialize_length, core_length, IH by auto using bump_ok. lia.
Qed.

Lemma zip_take {A B C} (f : A -> B -> C) : forall l k, zip_with f l k = zip_with f (take (length k) l) k.
Proof. intros l. induction l as [|x l IH]; intros [|y k]; cbn; [done..|]. by rewrite <- IH. Qed.

(** The loop is the exclusive or with enough key stream. *)
Lemma chacha_loop_spec fuel : forall j m, state_ok j -> bytes_ok m -> m <> [] -> (length m <= fuel)%nat ->
  (chacha_loop fuel j m).1 = zip_with Z.lxor (keystream fuel j) m.
Proof.
  induction fuel as [|fuel IH]; intros j m Hj Hm Hne Hf; [destruct m; [done|cbn in Hf; lia]|].
  cbn [chacha_loop keystream]. pose proof (core_length j Hj) as Hc. pose proof (serialize_length (chacha_core j)) as Hs.
  destruct (Nat.leb_spec (length m) 64) as [Hl|Hl]; cbn [fst].
  - assert (take (length m) (xor_block (chacha_core j)
      (if (length m <? 64)%nat then m ++ replicate (64 - length m) 0 else take 64 m)) =
      zip_with Z.lxor (take (length m) (serialize (chacha_core j))) m) as ->.
    { destruct (Nat.ltb_spec (length m) 64).
      - rewrite xor_block_spec; [rewrite zip_with_take; by rewrite take_app_length| |].
        + apply Forall_app. split; [done|]. apply Forall_replicate. unfold byte_ok. lia.
        + rewrite length_app, length_replicate. lia.
      - rewrite xor_block_spec; [|by apply Forall_take|rewrite length_take; lia].
        by rewrite zip_with_take, take_take, (take_ge m) by lia. }
    rewrite (zip_take _ (_ ++ _)). by rewrite take_app_le by lia.
  - rewrite (proj2 (Nat.ltb_ge _ _)) by lia.
    assert (length (drop 64 m) <= fuel)%nat as Hd by (rewrite length_drop; lia).
    specialize (IH (bump j) (drop 64 m) (bump_ok j Hj) (Forall_drop _ _ _ Hm)).
    destruct (chacha_loop fuel (bump j) (drop 64 m)) as [c' j']. cbn [fst] in *.
    rewrite IH; [|intros E; apply (f_equal length) in E; rewrite length_drop in E; cbn in E; lia|done].
    rewrite xor_block_spec; [|by apply Forall_take|rewrite length_take; lia].
    rewrite <- zip_with_app by (rewrite length_take; lia). by rewrite take_drop.
Qed.

Lemma encrypt_spec x m : state_ok x -> bytes_ok m ->
  (chacha_encrypt_bytes x m).1 = zip_with Z.lxor (keystream (length m) x) m.
Proof.
  intros Hx Hm. unfold chacha_encrypt_bytes. destruct m as [|a m]; [done|].
  pose proof (chacha_loop_spec (length (a :: m)) x (a :: m) Hx Hm ltac:(done) ltac:(lia)) as E.
  by destruct (chacha_loop _ _ _).
Qed.

Lemma byte_lxor a b : byte_ok a -> byte_ok b -> byte_ok (Z.lxor a b).
Proof.
  unfold byte_ok. intros Ha Hb. rewrite <- (wrap_small 8 a), <- (wrap_small 8 b), <- u8_lxor by lia.
  apply (wrap_range 8). lia.
Qed.

Lemma encrypt_length x m : state_ok x -> bytes_ok m -> length (chacha_encrypt_bytes x m).1 = length m.
Proof.
  intros Hx Hm. rewrite encrypt_spec by done. rewrite length_zip_with, keystream_length by done. lia.
Qed.

Lemma encrypt_bytes_ok x m : state_ok x -> bytes_ok m -> bytes_ok (chacha_encrypt_bytes x m).1.
Proof.
  intros Hx Hm. rewrite encrypt_spec by done. unfold bytes_ok in *. rewrite Forall_lookup in *. intros i v Hv.
  apply lookup_zip_with_Some in Hv as (a & b & -> & Ha & Hb). apply byte_lxor; [|by eapply Hm].
  pose proof (keystream_ok (length m) x) as K. unfold bytes_ok in K. rewrite Forall_lookup in K. by eapply K.
Qed.

Lemma zip_xor_twice k : forall m, (length m <= length k)%nat ->
  zip_with Z.lxor k (zip_with Z.lxor k m) = m.
Proof.
  induction k as [|x k IH]; intros [|y m] Hl; cbn in *; [done|lia|done|].
  rewrite IH by lia. f_equal. by rewrite <- Z.lxor_assoc, Z.lxor_nilpotent, Z.lxor_0_l.
Qed.

(** The same call decrypts. *)
Lemma encrypt_involutive x m : state_ok x -> bytes_ok m ->
  (chacha_encrypt_bytes x (chacha_encrypt_bytes x m).1).1 = m.
Proof.
  intros Hx Hm. rewrite (encrypt_spec x (_.1)) by auto using encrypt_bytes_ok.
  rewrite encrypt_length, (encrypt_spec x m) by done. apply zip_xor_twice.
  rewrite keystream_length by done. lia.
Qed.

(** A prefix of the input gives a prefix of the output. *)
Lemma encrypt_prefix x m n : state_ok x -> bytes_ok m -> (n <= length m)%nat ->
  (chacha_encrypt_bytes x (take n m)).1 = take n (chacha_encrypt_bytes x m).1.
Proof.
  intros Hx Hm Hn. rewrite !encrypt_spec by (try apply Forall_take; done).
  rewrite zip_with_take, (zip_take _ (keystream (length (take n m)) x)). f_equal.
  rewrite length_take, Nat.min_l by done.
  assert (forall a b, (a <= b)%nat -> exists k, keystream b x = keystream a x ++ k) as P.
  { clear. intros a. revert x. induction a as [|a IH]; intros x b Hab; [by eexists|].
    destruct b as [|b]; [lia|]. destruct (IH (bump x) b ltac:(lia)) as [k Hk]. exists k. cbn [keystream].
    by rewrite Hk, <- app_assoc. }
  destruct (P n (length m) Hn) as [k ->]. rewrite take_app_le; [done|]. rewrite keystream_length by done. lia.
Qed.
