(* ===== verification/ChachaPoly.v ===== *)
(** * chacha20-poly1305@openssh.com: [cipher-chachapoly.c]

    The packet cipher built from [chacha.c] and [poly1305.c]: one key stream
    for the length field, one for the rest, and a tag over the ciphertext. *)

From S2P Require Import Prelude Ssherr Words Chacha Poly1305 Poly1305Thms.
From S2P Require Import Sshbuf SshbufGetput SshbufWire.

Record chachapoly_ctx := mk_cp { cp_main : chacha_ctx; cp_header : chacha_ctx }.

(** [chachapoly_new]; [ok]: whether calloc succeeds. *)
Definition chachapoly_new (ok : bool) (key : list Z) (keylen : Z) : option chachapoly_ctx :=
  if negb (keylen =? 32 + 32) then None
  else if negb ok then None
  else Some (mk_cp (chacha_keysetup (replicate 16 0) key 256)
                   (chacha_keysetup (replicate 16 0) (drop 32 key) 256)).

Definition one : list Z := [1; 0; 0; 0; 0; 0; 0; 0].

(** [timingsafe_bcmp] of [n] bytes. *)
Definition timingsafe_bcmp (a b : list Z) (n : nat) : bool := negb (bool_decide (take n a = take n b)).

(** [chachapoly_crypt]: the bytes written to [dest], and the context after. *)
Definition chachapoly_crypt (ctx : chachapoly_ctx) (seqnr : Z) (src : list Z) (len aadlen : nat)
    (do_encrypt : bool) : res (list Z) * chachapoly_ctx :=
  let seqbuf := POKE_U64 seqnr in
  let main := chacha_ivsetup (cp_main ctx) seqbuf None in
  let '(poly_key, main) := chacha_encrypt_bytes main (replicate POLY1305_KEYLEN 0) in
  let expected_tag := poly1305_auth (take (aadlen + len) src) poly_key in
  if negb do_encrypt && timingsafe_bcmp expected_tag (drop (aadlen + len) src) POLY1305_TAGLEN
  then (Err SSH_ERR_MAC_INVALID, mk_cp main (cp_header ctx))
  else
    let '(aad, header) :=
      match aadlen with
      | O => ([], cp_header ctx)
      | _ => chacha_encrypt_bytes (chacha_ivsetup (cp_header ctx) seqbuf None) (take aadlen src)
      end in
    let main := chacha_ivsetup main seqbuf (Some one) in
    let '(body, main) := chacha_encrypt_bytes main (take len (drop aadlen src)) in
    let dest := aad ++ body in
    let dest := if do_encrypt then dest ++ poly1305_auth dest poly_key else dest in
    (Ok dest, mk_cp main header).

(** [chachapoly_get_length] and the context after. *)
Definition chachapoly_get_length (ctx : chachapoly_ctx) (seqnr : Z) (cp : list Z) (len : Z)
  : res Z * chachapoly_ctx :=
  if len <? 4 then (Err SSH_ERR_MESSAGE_INCOMPLETE, ctx)
  else
    let '(buf, header) :=
      chacha_encrypt_bytes (chacha_ivsetup (cp_header ctx) (POKE_U64 seqnr) None) (take 4 cp) in
    (Ok (PEEK_U32 buf), mk_cp (cp_main ctx) header).

(** ** What the context remembers *)

(** Only the key words matter: the rest is set up anew by every call. *)
Definition same_key (c d : chachapoly_ctx) : Prop :=
  state_ok (cp_main c) /\ state_ok (cp_header c) /\ state_ok (cp_main d) /\ state_ok (cp_header d) /\
  take 12 (cp_main c) = take 12 (cp_main d) /\ take 12 (cp_header c) = take 12 (cp_header d).

Lemma ivsetup_key x y iv c : take 12 x = take 12 y -> chacha_ivsetup x iv c = chacha_ivsetup y iv c.
Proof. intros E. unfold chacha_ivsetup. by rewrite E. Qed.

Lemma ivsetup_ok x iv c : state_ok x -> state_ok (chacha_ivsetup x iv c).
Proof. unfold state_ok, chacha_ivsetup. intros Hx. rewrite length_app, length_take, Hx. done. Qed.

Lemma encrypt_key x m : take 12 (chacha_encrypt_bytes x m).2 = take 12 x.
Proof.
  unfold chacha_encrypt_bytes. destruct m as [|a m]; [done|]. destruct (chacha_loop _ _ _) as [c j]. cbn [snd].
  by rewrite !take_insert_ge by lia.
Qed.

Lemma encrypt_state_ok x m : state_ok x -> state_ok (chacha_encrypt_bytes x m).2.
Proof.
  unfold state_ok, chacha_encrypt_bytes. intros Hx. destruct m as [|a m]; [done|].
  destruct (chacha_loop _ _ _) as [c j]. cbn [snd]. by rewrite !length_insert.
Qed.

Lemma ivsetup_take x iv c : state_ok x -> take 12 (chacha_ivsetup x iv c) = take 12 x.
Proof. unfold state_ok, chacha_ivsetup. intros Hx. rewrite take_app_le, take_take by (rewrite length_take; lia). done. Qed.

(** The pure functions behind the calls. *)
Definition cp_polykey (ctx : chachapoly_ctx) (seqnr : Z) : list Z :=
  (chacha_encrypt_bytes (chacha_ivsetup (cp_main ctx) (POKE_U64 seqnr) None) (replicate POLY1305_KEYLEN 0)).1.
Definition cp_aad (ctx : chachapoly_ctx) (seqnr : Z) (m : list Z) : list Z :=
  (chacha_encrypt_bytes (chacha_ivsetup (cp_header ctx) (POKE_U64 seqnr) None) m).1.
Definition cp_body (ctx : chachapoly_ctx) (seqnr : Z) (m : list Z) : list Z :=
  (chacha_encrypt_bytes (chacha_ivsetup (cp_main ctx) (POKE_U64 seqnr) (Some one)) m).1.

Lemma crypt_eq ctx seqnr src len aadlen enc : state_ok (cp_main ctx) -> state_ok (cp_header ctx) ->
  exists ctx', same_key ctx ctx' /\
  chachapoly_crypt ctx seqnr src len aadlen enc =
  (if negb enc && timingsafe_bcmp (poly1305_auth (take (aadlen + len) src) (cp_polykey ctx seqnr))
        (drop (aadlen + len) src) POLY1305_TAGLEN
   then Err SSH_ERR_MAC_INVALID
   else
     let dest := cp_aad ctx seqnr (take aadlen src) ++ cp_body ctx seqnr (take len (drop aadlen src)) in
     Ok (if enc then dest ++ poly1305_auth dest (cp_polykey ctx seqnr) else dest), ctx').
Proof.
  intros Hm Hh. unfold chachapoly_crypt, cp_polykey, cp_aad, cp_body.
  pose proof (ivsetup_ok _ (POKE_U64 seqnr) None Hm) as Hi.
  pose proof (encrypt_key (chacha_ivsetup (cp_main ctx) (POKE_U64 seqnr) None) (replicate POLY1305_KEYLEN 0)) as K1.
  pose proof (encrypt_state_ok _ (replicate POLY1305_KEYLEN 0) Hi) as S1. rewrite ivsetup_take in K1 by done.
  destruct (chacha_encrypt_bytes _ (replicate POLY1305_KEYLEN 0)) as [pk m1]. cbn [fst snd] in *.
  case_match; [eexists; split; [|done]; by unfold same_key|].
  pose proof (ivsetup_ok _ (POKE_U64 seqnr) (Some one) S1) as Hi2.
  rewrite (ivsetup_key m1 (cp_main ctx) _ (Some one) K1) in *.
  pose proof (encrypt_key (chacha_ivsetup (cp_main ctx) (POKE_U64 seqnr) (Some one)) (take len (drop aadlen src))) as K2.
  pose proof (encrypt_state_ok _ (take len (drop aadlen src)) Hi2) as S2. rewrite ivsetup_take in K2 by done.
  destruct (chacha_encrypt_bytes _ (take len (drop aadlen src))) as [body m2]. cbn [fst snd] in *.
  destruct aadlen as [|a]; [eexists; split; [|done]; by unfold same_key|].
  pose proof (ivsetup_ok _ (POKE_U64 seqnr) None Hh) as Hi3.
  pose proof (encrypt_key (chacha_ivsetup (cp_header ctx) (POKE_U64 seqnr) None) (take (S a) src)) as K3.
  pose proof (encrypt_state_ok _ (take (S a) src) Hi3) as S3. rewrite ivsetup_take in K3 by done.
  destruct (chacha_encrypt_bytes _ (take (S a) src)) as [aad h1]. cbn [fst snd] in *.
  eexists; split; [|done]. by unfold same_key.
Qed.

Lemma same_key_pure c d seqnr m : same_key c d ->
  cp_polykey c seqnr = cp_polykey d seqnr /\ cp_aad c seqnr m = cp_aad d seqnr m /\
  cp_body c seqnr m = cp_body d seqnr m.
Proof.
  intros (_ & _ & _ & _ & Em & Eh). unfold cp_polykey, cp_aad, cp_body.
  by rewrite !(ivsetup_key _ _ _ _ Em), (ivsetup_key _ _ _ _ Eh).
Qed.

Lemma same_key_refl c : state_ok (cp_main c) -> state_ok (cp_header c) -> same_key c c.
Proof. by unfold same_key. Qed.

Lemma same_key_trans c d e : same_key c d -> same_key d e -> same_key c e.
Proof. unfold same_key. intuition congruence. Qed.

Lemma same_key_sym c d : same_key c d -> same_key d c.
Proof. unfold same_key. intuition. Qed.

Lemma peek_take p : PEEK_U32 (take 4 p) = PEEK_U32 p.
Proof. unfold PEEK_U32, byte_at. by rewrite !nth_lookup, !lookup_take_lt by lia. Qed.

Section Stream.
Context (ctx : chachapoly_ctx) (seqnr : Z) (Hm : state_ok (cp_main ctx)) (Hh : state_ok (cp_header ctx)).

Lemma polykey_ok : bytes_ok (cp_polykey ctx seqnr) /\ length (cp_polykey ctx seqnr) = 32%nat.
Proof.
  assert (bytes_ok (replicate POLY1305_KEYLEN 0)) as Hz by (apply Forall_replicate; unfold byte_ok; lia).
  unfold cp_polykey. split; [|rewrite encrypt_length, length_replicate by auto using ivsetup_ok; done].
  apply encrypt_bytes_ok; auto using ivsetup_ok.
Qed.

Lemma aad_ok m : bytes_ok m -> bytes_ok (cp_aad ctx seqnr m) /\ length (cp_aad ctx seqnr m) = length m /\
  cp_aad ctx seqnr (cp_aad ctx seqnr m) = m.
Proof.
  intros Hok. unfold cp_aad. split_and!;
    [apply encrypt_bytes_ok|apply encrypt_length|apply encrypt_involutive]; auto using ivsetup_ok.
Qed.

(** The start of the encrypted field decrypts on its own. *)
Lemma aad_prefix m n : bytes_ok m -> (n <= length m)%nat ->
  cp_aad ctx seqnr (take n (cp_aad ctx seqnr m)) = take n m.
Proof.
  intros Hok Hn. destruct (aad_ok m Hok) as (A1 & A2 & A3).
  pose proof (encrypt_prefix (chacha_ivsetup (cp_header ctx) (POKE_U64 seqnr) None) (cp_aad ctx seqnr m) n
    (ivsetup_ok _ _ _ Hh) A1 ltac:(lia)) as E.
  etransitivity; [exact E|]. f_equal. exact A3.
Qed.

Lemma body_ok m : bytes_ok m -> bytes_ok (cp_body ctx seqnr m) /\ length (cp_body ctx seqnr m) = length m /\
  cp_body ctx seqnr (cp_body ctx seqnr m) = m.
Proof.
  intros Hok. unfold cp_body. split_and!;
    [apply encrypt_bytes_ok|apply encrypt_length|apply encrypt_involutive]; auto using ivsetup_ok.
Qed.

(** The ciphertext of [aadlen + len] bytes, without the tag. *)
Definition cp_seal (aadlen : nat) (m : list Z) : list Z :=
  cp_aad ctx seqnr (take aadlen m) ++ cp_body ctx seqnr (drop aadlen m).

Lemma seal_ok aadlen m : bytes_ok m -> (aadlen <= length m)%nat ->
  bytes_ok (cp_seal aadlen m) /\ length (cp_seal aadlen m) = length m /\ cp_seal aadlen (cp_seal aadlen m) = m.
Proof.
  intros Hok Hl. unfold cp_seal.
  destruct (aad_ok (take aadlen m)) as (A1 & A2 & A3); [by apply Forall_take|].
  destruct (body_ok (drop aadlen m)) as (B1 & B2 & B3); [by apply Forall_drop|].
  rewrite length_take, Nat.min_l in A2 by done. rewrite length_drop in B2. split_and!.
  - apply Forall_app. done.
  - rewrite length_app. lia.
  - rewrite take_app_le, (take_ge (cp_aad _ _ _)), drop_app_ge, A2, Nat.sub_diag, drop_0, A3, B3 by lia.
    apply take_drop.
Qed.
End Stream.

(** Encrypting, and decrypting with a context of the same key. *)
Lemma run_seal ctx seqnr m aadlen len : state_ok (cp_main ctx) -> state_ok (cp_header ctx) ->
  length m = (aadlen + len)%nat ->
  exists ctx', same_key ctx ctx' /\
    chachapoly_crypt ctx seqnr m len aadlen true =
    (Ok (cp_seal ctx seqnr aadlen m ++
         poly1305_auth (cp_seal ctx seqnr aadlen m) (cp_polykey ctx seqnr)), ctx').
Proof.
  intros Hm Hh Hl. destruct (crypt_eq ctx seqnr m len aadlen true Hm Hh) as (ctx' & K & ->).
  exists ctx'. split; [done|]. cbn [negb andb]. rewrite (take_ge (drop aadlen m)) by (rewrite length_drop; lia). done.
Qed.

Lemma run_open ctx seqnr src aadlen len : state_ok (cp_main ctx) -> state_ok (cp_header ctx) ->
  (aadlen + len <= length src)%nat ->
  let ct := take (aadlen + len) src in
  exists ctx', same_key ctx ctx' /\
    chachapoly_crypt ctx seqnr src len aadlen false =
    (if bool_decide (take 16 (poly1305_auth ct (cp_polykey ctx seqnr)) = take 16 (drop (aadlen + len) src))
     then Ok (cp_seal ctx seqnr aadlen ct) else Err SSH_ERR_MAC_INVALID, ctx').
Proof.
  intros Hm Hh Hl ct. destruct (crypt_eq ctx seqnr src len aadlen false Hm Hh) as (ctx' & K & ->).
  exists ctx'. split; [done|]. cbn [negb andb]. unfold timingsafe_bcmp. fold ct.
  change POLY1305_TAGLEN with 16%nat. destruct (bool_decide _); cbn [negb]; [|done].
  unfold cp_seal, ct. rewrite take_take, Nat.min_l by lia. do 3 f_equal.
  rewrite skipn_firstn_comm. do 2 f_equal. lia.
Qed.

Lemma run_get_length ctx seqnr cp len : state_ok (cp_main ctx) -> state_ok (cp_header ctx) -> 4 <= len ->
  exists ctx', same_key ctx ctx' /\
    chachapoly_get_length ctx seqnr cp len = (Ok (PEEK_U32 (cp_aad ctx seqnr (take 4 cp))), ctx').
Proof.
  intros Hm Hh Hl. unfold chachapoly_get_length, cp_aad. rewrite (proj2 (Z.ltb_ge _ _)) by lia.
  pose proof (ivsetup_ok _ (POKE_U64 seqnr) None Hh) as Hi.
  pose proof (encrypt_key (chacha_ivsetup (cp_header ctx) (POKE_U64 seqnr) None) (take 4 cp)) as K.
  pose proof (encrypt_state_ok _ (take 4 cp) Hi) as S. rewrite ivsetup_take in K by done.
  destruct (chacha_encrypt_bytes _ (take 4 cp)) as [buf h]. eexists. split; [|done]. by unfold same_key.
Qed.

Lemma new_ok key ctx : chachapoly_new true key 64 = Some ctx -> state_ok (cp_main ctx) /\ state_ok (cp_header ctx).
Proof. unfold chachapoly_new. intros [= <-]. done. Qed.

Lemma same_key_ok c d : same_key c d ->
  (state_ok (cp_main c) /\ state_ok (cp_header c)) /\ (state_ok (cp_main d) /\ state_ok (cp_header d)).
Proof. unfold same_key. intuition. Qed.

(** One context encrypts, another with the same key reads the length from any
    input that starts like the ciphertext, and decrypts. *)
Lemma cp_link c d seqnr m aadlen len : same_key c d ->
  bytes_ok m -> length m = (aadlen + len)%nat -> (4 <= aadlen)%nat ->
  exists ct c', chachapoly_crypt c seqnr m len aadlen true = (Ok ct, c') /\ same_key c c' /\
    length ct = (aadlen + len + 16)%nat /\
    (forall rest, exists d', chachapoly_crypt d seqnr (ct ++ rest) len aadlen false = (Ok m, d') /\ same_key d d') /\
    (forall p, take 4 p = take 4 ct -> 4 <= zlen p ->
      exists d', chachapoly_get_length d seqnr p (zlen p) = (Ok (PEEK_U32 m), d') /\ same_key d d').
Proof.
  intros Hcd Hm Hl Ha. destruct (same_key_ok c d Hcd) as [[Cm Ch] [Dm Dh]].
  destruct (run_seal c seqnr m aadlen len Cm Ch Hl) as (c' & Kc & Rc).
  destruct (seal_ok c seqnr Cm Ch aadlen m Hm ltac:(lia)) as (B1 & B2 & B3).
  set (ct := cp_seal c seqnr aadlen m) in *.
  pose proof (poly1305_length ct (cp_polykey c seqnr)) as T.
  assert (forall x, cp_seal c seqnr aadlen x = cp_seal d seqnr aadlen x) as Es.
  { intros x. unfold cp_seal. destruct (same_key_pure c d seqnr (take aadlen x) Hcd) as (_ & -> & _).
    by destruct (same_key_pure c d seqnr (drop aadlen x) Hcd) as (_ & _ & ->). }
  destruct (same_key_pure c d seqnr [] Hcd) as (Ek & _ & _).
  eexists _, c'. split_and!; [exact Rc|exact Kc| | |].
  - rewrite length_app, B2, T. lia.
  - intros rest. destruct (run_open d seqnr ((ct ++ poly1305_auth ct (cp_polykey c seqnr)) ++ rest) aadlen len Dm Dh)
      as (d' & Kd & Rd); [rewrite !length_app; lia|]. exists d'. split; [|exact Kd].
    rewrite Rd. rewrite <- app_assoc, take_app_le, (take_ge ct), drop_app_ge by lia. rewrite B2, <- Hl, Nat.sub_diag, drop_0.
    rewrite take_app_le, <- Ek, bool_decide_eq_true_2 by (done || lia). by rewrite <- Es, B3.
  - intros p Hp Hp4. destruct (run_get_length d seqnr p (zlen p) Dm Dh Hp4) as (d' & Kd & ->).
    exists d'. split; [|exact Kd]. do 2 f_equal.
    destruct (same_key_pure c d seqnr (take 4 p) Hcd) as (_ & Ea & _). rewrite <- Ea, Hp.
    rewrite take_app_le by lia. unfold ct, cp_seal. pose proof (Forall_take byte_ok aadlen m Hm) as Ht.
    destruct (aad_ok c seqnr Ch (take aadlen m) Ht) as (A1 & A2 & A3). rewrite length_take in A2.
    rewrite take_app_le by lia. rewrite (aad_prefix c seqnr Ch _ 4 Ht) by (rewrite length_take; lia).
    rewrite take_take, Nat.min_l by lia. apply peek_take.
Qed.

(** C18: chacha20-poly1305@openssh.com. Two contexts made from the same 64-byte
    key, whatever each was used for in between: what one encrypts under a
    sequence number the other decrypts to the same bytes, after reading the
    packet length from the first four bytes; and a decryption of any bytes
    succeeds exactly when they end in the Poly1305 tag of the ciphertext under
    that sequence number's key. *)
Theorem chachapoly_roundtrip key ctx c d seqnr m aadlen len :
  chachapoly_new true key 64 = Some ctx -> same_key ctx c -> same_key ctx d ->
  bytes_ok m -> length m = (aadlen + len)%nat -> (4 <= aadlen)%nat ->
  exists ct c', chachapoly_crypt c seqnr m len aadlen true = (Ok ct, c') /\ same_key ctx c' /\
    length ct = (aadlen + len + 16)%nat /\
    (forall rest, exists d', chachapoly_crypt d seqnr (ct ++ rest) len aadlen false = (Ok m, d') /\ same_key ctx d') /\
    (forall rest, (chachapoly_get_length d seqnr (ct ++ rest) (zlen (ct ++ rest))).1 = Ok (PEEK_U32 m)) /\
    forall src, (aadlen + len <= length src)%nat ->
      let r := (chachapoly_crypt d seqnr src len aadlen false).1 in
      r <> Crash /\
      (is_ok r = true <-> take 16 (poly1305_auth (take (aadlen + len) src) (cp_polykey ctx seqnr)) =
                          take 16 (drop (aadlen + len) src)).
Proof.
  intros Hnew Hc Hd Hm Hl Ha. destruct (same_key_ok ctx d Hd) as [_ [Dm Dh]].
  assert (same_key c d) as Hcd by (eapply same_key_trans; [apply same_key_sym|]; done).
  destruct (cp_link c d seqnr m aadlen len Hcd Hm Hl Ha) as (ct & c' & Rc & Kc & L & O & G).
  exists ct, c'. split_and!; [exact Rc|exact (same_key_trans _ _ _ Hc Kc)|exact L| | |].
  - intros rest. destruct (O rest) as (d' & R & K). exists d'. split; [exact R|exact (same_key_trans _ _ _ Hd K)].
  - intros rest. destruct (G (ct ++ rest)) as (d' & -> & _); [by rewrite take_app_le by lia| |done].
    unfold zlen. rewrite length_app. lia.
  - intros src Hs. destruct (run_open d seqnr src aadlen len Dm Dh Hs) as (d' & _ & ->). cbn [fst].
    assert (cp_polykey d seqnr = cp_polykey ctx seqnr) as -> by (apply same_key_pure, same_key_sym; [exact []|done]).
    case_bool_decide as HT; cbn [is_ok].
    + split; [discriminate|]. split; [intros _; exact HT|reflexivity].
    + split; [discriminate|]. split; [discriminate|intros E; destruct (HT E)].
Qed.

Definition demo_key : list Z := map Z.of_nat (seq 0 64).
Definition demo_cp : chachapoly_ctx := Eval vm_compute in default (mk_cp [] []) (chachapoly_new true demo_key 64).

Lemma chachapoly_roundtrip_witness :
  exists ct c', chachapoly_crypt demo_cp 7 (str "length and payload") 14 4 true = (Ok ct, c') /\ same_key demo_cp c' /\
    length ct = 34%nat /\
    (forall rest, exists d', chachapoly_crypt demo_cp 7 (ct ++ rest) 14 4 false = (Ok (str "length and payload"), d') /\
      same_key demo_cp d') /\
    (forall rest, (chachapoly_get_length demo_cp 7 (ct ++ rest) (zlen (ct ++ rest))).1 =
      Ok (PEEK_U32 (str "length and payload"))) /\
    forall src, (18 <= length src)%nat ->
      let r := (chachapoly_crypt demo_cp 7 src 14 4 false).1 in
      r <> Crash /\
      (is_ok r = true <-> take 16 (poly1305_auth (take 18 src) (cp_polykey demo_cp 7)) = take 16 (drop 18 src)).
Proof.
  apply (chachapoly_roundtrip demo_key demo_cp demo_cp demo_cp 7 (str "length and payload") 4 14).
  - vm_compute. reflexivity.
  - apply same_key_refl; reflexivity.
  - apply same_key_refl; reflexivity.
  - apply (bool_decide_unpack (Forall (fun b => 0 <= b < 256) _)). vm_compute. exact I.
  - reflexivity.
  - lia.
Defined.
