(* ===== verification/Hmac.v ===== *)
(** * Digests and HMAC: [digest-openssl.c], [hmac.c]

    libcrypto's digests are the class [Digests]; a digest context is the data
    fed to it so far.  [hmac_messages] shows that one HMAC context, keyed once
    and reused for a sequence of messages as [mac.c] does, computes the
    construction of RFC 2104 on each. *)

From S2P Require Import Prelude Ssherr Cstring KexNames.

(** libcrypto: the digest of some data ([None]: a failing call), and the block
    size of an algorithm. *)
Class Digests := {
  EVP_Digest : Z -> list Z -> option (list Z);
  EVP_MD_block_size : Z -> Z
}.

Record ssh_digest := mk_digest { d_id : Z; d_name : list Z; d_len : Z }.

Definition digests : list ssh_digest := [
  mk_digest SSH_DIGEST_MD5 (str "MD5") 16;
  mk_digest SSH_DIGEST_SHA1 (str "SHA1") 20;
  mk_digest SSH_DIGEST_SHA256 (str "SHA256") 32;
  mk_digest SSH_DIGEST_SHA384 (str "SHA384") 48;
  mk_digest SSH_DIGEST_SHA512 (str "SHA512") 64
].

Definition SSH_DIGEST_MAX : Z := 5.

Definition ssh_digest_by_alg (alg : Z) : option ssh_digest :=
  if (alg <? 0) || (alg >=? SSH_DIGEST_MAX) then None
  else
    match digests !! Z.to_nat alg with
    | Some d => if d_id d =? alg then Some d else None
    | None => None
    end.

Definition ssh_digest_alg_by_name (name : list Z) : Z :=
  match List.find (fun d => bool_decide (tolower <$> name = tolower <$> d_name d)) digests with
  | Some d => d_id d
  | None => -1
  end.

Definition ssh_digest_alg_name (alg : Z) : option (list Z) := d_name <$> ssh_digest_by_alg alg.

Definition ssh_digest_bytes (alg : Z) : Z :=
  match ssh_digest_by_alg alg with Some d => d_len d | None => 0 end.

(** struct ssh_digest_ctx. *)
Record ssh_digest_ctx := mk_dctx { dg_alg : Z; dg_data : list Z }.

Section Digest.
Context `{Digests}.

Definition ssh_digest_blocksize (ctx : ssh_digest_ctx) : Z := EVP_MD_block_size (dg_alg ctx).

(** [ok]: whether the allocations succeed. *)
Definition ssh_digest_start (ok : bool) (alg : Z) : option ssh_digest_ctx :=
  match ssh_digest_by_alg alg with
  | None => None
  | Some _ => if negb ok then None else Some (mk_dctx alg [])
  end.

(** The new value of [to]. *)
Definition ssh_digest_copy_state (from to : ssh_digest_ctx) : ssh_digest_ctx + Z :=
  if negb (dg_alg from =? dg_alg to) then inr SSH_ERR_INVALID_ARGUMENT else inl from.

Definition ssh_digest_update (ctx : ssh_digest_ctx) (m : list Z) : ssh_digest_ctx :=
  mk_dctx (dg_alg ctx) (dg_data ctx ++ m).

Definition ssh_digest_final (ctx : ssh_digest_ctx) (dlen : Z) : list Z + Z :=
  match ssh_digest_by_alg (dg_alg ctx) with
  | None => inr SSH_ERR_INVALID_ARGUMENT
  | Some d =>
      if dlen >? UINT_MAX then inr SSH_ERR_INVALID_ARGUMENT
      else if dlen <? d_len d then inr SSH_ERR_INVALID_ARGUMENT
      else
        match EVP_Digest (dg_alg ctx) (dg_data ctx) with
        | None => inr SSH_ERR_LIBCRYPTO_ERROR
        | Some out => if negb (zlen out =? d_len d) then inr SSH_ERR_INTERNAL_ERROR else inl out
        end
  end.

Definition ssh_digest_memory (alg : Z) (m : list Z) (dlen : Z) : list Z + Z :=
  match ssh_digest_by_alg alg with
  | None => inr SSH_ERR_INVALID_ARGUMENT
  | Some d =>
      if dlen >? UINT_MAX then inr SSH_ERR_INVALID_ARGUMENT
      else if dlen <? d_len d then inr SSH_ERR_INVALID_ARGUMENT
      else match EVP_Digest alg m with Some out => inl out | None => inr SSH_ERR_LIBCRYPTO_ERROR end
  end.

(** ** HMAC *)

Record ssh_hmac_ctx := mk_hmac {
  hc_alg : Z;
  hc_ictx : ssh_digest_ctx;
  hc_octx : ssh_digest_ctx;
  hc_digest : ssh_digest_ctx;
  hc_buf : list Z;
  hc_buf_len : Z
}.

Definition ssh_hmac_bytes (alg : Z) : Z := ssh_digest_bytes alg.

Definition ssh_hmac_start (ok : bool) (alg : Z) : option ssh_hmac_ctx :=
  ictx ← ssh_digest_start ok alg;
  octx ← ssh_digest_start ok alg;
  digest ← ssh_digest_start ok alg;
  let buf_len := ssh_digest_blocksize ictx in
  Some (mk_hmac alg ictx octx digest (zeros buf_len) buf_len).

(** [buf[i] ^= c] for all of [buf]. *)
Definition xor_all (c : Z) (buf : list Z) : list Z := (fun b => Z.lxor b c) <$> buf.

(** [memcpy(buf, bs, n)]: the rest of [buf] stays. *)
Definition overwrite (buf bs : list Z) : list Z := bs ++ drop (length bs) buf.

(** [None]: a return of -1. *)
Definition ssh_hmac_init (ctx : ssh_hmac_ctx) (key : option (list Z)) : option ssh_hmac_ctx :=
  let start ctx :=
    match ssh_digest_copy_state (hc_ictx ctx) (hc_digest ctx) with
    | inl d => Some (mk_hmac (hc_alg ctx) (hc_ictx ctx) (hc_octx ctx) d (hc_buf ctx) (hc_buf_len ctx))
    | inr _ => None
    end in
  match key with
  | None => start ctx
  | Some key =>
      match (if zlen key <=? hc_buf_len ctx then inl key
             else ssh_digest_memory (hc_alg ctx) key (hc_buf_len ctx)) with
      | inr _ => None
      | inl k =>
          let ibuf := xor_all 0x36 (overwrite (hc_buf ctx) k) in
          let obuf := xor_all (Z.lxor 0x36 0x5c) ibuf in
          start (mk_hmac (hc_alg ctx) (ssh_digest_update (hc_ictx ctx) ibuf) (ssh_digest_update (hc_octx ctx) obuf)
                   (hc_digest ctx) (zeros (hc_buf_len ctx)) (hc_buf_len ctx))
      end
  end.

Definition ssh_hmac_update (ctx : ssh_hmac_ctx) (m : list Z) : ssh_hmac_ctx :=
  mk_hmac (hc_alg ctx) (hc_ictx ctx) (hc_octx ctx) (ssh_digest_update (hc_digest ctx) m) (hc_buf ctx) (hc_buf_len ctx).

Definition ssh_hmac_final (ctx : ssh_hmac_ctx) (dlen : Z) : option (list Z * ssh_hmac_ctx) :=
  let len := ssh_digest_bytes (hc_alg ctx) in
  if dlen <? len then None
  else
    match ssh_digest_final (hc_digest ctx) len with
    | inr _ => None
    | inl inner =>
        match ssh_digest_copy_state (hc_octx ctx) (hc_digest ctx) with
        | inr _ => None
        | inl d =>
            let d := ssh_digest_update d inner in
            match ssh_digest_final d dlen with
            | inr _ => None
            | inl out =>
                Some (out, mk_hmac (hc_alg ctx) (hc_ictx ctx) (hc_octx ctx) d (overwrite (hc_buf ctx) inner) (hc_buf_len ctx))
            end
        end
    end.

(** One message on a keyed context, as [mac_compute] runs it. *)
Definition hmac_message (ctx : ssh_hmac_ctx) (ms : list (list Z)) (dlen : Z) : option (list Z * ssh_hmac_ctx) :=
  ctx ← ssh_hmac_init ctx None;
  ssh_hmac_final (foldl ssh_hmac_update ctx ms) dlen.

(** A sequence of messages on one context. *)
Fixpoint hmac_run (ctx : ssh_hmac_ctx) (msgs : list (list (list Z))) (dlen : Z) : option (list (list Z)) :=
  match msgs with
  | [] => Some []
  | ms :: msgs =>
      match hmac_message ctx ms dlen with
      | Some (out, ctx) => cons out <$> hmac_run ctx msgs dlen
      | None => None
      end
  end.

(** ** RFC 2104 *)

Section Spec.
Context (alg : Z) (d : ssh_digest).
Hypothesis Halg : ssh_digest_by_alg alg = Some d.
Hypothesis Hdigest : forall m, exists out, EVP_Digest alg m = Some out /\ zlen out = d_len d.
Hypothesis Hblock : d_len d <= EVP_MD_block_size alg <= UINT_MAX.

Definition md (m : list Z) : list Z := default [] (EVP_Digest alg m).

(** The key, hashed when it is longer than a block and filled up with zeros. *)
Definition block_key (key : list Z) : list Z :=
  let k := if zlen key <=? EVP_MD_block_size alg then key else md key in
  k ++ zeros (EVP_MD_block_size alg - zlen k).

Definition rfc2104 (key m : list Z) : list Z :=
  md (xor_all 0x5c (block_key key) ++ md (xor_all 0x36 (block_key key) ++ m)).

(** A context keyed with [key]; what it last computed does not matter. *)
Definition keyed (key : list Z) (ctx : ssh_hmac_ctx) : Prop :=
  hc_alg ctx = alg /\ dg_alg (hc_digest ctx) = alg /\
  hc_ictx ctx = mk_dctx alg (xor_all 0x36 (block_key key)) /\
  hc_octx ctx = mk_dctx alg (xor_all 0x5c (block_key key)).

Lemma xor_twice l : xor_all (Z.lxor 0x36 0x5c) (xor_all 0x36 l) = xor_all 0x5c l.
Proof.
  unfold xor_all. rewrite <- list_fmap_compose. apply list_fmap_ext. intros _ b _. cbn [compose].
  unfold compose. by rewrite Z.lxor_assoc, <- (Z.lxor_assoc 0x36), Z.lxor_nilpotent, Z.lxor_0_l.
Qed.

Lemma md_eq m : EVP_Digest alg m = Some (md m) /\ zlen (md m) = d_len d.
Proof using Hdigest. destruct (Hdigest m) as (out & E & L). unfold md. by rewrite E. Qed.

Lemma overwrite_zeros n k : zlen k <= n -> overwrite (zeros n) k = k ++ zeros (n - zlen k).
Proof.
  intros. unfold overwrite, zeros, zlen in *. f_equal. rewrite drop_replicate. f_equal. lia.
Qed.

Lemma hmac_start_keyed key :
  exists ctx, (ctx ← ssh_hmac_start true alg; ssh_hmac_init ctx (Some key)) = Some ctx /\ keyed key ctx.
Proof using Halg Hdigest Hblock.
  unfold ssh_hmac_start, ssh_digest_start, ssh_digest_blocksize. rewrite Halg. cbn.
  destruct (md_eq key) as [E L]. unfold ssh_digest_memory. rewrite Halg, E.
  rewrite Z.gtb_ltb, !(proj2 (Z.ltb_ge _ _)) by lia.
  destruct (Z.leb_spec (zlen key) (EVP_MD_block_size alg)) as [Hk|Hk]; cbn;
    unfold ssh_digest_copy_state; cbn; rewrite Z.eqb_refl; cbn; eexists; (split; [done|]);
    unfold keyed; cbn; rewrite xor_twice; unfold ssh_digest_update; cbn [dg_alg dg_data app];
    unfold block_key; rewrite ?(proj2 (Z.leb_le _ _)), ?(proj2 (Z.leb_gt _ _)) by lia;
    rewrite overwrite_zeros by lia; auto.
Qed.

Lemma foldl_update ms : forall ctx, foldl ssh_hmac_update ctx ms =
  mk_hmac (hc_alg ctx) (hc_ictx ctx) (hc_octx ctx)
    (mk_dctx (dg_alg (hc_digest ctx)) (dg_data (hc_digest ctx) ++ concat ms)) (hc_buf ctx) (hc_buf_len ctx).
Proof.
  induction ms as [|m ms IH]; intros ctx; cbn [foldl concat].
  - rewrite app_nil_r. by destruct ctx as [? ? ? [? ?] ? ?].
  - rewrite IH. cbn. by rewrite app_assoc.
Qed.

Lemma hmac_message_spec key ctx ms dlen : keyed key ctx -> d_len d <= dlen <= UINT_MAX ->
  exists ctx', hmac_message ctx ms dlen = Some (rfc2104 key (concat ms), ctx') /\ keyed key ctx'.
Proof using Halg Hdigest Hblock.
  intros (Ha & Hd & Hi & Ho) Hl. unfold hmac_message, ssh_hmac_init, ssh_digest_copy_state.
  rewrite Hi, Hd. cbn [dg_alg]. rewrite Z.eqb_refl. cbn [negb mbind option_bind].
  rewrite foldl_update. cbn [hc_alg hc_ictx hc_octx hc_digest hc_buf hc_buf_len dg_alg dg_data].
  unfold ssh_hmac_final, ssh_digest_bytes, ssh_digest_final, ssh_digest_copy_state.
  cbn [hc_alg hc_ictx hc_octx hc_digest hc_buf hc_buf_len dg_alg dg_data].
  rewrite Ha, Halg, Ho. cbn [dg_alg]. rewrite !Z.gtb_ltb, !(proj2 (Z.ltb_ge _ _)) by lia.
  destruct (md_eq (xor_all 54 (block_key key) ++ concat ms)) as [E1 L1]. rewrite E1, L1, !Z.eqb_refl. cbn [negb ssh_digest_update dg_alg dg_data]. rewrite Halg, !(proj2 (Z.ltb_ge _ _)) by lia.
  match goal with |- context [EVP_Digest alg ?m] => destruct (md_eq m) as [E2 L2] end.
  rewrite E2, L2, Z.eqb_refl. cbn [negb]. eexists. split; [done|]. unfold keyed. by cbn.
Qed.

Lemma hmac_run_spec key msgs dlen : forall ctx, keyed key ctx -> d_len d <= dlen <= UINT_MAX ->
  hmac_run ctx msgs dlen = Some ((fun ms => rfc2104 key (concat ms)) <$> msgs).
Proof using Halg Hdigest Hblock.
  induction msgs as [|ms msgs IH]; intros ctx K Hl; cbn [hmac_run]; [done|].
  destruct (hmac_message_spec key ctx ms dlen K Hl) as (ctx' & -> & K'). by rewrite (IH ctx' K' Hl).
Qed.
End Spec.
End Digest.

(** An HMAC context that is keyed once and then reused for a sequence of
    messages, each reset with a NULL key as [mac_compute] does, computes on
    every message the HMAC of RFC 2104 of the concatenated updates, for keys of
    any length, provided the digest has the size of the table and fits a block. *)
Theorem hmac_messages `{Digests} alg d key msgs dlen :
  ssh_digest_by_alg alg = Some d ->
  (forall m, exists out, EVP_Digest alg m = Some out /\ zlen out = d_len d) ->
  d_len d <= EVP_MD_block_size alg <= UINT_MAX ->
  d_len d <= dlen <= UINT_MAX ->
  exists ctx, (ctx ← ssh_hmac_start true alg; ssh_hmac_init ctx (Some key)) = Some ctx /\
    hmac_run ctx msgs dlen = Some ((fun ms => rfc2104 alg key (concat ms)) <$> msgs).
Proof.
  intros Ha Hd Hb Hl. destruct (hmac_start_keyed alg d Ha Hd Hb key) as (ctx & E & K).
  exists ctx. split; [done|]. by apply (hmac_run_spec alg d Ha Hd Hb).
Qed.

(** A digest of the right shape: the sum of the bytes, repeated. *)
Definition toy_digests : Digests := {|
  EVP_Digest := fun alg m => Some (replicate (Z.to_nat (ssh_digest_bytes alg)) (foldl Z.add 7 m mod 256));
  EVP_MD_block_size := fun _ => 64
|}.

Lemma hmac_messages_witness :
  exists ctx, (ctx ← @ssh_hmac_start toy_digests true SSH_DIGEST_SHA256;
               @ssh_hmac_init toy_digests ctx (Some (str "key"))) = Some ctx /\
    @hmac_run toy_digests ctx [[str "one"]; [str "tw"; str "o"]] 64 =
      Some [@rfc2104 toy_digests SSH_DIGEST_SHA256 (str "key") (str "one");
            @rfc2104 toy_digests SSH_DIGEST_SHA256 (str "key") (str "two")].
Proof.
  apply (@hmac_messages toy_digests SSH_DIGEST_SHA256 (mk_digest SSH_DIGEST_SHA256 (str "SHA256") 32) (str "key")
           [[str "one"]; [str "tw"; str "o"]] 64).
  - reflexivity.
  - intros m. eexists. split; [reflexivity|]. unfold zlen. rewrite length_replicate. reflexivity.
  - by cbn.
  - by cbn.
Defined.
