(* ===== verification/Cipher.v ===== *)
(** * Ciphers and MACs: [cipher.c], [mac.c]

    The algorithm tables, and the one entry point for all packet ciphers.
    libcrypto's ciphers and digests, UMAC and zlib are the class [Crypto]: each
    field is one call as [cipher.c], [mac.c] or [packet.c] makes it, with
    [None] for a failure.  chacha20-poly1305 and HMAC are the code of the
    repository. *)

From S2P Require Import Prelude Ssherr Cstring Match KexNames Sshbuf SshbufGetput.
From S2P Require Import Hmac Chacha Poly1305 ChachaPoly.

(** ** Code outside the repository *)

Inductive zstatus := Z_OK | Z_BUF_ERROR | Z_DATA_ERROR | Z_MEM_ERROR | Z_STREAM_ERROR.

Class Crypto := {
  evp : Type;
  EVP_CIPHER_CTX_new : option evp;
  EVP_CipherInit_iv : evp -> list Z -> option (list Z) -> bool -> option evp;
  EVP_GCM_SET_IV_FIXED : evp -> option (list Z) -> option evp;
  EVP_key_length : evp -> Z;
  EVP_set_key_length : evp -> Z -> option evp;
  EVP_CipherInit_key : evp -> list Z -> option evp;
  EVP_GCM_IV_GEN : evp -> option evp;
  EVP_GCM_SET_TAG : evp -> list Z -> option evp;
  EVP_Cipher_aad : evp -> list Z -> option evp;
  EVP_Cipher : evp -> list Z -> option (list Z * evp);
  EVP_Cipher_final : evp -> option evp;
  EVP_GCM_GET_TAG : evp -> Z -> option (list Z * evp);
  EVP_iv_length : evp -> Z;
  EVP_get_iv : evp -> Z -> option (list Z);
  EVP_GCM_IV_READ : evp -> Z -> option (list Z * evp);
  crypto_digests :: Digests;
  (* umac.c and its 128-bit variant: key, data, nonce *)
  umac : list Z -> list Z -> list Z -> list Z;
  umac128 : list Z -> list Z -> list Z -> list Z;
  (* z_stream: a call consumes input and fills at most the given room *)
  z_stream : Type;
  deflateInit : Z -> zstatus * z_stream;
  inflateInit : zstatus * z_stream;
  z_input : z_stream -> list Z -> z_stream;
  deflate : z_stream -> Z -> zstatus * list Z * z_stream;
  inflate : z_stream -> Z -> zstatus * list Z * z_stream
}.

(** ** The cipher table *)

Definition CFLAG_CBC : Z := 1.
Definition CFLAG_CHACHAPOLY : Z := 2.
Definition CFLAG_AESCTR : Z := 4.
Definition CFLAG_NONE : Z := 8.
Definition CFLAG_INTERNAL : Z := CFLAG_NONE.

Record sshcipher := mk_cipher {
  ci_name : list Z;
  ci_block_size : Z;
  ci_key_len : Z;
  ci_iv_len : Z;
  ci_auth_len : Z;
  ci_flags : Z
}.

Definition ciphers : list sshcipher := [
  mk_cipher (str "3des-cbc") 8 24 0 0 CFLAG_CBC;
  mk_cipher (str "aes128-cbc") 16 16 0 0 CFLAG_CBC;
  mk_cipher (str "aes192-cbc") 16 24 0 0 CFLAG_CBC;
  mk_cipher (str "aes256-cbc") 16 32 0 0 CFLAG_CBC;
  mk_cipher (str "aes128-ctr") 16 16 0 0 0;
  mk_cipher (str "aes192-ctr") 16 24 0 0 0;
  mk_cipher (str "aes256-ctr") 16 32 0 0 0;
  mk_cipher (str "aes128-gcm@openssh.com") 16 16 12 16 0;
  mk_cipher (str "aes256-gcm@openssh.com") 16 32 12 16 0;
  mk_cipher (str "chacha20-poly1305@openssh.com") 8 64 0 16 CFLAG_CHACHAPOLY;
  mk_cipher (str "none") 8 0 0 0 CFLAG_NONE
].

Definition has_flag (c : sshcipher) (f : Z) : bool := negb (Z.land (ci_flags c) f =? 0).

Definition cipher_alg_list (sep : Z) (auth_only : bool) : option (list Z) :=
  foldl (fun ret c =>
    if has_flag c CFLAG_INTERNAL then ret
    else if auth_only && (ci_auth_len c =? 0) then ret
    else Some (xextendf ret [sep] (ci_name c))) None ciphers.

Definition compression_alg_list (compression : bool) : list Z :=
  if compression then str "zlib@openssh.com,none" else str "none,zlib@openssh.com".

Definition cipher_blocksize (c : sshcipher) : Z := ci_block_size c.
Definition cipher_keylen (c : sshcipher) : Z := ci_key_len c.
Definition cipher_seclen (c : sshcipher) : Z :=
  if bool_decide (ci_name c = str "3des-cbc") then 14 else cipher_keylen c.
Definition cipher_authlen (c : sshcipher) : Z := ci_auth_len c.
Definition cipher_ivlen (c : sshcipher) : Z :=
  if negb (ci_iv_len c =? 0) || has_flag c CFLAG_CHACHAPOLY then ci_iv_len c else ci_block_size c.
Definition cipher_is_cbc (c : sshcipher) : bool := has_flag c CFLAG_CBC.
Definition cipher_is_internal (c : sshcipher) : bool := has_flag c CFLAG_INTERNAL.

Definition cipher_by_name (name : list Z) : option sshcipher :=
  List.find (fun c => bool_decide (ci_name c = name)) ciphers.

(** The loop of [ciphers_valid], which ends at an empty token. *)
Fixpoint ciphers_valid_loop (ts : list (list Z)) (found : bool) : bool :=
  match ts with
  | [] => found
  | p :: ts =>
      if bool_decide (p = []) then found
      else match cipher_by_name p with
           | None => false
           | Some c => if has_flag c CFLAG_INTERNAL then false else ciphers_valid_loop ts true
           end
  end.

Definition ciphers_valid (ok : bool) (names : option (list Z)) : bool :=
  match names with
  | None | Some [] => false
  | Some names => if negb ok then false else ciphers_valid_loop (split names) false
  end.

(** ** The MAC table *)

Definition SSH_DIGEST : Z := 1.
Definition SSH_UMAC : Z := 2.
Definition SSH_UMAC128 : Z := 3.

Record macalg := mk_macalg {
  ma_name : list Z;
  ma_type : Z;
  ma_alg : Z;
  ma_truncatebits : Z;
  ma_key_len : Z;
  ma_len : Z;
  ma_etm : bool
}.

Definition macs : list macalg := [
  mk_macalg (str "hmac-sha1") SSH_DIGEST SSH_DIGEST_SHA1 0 0 0 false;
  mk_macalg (str "hmac-sha1-96") SSH_DIGEST SSH_DIGEST_SHA1 96 0 0 false;
  mk_macalg (str "hmac-sha2-256") SSH_DIGEST SSH_DIGEST_SHA256 0 0 0 false;
  mk_macalg (str "hmac-sha2-512") SSH_DIGEST SSH_DIGEST_SHA512 0 0 0 false;
  mk_macalg (str "hmac-md5") SSH_DIGEST SSH_DIGEST_MD5 0 0 0 false;
  mk_macalg (str "hmac-md5-96") SSH_DIGEST SSH_DIGEST_MD5 96 0 0 false;
  mk_macalg (str "umac-64@openssh.com") SSH_UMAC 0 0 128 64 false;
  mk_macalg (str "umac-128@openssh.com") SSH_UMAC128 0 0 128 128 false;
  mk_macalg (str "hmac-sha1-etm@openssh.com") SSH_DIGEST SSH_DIGEST_SHA1 0 0 0 true;
  mk_macalg (str "hmac-sha1-96-etm@openssh.com") SSH_DIGEST SSH_DIGEST_SHA1 96 0 0 true;
  mk_macalg (str "hmac-sha2-256-etm@openssh.com") SSH_DIGEST SSH_DIGEST_SHA256 0 0 0 true;
  mk_macalg (str "hmac-sha2-512-etm@openssh.com") SSH_DIGEST SSH_DIGEST_SHA512 0 0 0 true;
  mk_macalg (str "hmac-md5-etm@openssh.com") SSH_DIGEST SSH_DIGEST_MD5 0 0 0 true;
  mk_macalg (str "hmac-md5-96-etm@openssh.com") SSH_DIGEST SSH_DIGEST_MD5 96 0 0 true;
  mk_macalg (str "umac-64-etm@openssh.com") SSH_UMAC 0 0 128 64 true;
  mk_macalg (str "umac-128-etm@openssh.com") SSH_UMAC128 0 0 128 128 true
].

Definition mac_alg_list (sep : Z) : option (list Z) :=
  foldl (fun ret m => Some (xextendf ret [sep] (ma_name m))) None macs.

(** struct sshmac; a UMAC context is its key. *)
Record sshmac := mk_mac {
  m_name : option (list Z);
  m_enabled : bool;
  m_mac_len : Z;
  m_key : option (list Z);
  m_key_len : Z;
  m_type : Z;
  m_etm : bool;
  m_hmac_ctx : option ssh_hmac_ctx;
  m_umac_ctx : option (list Z)
}.

(** calloc'ed. *)
Definition mac_zero : sshmac := mk_mac None false 0 None 0 0 false None None.

(** [ok]: whether the allocations of [ssh_hmac_start] succeed. *)
Definition mac_setup_by_alg `{Digests} (ok : bool) (mac : sshmac) (a : macalg) : sshmac + Z :=
  let trunc n := if negb (ma_truncatebits a =? 0) then ma_truncatebits a / 8 else n in
  if ma_type a =? SSH_DIGEST then
    match ssh_hmac_start ok (ma_alg a) with
    | None => inr SSH_ERR_ALLOC_FAIL
    | Some ctx =>
        let n := ssh_hmac_bytes (ma_alg a) in
        inl (mk_mac (m_name mac) (m_enabled mac) (trunc n) (m_key mac) n (ma_type a) (ma_etm a)
               (Some ctx) (m_umac_ctx mac))
    end
  else
    inl (mk_mac (m_name mac) (m_enabled mac) (trunc (ma_len a / 8)) (m_key mac) (ma_key_len a / 8)
           (ma_type a) (ma_etm a) (m_hmac_ctx mac) None).

Definition mac_by_name (name : list Z) : option macalg :=
  List.find (fun m => bool_decide (ma_name m = name)) macs.

Definition mac_setup `{Digests} (ok : bool) (mac : sshmac) (name : list Z) : sshmac + Z :=
  match mac_by_name name with
  | Some m => mac_setup_by_alg ok mac m
  | None => inr SSH_ERR_INVALID_ARGUMENT
  end.

Fixpoint mac_valid_loop (ts : list (list Z)) (found : bool) : bool :=
  match ts with
  | [] => found
  | p :: ts =>
      if bool_decide (p = []) then found
      else if mac_by_name p is None then false
      else mac_valid_loop ts true
  end.

Definition mac_valid (ok : bool) (names : option (list Z)) : bool :=
  match names with
  | None | Some [] => false
  | Some names => if negb ok then false else mac_valid_loop (split names) false
  end.

Example tables_ex :
  cipher_alg_list 44 true = Some (str "aes128-gcm@openssh.com,aes256-gcm@openssh.com,chacha20-poly1305@openssh.com") /\
  ciphers_valid true (Some (str "aes128-ctr,none")) = false /\
  ciphers_valid true (Some (str "aes128-ctr,aes256-ctr")) = true /\
  mac_valid true (Some (str "hmac-sha2-256,foo")) = false /\
  (cipher_ivlen <$> cipher_by_name (str "chacha20-poly1305@openssh.com")) = Some 0 /\
  (cipher_ivlen <$> cipher_by_name (str "aes128-ctr")) = Some 16.
Proof. vm_compute. repeat split. Qed.

(** ** Contexts *)

Section Contexts.
Context {CR : Crypto}.

Record sshcipher_ctx := mk_cctx {
  cc_plaintext : bool;
  cc_encrypt : bool;
  cc_evp : option evp;
  cc_cp : option chachapoly_ctx;
  cc_cipher : sshcipher
}.

Definition cc_set_evp (e : evp) (cc : sshcipher_ctx) : sshcipher_ctx :=
  mk_cctx (cc_plaintext cc) (cc_encrypt cc) (Some e) (cc_cp cc) (cc_cipher cc).
Definition cc_set_cp (c : chachapoly_ctx) (cc : sshcipher_ctx) : sshcipher_ctx :=
  mk_cctx (cc_plaintext cc) (cc_encrypt cc) (cc_evp cc) (Some c) (cc_cipher cc).

Definition cipher_ctx_is_plaintext (cc : sshcipher_ctx) : bool := cc_plaintext cc.

Definition or_err {A} (e : Z) (o : option A) : A + Z := match o with Some a => inl a | None => inr e end.
Definition bind_err {A B} (x : A + Z) (k : A -> B + Z) : B + Z := match x with inl a => k a | inr e => inr e end.

(** The libcrypto part of [cipher_init]. *)
Definition evp_setup (cipher : sshcipher) (key : list Z) (keylen : Z) (iv : option (list Z)) (do_encrypt : bool)
  : evp + Z :=
  bind_err (or_err SSH_ERR_ALLOC_FAIL EVP_CIPHER_CTX_new) (fun e =>
  bind_err (or_err SSH_ERR_LIBCRYPTO_ERROR (EVP_CipherInit_iv e (ci_name cipher) iv do_encrypt)) (fun e =>
  bind_err (if negb (cipher_authlen cipher =? 0) then or_err SSH_ERR_LIBCRYPTO_ERROR (EVP_GCM_SET_IV_FIXED e iv)
       else inl e) (fun e =>
  let klen := EVP_key_length e in
  bind_err (if (klen >? 0) && negb (keylen =? klen) then or_err SSH_ERR_LIBCRYPTO_ERROR (EVP_set_key_length e keylen)
       else inl e) (fun e =>
  or_err SSH_ERR_LIBCRYPTO_ERROR (EVP_CipherInit_key e key))))).

(** [ok], [ok2]: whether the allocations of [cipher_init] and
    [chachapoly_new] succeed. *)
Definition cipher_init (ok ok2 : bool) (cipher : sshcipher) (key : list Z) (keylen : Z) (iv : option (list Z))
    (ivlen : Z) (do_encrypt : bool) : sshcipher_ctx + Z :=
  if negb ok then inr SSH_ERR_ALLOC_FAIL
  else if (keylen <? ci_key_len cipher) ||
          (match iv with Some _ => ivlen <? cipher_ivlen cipher | None => false end)
  then inr SSH_ERR_INVALID_ARGUMENT
  else
    let cc e c := mk_cctx (has_flag cipher CFLAG_NONE) do_encrypt e c cipher in
    if has_flag cipher CFLAG_CHACHAPOLY then
      match chachapoly_new ok2 key keylen with
      | Some c => inl (cc None (Some c))
      | None => inr SSH_ERR_INVALID_ARGUMENT
      end
    else if has_flag cipher CFLAG_NONE then inl (cc None None)
    else
      match evp_setup cipher key keylen iv do_encrypt with
      | inl e => inl (cc (Some e) None)
      | inr e => inr e
      end.

(** A computation on a context. *)
Abbreviation XM := (M sshcipher_ctx).

(** One libcrypto call on [cc->evp]; [e] is returned when it fails. *)
Definition evp_call (f : evp -> option evp) (err : Z) : XM unit :=
  cc ← get_st;
  match cc_evp cc with
  | None => crash
  | Some e => match f e with Some e => put_st (cc_set_evp e cc) | None => throw err end
  end.

Definition evp_call_out (f : evp -> option (list Z * evp)) (err : Z) : XM (list Z) :=
  cc ← get_st;
  match cc_evp cc with
  | None => crash
  | Some e => match f e with Some (out, e) => put_st (cc_set_evp e cc);; mret out | None => throw err end
  end.

Definition when (b : bool) (m : XM unit) : XM unit := if b then m else mret tt.

(** The bytes of the current IV that [cipher_get_keyiv] writes to its buffer of
    [len] bytes, if it writes any.  No cipher of this build has CFLAG_AESCTR. *)
Definition cipher_get_keyiv (len : Z) : XM (option (list Z)) :=
  cc ← get_st;
  if has_flag (cc_cipher cc) CFLAG_CHACHAPOLY then
    if negb (len =? 0) then throw SSH_ERR_INVALID_ARGUMENT else mret None
  else if has_flag (cc_cipher cc) CFLAG_NONE then mret None
  else
    match cc_evp cc with
    | None => crash
    | Some e =>
        let evplen := EVP_iv_length e in
        if evplen =? 0 then mret None
        else if evplen <? 0 then throw SSH_ERR_LIBCRYPTO_ERROR
        else if negb (evplen =? len) then throw SSH_ERR_INVALID_ARGUMENT
        else if negb (cipher_authlen (cc_cipher cc) =? 0) then
          iv ← evp_call_out (fun e => EVP_GCM_IV_READ e len) SSH_ERR_LIBCRYPTO_ERROR; mret (Some iv)
        else match EVP_get_iv e len with Some iv => mret (Some iv) | None => throw SSH_ERR_LIBCRYPTO_ERROR end
    end.

(** The bytes [cipher_crypt] writes to [dest]; [src] is the input from the
    pointer on. *)
Definition cipher_crypt (seqnr : Z) (src : list Z) (len aadlen authlen : Z) : XM (list Z) :=
  cc ← get_st;
  if has_flag (cc_cipher cc) CFLAG_CHACHAPOLY then
    match cc_cp cc with
    | None => crash
    | Some c =>
        match chachapoly_crypt c seqnr src (Z.to_nat len) (Z.to_nat aadlen) (cc_encrypt cc) with
        | (Ok dest, c) => put_st (cc_set_cp c cc);; mret dest
        | (Err e, c) => put_st (cc_set_cp c cc);; throw e
        | (Crash, _) => crash
        end
    end
  else if has_flag (cc_cipher cc) CFLAG_NONE then mret (slice src 0 (aadlen + len))
  else
    let auth := negb (authlen =? 0) in
    when auth (
      check (authlen =? cipher_authlen (cc_cipher cc)) SSH_ERR_INVALID_ARGUMENT;;
      evp_call EVP_GCM_IV_GEN SSH_ERR_LIBCRYPTO_ERROR;;
      when (negb (cc_encrypt cc))
        (evp_call (fun e => EVP_GCM_SET_TAG e (slice src (aadlen + len) authlen)) SSH_ERR_LIBCRYPTO_ERROR));;
    when (negb (aadlen =? 0) && auth)
      (evp_call (fun e => EVP_Cipher_aad e (slice src 0 aadlen)) SSH_ERR_LIBCRYPTO_ERROR);;
    check (len mod ci_block_size (cc_cipher cc) =? 0) SSH_ERR_INVALID_ARGUMENT;;
    body ← evp_call_out (fun e => EVP_Cipher e (slice src aadlen len)) SSH_ERR_LIBCRYPTO_ERROR;
    let dest := slice src 0 aadlen ++ body in
    if auth then
      evp_call EVP_Cipher_final (if cc_encrypt cc then SSH_ERR_LIBCRYPTO_ERROR else SSH_ERR_MAC_INVALID);;
      if cc_encrypt cc then
        tag ← evp_call_out (fun e => EVP_GCM_GET_TAG e authlen) SSH_ERR_LIBCRYPTO_ERROR;
        mret (dest ++ tag)
      else mret dest
    else mret dest.

Definition cipher_get_length (seqnr : Z) (cp : list Z) (len : Z) : XM Z :=
  cc ← get_st;
  if has_flag (cc_cipher cc) CFLAG_CHACHAPOLY then
    match cc_cp cc with
    | None => crash
    | Some c =>
        match chachapoly_get_length c seqnr cp len with
        | (Ok n, c) => put_st (cc_set_cp c cc);; mret n
        | (Err e, c) => put_st (cc_set_cp c cc);; throw e
        | (Crash, _) => crash
        end
    end
  else if len <? 4 then throw SSH_ERR_MESSAGE_INCOMPLETE
  else mret (PEEK_U32 cp).

(** ** MACs *)

Definition set_hmac (c : option ssh_hmac_ctx) (m : sshmac) : sshmac :=
  mk_mac (m_name m) (m_enabled m) (m_mac_len m) (m_key m) (m_key_len m) (m_type m) (m_etm m) c (m_umac_ctx m).
Definition set_umac (c : option (list Z)) (m : sshmac) : sshmac :=
  mk_mac (m_name m) (m_enabled m) (m_mac_len m) (m_key m) (m_key_len m) (m_type m) (m_etm m) (m_hmac_ctx m) c.

(** [ok]: whether [umac_new] succeeds. *)
Definition mac_init (ok : bool) (mac : sshmac) : sshmac + Z :=
  match m_key mac with
  | None => inr SSH_ERR_INVALID_ARGUMENT
  | Some key =>
      if m_type mac =? SSH_DIGEST then
        match m_hmac_ctx mac with
        | None => inr SSH_ERR_INVALID_ARGUMENT
        | Some ctx =>
            match ssh_hmac_init ctx (Some (slice key 0 (m_key_len mac))) with
            | None => inr SSH_ERR_INVALID_ARGUMENT
            | Some ctx => inl (set_hmac (Some ctx) mac)
            end
        end
      else if (m_type mac =? SSH_UMAC) || (m_type mac =? SSH_UMAC128) then
        if ok then inl (set_umac (Some key) mac) else inr SSH_ERR_ALLOC_FAIL
      else inr SSH_ERR_INVALID_ARGUMENT
  end.

(** The bytes stored at [digest].  The HMAC context is left as it was: what a
    message changes in it has no influence on the next one ([hmac_messages]). *)
Definition mac_compute (mac : sshmac) (seqno : Z) (data : list Z) (dlen : Z) : list Z + Z :=
  if m_mac_len mac >? SSH_DIGEST_MAX_LENGTH then inr SSH_ERR_INTERNAL_ERROR
  else
    let out d := inl (slice d 0 (Z.min dlen (m_mac_len mac))) in
    if m_type mac =? SSH_DIGEST then
      match m_hmac_ctx mac with
      | None => inr SSH_ERR_LIBCRYPTO_ERROR
      | Some ctx =>
          match hmac_message ctx [POKE_U32 seqno; data] SSH_DIGEST_MAX_LENGTH with
          | Some (d, _) => out d
          | None => inr SSH_ERR_LIBCRYPTO_ERROR
          end
      end
    else if m_type mac =? SSH_UMAC then
      out (umac (default [] (m_umac_ctx mac)) data (POKE_U64 seqno))
    else if m_type mac =? SSH_UMAC128 then
      out (umac128 (default [] (m_umac_ctx mac)) data (POKE_U64 seqno))
    else inr SSH_ERR_INVALID_ARGUMENT.

(** 0 or the error; [theirmac] is the input from the pointer on. *)
Definition mac_check (mac : sshmac) (seqno : Z) (data theirmac : list Z) (mlen : Z) : Z :=
  if m_mac_len mac >? mlen then SSH_ERR_INVALID_ARGUMENT
  else
    match mac_compute mac seqno data SSH_DIGEST_MAX_LENGTH with
    | inr e => e
    | inl ourmac =>
        if timingsafe_bcmp ourmac theirmac (Z.to_nat (m_mac_len mac)) then SSH_ERR_MAC_INVALID else 0
    end.
End Contexts.
