(* ===== verification/SshkeyNames.v ===== *)
(** * Key types and signature algorithms: the tables of [sshkey.c]

    Names only; keys themselves are not modelled here.  The curve identifiers
    of libcrypto are the record [curve_nids], as in KexNames. *)

From S2P Require Import Prelude Cstring Match KexNames.

Definition KEY_RSA : Z := 0.
Definition KEY_ECDSA : Z := 1.
Definition KEY_ED25519 : Z := 2.
Definition KEY_RSA_CERT : Z := 3.
Definition KEY_ECDSA_CERT : Z := 4.
Definition KEY_ED25519_CERT : Z := 5.
Definition KEY_ECDSA_SK : Z := 6.
Definition KEY_ECDSA_SK_CERT : Z := 7.
Definition KEY_ED25519_SK : Z := 8.
Definition KEY_ED25519_SK_CERT : Z := 9.
Definition KEY_MLDSA44_ED25519 : Z := 10.
Definition KEY_MLDSA44_ED25519_CERT : Z := 11.
Definition KEY_UNSPEC : Z := 12.

Record sshkey_impl := mk_impl {
  im_name : list Z;
  im_shortname : list Z;
  im_sigalg : option (list Z);
  im_type : Z;
  im_nid : Z;
  im_cert : bool;
  im_sigonly : bool;
  im_keybits : Z
}.

Section Keys.
Context (nids : curve_nids).

Definition sshkey_ed25519_impl : sshkey_impl :=
  mk_impl (str "ssh-ed25519") (str "ED25519") None
    KEY_ED25519 0 false false 256.
Definition sshkey_ed25519_cert_impl : sshkey_impl :=
  mk_impl (str "ssh-ed25519-cert-v01@openssh.com") (str "ED25519-CERT") None
    KEY_ED25519_CERT 0 true false 256.
Definition sshkey_ed25519_sk_impl : sshkey_impl :=
  mk_impl (str "sk-ssh-ed25519@openssh.com") (str "ED25519-SK") None
    KEY_ED25519_SK 0 false false 256.
Definition sshkey_ed25519_sk_cert_impl : sshkey_impl :=
  mk_impl (str "sk-ssh-ed25519-cert-v01@openssh.com") (str "ED25519-SK-CERT") None
    KEY_ED25519_SK_CERT 0 true false 256.
Definition sshkey_mldsa44_ed25519_impl : sshkey_impl :=
  mk_impl (str "ssh-mldsa44-ed25519@openssh.com") (str "MLDSA44-ED25519") None
    KEY_MLDSA44_ED25519 0 false false 256.
Definition sshkey_mldsa44_ed25519_cert_impl : sshkey_impl :=
  mk_impl (str "ssh-mldsa44-ed25519-cert-v01@openssh.com") (str "MLDSA44-ED25519-CERT") None
    KEY_MLDSA44_ED25519_CERT 0 true false 256.
Definition sshkey_ecdsa_nistp256_impl : sshkey_impl :=
  mk_impl (str "ecdsa-sha2-nistp256") (str "ECDSA") None
    KEY_ECDSA (nid_p256 nids) false false 0.
Definition sshkey_ecdsa_nistp256_cert_impl : sshkey_impl :=
  mk_impl (str "ecdsa-sha2-nistp256-cert-v01@openssh.com") (str "ECDSA-CERT") None
    KEY_ECDSA_CERT (nid_p256 nids) true false 0.
Definition sshkey_ecdsa_nistp384_impl : sshkey_impl :=
  mk_impl (str "ecdsa-sha2-nistp384") (str "ECDSA") None
    KEY_ECDSA (nid_p384 nids) false false 0.
Definition sshkey_ecdsa_nistp384_cert_impl : sshkey_impl :=
  mk_impl (str "ecdsa-sha2-nistp384-cert-v01@openssh.com") (str "ECDSA-CERT") None
    KEY_ECDSA_CERT (nid_p384 nids) true false 0.
Definition sshkey_ecdsa_nistp521_impl : sshkey_impl :=
  mk_impl (str "ecdsa-sha2-nistp521") (str "ECDSA") None
    KEY_ECDSA (nid_p521 nids) false false 0.
Definition sshkey_ecdsa_nistp521_cert_impl : sshkey_impl :=
  mk_impl (str "ecdsa-sha2-nistp521-cert-v01@openssh.com") (str "ECDSA-CERT") None
    KEY_ECDSA_CERT (nid_p521 nids) true false 0.
Definition sshkey_ecdsa_sk_impl : sshkey_impl :=
  mk_impl (str "sk-ecdsa-sha2-nistp256@openssh.com") (str "ECDSA-SK") None
    KEY_ECDSA_SK (nid_p256 nids) false false 256.
Definition sshkey_ecdsa_sk_cert_impl : sshkey_impl :=
  mk_impl (str "sk-ecdsa-sha2-nistp256-cert-v01@openssh.com") (str "ECDSA-SK-CERT") None
    KEY_ECDSA_SK_CERT (nid_p256 nids) true false 256.
Definition sshkey_ecdsa_sk_webauthn_impl : sshkey_impl :=
  mk_impl (str "webauthn-sk-ecdsa-sha2-nistp256@openssh.com") (str "ECDSA-SK") None
    KEY_ECDSA_SK (nid_p256 nids) false true 256.
Definition sshkey_ecdsa_sk_webauthn_cert_impl : sshkey_impl :=
  mk_impl (str "webauthn-sk-ecdsa-sha2-nistp256-cert-v01@openssh.com") (str "ECDSA-SK-CERT") None
    KEY_ECDSA_SK_CERT (nid_p256 nids) true true 256.
Definition sshkey_rsa_impl : sshkey_impl :=
  mk_impl (str "ssh-rsa") (str "RSA") None
    KEY_RSA 0 false false 0.
Definition sshkey_rsa_cert_impl : sshkey_impl :=
  mk_impl (str "ssh-rsa-cert-v01@openssh.com") (str "RSA-CERT") None
    KEY_RSA_CERT 0 true false 0.
Definition sshkey_rsa_sha256_impl : sshkey_impl :=
  mk_impl (str "rsa-sha2-256") (str "RSA") None
    KEY_RSA 0 false true 0.
Definition sshkey_rsa_sha256_cert_impl : sshkey_impl :=
  mk_impl (str "rsa-sha2-256-cert-v01@openssh.com") (str "RSA-CERT") (Some (str "rsa-sha2-256"))
    KEY_RSA_CERT 0 true true 0.
Definition sshkey_rsa_sha512_impl : sshkey_impl :=
  mk_impl (str "rsa-sha2-512") (str "RSA") None
    KEY_RSA 0 false true 0.
Definition sshkey_rsa_sha512_cert_impl : sshkey_impl :=
  mk_impl (str "rsa-sha2-512-cert-v01@openssh.com") (str "RSA-CERT") (Some (str "rsa-sha2-512"))
    KEY_RSA_CERT 0 true true 0.

Definition keyimpls : list sshkey_impl := [
  sshkey_ed25519_impl;
  sshkey_ed25519_cert_impl;
  sshkey_ed25519_sk_impl;
  sshkey_ed25519_sk_cert_impl;
  sshkey_mldsa44_ed25519_impl;
  sshkey_mldsa44_ed25519_cert_impl;
  sshkey_ecdsa_nistp256_impl;
  sshkey_ecdsa_nistp256_cert_impl;
  sshkey_ecdsa_nistp384_impl;
  sshkey_ecdsa_nistp384_cert_impl;
  sshkey_ecdsa_nistp521_impl;
  sshkey_ecdsa_nistp521_cert_impl;
  sshkey_ecdsa_sk_impl;
  sshkey_ecdsa_sk_cert_impl;
  sshkey_ecdsa_sk_webauthn_impl;
  sshkey_ecdsa_sk_webauthn_cert_impl;
  sshkey_rsa_impl;
  sshkey_rsa_cert_impl;
  sshkey_rsa_sha256_impl;
  sshkey_rsa_sha256_cert_impl;
  sshkey_rsa_sha512_impl;
  sshkey_rsa_sha512_cert_impl
].

Definition sshkey_impl_from_type (type : Z) : option sshkey_impl :=
  List.find (fun i => im_type i =? type) keyimpls.

Definition sshkey_impl_from_type_nid (type nid : Z) : option sshkey_impl :=
  List.find (fun i => (im_type i =? type) && ((im_nid i =? 0) || (im_nid i =? nid))) keyimpls.

Definition sshkey_ssh_name_from_type_nid (type nid : Z) : list Z :=
  match sshkey_impl_from_type_nid type nid with Some i => im_name i | None => str "ssh-unknown" end.

Definition sshkey_type_is_cert (type : Z) : bool :=
  match sshkey_impl_from_type type with Some i => im_cert i | None => false end.

(** [strcasecmp(a, b) == 0]. *)
Definition caseeq (a b : list Z) : bool := bool_decide (lowercase a = lowercase b).

Definition type_from_name (name : list Z) (allow_short : bool) : Z :=
  match List.find (fun i => bool_decide (im_name i = name) ||
                     (allow_short && negb (im_cert i) && caseeq (im_shortname i) name)) keyimpls with
  | Some i => im_type i
  | None => KEY_UNSPEC
  end.

Definition sshkey_type_from_name (name : list Z) : Z := type_from_name name false.
Definition sshkey_type_from_shortname (name : list Z) : Z := type_from_name name true.

Definition key_type_is_ecdsa_variant (type : Z) : bool :=
  (type =? KEY_ECDSA) || (type =? KEY_ECDSA_CERT) || (type =? KEY_ECDSA_SK) || (type =? KEY_ECDSA_SK_CERT).

Definition sshkey_ecdsa_nid_from_name (name : list Z) : Z :=
  match List.find (fun i => key_type_is_ecdsa_variant (im_type i) && bool_decide (im_name i = name)) keyimpls with
  | Some i => im_nid i
  | None => -1
  end.

Definition sshkey_match_keyname_to_sigalgs (keyname : list Z) (sigalgs : option (list Z)) : bool :=
  match sigalgs with
  | None | Some [] => false
  | Some sigalgs =>
      let any names := existsb (fun n => match_pattern_list n sigalgs false =? 1) names in
      let ktype := sshkey_type_from_name keyname in
      if ktype =? KEY_UNSPEC then false
      else if ktype =? KEY_RSA then any [str "ssh-rsa"; str "rsa-sha2-256"; str "rsa-sha2-512"]
      else if ktype =? KEY_RSA_CERT then
        any [str "ssh-rsa-cert-v01@openssh.com"; str "rsa-sha2-256-cert-v01@openssh.com";
             str "rsa-sha2-512-cert-v01@openssh.com"]
      else if ktype =? KEY_ECDSA_SK then
        any [str "sk-ecdsa-sha2-nistp256@openssh.com"; str "webauthn-sk-ecdsa-sha2-nistp256@openssh.com"]
      else if ktype =? KEY_ECDSA_SK_CERT then
        any [str "sk-ecdsa-sha2-nistp256-cert-v01@openssh.com";
             str "webauthn-sk-ecdsa-sha2-nistp256-cert-v01@openssh.com"]
      else any [keyname]
  end.

Definition sshkey_alg_list (certs_only plain_only include_sigonly : bool) (sep : Z) : option (list Z) :=
  foldl (fun ret i =>
    if negb include_sigonly && im_sigonly i then ret
    else if (certs_only && negb (im_cert i)) || (plain_only && im_cert i) then ret
    else Some (xextendf ret [sep] (im_name i))) None keyimpls.

Definition sshkey_type_plain (type : Z) : Z :=
  if type =? KEY_RSA_CERT then KEY_RSA
  else if type =? KEY_ECDSA_CERT then KEY_ECDSA
  else if type =? KEY_ECDSA_SK_CERT then KEY_ECDSA_SK
  else if type =? KEY_ED25519_CERT then KEY_ED25519
  else if type =? KEY_MLDSA44_ED25519_CERT then KEY_MLDSA44_ED25519
  else if type =? KEY_ED25519_SK_CERT then KEY_ED25519_SK
  else type.

Definition sshkey_type_certified (type : Z) : Z :=
  if type =? KEY_RSA then KEY_RSA_CERT
  else if type =? KEY_ECDSA then KEY_ECDSA_CERT
  else if type =? KEY_ECDSA_SK then KEY_ECDSA_SK_CERT
  else if type =? KEY_ED25519 then KEY_ED25519_CERT
  else if type =? KEY_MLDSA44_ED25519 then KEY_MLDSA44_ED25519_CERT
  else if type =? KEY_ED25519_SK then KEY_ED25519_SK_CERT
  else -1.

Definition sshkey_type_is_valid_ca (type : Z) : bool :=
  match sshkey_impl_from_type type with Some i => negb (im_cert i) | None => false end.

(** The loop of [sshkey_names_valid2], which ends at an empty token. *)
Fixpoint key_names_valid_loop (ts : list (list Z)) (allow_wildcard plain_only : bool) : bool :=
  match ts with
  | [] => true
  | p :: ts =>
      if bool_decide (p = []) then true
      else
        let type := sshkey_type_from_name p in
        if type =? KEY_UNSPEC then
          if allow_wildcard && existsb (fun i => negb (match_pattern_list (im_name i) p false =? 0)) keyimpls
          then key_names_valid_loop ts allow_wildcard plain_only
          else false
        else if plain_only && sshkey_type_is_cert type then false
        else key_names_valid_loop ts allow_wildcard plain_only
  end.

(** [ok]: whether strdup succeeds. *)
Definition sshkey_names_valid2 (ok : bool) (names : option (list Z)) (allow_wildcard plain_only : bool) : bool :=
  match names with
  | None | Some [] => false
  | Some names => if negb ok then false else key_names_valid_loop (split names) allow_wildcard plain_only
  end.

Definition sshkey_sigalg_by_name (name : list Z) : option (list Z) :=
  match List.find (fun i => bool_decide (im_name i = name)) keyimpls with
  | None => None
  | Some i =>
      match im_sigalg i with
      | Some a => Some a
      | None =>
          if negb (im_cert i) then Some (im_name i)
          else Some (sshkey_ssh_name_from_type_nid (sshkey_type_plain (im_type i)) (im_nid i))
      end
  end.
End Keys.

Definition demo_nids : curve_nids := {| nid_p256 := 415; nid_p384 := 715; nid_p521 := 716 |}.

Example key_names_ex :
  sshkey_type_from_name demo_nids (str "rsa-sha2-512") = KEY_RSA /\
  sshkey_type_from_name demo_nids (str "RSA") = KEY_UNSPEC /\
  sshkey_type_from_shortname demo_nids (str "rsa") = KEY_RSA /\
  sshkey_ecdsa_nid_from_name demo_nids (str "ecdsa-sha2-nistp384") = 715 /\
  sshkey_sigalg_by_name demo_nids (str "rsa-sha2-256-cert-v01@openssh.com") = Some (str "rsa-sha2-256") /\
  sshkey_sigalg_by_name demo_nids (str "ecdsa-sha2-nistp521-cert-v01@openssh.com") = Some (str "ecdsa-sha2-nistp521") /\
  sshkey_names_valid2 demo_nids true (Some (str "ssh-rsa,*-cert-*")) true false = true /\
  sshkey_names_valid2 demo_nids true (Some (str "ssh-rsa,foo")) false false = false.
Proof. vm_compute. repeat split. Qed.
