(* ===== verification/SshState.v ===== *)
(** * The connection state: struct ssh, session_state, kex, newkeys

    The fields the modelled functions of [packet.c], [kex.c] and [dispatch.c]
    use.  Buffers are their contents: every access goes through the sshbuf
    calls proved to behave so (ByteQueue, SshbufMsg).  The environment is part
    of the state: answers of the allocator, random bytes, answers of write(2)
    with the bytes written so far, of read(2), and the monotonic clock. *)

From S2P Require Import Prelude Ssherr Cstring Match KexNames Cipher.

(** A handler in the dispatch table. *)
Inductive handler :=
| h_kex_protocol_error
| h_kex_input_kexinit
| h_kex_input_newkeys
| h_kex_input_ext_info
| h_dispatch_protocol_error
| h_dispatch_protocol_ignore
| h_other (n : Z).

#[export] Instance handler_eq_dec : EqDecision handler.
Proof. solve_decision. Defined.

(** An answer of write(2): the number of bytes, EAGAIN and the like, or an
    error. *)
Inductive wres := Wrote (n : Z) | WAgain | WError.

(** What a wait for input followed by read(2) gives: bytes, a timeout, or an
    error. *)
Inductive rres := Read (bs : list Z) | RTimeout | RError.

Section State.
Context {CR : Crypto}.


(** struct sshenc. *)
Record sshenc := mk_enc {
  e_name : list Z;
  e_cipher : sshcipher;
  e_enabled : bool;
  e_key_len : Z;
  e_iv_len : Z;
  e_block_size : Z;
  e_key : option (list Z);
  e_iv : option (list Z)
}.

Definition COMP_NONE : Z := 0.
Definition COMP_DELAYED : Z := 2.

(** struct sshcomp. *)
Record sshcomp := mk_comp { c_type : Z; c_enabled : bool; c_name : option (list Z) }.

(** struct newkeys; the cipher is unset until one is chosen. *)
Record newkeys := mk_newkeys { nk_enc : option sshenc; nk_mac : sshmac; nk_comp : sshcomp }.

(** struct packet_state. *)
Record packet_state := mk_ps {
  ps_seqnr : Z;
  ps_packets : Z;
  ps_blocks : Z;
  ps_bytes : Z
}.

Definition rebuild_packet_state (c : packet_state) : packet_state :=
  mk_ps
    (ps_seqnr c) (ps_packets c) (ps_blocks c) (ps_bytes c).

Ltac assign_packet_state c field v :=
  let t := eval cbv [rebuild_packet_state] in (rebuild_packet_state c) in
  lazymatch t with context G [field c] => let r := context G [v] in exact r end.

Definition set_ps_seqnr (v : Z) (c : packet_state) : packet_state := ltac:(assign_packet_state c (ps_seqnr) v).
Definition set_ps_packets (v : Z) (c : packet_state) : packet_state := ltac:(assign_packet_state c (ps_packets) v).
Definition set_ps_blocks (v : Z) (c : packet_state) : packet_state := ltac:(assign_packet_state c (ps_blocks) v).
Definition set_ps_bytes (v : Z) (c : packet_state) : packet_state := ltac:(assign_packet_state c (ps_bytes) v).

(** struct session_state. *)
Record session_state := mk_state {
  st_receive_context : option sshcipher_ctx;
  st_send_context : option sshcipher_ctx;
  st_input : list Z;
  st_output : list Z;
  st_outgoing_packet : list Z;
  st_incoming_packet : list Z;
  st_compression_buffer : option (list Z);
  st_compression_in_stream : option z_stream;
  st_compression_out_stream : option z_stream;
  st_compression_in_started : bool;
  st_compression_out_started : bool;
  st_compression_in_failures : Z;
  st_compression_out_failures : Z;
  st_server_side : bool;
  st_after_authentication : bool;
  st_keep_alive_timeouts : Z;
  st_newkeys_in : option newkeys;
  st_newkeys_out : option newkeys;
  st_p_read : packet_state;
  st_p_send : packet_state;
  st_hard_max_blocks_in : Z;
  st_hard_max_blocks_out : Z;
  st_max_blocks_in : Z;
  st_max_blocks_out : Z;
  st_rekey_limit : Z;
  st_rekey_interval : Z;
  st_rekey_time : Z;
  st_extra_pad : Z;
  st_packet_discard : Z;
  st_packet_discard_mac_already : Z;
  st_packet_discard_mac : option sshmac;
  st_packlen : Z;
  st_rekeying : bool;
  st_mux : bool;
  st_disconnecting : bool;
  st_interactive_mode : Z;
  st_qos_interactive : Z;
  st_qos_other : Z;
  st_max_packet_size : Z;
  st_set_maxsize_called : bool;
  st_packet_timeout_ms : Z;
  st_outgoing : list (Z * list Z)
}.

Definition rebuild_session_state (c : session_state) : session_state :=
  mk_state
    (st_receive_context c) (st_send_context c) (st_input c) (st_output c) (st_outgoing_packet c)
    (st_incoming_packet c) (st_compression_buffer c) (st_compression_in_stream c)
    (st_compression_out_stream c) (st_compression_in_started c) (st_compression_out_started c)
    (st_compression_in_failures c) (st_compression_out_failures c) (st_server_side c)
    (st_after_authentication c) (st_keep_alive_timeouts c) (st_newkeys_in c) (st_newkeys_out c)
    (st_p_read c) (st_p_send c) (st_hard_max_blocks_in c) (st_hard_max_blocks_out c)
    (st_max_blocks_in c) (st_max_blocks_out c) (st_rekey_limit c) (st_rekey_interval c)
    (st_rekey_time c) (st_extra_pad c) (st_packet_discard c) (st_packet_discard_mac_already c)
    (st_packet_discard_mac c) (st_packlen c) (st_rekeying c) (st_mux c) (st_disconnecting c)
    (st_interactive_mode c) (st_qos_interactive c) (st_qos_other c) (st_max_packet_size c)
    (st_set_maxsize_called c) (st_packet_timeout_ms c) (st_outgoing c).

Ltac assign_session_state c field v :=
  let t := eval cbv [rebuild_session_state] in (rebuild_session_state c) in
  lazymatch t with context G [field c] => let r := context G [v] in exact r end.

Definition set_st_receive_context (v : option sshcipher_ctx) (c : session_state) : session_state := ltac:(assign_session_state c (st_receive_context) v).
Definition set_st_send_context (v : option sshcipher_ctx) (c : session_state) : session_state := ltac:(assign_session_state c (st_send_context) v).
Definition set_st_input (v : list Z) (c : session_state) : session_state := ltac:(assign_session_state c (st_input) v).
Definition set_st_output (v : list Z) (c : session_state) : session_state := ltac:(assign_session_state c (st_output) v).
Definition set_st_outgoing_packet (v : list Z) (c : session_state) : session_state := ltac:(assign_session_state c (st_outgoing_packet) v).
Definition set_st_incoming_packet (v : list Z) (c : session_state) : session_state := ltac:(assign_session_state c (st_incoming_packet) v).
Definition set_st_compression_buffer (v : option (list Z)) (c : session_state) : session_state := ltac:(assign_session_state c (st_compression_buffer) v).
Definition set_st_compression_in_stream (v : option z_stream) (c : session_state) : session_state := ltac:(assign_session_state c (st_compression_in_stream) v).
Definition set_st_compression_out_stream (v : option z_stream) (c : session_state) : session_state := ltac:(assign_session_state c (st_compression_out_stream) v).
Definition set_st_compression_in_started (v : bool) (c : session_state) : session_state := ltac:(assign_session_state c (st_compression_in_started) v).
Definition set_st_compression_out_started (v : bool) (c : session_state) : session_state := ltac:(assign_session_state c (st_compression_out_started) v).
Definition set_st_compression_in_failures (v : Z) (c : session_state) : session_state := ltac:(assign_session_state c (st_compression_in_failures) v).
Definition set_st_compression_out_failures (v : Z) (c : session_state) : session_state := ltac:(assign_session_state c (st_compression_out_failures) v).
Definition set_st_server_side (v : bool) (c : session_state) : session_state := ltac:(assign_session_state c (st_server_side) v).
Definition set_st_after_authentication (v : bool) (c : session_state) : session_state := ltac:(assign_session_state c (st_after_authentication) v).
Definition set_st_keep_alive_timeouts (v : Z) (c : session_state) : session_state := ltac:(assign_session_state c (st_keep_alive_timeouts) v).
Definition set_st_newkeys_in (v : option newkeys) (c : session_state) : session_state := ltac:(assign_session_state c (st_newkeys_in) v).
Definition set_st_newkeys_out (v : option newkeys) (c : session_state) : session_state := ltac:(assign_session_state c (st_newkeys_out) v).
Definition set_st_p_read (v : packet_state) (c : session_state) : session_state := ltac:(assign_session_state c (st_p_read) v).
Definition set_st_p_send (v : packet_state) (c : session_state) : session_state := ltac:(assign_session_state c (st_p_send) v).
Definition set_st_hard_max_blocks_in (v : Z) (c : session_state) : session_state := ltac:(assign_session_state c (st_hard_max_blocks_in) v).
Definition set_st_hard_max_blocks_out (v : Z) (c : session_state) : session_state := ltac:(assign_session_state c (st_hard_max_blocks_out) v).
Definition set_st_max_blocks_in (v : Z) (c : session_state) : session_state := ltac:(assign_session_state c (st_max_blocks_in) v).
Definition set_st_max_blocks_out (v : Z) (c : session_state) : session_state := ltac:(assign_session_state c (st_max_blocks_out) v).
Definition set_st_rekey_limit (v : Z) (c : session_state) : session_state := ltac:(assign_session_state c (st_rekey_limit) v).
Definition set_st_rekey_interval (v : Z) (c : session_state) : session_state := ltac:(assign_session_state c (st_rekey_interval) v).
Definition set_st_rekey_time (v : Z) (c : session_state) : session_state := ltac:(assign_session_state c (st_rekey_time) v).
Definition set_st_extra_pad (v : Z) (c : session_state) : session_state := ltac:(assign_session_state c (st_extra_pad) v).
Definition set_st_packet_discard (v : Z) (c : session_state) : session_state := ltac:(assign_session_state c (st_packet_discard) v).
Definition set_st_packet_discard_mac_already (v : Z) (c : session_state) : session_state := ltac:(assign_session_state c (st_packet_discard_mac_already) v).
Definition set_st_packet_discard_mac (v : option sshmac) (c : session_state) : session_state := ltac:(assign_session_state c (st_packet_discard_mac) v).
Definition set_st_packlen (v : Z) (c : session_state) : session_state := ltac:(assign_session_state c (st_packlen) v).
Definition set_st_rekeying (v : bool) (c : session_state) : session_state := ltac:(assign_session_state c (st_rekeying) v).
Definition set_st_mux (v : bool) (c : session_state) : session_state := ltac:(assign_session_state c (st_mux) v).
Definition set_st_disconnecting (v : bool) (c : session_state) : session_state := ltac:(assign_session_state c (st_disconnecting) v).
Definition set_st_interactive_mode (v : Z) (c : session_state) : session_state := ltac:(assign_session_state c (st_interactive_mode) v).
Definition set_st_qos_interactive (v : Z) (c : session_state) : session_state := ltac:(assign_session_state c (st_qos_interactive) v).
Definition set_st_qos_other (v : Z) (c : session_state) : session_state := ltac:(assign_session_state c (st_qos_other) v).
Definition set_st_max_packet_size (v : Z) (c : session_state) : session_state := ltac:(assign_session_state c (st_max_packet_size) v).
Definition set_st_set_maxsize_called (v : bool) (c : session_state) : session_state := ltac:(assign_session_state c (st_set_maxsize_called) v).
Definition set_st_packet_timeout_ms (v : Z) (c : session_state) : session_state := ltac:(assign_session_state c (st_packet_timeout_ms) v).
Definition set_st_outgoing (v : list (Z * list Z)) (c : session_state) : session_state := ltac:(assign_session_state c (st_outgoing) v).

(** struct kex. *)
Record kex := mk_kex {
  k_newkeys_in : option newkeys;
  k_newkeys_out : option newkeys;
  k_we_need : Z;
  k_dh_need : Z;
  k_server : bool;
  k_name : option (list Z);
  k_hostkey_alg : option (list Z);
  k_hostkey_type : Z;
  k_hostkey_nid : Z;
  k_kex_type : Z;
  k_server_sig_algs : option (list Z);
  k_ext_info_c : bool;
  k_ext_info_s : bool;
  k_kex_strict : bool;
  k_ext_info_received : Z;
  k_my : list Z;
  k_peer : list Z;
  k_client_version : list Z;
  k_server_version : list Z;
  k_session_id : list Z;
  k_done : bool;
  k_flags : Z;
  k_hash_alg : Z;
  k_ec_nid : Z;
  k_failed_choice : option (list Z)
}.

Definition rebuild_kex (c : kex) : kex :=
  mk_kex
    (k_newkeys_in c) (k_newkeys_out c) (k_we_need c) (k_dh_need c) (k_server c) (k_name c)
    (k_hostkey_alg c) (k_hostkey_type c) (k_hostkey_nid c) (k_kex_type c) (k_server_sig_algs c)
    (k_ext_info_c c) (k_ext_info_s c) (k_kex_strict c) (k_ext_info_received c) (k_my c) (k_peer
    c) (k_client_version c) (k_server_version c) (k_session_id c) (k_done c) (k_flags c)
    (k_hash_alg c) (k_ec_nid c) (k_failed_choice c).

Ltac assign_kex c field v :=
  let t := eval cbv [rebuild_kex] in (rebuild_kex c) in
  lazymatch t with context G [field c] => let r := context G [v] in exact r end.

Definition set_k_newkeys_in (v : option newkeys) (c : kex) : kex := ltac:(assign_kex c (k_newkeys_in) v).
Definition set_k_newkeys_out (v : option newkeys) (c : kex) : kex := ltac:(assign_kex c (k_newkeys_out) v).
Definition set_k_we_need (v : Z) (c : kex) : kex := ltac:(assign_kex c (k_we_need) v).
Definition set_k_dh_need (v : Z) (c : kex) : kex := ltac:(assign_kex c (k_dh_need) v).
Definition set_k_server (v : bool) (c : kex) : kex := ltac:(assign_kex c (k_server) v).
Definition set_k_name (v : option (list Z)) (c : kex) : kex := ltac:(assign_kex c (k_name) v).
Definition set_k_hostkey_alg (v : option (list Z)) (c : kex) : kex := ltac:(assign_kex c (k_hostkey_alg) v).
Definition set_k_hostkey_type (v : Z) (c : kex) : kex := ltac:(assign_kex c (k_hostkey_type) v).
Definition set_k_hostkey_nid (v : Z) (c : kex) : kex := ltac:(assign_kex c (k_hostkey_nid) v).
Definition set_k_kex_type (v : Z) (c : kex) : kex := ltac:(assign_kex c (k_kex_type) v).
Definition set_k_server_sig_algs (v : option (list Z)) (c : kex) : kex := ltac:(assign_kex c (k_server_sig_algs) v).
Definition set_k_ext_info_c (v : bool) (c : kex) : kex := ltac:(assign_kex c (k_ext_info_c) v).
Definition set_k_ext_info_s (v : bool) (c : kex) : kex := ltac:(assign_kex c (k_ext_info_s) v).
Definition set_k_kex_strict (v : bool) (c : kex) : kex := ltac:(assign_kex c (k_kex_strict) v).
Definition set_k_ext_info_received (v : Z) (c : kex) : kex := ltac:(assign_kex c (k_ext_info_received) v).
Definition set_k_my (v : list Z) (c : kex) : kex := ltac:(assign_kex c (k_my) v).
Definition set_k_peer (v : list Z) (c : kex) : kex := ltac:(assign_kex c (k_peer) v).
Definition set_k_client_version (v : list Z) (c : kex) : kex := ltac:(assign_kex c (k_client_version) v).
Definition set_k_server_version (v : list Z) (c : kex) : kex := ltac:(assign_kex c (k_server_version) v).
Definition set_k_session_id (v : list Z) (c : kex) : kex := ltac:(assign_kex c (k_session_id) v).
Definition set_k_done (v : bool) (c : kex) : kex := ltac:(assign_kex c (k_done) v).
Definition set_k_flags (v : Z) (c : kex) : kex := ltac:(assign_kex c (k_flags) v).
Definition set_k_hash_alg (v : Z) (c : kex) : kex := ltac:(assign_kex c (k_hash_alg) v).
Definition set_k_ec_nid (v : Z) (c : kex) : kex := ltac:(assign_kex c (k_ec_nid) v).
Definition set_k_failed_choice (v : option (list Z)) (c : kex) : kex := ltac:(assign_kex c (k_failed_choice) v).

(** struct ssh. *)
Record ssh := mk_sshc {
  ssh_state : session_state;
  ssh_kex : option kex;
  ssh_dispatch : list (option handler);
  ssh_skip_packets : Z;
  ssh_compat : Z;
  ssh_oom : list bool;
  ssh_rnd : list Z;
  ssh_writes : list wres;
  ssh_wire : list Z;
  ssh_reads : list rres;
  ssh_now : Z
}.

Definition rebuild_ssh (c : ssh) : ssh :=
  mk_sshc
    (ssh_state c) (ssh_kex c) (ssh_dispatch c) (ssh_skip_packets c) (ssh_compat c) (ssh_oom c)
    (ssh_rnd c) (ssh_writes c) (ssh_wire c) (ssh_reads c) (ssh_now c).

Ltac assign_ssh c field v :=
  let t := eval cbv [rebuild_ssh] in (rebuild_ssh c) in
  lazymatch t with context G [field c] => let r := context G [v] in exact r end.

Definition set_ssh_state (v : session_state) (c : ssh) : ssh := ltac:(assign_ssh c (ssh_state) v).
Definition set_ssh_kex (v : option kex) (c : ssh) : ssh := ltac:(assign_ssh c (ssh_kex) v).
Definition set_ssh_dispatch (v : list (option handler)) (c : ssh) : ssh := ltac:(assign_ssh c (ssh_dispatch) v).
Definition set_ssh_skip_packets (v : Z) (c : ssh) : ssh := ltac:(assign_ssh c (ssh_skip_packets) v).
Definition set_ssh_compat (v : Z) (c : ssh) : ssh := ltac:(assign_ssh c (ssh_compat) v).
Definition set_ssh_oom (v : list bool) (c : ssh) : ssh := ltac:(assign_ssh c (ssh_oom) v).
Definition set_ssh_rnd (v : list Z) (c : ssh) : ssh := ltac:(assign_ssh c (ssh_rnd) v).
Definition set_ssh_writes (v : list wres) (c : ssh) : ssh := ltac:(assign_ssh c (ssh_writes) v).
Definition set_ssh_wire (v : list Z) (c : ssh) : ssh := ltac:(assign_ssh c (ssh_wire) v).
Definition set_ssh_reads (v : list rres) (c : ssh) : ssh := ltac:(assign_ssh c (ssh_reads) v).
Definition set_ssh_now (v : Z) (c : ssh) : ssh := ltac:(assign_ssh c (ssh_now) v).

End State.

(** Reads of a field after assignments. *)
Ltac sfields := cbn [
  ps_seqnr ps_packets ps_blocks ps_bytes set_ps_seqnr set_ps_packets set_ps_blocks set_ps_bytes
  st_receive_context st_send_context st_input st_output st_outgoing_packet st_incoming_packet
  st_compression_buffer st_compression_in_stream st_compression_out_stream
  st_compression_in_started st_compression_out_started st_compression_in_failures
  st_compression_out_failures st_server_side st_after_authentication st_keep_alive_timeouts
  st_newkeys_in st_newkeys_out st_p_read st_p_send st_hard_max_blocks_in st_hard_max_blocks_out
  st_max_blocks_in st_max_blocks_out st_rekey_limit st_rekey_interval st_rekey_time st_extra_pad
  st_packet_discard st_packet_discard_mac_already st_packet_discard_mac st_packlen st_rekeying
  st_mux st_disconnecting st_interactive_mode st_qos_interactive st_qos_other st_max_packet_size
  st_set_maxsize_called st_packet_timeout_ms st_outgoing set_st_receive_context
  set_st_send_context set_st_input set_st_output set_st_outgoing_packet set_st_incoming_packet
  set_st_compression_buffer set_st_compression_in_stream set_st_compression_out_stream
  set_st_compression_in_started set_st_compression_out_started set_st_compression_in_failures
  set_st_compression_out_failures set_st_server_side set_st_after_authentication
  set_st_keep_alive_timeouts set_st_newkeys_in set_st_newkeys_out set_st_p_read set_st_p_send
  set_st_hard_max_blocks_in set_st_hard_max_blocks_out set_st_max_blocks_in set_st_max_blocks_out
  set_st_rekey_limit set_st_rekey_interval set_st_rekey_time set_st_extra_pad
  set_st_packet_discard set_st_packet_discard_mac_already set_st_packet_discard_mac set_st_packlen
  set_st_rekeying set_st_mux set_st_disconnecting set_st_interactive_mode set_st_qos_interactive
  set_st_qos_other set_st_max_packet_size set_st_set_maxsize_called set_st_packet_timeout_ms
  set_st_outgoing k_newkeys_in k_newkeys_out k_we_need k_dh_need k_server k_name k_hostkey_alg
  k_hostkey_type k_hostkey_nid k_kex_type k_server_sig_algs k_ext_info_c k_ext_info_s k_kex_strict
  k_ext_info_received k_my k_peer k_client_version k_server_version k_session_id k_done k_flags
  k_hash_alg k_ec_nid k_failed_choice set_k_newkeys_in set_k_newkeys_out set_k_we_need
  set_k_dh_need set_k_server set_k_name set_k_hostkey_alg set_k_hostkey_type set_k_hostkey_nid
  set_k_kex_type set_k_server_sig_algs set_k_ext_info_c set_k_ext_info_s set_k_kex_strict
  set_k_ext_info_received set_k_my set_k_peer set_k_client_version set_k_server_version
  set_k_session_id set_k_done set_k_flags set_k_hash_alg set_k_ec_nid set_k_failed_choice
  ssh_state ssh_kex ssh_dispatch ssh_skip_packets ssh_compat ssh_oom ssh_rnd ssh_writes ssh_wire
  ssh_reads ssh_now set_ssh_state set_ssh_kex set_ssh_dispatch set_ssh_skip_packets set_ssh_compat
  set_ssh_oom set_ssh_rnd set_ssh_writes set_ssh_wire set_ssh_reads set_ssh_now].
Ltac sfields_in H := cbn [
  ps_seqnr ps_packets ps_blocks ps_bytes set_ps_seqnr set_ps_packets set_ps_blocks set_ps_bytes
  st_receive_context st_send_context st_input st_output st_outgoing_packet st_incoming_packet
  st_compression_buffer st_compression_in_stream st_compression_out_stream
  st_compression_in_started st_compression_out_started st_compression_in_failures
  st_compression_out_failures st_server_side st_after_authentication st_keep_alive_timeouts
  st_newkeys_in st_newkeys_out st_p_read st_p_send st_hard_max_blocks_in st_hard_max_blocks_out
  st_max_blocks_in st_max_blocks_out st_rekey_limit st_rekey_interval st_rekey_time st_extra_pad
  st_packet_discard st_packet_discard_mac_already st_packet_discard_mac st_packlen st_rekeying
  st_mux st_disconnecting st_interactive_mode st_qos_interactive st_qos_other st_max_packet_size
  st_set_maxsize_called st_packet_timeout_ms st_outgoing set_st_receive_context
  set_st_send_context set_st_input set_st_output set_st_outgoing_packet set_st_incoming_packet
  set_st_compression_buffer set_st_compression_in_stream set_st_compression_out_stream
  set_st_compression_in_started set_st_compression_out_started set_st_compression_in_failures
  set_st_compression_out_failures set_st_server_side set_st_after_authentication
  set_st_keep_alive_timeouts set_st_newkeys_in set_st_newkeys_out set_st_p_read set_st_p_send
  set_st_hard_max_blocks_in set_st_hard_max_blocks_out set_st_max_blocks_in set_st_max_blocks_out
  set_st_rekey_limit set_st_rekey_interval set_st_rekey_time set_st_extra_pad
  set_st_packet_discard set_st_packet_discard_mac_already set_st_packet_discard_mac set_st_packlen
  set_st_rekeying set_st_mux set_st_disconnecting set_st_interactive_mode set_st_qos_interactive
  set_st_qos_other set_st_max_packet_size set_st_set_maxsize_called set_st_packet_timeout_ms
  set_st_outgoing k_newkeys_in k_newkeys_out k_we_need k_dh_need k_server k_name k_hostkey_alg
  k_hostkey_type k_hostkey_nid k_kex_type k_server_sig_algs k_ext_info_c k_ext_info_s k_kex_strict
  k_ext_info_received k_my k_peer k_client_version k_server_version k_session_id k_done k_flags
  k_hash_alg k_ec_nid k_failed_choice set_k_newkeys_in set_k_newkeys_out set_k_we_need
  set_k_dh_need set_k_server set_k_name set_k_hostkey_alg set_k_hostkey_type set_k_hostkey_nid
  set_k_kex_type set_k_server_sig_algs set_k_ext_info_c set_k_ext_info_s set_k_kex_strict
  set_k_ext_info_received set_k_my set_k_peer set_k_client_version set_k_server_version
  set_k_session_id set_k_done set_k_flags set_k_hash_alg set_k_ec_nid set_k_failed_choice
  ssh_state ssh_kex ssh_dispatch ssh_skip_packets ssh_compat ssh_oom ssh_rnd ssh_writes ssh_wire
  ssh_reads ssh_now set_ssh_state set_ssh_kex set_ssh_dispatch set_ssh_skip_packets set_ssh_compat
  set_ssh_oom set_ssh_rnd set_ssh_writes set_ssh_wire set_ssh_reads set_ssh_now] in H.
