(* ===== verification/Packet.v ===== *)
(** * The packet layer: [packet.c], sending

    Keys, rekeying limits, compression, the construction of an encrypted
    packet and the queue held back during a key exchange.  Sending may start a
    key exchange, which sends; the recursion is cut by [ssh_packet_send2]'s
    fuel, and PacketSend proves that two levels are all there are. *)

From S2P Require Import Prelude Ssherr Cstring Match KexNames Cipher SshState.
From S2P Require Import Sshbuf SshbufGetput.

Definition PACKET_MAX_SIZE : Z := 256 * 1024.
Definition MAX_PACKETS : Z := 2 ^ 31.

Definition SSH_MSG_NONE : Z := 0.
Definition SSH2_MSG_TRANSPORT_MIN : Z := 1.
Definition SSH2_MSG_TRANSPORT_MAX : Z := 49.
Definition SSH2_MSG_CONNECTION_MIN : Z := 80.
Definition SSH2_MSG_CONNECTION_MAX : Z := 127.
Definition SSH2_MSG_MIN : Z := 1.
Definition SSH2_MSG_DISCONNECT : Z := 1.
Definition SSH2_MSG_IGNORE : Z := 2.
Definition SSH2_MSG_UNIMPLEMENTED : Z := 3.
Definition SSH2_MSG_DEBUG : Z := 4.
Definition SSH2_MSG_SERVICE_REQUEST : Z := 5.
Definition SSH2_MSG_SERVICE_ACCEPT : Z := 6.
Definition SSH2_MSG_EXT_INFO : Z := 7.
Definition SSH2_MSG_KEXINIT : Z := 20.
Definition SSH2_MSG_NEWKEYS : Z := 21.
Definition SSH2_MSG_USERAUTH_SUCCESS : Z := 52.
Definition SSH2_MSG_PING : Z := 192.
Definition SSH2_MSG_PONG : Z := 193.
Definition SSH2_DISCONNECT_PROTOCOL_ERROR : Z := 2.

Definition KEX_COOKIE_LEN : Z := 16.
Definition KEX_INIT_SENT : Z := 0x0001.
Definition KEX_INITIAL : Z := 0x0002.
Definition KEX_HAS_PUBKEY_HOSTBOUND : Z := 0x0004.
Definition KEX_RSA_SHA2_256_SUPPORTED : Z := 0x0008.
Definition KEX_RSA_SHA2_512_SUPPORTED : Z := 0x0010.
Definition KEX_HAS_PING : Z := 0x0020.
Definition KEX_HAS_EXT_INFO_IN_AUTH : Z := 0x0040.
Definition KEX_HAS_NEWAGENT : Z := 0x0080.
Definition KEX_INIT_RECVD : Z := 0x0100.

(** [flags & f]. *)
Definition flag_set (flags f : Z) : bool := negb (Z.land flags f =? 0).

Definition ROUNDUP (x y : Z) : Z := (x + (y - 1)) / y * y.

(** ** The monad *)

(** The end of the process, never returned as an error code. *)
Definition EXIT_DISCONNECTED : Z := 2.
(** A loop bound that was too small: excluded by the theorems. *)
Definition OUT_OF_FUEL : Z := 4.

Section Packet.
Context {CR : Crypto}.

Abbreviation SM := (M ssh).

Definition getst : SM session_state := gets ssh_state.
Definition modst (f : session_state -> session_state) : SM unit := fun s =>
  (Ok tt, set_ssh_state (f (ssh_state s)) s).

Definition modssh (f : ssh -> ssh) : SM unit := fun s => (Ok tt, f s).

(** [ssh->kex], dereferenced. *)
Definition getkex : SM kex := fun s =>
  match ssh_kex s with Some k => (Ok k, s) | None => (Crash, s) end.
Definition modkex (f : kex -> kex) : SM unit := fun s => (Ok tt, set_ssh_kex (f <$> ssh_kex s) s).

Definition salloc : SM bool := fun s => (Ok (hd true (ssh_oom s)), set_ssh_oom (tail (ssh_oom s)) s).

(** Appending to a buffer with contents [b]: the new contents. *)
Definition buf_append (b bs : list Z) : SM (list Z) :=
  if zlen b + zlen bs >? SSHBUF_SIZE_MAX then throw SSH_ERR_NO_BUFFER_SPACE
  else ok ← salloc; if (ok : bool) then mret (b ++ bs) else throw SSH_ERR_ALLOC_FAIL.

(** [sshbuf_consume], [sshbuf_consume_end]. *)
Definition buf_consume (b : list Z) (n : Z) : SM (list Z) :=
  if n >? zlen b then throw SSH_ERR_MESSAGE_INCOMPLETE else mret (drop (Z.to_nat n) b).
Definition buf_consume_end (b : list Z) (n : Z) : SM (list Z) :=
  if n >? zlen b then throw SSH_ERR_MESSAGE_INCOMPLETE else mret (take (Z.to_nat (zlen b - n)) b).

(** [arc4random_buf]: the next random bytes. *)
Definition arc4random_buf (n : Z) : SM (list Z) := fun s =>
  let n := Z.to_nat n in
  (Ok (map u8 (take n (ssh_rnd s ++ replicate n 0))), set_ssh_rnd (drop n (ssh_rnd s)) s).

Definition monotime : SM Z := gets ssh_now.

(** [ssh_packet_disconnect] does not return; the message it sends on the way
    out is not modelled. *)
Definition ssh_packet_disconnect {A} : SM A := throw EXIT_DISCONNECTED.

(** ** Keys *)

Definition ssh_packet_is_rekeying (s : ssh) : bool :=
  st_rekeying (ssh_state s) ||
  match ssh_kex s with Some k => negb (k_done k) | None => false end.

Definition ssh_packet_init_compression : SM unit :=
  st ← getst;
  match st_compression_buffer st with
  | Some _ => mret tt
  | None =>
      ok ← salloc;
      if negb ok then throw SSH_ERR_ALLOC_FAIL else modst (set_st_compression_buffer (Some []))
  end.

Definition start_compression_out (level : Z) : SM unit :=
  if (level <? 1) || (level >? 9) then throw SSH_ERR_INVALID_ARGUMENT
  else
    let '(status, zs) := deflateInit level in
    modst (set_st_compression_out_stream (Some zs));;
    match status with
    | Z_OK => modst (set_st_compression_out_started true)
    | Z_MEM_ERROR => throw SSH_ERR_ALLOC_FAIL
    | _ => throw SSH_ERR_INTERNAL_ERROR
    end.

Definition start_compression_in : SM unit :=
  let '(status, zs) := inflateInit in
  modst (set_st_compression_in_stream (Some zs));;
  match status with
  | Z_OK => modst (set_st_compression_in_started true)
  | Z_MEM_ERROR => throw SSH_ERR_ALLOC_FAIL
  | _ => throw SSH_ERR_INTERNAL_ERROR
  end.

Definition Z_BUF : Z := 4096.

(** The loop of [compress_buffer]: a round that fills [buf] is followed by
    another. The output of 128 MB is full after 32768 such rounds. *)
Fixpoint compress_loop (fuel : nat) (zs : z_stream) (out : list Z) : SM (z_stream * list Z) :=
  match fuel with
  | O => throw OUT_OF_FUEL
  | S fuel =>
      let '(status, chunk, zs) := deflate zs Z_BUF in
      modst (set_st_compression_out_stream (Some zs));;
      match status with
      | Z_MEM_ERROR => throw SSH_ERR_ALLOC_FAIL
      | Z_OK =>
          out ← buf_append out chunk;
          if zlen chunk =? Z_BUF then compress_loop fuel zs out else mret (zs, out)
      | _ =>
          modst (fun st => set_st_compression_out_failures (st_compression_out_failures st + 1) st);;
          throw SSH_ERR_INVALID_FORMAT
      end
  end.

Definition COMPRESS_ROUNDS : nat := Z.to_nat 32769.

(** The new contents of [out]. *)
Definition compress_buffer (inp out : list Z) : SM (list Z) :=
  st ← getst;
  if negb (st_compression_out_started st) then throw SSH_ERR_INTERNAL_ERROR
  else if zlen inp =? 0 then mret out
  else
    match st_compression_out_stream st with
    | None => crash
    | Some zs => '(_, out) ← compress_loop COMPRESS_ROUNDS (z_input zs inp) out; mret out
    end.

(** The loop of [uncompress_buffer], which goes on until inflate makes no
    progress: every round consumes input or fills [buf]. *)
Fixpoint uncompress_loop (fuel : nat) (zs : z_stream) (out : list Z) : SM (list Z) :=
  match fuel with
  | O => throw OUT_OF_FUEL
  | S fuel =>
      let '(status, chunk, zs) := inflate zs Z_BUF in
      modst (set_st_compression_in_stream (Some zs));;
      match status with
      | Z_OK => out ← buf_append out chunk; uncompress_loop fuel zs out
      | Z_BUF_ERROR => mret out
      | Z_DATA_ERROR => throw SSH_ERR_INVALID_FORMAT
      | Z_MEM_ERROR => throw SSH_ERR_ALLOC_FAIL
      | Z_STREAM_ERROR =>
          modst (fun st => set_st_compression_in_failures (st_compression_in_failures st + 1) st);;
          throw SSH_ERR_INTERNAL_ERROR
      end
  end.

Definition uncompress_buffer (inp out : list Z) : SM (list Z) :=
  st ← getst;
  if negb (st_compression_in_started st) then throw SSH_ERR_INTERNAL_ERROR
  else
    match st_compression_in_stream st with
    | None => crash
    | Some zs => uncompress_loop (COMPRESS_ROUNDS + S (length inp)) (z_input zs inp) out
    end.

(** MODE_IN and MODE_OUT. *)
Inductive mode := MODE_IN | MODE_OUT.

Definition st_newkeys (m : mode) (st : session_state) : option newkeys :=
  match m with MODE_IN => st_newkeys_in st | MODE_OUT => st_newkeys_out st end.
Definition set_st_newkeys (m : mode) (nk : option newkeys) (st : session_state) : session_state :=
  match m with MODE_IN => set_st_newkeys_in nk st | MODE_OUT => set_st_newkeys_out nk st end.
Definition k_newkeys (m : mode) (k : kex) : option newkeys :=
  match m with MODE_IN => k_newkeys_in k | MODE_OUT => k_newkeys_out k end.
Definition set_k_newkeys (m : mode) (nk : option newkeys) (k : kex) : kex :=
  match m with MODE_IN => set_k_newkeys_in nk k | MODE_OUT => set_k_newkeys_out nk k end.
Definition set_st_context (m : mode) (cc : option sshcipher_ctx) (st : session_state) : session_state :=
  match m with MODE_IN => set_st_receive_context cc st | MODE_OUT => set_st_send_context cc st end.
Definition set_st_hard_max_blocks (m : mode) (v : Z) (st : session_state) : session_state :=
  match m with MODE_IN => set_st_hard_max_blocks_in v st | MODE_OUT => set_st_hard_max_blocks_out v st end.
Definition set_st_max_blocks (m : mode) (v : Z) (st : session_state) : session_state :=
  match m with MODE_IN => set_st_max_blocks_in v st | MODE_OUT => set_st_max_blocks_out v st end.
Definition mod_ps (m : mode) (f : packet_state -> packet_state) (st : session_state) : session_state :=
  match m with
  | MODE_IN => set_st_p_read (f (st_p_read st)) st
  | MODE_OUT => set_st_p_send (f (st_p_send st)) st
  end.

Definition ssh_clear_newkeys (m : mode) : SM unit := modkex (set_k_newkeys m None).

Definition set_m_enabled (b : bool) (m : sshmac) : sshmac :=
  mk_mac (m_name m) b (m_mac_len m) (m_key m) (m_key_len m) (m_type m) (m_etm m) (m_hmac_ctx m) (m_umac_ctx m).

(** Turning on delayed compression for one direction. *)
Definition start_compression (m : mode) : SM unit :=
  ssh_packet_init_compression;;
  match m with MODE_OUT => start_compression_out 6 | MODE_IN => start_compression_in end.

Definition lift {A} (x : A + Z) : SM A := match x with inl a => mret a | inr e => throw e end.

(** A cipher that could not be NULL. *)
Definition enc_of (nk : newkeys) : SM sshenc :=
  match nk_enc nk with Some e => mret e | None => crash end.

Definition hard_max (block_size : Z) : Z :=
  if block_size >=? 16 then u64 (Z.shiftl 1 (block_size * 2)) else Z.shiftl 1 30 / block_size.

Definition ssh_set_newkeys (m : mode) : SM unit :=
  modst (set_st_newkeys m None);;
  modst (mod_ps m (fun ps => set_ps_packets 0 (set_ps_blocks 0 ps)));;
  k ← getkex;
  match k_newkeys m k with
  | None => throw SSH_ERR_INTERNAL_ERROR
  | Some nk =>
      modst (set_st_newkeys m (Some nk));;
      modkex (set_k_newkeys m None);;
      enc ← enc_of nk;
      mac ← (if cipher_authlen (e_cipher enc) =? 0 then ok ← salloc; lift (mac_init ok (nk_mac nk))
             else mret (nk_mac nk));
      let mac := set_m_enabled true mac in
      let nk := mk_newkeys (nk_enc nk) mac (nk_comp nk) in
      modst (set_st_newkeys m (Some nk));;
      modst (set_st_context m None);;
      ok ← salloc;
      ok2 ← salloc;
      cc ← lift (cipher_init ok ok2 (e_cipher enc) (default [] (e_key enc)) (e_key_len enc) (e_iv enc) (e_iv_len enc)
                   (match m with MODE_OUT => true | MODE_IN => false end));
      modst (set_st_context m (Some cc));;
      st ← getst;
      (if (c_type (nk_comp nk) =? COMP_DELAYED) && st_after_authentication st && negb (c_enabled (nk_comp nk)) then
         start_compression m;;
         modst (set_st_newkeys m (Some (mk_newkeys (nk_enc nk) mac
                  (mk_comp (c_type (nk_comp nk)) true (c_name (nk_comp nk))))))
       else mret tt);;
      let hard := hard_max (e_block_size enc) in
      modst (set_st_hard_max_blocks m hard);;
      modst (set_st_max_blocks m
        (if negb (st_rekey_limit st =? 0) then Z.min hard (st_rekey_limit st / e_block_size enc) else hard))
  end.

(** ** Rekeying limits *)

Definition ssh_packet_check_rekey_blocklimit (packet_len : Z) (hard : bool) (st : session_state) : bool :=
  let max_blocks_in := if hard then st_hard_max_blocks_in st else st_max_blocks_in st in
  let max_blocks_out := if hard then st_hard_max_blocks_out st else st_max_blocks_out st in
  if (ps_packets (st_p_send st) >? MAX_PACKETS) || (ps_packets (st_p_read st) >? MAX_PACKETS) then true
  else
    match st_newkeys_out st with
    | None => false
    | Some nk =>
        let block_size := match nk_enc nk with Some e => e_block_size e | None => 0 end in
        let out_blocks := u32 (u32 (packet_len + u32 (block_size - 1)) / block_size * block_size) in
        (negb (max_blocks_out =? 0) && (u64 (ps_blocks (st_p_send st) + out_blocks) >? max_blocks_out)) ||
        (negb (max_blocks_in =? 0) && (ps_blocks (st_p_read st) >? max_blocks_in))
    end.

Definition ssh_packet_need_rekeying (outbound_packet_len : Z) (s : ssh) : bool :=
  let st := ssh_state s in
  if negb (st_after_authentication st) then false
  else if ssh_packet_is_rekeying s then false
  else if (ps_packets (st_p_send st) =? 0) && (ps_packets (st_p_read st) =? 0) then false
  else if negb (st_rekey_interval st =? 0) && (st_rekey_time st + st_rekey_interval st <=? ssh_now s) then true
  else ssh_packet_check_rekey_blocklimit outbound_packet_len false st.

Definition ssh_packet_check_rekey_preauth (outgoing_packet_len : Z) : SM unit :=
  st ← getst;
  if st_after_authentication st then mret tt
  else if ssh_packet_check_rekey_blocklimit 0 true st then throw SSH_ERR_NEED_REKEY
  else mret tt.

(** The direction [m] of [ssh_packet_enable_delayed_compress]. *)
Definition delayed_compress_mode (m : mode) : SM unit :=
  st ← getst;
  match st_newkeys m st with
  | None => mret tt
  | Some nk =>
      if negb (c_enabled (nk_comp nk)) && (c_type (nk_comp nk) =? COMP_DELAYED) then
        start_compression m;;
        modst (set_st_newkeys m (Some (mk_newkeys (nk_enc nk) (nk_mac nk)
                 (mk_comp (c_type (nk_comp nk)) true (c_name (nk_comp nk))))))
      else mret tt
  end.

Definition ssh_packet_enable_delayed_compress : SM unit :=
  modst (set_st_after_authentication true);;
  delayed_compress_mode MODE_IN;;
  delayed_compress_mode MODE_OUT.

(** ** Building packets *)

Definition sshpkt_start (type : Z) : SM unit :=
  modst (set_st_outgoing_packet []);;
  b ← buf_append [] [0; 0; 0; 0; 0; u8 type];
  modst (set_st_outgoing_packet b).

Definition sshpkt_put (bs : list Z) : SM unit :=
  st ← getst; b ← buf_append (st_outgoing_packet st) bs; modst (set_st_outgoing_packet b).

Definition sshpkt_putb : list Z -> SM unit := sshpkt_put.
Definition sshpkt_put_u8 (v : Z) : SM unit := sshpkt_put [u8 v].
Definition sshpkt_put_u32 (v : Z) : SM unit := sshpkt_put (POKE_U32 v).
Definition sshpkt_put_u64 (v : Z) : SM unit := sshpkt_put (POKE_U64 v).
Definition sshpkt_put_string (v : list Z) : SM unit :=
  if zlen v >? SSHBUF_SIZE_MAX - 4 then throw SSH_ERR_NO_BUFFER_SPACE
  else sshpkt_put (POKE_U32 (zlen v) ++ v).
Definition sshpkt_put_cstring : list Z -> SM unit := sshpkt_put_string.
Definition sshpkt_put_stringb : list Z -> SM unit := sshpkt_put_string.

Definition sshpkt_add_padding (pad : Z) : SM unit := modst (set_st_extra_pad (u8 pad)).

(** Running a cipher on one of the two contexts. *)
Definition on_send {A} (m : M sshcipher_ctx A) : SM A := fun s =>
  match st_send_context (ssh_state s) with
  | None => (Crash, s)
  | Some cc => let '(r, cc) := m cc in (r, set_ssh_state (set_st_send_context (Some cc) (ssh_state s)) s)
  end.
Definition on_receive {A} (m : M sshcipher_ctx A) : SM A := fun s =>
  match st_receive_context (ssh_state s) with
  | None => (Crash, s)
  | Some cc => let '(r, cc) := m cc in (r, set_ssh_state (set_st_receive_context (Some cc) (ssh_state s)) s)
  end.

(** The locals enc, mac, comp and authlen of the two packet functions. *)
Record keys := mk_keys { ks_enc : option sshenc; ks_mac : option sshmac; ks_comp : option sshcomp; ks_authlen : Z }.

Definition keys_of (nk : option newkeys) : SM keys :=
  match nk with
  | None => mret (mk_keys None None None 0)
  | Some nk =>
      enc ← enc_of nk;
      let authlen := cipher_authlen (e_cipher enc) in
      mret (mk_keys (Some enc) (if authlen =? 0 then Some (nk_mac nk) else None) (Some (nk_comp nk)) authlen)
  end.

(** [mac && mac->enabled]. *)
Definition ks_mac_on (ks : keys) : option sshmac :=
  match ks_mac ks with Some m => if m_enabled m then Some m else None | None => None end.
Definition ks_etm (ks : keys) : bool := match ks_mac_on ks with Some m => m_etm m | None => false end.
Definition ks_block_size (ks : keys) : Z := match ks_enc ks with Some e => e_block_size e | None => 8 end.
Definition ks_aadlen (ks : keys) : Z := if ks_etm ks || negb (ks_authlen ks =? 0) then 4 else 0.
Definition ks_comp_on (ks : keys) : bool := match ks_comp ks with Some c => c_enabled c | None => false end.

(** The padding for [len] bytes: [None] when the u_char computations with
    [extra_pad] overflow. *)
Definition base_padlen (block_size len : Z) : Z :=
  let padlen := u8 (block_size - len mod block_size) in
  if padlen <? 4 then u8 (padlen + block_size) else padlen.

Definition pad_for (block_size len extra_pad : Z) : option Z :=
  let padlen := base_padlen block_size len in
  if extra_pad =? 0 then Some padlen
  else
    let extra := u8 (ROUNDUP extra_pad block_size) in
    if extra <? extra_pad then None
    else
      let tmp := u8 (u32 (len + padlen) mod extra) in
      if tmp >? extra then None
      else
        let pad := u8 (extra - tmp) in
        let padlen' := u8 (padlen + pad) in
        if padlen' <? padlen then None else Some padlen'.

(** [ROUNDUP(state->extra_pad, block_size)] as left behind by the early
    returns. *)
Definition extra_left (block_size extra_pad : Z) : Z :=
  if extra_pad =? 0 then 0 else u8 (ROUNDUP extra_pad block_size).

Definition packet_type (pkt : list Z) : Z := byte_at pkt 5.

(** "compress only payload". *)
Definition compress_payload : SM unit :=
  st ← getst;
  payload ← buf_consume (st_outgoing_packet st) 5;
  modst (set_st_outgoing_packet payload);;
  match st_compression_buffer st with
  | None => crash
  | Some _ =>
      modst (set_st_compression_buffer (Some []));;
      out ← compress_buffer payload [];
      modst (set_st_compression_buffer (Some out));;
      modst (set_st_outgoing_packet []);;
      b ← buf_append [] [0; 0; 0; 0; 0];
      modst (set_st_outgoing_packet b);;
      b ← buf_append b out;
      modst (set_st_outgoing_packet b)
  end.

(** The padding: added to [outgoing_packet], random once a cipher is in use. *)
Definition add_padding (ks : keys) (padlen : Z) : SM unit :=
  st ← getst;
  b ← buf_append (st_outgoing_packet st) (zeros padlen);
  modst (set_st_outgoing_packet b);;
  match ks_enc ks, st_send_context st with
  | Some _, None => crash
  | Some _, Some cc =>
      if cipher_ctx_is_plaintext cc then mret tt
      else
        pad ← arc4random_buf padlen;
        modst (set_st_outgoing_packet (st_outgoing_packet st ++ pad))
  | None, _ => mret tt
  end.

(** [POKE_U32(cp, len - 4); cp[4] = padlen]. *)
Definition set_header (pkt : list Z) (padlen : Z) : list Z :=
  POKE_U32 (zlen pkt - 4) ++ [u8 padlen] ++ drop 5 pkt.

(** Encrypting [outgoing_packet] to the end of [output], with its MAC. *)
Definition encrypt_packet (ks : keys) : SM unit :=
  st ← getst;
  let pkt := st_outgoing_packet st in
  let len := zlen pkt in
  let seqnr := ps_seqnr (st_p_send st) in
  macbuf ← (match ks_mac_on ks with
            | Some m => if m_etm m then mret [] else lift (mac_compute m seqnr pkt SSH_DIGEST_MAX_LENGTH)
            | None => mret []
            end);
  let output := st_output st in
  b ← buf_append output (zeros (len + ks_authlen ks));
  modst (set_st_output b);;
  ct ← on_send (cipher_crypt seqnr pkt (len - ks_aadlen ks) (ks_aadlen ks) (ks_authlen ks));
  modst (set_st_output (output ++ ct));;
  match ks_mac_on ks with
  | None => mret tt
  | Some m =>
      macbuf ← (if m_etm m then lift (mac_compute m seqnr (slice ct 0 len) SSH_DIGEST_MAX_LENGTH) else mret macbuf);
      b ← buf_append (output ++ ct) (slice macbuf 0 (m_mac_len m));
      modst (set_st_output b)
  end.

(** The counters; a sequence number that wraps ends the initial key exchange. *)
Definition count_packet (m : mode) (len block_size : Z) : SM unit :=
  modst (mod_ps m (fun ps => set_ps_seqnr (u32 (ps_seqnr ps + 1)) ps));;
  st ← getst;
  let ps := match m with MODE_IN => st_p_read st | MODE_OUT => st_p_send st end in
  (if ps_seqnr ps =? 0 then
     k ← getkex;
     if flag_set (k_flags k) KEX_INITIAL then ssh_packet_disconnect else mret tt
   else mret tt);;
  modst (mod_ps m (fun ps => set_ps_packets (u32 (ps_packets ps + 1)) ps));;
  (if u32 (ps_packets ps + 1) =? 0 then throw SSH_ERR_NEED_REKEY else mret tt);;
  modst (mod_ps m (fun ps => set_ps_blocks (u64 (ps_blocks ps + len / block_size)) ps));;
  modst (mod_ps m (fun ps => set_ps_bytes (u64 (ps_bytes ps + len)) ps)).

(** [ssh_packet_send2_wrapped] up to the reset of [outgoing_packet]. *)
Definition emit_packet : SM unit :=
  st ← getst;
  ks ← keys_of (st_newkeys_out st);
  let block_size := ks_block_size ks in
  (if ks_comp_on ks then compress_payload else mret tt);;
  st ← getst;
  let len := u32 (zlen (st_outgoing_packet st) - ks_aadlen ks) in
  match pad_for block_size len (st_extra_pad st) with
  | None => modst (set_st_extra_pad (extra_left block_size (st_extra_pad st)));; throw SSH_ERR_INVALID_ARGUMENT
  | Some padlen =>
      modst (set_st_extra_pad 0);;
      add_padding ks padlen;;
      st ← getst;
      let pkt := set_header (st_outgoing_packet st) padlen in
      modst (set_st_outgoing_packet pkt);;
      encrypt_packet ks;;
      count_packet MODE_OUT (zlen pkt) block_size;;
      modst (set_st_outgoing_packet [])
  end.

(** Its end: the effects of a message on the transport. *)
Definition packet_sent (type : Z) : SM unit :=
  if type =? SSH2_MSG_NEWKEYS then
    k ← getkex;
    (if k_kex_strict k then modst (mod_ps MODE_OUT (set_ps_seqnr 0)) else mret tt);;
    ssh_set_newkeys MODE_OUT
  else
    st ← getst;
    if (type =? SSH2_MSG_USERAUTH_SUCCESS) && st_server_side st
    then ssh_packet_enable_delayed_compress else mret tt.

Definition ssh_packet_send2_wrapped : SM unit :=
  st ← getst;
  let type := packet_type (st_outgoing_packet st) in
  emit_packet;;
  packet_sent type.

(** ** Sending *)

Definition ssh_packet_type_is_kex (type : Z) : bool :=
  (SSH2_MSG_TRANSPORT_MIN <=? type) && (type <=? SSH2_MSG_TRANSPORT_MAX) &&
  negb (type =? SSH2_MSG_SERVICE_REQUEST) && negb (type =? SSH2_MSG_SERVICE_ACCEPT) &&
  negb (type =? SSH2_MSG_EXT_INFO).

(** "after a NEWKEYS message we can send the complete queue": the number of
    packets in the queue is the fuel. *)
Fixpoint send_queue (fuel : nat) (rekex : SM unit) : SM unit :=
  st ← getst;
  match st_outgoing st with
  | [] => mret tt
  | (_, payload) :: rest =>
      match fuel with
      | O => throw OUT_OF_FUEL
      | S fuel =>
          s ← get_st;
          if ssh_packet_need_rekeying (zlen payload) s then rekex
          else
            modst (set_st_outgoing_packet payload);;
            modst (set_st_outgoing rest);;
            ssh_packet_send2_wrapped;;
            send_queue fuel rekex
      end
  end.

(** [rekex] is [kex_start_rekex]. *)
Definition send2_body (rekex : SM unit) : SM unit :=
  st ← getst;
  if zlen (st_outgoing_packet st) <? 6 then throw SSH_ERR_INTERNAL_ERROR
  else
    let type := packet_type (st_outgoing_packet st) in
    s ← get_st;
    let need_rekey := negb (ssh_packet_type_is_kex type) &&
                      ssh_packet_need_rekeying (zlen (st_outgoing_packet st)) s in
    (if negb (st_rekeying st) && negb (ssh_packet_type_is_kex type)
     then ssh_packet_check_rekey_preauth 0 else mret tt);;
    if (need_rekey || st_rekeying st) && negb (ssh_packet_type_is_kex type) then
      ok ← salloc;
      if negb ok then throw SSH_ERR_ALLOC_FAIL
      else
        modst (set_st_outgoing (st_outgoing st ++ [(type, st_outgoing_packet st)]));;
        modst (set_st_outgoing_packet []);;
        ok ← salloc;
        if negb ok then throw SSH_ERR_ALLOC_FAIL
        else if need_rekey then rekex else mret tt
    else
      (if type =? SSH2_MSG_KEXINIT then modst (set_st_rekeying true) else mret tt);;
      ssh_packet_send2_wrapped;;
      if type =? SSH2_MSG_NEWKEYS then
        modst (set_st_rekeying false);;
        now ← monotime;
        modst (set_st_rekey_time now);;
        st ← getst;
        send_queue (length (st_outgoing st)) rekex
      else mret tt.

(** [kex_send_kexinit] of [kex.c], with [send] for [sshpkt_send]. *)
Definition kex_send_kexinit (send : SM unit) : SM unit :=
  s ← get_st;
  match ssh_kex s with
  | None => throw SSH_ERR_INTERNAL_ERROR
  | Some k =>
      if flag_set (k_flags k) KEX_INIT_SENT then mret tt
      else
        modkex (set_k_done false);;
        if zlen (k_my k) <? KEX_COOKIE_LEN then throw SSH_ERR_INVALID_FORMAT
        else
          cookie ← arc4random_buf KEX_COOKIE_LEN;
          modkex (fun k => set_k_my (cookie ++ drop (Z.to_nat KEX_COOKIE_LEN) (k_my k)) k);;
          sshpkt_start SSH2_MSG_KEXINIT;;
          k ← getkex;
          sshpkt_putb (k_my k);;
          send;;
          modkex (fun k => set_k_flags (Z.lor (k_flags k) KEX_INIT_SENT) k)
  end.

(** [kex_start_rekex] of [kex.c]. *)
Definition kex_start_rekex (send : SM unit) : SM unit :=
  s ← get_st;
  match ssh_kex s with
  | None => throw SSH_ERR_INTERNAL_ERROR
  | Some k =>
      if negb (k_done k) then throw SSH_ERR_INTERNAL_ERROR
      else modkex (set_k_done false);; kex_send_kexinit send
  end.

(** The mutual recursion, [fuel] levels deep. *)
Fixpoint send2_fuel (fuel : nat) : SM unit :=
  send2_body (match fuel with O => throw OUT_OF_FUEL | S fuel => kex_start_rekex (send2_fuel fuel) end).

(** Two levels: a packet, and the KEXINIT it starts. *)
Definition ssh_packet_send2 : SM unit := send2_fuel 1.

Definition ssh_packet_send_mux : SM unit :=
  s ← get_st;
  match ssh_kex s with
  | Some _ => throw SSH_ERR_INTERNAL_ERROR
  | None =>
      let pkt := st_outgoing_packet (ssh_state s) in
      if zlen pkt <? 6 then throw SSH_ERR_INTERNAL_ERROR
      else
        let type := packet_type pkt in
        (if (SSH2_MSG_CONNECTION_MIN <=? type) && (type <=? SSH2_MSG_CONNECTION_MAX) then
           b ← buf_append (st_output (ssh_state s)) (POKE_U32 (zlen pkt - 4) ++ drop 4 pkt);
           modst (set_st_output b)
         else mret tt);;
        modst (set_st_outgoing_packet [])
  end.

Definition sshpkt_send : SM unit :=
  st ← getst; if st_mux st then ssh_packet_send_mux else ssh_packet_send2.

(** The message text is [msg]. *)
Definition sshpkt_disconnect (msg : list Z) : SM unit :=
  sshpkt_start SSH2_MSG_DISCONNECT;;
  sshpkt_put_u32 SSH2_DISCONNECT_PROTOCOL_ERROR;;
  sshpkt_put_cstring (slice msg 0 1023);;
  sshpkt_put_cstring [];;
  sshpkt_send.

Definition ssh_packet_check_rekey : SM unit :=
  ssh_packet_check_rekey_preauth 0;;
  s ← get_st;
  if negb (ssh_packet_need_rekeying 0 s) then mret tt else kex_start_rekex sshpkt_send.

(** ** Writing *)

(** One write(2): the bytes accepted move to the wire. *)
Definition ssh_packet_write_poll : SM unit := fun s =>
  let out := st_output (ssh_state s) in
  if zlen out >? 0 then
    let s' := set_ssh_writes (tail (ssh_writes s)) s in
    match hd (Wrote (zlen out)) (ssh_writes s) with
    | WAgain => (Ok tt, s')
    | WError => (Err SSH_ERR_SYSTEM_ERROR, s')
    | Wrote n =>
        if n <=? 0 then (Err SSH_ERR_CONN_CLOSED, s')
        else
          let n := Z.to_nat n in
          (Ok tt, set_ssh_wire (ssh_wire s' ++ take n out) (set_ssh_state (set_st_output (drop n out) (ssh_state s')) s'))
    end
  else (Ok tt, s).

Definition ssh_packet_have_data_to_write (s : ssh) : bool := negb (zlen (st_output (ssh_state s)) =? 0).

(** The loop of [ssh_packet_write_wait], with a poll that always reports the
    descriptor ready; every round takes an answer, and without answers all is
    written. *)
Fixpoint write_wait_loop (fuel : nat) : SM unit :=
  s ← get_st;
  if negb (ssh_packet_have_data_to_write s) then mret tt
  else
    match fuel with
    | O => throw OUT_OF_FUEL
    | S fuel => ssh_packet_write_poll;; write_wait_loop fuel
    end.

Definition ssh_packet_write_wait : SM unit :=
  ssh_packet_write_poll;;
  s ← get_st;
  write_wait_loop (S (length (ssh_writes s))).
End Packet.
