(* ===== verification/PacketRead.v ===== *)
(** * The packet layer: [packet.c], receiving

    Reading one packet from the input buffer, discarding after a corrupt
    packet, the messages the transport handles itself, and the calls that read
    the fields of a message.  No input hook is installed
    ([ssh_packet_set_input_hook] has no caller). *)

From stdpp Require Import pretty.
From S2P Require Import Prelude Ssherr Cstring Match KexNames Cipher SshState Packet Sshbuf SshbufGetput SshbufWire.

Section PacketRead.
Context {CR : Crypto}.

Abbreviation SM := (M ssh).

(** ** Fields of the incoming packet *)

Definition sshpkt_get (len : Z) : SM (list Z) :=
  st ← getst;
  let b := st_incoming_packet st in
  rest ← buf_consume b len;
  modst (set_st_incoming_packet rest);;
  mret (slice b 0 len).

Definition sshpkt_get_u8 : SM Z := bs ← sshpkt_get 1; mret (byte_at bs 0).
Definition sshpkt_get_u32 : SM Z := bs ← sshpkt_get 4; mret (PEEK_U32 bs).
Definition sshpkt_get_u64 : SM Z := bs ← sshpkt_get 8; mret (PEEK_U64 bs).

Definition sshpkt_peek_string_direct : SM (list Z) :=
  st ← getst;
  match parse_string (st_incoming_packet st) with
  | inl e => throw e
  | inr (v, _) => mret v
  end.

Definition sshpkt_get_string_direct : SM (list Z) :=
  st ← getst;
  match parse_string (st_incoming_packet st) with
  | inl e => throw e
  | inr (v, rest) => modst (set_st_incoming_packet rest);; mret v
  end.

(** [valp]: whether the caller wants the string, which is then allocated. *)
Definition sshpkt_get_string (valp : bool) : SM (list Z) :=
  v ← sshpkt_get_string_direct;
  ok ← (if valp then salloc else mret true);
  if negb ok then throw SSH_ERR_ALLOC_FAIL else mret v.

(** The decoder of a C string: a NUL may only be the last byte. *)
Definition parse_cstring (c : list Z) : Z + (list Z * list Z) :=
  match parse_string c with
  | inl e => inl e
  | inr (v, rest) =>
      match memchr v 0 with
      | Some z => if z <? zlen v - 1 then inl SSH_ERR_INVALID_FORMAT else inr (slice v 0 z, rest)
      | None => inr (v, rest)
      end
  end.

Lemma parse_cstring_wire v rest : memchr v 0 = None -> zlen (wire_string v) <= SSHBUF_SIZE_MAX ->
  parse_cstring (wire_string v ++ rest) = inr (v, rest).
Proof. intros N L. unfold parse_cstring. rewrite parse_wire_string, N; [done|]. rewrite zlen_wire_string in L. lia. Qed.

Definition sshpkt_get_cstring (valp : bool) : SM (list Z) :=
  st ← getst;
  match parse_cstring (st_incoming_packet st) with
  | inl e => throw e
  | inr (v, rest) =>
      modst (set_st_incoming_packet rest);;
      ok ← (if valp then salloc else mret true);
      if negb ok then throw SSH_ERR_ALLOC_FAIL else mret v
  end.

Definition sshpkt_get_end : SM unit :=
  st ← getst;
  if zlen (st_incoming_packet st) >? 0 then throw SSH_ERR_UNEXPECTED_TRAILING_DATA else mret tt.

Definition ssh_packet_remaining (s : ssh) : Z := zlen (st_incoming_packet (ssh_state s)).

(** ** Discarding *)

(** The loop that fills [incoming_packet] with 'a's up to [dlen] bytes, a
    kilobyte a round. *)
Fixpoint fill_discard (fuel : nat) (dlen : Z) : SM unit :=
  st ← getst;
  if zlen (st_incoming_packet st) <? dlen then
    match fuel with
    | O => throw OUT_OF_FUEL
    | S fuel =>
        b ← buf_append (st_incoming_packet st) (replicate 1024 97);
        modst (set_st_incoming_packet b);;
        fill_discard fuel dlen
    end
  else mret tt.

(** The MAC over the filled packet is computed for its running time only. *)
Definition ssh_packet_stop_discard : SM unit :=
  st ← getst;
  (match st_packet_discard_mac st with
   | Some _ =>
       let already := st_packet_discard_mac_already st in
       let dlen := if PACKET_MAX_SIZE >? already then PACKET_MAX_SIZE - already else PACKET_MAX_SIZE in
       fill_discard 257 dlen
   | None => mret tt
   end);;
  throw SSH_ERR_MAC_INVALID.

Definition ssh_packet_start_discard (ks : keys) (mac_already discard : Z) : SM unit :=
  let corrupt := sshpkt_disconnect (str "Packet corrupt");; throw SSH_ERR_MAC_INVALID in
  match ks_enc ks with
  | None => corrupt
  | Some enc =>
      if negb (cipher_is_cbc (e_cipher enc)) || (match ks_mac ks with Some m => m_etm m | None => false end)
      then corrupt
      else
        (match ks_mac_on ks with
         | Some m =>
             modst (set_st_packet_discard_mac (Some m));;
             modst (set_st_packet_discard_mac_already mac_already)
         | None => mret tt
         end);;
        st ← getst;
        if zlen (st_input st) >=? discard then ssh_packet_stop_discard
        else modst (set_st_packet_discard (discard - zlen (st_input st)))
  end.

(** ** One packet *)

(** A message type with the sequence number of its packet; no packet is
    complete. *)
Definition no_packet : Z * Z := (SSH_MSG_NONE, 0).

Definition ssh_packet_read_poll2_mux : SM (Z * Z) :=
  s ← get_st;
  match ssh_kex s with
  | Some _ => throw SSH_ERR_INTERNAL_ERROR
  | None =>
      let input := st_input (ssh_state s) in
      let rest :=
        st ← getst;
        let need := u32 (st_packlen st + 4) in
        if zlen input <? need then mret no_packet
        else
          modst (set_st_incoming_packet []);;
          b ← buf_append [] (slice input 4 (st_packlen st));
          modst (set_st_incoming_packet b);;
          input ← buf_consume input need;
          modst (set_st_input input);;
          _ ← sshpkt_get_u8;
          type ← sshpkt_get_u8;
          modst (set_st_packlen 0);;
          mret (type, 0) in
      if st_packlen (ssh_state s) =? 0 then
        if zlen input <? 4 + 1 then mret no_packet
        else
          let packlen := PEEK_U32 input in
          modst (set_st_packlen packlen);;
          if (packlen <? 4 + 1) || (packlen >? PACKET_MAX_SIZE) then throw SSH_ERR_MESSAGE_INCOMPLETE
          else rest
      else rest
  end.

Definition bad_packlen (packlen : Z) : bool := (packlen <? 1 + 4) || (packlen >? PACKET_MAX_SIZE).

(** The length of the packet, stored in [packlen]; with no additional data the
    first block is decrypted for it and moved to [incoming_packet].  False:
    too little input, or a corrupt length whose discarding has begun. *)
Definition read_packlen (ks : keys) : SM bool :=
  st ← getst;
  if negb (st_packlen st =? 0) then mret true
  else if negb (ks_aadlen ks =? 0) then
    r ← on_receive (try_ (cipher_get_length (ps_seqnr (st_p_read st)) (st_input st) (zlen (st_input st))));
    match r with
    | inl _ => mret false
    | inr packlen =>
        modst (set_st_packlen packlen);;
        if bad_packlen packlen then sshpkt_disconnect (str "Packet corrupt");; throw SSH_ERR_CONN_CORRUPT
        else modst (set_st_incoming_packet []);; mret true
    end
  else
    let block_size := ks_block_size ks in
    if zlen (st_input st) <? block_size then mret false
    else
      modst (set_st_incoming_packet []);;
      b ← buf_append [] (zeros block_size);
      modst (set_st_incoming_packet b);;
      pt ← on_receive (cipher_crypt (ps_seqnr (st_p_send st)) (st_input st) block_size 0 0);
      modst (set_st_incoming_packet pt);;
      let packlen := PEEK_U32 pt in
      modst (set_st_packlen packlen);;
      if bad_packlen packlen then ssh_packet_start_discard ks 0 PACKET_MAX_SIZE;; mret false
      else
        rest ← buf_consume (st_input st) block_size;
        modst (set_st_input rest);;
        mret true.

Definition ks_maclen (ks : keys) : Z := match ks_mac_on ks with Some m => m_mac_len m | None => 0 end.

(** [need]. *)
Definition packet_need (ks : keys) (packlen : Z) : Z :=
  if negb (ks_aadlen ks =? 0) then packlen else u32 (4 + packlen - ks_block_size ks).

Definition check_mac (m : sshmac) (seqnr : Z) (data theirmac : list Z) : SM unit :=
  let r := mac_check m seqnr data theirmac (m_mac_len m) in
  if r =? 0 then mret tt else throw r.

(** Decrypting the rest of a complete packet to the end of [incoming_packet],
    and its MAC. False: the MAC is wrong and discarding has begun. *)
Definition decrypt_packet (ks : keys) (need : Z) : SM bool :=
  st ← getst;
  let input := st_input st in
  let seqnr := ps_seqnr (st_p_read st) in
  let aadlen := ks_aadlen ks in
  let authlen := ks_authlen ks in
  (match ks_mac_on ks with
   | Some m =>
       if m_etm m then
         check_mac m seqnr (slice input 0 (aadlen + need)) (drop (Z.to_nat (aadlen + need + authlen)) input)
       else mret tt
   | None => mret tt
   end);;
  b ← buf_append (st_incoming_packet st) (zeros (aadlen + need));
  modst (set_st_incoming_packet b);;
  pt ← on_receive (cipher_crypt seqnr input need aadlen authlen);
  let incoming := st_incoming_packet st ++ pt in
  modst (set_st_incoming_packet incoming);;
  input ← buf_consume input (aadlen + need + authlen);
  modst (set_st_input input);;
  match ks_mac_on ks with
  | None => mret true
  | Some m =>
      bad ← (if m_etm m then mret false
             else
               let r := mac_check m seqnr incoming input (m_mac_len m) in
               if r =? 0 then mret false
               else if negb (r =? SSH_ERR_MAC_INVALID) then throw r
               else if u32 (need + ks_block_size ks) >? PACKET_MAX_SIZE then throw SSH_ERR_INTERNAL_ERROR
               else ssh_packet_start_discard ks (zlen incoming) (PACKET_MAX_SIZE - need - ks_block_size ks);; mret true);
      if (bad : bool) then mret false
      else
        input ← buf_consume input (m_mac_len m);
        modst (set_st_input input);;
        mret true
  end.

(** Padding and compression removed from [incoming_packet]. *)
Definition unpad_packet (ks : keys) : SM unit :=
  st ← getst;
  let padlen := byte_at (st_incoming_packet st) 4 in
  if padlen <? 4 then
    sshpkt_disconnect (str "Corrupted padlen " ++ str (pretty padlen) ++ str " on input.");;
    ssh_packet_write_wait;;
    throw SSH_ERR_CONN_CORRUPT
  else
    b ← buf_consume (st_incoming_packet st) (4 + 1);
    modst (set_st_incoming_packet b);;
    b ← buf_consume_end b padlen;
    modst (set_st_incoming_packet b);;
    if ks_comp_on ks then
      match st_compression_buffer st with
      | None => crash
      | Some _ =>
          modst (set_st_compression_buffer (Some []));;
          out ← uncompress_buffer b [];
          modst (set_st_compression_buffer (Some out));;
          modst (set_st_incoming_packet []);;
          b ← buf_append [] out;
          modst (set_st_incoming_packet b)
      end
    else mret tt.

(** The end of [ssh_packet_read_poll2]: the effects of a message on the
    transport; the outcome of [ssh_packet_enable_delayed_compress] is lost. *)
Definition packet_received (type : Z) : SM unit :=
  st ← getst;
  _ ← (if (type =? SSH2_MSG_USERAUTH_SUCCESS) && negb (st_server_side st)
       then try_ ssh_packet_enable_delayed_compress else mret (inr tt));
  modst (set_st_packlen 0);;
  (if type =? SSH2_MSG_NEWKEYS then
     k ← getkex;
     if k_kex_strict k then modst (mod_ps MODE_IN (set_ps_seqnr 0)) else mret tt
   else mret tt);;
  ssh_packet_check_rekey.

Definition ssh_packet_read_poll2 : SM (Z * Z) :=
  st ← getst;
  if st_mux st then ssh_packet_read_poll2_mux
  else if negb (st_packet_discard st =? 0) then mret no_packet
  else
    ks ← keys_of (st_newkeys_in st);
    known ← read_packlen ks;
    if negb known then mret no_packet
    else
      st ← getst;
      let need := packet_need ks (st_packlen st) in
      if negb (need mod ks_block_size ks =? 0) then
        ssh_packet_start_discard ks 0 (PACKET_MAX_SIZE - ks_block_size ks);; mret no_packet
      else if zlen (st_input st) <? u32 (ks_aadlen ks + need + ks_authlen ks + ks_maclen ks) then mret no_packet
      else
        good ← decrypt_packet ks need;
        if negb good then mret no_packet
        else
          st ← getst;
          let seqnr := ps_seqnr (st_p_read st) in
          count_packet MODE_IN (u32 (st_packlen st + 4)) (ks_block_size ks);;
          unpad_packet ks;;
          type ← sshpkt_get_u8;
          if type <? SSH2_MSG_MIN then
            sshpkt_disconnect (str "Invalid ssh2 packet type: " ++ str (pretty type));;
            ssh_packet_write_wait;;
            throw SSH_ERR_PROTOCOL_ERROR
          else
            packet_received type;;
            mret (type, seqnr).

(** ** Messages of the transport *)

(** Whether the message [type] was dealt with here. *)
Definition transport_message (type : Z) : SM bool :=
  if type =? SSH2_MSG_IGNORE then mret true
  else if type =? SSH2_MSG_DEBUG then
    _ ← sshpkt_get_u8; _ ← sshpkt_get_string true; _ ← sshpkt_get_string false; mret true
  else if type =? SSH2_MSG_UNIMPLEMENTED then _ ← sshpkt_get_u32; mret true
  else if type =? SSH2_MSG_PING then
    d ← sshpkt_get_string_direct;
    s ← get_st;
    if negb (st_after_authentication (ssh_state s)) then mret true
    else if ssh_packet_is_rekeying s then mret true
    else
      sshpkt_start SSH2_MSG_PONG;;
      sshpkt_put_string d;;
      sshpkt_send;;
      mret true
  else if type =? SSH2_MSG_PONG then _ ← sshpkt_get_string_direct; mret true
  else
    s ← get_st;
    if (match ssh_kex s with Some k => flag_set (k_flags k) KEX_INIT_RECVD | None => false end) &&
       negb (ssh_packet_type_is_kex type)
    then throw SSH_ERR_PROTOCOL_ERROR
    else mret false.

Definition kex_initial_strict (s : ssh) : bool :=
  match ssh_kex s with Some k => flag_set (k_flags k) KEX_INITIAL && k_kex_strict k | None => false end.

(** Every round takes at least one byte of input. *)
Fixpoint read_poll_loop (fuel : nat) : SM (Z * Z) :=
  match fuel with
  | O => throw OUT_OF_FUEL
  | S fuel =>
      '(type, seqnr) ← ssh_packet_read_poll2;
      if type =? 0 then mret no_packet
      else
        modst (set_st_keep_alive_timeouts 0);;
        if type =? SSH2_MSG_DISCONNECT then
          _ ← sshpkt_get_u32; _ ← sshpkt_get_string true; throw SSH_ERR_DISCONNECTED
        else
          s ← get_st;
          if kex_initial_strict s then mret (type, seqnr)
          else
            handled ← transport_message type;
            if (handled : bool) then read_poll_loop fuel else mret (type, seqnr)
  end.

Definition ssh_packet_read_poll_seqnr : SM (Z * Z) :=
  st ← getst; read_poll_loop (S (S (length (st_input st)))).

(** ** Input *)

Definition ssh_packet_process_incoming (buf : list Z) : SM unit :=
  st ← getst;
  if negb (st_packet_discard st =? 0) then
    modst (set_st_keep_alive_timeouts 0);;
    (if zlen buf >=? st_packet_discard st then ssh_packet_stop_discard else mret tt);;
    modst (fun st => set_st_packet_discard (u32 (st_packet_discard st - zlen buf)) st)
  else
    b ← buf_append (st_input st) buf;
    modst (set_st_input b).

(** [sshbuf_read] of at most [PACKET_MAX_SIZE] bytes, of which [read_] is the
    outcome. *)
Definition ssh_packet_process_read (read_ : option (list Z)) : SM unit :=
  st ← getst;
  _ ← buf_append (st_input st) (zeros PACKET_MAX_SIZE);
  match read_ with
  | None | Some [] => throw SSH_ERR_SYSTEM_ERROR
  | Some buf =>
      modst (set_st_input (st_input st ++ buf));;
      if negb (st_packet_discard st =? 0) then
        b ← buf_consume_end (st_input st ++ buf) (zlen buf);
        modst (set_st_input b);;
        modst (set_st_keep_alive_timeouts 0);;
        (if zlen buf >=? st_packet_discard st then ssh_packet_stop_discard else mret tt);;
        modst (fun st => set_st_packet_discard (u32 (st_packet_discard st - zlen buf)) st)
      else mret tt
  end.

(** Waiting for input and one read(2) of it; a peer with nothing more to say has
    closed the connection. *)
Definition wait_read : SM (list Z) := fun s =>
  let s' := set_ssh_reads (tail (ssh_reads s)) s in
  match hd (Read []) (ssh_reads s) with
  | RTimeout => (Err SSH_ERR_CONN_TIMEOUT, s')
  | RError => (Err SSH_ERR_SYSTEM_ERROR, s')
  | Read [] => (Err SSH_ERR_CONN_CLOSED, s')
  | Read bs => (Ok bs, s')
  end.

Fixpoint read_seqnr_loop (fuel : nat) : SM (Z * Z) :=
  match fuel with
  | O => throw OUT_OF_FUEL
  | S fuel =>
      '(type, seqnr) ← ssh_packet_read_poll_seqnr;
      if negb (type =? SSH_MSG_NONE) then mret (type, seqnr)
      else
        buf ← wait_read;
        ssh_packet_process_incoming buf;;
        read_seqnr_loop fuel
  end.

(** A round takes an answer of read(2), and without answers it ends. *)
Definition ssh_packet_read_seqnr : SM (Z * Z) :=
  ssh_packet_write_wait;;
  s ← get_st;
  read_seqnr_loop (S (length (ssh_reads s))).
End PacketRead.

(** * Dispatch: [dispatch.c]

    The table of message handlers and the loop that reads and dispatches.  A
    handler is an element of [handler]; [run] is what it does. *)

Definition DISPATCH_MAX : Z := 255.

Section Dispatch.
Context {CR : Crypto}.

Abbreviation SM := (M ssh).

Definition ssh_dispatch_init (dflt : option handler) : SM unit := fun s =>
  (Ok tt, set_ssh_dispatch (replicate (Z.to_nat DISPATCH_MAX) dflt) s).

(** An index outside the table is outside the object. *)
Definition ssh_dispatch_set (type : Z) (fn : option handler) : SM unit := fun s =>
  if (0 <=? type) && (type <? DISPATCH_MAX)
  then (Ok tt, set_ssh_dispatch (<[Z.to_nat type := fn]> (ssh_dispatch s)) s)
  else (Crash, s).

(** The loop over [from..to], which ends at the table's end. *)
Fixpoint dispatch_range_loop (n : nat) (i : Z) (fn : option handler) : SM unit :=
  match n with
  | O => mret tt
  | S n => if i >=? DISPATCH_MAX then mret tt else ssh_dispatch_set i fn;; dispatch_range_loop n (i + 1) fn
  end.

Definition ssh_dispatch_range (from to : Z) (fn : option handler) : SM unit :=
  dispatch_range_loop (Z.to_nat (to - from + 1)) from fn.

(** A failure ends the process ([sshpkt_fatal]). *)
Definition dispatch_protocol_error (type seq : Z) : SM unit :=
  catch (sshpkt_start SSH2_MSG_UNIMPLEMENTED;; sshpkt_put_u32 seq;; sshpkt_send;; ssh_packet_write_wait)
    (fun _ => ssh_packet_disconnect).

Definition dispatch_protocol_ignore (type seq : Z) : SM unit := mret tt.

Definition dispatch_at (s : ssh) (type : Z) : option handler :=
  if (type >? 0) && (type <? DISPATCH_MAX) then default None (ssh_dispatch s !! Z.to_nat type) else None.

Section Run.
Context (run : handler -> Z -> Z -> SM unit) (done : ssh -> bool).

(** [block]: whether to wait for packets.  The loop may go on for as long as
    the peer sends; [fuel] bounds the number of packets. *)
Fixpoint ssh_dispatch_run (fuel : nat) (block : bool) : SM unit :=
  match fuel with
  | O => throw OUT_OF_FUEL
  | S fuel =>
      '(type, seqnr) ← (if block then ssh_packet_read_seqnr else ssh_packet_read_poll_seqnr);
      if negb block && (type =? SSH_MSG_NONE) then mret tt
      else
        s ← get_st;
        match dispatch_at s type with
        | Some fn =>
            if negb (ssh_skip_packets s =? 0) then
              modssh (fun s => set_ssh_skip_packets (ssh_skip_packets s - 1) s);;
              ssh_dispatch_run fuel block
            else
              run fn type seqnr;;
              s ← get_st;
              if done s then mret tt else ssh_dispatch_run fuel block
        | None =>
            sshpkt_disconnect (str "protocol error: rcvd type " ++ str (pretty type));;
            throw SSH_ERR_DISCONNECTED
        end
  end.
End Run.
End Dispatch.
