(* ===== verification/Kex.v ===== *)
(** * Key exchange: [kex.c]

    Proposals, algorithm negotiation, key derivation, and the handlers of
    KEXINIT, NEWKEYS and EXT_INFO.  The method that computes the shared secret
    ([kex->kex[type]]) is a parameter of the KEXINIT handler. *)

From S2P Require Import Prelude Ssherr Cstring Match KexNames SshkeyNames Hmac Cipher SshState Packet PacketRead.
From S2P Require Import Sshbuf SshbufGetput SshbufWire.

Definition PROPOSAL_KEX_ALGS : nat := 0.
Definition PROPOSAL_SERVER_HOST_KEY_ALGS : nat := 1.
Definition PROPOSAL_ENC_ALGS_CTOS : nat := 2.
Definition PROPOSAL_ENC_ALGS_STOC : nat := 3.
Definition PROPOSAL_MAC_ALGS_CTOS : nat := 4.
Definition PROPOSAL_MAC_ALGS_STOC : nat := 5.
Definition PROPOSAL_COMP_ALGS_CTOS : nat := 6.
Definition PROPOSAL_COMP_ALGS_STOC : nat := 7.
Definition PROPOSAL_LANG_CTOS : nat := 8.
Definition PROPOSAL_LANG_STOC : nat := 9.
Definition PROPOSAL_MAX : nat := 10.

Definition prop_at (prop : list (list Z)) (i : nat) : list Z := nth i prop [].

Section Kex.
Context {CR : Crypto} (nids : curve_nids).

Abbreviation SM := (M ssh).

(** ** Proposals *)

Fixpoint put_all (b : list Z) (fields : list (list Z)) : SM (list Z) :=
  match fields with
  | [] => mret b
  | f :: fields => b ← buf_append b f; put_all b fields
  end.

(** The new contents of [b]. *)
Definition kex_prop2buf (proposal : list (list Z)) : SM (list Z) :=
  b ← put_all [] (replicate (Z.to_nat KEX_COOKIE_LEN) [0]);
  b ← put_all b (wire_string <$> proposal);
  put_all b [[0]; POKE_U32 0].

Fixpoint get_cstrings (n : nat) (b : list Z) : SM (list (list Z) * list Z) :=
  match n with
  | O => mret ([], b)
  | S n =>
      match parse_cstring b with
      | inl e => throw e
      | inr (v, b) =>
          ok ← salloc;
          if negb ok then throw SSH_ERR_ALLOC_FAIL
          else '(vs, b) ← get_cstrings n b; mret (v :: vs, b)
      end
  end.

(** [first_kex_follows] and the proposal. *)
Definition kex_buf2prop (raw : list Z) : SM (Z * list (list Z)) :=
  ok ← salloc;
  ok2 ← salloc;
  if negb ok || negb ok2 then throw SSH_ERR_ALLOC_FAIL
  else
    b ← buf_consume raw KEX_COOKIE_LEN;
    '(proposal, b) ← get_cstrings PROPOSAL_MAX b;
    rest ← buf_consume b 1;
    _ ← buf_consume rest 4;
    mret (byte_at b 0, proposal).

(** ** Negotiation *)

Definition choose_enc (client server : list Z) : sshenc + Z :=
  match (match_list client server).1 with
  | None => inr SSH_ERR_NO_CIPHER_ALG_MATCH
  | Some name =>
      match cipher_by_name name with
      | None => inr SSH_ERR_INTERNAL_ERROR
      | Some c => inl (mk_enc name c false (cipher_keylen c) (cipher_ivlen c) (cipher_blocksize c) None None)
      end
  end.

Definition choose_mac (ok : bool) (client server : list Z) : sshmac + Z :=
  match (match_list client server).1 with
  | None => inr SSH_ERR_NO_MAC_ALG_MATCH
  | Some name =>
      match mac_setup ok mac_zero name with
      | inr _ => inr SSH_ERR_INTERNAL_ERROR
      | inl m => inl (mk_mac (Some name) false (m_mac_len m) None (m_key_len m) (m_type m) (m_etm m)
                        (m_hmac_ctx m) (m_umac_ctx m))
      end
  end.

Definition choose_comp (client server : list Z) : sshcomp + Z :=
  match (match_list client server).1 with
  | None => inr SSH_ERR_NO_COMPRESS_ALG_MATCH
  | Some name =>
      if bool_decide (name = str "zlib@openssh.com") then inl (mk_comp COMP_DELAYED false (Some name))
      else if bool_decide (name = str "none") then inl (mk_comp COMP_NONE false (Some name))
      else inr SSH_ERR_INTERNAL_ERROR
  end.

Definition choose_kex (client server : list Z) : SM unit :=
  let name := (match_list client server).1 in
  modkex (set_k_name name);;
  match name with
  | None => throw SSH_ERR_NO_KEX_ALG_MATCH
  | Some name =>
      if negb (kex_name_valid nids name) then throw SSH_ERR_INTERNAL_ERROR
      else
        modkex (set_k_kex_type (kex_type_from_name nids name));;
        modkex (set_k_hash_alg (kex_hash_from_name nids name));;
        modkex (set_k_ec_nid (kex_nid_from_name nids name))
  end.

Definition choose_hostkeyalg (client server : list Z) : SM unit :=
  let name := (match_list client server).1 in
  modkex (set_k_hostkey_alg name);;
  match name with
  | None => throw SSH_ERR_NO_HOSTKEY_ALG_MATCH
  | Some name =>
      let type := sshkey_type_from_name nids name in
      modkex (set_k_hostkey_type type);;
      if type =? KEY_UNSPEC then throw SSH_ERR_INTERNAL_ERROR
      else modkex (set_k_hostkey_nid (sshkey_ecdsa_nid_from_name nids name))
  end.

(** A string cut at its first comma. *)
Definition first_name (s : list Z) : list Z := (strsep s (str ",")).1.

Definition proposals_match (my peer : list (list Z)) : bool :=
  forallb (fun i => bool_decide (first_name (prop_at my i) = first_name (prop_at peer i)))
    [PROPOSAL_KEX_ALGS; PROPOSAL_SERVER_HOST_KEY_ALGS].

Definition kexalgs_contains (peer : list (list Z)) (ext : list Z) : bool :=
  kex_has_any_alg (prop_at peer PROPOSAL_KEX_ALGS) ext.

(** [if ((r = choose...) != 0) { kex->failed_choice = peer[i]; goto out; }] *)
Definition or_failed {A} (peer : list (list Z)) (i : nat) (m : SM A) : SM A :=
  catch m (fun e => modkex (set_k_failed_choice (Some (prop_at peer i)));; throw e).

Definition comp_zero : sshcomp := mk_comp COMP_NONE false None.

(** One round of the loop over the modes. *)
Definition choose_mode (server : bool) (cprop sprop peer : list (list Z)) (m : mode) : SM unit :=
  let ctos := (negb server && match m with MODE_OUT => true | MODE_IN => false end) ||
              (server && match m with MODE_IN => true | MODE_OUT => false end) in
  let nenc := if ctos then PROPOSAL_ENC_ALGS_CTOS else PROPOSAL_ENC_ALGS_STOC in
  let nmac := if ctos then PROPOSAL_MAC_ALGS_CTOS else PROPOSAL_MAC_ALGS_STOC in
  let ncomp := if ctos then PROPOSAL_COMP_ALGS_CTOS else PROPOSAL_COMP_ALGS_STOC in
  ok ← salloc;
  if negb ok then throw SSH_ERR_ALLOC_FAIL
  else
    modkex (set_k_newkeys m (Some (mk_newkeys None mac_zero comp_zero)));;
    enc ← or_failed peer nenc (lift (choose_enc (prop_at cprop nenc) (prop_at sprop nenc)));
    modkex (set_k_newkeys m (Some (mk_newkeys (Some enc) mac_zero comp_zero)));;
    mac ← (if cipher_authlen (e_cipher enc) =? 0 then
             ok ← salloc;
             or_failed peer nmac (lift (choose_mac ok (prop_at cprop nmac) (prop_at sprop nmac)))
           else mret mac_zero);
    modkex (set_k_newkeys m (Some (mk_newkeys (Some enc) mac comp_zero)));;
    comp ← or_failed peer ncomp (lift (choose_comp (prop_at cprop ncomp) (prop_at sprop ncomp)));
    modkex (set_k_newkeys m (Some (mk_newkeys (Some enc) mac comp))).

(** The two maxima over one mode. *)
Definition need_of (nk : option newkeys) (need : Z) : Z :=
  match nk with
  | Some (mk_newkeys (Some enc) mac _) =>
      Z.max (Z.max (Z.max (Z.max need (e_key_len enc)) (e_block_size enc)) (e_iv_len enc)) (m_key_len mac)
  | _ => need
  end.
Definition dh_need_of (nk : option newkeys) (need : Z) : Z :=
  match nk with
  | Some (mk_newkeys (Some enc) mac _) =>
      Z.max (Z.max (Z.max (Z.max need (cipher_seclen (e_cipher enc))) (e_block_size enc)) (e_iv_len enc)) (m_key_len mac)
  | _ => need
  end.

(** What the peer's KEXINIT says about extensions, in the first exchange. *)
Definition choose_extensions (server : bool) (peer : list (list Z)) (seq : Z) : SM unit :=
  (if server then
     modkex (set_k_ext_info_c (kexalgs_contains peer (str "ext-info-c")));;
     modkex (set_k_kex_strict (kexalgs_contains peer (str "kex-strict-c-v00@openssh.com")))
   else
     modkex (set_k_ext_info_s (kexalgs_contains peer (str "ext-info-s")));;
     modkex (set_k_kex_strict (kexalgs_contains peer (str "kex-strict-s-v00@openssh.com"))));;
  k ← getkex;
  (if k_kex_strict k && negb (seq =? 0) then ssh_packet_disconnect else mret tt);;
  if server then
    let hk := prop_at peer PROPOSAL_SERVER_HOST_KEY_ALGS in
    (if kex_has_any_alg hk (str "rsa-sha2-256,rsa-sha2-256-cert-v01@openssh.com")
     then modkex (fun k => set_k_flags (Z.lor (k_flags k) KEX_RSA_SHA2_256_SUPPORTED) k) else mret tt);;
    (if kex_has_any_alg hk (str "rsa-sha2-512,rsa-sha2-512-cert-v01@openssh.com")
     then modkex (fun k => set_k_flags (Z.lor (k_flags k) KEX_RSA_SHA2_512_SUPPORTED) k) else mret tt)
  else mret tt.

Definition kex_choose_conf (seq : Z) : SM unit :=
  k ← getkex;
  '(_, my) ← kex_buf2prop (k_my k);
  '(first_kex_follows, peer) ← kex_buf2prop (k_peer k);
  let server := k_server k in
  let cprop := if server then peer else my in
  let sprop := if server then my else peer in
  (if flag_set (k_flags k) KEX_INITIAL then choose_extensions server peer seq else mret tt);;
  or_failed peer PROPOSAL_KEX_ALGS
    (choose_kex (prop_at cprop PROPOSAL_KEX_ALGS) (prop_at sprop PROPOSAL_KEX_ALGS));;
  or_failed peer PROPOSAL_SERVER_HOST_KEY_ALGS
    (choose_hostkeyalg (prop_at cprop PROPOSAL_SERVER_HOST_KEY_ALGS) (prop_at sprop PROPOSAL_SERVER_HOST_KEY_ALGS));;
  choose_mode server cprop sprop peer MODE_IN;;
  choose_mode server cprop sprop peer MODE_OUT;;
  modkex (fun k => set_k_we_need (need_of (k_newkeys_out k) (need_of (k_newkeys_in k) 0)) k);;
  modkex (fun k => set_k_dh_need (dh_need_of (k_newkeys_out k) (dh_need_of (k_newkeys_in k) 0)) k);;
  if negb (first_kex_follows =? 0) && negb (proposals_match my peer)
  then modssh (set_ssh_skip_packets 1) else mret tt.

(** ** Key derivation *)

(** The loop "expand key": [digest] holds K1 || K2 || ... so far. *)
Fixpoint expand_key (fuel : nat) (hash_alg need mdsz : Z) (shared_secret hash digest : list Z) : list Z + Z :=
  if need >? zlen digest then
    match fuel with
    | O => inr OUT_OF_FUEL
    | S fuel =>
        match ssh_digest_start true hash_alg with
        | None => inr SSH_ERR_LIBCRYPTO_ERROR
        | Some ctx =>
            match ssh_digest_final (foldl ssh_digest_update ctx [shared_secret; hash; digest]) mdsz with
            | inr _ => inr SSH_ERR_LIBCRYPTO_ERROR
            | inl kn => expand_key fuel hash_alg need mdsz shared_secret hash (digest ++ kn)
            end
        end
    end
  else inl digest.

Definition derive_key (id need : Z) (hash shared_secret : list Z) : SM (list Z) :=
  k ← getkex;
  let mdsz := ssh_digest_bytes (k_hash_alg k) in
  if mdsz =? 0 then throw SSH_ERR_INVALID_ARGUMENT
  else
    ok ← salloc;
    if negb ok then throw SSH_ERR_ALLOC_FAIL
    else
      match ssh_digest_start true (k_hash_alg k) with
      | None => throw SSH_ERR_LIBCRYPTO_ERROR
      | Some ctx =>
          match ssh_digest_final (foldl ssh_digest_update ctx [shared_secret; hash; [u8 id]; k_session_id k]) mdsz with
          | inr _ => throw SSH_ERR_LIBCRYPTO_ERROR
          | inl k1 => lift (expand_key (Z.to_nat need) (k_hash_alg k) need mdsz shared_secret hash k1)
          end
      end.

Definition NKEYS : nat := 6.

Fixpoint derive_keys_loop (n : nat) (id need : Z) (hash shared_secret : list Z) : SM (list (list Z)) :=
  match n with
  | O => mret []
  | S n =>
      key ← derive_key id need hash shared_secret;
      keys ← derive_keys_loop n (id + 1) need hash shared_secret;
      mret (key :: keys)
  end.

Definition ctos_mode (server : bool) (m : mode) : bool :=
  match m with MODE_OUT => negb server | MODE_IN => server end.

(** The three keys of a direction. *)
Definition set_mode_keys (server : bool) (keys : list (list Z)) (m : mode) : SM unit :=
  k ← getkex;
  let ctos := ctos_mode server m in
  match k_newkeys m k with
  | Some (mk_newkeys (Some enc) mac comp) =>
      let iv := keys !! (if ctos then 0 else 1)%nat in
      let key := keys !! (if ctos then 2 else 3)%nat in
      let mkey := keys !! (if ctos then 4 else 5)%nat in
      modkex (set_k_newkeys m (Some (mk_newkeys
        (Some (mk_enc (e_name enc) (e_cipher enc) (e_enabled enc) (e_key_len enc) (e_iv_len enc) (e_block_size enc) key iv))
        (mk_mac (m_name mac) (m_enabled mac) (m_mac_len mac) mkey (m_key_len mac) (m_type mac) (m_etm mac)
           (m_hmac_ctx mac) (m_umac_ctx mac)) comp)))
  | _ => crash
  end.

Definition kex_derive_keys (hash shared_secret : list Z) : SM unit :=
  k ← getkex;
  (if flag_set (k_flags k) KEX_INITIAL then
     if negb (zlen (k_session_id k) =? 0) then throw SSH_ERR_INTERNAL_ERROR
     else id ← buf_append (k_session_id k) hash; modkex (set_k_session_id id)
   else if zlen (k_session_id k) =? 0 then throw SSH_ERR_INTERNAL_ERROR else mret tt);;
  keys ← derive_keys_loop NKEYS 65 (k_we_need k) hash shared_secret;
  set_mode_keys (k_server k) keys MODE_IN;;
  set_mode_keys (k_server k) keys MODE_OUT.

(** ** Handlers *)

Definition kex_protocol_error (type seq : Z) : SM unit :=
  k ← getkex;
  (if flag_set (k_flags k) KEX_INITIAL && k_kex_strict k then ssh_packet_disconnect else mret tt);;
  sshpkt_start SSH2_MSG_UNIMPLEMENTED;;
  sshpkt_put_u32 seq;;
  sshpkt_send.

Definition kex_reset_dispatch : SM unit :=
  ssh_dispatch_range SSH2_MSG_TRANSPORT_MIN SSH2_MSG_TRANSPORT_MAX (Some h_kex_protocol_error).

(** The loop of [kex_set_server_sig_algs]. *)
Fixpoint sig_algs_loop (ts : list (list Z)) (sigalgs : list Z) (ret : option (list Z)) : option (list Z) :=
  match ts with
  | [] => ret
  | alg :: ts =>
      if bool_decide (alg = []) then ret
      else
        match sshkey_sigalg_by_name nids alg with
        | None => sig_algs_loop ts sigalgs ret
        | Some sigalg =>
            if negb (kex_has_any_alg sigalg sigalgs) then sig_algs_loop ts sigalgs ret
            else if (match ret with Some r => kex_has_any_alg sigalg r | None => false end)
            then sig_algs_loop ts sigalgs ret
            else sig_algs_loop ts sigalgs (Some (xextendf ret (str ",") sigalg))
        end
  end.

Definition kex_set_server_sig_algs (allowed_algs : list Z) : SM unit :=
  match sshkey_alg_list nids false true true 44 with
  | None => ssh_packet_disconnect
  | Some sigalgs => modkex (set_k_server_sig_algs (Some (default [] (sig_algs_loop (split allowed_algs) sigalgs None))))
  end.

Definition kex_compose_ext_info_server (m : list Z) : SM (list Z) :=
  k ← getkex;
  (match k_server_sig_algs k with
   | Some _ => mret tt
   | None =>
       match sshkey_alg_list nids false true true 44 with
       | None => throw SSH_ERR_ALLOC_FAIL
       | Some l => modkex (set_k_server_sig_algs (Some l))
       end
   end);;
  k ← getkex;
  put_all m (POKE_U32 4 :: (wire_string <$>
    [str "server-sig-algs"; default [] (k_server_sig_algs k);
     str "publickey-hostbound@openssh.com"; str "0";
     str "ping@openssh.com"; str "0";
     str "agent-forward"; str "0"])).

Definition kex_compose_ext_info_client (m : list Z) : SM (list Z) :=
  put_all m (POKE_U32 1 :: (wire_string <$> [str "ext-info-in-auth@openssh.com"; str "0"])).

Definition kex_maybe_send_ext_info : SM unit :=
  k ← getkex;
  if negb (flag_set (k_flags k) KEX_INITIAL) then mret tt
  else if negb (k_ext_info_c k) && negb (k_ext_info_s k) then mret tt
  else
    ok ← salloc;
    if negb ok then ssh_packet_disconnect
    else
      m ← (if k_ext_info_c k then kex_compose_ext_info_server [] else mret []);
      m ← (if k_ext_info_s k then kex_compose_ext_info_client m else mret m);
      sshpkt_start SSH2_MSG_EXT_INFO;;
      sshpkt_putb m;;
      sshpkt_send.

Definition kex_server_update_ext_info : SM unit :=
  k ← getkex;
  if negb (flag_set (k_flags k) KEX_HAS_EXT_INFO_IN_AUTH) then mret tt
  else
    sshpkt_start SSH2_MSG_EXT_INFO;;
    sshpkt_put_u32 1;;
    sshpkt_put_cstring (str "server-sig-algs");;
    sshpkt_put_cstring (default [] (k_server_sig_algs k));;
    sshpkt_send.

Definition kex_send_newkeys : SM unit :=
  kex_reset_dispatch;;
  sshpkt_start SSH2_MSG_NEWKEYS;;
  sshpkt_send;;
  ssh_dispatch_set SSH2_MSG_NEWKEYS (Some h_kex_input_newkeys);;
  kex_maybe_send_ext_info.

Definition has_nul (v : list Z) : bool := if memchr v 0 is Some _ then true else false.

Definition kex_ext_info_check_ver (val want_ver : list Z) (flag : Z) : SM unit :=
  if has_nul val then throw SSH_ERR_INVALID_FORMAT
  else if bool_decide (val = want_ver) then modkex (fun k => set_k_flags (Z.lor (k_flags k) flag) k)
  else mret tt.

Definition kex_ext_info_client_parse (name value : list Z) : SM unit :=
  k ← getkex;
  if bool_decide (name = str "server-sig-algs") then
    if has_nul value then throw SSH_ERR_INVALID_FORMAT
    else modkex (set_k_server_sig_algs (Some value))
  else if negb (k_ext_info_received k =? 1) then mret tt
  else if bool_decide (name = str "publickey-hostbound@openssh.com")
  then kex_ext_info_check_ver value (str "0") KEX_HAS_PUBKEY_HOSTBOUND
  else if bool_decide (name = str "ping@openssh.com")
  then kex_ext_info_check_ver value (str "0") KEX_HAS_PING
  else if bool_decide (name = str "agent-forward")
  then kex_ext_info_check_ver value (str "0") KEX_HAS_NEWAGENT
  else mret tt.

Definition kex_ext_info_server_parse (name value : list Z) : SM unit :=
  if bool_decide (name = str "ext-info-in-auth@openssh.com")
  then kex_ext_info_check_ver value (str "0") KEX_HAS_EXT_INFO_IN_AUTH
  else mret tt.

Fixpoint ext_info_loop (n : nat) (server : bool) : SM unit :=
  match n with
  | O => mret tt
  | S n =>
      name ← sshpkt_get_cstring true;
      val ← sshpkt_get_string true;
      (if server then kex_ext_info_server_parse name val else kex_ext_info_client_parse name val);;
      ext_info_loop n server
  end.

Definition kex_input_ext_info (type seq : Z) : SM unit :=
  k ← getkex;
  let max_ext_info := if k_server k then 1 else 2 in
  modkex (set_k_ext_info_received (k_ext_info_received k + 1));;
  if k_ext_info_received k + 1 >? max_ext_info then dispatch_protocol_error type seq
  else
    ssh_dispatch_set SSH2_MSG_EXT_INFO (Some h_kex_protocol_error);;
    ninfo ← sshpkt_get_u32;
    if ninfo >=? 1024 then dispatch_protocol_error type seq
    else
      ext_info_loop (Z.to_nat ninfo) (k_server k);;
      sshpkt_get_end.

(** "Remove initial KEX signalling from proposal for rekeying". *)
Definition strip_signalling (server : bool) : SM unit :=
  k ← getkex;
  '(_, prop) ← kex_buf2prop (k_my k);
  ok ← salloc;
  match match_filter_denylist ok (prop_at prop PROPOSAL_KEX_ALGS)
          (if server then str "ext-info-s,kex-strict-s-v00@openssh.com"
           else str "ext-info-c,kex-strict-c-v00@openssh.com") with
  | None => throw SSH_ERR_INTERNAL_ERROR
  | Some cp =>
      b ← catch (kex_prop2buf (<[PROPOSAL_KEX_ALGS := cp]> prop)) (fun _ => throw SSH_ERR_INTERNAL_ERROR);
      modkex (set_k_my b)
  end.

(** [flags &= ~f]. *)
Definition clear_flag (f : Z) (k : kex) : kex := set_k_flags (Z.ldiff (k_flags k) f) k.

Definition kex_input_newkeys (type seq : Z) : SM unit :=
  k ← getkex;
  let initial := flag_set (k_flags k) KEX_INITIAL in
  (if k_ext_info_c k && initial then ssh_dispatch_set SSH2_MSG_EXT_INFO (Some h_kex_input_ext_info) else mret tt);;
  ssh_dispatch_set SSH2_MSG_NEWKEYS (Some h_kex_protocol_error);;
  ssh_dispatch_set SSH2_MSG_KEXINIT (Some h_kex_input_kexinit);;
  sshpkt_get_end;;
  ssh_set_newkeys MODE_IN;;
  (if initial then strip_signalling (k_server k) else mret tt);;
  modkex (set_k_done true);;
  modkex (clear_flag KEX_INITIAL);;
  modkex (set_k_peer []);;
  modkex (clear_flag (Z.lor KEX_INIT_SENT KEX_INIT_RECVD)).

Fixpoint repeat_m {A} (n : nat) (m : SM A) : SM unit :=
  match n with O => mret tt | S n => _ ← m; repeat_m n m end.

Section Method.
(** [kex->kex[kex_type]]. *)
Context (method : Z -> option (SM unit)).

Definition kex_input_kexinit (type seq : Z) : SM unit :=
  s ← get_st;
  match ssh_kex s with
  | None => throw SSH_ERR_INTERNAL_ERROR
  | Some k =>
      modkex (set_k_name None);;
      (if flag_set (k_flags k) KEX_INIT_RECVD then ssh_packet_disconnect else mret tt);;
      modkex (fun k => set_k_flags (Z.lor (k_flags k) KEX_INIT_RECVD) k);;
      ssh_dispatch_set SSH2_MSG_KEXINIT (Some h_kex_protocol_error);;
      st ← getst;
      peer ← buf_append (k_peer k) (st_incoming_packet st);
      modkex (set_k_peer peer);;
      repeat_m (Z.to_nat KEX_COOKIE_LEN) sshpkt_get_u8;;
      repeat_m PROPOSAL_MAX (sshpkt_get_string false);;
      _ ← sshpkt_get_u8;
      _ ← sshpkt_get_u32;
      sshpkt_get_end;;
      (if flag_set (k_flags k) KEX_INIT_SENT then mret tt else kex_send_kexinit sshpkt_send);;
      kex_choose_conf seq;;
      k ← getkex;
      if k_kex_type k <? KEX_MAX then
        match method (k_kex_type k) with
        | Some m => m
        | None => throw SSH_ERR_INTERNAL_ERROR
        end
      else throw SSH_ERR_INTERNAL_ERROR
  end.

(** What the handlers of this file do. *)
Definition run_handler (other : Z -> Z -> Z -> SM unit) (h : handler) (type seq : Z) : SM unit :=
  match h with
  | h_kex_protocol_error => kex_protocol_error type seq
  | h_kex_input_kexinit => kex_input_kexinit type seq
  | h_kex_input_newkeys => kex_input_newkeys type seq
  | h_kex_input_ext_info => kex_input_ext_info type seq
  | h_dispatch_protocol_error => dispatch_protocol_error type seq
  | h_dispatch_protocol_ignore => dispatch_protocol_ignore type seq
  | h_other n => other n type seq
  end.
End Method.

Definition kex_ready (proposal : list (list Z)) : SM unit :=
  b ← kex_prop2buf proposal;
  modkex (set_k_my b);;
  modkex (set_k_flags KEX_INITIAL);;
  kex_reset_dispatch;;
  ssh_dispatch_set SSH2_MSG_KEXINIT (Some h_kex_input_kexinit).

Definition kex_setup (proposal : list (list Z)) : SM unit :=
  kex_ready proposal;;
  catch (kex_send_kexinit sshpkt_send) (fun e => modssh (set_ssh_kex None);; throw e).
End Kex.
