(* ===== verification/PacketState.v ===== *)
(** * Creating, configuring and handing over the connection state

    [ssh_alloc_session_state] and [ssh_packet_set_connection], the setters of
    [packet.c], and the serialisation of the transport state that the
    authentication process sends to the session process. *)

From S2P Require Import Prelude Ssherr Cstring Match KexNames Cipher SshState Packet PacketRead.
From S2P Require Import Sshbuf SshbufGetput SshbufWire.

Section PacketState.
Context {CR : Crypto}.

Abbreviation SM := (M ssh).

(** ** A new connection *)

(** calloc'ed structures. *)
Definition ps_zero : packet_state := mk_ps 0 0 0 0.

Definition kex_zero : kex :=
  mk_kex None None 0 0 false None None 0 0 0 None false false false 0 [] [] [] [] [] false 0 0 0 None.

Definition state_zero : session_state :=
  mk_state None None [] [] [] [] None None None false false 0 0 false false 0 None None ps_zero ps_zero
    0 0 0 0 0 0 0 0 0 0 None 0 false false false 0 0 0 0 false 0 [].

(** What the environment answers. *)
Record environment := mk_env {
  env_oom : list bool; env_rnd : list Z; env_writes : list wres; env_reads : list rres; env_now : Z
}.

(** [ok]: whether the allocations succeed. *)
Definition ssh_alloc_session_state (ok : bool) (e : environment) : option ssh :=
  if negb ok then None
  else
    let state := set_st_max_packet_size 32768 (set_st_packet_timeout_ms (-1) (set_st_interactive_mode 1
      (set_st_qos_interactive (-1) (set_st_qos_other (-1) (set_st_rekeying true state_zero))))) in
    Some (mk_sshc state (Some kex_zero) (replicate (Z.to_nat DISPATCH_MAX) None) 0 0
            (env_oom e) (env_rnd e) (env_writes e) [] (env_reads e) (env_now e)).

(** On an existing state; the descriptors, the start time and the cached address
    are not part of it. *)
Definition ssh_packet_set_connection : SM unit :=
  match cipher_by_name (str "none") with
  | None => throw SSH_ERR_INTERNAL_ERROR
  | Some none =>
      let init m := ok ← salloc; ok2 ← salloc; lift (cipher_init ok ok2 none [] 0 None 0 m) in
      sc ← init true;
      modst (set_st_send_context (Some sc));;
      rc ← init false;
      modst (set_st_receive_context (Some rc));;
      modst (fun st => set_st_newkeys_in None (set_st_newkeys_out None st))
  end.

(** ** Settings *)

Definition INT_MAX : Z := 2147483647.

Definition ssh_packet_set_timeout (timeout count : Z) : SM unit :=
  if (timeout <=? 0) || (count <=? 0) then modst (set_st_packet_timeout_ms (-1))
  else if INT_MAX / 1000 / count <? timeout then modst (set_st_packet_timeout_ms INT_MAX)
  else modst (set_st_packet_timeout_ms (timeout * count * 1000)).

Definition ssh_packet_set_mux : SM unit :=
  modst (fun st => set_st_rekeying false (set_st_mux true st));;
  modssh (set_ssh_kex None).

Definition ssh_packet_get_mux (s : ssh) : bool := st_mux (ssh_state s).

Definition ssh_packet_get_bytes (s : ssh) : Z * Z :=
  (ps_bytes (st_p_read (ssh_state s)), ps_bytes (st_p_send (ssh_state s))).

Definition ssh_packet_not_very_much_data_to_write (s : ssh) : bool :=
  let st := ssh_state s in
  if negb (st_interactive_mode st =? 0) then zlen (st_output st) <? 16384 else zlen (st_output st) <? 128 * 1024.

Definition ssh_packet_interactive_data_to_write (s : ssh) : bool :=
  negb (st_interactive_mode (ssh_state s) =? 0) && (zlen (st_output (ssh_state s)) <? 256).

(** The size that is set, or -1. *)
Definition ssh_packet_set_maxsize (n : Z) : SM Z :=
  st ← getst;
  if st_set_maxsize_called st then mret (-1)
  else if (n <? 4 * 1024) || (n >? 1024 * 1024) then mret (-1)
  else modst (fun st => set_st_max_packet_size n (set_st_set_maxsize_called true st));; mret n.

Definition ssh_packet_get_maxsize (s : ssh) : Z := st_max_packet_size (ssh_state s).

Definition ssh_packet_inc_alive_timeouts : SM Z :=
  modst (fun st => set_st_keep_alive_timeouts (st_keep_alive_timeouts st + 1) st);;
  gets (fun s => st_keep_alive_timeouts (ssh_state s)).

Definition ssh_packet_set_alive_timeouts (ka : Z) : SM unit := modst (set_st_keep_alive_timeouts ka).

Definition ssh_packet_set_rekey_limits (bytes seconds : Z) : SM unit :=
  if (bytes =? 0) && (seconds =? 0) then mret tt
  else modst (fun st => set_st_rekey_interval seconds (set_st_rekey_limit bytes st)).

Definition ssh_packet_get_rekey_timeout (s : ssh) : Z :=
  let seconds := st_rekey_time (ssh_state s) + st_rekey_interval (ssh_state s) - ssh_now s in
  if seconds <=? 0 then 1 else seconds.

Definition ssh_packet_set_server : SM unit :=
  modst (set_st_server_side true);;
  _ ← getkex;
  modkex (set_k_server true).

Definition ssh_packet_set_authenticated : SM unit := modst (set_st_after_authentication true).

Definition ssh_packet_set_postauth : SM unit :=
  modst (fun st => set_st_rekeying false (set_st_after_authentication true st));;
  ssh_packet_enable_delayed_compress.

(** The random payload of SSH2_MSG_IGNORE: [rnd] has what is left of the last
    arc4random. *)
Fixpoint put_random (n : nat) (i rnd : Z) : SM unit :=
  match n with
  | O => mret tt
  | S n =>
      rnd ← (if i mod 4 =? 0 then bs ← arc4random_buf 4; mret (PEEK_U32 bs) else mret rnd);
      sshpkt_put_u8 (Z.land (u8 rnd) 0xff);;
      put_random n (i + 1) (Z.shiftr rnd 8)
  end.

Definition sshpkt_msg_ignore (nbytes : Z) : SM unit :=
  sshpkt_start SSH2_MSG_IGNORE;;
  sshpkt_put_u32 nbytes;;
  put_random (Z.to_nat nbytes) 0 0.

(** ** Serialisation *)

(** Appending to a buffer with contents [m]. *)
Definition put_u32 (v : Z) (m : list Z) : SM (list Z) := buf_append m (POKE_U32 v).
Definition put_u64 (v : Z) (m : list Z) : SM (list Z) := buf_append m (POKE_U64 v).
Definition put_string (v m : list Z) : SM (list Z) :=
  if zlen v >? SSHBUF_SIZE_MAX - 4 then throw SSH_ERR_NO_BUFFER_SPACE
  else buf_append m (POKE_U32 (zlen v) ++ v).

(** Fields from the front of a buffer with contents [m]. *)
Definition take_u32 (m : list Z) : SM (Z * list Z) :=
  m' ← buf_consume m 4; mret (PEEK_U32 m, m').
Definition take_u64 (m : list Z) : SM (Z * list Z) :=
  m' ← buf_consume m 8; mret (PEEK_U64 m, m').
Definition parsed {A} (x : Z + A) : SM A := match x with inl e => throw e | inr a => mret a end.
Definition take_string (m : list Z) : SM (list Z * list Z) :=
  p ← parsed (parse_string m); ok ← salloc; if (ok : bool) then mret p else throw SSH_ERR_ALLOC_FAIL.
Definition take_cstring (m : list Z) : SM (list Z * list Z) :=
  p ← parsed (parse_cstring m); ok ← salloc; if (ok : bool) then mret p else throw SSH_ERR_ALLOC_FAIL.

Definition z_of_bool (b : bool) : Z := if b then 1 else 0.
Definition bool_of_z (v : Z) : bool := negb (v =? 0).

Definition kex_to_blob (m : list Z) (k : kex) : SM (list Z) :=
  m ← put_u32 (k_we_need k) m;
  m ← put_string (default [] (k_hostkey_alg k)) m;
  m ← put_u32 (k_hostkey_type k) m;
  m ← put_u32 (k_hostkey_nid k) m;
  m ← put_u32 (k_kex_type k) m;
  m ← put_u32 (z_of_bool (k_kex_strict k)) m;
  m ← put_string (k_my k) m;
  m ← put_string (k_peer k) m;
  m ← put_string (k_client_version k) m;
  m ← put_string (k_server_version k) m;
  m ← put_string (k_session_id k) m;
  put_u32 (k_flags k) m.

(** [cipher_get_keyiv] writes to [enc->iv]. *)
Definition save_keyiv (md : mode) (nk : newkeys) (enc : sshenc) : SM sshenc :=
  iv ← (match md with MODE_OUT => on_send (cipher_get_keyiv (e_iv_len enc))
                    | MODE_IN => on_receive (cipher_get_keyiv (e_iv_len enc)) end);
  match iv with
  | None => mret enc
  | Some iv =>
      let enc := mk_enc (e_name enc) (e_cipher enc) (e_enabled enc) (e_key_len enc) (e_iv_len enc) (e_block_size enc)
                   (e_key enc) (Some iv) in
      modst (set_st_newkeys md (Some (mk_newkeys (Some enc) (nk_mac nk) (nk_comp nk))));;
      mret enc
  end.

(** A string of [len] bytes at a pointer that may be NULL. *)
Definition put_bytes (p : option (list Z)) (len : Z) (m : list Z) : SM (list Z) :=
  match p with
  | Some v => put_string (slice v 0 len) m
  | None => if len =? 0 then put_string [] m else crash
  end.

Definition newkeys_to_blob (m : list Z) (md : mode) : SM (list Z) :=
  st ← getst;
  match st_newkeys md st with
  | None => throw SSH_ERR_INTERNAL_ERROR
  | Some nk =>
      enc ← enc_of nk;
      enc ← save_keyiv md nk enc;
      ok ← salloc;
      if negb ok then throw SSH_ERR_ALLOC_FAIL
      else
        b ← put_string (e_name enc) [];
        b ← put_u32 (z_of_bool (e_enabled enc)) b;
        b ← put_u32 (e_block_size enc) b;
        b ← put_bytes (e_key enc) (e_key_len enc) b;
        b ← put_bytes (e_iv enc) (e_iv_len enc) b;
        let mac := nk_mac nk in
        b ← (if cipher_authlen (e_cipher enc) =? 0 then
               b ← put_string (default [] (m_name mac)) b;
               b ← put_u32 (z_of_bool (m_enabled mac)) b;
               put_bytes (m_key mac) (m_key_len mac) b
             else mret b);
        b ← put_u32 (c_type (nk_comp nk)) b;
        b ← put_string (default [] (c_name (nk_comp nk))) b;
        put_string b m
  end.

Definition ENCODE_INT (v : Z) : Z := if v <? 0 then 0xFFFFFFFF else u32 v.
Definition DECODE_INT (v : Z) : Z := if v >? INT_MAX then -1 else v.

Definition put_counters (ps : packet_state) (m : list Z) : SM (list Z) :=
  m ← put_u32 (ps_seqnr ps) m;
  m ← put_u64 (ps_blocks ps) m;
  m ← put_u32 (ps_packets ps) m;
  put_u64 (ps_bytes ps) m.

Definition ssh_packet_get_state (m : list Z) : SM (list Z) :=
  k ← getkex;
  m ← kex_to_blob m k;
  m ← newkeys_to_blob m MODE_OUT;
  m ← newkeys_to_blob m MODE_IN;
  st ← getst;
  m ← put_u64 (st_rekey_limit st) m;
  m ← put_u32 (st_rekey_interval st) m;
  m ← put_counters (st_p_send st) m;
  m ← put_counters (st_p_read st) m;
  m ← put_string (st_input st) m;
  m ← put_string (st_output st) m;
  m ← put_u32 (ENCODE_INT (st_interactive_mode st)) m;
  m ← put_u32 (ENCODE_INT (st_qos_interactive st)) m;
  put_u32 (ENCODE_INT (st_qos_other st)) m.

(** [sshbuf_froms]. *)
Definition take_blob (m : list Z) : SM (list Z * list Z) := take_string m.

(** The cipher of a direction, checked against its table entry. *)
Definition enc_from_blob (b : list Z) : SM (sshenc * list Z) :=
  '(name, b) ← take_cstring b;
  '(enabled, b) ← take_u32 b;
  '(block_size, b) ← take_u32 b;
  '(key, b) ← take_string b;
  '(iv, b) ← take_string b;
  match cipher_by_name name with
  | None => throw SSH_ERR_INVALID_FORMAT
  | Some c =>
      if negb (block_size =? cipher_blocksize c) || cipher_is_internal c then throw SSH_ERR_INVALID_FORMAT
      else if negb (zlen key =? cipher_keylen c) || negb (zlen iv =? cipher_ivlen c) then throw SSH_ERR_INVALID_FORMAT
      else mret (mk_enc name c (bool_of_z enabled) (zlen key) (zlen iv) block_size (Some key) (Some iv), b)
  end.

Definition mac_from_blob (b : list Z) : SM (sshmac * list Z) :=
  '(name, b) ← take_cstring b;
  ok ← salloc;
  mac ← lift (mac_setup ok (mk_mac (Some name) false 0 None 0 0 false None None) name);
  '(enabled, b) ← take_u32 b;
  '(key, b) ← take_string b;
  if negb (zlen key =? m_key_len mac) then throw SSH_ERR_INVALID_FORMAT
  else mret (mk_mac (m_name mac) (bool_of_z enabled) (m_mac_len mac) (Some key) (zlen key) (m_type mac) (m_etm mac)
               (m_hmac_ctx mac) (m_umac_ctx mac), b).

Definition newkeys_from_blob (m : list Z) (md : mode) : SM (list Z) :=
  ok ← salloc;
  if negb ok then throw SSH_ERR_ALLOC_FAIL
  else
    '(b, m) ← take_blob m;
    '(enc, b) ← enc_from_blob b;
    '(mac, b) ← (if cipher_authlen (e_cipher enc) =? 0 then mac_from_blob b else mret (mac_zero, b));
    '(type, b) ← take_u32 b;
    '(name, b) ← take_cstring b;
    if negb (zlen b =? 0) then throw SSH_ERR_INVALID_FORMAT
    else
      _ ← getkex;
      modkex (set_k_newkeys md (Some (mk_newkeys (Some enc) mac (mk_comp type false (Some name)))));;
      mret m.

Fixpoint sallocs (n : nat) : SM bool :=
  match n with O => mret true | S n => ok ← salloc; if (ok : bool) then sallocs n else mret false end.

Definition kex_new : SM (option kex) :=
  ok ← sallocs 6; mret (if (ok : bool) then Some kex_zero else None).

(** The new key exchange replaces the old one. *)
Definition kex_from_blob (m : list Z) : SM (list Z) :=
  k ← kex_new;
  match k with
  | None => throw SSH_ERR_ALLOC_FAIL
  | Some k =>
      '(we_need, m) ← take_u32 m;
      '(hostkey_alg, m) ← take_cstring m;
      '(hostkey_type, m) ← take_u32 m;
      '(hostkey_nid, m) ← take_u32 m;
      '(kex_type, m) ← take_u32 m;
      '(kex_strict, m) ← take_u32 m;
      '(my, m) ← take_string m;
      '(peer, m) ← take_string m;
      '(client_version, m) ← take_string m;
      '(server_version, m) ← take_string m;
      '(session_id, m) ← take_string m;
      '(flags, m) ← take_u32 m;
      if we_need >? 1024 then throw SSH_ERR_INVALID_FORMAT
      else
        modssh (set_ssh_kex (Some (set_k_done true (set_k_server true (set_k_flags flags (set_k_session_id session_id
          (set_k_server_version server_version (set_k_client_version client_version (set_k_peer peer (set_k_my my
          (set_k_kex_strict (bool_of_z kex_strict) (set_k_kex_type kex_type
          (set_k_hostkey_nid (swrap 32 hostkey_nid) (set_k_hostkey_type (swrap 32 hostkey_type)
          (set_k_hostkey_alg (Some hostkey_alg) (set_k_we_need we_need k))))))))))))))));;
        mret m
  end.

(** The counters are assigned one by one: an error leaves the first ones. *)
Definition take_counters (md : mode) (m : list Z) : SM (list Z) :=
  '(v, m) ← take_u32 m; modst (mod_ps md (set_ps_seqnr v));;
  '(v, m) ← take_u64 m; modst (mod_ps md (set_ps_blocks v));;
  '(v, m) ← take_u32 m; modst (mod_ps md (set_ps_packets v));;
  '(v, m) ← take_u64 m; modst (mod_ps md (set_ps_bytes v));;
  mret m.

(** The part of [ssh_packet_set_state] after the keys are in place. *)
Definition restore_buffers (m : list Z) : SM unit :=
  modst (fun st => set_st_output [] (set_st_input [] st));;
  '(input, m) ← parsed (parse_string m);
  '(output, m) ← parsed (parse_string m);
  b ← buf_append [] input; modst (set_st_input b);;
  b ← buf_append [] output; modst (set_st_output b);;
  '(interactive, m) ← take_u32 m;
  '(qos_interactive, m) ← take_u32 m;
  '(qos_other, m) ← take_u32 m;
  modst (fun st => set_st_qos_other (DECODE_INT qos_other) (set_st_qos_interactive (DECODE_INT qos_interactive)
    (set_st_interactive_mode (DECODE_INT interactive) st)));;
  if negb (zlen m =? 0) then throw SSH_ERR_INVALID_FORMAT else mret tt.

Definition ssh_packet_set_state (m : list Z) : SM unit :=
  m ← kex_from_blob m;
  m ← newkeys_from_blob m MODE_OUT;
  m ← newkeys_from_blob m MODE_IN;
  '(v, m) ← take_u64 m; modst (set_st_rekey_limit v);;
  '(v, m) ← take_u32 m; modst (set_st_rekey_interval v);;
  m ← take_counters MODE_OUT m;
  m ← take_counters MODE_IN m;
  now ← monotime;
  modst (set_st_rekey_time now);;
  ssh_set_newkeys MODE_IN;;
  ssh_set_newkeys MODE_OUT;;
  ssh_packet_set_postauth;;
  restore_buffers m.
End PacketState.
