(* ===== verification/SshWp.v ===== *)
(** * Sample connections

    A libcrypto that refuses everything but digests, and a fresh connection on
    which computations run: the concrete states of the examples. *)

From S2P Require Import Prelude Hmac Cipher SshState Packet PacketState Ssherr Sshbuf.

(** libcrypto and zlib that refuse everything; chacha20-poly1305 needs neither. *)
Definition no_crypto : Crypto := {|
  evp := unit;
  EVP_CIPHER_CTX_new := None;
  EVP_CipherInit_iv _ _ _ _ := None;
  EVP_GCM_SET_IV_FIXED _ _ := None;
  EVP_key_length _ := 0;
  EVP_set_key_length _ _ := None;
  EVP_CipherInit_key _ _ := None;
  EVP_GCM_IV_GEN _ := None;
  EVP_GCM_SET_TAG _ _ := None;
  EVP_Cipher_aad _ _ := None;
  EVP_Cipher _ _ := None;
  EVP_Cipher_final _ := None;
  EVP_GCM_GET_TAG _ _ := None;
  EVP_iv_length _ := 0;
  EVP_get_iv _ _ := None;
  EVP_GCM_IV_READ _ _ := None;
  crypto_digests := toy_digests;
  umac _ _ _ := [];
  umac128 _ _ _ := [];
  z_stream := unit;
  deflateInit _ := (Z_STREAM_ERROR, tt);
  inflateInit := (Z_STREAM_ERROR, tt);
  z_input _ _ := tt;
  deflate _ _ := (Z_STREAM_ERROR, [], tt);
  inflate _ _ := (Z_STREAM_ERROR, [], tt)
|}.

#[local] Existing Instance no_crypto.

(** The state a computation leaves behind, from a fresh connection. *)
Definition sample_env : environment := mk_env [] (map Z.of_nat (seq 3 40)) [] [] 0.
Definition fresh {A} (m : M ssh A) : ssh :=
  match ssh_alloc_session_state true sample_env with Some s => (m s).2 | None => mk_sshc state_zero None [] 0 0 [] [] [] [] [] 0 end.

(** * Reasoning about runs that succeed

    A weakest precondition for computations on the connection state: what holds
    of the result and the state whenever the computation returns without an
    error.  Most steps of the key exchange only change [ssh->kex]; [with_kex]
    describes a state that differs in it. *)

Section SshWp.
Context {CR : Crypto}.

Abbreviation SM := (M ssh).

(** ** Runs that succeed *)

Definition swp {A} (m : SM A) (Q : A -> ssh -> Prop) (s : ssh) : Prop :=
  forall a s', m s = (Ok a, s') -> Q a s'.

Section Rules.
Context {A B : Type}.
Implicit Types (m : SM A) (k : A -> SM B).

Lemma swp_bind m k Q s : swp m (fun a s' => swp (k a) Q s') s -> swp (m ≫= k) Q s.
Proof. intros H b s'' E. destruct (bind_inv_ok _ _ _ _ _ E) as (a & s' & E1 & E2). exact (H a s' E1 b s'' E2). Qed.

Lemma swp_ret (a : A) (Q : A -> ssh -> Prop) s : Q a s -> swp (mret a) Q s.
Proof. intros H a' s' E. by injection E as <- <-. Qed.

Lemma swp_throw e (Q : A -> ssh -> Prop) s : swp (throw e) Q s.
Proof. intros a s' E. done. Qed.

Lemma swp_mono m (P Q : A -> ssh -> Prop) s : (forall a s', P a s' -> Q a s') -> swp m P s -> swp m Q s.
Proof. intros H W a s' E. eauto. Qed.

Lemma swp_catch m h (Q : A -> ssh -> Prop) s : swp m Q s -> (forall e s', swp (h e) Q s') -> swp (catch m h) Q s.
Proof. intros W H a s' E. unfold catch in E. destruct (m s) as [[a1|e|] s1] eqn:E1; [|by eapply H|done]. injection E as <- <-. eauto. Qed.
End Rules.

Lemma swp_salloc (Q : bool -> ssh -> Prop) s : (forall b o, Q b (set_ssh_oom o s)) -> swp salloc Q s.
Proof. intros H a s' [= <- <-]. apply H. Qed.
Lemma swp_getst (Q : session_state -> ssh -> Prop) s : Q (ssh_state s) s -> swp getst Q s.
Proof. intros H a s' [= <- <-]. apply H. Qed.
Lemma swp_getkex (Q : kex -> ssh -> Prop) s : (forall k, ssh_kex s = Some k -> Q k s) -> swp getkex Q s.
Proof. intros H a s' E. unfold getkex in E. destruct (ssh_kex s); [|done]. injection E as <- <-. by apply H. Qed.
Lemma swp_modkex f (Q : unit -> ssh -> Prop) s : Q tt (set_ssh_kex (f <$> ssh_kex s) s) -> swp (modkex f) Q s.
Proof. intros H [] s' [= <-]. apply H. Qed.
Lemma swp_modssh f (Q : unit -> ssh -> Prop) s : Q tt (f s) -> swp (modssh f) Q s.
Proof. intros H [] s' [= <-]. apply H. Qed.
Lemma swp_lift {A} (x : A + Z) (Q : A -> ssh -> Prop) s : (forall a, x = inl a -> Q a s) -> swp (lift x) Q s.
Proof. intros H a s' E. destruct x; [|done]. injection E as <- <-. by apply H. Qed.
Lemma swp_append b bs (Q : list Z -> ssh -> Prop) s : (forall o, Q (b ++ bs) (set_ssh_oom o s)) -> swp (buf_append b bs) Q s.
Proof.
  intros H. unfold buf_append. destruct (_ >? _); [apply swp_throw|]. apply swp_bind, swp_salloc. intros [] o; [|apply swp_throw].
  apply swp_ret, H.
Qed.
Lemma swp_consume b n (Q : list Z -> ssh -> Prop) s : (n <= zlen b -> Q (drop (Z.to_nat n) b) s) -> swp (buf_consume b n) Q s.
Proof. intros H. unfold buf_consume. destruct (Z.gtb_spec n (zlen b)); [apply swp_throw|]. apply swp_ret, H. lia. Qed.

(** States that differ in the answers left of the allocator. *)
Definition same_but_oom (s s' : ssh) : Prop := exists o, s' = set_ssh_oom o s.

Lemma same_oom_refl s : same_but_oom s s.
Proof. exists (ssh_oom s). by destruct s. Qed.

Lemma same_oom_step s o s' : same_but_oom (set_ssh_oom o s) s' -> same_but_oom s s'.
Proof. intros [o' ->]. by exists o'. Qed.

(** The state with another key exchange, and other answers of the allocator. *)
Definition with_kex (s : ssh) (k : kex) (s' : ssh) : Prop := exists o, s' = set_ssh_oom o (set_ssh_kex (Some k) s).

Lemma with_kex_self s k : ssh_kex s = Some k -> with_kex s k s.
Proof. intros K. exists (ssh_oom s). destruct s. cbn in *. by rewrite K. Qed.

Lemma with_kex_trans s k s1 k1 s2 : with_kex s k s1 -> with_kex s1 k1 s2 -> with_kex s k1 s2.
Proof. intros [o ->] [o1 ->]. by exists o1. Qed.

Lemma with_kex_get s k s1 : with_kex s k s1 -> ssh_kex s1 = Some k.
Proof. by intros [o ->]. Qed.

Section Step.
Context (s0 : ssh) (k : kex) (s : ssh) (W : with_kex s0 k s).

Lemma step_getkex (Q : kex -> ssh -> Prop) : Q k s -> swp getkex Q s.
Proof using W. intros H. apply swp_getkex. intros k1 E. rewrite (with_kex_get _ _ _ W) in E. by simplify_eq. Qed.

Lemma step_modkex f (Q : unit -> ssh -> Prop) : (forall s', with_kex s0 (f k) s' -> Q tt s') -> swp (modkex f) Q s.
Proof using W. intros H. apply swp_modkex, H. rewrite (with_kex_get _ _ _ W). destruct W as [o ->]. by exists o. Qed.

Lemma step_salloc (Q : bool -> ssh -> Prop) : (forall b s', with_kex s0 k s' -> Q b s') -> swp salloc Q s.
Proof using W. intros H. apply swp_salloc. intros b o. apply H. destruct W as [o1 ->]. by exists o. Qed.

Lemma step_oom s' : same_but_oom s s' -> with_kex s0 k s'.
Proof using W. intros [o ->]. destruct W as [o1 ->]. by exists o. Qed.
End Step.

(** Changes of the session state. *)
Lemma swp_modst f (Q : unit -> ssh -> Prop) s : Q tt (set_ssh_state (f (ssh_state s)) s) -> swp (modst f) Q s.
Proof. intros H [] s' [= <-]. apply H. Qed.
End SshWp.
