(* ===== verification/PacketFuel.v ===== *)
(** * Sending terminates: the loops and the recursion of [packet.c]

    [ssh_packet_send2] calls [kex_start_rekex], which calls it again; a
    compressed packet is produced in rounds, the queue is sent in a loop.  The
    fuel given to each is enough, whatever the state. *)

From S2P Require Import Prelude Ssherr Cstring Match KexNames Hmac ChachaPoly Cipher SshState Packet PacketRead.
From S2P Require Import Sshbuf SshbufGetput.

(** ** Computations that never run out of fuel *)

Definition fueled {St A} (m : M St A) : Prop := forall s s', m s <> (Err OUT_OF_FUEL, s').

Section Rules.
Context {St : Type}.
Abbreviation SM := (M St).

Lemma fueled_ret {A} (a : A) : fueled (mret a : SM A).
Proof. intros s s'. done. Qed.
Lemma fueled_throw {A} e : e <> OUT_OF_FUEL -> fueled (throw e : SM A).
Proof. intros He s s' [= ?]. done. Qed.
Lemma fueled_crash {A} : fueled (crash : SM A).
Proof. intros s s'. done. Qed.
Lemma fueled_bind {A B} (m : SM A) (k : A -> SM B) : fueled m -> (forall a, fueled (k a)) -> fueled (m ≫= k).
Proof.
  intros Hm Hk s s'. unfold mbind, M_bind. specialize (Hm s). destruct (m s) as [[a|e|] s1]; [apply Hk| |done].
  intros [= -> ->]. by apply (Hm s').
Qed.
Lemma fueled_catch {A} (m : SM A) k : fueled m -> (forall e, fueled (k e)) -> fueled (catch m k).
Proof. intros Hm Hk s s'. unfold catch. specialize (Hm s). destruct (m s) as [[a|e|] s1]; [done|apply Hk|done]. Qed.
Lemma fueled_try {A} (m : SM A) : fueled (try_ m).
Proof. intros s s'. unfold try_. by destruct (m s) as [[a|e|] s1]. Qed.
Lemma fueled_get : fueled (get_st : SM St).
Proof. intros s s'. done. Qed.
Lemma fueled_put s0 : fueled (put_st s0 : SM unit).
Proof. intros s s'. done. Qed.
Lemma fueled_gets {A} (f : St -> A) : fueled (gets f).
Proof. intros s s'. done. Qed.
Lemma fueled_check b e : e <> OUT_OF_FUEL -> fueled (check b e : SM unit).
Proof. intros He. unfold check. destruct b; [apply fueled_ret|by apply fueled_throw]. Qed.
End Rules.

Create HintDb fuel.
#[export] Hint Resolve fueled_ret fueled_crash fueled_bind fueled_catch fueled_try fueled_get fueled_put fueled_gets : fuel.
#[export] Hint Extern 1 (fueled (throw _)) => (apply fueled_throw; repeat case_match; discriminate) : fuel.
#[export] Hint Extern 1 (fueled (check _ _)) => (apply fueled_check; discriminate) : fuel.

(** Walks through a computation, splitting its cases. *)
Ltac fuel :=
  repeat first
    [ progress intros
    | solve [auto 1 with fuel]
    | apply fueled_bind
    | apply fueled_catch
    | match goal with
      | |- fueled (match ?x with _ => _ end) => destruct x
      | |- fueled (let '_ := ?x in _) => destruct x
      end ].

Section Fuel.
Context {CR : Crypto}.
Abbreviation SM := (M ssh).

Lemma fueled_modst f : fueled (modst f).
Proof. intros s s'. done. Qed.
Lemma fueled_modkex f : fueled (modkex f).
Proof. intros s s'. done. Qed.
Lemma fueled_getst : fueled getst.
Proof. intros s s'. done. Qed.
Lemma fueled_getkex : fueled getkex.
Proof. intros s s'. unfold getkex. by destruct (ssh_kex s). Qed.
Lemma fueled_salloc : fueled salloc.
Proof. intros s s'. done. Qed.
Lemma fueled_rnd n : fueled (arc4random_buf n).
Proof. intros s s'. done. Qed.
Lemma fueled_monotime : fueled monotime.
Proof. intros s s'. done. Qed.
Lemma fueled_lift {A} (x : A + Z) : x <> inr OUT_OF_FUEL -> fueled (lift x).
Proof. destruct x as [a|e]; intros Hx s s'; cbn; [done|]. intros [= ->]. done. Qed.
Hint Resolve fueled_modst fueled_modkex fueled_getst fueled_getkex fueled_salloc fueled_rnd fueled_monotime : fuel.

Lemma fueled_append b bs : fueled (buf_append b bs).
Proof. unfold buf_append. fuel. Qed.
Lemma fueled_consume b n : fueled (buf_consume b n).
Proof. unfold buf_consume. fuel. Qed.
Lemma fueled_consume_end b n : fueled (buf_consume_end b n).
Proof. unfold buf_consume_end. fuel. Qed.
Lemma fueled_keys nk : fueled (keys_of nk).
Proof. unfold keys_of, enc_of. fuel. Qed.
Lemma fueled_disconnect {A} : fueled (ssh_packet_disconnect : SM A).
Proof. unfold ssh_packet_disconnect. fuel. Qed.
Hint Resolve fueled_append fueled_consume fueled_consume_end fueled_keys fueled_disconnect : fuel.

(** ** Loops *)

Lemma fueled_bind_val {A B} (m : SM A) (k : A -> SM B) :
  fueled m -> (forall s a s', m s = (Ok a, s') -> fueled (k a)) -> fueled (m ≫= k).
Proof.
  intros Hm Hk s s'. unfold mbind, M_bind. specialize (Hm s).
  destruct (m s) as [[a|e|] s1] eqn:E; [by eapply Hk| |done]. intros [= -> ->]. by apply (Hm s').
Qed.

Lemma buf_append_ok b bs s b' s' : buf_append b bs s = (Ok b', s') -> b' = b ++ bs /\ zlen b' <= SSHBUF_SIZE_MAX.
Proof.
  unfold buf_append. destruct (Z.gtb_spec (zlen b + zlen bs) SSHBUF_SIZE_MAX); [done|].
  unfold mbind, M_bind, salloc. destruct (hd true (ssh_oom s)); [|done]. intros [= <- <-]. rewrite zlen_app. auto.
Qed.

(** A round that fills the buffer adds 4096 bytes to an output of at most 128 MB. *)
Lemma fueled_compress_loop fuel : forall zs out, zlen out <= SSHBUF_SIZE_MAX ->
  SSHBUF_SIZE_MAX < zlen out + Z.of_nat fuel * Z_BUF -> fueled (compress_loop fuel zs out).
Proof.
  induction fuel as [|fuel IH]; intros zs out Ho Hf; [lia|]. cbn [compress_loop].
  destruct (deflate zs Z_BUF) as [[status chunk] zs']. apply fueled_bind; [auto with fuel|]. intros _.
  destruct status; try solve [fuel].
  apply fueled_bind_val; [auto with fuel|]. intros s out' s' E. destruct (buf_append_ok _ _ _ _ _ E) as [-> Hl].
  destruct (Z.eqb_spec (zlen chunk) Z_BUF) as [Hc|]; [|fuel]. apply IH; [done|]. rewrite zlen_app. lia.
Qed.

Lemma fueled_compress inp : fueled (compress_buffer inp []).
Proof.
  unfold compress_buffer. apply fueled_bind; [auto with fuel|]. intros st.
  destruct (negb _); [fuel|]. destruct (zlen inp =? 0); [fuel|]. destruct (st_compression_out_stream st); [|fuel].
  apply fueled_bind; [|fuel]. apply fueled_compress_loop; [done|].
  unfold COMPRESS_ROUNDS, SSHBUF_SIZE_MAX, Z_BUF. rewrite Z2Nat.id, zlen_nil; lia.
Qed.
Hint Resolve fueled_compress : fuel.

(** ** Keys and ciphers *)

Lemma fueled_start_compression m : fueled (start_compression m).
Proof.
  unfold start_compression, ssh_packet_init_compression, start_compression_in, start_compression_out. fuel.
Qed.
Hint Resolve fueled_start_compression : fuel.

Lemma mac_compute_err m seq data n : mac_compute m seq data n <> inr OUT_OF_FUEL.
Proof. unfold mac_compute. repeat case_match; done. Qed.
Lemma mac_init_err ok m : mac_init ok m <> inr OUT_OF_FUEL.
Proof. unfold mac_init. repeat case_match; done. Qed.
Lemma cipher_init_err ok ok2 c key kl iv il e : cipher_init ok ok2 c key kl iv il e <> inr OUT_OF_FUEL.
Proof.
  unfold cipher_init, evp_setup, Cipher.bind_err, or_err.
  repeat (case_match; simplify_eq; try done).
Qed.
Hint Extern 1 (fueled (lift _)) => (apply fueled_lift; first [apply mac_compute_err | apply mac_init_err | apply cipher_init_err]) : fuel.

Lemma fueled_cipher_crypt seq src len aad auth : fueled (cipher_crypt seq src len aad auth).
Proof.
  unfold cipher_crypt, evp_call, evp_call_out, when. apply fueled_bind; [auto with fuel|]. intros cc.
  destruct (has_flag _ _).
  - destruct (cc_cp cc); [|fuel]. destruct (chachapoly_crypt _ _ _ _ _ _) as [r c'] eqn:E.
    assert (r <> Err OUT_OF_FUEL) as Hr; [|destruct r; fuel; apply fueled_throw; congruence].
    unfold chachapoly_crypt in E. repeat case_match; simplify_eq; done.
  - fuel.
Qed.

Lemma fueled_on_send {A} (m : M sshcipher_ctx A) : fueled m -> fueled (on_send m).
Proof.
  intros Hm s s'. unfold on_send. destruct (st_send_context _) as [cc|]; [|done].
  specialize (Hm cc). destruct (m cc) as [r cc']. intros [= -> _]. by apply (Hm cc').
Qed.
Hint Extern 1 (fueled (on_send _)) => (apply fueled_on_send, fueled_cipher_crypt) : fuel.

Lemma fueled_set_newkeys m : fueled (ssh_set_newkeys m).
Proof. unfold ssh_set_newkeys, enc_of. fuel. Qed.
Lemma fueled_delayed m : fueled (delayed_compress_mode m).
Proof. unfold delayed_compress_mode. fuel. Qed.
Hint Resolve fueled_set_newkeys fueled_delayed : fuel.

Lemma fueled_wrapped : fueled ssh_packet_send2_wrapped.
Proof.
  unfold ssh_packet_send2_wrapped, emit_packet, packet_sent, compress_payload, add_padding, encrypt_packet, count_packet,
    ssh_packet_enable_delayed_compress. fuel.
Qed.
Hint Resolve fueled_wrapped : fuel.

(** ** The queue *)

(** Computations that leave the observation [f] of the state alone. *)
Definition keeps {A B} (f : ssh -> B) (m : SM A) : Prop := forall s, f (m s).2 = f s.

Section Keeps.
Context {B : Type} (f : ssh -> B).

Lemma keeps_ret {A} (a : A) : keeps f (mret a).
Proof. done. Qed.
Lemma keeps_throw {A} e : keeps f (throw e : SM A).
Proof. done. Qed.
Lemma keeps_crash {A} : keeps f (crash : SM A).
Proof. done. Qed.
Lemma keeps_bind {A C} (m : SM A) (k : A -> SM C) : keeps f m -> (forall a, keeps f (k a)) -> keeps f (m ≫= k).
Proof.
  intros Hm Hk s. unfold mbind, M_bind. specialize (Hm s). destruct (m s) as [[a|e|] s1]; [|done..].
  by rewrite Hk.
Qed.
Lemma keeps_getst : keeps f getst.
Proof. done. Qed.
Lemma keeps_get : keeps f (get_st : SM ssh).
Proof. done. Qed.
Lemma keeps_getkex : keeps f getkex.
Proof. intros s. unfold getkex. by destruct (ssh_kex s). Qed.
Lemma keeps_lift {A} (x : A + Z) : keeps f (lift x).
Proof. by destruct x. Qed.
End Keeps.

#[local] Create HintDb keep.

(** The messages held back. *)
Definition queue_of (s : ssh) : list (Z * list Z) := st_outgoing (ssh_state s).

Lemma keeps_salloc : keeps queue_of salloc.
Proof. done. Qed.
Lemma keeps_rnd n : keeps queue_of (arc4random_buf n).
Proof. done. Qed.
Lemma keeps_modkex g : keeps queue_of (modkex g).
Proof. done. Qed.
Lemma keeps_append b bs : keeps queue_of (buf_append b bs).
Proof.
  unfold buf_append. destruct (_ >? _); [done|]. apply keeps_bind; [done|]. by intros [].
Qed.
Lemma keeps_consume b n : keeps queue_of (buf_consume b n).
Proof. unfold buf_consume. by destruct (_ >? _). Qed.
Lemma keeps_on_send {A} (m : M sshcipher_ctx A) : keeps queue_of (on_send m).
Proof. intros s. unfold on_send. destruct (st_send_context _); [|done]. by destruct (m _). Qed.
Lemma keeps_modst g : (forall st, st_outgoing (g st) = st_outgoing st) -> keeps queue_of (modst g).
Proof. intros Hg s. apply Hg. Qed.
Hint Resolve keeps_ret keeps_throw keeps_crash keeps_getst keeps_get keeps_getkex keeps_lift keeps_salloc keeps_rnd
  keeps_modkex keeps_append keeps_consume keeps_on_send : keep.
Hint Extern 1 (keeps queue_of (modst _)) => (apply keeps_modst; intros; unfold mod_ps; repeat case_match; reflexivity) : keep.

Ltac keep :=
  repeat first
    [ progress intros
    | solve [auto 1 with keep]
    | apply keeps_bind
    | match goal with
      | |- keeps _ (match ?x with _ => _ end) => destruct x
      | |- keeps _ (let '_ := ?x in _) => destruct x
      end ].

Lemma keeps_compress_loop fuel : forall zs out, keeps queue_of (compress_loop fuel zs out).
Proof. induction fuel as [|fuel IH]; intros zs out; cbn [compress_loop]; [keep|]. keep; apply IH. Qed.
Hint Resolve keeps_compress_loop : keep.

Lemma keeps_compress inp out : keeps queue_of (compress_buffer inp out).
Proof. unfold compress_buffer. keep. Qed.
Lemma keeps_start_compression m : keeps queue_of (start_compression m).
Proof.
  unfold start_compression, ssh_packet_init_compression, start_compression_in, start_compression_out. keep.
Qed.
Hint Resolve keeps_compress keeps_start_compression : keep.

Lemma keeps_set_newkeys m : keeps queue_of (ssh_set_newkeys m).
Proof.
  unfold ssh_set_newkeys, enc_of, set_st_newkeys, set_st_context, set_st_hard_max_blocks, set_st_max_blocks. keep.
Qed.
Lemma keeps_delayed m : keeps queue_of (delayed_compress_mode m).
Proof. unfold delayed_compress_mode, set_st_newkeys. keep. Qed.
Hint Resolve keeps_set_newkeys keeps_delayed : keep.

Lemma keeps_wrapped : keeps queue_of ssh_packet_send2_wrapped.
Proof.
  unfold ssh_packet_send2_wrapped, emit_packet, packet_sent, keys_of, enc_of, compress_payload, add_padding, encrypt_packet, count_packet,
    ssh_packet_disconnect, ssh_packet_enable_delayed_compress. keep.
Qed.

(** As many rounds as there are messages. *)
Lemma fueled_send_queue rekex : fueled rekex -> forall fuel s s', (length (queue_of s) <= fuel)%nat ->
  send_queue fuel rekex s <> (Err OUT_OF_FUEL, s').
Proof.
  intros Hr. induction fuel as [|fuel IH]; intros s s' Hl; cbn [send_queue];
    rewrite (bind_ok _ _ s (ssh_state s) s) by done; unfold queue_of in Hl;
    (destruct (st_outgoing (ssh_state s)) as [|[t payload] rest]; [done|]); cbn [length] in Hl; [lia|].
  rewrite (bind_ok _ _ s s s) by done. destruct (ssh_packet_need_rekeying _ s); [apply Hr|].
  set (s1 := set_ssh_state (set_st_outgoing_packet payload (ssh_state s)) s).
  rewrite (bind_ok _ _ s tt s1) by done.
  set (s2 := set_ssh_state (set_st_outgoing rest (ssh_state s1)) s1).
  rewrite (bind_ok _ _ s1 tt s2) by done.
  pose proof (keeps_wrapped s2) as K. pose proof (fueled_wrapped s2) as F.
  unfold mbind at 1, M_bind at 1. destruct (ssh_packet_send2_wrapped s2) as [[[]|e|] s3]; cbn [snd] in K; [|congruence|done].
  apply IH. rewrite K. change (queue_of s2) with rest. lia.
Qed.

(** ** The recursion *)

Lemma fueled_send2_body rekex : fueled rekex -> fueled (send2_body rekex).
Proof.
  intros Hr. unfold send2_body, ssh_packet_check_rekey_preauth.
  apply fueled_bind; [auto with fuel|]. intros st. destruct (_ <? 6); [fuel|].
  apply fueled_bind; [auto with fuel|]. intros s.
  apply fueled_bind; [fuel|]. intros _. destruct (_ && _); [fuel|].
  apply fueled_bind; [fuel|]. intros _. apply fueled_bind; [fuel|]. intros _. destruct (_ =? _); [|fuel].
  do 3 (apply fueled_bind; [fuel|]; intros ?).
  intros s1 s2. rewrite (bind_ok _ _ s1 (ssh_state s1) s1) by done. by apply fueled_send_queue.
Qed.

Lemma fueled_sshpkt_put bs : fueled (sshpkt_put bs).
Proof. unfold sshpkt_put. fuel. Qed.
Hint Resolve fueled_sshpkt_put : fuel.

Lemma fueled_start_rekex send : fueled send -> fueled (kex_start_rekex send).
Proof.
  intros Hs. unfold kex_start_rekex, kex_send_kexinit, sshpkt_start, sshpkt_putb. fuel.
Qed.

(** A KEXINIT is sent at once: it never starts another exchange. *)
Lemma send2_body_kexinit r1 r2 s : packet_type (st_outgoing_packet (ssh_state s)) = SSH2_MSG_KEXINIT ->
  send2_body r1 s = send2_body r2 s.
Proof.
  intros Ht. unfold send2_body. rewrite !(bind_ok _ _ s (ssh_state s) s) by done. rewrite Ht.
  destruct (_ <? 6); [done|]. rewrite !(bind_ok _ _ s s s) by done.
  change (ssh_packet_type_is_kex SSH2_MSG_KEXINIT) with true. cbn [negb andb]. by rewrite !andb_false_r.
Qed.

Lemma bind_ext {A B} (m : SM A) (k1 k2 : A -> SM B) s :
  (forall a s', m s = (Ok a, s') -> k1 a s' = k2 a s') -> (m ≫= k1) s = (m ≫= k2) s.
Proof. intros H. unfold mbind, M_bind. destruct (m s) as [[a|e|] s'] eqn:E; auto. Qed.

Lemma start_outgoing t s s' : sshpkt_start t s = (Ok tt, s') ->
  st_outgoing_packet (ssh_state s') = [0; 0; 0; 0; 0; u8 t].
Proof.
  unfold sshpkt_start, buf_append. rewrite (bind_ok _ _ s tt (set_ssh_state (set_st_outgoing_packet [] (ssh_state s)) s)) by done.
  cbn [app]. change (zlen [] + zlen [0; 0; 0; 0; 0; u8 t] >? SSHBUF_SIZE_MAX) with false. cbv beta iota.
  unfold salloc, mbind, M_bind, mret, M_ret, throw, modst. destruct (hd true _); intros [= <-]; done.
Qed.

Lemma put_outgoing bs s s' : sshpkt_put bs s = (Ok tt, s') ->
  st_outgoing_packet (ssh_state s') = st_outgoing_packet (ssh_state s) ++ bs.
Proof.
  unfold sshpkt_put. rewrite (bind_ok _ _ s (ssh_state s) s) by done. intros H.
  destruct (bind_inv_ok _ _ _ _ _ H) as (b & s1 & E & H1). destruct (buf_append_ok _ _ _ _ _ E) as [-> _].
  injection H1 as <-. done.
Qed.

Lemma kex_send_kexinit_ext send1 send2 s :
  (forall s, packet_type (st_outgoing_packet (ssh_state s)) = SSH2_MSG_KEXINIT -> send1 s = send2 s) ->
  kex_send_kexinit send1 s = kex_send_kexinit send2 s.
Proof.
  intros Hs. unfold kex_send_kexinit. rewrite !(bind_ok _ _ s s s) by done.
  destruct (ssh_kex s) as [k|]; [|done]. destruct (flag_set _ _); [done|].
  apply bind_ext. intros _ s1 _. destruct (_ <? _); [done|].
  do 2 (apply bind_ext; intros ? ? _). apply bind_ext. intros [] s2 E. apply bind_ext. intros k' s3 Ek.
  apply bind_ext. intros [] s4 Ep. unfold mbind, M_bind. rewrite Hs; [done|].
  assert (s3 = s2) as -> by (unfold getkex in Ek; destruct (ssh_kex s2); by simplify_eq).
  by rewrite (put_outgoing _ _ _ Ep), (start_outgoing _ _ _ E).
Qed.

Lemma start_rekex_ext r1 r2 s : kex_start_rekex (send2_body r1) s = kex_start_rekex (send2_body r2) s.
Proof.
  unfold kex_start_rekex. rewrite !(bind_ok _ _ s s s) by done. destruct (ssh_kex s) as [k|]; [|done].
  destruct (negb _); [done|]. apply bind_ext. intros _ s1 _. apply kex_send_kexinit_ext.
  intros s2 Ht. by apply send2_body_kexinit.
Qed.

Lemma send_queue_ext r1 r2 : (forall s, r1 s = r2 s) -> forall fuel s, send_queue fuel r1 s = send_queue fuel r2 s.
Proof.
  intros Hr. induction fuel as [|fuel IH]; intros s; cbn [send_queue]; apply bind_ext; intros st s1 _.
  - done.
  - destruct (st_outgoing st) as [|[t payload] rest]; [done|]. apply bind_ext. intros s' s2 _.
    destruct (ssh_packet_need_rekeying _ _); [apply Hr|]. do 3 (apply bind_ext; intros ? ? _). apply IH.
Qed.

Lemma send2_body_ext r1 r2 s : (forall s, r1 s = r2 s) -> send2_body r1 s = send2_body r2 s.
Proof.
  intros Hr. unfold send2_body. apply bind_ext. intros st s1 _. destruct (_ <? 6); [done|].
  do 2 (apply bind_ext; intros ? ? _). destruct (_ && _).
  - apply bind_ext. intros ok s2 _. destruct (negb ok); [done|]. do 3 (apply bind_ext; intros ? ? _).
    destruct (negb _); [done|]. destruct (_ && _); [apply Hr|done].
  - do 2 (apply bind_ext; intros ? ? _). destruct (_ =? _); [|done]. do 4 (apply bind_ext; intros ? ? _).
    by apply send_queue_ext.
Qed.

Lemma fueled_rekex r : fueled (kex_start_rekex (send2_body r)).
Proof.
  intros s s'. rewrite (start_rekex_ext r crash). apply fueled_start_rekex, fueled_send2_body, fueled_crash.
Qed.

(** C28: Sending a packet ends.  The recursion of [ssh_packet_send2] through
    [kex_start_rekex] is at most two levels deep (any deeper bound computes the
    same), the queue is sent in as many rounds as it has packets, compression
    stops when its output is full: no bound of the model is ever exhausted. *)
Theorem send2_terminates n s :
  send2_fuel (S n) s = ssh_packet_send2 s /\ (forall s', ssh_packet_send2 s <> (Err OUT_OF_FUEL, s')).
Proof.
  split.
  - unfold ssh_packet_send2. cbn [send2_fuel]. apply send2_body_ext. intros s1.
    destruct n; cbn [send2_fuel]; apply start_rekex_ext.
  - unfold ssh_packet_send2. cbn [send2_fuel]. apply fueled_send2_body, fueled_rekex.
Qed.
End Fuel.
