(* ===== verification/CipherLink.v ===== *)
(** * Two ends of a cipher

    What the packet layer needs of the two cipher contexts of a direction: what
    one encrypts the other decrypts, in the pieces the receiver asks for, and
    the two stay together.  [Link] is that contract for the keys of a direction;
    chacha20-poly1305, the null cipher, and libcrypto's stream and GCM ciphers
    (the last two under what libcrypto documents) satisfy it. *)

From S2P Require Import Prelude Ssherr Cstring Match KexNames Hmac ChachaPoly Cipher SshState Packet.
From S2P Require Import Sshbuf SshbufGetput.

Section Link.
Context {CR : Crypto}.

(** [sy sc rc]: the sender's context [sc] and the receiver's [rc] are at the
    same packet. *)
Class Link (ks : keys) (sy : sshcipher_ctx -> sshcipher_ctx -> Prop) := {
  (* a packet that was encrypted *)
  link_length : forall sc rc seq pkt ct sc', sy sc rc -> bytes_ok pkt ->
    ks_aadlen ks <= zlen pkt -> (zlen pkt - ks_aadlen ks) mod ks_block_size ks = 0 ->
    cipher_crypt seq pkt (zlen pkt - ks_aadlen ks) (ks_aadlen ks) (ks_authlen ks) sc = (Ok ct, sc') ->
    zlen ct = zlen pkt + ks_authlen ks;
  (* decrypted in one call after its length was read, when the length is
     additional data *)
  link_open : forall sc rc seq pkt ct sc' rest, sy sc rc -> bytes_ok pkt -> ks_aadlen ks = 4 ->
    4 <= zlen pkt -> (zlen pkt - 4) mod ks_block_size ks = 0 ->
    cipher_crypt seq pkt (zlen pkt - 4) 4 (ks_authlen ks) sc = (Ok ct, sc') ->
    exists rc', cipher_crypt seq (ct ++ rest) (zlen pkt - 4) 4 (ks_authlen ks) rc = (Ok pkt, rc') /\ sy sc' rc';
  link_get_length : forall sc rc seq pkt ct sc' p, sy sc rc -> bytes_ok pkt -> ks_aadlen ks = 4 ->
    4 <= zlen pkt -> (zlen pkt - 4) mod ks_block_size ks = 0 ->
    cipher_crypt seq pkt (zlen pkt - 4) 4 (ks_authlen ks) sc = (Ok ct, sc') ->
    take 4 p = take 4 ct -> 4 <= zlen p ->
    exists rc', cipher_get_length seq p (zlen p) rc = (Ok (PEEK_U32 pkt), rc') /\ sy sc rc';
  link_short : forall sc rc seq p, sy sc rc -> ks_aadlen ks = 4 -> zlen p < 4 ->
    exists e rc', cipher_get_length seq p (zlen p) rc = (Err e, rc') /\ sy sc rc';
  (* or in two calls, the first block and the rest; whatever sequence number
     the first is given *)
  link_split : forall sc rc seq seq1 pkt ct sc' rest1, sy sc rc -> bytes_ok pkt -> ks_aadlen ks = 0 ->
    let bs := ks_block_size ks in
    0 < bs <= zlen pkt -> zlen pkt mod bs = 0 ->
    cipher_crypt seq pkt (zlen pkt) 0 (ks_authlen ks) sc = (Ok ct, sc') ->
    exists rc1,
      cipher_crypt seq1 (take (Z.to_nat bs) ct ++ rest1) bs 0 0 rc = (Ok (take (Z.to_nat bs) pkt), rc1) /\
      forall rest2, exists rc',
        cipher_crypt seq (drop (Z.to_nat bs) ct ++ rest2) (zlen pkt - bs) 0 0 rc1 = (Ok (drop (Z.to_nat bs) pkt), rc') /\
        sy sc' rc'
}.

(** ** chacha20-poly1305 *)

Inductive chacha_sync : sshcipher_ctx -> sshcipher_ctx -> Prop :=
| chacha_synced c c' ps pr es er cp cp' :
    has_flag c CFLAG_CHACHAPOLY = true -> has_flag c' CFLAG_CHACHAPOLY = true -> same_key cp cp' ->
    chacha_sync (mk_cctx ps true es (Some cp) c) (mk_cctx pr false er (Some cp') c').

Section Chacha.
Context (ks : keys).
Hypothesis Hauth : ks_authlen ks = 16.
Hypothesis Haad : ks_aadlen ks = 4.

Lemma run_chacha_crypt ps e es cp c seq src len aad auth : has_flag c CFLAG_CHACHAPOLY = true ->
  cipher_crypt seq src len aad auth (mk_cctx ps e es (Some cp) c) =
  let '(r, cp') := chachapoly_crypt cp seq src (Z.to_nat len) (Z.to_nat aad) e in
  match r with
  | Crash => (Crash, mk_cctx ps e es (Some cp) c)
  | _ => (r, mk_cctx ps e es (Some cp') c)
  end.
Proof.
  intros Hf. unfold cipher_crypt. rewrite (bind_ok _ _ _ (mk_cctx ps e es (Some cp) c) (mk_cctx ps e es (Some cp) c)) by done.
  cbn [cc_cipher cc_cp cc_encrypt]. rewrite Hf. destruct (chachapoly_crypt _ _ _ _ _ _) as [[x|x|] cp']; reflexivity.
Qed.

Lemma run_chacha_length ps e es cp c seq src len : has_flag c CFLAG_CHACHAPOLY = true ->
  cipher_get_length seq src len (mk_cctx ps e es (Some cp) c) =
  let '(r, cp') := chachapoly_get_length cp seq src len in
  match r with
  | Crash => (Crash, mk_cctx ps e es (Some cp) c)
  | _ => (r, mk_cctx ps e es (Some cp') c)
  end.
Proof.
  intros Hf. unfold cipher_get_length. rewrite (bind_ok _ _ _ (mk_cctx ps e es (Some cp) c) (mk_cctx ps e es (Some cp) c)) by done.
  cbn [cc_cipher cc_cp]. rewrite Hf. destruct (chachapoly_get_length _ _ _ _) as [[x|x|] cp']; reflexivity.
Qed.

(** What a packet becomes. *)
Lemma chacha_sealed sc rc seq pkt ct sc' : chacha_sync sc rc -> bytes_ok pkt -> 4 <= zlen pkt ->
  cipher_crypt seq pkt (zlen pkt - 4) 4 16 sc = (Ok ct, sc') ->
  zlen ct = zlen pkt + 16 /\
  (forall rest, exists rc', cipher_crypt seq (ct ++ rest) (zlen pkt - 4) 4 16 rc = (Ok pkt, rc') /\ chacha_sync sc' rc') /\
  (forall p, take 4 p = take 4 ct -> 4 <= zlen p ->
    exists rc', cipher_get_length seq p (zlen p) rc = (Ok (PEEK_U32 pkt), rc') /\ chacha_sync sc rc').
Proof.
  intros S Hb Hl. destruct S as [c c' ps pr es er cp cp' F F' K]. rewrite run_chacha_crypt by done.
  assert (length pkt = (Z.to_nat 4 + Z.to_nat (zlen pkt - 4))%nat) as L by (unfold zlen in *; lia).
  destruct (cp_link cp cp' seq pkt (Z.to_nat 4) (Z.to_nat (zlen pkt - 4)) K Hb L ltac:(lia)) as (ct0 & c0 & -> & K0 & L0 & O & G).
  intros [= -> <-]. split_and!.
  - unfold zlen in *. lia.
  - intros rest. rewrite run_chacha_crypt by done. destruct (O rest) as (d' & -> & Kd). eexists. split; [done|].
    constructor; [done..|]. exact (same_key_trans _ _ _ (same_key_sym _ _ K0) (same_key_trans _ _ _ K Kd)).
  - intros p Hp Hp4. rewrite run_chacha_length by done. destruct (G p Hp Hp4) as (d' & -> & Kd). eexists. split; [done|].
    constructor; [done..|]. exact (same_key_trans _ _ _ K Kd).
Qed.

#[export] Instance chacha_link : Link ks chacha_sync.
Proof using Hauth Haad.
  constructor; intros *; rewrite ?Hauth, ?Haad; intros S Hb **.
  - by eapply chacha_sealed.
  - edestruct chacha_sealed as (_ & O & _); eauto.
  - edestruct chacha_sealed as (_ & _ & G); eauto.
  - destruct S as [c c' ps pr es er cp cp' F F' K]. rewrite run_chacha_length by done.
    unfold chachapoly_get_length. rewrite (proj2 (Z.ltb_lt _ _)) by lia. eexists _, _. split; [done|]. by constructor.
  - done.
Qed.
End Chacha.

(** ** The null cipher *)

Inductive null_sync : sshcipher_ctx -> sshcipher_ctx -> Prop :=
| null_synced sc rc :
    has_flag (cc_cipher sc) CFLAG_CHACHAPOLY = false -> has_flag (cc_cipher sc) CFLAG_NONE = true ->
    has_flag (cc_cipher rc) CFLAG_CHACHAPOLY = false -> has_flag (cc_cipher rc) CFLAG_NONE = true -> null_sync sc rc.

Lemma run_null_crypt seq src len aad auth cc :
  has_flag (cc_cipher cc) CFLAG_CHACHAPOLY = false -> has_flag (cc_cipher cc) CFLAG_NONE = true ->
  cipher_crypt seq src len aad auth cc = (Ok (slice src 0 (aad + len)), cc).
Proof.
  intros F N. unfold cipher_crypt. rewrite (bind_ok _ _ _ cc cc) by done. by rewrite F, N.
Qed.

Lemma run_plain_length seq p cc : has_flag (cc_cipher cc) CFLAG_CHACHAPOLY = false ->
  cipher_get_length seq p (zlen p) cc =
  (if zlen p <? 4 then Err SSH_ERR_MESSAGE_INCOMPLETE else Ok (PEEK_U32 p), cc).
Proof.
  intros F. unfold cipher_get_length. rewrite (bind_ok _ _ _ cc cc) by done. rewrite F. by destruct (_ <? _).
Qed.

Lemma peek_prefix p q : take 4 p = take 4 q -> PEEK_U32 p = PEEK_U32 q.
Proof. intros E. by rewrite <- (peek_take p), E, peek_take. Qed.

(** The start of an input. *)
Lemma slice_prefix_len l r n : zlen l = n -> slice (l ++ r) 0 n = l.
Proof. intros <-. apply slice_prefix. Qed.

Section Null.
Context (ks : keys).
Hypothesis Hauth : ks_authlen ks = 0.

#[export] Instance null_link : Link ks null_sync.
Proof using Hauth.
  constructor; intros *; rewrite ?Hauth; intros [sc0 rc0 F N F' N'] **.
  - rewrite run_null_crypt in * by done. simplify_eq. rewrite Z.add_0_r.
    replace (ks_aadlen ks + _) with (zlen pkt) by lia. by rewrite slice_full.
  - rewrite run_null_crypt in * by done. simplify_eq. eexists. split; [|by constructor].
    replace (4 + (zlen pkt - 4)) with (zlen pkt) by lia. by rewrite slice_full, slice_prefix.
  - rewrite run_null_crypt in * by done. simplify_eq. rewrite run_plain_length, (proj2 (Z.ltb_ge _ _)) by (done || lia).
    eexists. split; [|by constructor]. do 2 f_equal. apply peek_prefix.
    replace (4 + (zlen pkt - 4)) with (zlen pkt) in * by lia. by rewrite slice_full in *.
  - rewrite run_plain_length, (proj2 (Z.ltb_lt _ _)) by (done || lia). eexists _, _. split; [done|by constructor].
  - rewrite run_null_crypt in * by done. simplify_eq.
    replace (0 + zlen pkt) with (zlen pkt) by lia. rewrite slice_full. eexists. rewrite ?run_null_crypt by done. split.
    + do 2 f_equal. apply slice_prefix_len. unfold zlen. rewrite length_take. unfold zlen in *. lia.
    + intros rest2. eexists. rewrite run_null_crypt by done. split; [|by constructor].
      do 2 f_equal. apply slice_prefix_len. unfold zlen. rewrite length_drop. unfold zlen in *. lia.
Qed.
End Null.

(** ** libcrypto's ciphers *)

(** A stream of blocks: CBC and CTR. *)
Class Stream (es : evp -> evp -> Prop) := {
  stream_crypt : forall e d m ct e', es e d -> EVP_Cipher e m = Some (ct, e') ->
    zlen ct = zlen m /\ exists d', EVP_Cipher d ct = Some (m, d') /\ es e' d';
  stream_split : forall e m1 m2 ct e', EVP_Cipher e (m1 ++ m2) = Some (ct, e') ->
    exists c1 e1 c2, EVP_Cipher e m1 = Some (c1, e1) /\ EVP_Cipher e1 m2 = Some (c2, e') /\ ct = c1 ++ c2
}.

(** GCM with a generated IV: the calls of an encryption, and those of the
    decryption of its result. *)
Definition gcm_seal (e : evp) (aad m : list Z) (taglen : Z) : option (list Z * list Z * evp) :=
  e ← EVP_GCM_IV_GEN e; e ← EVP_Cipher_aad e aad; '(ct, e) ← EVP_Cipher e m;
  e ← EVP_Cipher_final e; '(tag, e) ← EVP_GCM_GET_TAG e taglen; Some (ct, tag, e).
Definition gcm_open (d : evp) (aad ct tag : list Z) : option (list Z * evp) :=
  d ← EVP_GCM_IV_GEN d; d ← EVP_GCM_SET_TAG d tag; d ← EVP_Cipher_aad d aad; '(m, d) ← EVP_Cipher d ct;
  d ← EVP_Cipher_final d; Some (m, d).

Class Gcm (es : evp -> evp -> Prop) (taglen : Z) := {
  gcm_crypt : forall e d aad m ct tag e', es e d -> gcm_seal e aad m taglen = Some (ct, tag, e') ->
    zlen ct = zlen m /\ zlen tag = taglen /\ exists d', gcm_open d aad ct tag = Some (m, d') /\ es e' d'
}.

(** The contexts of [cipher.c] around two of libcrypto's. *)
Inductive evp_sync (es : evp -> evp -> Prop) (bs auth : Z) : sshcipher_ctx -> sshcipher_ctx -> Prop :=
| evp_synced c c' ps pr cs cr e d :
    has_flag c CFLAG_CHACHAPOLY = false -> has_flag c CFLAG_NONE = false ->
    has_flag c' CFLAG_CHACHAPOLY = false -> has_flag c' CFLAG_NONE = false ->
    ci_block_size c = bs -> ci_block_size c' = bs -> cipher_authlen c = auth -> cipher_authlen c' = auth ->
    es e d -> evp_sync es bs auth (mk_cctx ps true (Some e) cs c) (mk_cctx pr false (Some d) cr c').

(** An encryption or decryption without a tag. *)
Lemma run_stream_crypt ps enc e cs c seq src len aad :
  has_flag c CFLAG_CHACHAPOLY = false -> has_flag c CFLAG_NONE = false -> len mod ci_block_size c = 0 ->
  cipher_crypt seq src len aad 0 (mk_cctx ps enc (Some e) cs c) =
  match EVP_Cipher e (slice src aad len) with
  | Some (out, e') => (Ok (slice src 0 aad ++ out), mk_cctx ps enc (Some e') cs c)
  | None => (Err SSH_ERR_LIBCRYPTO_ERROR, mk_cctx ps enc (Some e) cs c)
  end.
Proof.
  intros F N B. unfold cipher_crypt, evp_call, evp_call_out, when, check, mbind, M_bind, get_st, put_st, mret, M_ret, throw.
  cbn [cc_cipher]. rewrite F, N. cbn [negb Z.eqb]. rewrite andb_false_r, B. cbn.
  by destruct (EVP_Cipher e (slice src aad len)) as [[out e']|].
Qed.

Section StreamLink.
Context (ks : keys) (es : evp -> evp -> Prop) `{!Stream es}.
Hypothesis Hauth : ks_authlen ks = 0.

Lemma slice_parts l a : 0 <= a <= zlen l -> slice l 0 a ++ slice l a (zlen l - a) = l.
Proof.
  intros. change (slice l a) with (slice l (0 + a)). rewrite <- (slice_app l 0 a (zlen l - a)) by lia. replace (a + (zlen l - a)) with (zlen l) by lia. apply slice_full.
Qed.

(** What a packet becomes. *)
Lemma stream_sealed aad sc rc seq pkt ct sc' : evp_sync es (ks_block_size ks) 0 sc rc ->
  0 <= aad <= zlen pkt -> (zlen pkt - aad) mod ks_block_size ks = 0 ->
  cipher_crypt seq pkt (zlen pkt - aad) aad 0 sc = (Ok ct, sc') ->
  exists e e' out, cc_evp sc = Some e /\ sc' = cc_set_evp e' sc /\
    EVP_Cipher e (slice pkt aad (zlen pkt - aad)) = Some (out, e') /\ ct = slice pkt 0 aad ++ out /\
    zlen (slice pkt 0 aad) = aad /\ zlen (slice pkt aad (zlen pkt - aad)) = zlen pkt - aad /\ zlen out = zlen pkt - aad.
Proof using Stream0.
  intros [c c' ps pr cs cr e d F N F' N' B B' A A' S] Ha Hb. rewrite run_stream_crypt by (done || by rewrite B).
  destruct (EVP_Cipher e _) as [[out e']|] eqn:E; [|done]. intros [= <- <-].
  destruct (stream_crypt _ _ _ _ _ S E) as [L _].
  assert (zlen (slice pkt aad (zlen pkt - aad)) = zlen pkt - aad) as L2 by (apply zlen_slice; lia).
  exists e, e', out. split_and!; [done..|apply zlen_slice; lia|done|lia].
Qed.

#[export] Instance stream_link : Link ks (evp_sync es (ks_block_size ks) 0).
Proof using Hauth Stream0.
  assert (forall sc rc seq pkt ct sc' rest, evp_sync es (ks_block_size ks) 0 sc rc -> 4 <= zlen pkt ->
    (zlen pkt - 4) mod ks_block_size ks = 0 -> cipher_crypt seq pkt (zlen pkt - 4) 4 0 sc = (Ok ct, sc') ->
    (exists rc', cipher_crypt seq (ct ++ rest) (zlen pkt - 4) 4 0 rc = (Ok pkt, rc') /\
      evp_sync es (ks_block_size ks) 0 sc' rc') /\ take 4 ct = take 4 pkt) as OPEN.
  { intros * Y H4 Hm H. destruct (stream_sealed 4 sc rc seq pkt ct sc' Y ltac:(lia) Hm H) as (e & e' & out & Ee & -> & E & -> & L1 & L2 & L3).
    destruct Y as [c c' ps pr cs cr e0 d F N F' N' B B' A A' S]. injection Ee as <-.
    destruct (stream_crypt _ _ _ _ _ S E) as [_ (d' & D & S')]. split.
    - rewrite run_stream_crypt by (done || by rewrite B'). rewrite <- app_assoc.
      rewrite (slice_prefix_len _ _ 4 L1). replace (slice _ 4 _) with out
        by (rewrite <- L1 at 2; rewrite <- L3; symmetry; apply slice_second).
      rewrite D, slice_parts by lia. eexists. split; [done|]. by constructor.
    - assert (length (slice pkt 0 4) = 4%nat) by (unfold zlen in L1; lia).
      rewrite take_app_le, take_ge by lia. unfold slice. by rewrite drop_0. }
  constructor; intros *; rewrite ?Hauth.
  - intros Y Hb H4 Hm H. rewrite Z.add_0_r.
    assert (0 <= ks_aadlen ks) as Ha by (unfold ks_aadlen; case_match; lia).
    destruct (stream_sealed _ _ _ _ _ _ _ Y (conj Ha H4) Hm H) as (e & e' & out & _ & _ & _ & -> & L1 & _ & L3).
    rewrite zlen_app. lia.
  - intros Y Hb _ H4 Hm H. by destruct (OPEN _ _ _ _ _ _ rest Y H4 Hm H) as [O _].
  - intros Y Hb _ H4 Hm H Ep Hp. destruct (OPEN _ _ _ _ _ _ [] Y H4 Hm H) as [_ T].
    rewrite run_plain_length, (proj2 (Z.ltb_ge _ _)) by (lia || by destruct Y). eexists. split; [|done].
    do 2 f_equal. apply peek_prefix. congruence.
  - intros Y _ Hp. rewrite run_plain_length, (proj2 (Z.ltb_lt _ _)) by (lia || by destruct Y). eauto.
  - intros Y Hb _ bs [H0 H1] Hm H. rewrite <- (Z.sub_0_r (zlen pkt)) in H at 1.
    destruct (stream_sealed 0 sc rc seq pkt ct sc' Y ltac:(lia) ltac:(by rewrite Z.sub_0_r) H) as (e & e' & out & Ee & -> & E & -> & _ & _ & L3).
    destruct Y as [c c' ps pr cs cr e0 d F N F' N' B B' A A' S]. injection Ee as <-.
    rewrite slice_0, Z.sub_0_r, slice_full in *. cbn [app] in *.
    rewrite <- (take_drop (Z.to_nat bs) pkt) in E. destruct (stream_split _ _ _ _ _ E) as (c1 & e1 & c2 & E1 & E2 & ->).
    destruct (stream_crypt _ _ _ _ _ S E1) as [L1 (d1 & D1 & S1)].
    destruct (stream_crypt _ _ _ _ _ S1 E2) as [L2 (d2 & D2 & S2)].
    assert (zlen (take (Z.to_nat bs) pkt) = bs) as T1 by (unfold zlen in *; rewrite length_take; lia).
    assert (zlen (drop (Z.to_nat bs) pkt) = zlen pkt - bs) as T2 by (unfold zlen in *; rewrite length_drop; lia).
    assert (length c1 = Z.to_nat bs) as T3 by (unfold zlen in *; lia).
    rewrite take_app_le, take_ge, drop_app_ge, T3, Nat.sub_diag, drop_0 by lia.
    rewrite run_stream_crypt by (done || rewrite B'; apply Z.mod_same; lia).
    rewrite slice_prefix_len, D1 by lia. rewrite slice_0. eexists. split; [done|]. intros rest2. eexists.
    assert ((zlen pkt - bs) mod bs = 0) as Hr by (rewrite Zminus_mod, Hm, Z.mod_same by lia; done).
    rewrite run_stream_crypt by (done || by rewrite B').
    rewrite slice_prefix_len, D2 by lia. rewrite slice_0. split; [done|]. by constructor.
Qed.
End StreamLink.

(** The calls of [cipher_crypt] with a tag are those of GCM. *)
Ltac evp_calls := unfold cipher_crypt, evp_call, evp_call_out, when, check, mbind, M_bind, get_st, put_st, mret, M_ret, throw.

Lemma run_gcm_seal ps e cs c seq src len auth r cc : auth <> 0 ->
  has_flag c CFLAG_CHACHAPOLY = false -> has_flag c CFLAG_NONE = false ->
  cipher_crypt seq src len 4 auth (mk_cctx ps true (Some e) cs c) = (Ok r, cc) ->
  exists ct tag e', gcm_seal e (slice src 0 4) (slice src 4 len) auth = Some (ct, tag, e') /\
    r = slice src 0 4 ++ ct ++ tag /\ cc = mk_cctx ps true (Some e') cs c.
Proof.
  intros Ha F N. evp_calls. unfold gcm_seal, mbind, option_bind. cbn [cc_cipher cc_encrypt cc_evp cc_set_evp cc_plaintext cc_cp].
  rewrite F, N, (proj2 (Z.eqb_neq _ _) Ha). cbn [negb Z.eqb andb].
  destruct (_ =? _); [|done]. cbn [cc_evp cc_set_evp cc_plaintext cc_cp cc_cipher cc_encrypt].
  destruct (EVP_GCM_IV_GEN e) as [e1|]; [|done]. cbn [cc_evp cc_set_evp cc_plaintext cc_cp cc_cipher cc_encrypt].
  destruct (EVP_Cipher_aad e1 _) as [e2|]; [|done]. cbn [cc_evp cc_set_evp cc_plaintext cc_cp cc_cipher cc_encrypt].
  destruct (_ mod _ =? 0); [|done]. cbn [cc_evp cc_set_evp cc_plaintext cc_cp cc_cipher cc_encrypt].
  destruct (EVP_Cipher e2 _) as [[ct e3]|]; [|done]. cbn [cc_evp cc_set_evp cc_plaintext cc_cp cc_cipher cc_encrypt].
  destruct (EVP_Cipher_final e3) as [e4|]; [|done]. cbn [cc_evp cc_set_evp cc_plaintext cc_cp cc_cipher cc_encrypt].
  destruct (EVP_GCM_GET_TAG e4 auth) as [[tag e5]|]; [|done]. intros [= <- <-].
  exists ct, tag, e5. by rewrite <- app_assoc.
Qed.

Lemma run_gcm_open ps d cs c seq src len auth m d' : auth <> 0 ->
  has_flag c CFLAG_CHACHAPOLY = false -> has_flag c CFLAG_NONE = false -> cipher_authlen c = auth ->
  len mod ci_block_size c = 0 ->
  gcm_open d (slice src 0 4) (slice src 4 len) (slice src (4 + len) auth) = Some (m, d') ->
  cipher_crypt seq src len 4 auth (mk_cctx ps false (Some d) cs c) =
  (Ok (slice src 0 4 ++ m), mk_cctx ps false (Some d') cs c).
Proof.
  intros Ha F N A B. evp_calls. unfold gcm_open, mbind, option_bind. cbn [cc_cipher cc_encrypt cc_evp cc_set_evp cc_plaintext cc_cp].
  rewrite F, N, (proj2 (Z.eqb_neq _ _) Ha), A, B, Z.eqb_refl. cbn [negb Z.eqb andb cc_evp cc_set_evp cc_plaintext cc_cp cc_cipher cc_encrypt].
  destruct (EVP_GCM_IV_GEN d) as [d1|]; [|done]. cbn [cc_evp cc_set_evp cc_plaintext cc_cp cc_cipher cc_encrypt].
  destruct (EVP_GCM_SET_TAG d1 _) as [d2|]; [|done]. cbn [cc_evp cc_set_evp cc_plaintext cc_cp cc_cipher cc_encrypt].
  destruct (EVP_Cipher_aad d2 _) as [d3|]; [|done]. cbn [cc_evp cc_set_evp cc_plaintext cc_cp cc_cipher cc_encrypt].
  destruct (EVP_Cipher d3 _) as [[m1 d4]|]; [|done]. cbn [cc_evp cc_set_evp cc_plaintext cc_cp cc_cipher cc_encrypt].
  destruct (EVP_Cipher_final d4) as [d5|]; [|done]. by intros [= <- <-].
Qed.

Section GcmLink.
Context (ks : keys) (es : evp -> evp -> Prop) `{!Gcm es (ks_authlen ks)}.
Hypothesis Hauth : 0 < ks_authlen ks.

Lemma gcm_aad : ks_aadlen ks = 4.
Proof using Hauth. unfold ks_aadlen. rewrite (proj2 (Z.eqb_neq (ks_authlen ks) 0)) by lia. by rewrite orb_true_r. Qed.

Lemma gcm_sealed sc rc seq pkt ct sc' : evp_sync es (ks_block_size ks) (ks_authlen ks) sc rc ->
  4 <= zlen pkt -> (zlen pkt - 4) mod ks_block_size ks = 0 ->
  cipher_crypt seq pkt (zlen pkt - 4) 4 (ks_authlen ks) sc = (Ok ct, sc') ->
  zlen ct = zlen pkt + ks_authlen ks /\ take 4 ct = take 4 pkt /\
  forall rest, exists rc', cipher_crypt seq (ct ++ rest) (zlen pkt - 4) 4 (ks_authlen ks) rc = (Ok pkt, rc') /\
    evp_sync es (ks_block_size ks) (ks_authlen ks) sc' rc'.
Proof using Gcm0 Hauth.
  intros [c c' ps pr cs cr e d F N F' N' B B' A A' S] H4 Hm H.
  assert (ks_authlen ks <> 0) as Hn by lia. destruct (run_gcm_seal _ _ _ _ _ _ _ _ _ _ Hn F N H) as (out & tag & e' & E & -> & ->).
  destruct (gcm_crypt _ _ _ _ _ _ _ S E) as (L & T & d' & D & S').
  assert (zlen (slice pkt 0 4) = 4) as L1 by (apply zlen_slice; lia).
  rewrite zlen_slice in L by lia. split_and!.
  - rewrite !zlen_app. lia.
  - assert (length (slice pkt 0 4) = 4%nat) by (unfold zlen in L1; lia).
    rewrite take_app_le, take_ge by lia. unfold slice. by rewrite drop_0.
  - intros rest. eexists. split; [|by constructor]. rewrite (run_gcm_open _ d _ _ _ _ _ _ (slice pkt 4 (zlen pkt - 4)) d'); [| |done..| |].
    + rewrite <- !app_assoc, (slice_prefix_len _ _ 4 L1), slice_parts by lia. done.
    + lia.
    + by rewrite B'.
    + rewrite <- !app_assoc, (slice_prefix_len _ _ 4 L1).
      replace (slice _ 4 _) with out by (rewrite <- L1 at 2; rewrite <- L; symmetry; apply slice_second).
      replace (slice _ _ (ks_authlen ks)) with tag; [done|]. rewrite <- T. rewrite (app_assoc _ out).
      replace (4 + (zlen pkt - 4)) with (zlen (slice pkt 0 4 ++ out)) by (rewrite zlen_app; lia). symmetry. apply slice_second.
Qed.

#[export] Instance gcm_link : Link ks (evp_sync es (ks_block_size ks) (ks_authlen ks)).
Proof using Gcm0 Hauth.
  constructor; intros *; rewrite ?gcm_aad; intros Y.
  - intros Hb H4 Hm H. by apply (gcm_sealed _ _ _ _ _ _ Y H4 Hm H).
  - intros Hb _ H4 Hm H. by apply (gcm_sealed _ _ _ _ _ _ Y H4 Hm H).
  - intros Hb _ H4 Hm H Ep Hp. destruct (gcm_sealed _ _ _ _ _ _ Y H4 Hm H) as (_ & T & _).
    rewrite run_plain_length, (proj2 (Z.ltb_ge _ _)) by (lia || by destruct Y). eexists. split; [|done].
    do 2 f_equal. apply peek_prefix. congruence.
  - intros _ Hp. rewrite run_plain_length, (proj2 (Z.ltb_lt _ _)) by (lia || by destruct Y). eauto.
  - done.
Qed.
End GcmLink.
End Link.
