(* ===== verification/PacketSend.v ===== *)
(** * What is sent: padding and the wire form of a packet *)

From S2P Require Import Prelude Ssherr Cstring Match KexNames Hmac ChachaPoly Cipher SshState Packet PacketFuel CipherLink.
From S2P Require Import Sshbuf SshbufGetput SshbufWire.

(** ** Padding *)

Lemma base_padlen_spec bs len : (bs = 8 \/ bs = 16) -> 0 <= len ->
  4 <= base_padlen bs len < bs + 4 /\ (len + base_padlen bs len) mod bs = 0.
Proof.
  intros Hb Hl. unfold base_padlen. pose proof (Z.mod_pos_bound len bs ltac:(lia)).
  rewrite (wrap_small 8 (bs - len mod bs)) by (cbn; lia).
  destruct (Z.ltb_spec (bs - len mod bs) 4); [rewrite wrap_small by (cbn; lia)|]; (split; [lia|]); destruct Hb as [-> | ->]; dlia.
Qed.

Lemma ROUNDUP_spec x bs : 0 < bs -> 0 < x -> x <= Packet.ROUNDUP x bs < x + bs /\ Packet.ROUNDUP x bs mod bs = 0.
Proof.
  intros Hb Hx. unfold Packet.ROUNDUP. rewrite Z.mod_mul by lia.
  pose proof (Z.div_mod (x + (bs - 1)) bs ltac:(lia)). pose proof (Z.mod_pos_bound (x + (bs - 1)) bs Hb). nia.
Qed.

Lemma pad_to_multiple t e : 0 < e -> 0 <= t -> (t + (e - t mod e)) mod e = 0.
Proof.
  intros He Ht. replace (t + (e - t mod e)) with (e * (t / e + 1)) by (pose proof (Z.div_mod t e ltac:(lia)); lia).
  rewrite Z.mul_comm. apply Z.mod_mul. lia.
Qed.

(** The padding asked for by [sshpkt_add_padding], when it fits. *)
Lemma pad_for_extra bs len e : (bs = 8 \/ bs = 16) -> 0 <= len < 2 ^ 32 - 512 -> 0 < e < 256 ->
  let E := Packet.ROUNDUP e bs in
  let p := base_padlen bs len in
  pad_for bs len e =
    if (E >? 255) || (p + (E - (len + p) mod E) >? 255) then None else Some (p + (E - (len + p) mod E)).
Proof.
  intros Hb Hl He E p. unfold pad_for. fold E p. rewrite (proj2 (Z.eqb_neq e 0)) by lia.
  destruct (base_padlen_spec bs len Hb ltac:(lia)) as [Hp _]. fold p in Hp.
  destruct (ROUNDUP_spec e bs ltac:(lia) ltac:(lia)) as [HE _]. fold E in HE.
  destruct (Z.gtb_spec E 255) as [Hbig|Hs]; cbn [orb].
  - assert (u8 E = E - 256) as -> by (unfold wrap; symmetry; apply (Z.mod_unique _ _ 1); lia).
    by rewrite (proj2 (Z.ltb_lt _ _)) by lia.
  - rewrite (wrap_small 8 E), (wrap_small 32 (len + p)) by (cbn; lia). rewrite (proj2 (Z.ltb_ge _ _)) by lia.
    pose proof (Z.mod_pos_bound (len + p) E ltac:(lia)) as Hr.
    rewrite (wrap_small 8 ((len + p) mod E)) by (cbn; lia). rewrite Z.gtb_ltb, (proj2 (Z.ltb_ge _ _)) by lia.
    rewrite (wrap_small 8 (E - _)) by (cbn; lia).
    destruct (Z.gtb_spec (p + (E - (len + p) mod E)) 255) as [Ho|Ho].
    + assert (u8 (p + (E - (len + p) mod E)) = p + (E - (len + p) mod E) - 256) as ->
        by (unfold wrap; symmetry; apply (Z.mod_unique _ _ 1); lia).
      by rewrite (proj2 (Z.ltb_lt _ _)) by lia.
    + rewrite wrap_small by (cbn; lia). by rewrite (proj2 (Z.ltb_ge _ _)) by lia.
Qed.

(** What every packet's padding satisfies. *)
Lemma pad_for_ok bs len e p : (bs = 8 \/ bs = 16) -> 0 <= len < 2 ^ 32 - 512 -> 0 <= e < 256 ->
  pad_for bs len e = Some p -> 4 <= p <= 255 /\ (len + p) mod bs = 0.
Proof.
  intros Hb Hl He. destruct (base_padlen_spec bs len Hb ltac:(lia)) as [Hp Hm].
  destruct (Z.eqb_spec e 0) as [->|Hne]; [intros [= <-]; split; [lia|done]|].
  rewrite pad_for_extra by (done || lia). destruct (ROUNDUP_spec e bs ltac:(lia) ltac:(lia)) as [HE HM].
  set (E := Packet.ROUNDUP e bs) in *. set (b := base_padlen bs len) in *.
  pose proof (Z.mod_pos_bound (len + b) E ltac:(lia)). pose proof (pad_to_multiple (len + b) E ltac:(lia) ltac:(lia)) as HT.
  destruct (Z.gtb_spec E 255); [done|]. destruct (Z.gtb_spec (b + (E - (len + b) mod E)) 255); [done|]. cbn [orb].
  intros [= <-]. split; [lia|]. replace (len + (b + (E - (len + b) mod E))) with (len + b + (E - (len + b) mod E)) by lia.
  apply Z.mod_divide in HT, HM; [|lia..]. apply Z.mod_divide; [lia|]. by transitivity E.
Qed.

(** C29: Padding on every input of the two block sizes.  Without extra padding
    there are 4 to [bs + 3] bytes that fill the packet up to whole blocks; with
    [sshpkt_add_padding e] the packet is filled up to a multiple of [e] rounded
    to blocks, or, exactly when that takes more than the 255 bytes the length
    field can hold, sending fails: no u_char computation wraps unnoticed. *)
Theorem padding_bounds bs len e : (bs = 8 \/ bs = 16) -> 0 <= len < 2 ^ 32 - 512 -> 0 <= e < 256 ->
  let E := Packet.ROUNDUP e bs in
  let p := base_padlen bs len in
  (4 <= p < bs + 4 /\ (len + p) mod bs = 0) /\
  match pad_for bs len e with
  | Some q => 4 <= q <= 255 /\ (len + q) mod bs = 0 /\
      (e = 0 -> q = p) /\ (e <> 0 -> (len + q) mod E = 0 /\ q <= p + E)
  | None => e <> 0 /\ (255 < E \/ 255 < p + (E - (len + p) mod E))
  end.
Proof.
  intros Hb Hl He E p. split; [by apply base_padlen_spec; lia|].
  pose proof (pad_for_ok bs len e) as OK. destruct (Z.eqb_spec e 0) as [->|Hne].
  { change (pad_for bs len 0) with (Some p) in *. destruct (OK p Hb Hl He eq_refl) as [? ?]. split_and!; lia || done. }
  destruct (ROUNDUP_spec e bs ltac:(lia) ltac:(lia)) as [HE _]. fold E in HE.
  pose proof (base_padlen_spec bs len Hb ltac:(lia)) as [Hp _]. fold p in Hp.
  pose proof (pad_to_multiple (len + p) E ltac:(lia) ltac:(lia)) as HT.
  pose proof (Z.mod_pos_bound (len + p) E ltac:(lia)).
  rewrite pad_for_extra in * by (done || lia). fold E p in OK |- *.
  destruct (Z.gtb_spec E 255); [split; [done|by left]|].
  destruct (Z.gtb_spec (p + (E - (len + p) mod E)) 255); [split; [done|by right]|]. cbn [orb] in *.
  destruct (OK _ Hb Hl He eq_refl) as [? ?]. split_and!; [lia|lia|done|lia|]. intros _. split; [|lia].
  by replace (len + (p + (E - (len + p) mod E))) with (len + p + (E - (len + p) mod E)) by lia.
Qed.

Lemma padding_bounds_witness :
  let E := Packet.ROUNDUP 64 16 in
  let p := base_padlen 16 21 in
  (4 <= p < 16 + 4 /\ (21 + p) mod 16 = 0) /\
  match pad_for 16 21 64 with
  | Some q => 4 <= q <= 255 /\ (21 + q) mod 16 = 0 /\ (64 = 0 -> q = p) /\ (64 <> 0 -> (21 + q) mod E = 0 /\ q <= p + E)
  | None => 64 <> 0 /\ (255 < E \/ 255 < p + (E - (21 + p) mod E))
  end.
Proof. apply (padding_bounds 16 21 64); lia. Defined.

(** ** The wire form *)

Section Emit.
Context {CR : Crypto}.
Abbreviation SM := (M ssh).

(** The locals of the packet functions for a direction's keys. *)
Definition keys_are (nk : option newkeys) (ks : keys) : Prop :=
  match nk with
  | None => ks = mk_keys None None None 0
  | Some nk => exists enc, nk_enc nk = Some enc /\
      ks = mk_keys (Some enc) (if cipher_authlen (e_cipher enc) =? 0 then Some (nk_mac nk) else None)
             (Some (nk_comp nk)) (cipher_authlen (e_cipher enc))
  end.

Lemma keys_run nk ks s : keys_are nk ks -> keys_of nk s = (Ok ks, s).
Proof.
  unfold keys_are, keys_of, enc_of. destruct nk as [nk|]; [|by intros ->]. by intros (enc & -> & ->).
Qed.

(** A direction with a tag has no separate MAC. *)
Lemma keys_are_mac nk ks : keys_are nk ks -> ks_mac_on ks <> None -> ks_authlen ks = 0.
Proof.
  unfold keys_are, ks_mac_on. destruct nk as [nk|]; [|by intros ->]. intros (enc & _ & ->). cbn.
  by destruct (Z.eqb_spec (cipher_authlen (e_cipher enc)) 0).
Qed.

Lemma append_inv b bs s b' s' : buf_append b bs s = (Ok b', s') ->
  b' = b ++ bs /\ zlen b' <= SSHBUF_SIZE_MAX /\ ssh_state s' = ssh_state s.
Proof.
  intros H. destruct (buf_append_ok _ _ _ _ _ H) as [E L]. split_and!; [done..|]. revert H. unfold buf_append.
  destruct (_ >? _); [done|]. unfold mbind, M_bind, salloc. by destruct (hd true (ssh_oom s)); intros [= <- <-].
Qed.

Lemma zlen_map {A B} (f : A -> B) l : zlen (map f l) = zlen l.
Proof. unfold zlen. by rewrite length_map. Qed.

Lemma bytes_ok_u8 l : bytes_ok (map u8 l).
Proof. unfold bytes_ok. rewrite Forall_map. apply Forall_true. intros x. apply (wrap_range 8). lia. Qed.

Lemma rnd_inv n s pad s' : 0 <= n -> arc4random_buf n s = (Ok pad, s') ->
  zlen pad = n /\ bytes_ok pad /\ ssh_state s' = ssh_state s.
Proof.
  intros Hn [= <- <-]. split_and!; [|apply bytes_ok_u8|done]. rewrite zlen_map. unfold zlen.
  rewrite length_take, length_app, length_replicate. lia.
Qed.

(** Inverts the steps of a successful computation. *)
Ltac minv H :=
  lazymatch type of H with
  | (getst ≫= _) ?s = _ => rewrite (bind_ok getst _ s (ssh_state s) s eq_refl) in H; cbv beta in H
  | (modst ?f ≫= _) ?s = _ => rewrite (bind_ok (modst f) _ s tt (set_ssh_state (f (ssh_state s)) s) eq_refl) in H; cbv beta in H
  | (mret ?a ≫= _) ?s = _ => rewrite (bind_ok (mret a) _ s a s eq_refl) in H; cbv beta in H
  end.

Lemma add_padding_inv ks n s s' : 0 <= n -> add_padding ks n s = (Ok tt, s') ->
  exists pad, zlen pad = n /\ bytes_ok pad /\
    ssh_state s' = set_st_outgoing_packet (st_outgoing_packet (ssh_state s) ++ pad) (ssh_state s).
Proof.
  intros Hn H. unfold add_padding in H. minv H.
  destruct (bind_inv_ok _ _ _ _ _ H) as (b & s1 & E & H1). clear H. destruct (append_inv _ _ _ _ _ E) as (-> & _ & S1). minv H1.
  assert (forall x, ssh_state x = set_st_outgoing_packet (st_outgoing_packet (ssh_state s) ++ zeros n) (ssh_state s) ->
    exists pad, zlen pad = n /\ bytes_ok pad /\
      ssh_state x = set_st_outgoing_packet (st_outgoing_packet (ssh_state s) ++ pad) (ssh_state s)) as Z.
  { intros x Hx. exists (zeros n). split_and!; [by apply zlen_zeros|apply bytes_ok_zeros|done]. }
  destruct (ks_enc ks); [|injection H1 as <-; apply Z; sfields; by rewrite S1].
  destruct (st_send_context _) as [cc|]; [|done].
  destruct (cipher_ctx_is_plaintext cc); [injection H1 as <-; apply Z; sfields; by rewrite S1|].
  destruct (bind_inv_ok _ _ _ _ _ H1) as (pad & s2 & E2 & H2).
  destruct (rnd_inv _ _ _ _ Hn E2) as (L & B & S2). exists pad. split_and!; [done..|].
  injection H2 as <-. sfields. rewrite S2. sfields. by rewrite S1.
Qed.

(** The bytes of the MAC of a packet. *)
Definition packet_mac (ks : keys) (seq : Z) (pkt ct mb : list Z) : Prop :=
  match ks_mac_on ks with
  | None => mb = []
  | Some m => exists d, mac_compute m seq (if m_etm m then slice ct 0 (zlen pkt) else pkt) SSH_DIGEST_MAX_LENGTH = inl d /\
                        mb = slice d 0 (m_mac_len m)
  end.

Lemma on_send_inv {A} (m : M sshcipher_ctx A) s a s' : on_send m s = (Ok a, s') ->
  exists cc cc', st_send_context (ssh_state s) = Some cc /\ m cc = (Ok a, cc') /\
    s' = set_ssh_state (set_st_send_context (Some cc') (ssh_state s)) s.
Proof.
  unfold on_send. destruct (st_send_context _) as [cc|] eqn:Ec; [|done].
  destruct (m cc) as [r cc'] eqn:E. intros [= -> <-]. eauto.
Qed.

Lemma lift_inv {A} (x : A + Z) (s : ssh) a s' : lift x s = (Ok a, s') -> x = inl a /\ s' = s.
Proof. destruct x; by intros [= <- <-]. Qed.

Lemma encrypt_inv ks s s' : encrypt_packet ks s = (Ok tt, s') ->
  let pkt := st_outgoing_packet (ssh_state s) in
  let seq := ps_seqnr (st_p_send (ssh_state s)) in
  exists cc cc' ct mb, st_send_context (ssh_state s) = Some cc /\
    cipher_crypt seq pkt (zlen pkt - ks_aadlen ks) (ks_aadlen ks) (ks_authlen ks) cc = (Ok ct, cc') /\
    packet_mac ks seq pkt ct mb /\
    ssh_state s' = set_st_output (st_output (ssh_state s) ++ ct ++ mb) (set_st_send_context (Some cc') (ssh_state s)).
Proof.
  intros H pkt seq. unfold encrypt_packet in H. minv H. fold pkt seq in H.
  destruct (bind_inv_ok _ _ _ _ _ H) as (mb0 & s0 & E0 & H0). clear H.
  assert (s0 = s /\ match ks_mac_on ks with
    | Some m => if m_etm m then mb0 = [] else mac_compute m seq pkt SSH_DIGEST_MAX_LENGTH = inl mb0 | None => mb0 = [] end) as [-> M0].
  { destruct (ks_mac_on ks) as [m|]; [|by injection E0 as <- <-]. destruct (m_etm m); [by injection E0 as <- <-|].
    by destruct (lift_inv _ _ _ _ E0) as [? ->]. }
  destruct (bind_inv_ok _ _ _ _ _ H0) as (b & s1 & E & H1). clear H0. destruct (append_inv _ _ _ _ _ E) as (-> & _ & S1). minv H1.
  destruct (bind_inv_ok _ _ _ _ _ H1) as (ct & s2 & E2 & H2). clear H1.
  destruct (on_send_inv _ _ _ _ E2) as (cc & cc' & C1 & C2 & ->). sfields_in C1. minv H2. sfields_in H2. rewrite S1 in *.
  destruct (ks_mac_on ks) as [m|] eqn:Em.
  - destruct (bind_inv_ok _ _ _ _ _ H2) as (mb & s3 & E3 & H3). clear H2.
    destruct (bind_inv_ok _ _ _ _ _ H3) as (b & s4 & E4 & H4). clear H3. destruct (append_inv _ _ _ _ _ E4) as (-> & _ & S4).
    injection H4 as <-. exists cc, cc', ct, (slice mb 0 (m_mac_len m)). split_and!; [done..| |].
    + unfold packet_mac. rewrite Em. exists mb. split; [|done]. destruct (m_etm m); [by destruct (lift_inv _ _ _ _ E3)|by injection E3 as <- _].
    + sfields. rewrite S4. assert (ssh_state s3 = set_st_output (st_output (ssh_state s) ++ ct) (set_st_send_context (Some cc') (ssh_state s))) as ->.
      { destruct (m_etm m); [destruct (lift_inv _ _ _ _ E3) as [_ ->]|injection E3 as _ <-]; reflexivity. }
      rewrite app_assoc. reflexivity.
  - injection H2 as <-. exists cc, cc', ct, []. split_and!; [done..| |]; [unfold packet_mac; by rewrite Em|].
    rewrite app_nil_r. reflexivity.
Qed.

(** The counters after a packet of [n] bytes. *)
Definition counted (n bs : Z) (ps : packet_state) : packet_state :=
  mk_ps (u32 (ps_seqnr ps + 1)) (u32 (ps_packets ps + 1)) (u64 (ps_blocks ps + n / bs)) (u64 (ps_bytes ps + n)).

Lemma count_inv m n bs s s' : count_packet m n bs s = (Ok tt, s') ->
  ssh_state s' = mod_ps m (counted n bs) (ssh_state s).
Proof.
  unfold count_packet. intros H. minv H. minv H.
  destruct (bind_inv_ok _ _ _ _ _ H) as ([] & s1 & E & H1). clear H.
  assert (ssh_state s1 = mod_ps m (fun ps => set_ps_seqnr (u32 (ps_seqnr ps + 1)) ps) (ssh_state s)) as S1.
  { destruct (_ =? 0); [|by injection E as <-].
    destruct (bind_inv_ok _ _ _ _ _ E) as (k & s2 & E2 & E3). unfold getkex in E2. destruct (ssh_kex _); [|done].
    injection E2 as _ <-. destruct (flag_set _ _); [done|]. by injection E3 as <-. }
  minv H1. destruct (bind_inv_ok _ _ _ _ _ H1) as ([] & s2 & E2 & H2). clear H1.
  assert (s2 = set_ssh_state (mod_ps m (fun ps => set_ps_packets (u32 (ps_packets ps + 1)) ps) (ssh_state s1)) s1) as ->
    by (clear E; revert E2; destruct (_ =? 0); [done|by intros [= <-]]).
  minv H2. injection H2 as <-. sfields. rewrite S1. by destruct m.
Qed.

Lemma count_run m n bs s : let ps := match m with MODE_IN => st_p_read (ssh_state s) | MODE_OUT => st_p_send (ssh_state s) end in
  0 <= ps_seqnr ps < UINT_MAX -> 0 <= ps_packets ps < UINT_MAX ->
  count_packet m n bs s = (Ok tt, set_ssh_state (mod_ps m (counted n bs) (ssh_state s)) s).
Proof.
  intros ps Hs Hp. unfold count_packet, UINT_MAX in *.
  set (s1 := set_ssh_state (mod_ps m (fun ps => set_ps_seqnr (u32 (ps_seqnr ps + 1)) ps) (ssh_state s)) s).
  rewrite (bind_ok _ _ s tt s1) by done. rewrite (bind_ok getst _ s1 (ssh_state s1) s1) by done.
  assert ((ps_seqnr (match m with MODE_IN => st_p_read (ssh_state s1) | MODE_OUT => st_p_send (ssh_state s1) end) =? 0) = false) as ->.
  { apply Z.eqb_neq. destruct m; subst s1 ps; sfields; cbn [mod_ps]; sfields; rewrite wrap_small; lia. }
  rewrite (bind_ok _ _ s1 tt s1) by done.
  set (s2 := set_ssh_state (mod_ps m (fun ps => set_ps_packets (u32 (ps_packets ps + 1)) ps) (ssh_state s1)) s1).
  rewrite (bind_ok _ _ s1 tt s2) by done.
  assert ((u32 (ps_packets (match m with MODE_IN => st_p_read (ssh_state s1) | MODE_OUT => st_p_send (ssh_state s1) end) + 1) =? 0) = false) as ->.
  { apply Z.eqb_neq. destruct m; subst s1 ps; sfields; cbn [mod_ps]; sfields; rewrite wrap_small; lia. }
  rewrite (bind_ok _ _ s2 tt s2) by done. destruct m; reflexivity.
Qed.

(** The header and what follows it. *)
Lemma zlen_set_header pkt n : 5 <= zlen pkt -> zlen (set_header pkt n) = zlen pkt.
Proof. intros. unfold set_header, zlen in *. rewrite !length_app, length_drop. cbn. lia. Qed.

Record emitted (ks : keys) (s s1 : ssh) (pkt ct mb pad : list Z) (cc cc' : sshcipher_ctx) : Prop := {
  em_pad : 4 <= zlen pad <= 255;
  em_pad_ok : bytes_ok pad;
  em_pkt : pkt = set_header (st_outgoing_packet (ssh_state s) ++ pad) (zlen pad);
  em_blocks : (zlen pkt - ks_aadlen ks) mod ks_block_size ks = 0;
  em_ctx : st_send_context (ssh_state s) = Some cc;
  em_crypt : cipher_crypt (ps_seqnr (st_p_send (ssh_state s))) pkt (zlen pkt - ks_aadlen ks) (ks_aadlen ks) (ks_authlen ks) cc = (Ok ct, cc');
  em_mac : packet_mac ks (ps_seqnr (st_p_send (ssh_state s))) pkt ct mb;
  em_state : ssh_state s1 = set_st_outgoing_packet [] (mod_ps MODE_OUT (counted (zlen pkt) (ks_block_size ks))
    (set_st_output (st_output (ssh_state s) ++ ct ++ mb) (set_st_send_context (Some cc') (set_st_extra_pad 0 (ssh_state s)))))
}.

Lemma aadlen_cases ks : ks_aadlen ks = 0 \/ ks_aadlen ks = 4.
Proof. unfold ks_aadlen. case_match; auto. Qed.

Lemma emit_inv ks s s1 : emit_packet s = (Ok tt, s1) -> keys_are (st_newkeys_out (ssh_state s)) ks ->
  ks_comp_on ks = false -> (ks_block_size ks = 8 \/ ks_block_size ks = 16) -> 0 <= st_extra_pad (ssh_state s) < 256 ->
  6 <= zlen (st_outgoing_packet (ssh_state s)) <= PACKET_MAX_SIZE ->
  exists pkt ct mb pad cc cc', emitted ks s s1 pkt ct mb pad cc cc'.
Proof.
  intros H K C B E L. unfold emit_packet in H. minv H. rewrite (bind_ok _ _ s ks s (keys_run _ _ s K)) in H. cbv beta zeta in H.
  rewrite C in H. minv H. minv H. assert (0 <= ks_aadlen ks <= 4) as A by (destruct (aadlen_cases ks); lia).
  unfold PACKET_MAX_SIZE in L. rewrite (wrap_small 32) in H by (cbn; lia).
  destruct (pad_for _ _ _) as [padlen|] eqn:P; [|minv H; done].
  apply pad_for_ok in P as [P1 P2]; [|done|lia|done]. minv H.
  destruct (bind_inv_ok _ _ _ _ _ H) as ([] & s2 & E2 & H2). clear H.
  apply add_padding_inv in E2 as (pad & Lp & Bp & S2); [|lia]. sfields_in S2. minv H2. minv H2.
  rewrite S2 in H2. sfields_in H2.
  destruct (bind_inv_ok _ _ _ _ _ H2) as ([] & s3 & E3 & H3). clear H2. apply encrypt_inv in E3. sfields_in E3.
  destruct E3 as (cc & cc' & ct & mb & C1 & C2 & M & S3).
  destruct (bind_inv_ok _ _ _ _ _ H3) as ([] & s4 & E4 & H4). clear H3. apply count_inv in E4. injection H4 as <-.
  eexists _, ct, mb, pad, cc, cc'. subst padlen. constructor; sfields; try done; try eassumption.
  - rewrite zlen_set_header, zlen_app by (rewrite zlen_app; lia). by replace (_ - _) with
      (zlen (st_outgoing_packet (ssh_state s)) - ks_aadlen ks + zlen pad) by lia.
  - rewrite E4, S3. reflexivity.
Qed.
End Emit.
