(* ===== verification/PacketXfer.v ===== *)
(** * From the sender's buffer to the receiver's message

    A packet written by one side and read by the other, over a connection that
    delivers the bytes in arbitrary pieces: the receiver waits until the packet
    is complete and then has the message, and both sides are ready for the next
    packet. *)

From S2P Require Import Prelude Ssherr Cstring Match KexNames Hmac ChachaPoly Cipher SshState Packet PacketRead.
From S2P Require Import PacketState SshWp PacketFuel CipherLink PacketSend Sshbuf SshbufGetput SshbufWire.

Section Xfer.
Context {CR : Crypto}.
Abbreviation SM := (M ssh).

(** ** Runs without allocation failures *)

Lemma set_oom_nil (s : ssh) : ssh_oom s = [] -> set_ssh_oom [] s = s.
Proof. destruct s. cbn. by intros ->. Qed.

Lemma append_run b bs s : ssh_oom s = [] -> zlen b + zlen bs <= SSHBUF_SIZE_MAX -> buf_append b bs s = (Ok (b ++ bs), s).
Proof.
  intros O L. unfold buf_append. rewrite Z.gtb_ltb, (proj2 (Z.ltb_ge _ _)) by lia.
  unfold mbind, M_bind, salloc. rewrite O. cbn [hd tail]. by rewrite set_oom_nil.
Qed.

Lemma consume_run b n s : n <= zlen b -> buf_consume b n s = (Ok (drop (Z.to_nat n) b), s).
Proof. intros. unfold buf_consume. by rewrite Z.gtb_ltb, (proj2 (Z.ltb_ge _ _)) by lia. Qed.

Lemma consume_end_run b n s : n <= zlen b -> buf_consume_end b n s = (Ok (take (Z.to_nat (zlen b - n)) b), s).
Proof. intros. unfold buf_consume_end. by rewrite Z.gtb_ltb, (proj2 (Z.ltb_ge _ _)) by lia. Qed.

(** Bytes arrive, and the receiver looks for a packet. *)
Definition deliver (buf : list Z) : SM (Z * Z) := ssh_packet_process_incoming buf;; ssh_packet_read_poll2.

Fixpoint deliver_all (chunks : list (list Z)) : SM (list (Z * Z)) :=
  match chunks with
  | [] => mret []
  | c :: cs => p ← deliver c; ps ← deliver_all cs; mret (p :: ps)
  end.

(** ** One packet *)

Section Packet.
Context (ks : keys) (sy : sshcipher_ctx -> sshcipher_ctx -> Prop) `{!Link ks sy}.
Context (pkt ct mb : list Z) (seq : Z) (sc sc' : sshcipher_ctx).
Hypothesis Hbs : ks_block_size ks = 8 \/ ks_block_size ks = 16.
Hypothesis Hauth : 0 <= ks_authlen ks <= 16.
Hypothesis Hnomac : ks_mac_on ks <> None -> ks_authlen ks = 0.
Hypothesis Hmac : forall m, ks_mac_on ks = Some m -> 0 <= m_mac_len m <= 64 /\
  forall data d, mac_compute m seq data SSH_DIGEST_MAX_LENGTH = inl d -> zlen d = m_mac_len m.
Hypothesis Hcomp : ks_comp_on ks = false.
Hypothesis Hok : bytes_ok pkt.
Hypothesis Hlen : 10 <= zlen pkt <= PACKET_MAX_SIZE + 4.
Hypothesis Hblocks : (zlen pkt - ks_aadlen ks) mod ks_block_size ks = 0.
Hypothesis Hhead : PEEK_U32 pkt = zlen pkt - 4.
Hypothesis Hcrypt : cipher_crypt seq pkt (zlen pkt - ks_aadlen ks) (ks_aadlen ks) (ks_authlen ks) sc = (Ok ct, sc').
Hypothesis Hct : zlen ct = zlen pkt + ks_authlen ks.
Hypothesis Hpmac : packet_mac ks seq pkt ct mb.

Let n := zlen pkt.
Let bs := ks_block_size ks.
Let aad := ks_aadlen ks.
Let auth := ks_authlen ks.

(** The message in the packet. *)
Context (hdr : list Z) (type : Z) (body pad : list Z).
Hypothesis Hpkt : pkt = hdr ++ [zlen pad] ++ (type :: body) ++ pad.
Hypothesis Hhdr : length hdr = 4%nat.
Hypothesis Hpad : 4 <= zlen pad <= 255.
Hypothesis Htype : SSH2_MSG_MIN <= type.

(** What goes over the wire. *)
Definition wire_bytes : list Z := ct ++ mb.

(** The receiver before the packet. *)
Context (r0 : ssh).
Hypothesis Hoom : ssh_oom r0 = [].
Hypothesis Hmux : st_mux (ssh_state r0) = false.
Hypothesis Hdiscard : st_packet_discard (ssh_state r0) = 0.
Hypothesis Hkeys : keys_are (st_newkeys_in (ssh_state r0)) ks.
Hypothesis Hseq : ps_seqnr (st_p_read (ssh_state r0)) = seq.
Hypothesis Hseqr : 0 <= seq < UINT_MAX.
Hypothesis Hpackets : 0 <= ps_packets (st_p_read (ssh_state r0)) < UINT_MAX.

(** The receiver while it waits for the rest. *)
Definition rcv (rc : sshcipher_ctx) (input inc : list Z) (plen : Z) : ssh :=
  set_ssh_state (set_st_receive_context (Some rc) (set_st_input input (set_st_incoming_packet inc
    (set_st_packlen plen (ssh_state r0))))) r0.

(** The length is known, and the first block decrypted when the length was in it. *)
Definition ready (got : list Z) (r : ssh) : Prop := exists rc,
  (aad = 4 /\ r = rcv rc got [] (n - 4) /\ sy sc rc) \/
  (aad = 0 /\ bs <= zlen got /\ r = rcv rc (drop (Z.to_nat bs) got) (take (Z.to_nat bs) pkt) (n - 4) /\
   forall rest, exists rc', cipher_crypt seq (drop (Z.to_nat bs) ct ++ rest) (n - bs) 0 0 rc =
                            (Ok (drop (Z.to_nat bs) pkt), rc') /\ sy sc' rc').

(** The receiver that got the bytes [got] and has no packet yet. *)
Definition waiting (got : list Z) (r : ssh) : Prop :=
  (exists rc inc, r = rcv rc got inc 0 /\ sy sc rc) \/ ready got r.

(** [got] is the start of the packet and of what follows it. *)
Definition agrees (got : list Z) : Prop := exists x y, got ++ x = wire_bytes ++ y.

Lemma agrees_take got k : agrees got -> (k <= length got)%nat -> (k <= length ct)%nat -> take k got = take k ct.
Proof.
  intros (x & y & E) H1 H2. rewrite <- (take_app_le got x k H1), E. unfold wire_bytes. rewrite <- app_assoc.
  by rewrite take_app_le.
Qed.

Lemma zlen_mb : zlen mb = ks_maclen ks.
Proof using All.
  unfold packet_mac, ks_maclen in *. destruct (ks_mac_on ks) as [m|] eqn:E; [|by rewrite Hpmac].
  destruct Hpmac as (d & D & ->). destruct (Hmac m eq_refl) as [M1 M2]. apply M2 in D.
  rewrite zlen_slice; lia.
Qed.

(** Its fields. *)
Section Fields.
Context (rc : sshcipher_ctx) (input inc : list Z) (plen : Z).
Lemma rcv_packlen : st_packlen (ssh_state (rcv rc input inc plen)) = plen.
Proof. done. Qed.
Lemma rcv_input : st_input (ssh_state (rcv rc input inc plen)) = input.
Proof. done. Qed.
Lemma rcv_incoming : st_incoming_packet (ssh_state (rcv rc input inc plen)) = inc.
Proof. done. Qed.
Lemma rcv_p_read : st_p_read (ssh_state (rcv rc input inc plen)) = st_p_read (ssh_state r0).
Proof. done. Qed.
Lemma rcv_mux : st_mux (ssh_state (rcv rc input inc plen)) = st_mux (ssh_state r0).
Proof. done. Qed.
Lemma rcv_discard : st_packet_discard (ssh_state (rcv rc input inc plen)) = st_packet_discard (ssh_state r0).
Proof. done. Qed.
Lemma rcv_keys : st_newkeys_in (ssh_state (rcv rc input inc plen)) = st_newkeys_in (ssh_state r0).
Proof. done. Qed.
End Fields.
Create Rewrite HintDb rcv.
Hint Rewrite rcv_packlen rcv_input rcv_incoming rcv_p_read rcv_mux rcv_discard rcv_keys : rcv.

Lemma on_receive_rcv {A} (m : M sshcipher_ctx A) rc input inc plen :
  on_receive m (rcv rc input inc plen) = let '(x, rc') := m rc in (x, rcv rc' input inc plen).
Proof. unfold on_receive, rcv. sfields. by destruct (m rc). Qed.

Lemma rcv_oom rc input inc plen : ssh_oom (rcv rc input inc plen) = [].
Proof using Hoom. exact Hoom. Qed.

Lemma bad_packlen_no : bad_packlen (n - 4) = false.
Proof using All.
  unfold bad_packlen, n. apply orb_false_iff. split; [apply Z.ltb_ge|rewrite Z.gtb_ltb; apply Z.ltb_ge]; lia.
Qed.

Lemma blocks_fit : aad = 0 -> bs <= n /\ n mod bs = 0.
Proof using All.
  intros A. unfold aad, n, bs in *. rewrite A, Z.sub_0_r in Hblocks. split; [|done].
  destruct Hbs as [E|E]; rewrite E in *; dlia.
Qed.

Lemma no_aad : aad = 0 -> auth = 0 /\ ks_etm ks = false.
Proof using.
  unfold aad, auth, ks_aadlen. destruct (ks_etm ks); [done|]. by destruct (Z.eqb_spec (ks_authlen ks) 0).
Qed.

(** Reading the length, of a packet that has begun to arrive. *)
Lemma run_read_packlen got r : waiting got r -> agrees got ->
  exists known r', read_packlen ks r = (Ok known, r') /\
    if (known : bool) then ready got r' else zlen got < zlen wire_bytes /\ waiting got r'.
Proof using All.
  intros W G. unfold read_packlen.
  destruct W as [(rc & inc & -> & S)|[rc [(A & -> & S)|(A & Hg & -> & S)]]].
  2,3: exists true; eexists; split; [|exists rc; eauto]; rewrite (bind_ok getst _ _ _ _ eq_refl);
    autorewrite with rcv; rewrite (proj2 (Z.eqb_neq (n - 4) 0)) by (unfold n; lia); done.
  rewrite (bind_ok getst _ _ _ _ eq_refl). autorewrite with rcv. cbn [Z.eqb negb].
  pose proof Hct as Lct. fold n auth in Lct. pose proof zlen_mb as Lmb.
  assert (0 <= ks_maclen ks) as Hml by (rewrite <- Lmb; apply zlen_nonneg).
  assert (zlen wire_bytes = n + auth + ks_maclen ks) as Lw by (unfold wire_bytes; rewrite zlen_app; lia).
  destruct (aadlen_cases ks) as [A|A]; rewrite A; cbn [Z.eqb negb].
  - (* in the first block *)
    destruct (blocks_fit A) as [Hf Hm]. fold bs.
    destruct (Z.ltb_spec (zlen got) bs) as [Hg|Hg].
    { exists false. eexists. split; [done|]. split; [unfold auth in *; lia|]. left. eauto. }
    assert (0 < bs) as B0 by (unfold bs; lia).
    rewrite (bind_ok (modst _) _ _ tt (rcv rc got [] 0)) by done.
    rewrite (bind_ok _ _ _ (zeros bs) (rcv rc got [] 0)).
    2: { rewrite append_run; [done|apply rcv_oom|]. unfold bs in *. rewrite zlen_zeros, zlen_nil by lia.
         unfold SSHBUF_SIZE_MAX. lia. }
    rewrite (bind_ok (modst _) _ _ tt (rcv rc got (zeros bs) 0)) by done.
    pose proof Hcrypt as HC. rewrite A, Z.sub_0_r in HC.
    destruct (link_split sc rc seq (ps_seqnr (st_p_send (ssh_state (rcv rc got inc 0)))) pkt ct sc' (drop (Z.to_nat bs) got)
      S Hok A (conj B0 Hf) Hm HC) as (rc1 & D1 & D2).
    fold bs in D1. rewrite <- (agrees_take got (Z.to_nat bs) G), take_drop in D1 by (unfold zlen in *; lia).
    rewrite (bind_ok _ _ _ (take (Z.to_nat bs) pkt) (rcv rc1 got (zeros bs) 0)).
    2: { rewrite on_receive_rcv. by rewrite D1. }
    rewrite (bind_ok (modst _) _ _ tt (rcv rc1 got (take (Z.to_nat bs) pkt) 0)) by done.
    assert (PEEK_U32 (take (Z.to_nat bs) pkt) = n - 4) as ->.
    { unfold n. rewrite <- Hhead. apply peek_prefix. rewrite take_take. f_equal. unfold bs. lia. }
    rewrite (bind_ok (modst _) _ _ tt (rcv rc1 got (take (Z.to_nat bs) pkt) (n - 4))) by done. rewrite bad_packlen_no.
    rewrite (bind_ok _ _ _ (drop (Z.to_nat bs) got) (rcv rc1 got (take (Z.to_nat bs) pkt) (n - 4)))
      by (apply consume_run; lia).
    exists true. eexists. split; [done|]. exists rc1. right. split_and!; [done|done|done|].
    intros rest. destruct (D2 rest) as (rc' & ? & ?). eauto.
  - (* additional data *)
    destruct (Z.ltb_spec (zlen got) 4) as [Hg|Hg].
    + destruct (link_short sc rc seq got S A Hg) as (e & rc1 & E & S1).
      rewrite (bind_ok _ _ _ (inl e) (rcv rc1 got inc 0)).
      2: { rewrite on_receive_rcv, Hseq. unfold try_. by rewrite E. }
      exists false. eexists. split; [done|]. split; [unfold auth, n in *; lia|]. left. eauto.
    + pose proof Hcrypt as HC. pose proof Hblocks as HB. rewrite A in HC, HB.
      destruct (link_get_length sc rc seq pkt ct sc' got S Hok A) as (rc1 & E & S1); [lia|exact HB|exact HC| |done|].
      { apply agrees_take; [done|unfold zlen in *; lia|unfold n, auth, zlen in *; lia]. }
      rewrite (bind_ok _ _ _ (inr (n - 4)) (rcv rc1 got inc 0)).
      2: { rewrite on_receive_rcv, Hseq. unfold try_. by rewrite E, Hhead. }
      rewrite (bind_ok (modst _) _ _ tt (rcv rc1 got inc (n - 4))) by done. rewrite bad_packlen_no.
      rewrite (bind_ok (modst _) _ _ tt (rcv rc1 got [] (n - 4))) by done.
      exists true. eexists. split; [done|]. exists rc1. left. auto.
Qed.
(** The rest of a packet that has arrived. *)
Lemma mac_check_same m data d rest : ks_mac_on ks = Some m -> mac_compute m seq data SSH_DIGEST_MAX_LENGTH = inl d ->
  mac_check m seq data (slice d 0 (m_mac_len m) ++ rest) (m_mac_len m) = 0.
Proof using Hmac.
  intros E D. destruct (Hmac m E) as [L HL]. pose proof (HL _ _ D) as Ld.
  unfold mac_check. rewrite Z.gtb_ltb, Z.ltb_irrefl, D. unfold timingsafe_bcmp. rewrite bool_decide_true; [done|].
  rewrite <- Ld, slice_full. unfold zlen. rewrite Nat2Z.id, firstn_all, take_app_length. done.
Qed.

(** The MAC before decryption, *)
Lemma run_mac_before rest (x : ssh) : zlen ct = n + auth ->
  match ks_mac_on ks with
  | Some m => if m_etm m then check_mac m seq (slice (ct ++ mb ++ rest) 0 n) (drop (Z.to_nat (n + auth)) (ct ++ mb ++ rest)) else mret tt
  | None => mret tt
  end x = (Ok tt, x).
Proof using All.
  intros Lct. pose proof Hpmac as P. unfold packet_mac in P. destruct (ks_mac_on ks) as [m|] eqn:E in P |- *; [|done].
  destruct (m_etm m) eqn:Em; [|done]. destruct P as (d & D & ->). unfold check_mac.
  assert (auth = 0) as A0 by (apply Hnomac; by rewrite E). rewrite A0, Z.add_0_r in *.
  rewrite <- Lct. unfold zlen at 2. rewrite Nat2Z.id, drop_app_length. fold n in D. rewrite <- Lct, slice_full in D.
  rewrite slice_prefix, (mac_check_same m ct d rest E D). done.
Qed.

(** and after it. *)
Lemma run_mac_after need rest rc :
  match ks_mac_on ks with
  | None => mret true
  | Some m =>
      bad ← (if m_etm m then mret false
             else
               let r := mac_check m seq pkt (mb ++ rest) (m_mac_len m) in
               if r =? 0 then mret false
               else if negb (r =? SSH_ERR_MAC_INVALID) then throw r
               else if u32 (need + ks_block_size ks) >? PACKET_MAX_SIZE then throw SSH_ERR_INTERNAL_ERROR
               else ssh_packet_start_discard ks (zlen pkt) (PACKET_MAX_SIZE - need - ks_block_size ks);; mret true);
      if (bad : bool) then mret false
      else
        input ← buf_consume (mb ++ rest) (m_mac_len m);
        modst (set_st_input input);;
        mret true
  end (rcv rc (mb ++ rest) pkt (n - 4)) = (Ok true, rcv rc rest pkt (n - 4)).
Proof using All.
  pose proof zlen_mb as Lmb. pose proof (zlen_nonneg rest). pose proof Hpmac as P. unfold packet_mac in P. unfold ks_maclen in Lmb.
  destruct (ks_mac_on ks) as [m|] eqn:E in P, Lmb |- *; [|by rewrite P].
  rewrite (bind_ok _ _ _ false (rcv rc (mb ++ rest) pkt (n - 4))).
  2: { destruct (m_etm m) eqn:Em; [done|]. destruct P as (d & D & ->).
       by rewrite (mac_check_same m pkt d rest E D). }
  rewrite (bind_ok _ _ _ rest (rcv rc (mb ++ rest) pkt (n - 4))); [done|].
  rewrite consume_run by (rewrite zlen_app; lia). rewrite <- Lmb. unfold zlen. by rewrite Nat2Z.id, drop_app_length.
Qed.

Lemma run_decrypt rest r : ready (wire_bytes ++ rest) r ->
  exists rc', decrypt_packet ks (packet_need ks (n - 4)) r = (Ok true, rcv rc' rest pkt (n - 4)) /\ sy sc' rc'.
Proof using All.
  intros (rc & [(A & -> & S)|(A & Hg & -> & S)]).
  - pose proof Hct as Lct. fold n auth in Lct. pose proof (zlen_nonneg (mb ++ rest)).
    assert (packet_need ks (n - 4) = n - 4) as Hneed by (unfold packet_need; fold aad; by rewrite A).
    unfold decrypt_packet. rewrite (bind_ok getst _ _ _ _ eq_refl). autorewrite with rcv. rewrite Hseq. fold aad auth.
    rewrite A, Hneed. replace (4 + (n - 4)) with n by lia. unfold wire_bytes. rewrite <- !app_assoc.
    rewrite (bind_ok _ _ _ tt _ (run_mac_before rest _ Lct)).
    rewrite (bind_ok _ _ _ (zeros n) (rcv rc (ct ++ mb ++ rest) [] (n - 4))).
    2: { unfold n. rewrite append_run; [done|apply rcv_oom|]. rewrite zlen_zeros, zlen_nil by lia. unfold SSHBUF_SIZE_MAX, PACKET_MAX_SIZE in *; lia. }
    rewrite (bind_ok (modst _) _ _ tt (rcv rc (ct ++ mb ++ rest) (zeros n) (n - 4))) by done.
    pose proof Hcrypt as HC. pose proof Hblocks as HB. fold aad in HC, HB. rewrite A in HC, HB.
    destruct (link_open sc rc seq pkt ct sc' (mb ++ rest) S Hok A ltac:(lia) HB HC) as (rc' & D & S'). fold n auth in D.
    rewrite (bind_ok _ _ _ pkt (rcv rc' (ct ++ mb ++ rest) (zeros n) (n - 4))).
    2: { rewrite on_receive_rcv. by rewrite D. }
    rewrite (bind_ok (modst _) _ _ tt (rcv rc' (ct ++ mb ++ rest) pkt (n - 4))) by done.
    rewrite (bind_ok _ _ _ (mb ++ rest) (rcv rc' (ct ++ mb ++ rest) pkt (n - 4))).
    2: { rewrite consume_run by (rewrite zlen_app; lia). rewrite <- Lct. unfold zlen. by rewrite Nat2Z.id, drop_app_length. }
    rewrite (bind_ok (modst _) _ _ tt (rcv rc' (mb ++ rest) pkt (n - 4))) by done.
    exists rc'. split; [|done]. apply run_mac_after.
  - pose proof Hct as Lct. fold n auth in Lct. pose proof (zlen_nonneg (mb ++ rest)). destruct (blocks_fit A) as [Hf Hm].
    destruct (no_aad A) as [A0 Etm]. rewrite A0, Z.add_0_r in Lct. assert (0 < bs) as B0 by (unfold bs; lia).
    assert (packet_need ks (n - 4) = n - bs) as Hneed.
    { unfold packet_need. fold aad bs. rewrite A. cbn. rewrite wrap_small; [lia|]. unfold n, PACKET_MAX_SIZE in *. lia. }
    unfold decrypt_packet. rewrite (bind_ok getst _ _ _ _ eq_refl). autorewrite with rcv. rewrite Hseq. fold aad auth.
    rewrite A, A0, Hneed, Z.add_0_l, Z.add_0_r. unfold wire_bytes. rewrite <- !app_assoc.
    rewrite drop_app_le by (unfold zlen in *; lia).
    set (input := drop (Z.to_nat bs) ct ++ mb ++ rest). set (first := take (Z.to_nat bs) pkt).
    assert (first ++ drop (Z.to_nat bs) pkt = pkt) as Hp by apply take_drop.
    rewrite (bind_ok _ _ _ tt (rcv rc input first (n - 4))).
    2: { unfold ks_etm in Etm. destruct (ks_mac_on ks) as [m|] eqn:E in Etm |- *; [by rewrite Etm|done]. }
    rewrite (bind_ok _ _ _ (first ++ zeros (n - bs)) (rcv rc input first (n - 4))).
    2: { rewrite append_run; [done|apply rcv_oom|]. rewrite zlen_zeros by lia. unfold first, zlen. rewrite length_take.
         unfold SSHBUF_SIZE_MAX, PACKET_MAX_SIZE, n, zlen in *. lia. }
    rewrite (bind_ok (modst _) _ _ tt (rcv rc input (first ++ zeros (n - bs)) (n - 4))) by done.
    destruct (S (mb ++ rest)) as (rc' & D & S').
    rewrite (bind_ok _ _ _ (drop (Z.to_nat bs) pkt) (rcv rc' input (first ++ zeros (n - bs)) (n - 4))).
    2: { rewrite on_receive_rcv. unfold input. by rewrite D. }
    rewrite Hp.
    rewrite (bind_ok (modst _) _ _ tt (rcv rc' input pkt (n - 4))) by done.
    rewrite (bind_ok _ _ _ (mb ++ rest) (rcv rc' input pkt (n - 4))).
    2: { unfold input. rewrite consume_run by (rewrite zlen_app; unfold zlen in *; rewrite ?length_drop; lia).
         do 2 f_equal. apply drop_app_length'. rewrite length_drop. unfold zlen in *. lia. }
    rewrite (bind_ok (modst _) _ _ tt (rcv rc' (mb ++ rest) pkt (n - 4))) by done.
    exists rc'. split; [|done]. apply run_mac_after.
Qed.

(** What the receiver waits for once the length is known. *)
Lemma ready_need got r : ready got r ->
  let st := ssh_state r in
  let need := packet_need ks (st_packlen st) in
  st_packlen st = n - 4 /\ need mod bs = 0 /\
  (zlen (st_input st) <? u32 (aad + need + auth + ks_maclen ks)) = (zlen got <? zlen wire_bytes).
Proof using All.
  pose proof zlen_mb as Lmb. pose proof Hct as Lct. pose proof Hblocks as HB. fold n auth aad bs in Lct, HB.
  assert (zlen wire_bytes = n + auth + ks_maclen ks) as Lw by (unfold wire_bytes; rewrite zlen_app; lia).
  assert (0 <= ks_maclen ks <= 64) as Hml.
  { unfold ks_maclen. destruct (ks_mac_on ks) as [m|] eqn:E in |- *; [|lia]. by apply Hmac. }
  assert (10 <= n <= PACKET_MAX_SIZE + 4 /\ 0 <= auth <= 16) as [Ln La] by (unfold n, auth; auto).
  unfold PACKET_MAX_SIZE in Ln.
  intros (rc & [(A & -> & S)|(A & Hg & -> & S)]); cbv zeta; autorewrite with rcv; unfold packet_need; fold aad bs; rewrite A in HB |- *;
    cbn [Z.eqb negb].
  - split_and!; [done..|]. rewrite wrap_small by lia. rewrite Lw. f_equal. lia.
  - destruct (blocks_fit A) as [Hf Hm]. destruct (no_aad A) as [A0 _]. assert (0 < bs <= 16) as B0 by (unfold bs; lia).
    rewrite (wrap_small 32 (4 + (n - 4) - bs)) by lia. split_and!; [done| |].
    + replace (4 + (n - 4) - bs) with (n + (-1) * bs) by lia. by rewrite Z.mod_add by lia.
    + rewrite wrap_small by lia. rewrite Lw, A0. assert (zlen (drop (Z.to_nat bs) got) = zlen got - bs) as ->
        by (unfold zlen in *; rewrite length_drop; lia).
      destruct (Z.ltb_spec (zlen got - bs) (0 + (4 + (n - 4) - bs) + 0 + ks_maclen ks)), (Z.ltb_spec (zlen got) (n + 0 + ks_maclen ks)); lia || done.
Qed.

Lemma waiting_rcv got r : waiting got r -> exists rc input inc plen, r = rcv rc input inc plen.
Proof using. intros [(rc & inc & -> & _)|[rc [(_ & -> & _)|(_ & _ & -> & _)]]]; eauto. Qed.

(** A call before the packet is complete, *)
Lemma run_poll_incomplete got r : waiting got r -> agrees got -> zlen got < zlen wire_bytes ->
  exists r', ssh_packet_read_poll2 r = (Ok no_packet, r') /\ waiting got r'.
Proof using All.
  intros W G L. destruct (run_read_packlen got r W G) as (known & r' & E & R).
  exists r'. split; [|destruct known; [by right|apply R]].
  destruct (waiting_rcv _ _ W) as (rc & input & inc & plen & ->).
  unfold ssh_packet_read_poll2. rewrite (bind_ok getst _ _ _ _ eq_refl). autorewrite with rcv. rewrite Hmux, Hdiscard. cbn [negb Z.eqb].
  rewrite (bind_ok _ _ _ ks _ (keys_run _ _ _ Hkeys)), (bind_ok _ _ _ _ _ E).
  destruct known; [|done]. cbn [negb]. destruct (ready_need got r' R) as (Hp & Hm & Hl).
  rewrite (bind_ok getst _ _ _ _ eq_refl). cbv zeta. fold bs aad auth. rewrite Hm, Hl. cbn [negb Z.eqb].
  by rewrite (proj2 (Z.ltb_lt _ _) L).
Qed.

(** The receiver that has taken the packet out of its input. *)
Definition taken (rc : sshcipher_ctx) (rest inc : list Z) : ssh :=
  set_ssh_state (mod_ps MODE_IN (counted n bs) (ssh_state (rcv rc rest inc (n - 4)))) (rcv rc rest inc (n - 4)).

Lemma run_unpad rc rest : unpad_packet ks (taken rc rest pkt) = (Ok tt, taken rc rest (type :: body)).
Proof using All.
  unfold unpad_packet. rewrite (bind_ok getst _ _ _ _ eq_refl).
  assert (st_incoming_packet (ssh_state (taken rc rest pkt)) = pkt) as -> by done. cbv zeta.
  assert (byte_at pkt 4 = zlen pad) as ->.
  { rewrite Hpkt. unfold byte_at. change (Z.to_nat 4) with 4%nat. rewrite <- Hhdr, nth_lookup.
    rewrite lookup_app_r, Nat.sub_diag by lia. done. }
  rewrite (proj2 (Z.ltb_ge _ _)) by lia.
  rewrite (bind_ok _ _ _ ((type :: body) ++ pad) (taken rc rest pkt)).
  2: { rewrite consume_run by lia. rewrite Hpkt at 1. change (Z.to_nat (4 + 1)) with (4 + 1)%nat. rewrite <- Hhdr.
       rewrite app_assoc. do 2 f_equal. apply drop_app_length'. rewrite length_app. cbn. lia. }
  rewrite (bind_ok (modst _) _ _ tt (taken rc rest ((type :: body) ++ pad))) by done.
  rewrite (bind_ok _ _ _ (type :: body) (taken rc rest ((type :: body) ++ pad))).
  2: { rewrite consume_end_run by (rewrite zlen_app; pose proof (zlen_nonneg (type :: body)); lia). do 2 f_equal.
       apply take_app_length'. rewrite zlen_app. unfold zlen. lia. }
  rewrite (bind_ok (modst _) _ _ tt (taken rc rest (type :: body))) by done. by rewrite Hcomp.
Qed.

(** and the call that completes it: what remains of it is the effect of the
    message on the transport. *)
Lemma run_poll_complete rest r : waiting (wire_bytes ++ rest) r ->
  exists rc', sy sc' rc' /\ ssh_packet_read_poll2 r = (packet_received type;; mret (type, seq)) (taken rc' rest body).
Proof using All.
  intros W. assert (agrees (wire_bytes ++ rest)) as G by (exists [], rest; by rewrite app_nil_r).
  destruct (run_read_packlen _ r W G) as (known & r' & E & R).
  assert (zlen wire_bytes <= zlen (wire_bytes ++ rest)) as L by (rewrite zlen_app; pose proof (zlen_nonneg rest); lia).
  destruct known; [|destruct R; lia]. destruct (ready_need _ r' R) as (Hp & Hm & Hl).
  destruct (run_decrypt rest r' R) as (rc' & D & S). exists rc'. split; [done|].
  destruct (waiting_rcv _ _ W) as (rc & input & inc & plen & ->).
  unfold ssh_packet_read_poll2. rewrite (bind_ok getst _ _ _ _ eq_refl). autorewrite with rcv. rewrite Hmux, Hdiscard. cbn [negb Z.eqb].
  rewrite (bind_ok _ _ _ ks _ (keys_run _ _ _ Hkeys)), (bind_ok _ _ _ _ _ E). cbn [negb].
  rewrite (bind_ok getst _ _ _ _ eq_refl). cbv zeta. fold bs aad auth. rewrite Hm, Hl, (proj2 (Z.ltb_ge _ _) L), Hp. cbn [negb Z.eqb].
  rewrite (bind_ok _ _ _ _ _ D). cbn [negb]. rewrite (bind_ok getst _ _ _ _ eq_refl). autorewrite with rcv. rewrite Hseq.
  assert (u32 (n - 4 + 4) = n) as -> by (rewrite wrap_small by (unfold n, PACKET_MAX_SIZE in *; lia); lia).
  rewrite (bind_ok _ _ _ tt (taken rc' rest pkt)) by (apply count_run; cbv zeta; autorewrite with rcv; rewrite ?Hseq; done).
  rewrite (bind_ok _ _ _ tt _ (run_unpad rc' rest)).
  rewrite (bind_ok _ _ _ type (taken rc' rest body)).
  2: { unfold sshpkt_get_u8, sshpkt_get. rewrite (bind_ok _ _ _ [type] (taken rc' rest body)); [done|].
       rewrite (bind_ok getst _ _ _ _ eq_refl). cbv zeta.
       assert (st_incoming_packet (ssh_state (taken rc' rest (type :: body))) = type :: body) as -> by done.
       rewrite (bind_ok _ _ _ body (taken rc' rest (type :: body))); [done|].
       rewrite consume_run by (rewrite zlen_cons; pose proof (zlen_nonneg body); lia). done. }
  rewrite (proj2 (Z.ltb_ge _ _) Htype). done.
Qed.

(** More input. *)
Lemma run_incoming got buf r : waiting got r -> zlen (got ++ buf) <= SSHBUF_SIZE_MAX ->
  exists r', ssh_packet_process_incoming buf r = (Ok tt, r') /\ waiting (got ++ buf) r'.
Proof using All.
  intros W L. assert (forall rc input inc plen, zlen input <= zlen got ->
    ssh_packet_process_incoming buf (rcv rc input inc plen) = (Ok tt, rcv rc (input ++ buf) inc plen)) as P.
  { intros rc input inc plen Hi. unfold ssh_packet_process_incoming. rewrite (bind_ok getst _ _ _ _ eq_refl).
    autorewrite with rcv. rewrite Hdiscard. cbn [negb Z.eqb].
    rewrite (bind_ok _ _ _ (input ++ buf) (rcv rc input inc plen)); [done|].
    apply append_run; [apply rcv_oom|]. rewrite zlen_app in L. lia. }
  destruct W as [(rc & inc & -> & S)|[rc [(A & -> & S)|(A & Hg & -> & S)]]]; eexists; (split; [apply P|]).
  - lia.
  - left. eauto.
  - lia.
  - right. exists rc. left. eauto.
  - unfold zlen. rewrite length_drop. lia.
  - right. exists rc. right. split_and!; [done|rewrite zlen_app; pose proof (zlen_nonneg buf); lia| |done].
    rewrite drop_app_le; [done|]. unfold zlen in Hg. lia.
Qed.
Lemma agrees_app got x : agrees (got ++ x) -> agrees got.
Proof. intros (a & y & E). exists (x ++ a), y. by rewrite app_assoc. Qed.

Lemma run_deliver_all chunks got r : waiting got r -> agrees (got ++ concat chunks) ->
  zlen (got ++ concat chunks) < zlen wire_bytes -> zlen (got ++ concat chunks) <= SSHBUF_SIZE_MAX ->
  exists r', deliver_all chunks r = (Ok (replicate (length chunks) no_packet), r') /\ waiting (got ++ concat chunks) r'.
Proof using All.
  revert got r. induction chunks as [|c cs IH]; intros got r W G L M; cbn [concat] in G, L, M |- *.
  { rewrite app_nil_r. by exists r. }
  rewrite app_assoc in G, L, M |- *. pose proof (zlen_nonneg (concat cs)).
  destruct (run_incoming got c r W) as (r1 & E1 & W1); [rewrite zlen_app in M; lia|].
  destruct (run_poll_incomplete (got ++ c) r1 W1) as (r2 & E2 & W2); [by eapply agrees_app|rewrite zlen_app in L; lia|].
  destruct (IH (got ++ c) r2 W2 G L M) as (r3 & E3 & W3). exists r3. split; [|done].
  cbn [deliver_all length replicate]. rewrite (bind_ok _ _ r no_packet r2) by (unfold deliver; by rewrite (bind_ok _ _ _ _ _ E1)).
  by rewrite (bind_ok _ _ _ _ _ E3).
Qed.

Lemma run_transfer chunks last rest inp r : waiting inp r -> inp ++ concat chunks ++ last = wire_bytes ++ rest ->
  zlen (inp ++ concat chunks) < zlen wire_bytes -> zlen (wire_bytes ++ rest) <= SSHBUF_SIZE_MAX ->
  exists r1 rc', deliver_all chunks r = (Ok (replicate (length chunks) no_packet), r1) /\ sy sc' rc' /\
    deliver last r1 = (packet_received type;; mret (type, seq)) (taken rc' rest body).
Proof using All.
  intros W E L M. assert (zlen (inp ++ concat chunks) + zlen last = zlen (wire_bytes ++ rest)) as HL
    by (rewrite <- E, app_assoc, (zlen_app (inp ++ _)); lia). pose proof (zlen_nonneg last).
  destruct (run_deliver_all chunks inp r W) as (r1 & E1 & W1); [|done|lia|].
  { exists last, rest. by rewrite <- app_assoc. }
  destruct (run_incoming _ last r1 W1) as (r2 & E2 & W2); [rewrite <- app_assoc, E; lia|].
  rewrite <- app_assoc, E in W2. destruct (run_poll_complete rest r2 W2) as (rc' & S & E3).
  exists r1, rc'. split_and!; [done..|]. unfold deliver. by rewrite (bind_ok _ _ _ _ _ E2).
Qed.
End Packet.

(** ** The two ends of a direction *)

(** Keys for which the layer's arithmetic is what it should be. *)
Record keys_wf (ks : keys) : Prop := {
  kw_block : ks_block_size ks = 8 \/ ks_block_size ks = 16;
  kw_auth : 0 <= ks_authlen ks <= 16;
  kw_mac : forall m, ks_mac_on ks = Some m -> 0 <= m_mac_len m <= 64 /\
    forall seq data d, mac_compute m seq data SSH_DIGEST_MAX_LENGTH = inl d -> zlen d = m_mac_len m;
  kw_comp : ks_comp_on ks = false
}.

(** Key records that the packet functions cannot tell apart: the key bytes are
    only used to set up the contexts. *)
Record alike (ks ks' : keys) : Prop := {
  al_block : ks_block_size ks = ks_block_size ks';
  al_mac : ks_mac ks = ks_mac ks';
  al_comp : ks_comp_on ks = ks_comp_on ks';
  al_auth : ks_authlen ks = ks_authlen ks'
}.

#[export] Instance alike_equivalence : Equivalence alike.
Proof.
  split; [by split|intros x y [? ? ? ?]; by split|]. intros x y z [? ? ? ?] [? ? ? ?]. split; congruence.
Qed.

#[export] Instance ks_aadlen_proper : Proper (alike ==> eq) ks_aadlen.
Proof. intros x y [_ M _ A]. unfold ks_aadlen, ks_etm, ks_mac_on. by rewrite M, A. Qed.

Lemma wf_alike ks ks' : alike ks ks' -> keys_wf ks -> keys_wf ks'.
Proof.
  intros [B M C A] [W1 W2 W3 W4]. unfold ks_mac_on in *. split; [by rewrite <- B|by rewrite <- A| |by rewrite <- C].
  unfold ks_mac_on. by rewrite <- M.
Qed.

Lemma link_alike ks ks' sy : alike ks ks' -> Link ks sy -> Link ks' sy.
Proof.
  intros H [L1 L2 L3 L4 L5]. pose proof (ks_aadlen_proper _ _ H) as Q. destruct H as [B _ _ A].
  split; rewrite <- ?B, <- ?A, <- ?Q; done.
Qed.

Lemma emitted_alike ks ks' s s1 pkt ct mb pad cc cc' : alike ks ks' -> emitted ks s s1 pkt ct mb pad cc cc' ->
  emitted ks' s s1 pkt ct mb pad cc cc'.
Proof.
  intros H [E1 E2 E3 E4 E5 E6 E7 E8]. pose proof (ks_aadlen_proper _ _ H) as Q. destruct H as [B M _ A].
  split; rewrite <- ?B, <- ?A, <- ?Q; try done. unfold packet_mac, ks_mac_on in *. by rewrite <- M.
Qed.

(** The keys of a direction, up to this. *)
Definition keys_like (nk : option newkeys) (ks : keys) : Prop := exists ks0, keys_are nk ks0 /\ alike ks0 ks.

Lemma keys_are_like nk ks : keys_are nk ks -> keys_like nk ks.
Proof. intros K. by exists ks. Qed.

(** The sender [s] and the receiver [r] have the same keys and sequence number
    and cipher contexts that belong together. *)
Record linked (ks : keys) (sy : sshcipher_ctx -> sshcipher_ctx -> Prop) (s r : ssh) : Prop := {
  lk_out : keys_like (st_newkeys_out (ssh_state s)) ks;
  lk_in : keys_like (st_newkeys_in (ssh_state r)) ks;
  lk_ctx : exists sc rc, st_send_context (ssh_state s) = Some sc /\ st_receive_context (ssh_state r) = Some rc /\ sy sc rc;
  lk_seq : ps_seqnr (st_p_send (ssh_state s)) = ps_seqnr (st_p_read (ssh_state r))
}.

(** A receiver between packets. *)
Record idle (r : ssh) : Prop := {
  id_oom : ssh_oom r = [];
  id_mux : st_mux (ssh_state r) = false;
  id_discard : st_packet_discard (ssh_state r) = 0;
  id_packlen : st_packlen (ssh_state r) = 0
}.

(** A message that is ready to be sent. *)
Record outgoing (s : ssh) (type : Z) (body : list Z) : Prop := {
  og_packet : exists hdr, length hdr = 5%nat /\ st_outgoing_packet (ssh_state s) = hdr ++ type :: body;
  og_bytes : bytes_ok (type :: body);
  og_type : SSH2_MSG_MIN <= type;
  og_size : zlen body + 6 + 255 <= PACKET_MAX_SIZE;
  og_pad : 0 <= st_extra_pad (ssh_state s) < 256
}.

(** The layout of an emitted packet. *)
Lemma emitted_layout ks s s1 pkt ct mb pad cc cc' type body :
  emitted ks s s1 pkt ct mb pad cc cc' -> outgoing s type body ->
  let hdr := POKE_U32 (zlen pkt - 4) in
  pkt = hdr ++ [zlen pad] ++ (type :: body) ++ pad /\ bytes_ok pkt /\ PEEK_U32 pkt = zlen pkt - 4 /\
  10 <= zlen pkt <= PACKET_MAX_SIZE + 4.
Proof.
  intros E O hdr. destruct O as [(h5 & H5 & Ho) B T L P]. pose proof (em_pad _ _ _ _ _ _ _ _ _ E) as Lp.
  pose proof (em_pkt _ _ _ _ _ _ _ _ _ E) as Hp. rewrite Ho in Hp. unfold PACKET_MAX_SIZE in *.
  assert (zlen ((h5 ++ type :: body) ++ pad) = 6 + zlen body + zlen pad) as Lz.
  { rewrite !zlen_app, zlen_cons. unfold zlen at 1. lia. }
  pose proof (zlen_nonneg body). assert (zlen pkt = 6 + zlen body + zlen pad) as Ln
    by (rewrite Hp, zlen_set_header; lia).
  assert (pkt = hdr ++ [zlen pad] ++ (type :: body) ++ pad) as Hpk.
  { rewrite Hp at 1. unfold set_header. rewrite Lz, <- Ln. fold hdr. rewrite (wrap_small 8) by lia.
    rewrite <- H5, <- app_assoc, drop_app_length. done. }
  split_and!; [done| | |lia..].
  - rewrite Hpk. rewrite !bytes_ok_app. split_and!; [apply poke_ok_u32| |done|apply (em_pad_ok _ _ _ _ _ _ _ _ _ E)].
    unfold bytes_ok. rewrite Forall_singleton. unfold byte_ok. lia.
  - rewrite Hpk at 1. rewrite (peek_prefix _ hdr).
    + apply peek_poke_u32. lia.
    + by rewrite take_app_le.
Qed.

Lemma rcv_self r rc : st_receive_context (ssh_state r) = Some rc -> st_packlen (ssh_state r) = 0 ->
  r = rcv r rc (st_input (ssh_state r)) (st_incoming_packet (ssh_state r)) 0.
Proof. destruct r as [[]]. cbn. by intros -> ->. Qed.

Section Transfer.
Context (ks : keys) (sy : sshcipher_ctx -> sshcipher_ctx -> Prop) `{!Link ks sy}.

Lemma packet_transfer_poll s s1 r type body : keys_wf ks -> linked ks sy s r -> idle r -> outgoing s type body ->
  emit_packet s = (Ok tt, s1) ->
  let seq := ps_seqnr (st_p_read (ssh_state r)) in
  0 <= seq < UINT_MAX -> 0 <= ps_packets (st_p_read (ssh_state r)) < UINT_MAX ->
  exists wire, st_output (ssh_state s1) = st_output (ssh_state s) ++ wire /\
  forall chunks last rest,
    st_input (ssh_state r) ++ concat chunks ++ last = wire ++ rest ->
    zlen (st_input (ssh_state r) ++ concat chunks) < zlen wire -> zlen (wire ++ rest) <= SSHBUF_SIZE_MAX ->
  exists r1 r2, deliver_all chunks r = (Ok (replicate (length chunks) no_packet), r1) /\
    deliver last r1 = (packet_received type;; mret (type, seq)) r2 /\
    linked ks sy s1 r2 /\ idle (set_ssh_state (set_st_packlen 0 (ssh_state r2)) r2) /\
    st_input (ssh_state r2) = rest /\ st_incoming_packet (ssh_state r2) = body /\
    ssh_kex r2 = ssh_kex r /\ ps_seqnr (st_p_read (ssh_state r2)) = seq + 1.
Proof.
  intros W K I O E seq Hs Hp. destruct K as [(ko & K1 & Ao) (kr & K2 & Ar) (sc & rc & C1 & C2 & S) K4]. destruct I as [I1 I2 I3 I4].
  destruct O as [(h5 & H5 & Ho) Bo T L P] eqn:EO. pose proof (zlen_nonneg body) as Lb.
  pose proof (wf_alike ks ko (symmetry Ao) W) as Wo.
  destruct (emit_inv ko s s1 E K1 (kw_comp _ Wo) (kw_block _ Wo) P) as (pkt & ct & mb & pad & cc & cc' & EM).
  { rewrite Ho, zlen_app, zlen_cons. unfold zlen at 1 3. lia. }
  assert (alike ko kr) as Aor by (etrans; [exact Ao|by symmetry]). apply (emitted_alike _ _ _ _ _ _ _ _ _ _ Aor) in EM.
  apply (wf_alike ks kr (symmetry Ar)) in W. pose proof (link_alike ks kr sy (symmetry Ar) Link0) as Lk. clear Wo Link0.
  destruct (emitted_layout _ _ _ _ _ _ _ _ _ _ _ EM O) as (Hpkt & Bp & Hh & Lp). destruct EM as [E1 E2 E3 E4 E5 E6 E7 E8].
  assert (cc = sc) as -> by congruence. rewrite K4 in E6, E7. fold seq in E6, E7.
  assert (zlen ct = zlen pkt + ks_authlen kr) as Lct.
  { eapply (link_length sc rc); eauto. destruct (aadlen_cases kr) as [-> | ->]; lia. }
  exists (ct ++ mb). split; [by rewrite E8|]. intros chunks last rest Hc Hl Hm.
  assert (waiting kr sy pkt ct seq sc cc' r (st_input (ssh_state r)) r) as Wr.
  { left. exists rc, (st_incoming_packet (ssh_state r)). split; [by apply rcv_self|done]. }
  edestruct (run_transfer kr sy pkt ct mb seq sc cc') as (r1 & rc' & D1 & S' & D2); eauto using keys_are_mac; try apply W.
  { intros m Hm'. destruct (kw_mac _ W m Hm'). split; [done|eauto]. }
  exists r1. eexists. split_and!; [exact D1|exact D2| |by split|done..|].
  2: { cbn. fold seq. unfold UINT_MAX in Hs. rewrite (wrap_small 32); lia. }
  split; [rewrite E8; by exists ko|by exists kr| |].
  - exists cc', rc'. by rewrite E8.
  - rewrite E8. cbn. unfold seq in K4. by rewrite K4.
Qed.

(** Messages with no effect on the transport. *)
Definition plain_message (type : Z) : Prop := type <> SSH2_MSG_NEWKEYS /\ type <> SSH2_MSG_USERAUTH_SUCCESS.

Lemma received_plain {A} type (x : A) r : plain_message type ->
  (packet_received type;; mret x) r =
  (ssh_packet_check_rekey;; mret x) (set_ssh_state (set_st_packlen 0 (ssh_state r)) r).
Proof.
  intros [N1 N2]. unfold packet_received, mbind, M_bind. cbn [getst gets].
  rewrite (proj2 (Z.eqb_neq _ _) N1), (proj2 (Z.eqb_neq _ _) N2). reflexivity.
Qed.

Lemma outgoing_type s type body : outgoing s type body -> packet_type (st_outgoing_packet (ssh_state s)) = type.
Proof.
  intros [(h & Hh & ->) _ _ _ _]. unfold packet_type, byte_at. by rewrite nth_lookup, lookup_app_r, Hh by lia.
Qed.

Lemma sent_plain s s1 type body : outgoing s type body -> plain_message type ->
  ssh_packet_send2_wrapped s = (Ok tt, s1) -> emit_packet s = (Ok tt, s1).
Proof.
  intros O [N1 N2] H. unfold ssh_packet_send2_wrapped in H. rewrite (bind_ok getst _ s _ s eq_refl) in H. cbv beta zeta in H.
  destruct (bind_inv_ok _ _ _ _ _ H) as ([] & s2 & E & H2).
  rewrite (outgoing_type _ _ _ O) in H2. unfold packet_sent in H2.
  rewrite (proj2 (Z.eqb_neq _ _) N1) in H2. rewrite (bind_ok getst _ s2 _ s2 eq_refl) in H2.
  rewrite (proj2 (Z.eqb_neq _ _) N2) in H2. cbn [andb] in H2. by injection H2 as <-.
Qed.

(** C1: One packet, from the sender's buffer to the receiver's message.  The
    two ends of a direction have the same keys and sequence number and matching
    cipher contexts ([linked]; [Link] holds for chacha20-poly1305, for no
    cipher, and for stream and GCM ciphers that invert).  The sender emits a
    message; the bytes it appends to its output reach the receiver in any
    pieces, possibly followed by the start of the next packet.  Before the last
    piece the receiver reports no packet and no error; with it, it returns the
    type and the sequence number and holds exactly the message's body, the
    bytes of the next packet are left in its input, and the two ends are linked
    again; only the check whether to rekey is left to do. *)
Theorem packet_transfer s s1 r type body :
  keys_wf ks -> linked ks sy s r -> idle r -> outgoing s type body -> plain_message type ->
  ssh_packet_send2_wrapped s = (Ok tt, s1) ->
  let seq := ps_seqnr (st_p_read (ssh_state r)) in
  0 <= seq < UINT_MAX -> 0 <= ps_packets (st_p_read (ssh_state r)) < UINT_MAX ->
  exists wire, st_output (ssh_state s1) = st_output (ssh_state s) ++ wire /\
  forall chunks last rest,
    st_input (ssh_state r) ++ concat chunks ++ last = wire ++ rest ->
    zlen (st_input (ssh_state r) ++ concat chunks) < zlen wire -> zlen (wire ++ rest) <= SSHBUF_SIZE_MAX ->
  exists r1 r2, deliver_all chunks r = (Ok (replicate (length chunks) no_packet), r1) /\
    deliver last r1 = (ssh_packet_check_rekey;; mret (type, seq)) r2 /\
    linked ks sy s1 r2 /\ idle r2 /\ st_input (ssh_state r2) = rest /\ st_incoming_packet (ssh_state r2) = body.
Proof.
  intros W K I O P H seq Hs Hp. apply (sent_plain _ _ _ _ O P) in H.
  destruct (packet_transfer_poll s s1 r type body W K I O H Hs Hp) as (wire & Hw & T). exists wire. split; [done|].
  intros chunks last rest E L M. destruct (T chunks last rest E L M) as (r1 & r2 & D1 & D2 & K2 & I2 & F1 & F2 & _).
  rewrite received_plain in D2 by done. exists r1. eexists. split_and!; [exact D1|exact D2| |done..].
  destruct K2. by split.
Qed.
End Transfer.
End Xfer.

(** A connection under a chacha20-poly1305 key, before a first message. *)
Module Sample.
#[local] Existing Instance no_crypto.

Definition enc : option sshenc :=
  c ← cipher_by_name (str "chacha20-poly1305@openssh.com");
  Some (mk_enc (ci_name c) c true 64 0 8 (Some (map Z.of_nat (seq 0 64))) (Some [])).
Definition nk : newkeys := mk_newkeys enc mac_zero (mk_comp COMP_NONE false (Some (str "none"))).
Definition keyed (md : mode) : M ssh unit :=
  ssh_packet_set_connection;; modkex (Packet.set_k_newkeys md (Some nk));; ssh_set_newkeys md.
Definition sender : ssh := fresh (keyed MODE_OUT;; sshpkt_start 94;; sshpkt_put (str "hello")).
Definition receiver : ssh := fresh (keyed MODE_IN).
Definition sent : ssh := (ssh_packet_send2_wrapped sender).2.
Definition ks : keys := mk_keys enc None (Some (nk_comp nk)) 16.
End Sample.

Lemma packet_transfer_witness :
  exists wire, st_output (ssh_state Sample.sent) = st_output (ssh_state Sample.sender) ++ wire /\
  forall chunks last rest,
    concat chunks ++ last = wire ++ rest -> zlen (concat chunks) < zlen wire -> zlen (wire ++ rest) <= SSHBUF_SIZE_MAX ->
  exists r1 r2, @deliver_all no_crypto chunks Sample.receiver = (Ok (replicate (length chunks) no_packet), r1) /\
    deliver last r1 = (ssh_packet_check_rekey;; mret (94, 0)) r2 /\
    linked Sample.ks chacha_sync Sample.sent r2 /\ idle r2 /\ st_input (ssh_state r2) = rest /\
    st_incoming_packet (ssh_state r2) = str "hello".
Proof.
  apply (@packet_transfer no_crypto Sample.ks chacha_sync (@chacha_link no_crypto Sample.ks eq_refl eq_refl)
    Sample.sender Sample.sent Sample.receiver 94 (str "hello")).
  - split; [by left|by vm_compute|done|done].
  - split; [apply keys_are_like; vm_compute; eexists; split; reflexivity..| |reflexivity].
    eexists _, _. split_and!; [vm_compute; reflexivity..|]. by constructor.
  - by split.
  - split; [|apply (bool_decide_unpack (Forall (fun b => 0 <= b < 256) _)); vm_compute; exact I|by vm_compute..].
    exists [0; 0; 0; 0; 0]. by split; vm_compute.
  - by split.
  - vm_compute. reflexivity.
  - by vm_compute.
  - by vm_compute.
Defined.
