(* ===== verification/KexThms.v ===== *)
(** * Agreement of a key exchange

    The two sides of a key exchange that hold each other's KEXINIT choose the
    same algorithms, and, with the same exchange hash and shared secret, have
    crosswise the same keys. *)

From S2P Require Import Prelude Ssherr Cstring Match KexNames SshkeyNames Hmac Cipher SshState Packet PacketRead Kex PacketState SshWp PacketFuel CipherLink PacketSend PacketXfer.
From S2P Require Import Sshbuf SshbufGetput SshbufWire.

Section KexThms.
Context {CR : Crypto} (nids : curve_nids).

Abbreviation SM := (M ssh).

(** ** Proposals *)

(** The decoder of a KEXINIT. *)
Fixpoint cstrings (n : nat) (b : list Z) : option (list (list Z) * list Z) :=
  match n with
  | O => Some ([], b)
  | S n =>
      match parse_cstring b with
      | inl _ => None
      | inr (v, b) => '(vs, b) ← cstrings n b; Some (v :: vs, b)
      end
  end.

Definition proposal_of (raw : list Z) : option (Z * list (list Z)) :=
  if zlen raw <? KEX_COOKIE_LEN then None
  else
    '(proposal, b) ← cstrings PROPOSAL_MAX (drop (Z.to_nat KEX_COOKIE_LEN) raw);
    if zlen b <? 5 then None else Some (byte_at b 0, proposal).

Lemma swp_cstrings n b s :
  swp (get_cstrings n b) (fun r s' => cstrings n b = Some r /\ same_but_oom s s') s.
Proof.
  revert b s. induction n as [|n IH]; intros b s; cbn [get_cstrings cstrings].
  { apply swp_ret. split; [done|apply same_oom_refl]. }
  destruct (parse_cstring b) as [e|[v b']]; [apply swp_throw|]. apply swp_bind, swp_salloc. intros [] o; [|apply swp_throw].
  apply swp_bind. eapply swp_mono; [|apply IH]. intros [vs b2] s2 [E S]. apply swp_ret. cbn in E |- *. rewrite E.
  split; [done|by eapply same_oom_step].
Qed.

Lemma swp_buf2prop raw s :
  swp (kex_buf2prop raw) (fun r s' => proposal_of raw = Some r /\ same_but_oom s s') s.
Proof.
  unfold kex_buf2prop, proposal_of. apply swp_bind, swp_salloc. intros b1 o. apply swp_bind, swp_salloc. intros b2 o2.
  destruct (negb b1 || negb b2); [apply swp_throw|]. apply swp_bind, swp_consume. intros H. rewrite (proj2 (Z.ltb_ge _ _)) by done.
  apply swp_bind. eapply swp_mono; [|apply swp_cstrings]. intros [vs b] s2 [E S]. apply swp_bind, swp_consume. intros H1.
  apply swp_bind, swp_consume. intros H2. apply swp_ret. rewrite E. cbn [mbind option_bind].
  rewrite (proj2 (Z.ltb_ge (zlen b) 5)); [split; [done|]|]. { destruct S as [o3 ->]. by exists o3. }
  unfold zlen in *. rewrite length_drop in H2. lia.
Qed.

(** ** The round trip of a proposal *)

Lemma put_all_ok b fs s b' s' : put_all b fs s = (Ok b', s') -> b' = b ++ concat fs /\ (fs <> [] -> zlen b' <= SSHBUF_SIZE_MAX).
Proof.
  revert b s. induction fs as [|f fs IH]; intros b s H; cbn [put_all concat] in *.
  { injection H as <- <-. by rewrite app_nil_r. }
  destruct (bind_inv_ok _ _ _ _ _ H) as (b1 & s1 & E & H1). destruct (append_inv _ _ _ _ _ E) as (-> & L & _).
  destruct (IH _ _ H1) as [-> L']. split; [by rewrite app_assoc|]. intros _. destruct fs; [|by apply L'].
  cbn in *. by rewrite app_nil_r.
Qed.

Lemma get_cstrings_run ps rest s : ssh_oom s = [] -> Forall (fun v => memchr v 0 = None) ps ->
  zlen (concat (wire_string <$> ps)) <= SSHBUF_SIZE_MAX ->
  get_cstrings (length ps) (concat (wire_string <$> ps) ++ rest) s = (Ok (ps, rest), s).
Proof.
  intros O. induction ps as [|v ps IH]; intros F L; [done|]. apply Forall_cons in F as [F1 F2]. cbn [length get_cstrings fmap list_fmap concat] in *.
  rewrite zlen_app in L. pose proof (zlen_nonneg (concat (wire_string <$> ps))). pose proof (zlen_nonneg (wire_string v)).
  rewrite <- app_assoc, parse_cstring_wire by (done || lia).
  rewrite (bind_ok salloc _ s true s) by (unfold salloc; rewrite O; cbn; by rewrite set_oom_nil). cbn [negb].
  by rewrite (bind_ok _ _ _ _ _ (IH F2 ltac:(lia))).
Qed.

(** C27: A proposal survives the wire.  What [kex_prop2buf] writes for ten names
    without NUL bytes, with any cookie filled in, [kex_buf2prop] reads back as
    the same ten names and with [first_kex_follows] 0. *)
Theorem proposal_roundtrip cookie prop s b s1 s2 : length prop = PROPOSAL_MAX -> Forall (fun v => memchr v 0 = None) prop ->
  kex_prop2buf prop s = (Ok b, s1) -> zlen cookie = KEX_COOKIE_LEN -> ssh_oom s2 = [] ->
  kex_buf2prop (cookie ++ drop (Z.to_nat KEX_COOKIE_LEN) b) s2 = (Ok (0, prop), s2).
Proof.
  intros L F H C O. unfold kex_prop2buf in H.
  destruct (bind_inv_ok _ _ _ _ _ H) as (b1 & s3 & E1 & H1). apply put_all_ok in E1 as [-> _].
  destruct (bind_inv_ok _ _ _ _ _ H1) as (b2 & s4 & E2 & H2). apply put_all_ok in E2 as [-> _].
  apply put_all_ok in H2 as [-> M]. specialize (M ltac:(done)).
  set (fields := concat (wire_string <$> prop)) in *. rewrite <- !app_assoc in *. rewrite !zlen_app in M.
  set (z16 := concat (replicate (Z.to_nat KEX_COOKIE_LEN) [0])) in *. set (tl := concat [[0]; POKE_U32 0]) in *.
  change ([] ++ z16 ++ fields ++ tl) with (z16 ++ fields ++ tl). rewrite (drop_app_length' z16 (fields ++ tl)) by done.
  pose proof (zlen_nonneg z16). pose proof (zlen_nonneg tl). pose proof (zlen_nonneg fields). rewrite zlen_nil in M.
  unfold kex_buf2prop. assert (forall s, ssh_oom s = [] -> salloc s = (Ok true, s)) as A
    by (intros x Ox; unfold salloc; rewrite Ox; cbn; by rewrite set_oom_nil).
  rewrite !(bind_ok _ _ _ _ _ (A s2 O)). cbn [negb orb].
  rewrite (bind_ok _ _ _ (fields ++ tl) s2).
  2: { rewrite consume_run by (rewrite !zlen_app; lia).
       do 2 f_equal. apply drop_app_length'. rewrite <- C. unfold zlen. lia. }
  rewrite <- L. rewrite (bind_ok _ _ _ (prop, tl) s2); [done|].
  apply get_cstrings_run; [done..|]. fold fields. lia.
Qed.

(** ** Choices *)

Lemma swp_or_failed {A} peer i (m : SM A) (Q : A -> ssh -> Prop) s : swp m Q s -> swp (or_failed peer i m) Q s.
Proof. intros W. apply swp_catch; [done|]. intros e s'. apply swp_bind, swp_modkex, swp_throw. Qed.

Lemma choose_mac_ok ok c s m : choose_mac ok c s = inl m -> choose_mac true c s = inl m.
Proof.
  unfold choose_mac, mac_setup, mac_setup_by_alg. destruct (match_list c s).1 as [name|]; [|done].
  destruct (mac_by_name name) as [a|]; [|done]. destruct (ma_type a =? SSH_DIGEST); [|done].
  destruct ok; [done|]. unfold ssh_hmac_start, ssh_digest_start. by destruct (ssh_digest_by_alg (ma_alg a)).
Qed.

(** What a direction uses: the first proposals of the client that the server
    has too. *)
Definition keys_for (cprop sprop : list (list Z)) (ctos : bool) : option newkeys :=
  let nenc := if ctos then PROPOSAL_ENC_ALGS_CTOS else PROPOSAL_ENC_ALGS_STOC in
  let nmac := if ctos then PROPOSAL_MAC_ALGS_CTOS else PROPOSAL_MAC_ALGS_STOC in
  let ncomp := if ctos then PROPOSAL_COMP_ALGS_CTOS else PROPOSAL_COMP_ALGS_STOC in
  match choose_enc (prop_at cprop nenc) (prop_at sprop nenc) with
  | inr _ => None
  | inl enc =>
      match (if cipher_authlen (e_cipher enc) =? 0 then choose_mac true (prop_at cprop nmac) (prop_at sprop nmac)
             else inl mac_zero), choose_comp (prop_at cprop ncomp) (prop_at sprop ncomp) with
      | inl mac, inl comp => Some (mk_newkeys (Some enc) mac comp)
      | _, _ => None
      end
  end.

Lemma swp_choose_mode server cprop sprop peer m s0 s k : with_kex s0 k s ->
  swp (choose_mode server cprop sprop peer m)
    (fun _ s' => exists nk, keys_for cprop sprop (ctos_mode server m) = Some nk /\ with_kex s0 (set_k_newkeys m (Some nk) k) s') s.
Proof.
  intros W0. unfold choose_mode, keys_for. replace (_ || _) with (ctos_mode server m) by (by destruct server, m).
  set (nmac := if ctos_mode server m then PROPOSAL_MAC_ALGS_CTOS else PROPOSAL_MAC_ALGS_STOC).
  eapply swp_bind, step_salloc; [done|]. intros [] s1 W1; [|apply swp_throw]. eapply swp_bind, step_modkex; [done|]. intros s2 W2.
  apply swp_bind, swp_or_failed, swp_lift. intros enc Ee. rewrite Ee. eapply swp_bind, step_modkex; [done|]. intros s3 W3.
  apply swp_bind. eapply (swp_mono _ (fun mac s' => (if cipher_authlen (e_cipher enc) =? 0 then
      choose_mac true (prop_at cprop nmac) (prop_at sprop nmac) else inl mac_zero) = inl mac /\ exists nk, with_kex s0 (set_k_newkeys m nk k) s')).
  2: { assert (exists nk, with_kex s0 (set_k_newkeys m nk k) s3) as HW by (eexists; by destruct m).
       destruct (cipher_authlen _ =? 0); [|by apply swp_ret]. destruct HW as [nk HW].
       eapply swp_bind, step_salloc; [exact HW|]. intros ok s4 W4. apply swp_or_failed, swp_lift. intros mac Em.
       split; [by apply choose_mac_ok in Em|by exists nk]. }
  intros mac s4 [Em [nk4 W4]]. eapply swp_bind, step_modkex; [exact W4|]. intros s5 W5.
  apply swp_bind, swp_or_failed, swp_lift. intros comp Ec. eapply step_modkex; [exact W5|]. intros s6 W6.
  eexists. rewrite Em, Ec. split; [done|]. by destruct m.
Qed.

(** The extensions leave the rest of the key exchange alone. *)
Record same_kex (k k' : kex) : Prop := {
  sk_my : k_my k' = k_my k;
  sk_peer : k_peer k' = k_peer k;
  sk_server : k_server k' = k_server k;
  sk_session : k_session_id k' = k_session_id k;
  sk_initial : flag_set (k_flags k') KEX_INITIAL = flag_set (k_flags k) KEX_INITIAL
}.

Definition strict_name (server : bool) : list Z :=
  if server then str "kex-strict-c-v00@openssh.com" else str "kex-strict-s-v00@openssh.com".

Lemma flag_other k f : flag_set f KEX_INITIAL = false ->
  flag_set (Z.lor k f) KEX_INITIAL = flag_set k KEX_INITIAL.
Proof.
  unfold flag_set. rewrite Z.land_lor_distr_l, !negb_false_iff, Z.eqb_eq. intros ->. by rewrite Z.lor_0_r.
Qed.

Lemma same_kex_flag k k' f : same_kex k k' -> flag_set f KEX_INITIAL = false -> same_kex k (set_k_flags (Z.lor (k_flags k') f) k').
Proof. intros [? ? ? ? F] H. split; try done. cbn. by rewrite flag_other. Qed.

Lemma swp_extensions server peer seq s0 s k : with_kex s0 k s ->
  swp (choose_extensions server peer seq)
    (fun _ s' => exists k', with_kex s0 k' s' /\ same_kex k k' /\ k_kex_strict k' = kexalgs_contains peer (strict_name server) /\
       (k_kex_strict k' = true -> seq = 0)) s.
Proof.
  intros W. unfold choose_extensions.
  apply swp_bind. eapply (swp_mono _ (fun _ s' => exists k', with_kex s0 k' s' /\ same_kex k k' /\
    k_kex_strict k' = kexalgs_contains peer (strict_name server))).
  2: { destruct server; (eapply swp_bind, step_modkex; [done|]); intros s1 W1; (eapply step_modkex; [exact W1|]); intros s2 W2;
       (eexists; split; [exact W2|split; [by split|done]]). }
  intros [] s1 (k1 & W1 & S1 & E1). eapply swp_bind, step_getkex; [exact W1|].
  destruct (k_kex_strict k1 && negb (seq =? 0)) eqn:D; [apply swp_bind; intros ? ? [=]|]. apply swp_bind, swp_ret.
  assert (k_kex_strict k1 = true -> seq = 0) as HS by (intros X; rewrite X in D; by destruct (Z.eqb_spec seq 0)).
  destruct server; [|apply swp_ret; by exists k1].
  apply swp_bind. eapply (swp_mono _ (fun _ s' => exists k', with_kex s0 k' s' /\ same_kex k k' /\ k_kex_strict k' = k_kex_strict k1)).
  2: { case_match; [eapply step_modkex; [exact W1|]; intros s2 W2|by apply swp_ret; exists k1].
       eexists. split; [exact W2|]. split; [by apply same_kex_flag|done]. }
  intros [] s3 (k3 & W3 & S3 & E3). rewrite <- E3 in E1, HS.
  case_match; [eapply step_modkex; [exact W3|]; intros s4 W4|by apply swp_ret; exists k3].
  eexists. split; [exact W4|]. split; [by apply same_kex_flag|done].
Qed.

Lemma swp_choose_kex c sv s0 s k : with_kex s0 k s ->
  swp (choose_kex nids c sv) (fun _ s' => exists name, (match_list c sv).1 = Some name /\
    with_kex s0 (set_k_ec_nid (kex_nid_from_name nids name) (set_k_hash_alg (kex_hash_from_name nids name)
      (set_k_kex_type (kex_type_from_name nids name) (set_k_name (Some name) k)))) s') s.
Proof.
  intros W. unfold choose_kex. eapply swp_bind, step_modkex; [done|]. intros s1 W1.
  destruct (match_list c sv).1 as [name|]; [|apply swp_throw]. destruct (negb _); [apply swp_throw|].
  eapply swp_bind, step_modkex; [exact W1|]. intros s2 W2. eapply swp_bind, step_modkex; [exact W2|]. intros s3 W3.
  eapply step_modkex; [exact W3|]. eauto.
Qed.

Lemma swp_choose_hostkeyalg c sv s0 s k : with_kex s0 k s ->
  swp (choose_hostkeyalg nids c sv) (fun _ s' => exists name, (match_list c sv).1 = Some name /\
    with_kex s0 (set_k_hostkey_nid (sshkey_ecdsa_nid_from_name nids name)
      (set_k_hostkey_type (sshkey_type_from_name nids name) (set_k_hostkey_alg (Some name) k))) s') s.
Proof.
  intros W. unfold choose_hostkeyalg. eapply swp_bind, step_modkex; [done|]. intros s1 W1.
  destruct (match_list c sv).1 as [name|]; [|apply swp_throw]. eapply swp_bind, step_modkex; [exact W1|]. intros s2 W2.
  destruct (_ =? KEY_UNSPEC); [apply swp_throw|]. eapply step_modkex; [exact W2|]. eauto.
Qed.

(** What both sides read off the two proposals. *)
Record chosen (server : bool) (cprop sprop : list (list Z)) (k : kex) : Prop := {
  ch_kex : exists name, (match_list (prop_at cprop PROPOSAL_KEX_ALGS) (prop_at sprop PROPOSAL_KEX_ALGS)).1 = Some name /\
    k_name k = Some name /\ k_kex_type k = kex_type_from_name nids name /\
    k_hash_alg k = kex_hash_from_name nids name /\ k_ec_nid k = kex_nid_from_name nids name;
  ch_hostkey : exists name, (match_list (prop_at cprop PROPOSAL_SERVER_HOST_KEY_ALGS)
                                        (prop_at sprop PROPOSAL_SERVER_HOST_KEY_ALGS)).1 = Some name /\
    k_hostkey_alg k = Some name /\ k_hostkey_type k = sshkey_type_from_name nids name /\
    k_hostkey_nid k = sshkey_ecdsa_nid_from_name nids name;
  ch_in : exists nk, keys_for cprop sprop server = Some nk /\ k_newkeys_in k = Some nk;
  ch_out : exists nk, keys_for cprop sprop (negb server) = Some nk /\ k_newkeys_out k = Some nk;
  ch_need : k_we_need k = need_of (k_newkeys_out k) (need_of (k_newkeys_in k) 0);
  ch_dh_need : k_dh_need k = dh_need_of (k_newkeys_out k) (dh_need_of (k_newkeys_in k) 0)
}.

Lemma swp_choose_conf seq s k : ssh_kex s = Some k ->
  swp (kex_choose_conf nids seq) (fun _ s' => exists f1 my f2 peer k',
    proposal_of (k_my k) = Some (f1, my) /\ proposal_of (k_peer k) = Some (f2, peer) /\
    ssh_kex s' = Some k' /\ same_kex k k' /\
    chosen (k_server k) (if k_server k then peer else my) (if k_server k then my else peer) k' /\
    (flag_set (k_flags k) KEX_INITIAL = true -> k_kex_strict k' = kexalgs_contains peer (strict_name (k_server k)) /\
       (k_kex_strict k' = true -> seq = 0))) s.
Proof.
  intros K. apply with_kex_self in K as W. unfold kex_choose_conf. eapply swp_bind, step_getkex; [done|].
  apply swp_bind. eapply swp_mono; [|apply swp_buf2prop]. intros [f1 my] s1 [P1 S1]. apply (step_oom _ _ _ W) in S1 as W1. clear S1.
  apply swp_bind. eapply swp_mono; [|apply swp_buf2prop]. intros [f2 peer] s2 [P2 S2]. apply (step_oom _ _ _ W1) in S2 as W2. clear S2.
  set (cprop := if k_server k then peer else my). set (sprop := if k_server k then my else peer).
  apply swp_bind. eapply (swp_mono _ (fun _ s' => exists k', with_kex s k' s' /\ same_kex k k' /\
    (flag_set (k_flags k) KEX_INITIAL = true -> k_kex_strict k' = kexalgs_contains peer (strict_name (k_server k)) /\
       (k_kex_strict k' = true -> seq = 0)))).
  2: { destruct (flag_set _ _); [|apply swp_ret; exists k; split_and!; [done|by split|done]].
       eapply swp_mono; [|by apply swp_extensions]. intros [] s3 (k3 & ? & ? & ? & ?). exists k3. auto. }
  intros [] s3 (k3 & W3 & S3 & X3).
  apply swp_bind. eapply swp_mono; [|by apply swp_or_failed, swp_choose_kex]. intros [] s4 (n4 & M4 & W4).
  apply swp_bind. eapply swp_mono; [|by apply swp_or_failed, swp_choose_hostkeyalg]. intros [] s5 (n5 & M5 & W5).
  apply swp_bind. eapply swp_mono; [|by apply swp_choose_mode]. intros [] s6 (n6 & M6 & W6).
  apply swp_bind. eapply swp_mono; [|by apply swp_choose_mode]. intros [] s7 (n7 & M7 & W7).
  assert (exists k7, with_kex s k7 s7 /\ same_kex k k7 /\ k_kex_strict k7 = k_kex_strict k3 /\
    chosen (k_server k) cprop sprop
      (set_k_dh_need (dh_need_of (k_newkeys_out k7) (dh_need_of (k_newkeys_in k7) 0))
        (set_k_we_need (need_of (k_newkeys_out k7) (need_of (k_newkeys_in k7) 0)) k7))) as (k7 & V7 & S7 & T7 & C7).
  { eexists. split; [exact W7|]. split; [destruct S3; by split|]. split; [done|].
    set (k7 := set_k_newkeys MODE_OUT _ _). split; [..|clearbody k7; reflexivity|clearbody k7; reflexivity].
    - exists n4. split; [exact M4|]. split_and!; reflexivity.
    - exists n5. split; [exact M5|]. split_and!; reflexivity.
    - exists n6. split; [exact M6|reflexivity].
    - exists n7. split; [exact M7|reflexivity]. }
  eapply swp_bind, step_modkex; [exact V7|]. intros s8 W8. eapply swp_bind, step_modkex; [exact W8|]. intros s9 W9.
  eapply (swp_mono _ (fun _ s' => ssh_kex s' = ssh_kex s9)); [|by case_match; [apply swp_modssh|apply swp_ret]].
  intros [] s10 E. rewrite (with_kex_get _ _ _ W9) in E. exists f1, my, f2, peer. eexists. split_and!; [done..| | |].
  - destruct S7. by split.
  - exact C7.
  - cbn [k_kex_strict set_k_dh_need set_k_we_need]. by rewrite T7.
Qed.

(** ** Key derivation *)

(** RFC 4253, section 7.2: the key of letter [id]. *)
Definition key_for (hash_alg : Z) (session_id : list Z) (need : Z) (hash shared_secret : list Z) (id : Z) : option (list Z) :=
  let mdsz := ssh_digest_bytes hash_alg in
  ctx ← ssh_digest_start true hash_alg;
  match ssh_digest_final (foldl ssh_digest_update ctx [shared_secret; hash; [u8 id]; session_id]) mdsz with
  | inr _ => None
  | inl k1 =>
      match expand_key (Z.to_nat need) hash_alg need mdsz shared_secret hash k1 with inl key => Some key | inr _ => None end
  end.

(** The expansion stops: every round adds a digest, of [mdsz] bytes, and [need]
    rounds are enough. *)
Lemma expand_key_total hash_alg need mdsz ss hash fuel digest :
  0 < mdsz -> (exists ctx, ssh_digest_start true hash_alg = Some ctx /\
    forall parts, exists d, ssh_digest_final (foldl ssh_digest_update ctx parts) mdsz = inl d /\ zlen d = mdsz) ->
  need <= zlen digest + Z.of_nat fuel ->
  exists key, expand_key fuel hash_alg need mdsz ss hash digest = inl key /\ need <= zlen key /\ exists more, key = digest ++ more.
Proof.
  intros Hm (ctx & Hs & Hd). revert digest. induction fuel as [|fuel IH]; intros digest H; cbn [expand_key].
  - destruct (Z.gtb_spec need (zlen digest)); [lia|]. exists digest. split_and!; [done|lia|]. exists []. by rewrite app_nil_r.
  - destruct (Z.gtb_spec need (zlen digest)); [|exists digest; split_and!; [done|lia|exists []; by rewrite app_nil_r]].
    rewrite Hs. destruct (Hd [ss; hash; digest]) as (kn & -> & Lk).
    destruct (IH (digest ++ kn)) as (key & E & L & more & ->); [rewrite zlen_app; lia|].
    eexists. split_and!; [exact E|done|]. exists (kn ++ more). by rewrite app_assoc.
Qed.

Lemma swp_derive_key id need hash ss s0 s k : with_kex s0 k s ->
  swp (derive_key id need hash ss)
    (fun key s' => key_for (k_hash_alg k) (k_session_id k) need hash ss id = Some key /\ with_kex s0 k s') s.
Proof.
  intros W. unfold derive_key, key_for. eapply swp_bind, step_getkex; [done|]. case_match; [apply swp_throw|].
  eapply swp_bind, step_salloc; [done|]. intros [] s1 W1; [|apply swp_throw].
  destruct (ssh_digest_start true (k_hash_alg k)) as [ctx|]; [|apply swp_throw]. cbn [negb mbind option_bind].
  destruct (ssh_digest_final _ _) as [k1|]; [|apply swp_throw]. apply swp_lift. intros key ->. done.
Qed.

Fixpoint keys_from (n : nat) (id : Z) (key : Z -> option (list Z)) : option (list (list Z)) :=
  match n with O => Some [] | S n => k ← key id; ks ← keys_from n (id + 1) key; Some (k :: ks) end.

Lemma swp_derive_loop n id need hash ss s0 s k : with_kex s0 k s ->
  swp (derive_keys_loop n id need hash ss)
    (fun keys s' => keys_from n id (key_for (k_hash_alg k) (k_session_id k) need hash ss) = Some keys /\ with_kex s0 k s') s.
Proof.
  revert id s. induction n as [|n IH]; intros id s W; cbn [derive_keys_loop keys_from]; [by apply swp_ret|].
  apply swp_bind. eapply swp_mono; [|by apply swp_derive_key]. intros key s1 [E1 W1].
  apply swp_bind. eapply swp_mono; [|by apply IH]. intros keys s2 [E2 W2]. apply swp_ret. rewrite E1. cbn [mbind option_bind]. by rewrite E2.
Qed.

(** A direction with its keys. *)
Definition keyed_with (keys : list (list Z)) (ctos : bool) (nk : newkeys) : option newkeys :=
  enc ← nk_enc nk;
  let mac := nk_mac nk in
  let iv := keys !! (if ctos then 0 else 1)%nat in
  let key := keys !! (if ctos then 2 else 3)%nat in
  let mkey := keys !! (if ctos then 4 else 5)%nat in
  Some (mk_newkeys
    (Some (mk_enc (e_name enc) (e_cipher enc) (e_enabled enc) (e_key_len enc) (e_iv_len enc) (e_block_size enc) key iv))
    (mk_mac (m_name mac) (m_enabled mac) (m_mac_len mac) mkey (m_key_len mac) (m_type mac) (m_etm mac)
       (m_hmac_ctx mac) (m_umac_ctx mac)) (nk_comp nk)).

Lemma swp_set_mode_keys server keys m s0 s k : with_kex s0 k s ->
  swp (set_mode_keys server keys m) (fun _ s' => exists nk nk', k_newkeys m k = Some nk /\
    keyed_with keys (ctos_mode server m) nk = Some nk' /\ with_kex s0 (set_k_newkeys m (Some nk') k) s') s.
Proof.
  intros W. unfold set_mode_keys. eapply swp_bind, step_getkex; [done|].
  destruct (k_newkeys m k) as [[[enc|] mac comp]|]; [|by intros ? ? [=]..].
  eapply step_modkex; [done|]. intros s1 W1. eexists _, _. split_and!; [done..|exact W1].
Qed.

(** The session identifier after the exchange with hash [hash]. *)
Definition session_after (k : kex) (hash : list Z) : list Z :=
  if flag_set (k_flags k) KEX_INITIAL then hash else k_session_id k.

Lemma swp_derive_keys hash ss s k : ssh_kex s = Some k ->
  swp (kex_derive_keys hash ss) (fun _ s' => exists keys nki nki' nko nko' k',
    keys_from NKEYS 65 (key_for (k_hash_alg k) (session_after k hash) (k_we_need k) hash ss) = Some keys /\
    k_newkeys_in k = Some nki /\ keyed_with keys (k_server k) nki = Some nki' /\
    k_newkeys_out k = Some nko /\ keyed_with keys (negb (k_server k)) nko = Some nko' /\
    ssh_kex s' = Some k' /\ k_newkeys_in k' = Some nki' /\ k_newkeys_out k' = Some nko' /\
    k_session_id k' = session_after k hash) s.
Proof.
  intros K. apply with_kex_self in K as W. unfold kex_derive_keys, session_after. eapply swp_bind, step_getkex; [done|].
  apply swp_bind. eapply (swp_mono _ (fun _ s' => with_kex s (set_k_session_id
    (if flag_set (k_flags k) KEX_INITIAL then hash else k_session_id k) k) s')).
  2: { destruct (flag_set _ _).
       - destruct (Z.eqb_spec (zlen (k_session_id k)) 0) as [E|]; [|apply swp_throw].
         assert (k_session_id k = []) as -> by (apply nil_length_inv; unfold zlen in E; lia).
         apply swp_bind, swp_append. intros o. eapply step_modkex; [|done]. eapply step_oom; [done|by exists o].
       - destruct (_ =? 0); [apply swp_throw|]. apply swp_ret. destruct W as [o ->]. exists o. by destruct s, k. }
  intros [] s1 W1.
  apply swp_bind. eapply swp_mono; [|by apply swp_derive_loop]. intros keys s2 [E2 W2]. cbn [k_hash_alg k_session_id set_k_session_id] in E2.
  apply swp_bind. eapply swp_mono; [|by apply swp_set_mode_keys]. intros [] s3 (nki & nki' & I1 & I2 & W3).
  eapply swp_mono; [|by apply swp_set_mode_keys]. intros [] s4 (nko & nko' & O1 & O2 & W4).
  eexists keys, nki, nki', nko, nko', _. split_and!; [done|exact I1|exact I2|exact O1|exact O2|by eapply with_kex_get|done..].
Qed.

(** ** Agreement *)

(** Maxima over the directions, in either order. *)
Lemma max_swap (f : option newkeys -> Z -> Z) : (forall a, (exists w, forall x, f a x = Z.max x w) \/ forall x, f a x = x) ->
  forall a b x, f a (f b x) = f b (f a x).
Proof.
  intros H a b x. destruct (H a) as [[v Ha]|Ha], (H b) as [[w Hb]|Hb]; rewrite !Ha, !Hb; [|done..].
  by rewrite <- !Z.max_assoc, (Z.max_comm v).
Qed.

Lemma need_of_comm a b x : need_of a (need_of b x) = need_of b (need_of a x).
Proof.
  apply max_swap. intros [[[enc|] mac ?]|]; cbn; [left|by right..].
  exists (Z.max (Z.max (Z.max (e_key_len enc) (e_block_size enc)) (e_iv_len enc)) (m_key_len mac)). intros y. by rewrite !Z.max_assoc.
Qed.
Lemma dh_need_of_comm a b x : dh_need_of a (dh_need_of b x) = dh_need_of b (dh_need_of a x).
Proof.
  apply max_swap. intros [[[enc|] mac ?]|]; cbn; [left|by right..].
  exists (Z.max (Z.max (Z.max (cipher_seclen (e_cipher enc)) (e_block_size enc)) (e_iv_len enc)) (m_key_len mac)). intros y. by rewrite !Z.max_assoc.
Qed.

(** A client and a server that hold each other's KEXINIT. *)
Record exchanged (kc kd : kex) : Prop := {
  ex_client : k_server kc = false;
  ex_server : k_server kd = true;
  ex_ctos : k_my kc = k_peer kd;
  ex_stoc : k_my kd = k_peer kc;
  ex_session : k_session_id kc = k_session_id kd;
  ex_initial : flag_set (k_flags kc) KEX_INITIAL = flag_set (k_flags kd) KEX_INITIAL
}.

(** Everything the two sides must have in common. *)
Record agree_on (kc kd : kex) : Prop := {
  ag_name : k_name kc = k_name kd;
  ag_type : k_kex_type kc = k_kex_type kd;
  ag_hash : k_hash_alg kc = k_hash_alg kd;
  ag_nid : k_ec_nid kc = k_ec_nid kd;
  ag_hostkey : k_hostkey_alg kc = k_hostkey_alg kd /\ k_hostkey_type kc = k_hostkey_type kd /\ k_hostkey_nid kc = k_hostkey_nid kd;
  ag_need : k_we_need kc = k_we_need kd /\ k_dh_need kc = k_dh_need kd;
  ag_ctos : k_newkeys_out kc = k_newkeys_in kd;
  ag_stoc : k_newkeys_in kc = k_newkeys_out kd
}.

Lemma chosen_agree cprop sprop kc kd : chosen false cprop sprop kc -> chosen true cprop sprop kd -> agree_on kc kd.
Proof.
  intros [(n1 & E1 & C1 & C2 & C3 & C4) (n2 & E2 & C5 & C6 & C7) (nk1 & E3 & C8) (nk2 & E4 & C9) C10 C11]
         [(m1 & F1 & D1 & D2 & D3 & D4) (m2 & F2 & D5 & D6 & D7) (mk1 & F3 & D8) (mk2 & F4 & D9) D10 D11].
  cbn [negb] in *. simplify_eq. split; try congruence.
  - split_and!; congruence.
  - rewrite C10, C11, D10, D11, C8, C9, D8, D9. split; [apply need_of_comm|apply dh_need_of_comm].
Qed.

(** C3: Agreement of a key exchange.  A client and a server that hold each
    other's KEXINIT and whose negotiations succeed have chosen the same key
    exchange, hash and host key algorithm and the same ciphers, MACs and
    compression crosswise, need the same number of key bytes, and, when they
    derive keys from the same exchange hash and shared secret, end up with the
    same session identifier and with the client's outgoing keys equal to the
    server's incoming ones and vice versa. *)
Theorem kex_agreement seqc seqd c d kc kd c1 d1 c2 d2 c3 d3 hash ss :
  ssh_kex c = Some kc -> ssh_kex d = Some kd -> exchanged kc kd ->
  kex_choose_conf nids seqc c = (Ok tt, c1) -> kex_choose_conf nids seqd d = (Ok tt, d1) ->
  ssh_kex c2 = ssh_kex c1 -> ssh_kex d2 = ssh_kex d1 ->
  kex_derive_keys hash ss c2 = (Ok tt, c3) -> kex_derive_keys hash ss d2 = (Ok tt, d3) ->
  (exists kc1 kd1, ssh_kex c1 = Some kc1 /\ ssh_kex d1 = Some kd1 /\ agree_on kc1 kd1) /\
  (exists kc3 kd3, ssh_kex c3 = Some kc3 /\ ssh_kex d3 = Some kd3 /\ k_session_id kc3 = k_session_id kd3 /\
    k_newkeys_out kc3 = k_newkeys_in kd3 /\ k_newkeys_in kc3 = k_newkeys_out kd3).
Proof.
  intros Kc Kd [X1 X2 X3 X4 X5 X6] Cc Cd Ec Ed Dc Dd.
  destruct (swp_choose_conf seqc c kc Kc _ _ Cc) as (f1 & my1 & f2 & peer1 & kc1 & P1 & P2 & Kc1 & S1 & H1 & _).
  destruct (swp_choose_conf seqd d kd Kd _ _ Cd) as (f3 & my2 & f4 & peer2 & kd1 & P3 & P4 & Kd1 & S2 & H2 & _).
  rewrite X3, P4 in P1. rewrite <- X4, P3 in P2. simplify_eq. rewrite X1 in H1. rewrite X2 in H2.
  pose proof (chosen_agree _ _ _ _ H1 H2) as A. split; [by exists kc1, kd1|].
  destruct S1 as [_ _ V1 I1 F1], S2 as [_ _ V2 I2 F2]. rewrite Kc1 in Ec. rewrite Kd1 in Ed.
  destruct (swp_derive_keys hash ss c2 kc1 Ec _ _ Dc) as (keys1 & i1 & i1' & o1 & o1' & kc3 & Y1 & Y2 & Y3 & Y4 & Y5 & Y6 & Y7 & Y8 & Y9).
  destruct (swp_derive_keys hash ss d2 kd1 Ed _ _ Dd) as (keys2 & i2 & i2' & o2 & o2' & kd3 & Z1 & Z2 & Z3 & Z4 & Z5 & Z6 & Z7 & Z8 & Z9).
  destruct A as [_ _ A1 _ _ [A2 _] A3 A4].
  assert (session_after kc1 hash = session_after kd1 hash) as SA by (unfold session_after; by rewrite F1, F2, X6, I1, I2, X5).
  rewrite A1, A2, SA, Z1 in Y1. rewrite V1, X1 in Y3, Y5. rewrite V2, X2 in Z3, Z5. cbn [negb] in *.
  exists kc3, kd3. simplify_eq. split_and!; [done..| | |].
  - by rewrite Y9, Z9.
  - rewrite Y8, Z7. congruence.
  - rewrite Y7, Z8. congruence.
Qed.
End KexThms.

(** Two sides whose preferences differ. *)
Module Negotiation.
#[local] Existing Instance no_crypto.

Definition cprop : list (list Z) := map str
  ["ecdh-sha2-nistp256,curve25519-sha256,ext-info-c,kex-strict-c-v00@openssh.com"%string;
   "ssh-ed25519,rsa-sha2-512"%string; "chacha20-poly1305@openssh.com,aes128-ctr"%string; "aes256-ctr"%string;
   "hmac-sha2-256"%string; "hmac-sha2-512,hmac-sha2-256"%string; "none"%string; "none,zlib@openssh.com"%string; ""%string; ""%string].
Definition sprop : list (list Z) := map str
  ["curve25519-sha256,kex-strict-s-v00@openssh.com"%string; "rsa-sha2-512"%string;
   "aes128-ctr,chacha20-poly1305@openssh.com"%string; "aes128-ctr,aes256-ctr"%string; "hmac-sha2-256"%string; "hmac-sha2-256"%string;
   "none"%string; "none"%string; ""%string; ""%string].
Definition raw (prop : list (list Z)) : list Z :=
  match kex_prop2buf prop (fresh (mret tt)) with (Ok b, _) => b | _ => [] end.
Definition side (server : bool) : ssh :=
  fresh (modkex (fun k => set_k_flags KEX_INITIAL (set_k_server server
    (set_k_my (raw (if server then sprop else cprop)) (set_k_peer (raw (if server then cprop else sprop)) k))))).
Definition kex_of (s : ssh) : kex := default kex_zero (ssh_kex s).
Definition conf (server : bool) : ssh := (kex_choose_conf demo_nids 0 (side server)).2.
Definition derived (server : bool) : ssh := (kex_derive_keys (str "H") (str "K") (conf server)).2.
End Negotiation.

Lemma kex_agreement_witness :
  let c := Negotiation.conf false in let d := Negotiation.conf true in
  (exists kc1 kd1, ssh_kex c = Some kc1 /\ ssh_kex d = Some kd1 /\ agree_on kc1 kd1) /\
  (exists kc3 kd3, ssh_kex (Negotiation.derived false) = Some kc3 /\ ssh_kex (Negotiation.derived true) = Some kd3 /\
    k_session_id kc3 = k_session_id kd3 /\
    k_newkeys_out kc3 = k_newkeys_in kd3 /\ k_newkeys_in kc3 = k_newkeys_out kd3).
Proof.
  apply (@kex_agreement no_crypto demo_nids 0 0 (Negotiation.side false) (Negotiation.side true)
    (Negotiation.kex_of (Negotiation.side false)) (Negotiation.kex_of (Negotiation.side true))
    (Negotiation.conf false) (Negotiation.conf true) (Negotiation.conf false) (Negotiation.conf true)
    (Negotiation.derived false) (Negotiation.derived true) (str "H") (str "K")).
  3: split.
  all: vm_compute; reflexivity.
Defined.

Lemma proposal_roundtrip_witness :
  @kex_buf2prop no_crypto (replicate 16 7 ++ drop (Z.to_nat KEX_COOKIE_LEN) (Negotiation.raw Negotiation.cprop)) (fresh (mret tt)) =
  (Ok (0, Negotiation.cprop), fresh (mret tt)).
Proof.
  apply (@proposal_roundtrip no_crypto (replicate 16 7) Negotiation.cprop (fresh (mret tt)) (Negotiation.raw Negotiation.cprop)
    (kex_prop2buf Negotiation.cprop (fresh (mret tt))).2 (fresh (mret tt))).
  - reflexivity.
  - apply (bool_decide_unpack (Forall (fun v => memchr v 0 = None) _)). vm_compute. exact I.
  - vm_compute. reflexivity.
  - reflexivity.
  - reflexivity.
Defined.
