(* ===== verification/NewKeys.v ===== *)
(** * Switching keys

    What [ssh_set_newkeys] installs, and that the two ends of a direction that
    switch at the same NEWKEYS message are linked again under the new keys. *)

From S2P Require Import Prelude Ssherr Cstring Match KexNames SshkeyNames Hmac ChachaPoly Cipher SshState Packet PacketRead Kex.
From S2P Require Import PacketState SshWp PacketFuel CipherLink PacketSend PacketXfer Sshbuf SshbufGetput SshbufWire.

Section NewKeys.
Context {CR : Crypto} (nids : curve_nids).

Abbreviation SM := (M ssh).

(** ** Allocations that succeed *)

Lemma mac_init_ok ok m m' : mac_init ok m = inl m' -> mac_init true m = inl m'.
Proof. unfold mac_init. destruct ok; [done|]. repeat case_match; done. Qed.

Lemma cipher_init_ok ok ok2 c key klen iv ivlen e cc :
  cipher_init ok ok2 c key klen iv ivlen e = inl cc -> cipher_init true true c key klen iv ivlen e = inl cc.
Proof.
  unfold cipher_init. destruct ok; [|done]. cbn [negb].
  destruct ((klen <? _) || _); [done|]. destruct (has_flag c CFLAG_CHACHAPOLY); [|done].
  unfold chachapoly_new. destruct ok2; [done|]. by destruct (negb (klen =? 32 + 32)).
Qed.

(** ** The installed keys *)

Definition st_context (m : mode) (st : session_state) : option sshcipher_ctx :=
  match m with MODE_IN => st_receive_context st | MODE_OUT => st_send_context st end.
Definition st_ps (m : mode) (st : session_state) : packet_state :=
  match m with MODE_IN => st_p_read st | MODE_OUT => st_p_send st end.

Record installed (m : mode) (nk : newkeys) (enc : sshenc) (mac : sshmac) (cc : sshcipher_ctx) (st st' : session_state) : Prop := {
  in_enc : nk_enc nk = Some enc;
  in_mac : (if cipher_authlen (e_cipher enc) =? 0 then mac_init true (nk_mac nk) else inl (nk_mac nk)) = inl mac;
  in_cc : cipher_init true true (e_cipher enc) (default [] (e_key enc)) (e_key_len enc) (e_iv enc) (e_iv_len enc)
            (match m with MODE_OUT => true | MODE_IN => false end) = inl cc;
  in_keys : st_newkeys m st' = Some (mk_newkeys (nk_enc nk) (set_m_enabled true mac) (nk_comp nk));
  in_ctx : st_context m st' = Some cc;
  in_ps : st_ps m st' = set_ps_packets 0 (set_ps_blocks 0 (st_ps m st))
}.

(** The rest of a receiver stays as it is. *)
Record undisturbed (st st' : session_state) : Prop := {
  un_mux : st_mux st' = st_mux st;
  un_discard : st_packet_discard st' = st_packet_discard st;
  un_packlen : st_packlen st' = st_packlen st;
  un_input : st_input st' = st_input st
}.

Lemma swp_set_newkeys m s k nk : ssh_kex s = Some k -> k_newkeys m k = Some nk -> c_type (nk_comp nk) <> COMP_DELAYED ->
  swp (ssh_set_newkeys m) (fun _ s' => exists enc mac cc, installed m nk enc mac cc (ssh_state s) (ssh_state s') /\
    undisturbed (ssh_state s) (ssh_state s') /\ ssh_kex s' = Some (Packet.set_k_newkeys m None k) /\
    st_output (ssh_state s') = st_output (ssh_state s)) s.
Proof.
  intros K N C. unfold ssh_set_newkeys. apply swp_bind, swp_modst, swp_bind, swp_modst, swp_bind, swp_getkex. intros k1 K1.
  assert (k1 = k) as -> by (cbn in K1; congruence). rewrite N. apply swp_bind, swp_modst, swp_bind, swp_modkex. cbn [ssh_kex set_ssh_state].
  rewrite K. cbn [fmap option_fmap option_map]. apply swp_bind.
  unfold enc_of. destruct (nk_enc nk) as [enc|] eqn:En; [|by intros ? ? [=]]. apply swp_ret. apply swp_bind.
  match goal with |- swp _ _ ?x => set (s1 := x) end.
  eapply (swp_mono _ (fun mac s' => (if cipher_authlen (e_cipher enc) =? 0 then mac_init true (nk_mac nk) else inl (nk_mac nk)) = inl mac /\
    same_but_oom s1 s')).
  2: { destruct (_ =? 0); [|apply swp_ret; split; [done|apply same_oom_refl]].
       apply swp_bind, swp_salloc. intros ok o. apply swp_lift. intros mac E. apply mac_init_ok in E. split; [done|by exists o]. }
  intros mac s2 [Em [o2 ->]]. apply swp_bind, swp_modst, swp_bind, swp_modst.
  apply swp_bind, swp_salloc. intros ok o3. apply swp_bind, swp_salloc. intros ok2 o4. apply swp_bind, swp_lift. intros cc Ec. apply cipher_init_ok in Ec.
  apply swp_bind, swp_modst, swp_bind, swp_getst. cbn [nk_comp]. rewrite (proj2 (Z.eqb_neq _ _) C). cbn [andb].
  apply swp_bind, swp_ret, swp_bind, swp_modst, swp_modst. exists enc, mac, cc. subst s1.
  split_and!; destruct m; try done; (split; rewrite ?En; done).
Qed.

(** ** The key exchange while a packet is emitted *)

#[local] Create HintDb kexkeep.
Lemma kex_salloc : keeps ssh_kex salloc.
Proof. done. Qed.
Lemma kex_rnd n : keeps ssh_kex (arc4random_buf n).
Proof. done. Qed.
Lemma kex_modst g : keeps ssh_kex (modst g).
Proof. done. Qed.
Lemma kex_append b bs : keeps ssh_kex (buf_append b bs).
Proof. unfold buf_append. destruct (_ >? _); [done|]. apply keeps_bind; [done|]. by intros []. Qed.
Lemma kex_on_send {A} (m : M sshcipher_ctx A) : keeps ssh_kex (on_send m).
Proof. intros s. unfold on_send. destruct (st_send_context _); [|done]. by destruct (m _). Qed.
Hint Resolve keeps_ret keeps_throw keeps_crash keeps_getst keeps_get keeps_getkex keeps_lift kex_salloc kex_rnd kex_modst
  kex_append kex_on_send : kexkeep.

Ltac kexkeep :=
  repeat first
    [ progress intros
    | solve [auto 1 with kexkeep]
    | apply keeps_bind
    | match goal with
      | |- keeps _ (match ?x with _ => _ end) => destruct x
      | |- keeps _ (let '_ := ?x in _) => destruct x
      end ].

Lemma kex_emit ks s s1 : keys_are (st_newkeys_out (ssh_state s)) ks -> ks_comp_on ks = false ->
  emit_packet s = (Ok tt, s1) -> ssh_kex s1 = ssh_kex s.
Proof.
  intros K C E. unfold emit_packet in E. rewrite (bind_ok getst _ s _ s eq_refl), (bind_ok _ _ s ks s (keys_run _ _ s K)), C in E.
  cbv beta zeta in E. rewrite (bind_ok (mret tt) _ s tt s eq_refl) in E.
  match type of E with ?m s = _ => assert (keeps ssh_kex m) as H end; [|specialize (H s); by rewrite E in H].
  unfold add_padding, encrypt_packet, count_packet, ssh_packet_disconnect. kexkeep.
Qed.

(** ** Both ends *)

(** Contexts set up from the same keys belong together. *)
Class LinkInit (enc : sshenc) (sy : sshcipher_ctx -> sshcipher_ctx -> Prop) := {
  link_init : forall sc rc,
    cipher_init true true (e_cipher enc) (default [] (e_key enc)) (e_key_len enc) (e_iv enc) (e_iv_len enc) true = inl sc ->
    cipher_init true true (e_cipher enc) (default [] (e_key enc)) (e_key_len enc) (e_iv enc) (e_iv_len enc) false = inl rc ->
    sy sc rc
}.

#[export] Instance chacha_link_init enc : has_flag (e_cipher enc) CFLAG_CHACHAPOLY = true -> LinkInit enc chacha_sync.
Proof.
  intros F. split. intros sc rc. unfold cipher_init. rewrite F. cbn [negb]. destruct (_ || _); [done|].
  destruct (chachapoly_new true _ _) as [cp|] eqn:E; [|done]. intros [= <-] [= <-]. constructor; [done..|].
  unfold chachapoly_new in E. destruct (negb _); [done|]. injection E as <-. by unfold same_key.
Qed.

(** The locals of the packet functions under installed keys. *)
Definition keys_with (nk : newkeys) (enc : sshenc) (mac : sshmac) : keys :=
  mk_keys (Some enc) (if cipher_authlen (e_cipher enc) =? 0 then Some (set_m_enabled true mac) else None)
    (Some (nk_comp nk)) (cipher_authlen (e_cipher enc)).

Lemma installed_keys m nk enc mac cc st st' : installed m nk enc mac cc st st' ->
  keys_are (st_newkeys m st') (keys_with nk enc mac).
Proof. intros [E _ _ K _ _]. rewrite K. exists enc. split; [exact E|done]. Qed.

(** ** Receiving NEWKEYS *)

(** The transport after a NEWKEYS message, before its handler runs. *)
Definition after_newkeys (strict : bool) (r : ssh) : ssh :=
  let st := set_st_packlen 0 (ssh_state r) in
  set_ssh_state (if strict then mod_ps MODE_IN (set_ps_seqnr 0) st else st) r.

Lemma check_rekey_kex s k : ssh_kex s = Some k -> k_done k = false ->
  ssh_packet_check_rekey s = ssh_packet_check_rekey_preauth 0 s.
Proof.
  intros K D. unfold ssh_packet_check_rekey. unfold mbind at 1, M_bind at 1.
  assert ((ssh_packet_check_rekey_preauth 0 s).2 = s) as S.
  { unfold ssh_packet_check_rekey_preauth. rewrite (bind_ok getst _ s _ s eq_refl). by repeat case_match. }
  destruct (ssh_packet_check_rekey_preauth 0 s) as [[[]|e|] s1]; [|done..]. cbn in S. subst s1.
  rewrite (bind_ok get_st _ s s s eq_refl). unfold ssh_packet_need_rekeying, ssh_packet_is_rekeying. rewrite K, D. cbn [negb].
  rewrite orb_true_r. by destruct (negb (st_after_authentication _)).
Qed.

Lemma received_newkeys {A} (x : A) r k : ssh_kex r = Some k -> k_done k = false ->
  (packet_received SSH2_MSG_NEWKEYS;; mret x) r =
  (ssh_packet_check_rekey_preauth 0;; mret x) (after_newkeys (k_kex_strict k) r).
Proof.
  intros K D. assert (packet_received SSH2_MSG_NEWKEYS r = ssh_packet_check_rekey (after_newkeys (k_kex_strict k) r)) as E.
  { unfold packet_received. rewrite (bind_ok getst _ r _ r eq_refl).
    change (SSH2_MSG_NEWKEYS =? SSH2_MSG_USERAUTH_SUCCESS) with false. cbn [andb].
    rewrite (bind_ok (mret _) _ r (inr tt) r eq_refl).
    rewrite (bind_ok (modst _) _ r tt (set_ssh_state (set_st_packlen 0 (ssh_state r)) r) eq_refl).
    set (r1 := set_ssh_state (set_st_packlen 0 (ssh_state r)) r).
    rewrite (bind_ok _ _ r1 tt (after_newkeys (k_kex_strict k) r)); [done|].
    change (SSH2_MSG_NEWKEYS =? SSH2_MSG_NEWKEYS) with true. cbv iota. rewrite (bind_ok getkex _ r1 k r1) by (unfold getkex; cbn; by rewrite K).
    unfold after_newkeys. by destruct (k_kex_strict k). }
  unfold mbind, M_bind. rewrite E, (check_rekey_kex _ k) by done. done.
Qed.

(** ** Its handler *)

Lemma st_cstrings n b : keeps ssh_state (get_cstrings n b).
Proof.
  revert b. induction n as [|n IH]; intros b; [done|]. cbn [get_cstrings]. destruct (parse_cstring b) as [|[v b']]; [done|].
  apply keeps_bind; [done|]. intros []; [|done]. apply keeps_bind; [apply IH|]. by intros [vs b2].
Qed.
Lemma st_append b bs : keeps ssh_state (buf_append b bs).
Proof. unfold buf_append. destruct (_ >? _); [done|]. apply keeps_bind; [done|]. by intros []. Qed.
Lemma st_consume b n : keeps ssh_state (buf_consume b n).
Proof. unfold buf_consume. by destruct (_ >? _). Qed.
Lemma st_put_all b fs : keeps ssh_state (put_all b fs).
Proof.
  revert b. induction fs as [|f fs IH]; intros b; [done|]. cbn [put_all]. apply keeps_bind; [apply st_append|]. intros b1. apply IH.
Qed.
Lemma st_buf2prop raw : keeps ssh_state (kex_buf2prop raw).
Proof.
  unfold kex_buf2prop. apply keeps_bind; [done|]. intros ok. apply keeps_bind; [done|]. intros ok2. case_match; [done|].
  apply keeps_bind; [apply st_consume|]. intros b. apply keeps_bind; [apply st_cstrings|]. intros [p b1].
  apply keeps_bind; [apply st_consume|]. intros r1. apply keeps_bind; [apply st_consume|]. done.
Qed.

Lemma st_strip server : keeps ssh_state (strip_signalling server).
Proof.
  unfold strip_signalling. apply keeps_bind; [apply keeps_getkex|]. intros k. apply keeps_bind; [apply st_buf2prop|]. intros [f prop].
  apply keeps_bind; [done|]. intros ok. case_match; [|done]. apply keeps_bind; [|done].
  match goal with |- keeps _ (catch ?m _) => assert (keeps ssh_state m) as HP end.
  { unfold kex_prop2buf. repeat (apply keeps_bind; [apply st_put_all|]; intros). apply st_put_all. }
  intros s. specialize (HP s). unfold catch. by destruct (kex_prop2buf _ s) as [[]].
Qed.

Lemma swp_keeps {A B} (f : ssh -> B) (m : SM A) s : keeps f m -> swp m (fun _ s' => f s' = f s) s.
Proof. intros K a s' E. specialize (K s). by rewrite E in K. Qed.

Lemma swp_input_newkeys type seq r k nk : ssh_kex r = Some k -> k_newkeys_in k = Some nk -> c_type (nk_comp nk) <> COMP_DELAYED ->
  swp (kex_input_newkeys type seq) (fun _ r' => exists enc mac cc,
    installed MODE_IN nk enc mac cc (ssh_state r) (ssh_state r') /\ undisturbed (ssh_state r) (ssh_state r')) r.
Proof.
  intros K N C. unfold kex_input_newkeys. apply swp_bind, swp_getkex. intros k1 K1. assert (k1 = k) as -> by congruence.
  assert (forall t h, keeps ssh_state (ssh_dispatch_set t h : SM unit) /\ keeps ssh_kex (ssh_dispatch_set t h : SM unit)) as D.
  { intros t h. unfold ssh_dispatch_set. split; intros x; by case_match. }
  assert (forall t h (s : ssh), ssh_state s = ssh_state r /\ ssh_kex s = ssh_kex r ->
    swp (ssh_dispatch_set t h) (fun _ s' => ssh_state s' = ssh_state r /\ ssh_kex s' = ssh_kex r) s) as W.
  { intros t h s [S1 S2] a s' E. destruct (D t h) as [D1 D2]. specialize (D1 s). specialize (D2 s). rewrite E in D1, D2. cbn in *. split; congruence. }
  apply swp_bind. eapply (swp_mono _ (fun _ s' => ssh_state s' = ssh_state r /\ ssh_kex s' = ssh_kex r)); [|by case_match; [apply W|apply swp_ret]].
  intros [] s1 H1. apply swp_bind. eapply swp_mono; [|by apply W]. intros [] s2 H2. apply swp_bind. eapply swp_mono; [|by apply W].
  intros [] s3 [S3 K3]. apply swp_bind. eapply (swp_mono _ (fun _ s' => s' = s3)).
  2: { unfold sshpkt_get_end. apply swp_bind, swp_getst. case_match; [apply swp_throw|by apply swp_ret]. }
  intros [] ? ->. apply swp_bind. rewrite K in K3. eapply swp_mono; [|by eapply (swp_set_newkeys MODE_IN)].
  intros [] s4 (enc & mac & cc & I & U & _ & _). rewrite S3 in I, U. apply swp_bind.
  eapply (swp_mono _ (fun _ s' => ssh_state s' = ssh_state s4)); [|case_match; [apply swp_keeps, st_strip|by apply swp_ret]].
  intros [] s5 S5. repeat (apply swp_bind, swp_modkex). apply swp_modkex. exists enc, mac, cc. cbn [ssh_state set_ssh_kex]. by rewrite S5.
Qed.

(** ** Sending it *)

Lemma swp_sent_newkeys s k nk : ssh_kex s = Some k -> k_newkeys_out k = Some nk -> c_type (nk_comp nk) <> COMP_DELAYED ->
  swp (packet_sent SSH2_MSG_NEWKEYS) (fun _ s' => exists enc mac cc,
    installed MODE_OUT nk enc mac cc (if k_kex_strict k then mod_ps MODE_OUT (set_ps_seqnr 0) (ssh_state s) else ssh_state s) (ssh_state s') /\
    st_output (ssh_state s') = st_output (ssh_state s)) s.
Proof.
  intros K N C. unfold packet_sent. change (SSH2_MSG_NEWKEYS =? SSH2_MSG_NEWKEYS) with true. cbv iota.
  apply swp_bind, swp_getkex. intros k1 K1. assert (k1 = k) as -> by congruence. apply swp_bind.
  destruct (k_kex_strict k); [apply swp_modst|apply swp_ret]; (eapply swp_mono; [|by eapply (swp_set_newkeys MODE_OUT)]);
    intros [] s1 (enc & mac & cc & I & _ & _ & O); by exists enc, mac, cc.
Qed.

Section Switch.
Context (ks : keys) (sy : sshcipher_ctx -> sshcipher_ctx -> Prop) `{!Link ks sy}.

(** C2: Switching keys.  Two ends linked under the old keys hold the same new
    keys for the direction and agree on strict key exchange.  The sender sends
    NEWKEYS and switches; the message reaches the receiver in any pieces, and
    when the receiver's handler has run, the two ends are linked under the new
    keys, with both sequence numbers 0 in a strict key exchange and otherwise
    both one after the NEWKEYS message, and what the sender sent after it is
    still in the receiver's input.  The message itself is returned unless the
    limit on packets before authentication is exceeded. *)
Theorem newkeys_switch s s1 r kx ky nk enc sy' :
  keys_wf ks -> linked ks sy s r -> idle r -> outgoing s SSH2_MSG_NEWKEYS [] ->
  ssh_kex s = Some kx -> ssh_kex r = Some ky -> k_kex_strict kx = k_kex_strict ky -> k_done ky = false ->
  k_newkeys_out kx = Some nk -> k_newkeys_in ky = Some nk -> nk_enc nk = Some enc -> c_type (nk_comp nk) <> COMP_DELAYED ->
  LinkInit enc sy' ->
  ssh_packet_send2_wrapped s = (Ok tt, s1) ->
  let seq := ps_seqnr (st_p_read (ssh_state r)) in
  0 <= seq < UINT_MAX -> 0 <= ps_packets (st_p_read (ssh_state r)) < UINT_MAX ->
  exists wire, st_output (ssh_state s1) = st_output (ssh_state s) ++ wire /\
  forall chunks last rest,
    st_input (ssh_state r) ++ concat chunks ++ last = wire ++ rest ->
    zlen (st_input (ssh_state r) ++ concat chunks) < zlen wire -> zlen (wire ++ rest) <= SSHBUF_SIZE_MAX ->
  exists r1 r2, deliver_all chunks r = (Ok (replicate (length chunks) no_packet), r1) /\
    deliver last r1 = (ssh_packet_check_rekey_preauth 0;; mret (SSH2_MSG_NEWKEYS, seq)) r2 /\
    forall r3, kex_input_newkeys SSH2_MSG_NEWKEYS seq r2 = (Ok tt, r3) ->
      (exists mac, linked (keys_with nk enc mac) sy' s1 r3) /\
      ps_seqnr (st_p_send (ssh_state s1)) = (if k_kex_strict kx then 0 else seq + 1) /\
      st_input (ssh_state r3) = rest /\ st_packlen (ssh_state r3) = 0.
Proof.
  intros W K I O Kx Ky Hst Hd Nx Ny En Hc LI H seq Hs Hp.
  unfold ssh_packet_send2_wrapped in H. rewrite (bind_ok getst _ s _ s eq_refl) in H. cbv beta zeta in H.
  rewrite (outgoing_type _ _ _ O) in H. destruct (bind_inv_ok _ _ _ _ _ H) as ([] & se & E & H2). clear H.
  destruct (lk_out _ _ _ _ K) as (ko & Ko & Ao).
  pose proof (kex_emit _ _ _ Ko (kw_comp _ (wf_alike _ _ (symmetry Ao) W)) E) as Ke. rewrite Kx in Ke.
  destruct (swp_sent_newkeys se kx nk Ke Nx Hc _ _ H2) as (e1 & mac & cc & I1 & O1). clear H2.
  destruct (packet_transfer_poll ks sy s se r _ _ W K I O E Hs Hp) as (wire & Hw & T). exists wire. split; [congruence|].
  intros chunks last rest Hc1 Hc2 Hc3. destruct (T chunks last rest Hc1 Hc2 Hc3) as (r1 & r2 & D1 & D2 & L2 & I2 & F1 & F2 & F3 & F4).
  rewrite Ky in F3. rewrite (received_newkeys _ r2 ky F3 Hd) in D2. exists r1. eexists. split_and!; [exact D1|exact D2|]. clear D1 D2 T.
  intros r3 H3. destruct (swp_input_newkeys _ _ (after_newkeys (k_kex_strict ky) r2) ky nk F3 Ny Hc _ _ H3) as (e2 & mac2 & cc2 & J1 & U).
  pose proof (in_enc _ _ _ _ _ _ _ I1). pose proof (in_enc _ _ _ _ _ _ _ J1). assert (e1 = enc /\ e2 = enc) as [-> ->] by (split; congruence).
  pose proof (in_mac _ _ _ _ _ _ _ I1). pose proof (in_mac _ _ _ _ _ _ _ J1). assert (mac2 = mac) as -> by congruence.
  assert (ps_seqnr (st_p_send (ssh_state s1)) = if k_kex_strict kx then 0 else ps_seqnr (st_p_send (ssh_state se))) as Q1.
  { pose proof (in_ps _ _ _ _ _ _ _ I1) as P. cbn in P. rewrite P. by destruct (k_kex_strict kx). }
  assert (ps_seqnr (st_p_read (ssh_state r3)) = if k_kex_strict ky then 0 else ps_seqnr (st_p_read (ssh_state r2))) as Q2.
  { pose proof (in_ps _ _ _ _ _ _ _ J1) as P. cbn in P. rewrite P. unfold after_newkeys. by destruct (k_kex_strict ky). }
  pose proof (lk_seq _ _ _ _ L2) as Q3. split_and!.
  - exists mac. split; [apply keys_are_like, (installed_keys MODE_OUT _ _ _ _ _ _ I1)|apply keys_are_like, (installed_keys MODE_IN _ _ _ _ _ _ J1)| |].
    + exists cc, cc2. split_and!; [apply (in_ctx _ _ _ _ _ _ _ I1)|apply (in_ctx _ _ _ _ _ _ _ J1)|].
      apply link_init; [apply (in_cc _ _ _ _ _ _ _ I1)|apply (in_cc _ _ _ _ _ _ _ J1)].
    + rewrite Q1, Q2, Hst. by rewrite Q3.
  - rewrite Q1, Q3. by rewrite F4.
  - rewrite (un_input _ _ U). unfold after_newkeys. by destruct (k_kex_strict ky).
  - rewrite (un_packlen _ _ U). unfold after_newkeys. by destruct (k_kex_strict ky).
Qed.
End Switch.
End NewKeys.

(** From no encryption to chacha20-poly1305, in a strict key exchange. *)
Module Switching.
#[local] Existing Instance no_crypto.

Definition ready (f : newkeys -> kex -> kex) : M ssh unit :=
  ssh_packet_set_connection;; modkex (fun k => f Sample.nk (set_k_kex_strict true k)).
Definition sender : ssh := fresh (ready (fun nk => set_k_newkeys_out (Some nk));; sshpkt_start SSH2_MSG_NEWKEYS).
Definition receiver : ssh := fresh (ready (fun nk => set_k_newkeys_in (Some nk))).
Definition sent : ssh := (ssh_packet_send2_wrapped sender).2.
Definition kx : kex := default kex_zero (ssh_kex sender).
Definition ky : kex := default kex_zero (ssh_kex receiver).
Definition enc : sshenc := default (mk_enc [] (mk_cipher [] 0 0 0 0 0) false 0 0 0 None None) Sample.enc.
Definition ks : keys := mk_keys None None None 0.
End Switching.

Lemma newkeys_switch_witness :
  exists wire, st_output (ssh_state Switching.sent) = st_output (ssh_state Switching.sender) ++ wire /\
  forall chunks last rest,
    concat chunks ++ last = wire ++ rest -> zlen (concat chunks) < zlen wire -> zlen (wire ++ rest) <= SSHBUF_SIZE_MAX ->
  exists r1 r2, @deliver_all no_crypto chunks Switching.receiver = (Ok (replicate (length chunks) no_packet), r1) /\
    deliver last r1 = (ssh_packet_check_rekey_preauth 0;; mret (SSH2_MSG_NEWKEYS, 0)) r2 /\
    forall r3, kex_input_newkeys SSH2_MSG_NEWKEYS 0 r2 = (Ok tt, r3) ->
      (exists mac, linked (keys_with Sample.nk Switching.enc mac) chacha_sync Switching.sent r3) /\
      ps_seqnr (st_p_send (ssh_state Switching.sent)) = 0 /\
      st_input (ssh_state r3) = rest /\ st_packlen (ssh_state r3) = 0.
Proof.
  apply (@newkeys_switch no_crypto Switching.ks null_sync (@null_link no_crypto Switching.ks eq_refl)
    Switching.sender Switching.sent Switching.receiver Switching.kx Switching.ky Sample.nk Switching.enc chacha_sync).
  - split; [by left|by vm_compute|done|done].
  - split; [apply keys_are_like; vm_compute; reflexivity..| |reflexivity].
    eexists _, _. split_and!; [vm_compute; reflexivity..|]. by constructor.
  - by split.
  - split; [|apply (bool_decide_unpack (Forall (fun b => 0 <= b < 256) _)); vm_compute; exact I|by vm_compute..].
    exists [0; 0; 0; 0; 0]. by split; vm_compute.
  - reflexivity.
  - reflexivity.
  - reflexivity.
  - reflexivity.
  - reflexivity.
  - reflexivity.
  - reflexivity.
  - done.
  - by apply (@chacha_link_init no_crypto).
  - vm_compute. reflexivity.
  - by vm_compute.
  - by vm_compute.
Defined.

(** The whole switch runs: the receiver gets the message in two pieces and its
    handler succeeds. *)
Example switching_runs :
  let wire := st_output (ssh_state Switching.sent) in
  match @deliver_all no_crypto [take 7 wire; drop 7 wire] Switching.receiver with
  | (Ok ps, r) => ps = [no_packet; (SSH2_MSG_NEWKEYS, 0)] /\ (kex_input_newkeys SSH2_MSG_NEWKEYS 0 r).1 = Ok tt
  | _ => False
  end.
Proof. vm_compute. split; reflexivity. Qed.

(** * Strict key exchange

    In the first key exchange, once both sides announced strict key exchange,
    every message must be the one the exchange expects: nothing is skipped or
    answered, so that nothing an attacker inserts before the keys are in use
    can shift the sequence numbers unnoticed. *)

Section Strict.
Context {CR : Crypto} (nids : curve_nids) (method : Z -> option (M ssh unit)) (other : Z -> Z -> Z -> M ssh unit) (done_ : ssh -> bool).

Abbreviation SM := (M ssh).

(** The table of a key exchange that waits for the messages [expected]. *)
Definition closed_but (expected : list Z) (s : ssh) : Prop :=
  length (ssh_dispatch s) = Z.to_nat DISPATCH_MAX /\
  forall t, SSH2_MSG_TRANSPORT_MIN <= t <= SSH2_MSG_TRANSPORT_MAX -> t ∉ expected -> dispatch_at s t = Some h_kex_protocol_error.

Lemma dispatch_set_run t h s : 0 <= t < DISPATCH_MAX ->
  ssh_dispatch_set t h s = (Ok tt, set_ssh_dispatch (<[Z.to_nat t := h]> (ssh_dispatch s)) s).
Proof. intros H. unfold ssh_dispatch_set. by rewrite (proj2 (Z.leb_le 0 t)), (proj2 (Z.ltb_lt _ _)) by lia. Qed.

Lemma dispatch_at_set t h d s : (0 < t < DISPATCH_MAX) -> length d = Z.to_nat DISPATCH_MAX -> forall t', 0 < t' < DISPATCH_MAX ->
  dispatch_at (set_ssh_dispatch (<[Z.to_nat t := h]> d) s) t' =
  if t =? t' then h else default None (d !! Z.to_nat t').
Proof.
  intros H L t' H'. unfold dispatch_at, DISPATCH_MAX in *. rewrite Z.gtb_ltb, !(proj2 (Z.ltb_lt _ _)) by lia. cbn [andb ssh_dispatch set_ssh_dispatch].
  destruct (Z.eqb_spec t t') as [->|N]; [rewrite list_lookup_insert_eq by lia; done|rewrite list_lookup_insert_ne by lia; done].
Qed.

Lemma dispatch_range_run n i h s : 0 < i -> i + Z.of_nat n <= DISPATCH_MAX -> length (ssh_dispatch s) = Z.to_nat DISPATCH_MAX ->
  exists d, dispatch_range_loop n i h s = (Ok tt, set_ssh_dispatch d s) /\ length d = Z.to_nat DISPATCH_MAX /\
    (forall t, i <= t < i + Z.of_nat n -> d !! Z.to_nat t = Some h) /\
    (forall t, t < Z.to_nat i -> d !! t = ssh_dispatch s !! t)%nat.
Proof.
  revert i s. induction n as [|n IH]; intros i s Hi Hn L.
  { exists (ssh_dispatch s). split_and!; [by destruct s|done|lia|done]. }
  cbn [dispatch_range_loop]. unfold DISPATCH_MAX in *. rewrite Z.geb_leb, (proj2 (Z.leb_gt _ _)) by lia.
  rewrite (bind_ok _ _ _ _ _ (dispatch_set_run i h s ltac:(unfold DISPATCH_MAX; lia))).
  destruct (IH (i + 1) (set_ssh_dispatch (<[Z.to_nat i := h]> (ssh_dispatch s)) s)) as (d & E & Ld & H1 & H2); [lia|lia|cbn; by rewrite length_insert|].
  cbn [ssh_dispatch set_ssh_dispatch] in H2. exists d. split_and!; [done|done| |].
  - intros t Ht. destruct (decide (t = i)) as [->|]; [|apply H1; lia].
    rewrite H2 by lia. apply list_lookup_insert_eq. lia.
  - intros t Ht. rewrite H2 by lia. apply list_lookup_insert_ne. lia.
Qed.

(** [kex_reset_dispatch] closes the table; a handler opens one entry. *)
Lemma reset_closes s : length (ssh_dispatch s) = Z.to_nat DISPATCH_MAX ->
  exists d, kex_reset_dispatch s = (Ok tt, set_ssh_dispatch d s) /\ closed_but [] (set_ssh_dispatch d s).
Proof.
  intros L. unfold kex_reset_dispatch, ssh_dispatch_range.
  destruct (dispatch_range_run (Z.to_nat (SSH2_MSG_TRANSPORT_MAX - SSH2_MSG_TRANSPORT_MIN + 1)) SSH2_MSG_TRANSPORT_MIN
    (Some h_kex_protocol_error) s) as (d & E & Ld & H & _); [done|done|done|].
  exists d. split; [exact E|]. split; [done|]. intros t Ht _. unfold dispatch_at, SSH2_MSG_TRANSPORT_MAX, SSH2_MSG_TRANSPORT_MIN, DISPATCH_MAX in *.
  rewrite Z.gtb_ltb, !(proj2 (Z.ltb_lt _ _)) by lia. cbn [andb ssh_dispatch set_ssh_dispatch]. by rewrite H by (cbn; lia).
Qed.

Lemma expect_opens ex t h s : 0 < t < DISPATCH_MAX -> closed_but ex s ->
  exists s', ssh_dispatch_set t h s = (Ok tt, s') /\ closed_but (t :: ex) s' /\ dispatch_at s' t = h.
Proof.
  intros Ht [L C]. rewrite dispatch_set_run by lia. eexists. split; [done|]. split; [split|].
  - cbn. by rewrite length_insert.
  - intros t' Ht' [N1 N2]%not_elem_of_cons. specialize (C t' Ht' N2). unfold SSH2_MSG_TRANSPORT_MAX, SSH2_MSG_TRANSPORT_MIN, DISPATCH_MAX in *.
    rewrite dispatch_at_set by (unfold DISPATCH_MAX; lia || done). rewrite (proj2 (Z.eqb_neq _ _)) by done.
    unfold dispatch_at, DISPATCH_MAX in C. rewrite Z.gtb_ltb, !(proj2 (Z.ltb_lt _ _)) in C by lia. exact C.
  - rewrite dispatch_at_set by (lia || done). by rewrite Z.eqb_refl.
Qed.

(** In the first exchange with strict key exchange a packet goes straight to
    the dispatcher. *)
Lemma strict_read s s1 type seq : ssh_packet_read_poll2 s = (Ok (type, seq), s1) -> type <> 0 -> type <> SSH2_MSG_DISCONNECT ->
  kex_initial_strict s1 = true ->
  ssh_packet_read_poll_seqnr s = (Ok (type, seq), set_ssh_state (set_st_keep_alive_timeouts 0 (ssh_state s1)) s1).
Proof.
  intros E N0 N1 K. unfold ssh_packet_read_poll_seqnr. rewrite (bind_ok getst _ s _ s eq_refl). cbn [read_poll_loop].
  rewrite (bind_ok _ _ _ _ _ E). rewrite (proj2 (Z.eqb_neq _ _) N0).
  rewrite (bind_ok (modst _) _ s1 tt (set_ssh_state (set_st_keep_alive_timeouts 0 (ssh_state s1)) s1) eq_refl).
  rewrite (proj2 (Z.eqb_neq _ _) N1). rewrite (bind_ok get_st _ _ _ _ eq_refl).
  change (kex_initial_strict (set_ssh_state _ s1)) with (kex_initial_strict s1). by rewrite K.
Qed.

End Strict.

(** An IGNORE message inserted while a strict key exchange waits for KEXINIT. *)
Module Injection.
#[local] Existing Instance no_crypto.

Definition packet : list Z :=
  st_output (ssh_state (fresh (ssh_packet_set_connection;; sshpkt_start SSH2_MSG_IGNORE;; sshpkt_put_string (str "x");; ssh_packet_send2_wrapped))).
Definition victim : ssh :=
  fresh (ssh_packet_set_connection;; modkex (fun k => set_k_flags KEX_INITIAL (set_k_kex_strict true k));;
         kex_reset_dispatch;; ssh_dispatch_set SSH2_MSG_KEXINIT (Some h_kex_input_kexinit);;
         ssh_packet_process_incoming packet).
Definition polled : ssh := (ssh_packet_read_poll2 victim).2.
End Injection.

Lemma closed_check `{Crypto} (expected : list Z) (s : ssh) : length (ssh_dispatch s) = Z.to_nat DISPATCH_MAX ->
  forallb (fun n => bool_decide (Z.of_nat n ∈ expected) || bool_decide (dispatch_at s (Z.of_nat n) = Some h_kex_protocol_error)) (seq 1 49) = true ->
  closed_but expected s.
Proof.
  intros L F. split; [done|]. intros t T N. rewrite forallb_forall in F. unfold SSH2_MSG_TRANSPORT_MIN, SSH2_MSG_TRANSPORT_MAX in T.
  specialize (F (Z.to_nat t)). rewrite Z2Nat.id in F by lia. apply orb_true_iff in F as [F|F].
  - by apply bool_decide_eq_true in F.
  - by apply bool_decide_eq_true in F.
  - apply in_seq. lia.
Qed.

