(* ===== verification/Handover.v ===== *)
(** * Handing the connection over

    The authentication process serialises the transport state
    ([ssh_packet_get_state]) and the session process restores it
    ([ssh_packet_set_state]).  Shown for chacha20-poly1305 in both directions:
    the restored state is in step with the peer exactly as the old one was. *)

From S2P Require Import Prelude Ssherr Cstring Match KexNames SshkeyNames Hmac Words Chacha ChachaPoly Cipher SshState Packet PacketRead Kex.
From S2P Require Import PacketState SshWp PacketFuel CipherLink PacketSend PacketXfer KexThms NewKeys Sshbuf SshbufGetput SshbufWire.

Section Handover.
Context {CR : Crypto}.

Abbreviation SM := (M ssh).

(** ** Writing *)

Lemma swp_put_u32 v m (Q : list Z -> ssh -> Prop) s :
  (forall o, zlen (m ++ POKE_U32 v) <= SSHBUF_SIZE_MAX -> Q (m ++ POKE_U32 v) (set_ssh_oom o s)) -> swp (put_u32 v m) Q s.
Proof.
  intros H m' s' E. destruct (buf_append_ok _ _ _ _ _ E) as [-> L]. revert E. apply swp_append. intros o. by apply H.
Qed.
Lemma swp_put_u64 v m (Q : list Z -> ssh -> Prop) s :
  (forall o, zlen (m ++ POKE_U64 v) <= SSHBUF_SIZE_MAX -> Q (m ++ POKE_U64 v) (set_ssh_oom o s)) -> swp (put_u64 v m) Q s.
Proof.
  intros H m' s' E. destruct (buf_append_ok _ _ _ _ _ E) as [-> L]. revert E. apply swp_append. intros o. by apply H.
Qed.
Lemma swp_put_string v m (Q : list Z -> ssh -> Prop) s :
  (forall o, zlen (m ++ wire_string v) <= SSHBUF_SIZE_MAX -> Q (m ++ wire_string v) (set_ssh_oom o s)) -> swp (put_string v m) Q s.
Proof.
  intros H. unfold put_string. destruct (_ >? _); [apply swp_throw|].
  intros m' s' E. destruct (buf_append_ok _ _ _ _ _ E) as [-> L]. revert E. apply swp_append. intros o. by apply H.
Qed.

(** One step of a writer. *)
Ltac put_step :=
  lazymatch goal with
  | |- swp (_ ≫= _) _ _ => apply swp_bind
  | |- swp (put_u32 _ _) _ _ => apply swp_put_u32; intros ? _
  | |- swp (put_u64 _ _) _ _ => apply swp_put_u64; intros ? _
  | |- swp (put_string _ _) _ _ => apply swp_put_string; intros ? _
  end.

(** The wire form. *)
Definition kex_bytes (k : kex) : list Z :=
  POKE_U32 (k_we_need k) ++ wire_string (default [] (k_hostkey_alg k)) ++ POKE_U32 (k_hostkey_type k) ++
  POKE_U32 (k_hostkey_nid k) ++ POKE_U32 (k_kex_type k) ++ POKE_U32 (z_of_bool (k_kex_strict k)) ++
  wire_string (k_my k) ++ wire_string (k_peer k) ++ wire_string (k_client_version k) ++ wire_string (k_server_version k) ++
  wire_string (k_session_id k) ++ POKE_U32 (k_flags k).

Definition counter_bytes (ps : packet_state) : list Z :=
  POKE_U32 (ps_seqnr ps) ++ POKE_U64 (ps_blocks ps) ++ POKE_U32 (ps_packets ps) ++ POKE_U64 (ps_bytes ps).

(** A direction that uses chacha20-poly1305; the buffers may be longer than the
    lengths say. *)
Record chacha_keys (nk : newkeys) (enc : sshenc) (key iv : list Z) : Prop := {
  cy_enc : nk_enc nk = Some enc;
  cy_cipher : cipher_by_name (e_name enc) = Some (e_cipher enc);
  cy_flag : has_flag (e_cipher enc) CFLAG_CHACHAPOLY = true;
  cy_key : e_key enc = Some key /\ e_key_len enc = 64 /\ 64 <= zlen key;
  cy_iv : e_iv enc = Some iv /\ e_iv_len enc = 0;
  cy_block : e_block_size enc = cipher_blocksize (e_cipher enc);
  cy_comp : nk_comp nk = mk_comp COMP_NONE false (Some (str "none"))
}.

Definition keys_bytes (enc : sshenc) (key : list Z) : list Z :=
  wire_string (e_name enc) ++ POKE_U32 (z_of_bool (e_enabled enc)) ++ POKE_U32 (e_block_size enc) ++
  wire_string (slice key 0 64) ++ wire_string [] ++ POKE_U32 COMP_NONE ++ wire_string (str "none").

Lemma swp_kex_to_blob m k s : swp (kex_to_blob m k) (fun m' s' => m' = m ++ kex_bytes k /\ same_but_oom s s') s.
Proof.
  unfold kex_to_blob, kex_bytes.
  repeat put_step.
  rewrite <- !app_assoc. split; [done|]. by eexists.
Qed.

Lemma swp_put_counters m ps s : swp (put_counters ps m) (fun m' s' => m' = m ++ counter_bytes ps /\ same_but_oom s s') s.
Proof.
  unfold put_counters, counter_bytes. repeat put_step.
  rewrite <- !app_assoc. split; [done|]. by eexists.
Qed.

(** The only entry of the table with this flag. *)
Definition chacha_cipher : sshcipher := mk_cipher (str "chacha20-poly1305@openssh.com") 8 64 0 16 CFLAG_CHACHAPOLY.

Lemma chacha_entry name c : cipher_by_name name = Some c -> has_flag c CFLAG_CHACHAPOLY = true ->
  c = chacha_cipher /\ name = str "chacha20-poly1305@openssh.com".
Proof.
  unfold cipher_by_name. intros [I N]%List.find_some F. apply bool_decide_eq_true in N. subst name.
  unfold ciphers in I. cbn [In] in I. repeat destruct I as [<-|I]; try done.
Qed.

Lemma swp_newkeys_to_blob md nk enc key iv m s cc : st_newkeys md (ssh_state s) = Some nk -> chacha_keys nk enc key iv ->
  st_context md (ssh_state s) = Some cc -> has_flag (cc_cipher cc) CFLAG_CHACHAPOLY = true ->
  swp (newkeys_to_blob m md) (fun m' s' => m' = m ++ wire_string (keys_bytes enc key) /\ same_but_oom s s') s.
Proof.
  intros N [C1 C2 C3 (C4 & C5 & C6) (C7 & C8) C9 C10] Hc Hf. unfold newkeys_to_blob. apply swp_bind, swp_getst. rewrite N.
  apply swp_bind. unfold enc_of. rewrite C1. apply swp_ret. apply swp_bind. eapply (swp_mono _ (fun e s' => e = enc /\ s' = s)).
  2: { unfold save_keyiv. rewrite C8. apply swp_bind. eapply (swp_mono _ (fun iv s' => iv = None /\ s' = s)); [intros ? ? [-> ->]; by apply swp_ret|].
       assert (cipher_get_keyiv 0 cc = (Ok None, cc)) as G.
       { unfold cipher_get_keyiv. rewrite (bind_ok get_st _ cc cc cc eq_refl), Hf. done. }
       destruct md; unfold on_send, on_receive; cbn [st_context] in Hc; intros a s' E; rewrite Hc, G in E; injection E as <- <-;
         (split; [done|]); destruct s as [[]]; cbn in *; by rewrite Hc. }
  intros ? ? [-> ->]. apply swp_bind, swp_salloc. intros [] o; [|apply swp_throw]. cbn [negb].
  rewrite C4, C5, C7, C8, C10. unfold put_bytes. cbn [c_type c_name default].
  destruct (chacha_entry _ _ C2 C3) as [-> _]. change (cipher_authlen chacha_cipher =? 0) with false. cbv iota.
  repeat first [put_step | apply swp_ret]. rewrite slice_0. unfold keys_bytes. rewrite <- !app_assoc. split; [done|by eexists].
Qed.

(** ** Reading *)

Lemma poke_u32_wrap v : POKE_U32 (u32 v) = POKE_U32 v.
Proof. unfold POKE_U32. by rewrite wrap_idem by lia. Qed.

Lemma take_u32_run v rest (s : ssh) : take_u32 (POKE_U32 v ++ rest) s = (Ok (u32 v, rest), s).
Proof.
  unfold take_u32. rewrite (bind_ok _ _ _ rest s).
  - unfold mret, M_ret. do 3 f_equal. rewrite <- (poke_u32_wrap v). rewrite (peek_prefix _ (POKE_U32 (u32 v))) by by rewrite take_app_le.
    apply peek_poke_u32, (wrap_range 32). lia.
  - rewrite consume_run by (rewrite zlen_app; pose proof (zlen_nonneg rest); change (zlen (POKE_U32 v)) with 4; lia). done.
Qed.

Lemma take_u64_run v rest (s : ssh) : 0 <= v < 2 ^ 64 -> take_u64 (POKE_U64 v ++ rest) s = (Ok (v, rest), s).
Proof.
  intros Hv. unfold take_u64. rewrite (bind_ok _ _ _ rest s).
  - unfold mret, M_ret. do 3 f_equal. by apply peek_poke_u64.
  - rewrite consume_run by (rewrite zlen_app; pose proof (zlen_nonneg rest); change (zlen (POKE_U64 v)) with 8; lia). done.
Qed.

Lemma salloc_run (s : ssh) : ssh_oom s = [] -> salloc s = (Ok true, s).
Proof. intros O. unfold salloc. rewrite O. cbn. by rewrite set_oom_nil. Qed.

Lemma take_string_run v rest (s : ssh) : ssh_oom s = [] -> zlen (wire_string v) <= SSHBUF_SIZE_MAX ->
  take_string (wire_string v ++ rest) s = (Ok (v, rest), s).
Proof.
  intros O L. rewrite zlen_wire_string in L. unfold take_string. rewrite parse_wire_string by lia.
  rewrite (bind_ok _ _ s (v, rest) s eq_refl). by rewrite (bind_ok _ _ _ _ _ (salloc_run s O)).
Qed.

Lemma take_cstring_run v rest (s : ssh) : ssh_oom s = [] -> memchr v 0 = None -> zlen (wire_string v) <= SSHBUF_SIZE_MAX ->
  take_cstring (wire_string v ++ rest) s = (Ok (v, rest), s).
Proof.
  intros O N L. unfold take_cstring. rewrite parse_cstring_wire by done.
  rewrite (bind_ok _ _ s (v, rest) s eq_refl). by rewrite (bind_ok _ _ _ _ _ (salloc_run s O)).
Qed.

(** Values that fit their fields. *)
Record kex_fits (k : kex) (alg : list Z) : Prop := {
  kf_need : 0 <= k_we_need k <= 1024;
  kf_alg : k_hostkey_alg k = Some alg /\ memchr alg 0 = None;
  kf_type : - 2 ^ 31 <= k_hostkey_type k < 2 ^ 31;
  kf_nid : - 2 ^ 31 <= k_hostkey_nid k < 2 ^ 31;
  kf_kex_type : 0 <= k_kex_type k < 2 ^ 32;
  kf_flags : 0 <= k_flags k < 2 ^ 32
}.

(** The key exchange of the restored connection. *)
Definition restored_kex (k : kex) : kex :=
  set_k_done true (set_k_server true (set_k_flags (k_flags k) (set_k_session_id (k_session_id k)
    (set_k_server_version (k_server_version k) (set_k_client_version (k_client_version k) (set_k_peer (k_peer k) (set_k_my (k_my k)
    (set_k_kex_strict (k_kex_strict k) (set_k_kex_type (k_kex_type k) (set_k_hostkey_nid (k_hostkey_nid k)
    (set_k_hostkey_type (k_hostkey_type k) (set_k_hostkey_alg (k_hostkey_alg k) (set_k_we_need (k_we_need k) kex_zero))))))))))))).

Lemma swrap_u32 v : - 2 ^ 31 <= v < 2 ^ 31 -> swrap 32 (u32 v) = v.
Proof. intros H. unfold swrap, wrap. change (32 - 1) with 31. change (2 ^ 32) with 4294967296. change (2 ^ 31) with 2147483648 in *. dlia. Qed.

Lemma sallocs_run n (s : ssh) : ssh_oom s = [] -> sallocs n s = (Ok true, s).
Proof. intros O. induction n as [|n IH]; [done|]. cbn [sallocs]. by rewrite (bind_ok _ _ _ _ _ (salloc_run s O)). Qed.

Ltac take_step :=
  lazymatch goal with
  | |- (take_u32 (POKE_U32 ?v ++ ?r) ≫= ?f) ?s = _ => rewrite (bind_ok _ f s _ s (take_u32_run v r s)); cbv beta iota
  | |- (take_string (wire_string ?v ++ ?r) ≫= ?f) ?s = _ => rewrite (bind_ok _ f s (v, r) s (take_string_run v r s ltac:(assumption) ltac:(lia))); cbv beta iota
  | |- (take_cstring (wire_string ?v ++ ?r) ≫= ?f) ?s = _ =>
      rewrite (bind_ok _ f s (v, r) s (take_cstring_run v r s ltac:(assumption) ltac:(assumption) ltac:(lia))); cbv beta iota
  end.

Lemma kex_from_blob_run k alg rest s : ssh_oom s = [] -> kex_fits k alg -> zlen (kex_bytes k) <= SSHBUF_SIZE_MAX ->
  kex_from_blob (kex_bytes k ++ rest) s = (Ok rest, set_ssh_kex (Some (restored_kex k)) s).
Proof.
  intros O [K1 [K2 K2'] K3 K4 K5 K6] L. unfold kex_bytes in L |- *. rewrite K2 in L |- *. cbn [default] in L |- *. rewrite !zlen_app in L. rewrite <- !app_assoc.
  repeat match type of L with context [zlen ?x] => lazymatch goal with H : 0 <= zlen x |- _ => fail | _ => pose proof (zlen_nonneg x) end end.
  unfold kex_from_blob. rewrite (bind_ok _ _ s (Some kex_zero) s) by (unfold kex_new; by rewrite (bind_ok _ _ _ _ _ (sallocs_run 6 s O))).
  repeat take_step. rewrite !swrap_u32 by done. rewrite !(wrap_small 32) by (cbn; lia || destruct (k_kex_strict k); cbn; lia).
  rewrite Z.gtb_ltb, (proj2 (Z.ltb_ge _ _)) by lia. unfold restored_kex. rewrite K2. destruct (k_kex_strict k); reflexivity.
Qed.

Record counters_fit (ps : packet_state) : Prop := {
  cf_seqnr : 0 <= ps_seqnr ps < 2 ^ 32;
  cf_packets : 0 <= ps_packets ps < 2 ^ 32;
  cf_blocks : 0 <= ps_blocks ps < 2 ^ 64;
  cf_bytes : 0 <= ps_bytes ps < 2 ^ 64
}.

Lemma take_counters_run md ps rest s : counters_fit ps ->
  take_counters md (counter_bytes ps ++ rest) s = (Ok rest, set_ssh_state (mod_ps md (fun _ => ps) (ssh_state s)) s).
Proof.
  intros [F1 F2 F3 F4]. destruct ps as [sq pk bl by_]. cbn [ps_seqnr ps_packets ps_blocks ps_bytes] in *.
  unfold take_counters, counter_bytes. rewrite <- !app_assoc. cbn [ps_seqnr ps_packets ps_blocks ps_bytes].
  rewrite (bind_ok _ _ s _ s (take_u32_run _ _ s)). rewrite (wrap_small 32) by done. cbv beta iota. rewrite (bind_ok (modst _) _ _ _ _ eq_refl).
  rewrite (bind_ok _ _ _ _ _ (take_u64_run _ _ _ F3)). cbv beta iota. rewrite (bind_ok (modst _) _ _ _ _ eq_refl).
  rewrite (bind_ok _ _ _ _ _ (take_u32_run _ _ _)). rewrite (wrap_small 32) by done. cbv beta iota. rewrite (bind_ok (modst _) _ _ _ _ eq_refl).
  rewrite (bind_ok _ _ _ _ _ (take_u64_run _ _ _ F4)). cbv beta iota. rewrite (bind_ok (modst _) _ _ _ _ eq_refl).
  destruct md; reflexivity.
Qed.

(** The keys as they are read back. *)
Definition restored_enc (enc : sshenc) (key : list Z) : sshenc :=
  mk_enc (e_name enc) (e_cipher enc) (e_enabled enc) 64 0 (e_block_size enc) (Some (slice key 0 64)) (Some []).
Definition restored_keys (enc : sshenc) (key : list Z) : newkeys :=
  mk_newkeys (Some (restored_enc enc key)) mac_zero (mk_comp COMP_NONE false (Some (str "none"))).

Lemma enc_from_blob_run nk enc key iv rest s : ssh_oom s = [] -> chacha_keys nk enc key iv ->
  enc_from_blob (wire_string (e_name enc) ++ POKE_U32 (z_of_bool (e_enabled enc)) ++ POKE_U32 (e_block_size enc) ++
    wire_string (slice key 0 64) ++ wire_string [] ++ rest) s = (Ok (restored_enc enc key, rest), s).
Proof.
  intros O [C1 C2 C3 (C4 & C5 & C6) (C7 & C8) C9 C10]. pose proof C2 as C2'. destruct (chacha_entry _ _ C2 C3) as [Ec En].
  assert (zlen (slice key 0 64) = 64) as L64 by (rewrite zlen_slice; lia).
  assert (zlen (wire_string (e_name enc)) <= SSHBUF_SIZE_MAX) by (by rewrite En).
  assert (memchr (e_name enc) 0 = None) by (by rewrite En).
  assert (zlen (wire_string (slice key 0 64)) <= SSHBUF_SIZE_MAX) by (rewrite zlen_wire_string, L64; done).
  assert (zlen (wire_string []) <= SSHBUF_SIZE_MAX) by done.
  unfold enc_from_blob. repeat take_step. rewrite C2', L64. unfold restored_enc. rewrite C9, Ec.
  change (u32 (cipher_blocksize chacha_cipher)) with 8. by destruct (e_enabled enc).
Qed.

Lemma newkeys_from_blob_run md nk enc key iv rest s k : ssh_oom s = [] -> ssh_kex s = Some k -> chacha_keys nk enc key iv ->
  newkeys_from_blob (wire_string (keys_bytes enc key) ++ rest) md s =
  (Ok rest, set_ssh_kex (Some (Packet.set_k_newkeys md (Some (restored_keys enc key)) k)) s).
Proof.
  intros O K C. pose proof C as [C1 C2 C3 (C4 & C5 & C6) (C7 & C8) C9 C10]. destruct (chacha_entry _ _ C2 C3) as [Ec En].
  assert (zlen (slice key 0 64) = 64) as L64 by (rewrite zlen_slice; lia).
  assert (zlen (wire_string (keys_bytes enc key)) <= SSHBUF_SIZE_MAX) as L.
  { rewrite zlen_wire_string. unfold keys_bytes. rewrite !zlen_app, !zlen_wire_string, L64, En. by vm_compute. }
  unfold newkeys_from_blob. rewrite (bind_ok _ _ _ _ _ (salloc_run s O)). cbn [negb].
  unfold take_blob. rewrite (bind_ok _ _ s (keys_bytes enc key, rest) s (take_string_run _ _ s O L)). cbv beta iota.
  unfold keys_bytes. rewrite (bind_ok _ _ s _ s (enc_from_blob_run nk enc key iv _ s O C)). cbv beta iota.
  assert ((cipher_authlen (e_cipher (restored_enc enc key)) =? 0) = false) as -> by (cbn; by rewrite Ec).
  rewrite (bind_ok (mret _) _ s (mac_zero, POKE_U32 COMP_NONE ++ wire_string (str "none")) s eq_refl). cbv beta iota.
  rewrite (bind_ok _ _ s _ s (take_u32_run _ _ s)). cbv beta iota. rewrite <- (app_nil_r (wire_string (str "none"))).
  rewrite (bind_ok _ _ s (str "none", []) s (take_cstring_run (str "none") [] s O eq_refl ltac:(done))). cbv beta iota.
  change (negb (zlen [] =? 0)) with false. cbv iota. rewrite (bind_ok getkex _ s k s) by (unfold getkex; by rewrite K).
  unfold modkex. rewrite (bind_ok _ _ s tt (set_ssh_kex (Some (Packet.set_k_newkeys md (Some (restored_keys enc key)) k)) s)); [done|].
  by rewrite K.
Qed.

(** ** Setting up the restored keys *)

Lemma U8TO32_LE_take n k i : (i + 4 <= n)%nat -> U8TO32_LE (take n k) i = U8TO32_LE k i.
Proof. intros H. unfold U8TO32_LE, le_at. rewrite !nth_lookup, !lookup_take_lt by lia. done. Qed.

(** Only the first 64 bytes of a key are used. *)
Lemma chachapoly_new_slice key : chachapoly_new true (slice key 0 64) 64 = chachapoly_new true key 64.
Proof.
  unfold chachapoly_new, slice. change (Z.to_nat 0) with 0%nat. change (Z.to_nat 64) with 64%nat. rewrite drop_0. cbn [Z.add Z.eqb negb Pos.add Pos.eqb].
  unfold chacha_keysetup. cbn [Z.eqb Pos.eqb]. rewrite !drop_drop, !skipn_firstn_comm. rewrite !U8TO32_LE_take by lia. done.
Qed.

Definition with_keys (md : mode) (nk : newkeys) (cc : sshcipher_ctx) (hard mx : Z) (st : session_state) : session_state :=
  set_st_max_blocks md mx (set_st_hard_max_blocks md hard (set_st_context md (Some cc) (set_st_newkeys md (Some nk)
    (mod_ps md (fun ps => set_ps_packets 0 (set_ps_blocks 0 ps)) st)))).

Definition installed_restored (enc : sshenc) (key : list Z) : newkeys :=
  mk_newkeys (Some (restored_enc enc key)) (set_m_enabled true mac_zero) (mk_comp COMP_NONE false (Some (str "none"))).

Lemma set_newkeys_run md nk enc key iv s k : ssh_oom s = [] -> ssh_kex s = Some k ->
  k_newkeys md k = Some (restored_keys enc key) -> chacha_keys nk enc key iv ->
  exists cp mx, chachapoly_new true key 64 = Some cp /\
    ssh_set_newkeys md s = (Ok tt, set_ssh_kex (Some (Packet.set_k_newkeys md None k)) (set_ssh_state
      (with_keys md (installed_restored enc key)
         (mk_cctx false (match md with MODE_OUT => true | MODE_IN => false end) None (Some cp) (e_cipher enc))
         (hard_max (e_block_size enc)) mx (ssh_state s)) s)).
Proof.
  intros O K N [C1 C2 C3 (C4 & C5 & C6) (C7 & C8) C9 C10]. destruct (chacha_entry _ _ C2 C3) as [Ec En].
  destruct (chachapoly_new true key 64) as [cp|] eqn:Ecp; [|by unfold chachapoly_new in Ecp]. exists cp.
  exists (if negb (st_rekey_limit (ssh_state s) =? 0) then Z.min (hard_max (e_block_size enc)) (st_rekey_limit (ssh_state s) / e_block_size enc)
          else hard_max (e_block_size enc)). split; [done|].
  unfold ssh_set_newkeys. do 2 rewrite (bind_ok (modst _) _ _ _ _ eq_refl).
  rewrite (bind_ok getkex _ _ k _) by (unfold getkex; cbn; by rewrite K). rewrite N.
  rewrite (bind_ok (modst _) _ _ _ _ eq_refl), (bind_ok (modkex _) _ _ _ _ eq_refl).
  cbn [enc_of restored_keys nk_enc nk_mac nk_comp]. rewrite (bind_ok (mret _) _ _ (restored_enc enc key) _ eq_refl).
  assert ((cipher_authlen (e_cipher (restored_enc enc key)) =? 0) = false) as -> by (cbn; by rewrite Ec).
  rewrite (bind_ok (mret _) _ _ mac_zero _ eq_refl). do 2 rewrite (bind_ok (modst _) _ _ _ _ eq_refl).
  do 2 match goal with |- (salloc ≫= ?f) ?x = _ => rewrite (bind_ok salloc f x true x (salloc_run x O)) end.
  set (cc := mk_cctx false _ None (Some cp) (e_cipher enc)).
  match goal with |- (lift ?c ≫= ?f) ?x = _ => assert (c = inl cc) as Hc; [|rewrite Hc, (bind_ok (lift (inl cc)) f x cc x eq_refl)] end.
  { cbn [restored_enc e_cipher e_key e_key_len e_iv e_iv_len default]. unfold cipher_init, cc. rewrite Ec.
    cbn [negb]. change (_ || _) with false. change (has_flag chacha_cipher CFLAG_CHACHAPOLY) with true. cbv iota.
    unfold id. rewrite chachapoly_new_slice, Ecp. done. }
  rewrite (bind_ok (modst _) _ _ _ _ eq_refl), (bind_ok getst _ _ _ _ eq_refl).
  change (c_type _ =? COMP_DELAYED) with false. cbn [andb]. rewrite (bind_ok (mret tt) _ _ tt _ eq_refl).
  rewrite (bind_ok (modst _) _ _ _ _ eq_refl). cbn [ssh_kex set_ssh_state]. rewrite K. destruct md; reflexivity.
Qed.

(** ** The whole state *)

(** A direction in use: its keys and a context set up from them. *)
Record direction (md : mode) (st : session_state) (enc : sshenc) (key : list Z) : Prop := {
  dr_keys : exists nk iv, st_newkeys md st = Some nk /\ chacha_keys nk enc key iv;
  dr_context : exists cc cp0 cp, st_context md st = Some cc /\ has_flag (cc_cipher cc) CFLAG_CHACHAPOLY = true /\
    chachapoly_new true key 64 = Some cp0 /\ cc_cp cc = Some cp /\ same_key cp0 cp
}.

(** A server's connection whose values fit their fields. *)
Record servable (s : ssh) (k : kex) (alg : list Z) (enco : sshenc) (keyo : list Z) (enci : sshenc) (keyi : list Z) : Prop := {
  sv_kex : ssh_kex s = Some k /\ kex_fits k alg;
  sv_out : direction MODE_OUT (ssh_state s) enco keyo;
  sv_in : direction MODE_IN (ssh_state s) enci keyi;
  sv_counters : counters_fit (st_p_send (ssh_state s)) /\ counters_fit (st_p_read (ssh_state s));
  sv_rekey : 0 <= st_rekey_limit (ssh_state s) < 2 ^ 64 /\ 0 <= st_rekey_interval (ssh_state s) < 2 ^ 32;
  sv_qos : -1 <= st_interactive_mode (ssh_state s) <= INT_MAX /\ -1 <= st_qos_interactive (ssh_state s) <= INT_MAX /\
           -1 <= st_qos_other (ssh_state s) <= INT_MAX
}.

Definition state_bytes (k : kex) (enco : sshenc) (keyo : list Z) (enci : sshenc) (keyi : list Z) (st : session_state) : list Z :=
  kex_bytes k ++ wire_string (keys_bytes enco keyo) ++ wire_string (keys_bytes enci keyi) ++
  POKE_U64 (st_rekey_limit st) ++ POKE_U32 (st_rekey_interval st) ++ counter_bytes (st_p_send st) ++ counter_bytes (st_p_read st) ++
  wire_string (st_input st) ++ wire_string (st_output st) ++ POKE_U32 (ENCODE_INT (st_interactive_mode st)) ++
  POKE_U32 (ENCODE_INT (st_qos_interactive st)) ++ POKE_U32 (ENCODE_INT (st_qos_other st)).

Lemma swp_get_state s k alg enco keyo enci keyi : servable s k alg enco keyo enci keyi ->
  swp (ssh_packet_get_state []) (fun m s' => m = state_bytes k enco keyo enci keyi (ssh_state s) /\ zlen m <= SSHBUF_SIZE_MAX /\ same_but_oom s s') s.
Proof.
  intros [[K _] [(nko & ivo & N1 & C1) (cco & _ & _ & X1 & F1 & _)] [(nki & ivi & N2 & C2) (cci & _ & _ & X2 & F2 & _)] _ _ _].
  unfold ssh_packet_get_state, state_bytes. apply swp_bind, swp_getkex. intros k1 K1. assert (k1 = k) as -> by congruence.
  apply swp_bind. eapply swp_mono; [|apply swp_kex_to_blob]. intros m1 s1 [-> [o1 ->]].
  apply swp_bind. eapply swp_mono; [|by eapply swp_newkeys_to_blob]. intros m2 s2 [-> [o2 ->]].
  apply swp_bind. eapply swp_mono; [|by eapply swp_newkeys_to_blob]. intros m3 s3 [-> [o3 ->]].
  apply swp_bind, swp_getst. cbn [ssh_state set_ssh_oom]. do 2 (put_step; put_step).
  apply swp_bind. eapply swp_mono; [|apply swp_put_counters]. intros m4 s4 [-> [o4 ->]].
  apply swp_bind. eapply swp_mono; [|apply swp_put_counters]. intros m5 s5 [-> [o5 ->]].
  do 4 (put_step; put_step). apply swp_put_u32. intros ox L. rewrite <- !app_assoc in L |- *.
  split; [done|]. split; [exact L|by eexists].
Qed.

Lemma decode_encode v : -1 <= v <= INT_MAX -> DECODE_INT (u32 (ENCODE_INT v)) = v.
Proof.
  unfold INT_MAX, DECODE_INT, ENCODE_INT, INT_MAX. intros H. destruct (Z.ltb_spec v 0).
  - assert (v = -1) as -> by lia. done.
  - rewrite wrap_idem, (wrap_small 32) by lia. destruct (Z.gtb_spec v 2147483647); lia.
Qed.

(** The restored connection, compared with the old one. *)
Record continues (s r : ssh) (k : kex) (enco : sshenc) (keyo : list Z) (enci : sshenc) (keyi : list Z) : Prop := {
  ct_kex : ssh_kex r = Some (restored_kex k);
  ct_send : ps_seqnr (st_p_send (ssh_state r)) = ps_seqnr (st_p_send (ssh_state s)) /\
            ps_bytes (st_p_send (ssh_state r)) = ps_bytes (st_p_send (ssh_state s));
  ct_read : ps_seqnr (st_p_read (ssh_state r)) = ps_seqnr (st_p_read (ssh_state s)) /\
            ps_bytes (st_p_read (ssh_state r)) = ps_bytes (st_p_read (ssh_state s));
  ct_restart : ps_packets (st_p_send (ssh_state r)) = 0 /\ ps_blocks (st_p_send (ssh_state r)) = 0 /\
               ps_packets (st_p_read (ssh_state r)) = 0 /\ ps_blocks (st_p_read (ssh_state r)) = 0;
  ct_io : st_input (ssh_state r) = st_input (ssh_state s) /\ st_output (ssh_state r) = st_output (ssh_state s);
  ct_rekey : st_rekey_limit (ssh_state r) = st_rekey_limit (ssh_state s) /\
             st_rekey_interval (ssh_state r) = st_rekey_interval (ssh_state s);
  ct_qos : st_interactive_mode (ssh_state r) = st_interactive_mode (ssh_state s) /\
           st_qos_interactive (ssh_state r) = st_qos_interactive (ssh_state s) /\
           st_qos_other (ssh_state r) = st_qos_other (ssh_state s);
  ct_auth : st_after_authentication (ssh_state r) = true /\ st_rekeying (ssh_state r) = false;
  ct_out : exists cp, chachapoly_new true keyo 64 = Some cp /\ st_newkeys_out (ssh_state r) = Some (installed_restored enco keyo) /\
    st_send_context (ssh_state r) = Some (mk_cctx false true None (Some cp) (e_cipher enco));
  ct_in : exists cp, chachapoly_new true keyi 64 = Some cp /\ st_newkeys_in (ssh_state r) = Some (installed_restored enci keyi) /\
    st_receive_context (ssh_state r) = Some (mk_cctx false false None (Some cp) (e_cipher enci))
}.

Lemma delayed_none md nk (s : ssh) : st_newkeys md (ssh_state s) = Some nk -> c_type (nk_comp nk) <> COMP_DELAYED ->
  delayed_compress_mode md s = (Ok tt, s).
Proof.
  intros N C. unfold delayed_compress_mode. rewrite (bind_ok getst _ s _ s eq_refl), N, (proj2 (Z.eqb_neq _ _) C).
  by rewrite andb_false_r.
Qed.

Lemma postauth_run nko nki (s : ssh) : st_newkeys_out (ssh_state s) = Some nko -> st_newkeys_in (ssh_state s) = Some nki ->
  c_type (nk_comp nko) <> COMP_DELAYED -> c_type (nk_comp nki) <> COMP_DELAYED ->
  ssh_packet_set_postauth s = (Ok tt, set_ssh_state (set_st_rekeying false (set_st_after_authentication true (ssh_state s))) s).
Proof.
  intros N1 N2 C1 C2. unfold ssh_packet_set_postauth, ssh_packet_enable_delayed_compress.
  do 2 rewrite (bind_ok (modst _) _ _ _ _ eq_refl).
  match goal with |- (_ ≫= _) ?x = _ => rewrite (bind_ok _ _ x tt x) by (by eapply (delayed_none MODE_IN)) end.
  by eapply (delayed_none MODE_OUT).
Qed.

(** What has been read before the keys are set up, *)
Record half_restored (st : session_state) (k : kex) (enco : sshenc) (keyo : list Z) (enci : sshenc) (keyi : list Z) (r : ssh) : Prop := {
  hr_oom : ssh_oom r = [];
  hr_kex : ssh_kex r = Some (Packet.set_k_newkeys MODE_IN (Some (restored_keys enci keyi))
                              (Packet.set_k_newkeys MODE_OUT (Some (restored_keys enco keyo)) (restored_kex k)));
  hr_send : st_p_send (ssh_state r) = st_p_send st;
  hr_read : st_p_read (ssh_state r) = st_p_read st;
  hr_limit : st_rekey_limit (ssh_state r) = st_rekey_limit st;
  hr_interval : st_rekey_interval (ssh_state r) = st_rekey_interval st
}.

(** and after. *)
Record keys_restored (st : session_state) (k : kex) (enco : sshenc) (keyo : list Z) (enci : sshenc) (keyi : list Z) (r : ssh) : Prop := {
  kr_oom : ssh_oom r = [];
  kr_kex : ssh_kex r = Some (restored_kex k);
  kr_send : st_p_send (ssh_state r) = set_ps_packets 0 (set_ps_blocks 0 (st_p_send st));
  kr_read : st_p_read (ssh_state r) = set_ps_packets 0 (set_ps_blocks 0 (st_p_read st));
  kr_limit : st_rekey_limit (ssh_state r) = st_rekey_limit st;
  kr_interval : st_rekey_interval (ssh_state r) = st_rekey_interval st;
  kr_auth : st_after_authentication (ssh_state r) = true /\ st_rekeying (ssh_state r) = false;
  kr_out : exists cp, chachapoly_new true keyo 64 = Some cp /\ st_newkeys_out (ssh_state r) = Some (installed_restored enco keyo) /\
    st_send_context (ssh_state r) = Some (mk_cctx false true None (Some cp) (e_cipher enco));
  kr_in : exists cp, chachapoly_new true keyi 64 = Some cp /\ st_newkeys_in (ssh_state r) = Some (installed_restored enci keyi) /\
    st_receive_context (ssh_state r) = Some (mk_cctx false false None (Some cp) (e_cipher enci))
}.

Lemma kex_cleared k nki nko :
  Packet.set_k_newkeys MODE_OUT None (Packet.set_k_newkeys MODE_IN None
    (Packet.set_k_newkeys MODE_IN nki (Packet.set_k_newkeys MODE_OUT nko (restored_kex k)))) = restored_kex k.
Proof. destruct k. vm_compute. reflexivity. Qed.

Lemma setup_run st k enco keyo enci keyi nko nki ivo ivi r : chacha_keys nko enco keyo ivo -> chacha_keys nki enci keyi ivi ->
  half_restored st k enco keyo enci keyi r ->
  exists r', keys_restored st k enco keyo enci keyi r' /\
    forall g : SM unit, (ssh_set_newkeys MODE_IN;; ssh_set_newkeys MODE_OUT;; ssh_packet_set_postauth;; g) r = g r'.
Proof.
  intros C1 C2 [O K S1 S2 R1 R2].
  destruct (set_newkeys_run MODE_IN nki enci keyi ivi r _ O K eq_refl C2) as (cpi & mxi & Ei & Hi).
  lazymatch type of Hi with _ = (_, ?x) =>
    destruct (set_newkeys_run MODE_OUT nko enco keyo ivo x _ O eq_refl eq_refl C1) as (cpo & mxo & Eo & Ho) end.
  lazymatch type of Ho with _ = (_, ?x) =>
    pose proof (postauth_run (installed_restored enco keyo) (installed_restored enci keyi) x eq_refl eq_refl ltac:(done) ltac:(done)) as Hp end.
  eexists. split; [|intros g; rewrite (bind_ok _ _ _ _ _ Hi), (bind_ok _ _ _ _ _ Ho), (bind_ok _ _ _ _ _ Hp); reflexivity].
  clear Hi Ho Hp.
  destruct r as [st0 x1 x2 x3 x4 x5 x6 x7 x8 x9 x10]. destruct st0. cbn in S1, S2. split.
  - exact O.
  - cbn [ssh_kex set_ssh_kex set_ssh_state]. exact (f_equal Some (kex_cleared _ _ _)).
  - cbn. by rewrite S1.
  - cbn. by rewrite S2.
  - exact R1.
  - exact R2.
  - split; reflexivity.
  - exists cpo. split; [exact Eo|split; reflexivity].
  - exists cpi. split; [exact Ei|split; reflexivity].
Qed.

Lemma prefix_run st k alg enco keyo enci keyi nko nki ivo ivi rest r (f : list Z -> SM unit) : chacha_keys nko enco keyo ivo -> chacha_keys nki enci keyi ivi ->
  kex_fits k alg -> counters_fit (st_p_send st) -> counters_fit (st_p_read st) ->
  0 <= st_rekey_limit st < 2 ^ 64 -> 0 <= st_rekey_interval st < 2 ^ 32 -> ssh_oom r = [] -> zlen (kex_bytes k) <= SSHBUF_SIZE_MAX ->
  exists r', half_restored st k enco keyo enci keyi r' /\
   (m ← kex_from_blob (kex_bytes k ++ wire_string (keys_bytes enco keyo) ++ wire_string (keys_bytes enci keyi) ++
      POKE_U64 (st_rekey_limit st) ++ POKE_U32 (st_rekey_interval st) ++ counter_bytes (st_p_send st) ++ counter_bytes (st_p_read st) ++ rest);
    m ← newkeys_from_blob m MODE_OUT;
    m ← newkeys_from_blob m MODE_IN;
    '(v, m) ← take_u64 m; modst (set_st_rekey_limit v);;
    '(v, m) ← take_u32 m; modst (set_st_rekey_interval v);;
    m ← take_counters MODE_OUT m;
    m ← take_counters MODE_IN m;
    now ← monotime;
    modst (set_st_rekey_time now);;
    f m) r = f rest r'.
Proof.
  intros C1 C2 KF S1 S2 R1 R2 O L.
  rewrite (bind_ok _ _ _ _ _ (kex_from_blob_run k alg _ r O KF L)).
  set (r1 := set_ssh_kex (Some (restored_kex k)) r).
  rewrite (bind_ok _ _ _ _ _ (newkeys_from_blob_run MODE_OUT nko enco keyo ivo _ r1 _ O eq_refl C1)). set (r2 := set_ssh_kex _ r1).
  rewrite (bind_ok _ _ _ _ _ (newkeys_from_blob_run MODE_IN nki enci keyi ivi _ r2 _ O eq_refl C2)). set (r3 := set_ssh_kex _ r2).
  rewrite (bind_ok _ _ _ _ _ (take_u64_run _ _ _ R1)). cbv beta iota. rewrite (bind_ok (modst _) _ _ _ _ eq_refl).
  rewrite (bind_ok _ _ _ _ _ (take_u32_run _ _ _)), (wrap_small 32) by done. cbv beta iota. rewrite (bind_ok (modst _) _ _ _ _ eq_refl).
  rewrite (bind_ok _ _ _ _ _ (take_counters_run MODE_OUT _ _ _ S1)), (bind_ok _ _ _ _ _ (take_counters_run MODE_IN _ _ _ S2)).
  rewrite (bind_ok monotime _ _ _ _ eq_refl), (bind_ok (modst _) _ _ _ _ eq_refl).
  eexists. split; [|reflexivity]. split; done.
Qed.

Lemma buffers_run st k enco keyo enci keyi s r : st = ssh_state s -> keys_restored st k enco keyo enci keyi r ->
  zlen (st_input st) <= SSHBUF_SIZE_MAX - 4 -> zlen (st_output st) <= SSHBUF_SIZE_MAX - 4 ->
  -1 <= st_interactive_mode st <= INT_MAX -> -1 <= st_qos_interactive st <= INT_MAX -> -1 <= st_qos_other st <= INT_MAX ->
  exists r', restore_buffers (wire_string (st_input st) ++ wire_string (st_output st) ++ POKE_U32 (ENCODE_INT (st_interactive_mode st)) ++
      POKE_U32 (ENCODE_INT (st_qos_interactive st)) ++ POKE_U32 (ENCODE_INT (st_qos_other st))) r = (Ok tt, r') /\
    continues s r' k enco keyo enci keyi.
Proof.
  intros -> [O K S1 S2 R1 R2 A Xo Xi] Li Lo Q1 Q2 Q3. unfold restore_buffers. rewrite (bind_ok (modst _) _ _ _ _ eq_refl).
  rewrite parse_wire_string by done. rewrite (bind_ok (parsed (inr _)) _ _ _ _ eq_refl). cbv beta iota.
  rewrite parse_wire_string by done. rewrite (bind_ok (parsed (inr _)) _ _ _ _ eq_refl). cbv beta iota.
  rewrite (bind_ok _ _ _ _ _ (append_run [] (st_input (ssh_state s)) (set_ssh_state _ r) O ltac:(rewrite zlen_nil; lia))).
  rewrite (bind_ok (modst _) _ _ _ _ eq_refl).
  rewrite (bind_ok _ _ _ _ _ (append_run [] (st_output (ssh_state s)) (set_ssh_state _ (set_ssh_state _ r)) O ltac:(rewrite zlen_nil; lia))).
  rewrite (bind_ok (modst _) _ _ _ _ eq_refl). do 2 (rewrite (bind_ok _ _ _ _ _ (take_u32_run _ _ _)); cbv beta iota).
  rewrite <- (app_nil_r (POKE_U32 (ENCODE_INT (st_qos_other _)))). rewrite (bind_ok _ _ _ _ _ (take_u32_run _ _ _)). cbv beta iota.
  rewrite (bind_ok (modst _) _ _ _ _ eq_refl). rewrite !decode_encode by done.
  eexists. split; [reflexivity|]. split; sfields; rewrite ?S1, ?S2; try done; by split_and!.
Qed.

Lemma set_state_run s k alg enco keyo enci keyi r : servable s k alg enco keyo enci keyi -> ssh_oom r = [] ->
  zlen (state_bytes k enco keyo enci keyi (ssh_state s)) <= SSHBUF_SIZE_MAX ->
  exists r', ssh_packet_set_state (state_bytes k enco keyo enci keyi (ssh_state s)) r = (Ok tt, r') /\
    continues s r' k enco keyo enci keyi.
Proof.
  intros [[K KF] [(nko & ivo & N1 & C1) _] [(nki & ivi & N2 & C2) _] [S1 S2] [R1 R2] (Q1 & Q2 & Q3)] O L.
  unfold state_bytes in L |- *. rewrite !zlen_app in L.
  repeat match type of L with context [zlen ?x] => lazymatch goal with H : 0 <= zlen x |- _ => fail | _ => pose proof (zlen_nonneg x) end end.
  assert (zlen (st_input (ssh_state s)) <= SSHBUF_SIZE_MAX - 4 /\ zlen (st_output (ssh_state s)) <= SSHBUF_SIZE_MAX - 4) as [Li Lo]
    by (pose proof (zlen_wire_string (st_input (ssh_state s))); pose proof (zlen_wire_string (st_output (ssh_state s))); lia).
  unfold ssh_packet_set_state.
  edestruct (prefix_run (ssh_state s) k alg enco keyo enci keyi nko nki ivo ivi) as (r1 & HR1 & E1);
    [exact C1|exact C2|exact KF|exact S1|exact S2|exact R1|exact R2|exact O|lia|].
  destruct (setup_run _ _ _ _ _ _ _ _ _ _ r1 C1 C2 HR1) as (r2 & HR2 & E2).
  destruct (buffers_run _ _ _ _ _ _ s r2 eq_refl HR2 Li Lo Q1 Q2 Q3) as (r3 & E3 & HR3).
  exists r3. split; [|done]. etrans; [apply E1|]. etrans; [apply E2|]. exact E3.
Qed.

(** ** In step with the peer *)

Lemma restored_alike md st enc key nk iv ks : st_newkeys md st = Some nk -> chacha_keys nk enc key iv ->
  keys_like (st_newkeys md st) ks -> keys_like (Some (installed_restored enc key)) ks.
Proof.
  intros N [C1 C2 C3 (C4 & C5 & C6) (C7 & C8) C9 C10] (ks0 & K & A). rewrite N in K. destruct K as (enc0 & E0 & ->).
  assert (enc0 = enc) as -> by congruence. destruct (chacha_entry _ _ C2 C3) as [Ec _].
  eexists. split; [by eexists|]. etrans; [|exact A]. rewrite C10. cbn [e_cipher restored_enc]. rewrite Ec. by split.
Qed.

(** C19: Privilege separation keeps the connection in step.  A server process
    serialises its transport state, with chacha20-poly1305 in both directions;
    any other process that restores it (memory permitting) succeeds and has the
    same key exchange parameters, sequence numbers, unread input, unsent output,
    rekeying limits and service settings; every peer that was in step with the
    old process, sending or receiving, is in step with the new one.  The
    packet and block counts that were sent along are not restored: they start
    again from 0. *)
Theorem handover s k alg enco keyo enci keyi m s' r :
  servable s k alg enco keyo enci keyi -> ssh_packet_get_state [] s = (Ok m, s') -> ssh_oom r = [] ->
  exists r', ssh_packet_set_state m r = (Ok tt, r') /\ continues s r' k enco keyo enci keyi /\
    (forall ks peer, linked ks chacha_sync s peer -> linked ks chacha_sync r' peer) /\
    (forall ks peer, linked ks chacha_sync peer s -> linked ks chacha_sync peer r').
Proof.
  intros V G O. destruct (swp_get_state s k alg enco keyo enci keyi V m s' G) as (-> & L & _).
  destruct (set_state_run s k alg enco keyo enci keyi r V O L) as (r' & E & C). exists r'. split_and!; [done..| |].
  - destruct C as [_ [C1 _] _ _ _ _ _ _ (cp & X1 & X2 & X3) _].
    destruct V as [_ [(nk & iv & N & CK) (cc & cp0 & cp1 & D1 & D2 & D3 & D4 & D5)] _ _ _ _].
    intros ks p [K1 K2 (sc & rc & Y1 & Y2 & Y3) K4]. split.
    + rewrite X2. eapply (restored_alike MODE_OUT (ssh_state s)); [exact N|exact CK|exact K1].
    + done.
    + eexists _, rc. split_and!; [exact X3|done|]. cbn [st_context] in D1. assert (sc = cc) as -> by congruence.
      destruct Y3 as [c c' ps pr es er cpa cpb F F' SK]. cbn [cc_cp] in D4. simplify_eq. constructor; [by destruct CK|done|by eapply same_key_trans].
    + by rewrite C1.
  - destruct C as [_ _ [C1 _] _ _ _ _ _ _ (cp & X1 & X2 & X3)].
    destruct V as [_ _ [(nk & iv & N & CK) (cc & cp0 & cp1 & D1 & D2 & D3 & D4 & D5)] _ _ _].
    intros ks p [K1 K2 (sc & rc & Y1 & Y2 & Y3) K4]. split.
    + done.
    + rewrite X2. eapply (restored_alike MODE_IN (ssh_state s)); [exact N|exact CK|exact K2].
    + eexists sc, _. split_and!; [done|exact X3|]. cbn [st_context] in D1. assert (rc = cc) as -> by congruence.
      destruct Y3 as [c c' ps pr es er cpa cpb F F' SK]. cbn [cc_cp] in D4. simplify_eq. constructor; [done|by destruct CK|].
      eapply same_key_trans; [exact SK|by apply same_key_sym].
    + by rewrite C1.
Qed.
End Handover.

(** A server under chacha20-poly1305, with a byte of input left. *)
Module Serving.
#[local] Existing Instance no_crypto.

Definition server : ssh :=
  fresh (ssh_packet_set_connection;;
         modkex (fun k => set_k_newkeys_in (Some Sample.nk) (set_k_newkeys_out (Some Sample.nk)
           (set_k_hostkey_alg (Some (str "ssh-ed25519")) (set_k_hostkey_nid (-1) (set_k_we_need 64 (set_k_session_id (str "id") k))))));;
         ssh_set_newkeys MODE_OUT;; ssh_set_newkeys MODE_IN;; ssh_packet_process_incoming [7]).
Definition key : list Z := map Z.of_nat (seq 0 64).
Definition successor : ssh := fresh ssh_packet_set_connection.
Definition k : kex := default kex_zero (ssh_kex server).
Definition blob : list Z := match ssh_packet_get_state [] server with (Ok m, _) => m | _ => [] end.
End Serving.

Lemma handover_witness :
  exists r', @ssh_packet_set_state no_crypto Serving.blob Serving.successor = (Ok tt, r') /\
    continues Serving.server r' Serving.k Switching.enc Serving.key Switching.enc Serving.key /\
    (forall ks peer, linked ks chacha_sync Serving.server peer -> linked ks chacha_sync r' peer) /\
    (forall ks peer, linked ks chacha_sync peer Serving.server -> linked ks chacha_sync peer r').
Proof.
  apply (@handover no_crypto Serving.server Serving.k (str "ssh-ed25519") Switching.enc Serving.key Switching.enc Serving.key
    Serving.blob (@ssh_packet_get_state no_crypto [] Serving.server).2 Serving.successor).
  - assert (forall md, direction md (ssh_state Serving.server) Switching.enc Serving.key) as D.
    { intros md. split.
      - destruct md; (eexists _, []; split; [vm_compute; reflexivity|]); (split; [vm_compute; reflexivity..| | | |reflexivity]; by vm_compute).
      - destruct md; (eexists _, _, _; split_and!; [vm_compute; reflexivity..|]; by vm_compute). }
    split; [split; [vm_compute; reflexivity|]|apply D|apply D|split; by vm_compute..|by vm_compute].
    split; by vm_compute.
  - vm_compute. reflexivity.
  - reflexivity.
Defined.
