(* ===== verification/Misc.v ===== *)
(** * String parsing and argument vectors: [misc.c]

    The parsers the programs share: tokens of configuration lines, host, port
    and URI syntax, key options, argument vectors, environment lists and token
    expansion.  A C string is the list of its bytes before the NUL; a pointer
    into a string is the rest of the string from there, or an offset; a
    function that cuts a string in place returns the pieces.  Allocations that
    may fail draw their answer from the state of the computation, as in
    KexNames; the [x] functions, which end the process, succeed.  [fatal] ends
    the process. *)

From S2P Require Import Prelude Ssherr Sshbuf Cstring Match KexNames.

(** ** The C library *)

Definition isalpha (c : Z) : bool := isupper c || ((97 <=? c) && (c <=? 122)).
Definition isalnum (c : Z) : bool := isalpha c || isdigit c.
Definition isxdigit (c : Z) : bool :=
  isdigit c || ((65 <=? c) && (c <=? 70)) || ((97 <=? c) && (c <=? 102)).

(** [s[i]], the NUL included. *)
Definition at_ (s : list Z) (i : nat) : Z := nth i s 0.

(** [strncmp(s, p, strlen(p)) == 0] and [strncasecmp] likewise. *)
Definition has_prefix (s p : list Z) : bool := bool_decide (take (length p) s = p).
Definition has_iprefix (s p : list Z) : bool :=
  bool_decide (lowercase (take (length p) s) = lowercase p).
Definition strcaseeq (a b : list Z) : bool := bool_decide (lowercase a = lowercase b).

(** The bytes before the first one of [accept], and that byte with what
    follows it, if there is one ([strpbrk], [strchr]). *)
Fixpoint cut (accept s : list Z) : list Z * option (Z * list Z) :=
  match s with
  | [] => ([], None)
  | c :: s' =>
      if bool_decide (c ∈ accept) then ([], Some (c, s'))
      else let '(a, r) := cut accept s' in (c :: a, r)
  end.

(** What [strspn] skips. *)
Fixpoint skip_in (accept s : list Z) : list Z :=
  match s with
  | c :: s' => if bool_decide (c ∈ accept) then skip_in accept s' else s
  | [] => []
  end.

(** printf's [%d] of a number that is not negative. *)
Fixpoint dec_digits (fuel : nat) (n : Z) (acc : list Z) : list Z :=
  match fuel with
  | O => acc
  | S fuel =>
      let acc := 48 + n mod 10 :: acc in
      if n <? 10 then acc else dec_digits fuel (n / 10) acc
  end.
Definition fmt_d (n : Z) : list Z := dec_digits (S (Z.to_nat (Z.log2 n))) n [].

(** printf's [%02x] of a byte. *)
Definition hex_digit (v : Z) : Z := if v <? 10 then 48 + v else 87 + v.
Definition fmt_02x (v : Z) : list Z := [hex_digit (v / 16); hex_digit (v mod 16)].

(** ** End of the process, buffers *)

Definition EXIT_255 : Z := 255.
Definition fatal {A} : AM A := throw EXIT_255.

(** [sshbuf_put]: a call every caller here follows with [fatal] on failure. *)
Definition put_or_fatal (b bs : list Z) : AM (list Z) :=
  if zlen b + zlen bs >? SSHBUF_SIZE_MAX then fatal
  else ok ← alloc; if (ok : bool) then mret (b ++ bs) else fatal.

(** ** Ends and prefixes of strings *)

Definition chop (s : list Z) : list Z := (cut [10; 13] s).1.

(** The loop from the end of the string, here from the front of its reverse. *)
Fixpoint rtrim_loop (r : list Z) : list Z :=
  match r with
  | c :: r' => if isspace c then rtrim_loop r' else r
  | [] => []
  end.
Definition rtrim (s : list Z) : list Z := rev (rtrim_loop (rev s)).

Definition strprefix (s prefix : list Z) (ignorecase : bool) : option (list Z) :=
  if bool_decide (prefix = []) then Some s
  else if ignorecase then
    if negb (has_iprefix s prefix) then None else Some (drop (length prefix) s)
  else
    if negb (has_prefix s prefix) then None else Some (drop (length prefix) s).

Definition skip_space (s : list Z) : list Z := skip_in [32; 9] s.

Definition stringlist_append (listp : option (list (list Z))) (s : list Z) : list (list Z) :=
  match listp with
  | None => [s]
  | Some l => l ++ [s]
  end.

(** ** Configuration tokens *)

Definition WHITESPACE : list Z := [32; 9; 13; 10].
Definition QUOTE : list Z := [34].

(** The token, and what [*s] is afterwards. *)
Definition strdelim_internal (s : option (list Z)) (split_equals : bool)
    : option (list Z) * option (list Z) :=
  match s with
  | None => (None, None)
  | Some s =>
      match cut (if split_equals then WHITESPACE ++ QUOTE ++ [61] else WHITESPACE ++ QUOTE) s with
      | (old, None) => (Some old, None)
      | (old, Some (c, rest)) =>
          if c =? 34 then
            (* the quote is moved over, up to the matching one *)
            match cut QUOTE rest with
            | (_, None) => (None, None)
            | (quoted, Some (_, rest)) => (Some (old ++ quoted), Some (skip_in WHITESPACE rest))
            end
          else
            let wspace := split_equals && (c =? 61) in
            let rest := skip_in WHITESPACE rest in
            if split_equals && (at_ rest 0 =? 61) && negb wspace then
              (Some old, Some (skip_in WHITESPACE (tail rest)))
            else (Some old, Some rest)
      end
  end.

Definition strdelim (s : option (list Z)) := strdelim_internal s true.
Definition strdelimw (s : option (list Z)) := strdelim_internal s false.

(** ** Hosts and ports *)

Definition SSH_DEFAULT_PORT : Z := 22.
Definition FWD_PERMIT_ANY_PORT : Z := 0.
Definition SSH_TUNID_ANY : Z := 0x7fffffff.
Definition SSH_TUNID_ERR : Z := SSH_TUNID_ANY - 1.
Definition SSH_TUNID_MAX : Z := SSH_TUNID_ANY - 2.

Definition put_host_port (host : list Z) (port : Z) : list Z :=
  if (port =? 0) || (port =? SSH_DEFAULT_PORT) then host
  else chr "[" :: host ++ str "]:" ++ fmt_d port.

(** The host field, the delimiter if there is one, and what follows it
    ([None]: [*cp] is NULL). *)
Definition hpdelim2 (cp : option (list Z)) : option (list Z * option (Z * list Z)) :=
  match cp with
  | None => None
  | Some s =>
      match (if at_ s 0 =? chr "[" then
               match cut (str "]") s with
               | (_, None) => None
               | (a, Some (_, r)) => Some (a ++ str "]", r)
               end
             else
               match cut (str ":/") s with
               | (a, None) => Some (a, [])
               | (a, Some (c, r)) => Some (a, c :: r)
               end) with
      | None => None
      | Some (old, s) =>
          match s with
          | [] => Some (old, None)
          | c :: s' =>
              if (c =? chr ":") || (c =? chr "/") then Some (old, Some (c, s')) else None
          end
      end
  end.

(** The host, and what [*cp] is afterwards. *)
Definition hpdelim (cp : option (list Z)) : option (list Z * option (list Z)) :=
  match hpdelim2 cp with
  | None => None
  | Some (old, None) => Some (old, None)
  | Some (old, Some (c, rest)) => if c =? chr "/" then None else Some (old, Some rest)
  end.

Definition cleanhostname (host : list Z) : list Z :=
  if (at_ host 0 =? chr "[") && (at_ host (length host - 1) =? chr "]")
  then slice host 1 (zlen host - 2)
  else host.

Fixpoint colon_loop (flag : bool) (cp : list Z) : option Z :=
  match cp with
  | [] => None
  | c :: cp' =>
      let flag := if (c =? chr "@") && (at_ cp' 0 =? chr "[") then true else flag in
      if (c =? chr "]") && (at_ cp' 0 =? chr ":") && flag then Some 1
      else if (c =? chr ":") && negb flag then Some 0
      else if c =? chr "/" then None
      else Z.succ <$> colon_loop flag cp'
  end.

(** The offset of the colon; the Windows build does not split drive letters. *)
Definition colon (cp : list Z) : option Z :=
  if at_ cp 0 =? chr ":" then None
  else if (negb (at_ cp 0 =? 0) && (at_ cp 1 =? chr ":")) ||
          ((at_ cp 0 =? chr "/") && negb (at_ cp 1 =? 0) && (at_ cp 2 =? chr ":")) then None
  else colon_loop (at_ cp 0 =? chr "[") cp.

(** user, host and path. *)
Definition parse_user_host_path (s : list Z) : option (option (list Z) * list Z * list Z) :=
  match colon s with
  | None => None
  | Some i =>
      let sdup := slice s 0 i in
      let tmp := drop (Z.to_nat (i + 1)) s in
      let path := if bool_decide (tmp = []) then str "." else tmp in
      match strrchr sdup (chr "@") with
      | Some j =>
          let user := slice sdup 0 j in
          Some (if bool_decide (user = []) then None else Some user,
                cleanhostname (drop (Z.to_nat (j + 1)) sdup), path)
      | None => Some (None, cleanhostname sdup, path)
      end
  end.

Section Ports.
(** getservbyname(s, "tcp"), in host order. *)
Variable getservbyname : list Z -> option Z.

Definition a2port (s : list Z) : Z :=
  match strtonum s 0 65535 with
  | inr port => port
  | inl _ => if getservbyname s is Some port then port else -1
  end.

Definition permitopen_port (p : list Z) : Z :=
  if bool_decide (p = str "*") then FWD_PERMIT_ANY_PORT
  else let port := a2port p in if port >? 0 then port else -1.

(** The part after the optional user: host and optional port. *)
Definition host_and_port (user : option (list Z)) (tmp : list Z)
    : option (option (list Z) * list Z * Z) :=
  match hpdelim (Some tmp) with
  | None => None
  | Some (cp, tmp) =>
      if bool_decide (cp = []) then None
      else
        let host := cleanhostname cp in
        match tmp with
        | None | Some [] => Some (user, host, -1)
        | Some tmp =>
            let port := a2port tmp in
            if port <=? 0 then None else Some (user, host, port)
        end
  end.

(** user, host and port. *)
Definition parse_user_host_port (s : list Z) : AM (option (option (list Z) * list Z * Z)) :=
  ok ← alloc;
  if negb ok then mret None
  else
    match strrchr s (chr "@") with
    | Some j =>
        let tmp := slice s 0 j in
        if bool_decide (tmp = []) then mret None
        else
          ok ← alloc;
          if negb ok then mret None
          else mret (host_and_port (Some tmp) (drop (Z.to_nat (j + 1)) s))
    | None => mret (host_and_port None s)
    end.
End Ports.

(** [a2tun(s, NULL)]. *)
Definition a2tun1 (s : list Z) : Z :=
  if strcaseeq s (str "any") then SSH_TUNID_ANY
  else match strtonum s 0 SSH_TUNID_MAX with
       | inl _ => SSH_TUNID_ERR
       | inr tun => tun
       end.

(** The local device and [*remote]. *)
Definition a2tun (s : list Z) : Z * Z :=
  match cut (str ":") s with
  | (_, None) => (a2tun1 s, SSH_TUNID_ANY)
  | (sp, Some (_, ep)) =>
      let remote := a2tun1 ep in
      let tun := a2tun1 sp in
      (if remote =? SSH_TUNID_ERR then remote else tun, remote)
  end.

(** struct Forward. *)
Record Forward := mk_Forward {
  listen_host : option (list Z); listen_port : Z; listen_path : option (list Z);
  connect_host : option (list Z); connect_port : Z; connect_path : option (list Z);
  allocated_port : Z; handle : Z }.

Definition strcmp_maybe_null (a b : option (list Z)) : bool :=
  match a, b with
  | None, Some _ | Some _, None => false
  | Some a, Some b => bool_decide (a = b)
  | None, None => true
  end.

Definition forward_equals (a b : Forward) : bool :=
  if negb (strcmp_maybe_null (listen_host a) (listen_host b)) then false
  else if negb (listen_port a =? listen_port b) then false
  else if negb (strcmp_maybe_null (listen_path a) (listen_path b)) then false
  else if negb (strcmp_maybe_null (connect_host a) (connect_host b)) then false
  else if negb (connect_port a =? connect_port b) then false
  else if negb (strcmp_maybe_null (connect_path a) (connect_path b)) then false
  else true.

(** ** URIs *)

Definition hexval (c : Z) : option Z :=
  if (48 <=? c) && (c <=? 57) then Some (c - 48)
  else if (97 <=? c) && (c <=? 102) then Some (c - 97 + 10)
  else if (65 <=? c) && (c <=? 70) then Some (c - 65 + 10)
  else None.

Definition hexchar (s : list Z) : Z :=
  match hexval (at_ s 0), hexval (at_ s 1) with
  | Some a, Some b => Z.lor (Z.shiftl a 4) b
  | _, _ => -1
  end.

Fixpoint urldecode (src : list Z) : option (list Z) :=
  match src with
  | [] => Some []
  | c :: src' =>
      if c =? chr "+" then cons 32 <$> urldecode src'
      else if c =? chr "%" then
        match src' with
        | a :: b :: rest =>
            let ch := hexchar src' in
            if negb (isxdigit a) || negb (isxdigit b) || (ch =? -1) || (ch =? 0) then None
            else cons ch <$> urldecode rest
        | _ => None
        end
      else cons c <$> urldecode src'
  end.

Inductive domain_err := EmptyName | InvalidStart | ConsecutiveSeparators | InvalidCharacters.

(** The loop over the bytes; the name as it is left, and the error. *)
Fixpoint valid_domain_loop (makelower : bool) (last : Z) (name : list Z)
    : list Z * option domain_err :=
  match name with
  | [] => ([], None)
  | x :: name' =>
      let c := tolower x in
      let x := if makelower then c else x in
      if (last =? chr ".") && (c =? chr ".") then (x :: name', Some ConsecutiveSeparators)
      else if negb (c =? chr ".") && negb (c =? chr "-") && negb (isalnum c) && negb (c =? chr "_")
      then (x :: name', Some InvalidCharacters)
      else let '(n, e) := valid_domain_loop makelower c name' in (x :: n, e)
  end.

Definition valid_domain (name : list Z) (makelower : bool) : list Z * option domain_err :=
  if bool_decide (name = []) then (name, Some EmptyName)
  else if negb (isalpha (at_ name 0)) && negb (isdigit (at_ name 0)) && negb (at_ name 0 =? chr "_")
  then (name, Some InvalidStart)
  else
    let '(name, e) := valid_domain_loop makelower 0 name in
    match e with
    | Some e => (name, Some e)
    | None =>
        (if at_ name (length name - 1) =? chr "." then take (length name - 1) name else name, None)
    end.

Inductive uri_result :=
| UriOk (user : option (list Z)) (host : list Z) (port : Z) (path : option (list Z))
| UriOther
| UriInvalid.

Section Uri.
Variable getservbyname : list Z -> option Z.

(** The optional path. *)
Definition uri_path (user : option (list Z)) (host : list Z) (port : Z) (tmp : option (list Z))
    : uri_result :=
  match tmp with
  | None | Some [] => UriOk user host port None
  | Some tmp =>
      match urldecode tmp with
      | None => UriInvalid
      | Some path => UriOk user host port (Some path)
      end
  end.

(** The host and what follows. *)
Definition uri_host (user : option (list Z)) (tmp : list Z) : uri_result :=
  match hpdelim2 (Some tmp) with
  | None => UriInvalid
  | Some (cp, tmp) =>
      if bool_decide (cp = []) then UriInvalid
      else
        let '(host, e) := valid_domain (cleanhostname cp) false in
        if e is Some _ then UriInvalid
        else
          match tmp with
          | None | Some (_, []) => UriOk user host (-1) None
          | Some (ch, tmp) =>
              if ch =? chr ":" then
                let '(num, cp) := cut (str "/") tmp in
                let port := a2port getservbyname num in
                if port <=? 0 then UriInvalid
                else uri_path user host port (snd <$> cp)
              else uri_path user host (-1) (Some tmp)
          end
  end.

Definition parse_uri (scheme uri : list Z) : uri_result :=
  if negb (has_prefix uri scheme) || negb (has_prefix (drop (length scheme) uri) (str "://"))
  then UriOther
  else
    let tmp := drop (length scheme + 3) uri in
    match cut (str "@") tmp with
    | (_, None) => uri_host None tmp
    | (info, Some (_, rest)) =>
        (* Windows: a second '@' ends the user *)
        let '(info, rest) :=
          match cut (str "@") rest with
          | (more, Some (_, rest')) => (info ++ chr "@" :: more, rest')
          | (_, None) => (info, rest)
          end in
        let tmp := (cut (str ";") info).1 in
        if bool_decide (tmp = []) then UriInvalid
        else
          match urldecode tmp with
          | None => UriInvalid
          | Some user => uri_host (Some user) rest
          end
    end.
End Uri.

(** ** Argument vectors *)

Definition is_escapable (c : Z) : bool := (c =? 39) || (c =? 34) || (c =? 92).
Definition is_blank (c : Z) : bool := (c =? 32) || (c =? 9).

(** The inner loop of argv_split: the argument without escapes, the quote
    still open, and the rest of the string, at the blank or the end. *)
Fixpoint argv_token (quote : Z) (s : list Z) : list Z * Z * list Z :=
  match s with
  | [] => ([], quote, [])
  | c :: s' =>
      if c =? 92 then
        match s' with
        | d :: s'' =>
            if is_escapable d || ((quote =? 0) && (d =? 32)) then
              let '(arg, q, r) := argv_token quote s'' in (d :: arg, q, r)
            else let '(arg, q, r) := argv_token quote s' in (c :: arg, q, r)
        | [] => ([c], quote, [])
        end
      else if (quote =? 0) && is_blank c then ([], quote, s)
      else if (quote =? 0) && ((c =? 34) || (c =? 39)) then argv_token c s'
      else if negb (quote =? 0) && (c =? quote) then argv_token 0 s'
      else let '(arg, q, r) := argv_token quote s' in (c :: arg, q, r)
  end.

(** The outer loop; every round consumes a byte, so that a string of [n]
    bytes needs [S n] rounds (argv_split_returns). *)
Fixpoint argv_split_loop (fuel : nat) (s : list Z) (terminate_on_comment : bool)
    (argv : list (list Z)) : res (list (list Z)) :=
  match fuel with
  | O => Crash
  | S fuel =>
      match s with
      | [] => Ok argv
      | c :: s' =>
          if is_blank c then argv_split_loop fuel s' terminate_on_comment argv
          else if terminate_on_comment && (c =? 35) then Ok argv
          else
            let '(arg, quote, rest) := argv_token 0 s in
            match rest with
            | [] => if negb (quote =? 0) then Err SSH_ERR_INVALID_FORMAT else Ok (argv ++ [arg])
            | _ :: rest => argv_split_loop fuel rest terminate_on_comment (argv ++ [arg])
            end
      end
  end.

Definition argv_split (s : list Z) (terminate_on_comment : bool) : res (list (list Z)) :=
  argv_split_loop (S (length s)) s terminate_on_comment [].

(** One argument in the buffer [arg]: its bytes, quotes and backslashes
    escaped, and whether it has a blank. *)
Fixpoint assemble_arg (s arg : list Z) (ws : bool) : AM (list Z * bool) :=
  match s with
  | [] => mret (arg, ws)
  | c :: s =>
      if is_blank c then arg ← put_or_fatal arg [c]; assemble_arg s arg true
      else
        arg ← (if is_escapable c then put_or_fatal arg [92] else mret arg);
        arg ← put_or_fatal arg [c];
        assemble_arg s arg ws
  end.

Fixpoint assemble_args (first : bool) (argv : list (list Z)) (buf : list Z) : AM (list Z) :=
  match argv with
  | [] => mret buf
  | a :: argv =>
      '(arg, ws) ← assemble_arg a [] false;
      buf ← (if first then mret buf else put_or_fatal buf [32]);
      buf ← (if (ws : bool) then put_or_fatal buf [34] else mret buf);
      buf ← put_or_fatal buf arg;
      buf ← (if (ws : bool) then put_or_fatal buf [34] else mret buf);
      assemble_args false argv buf
  end.

Definition argv_assemble (argv : list (list Z)) : AM (list Z) :=
  ok ← alloc; if negb ok then fatal else
  ok ← alloc; if negb ok then fatal else
  ret ← assemble_args true argv [];
  ok ← alloc; if negb ok then fatal else mret ret.

(** The next argument, and the vector afterwards. *)
Definition argv_next (argv : list (list Z)) : option (list Z) * list (list Z) :=
  match argv with
  | [] => (None, [])
  | a :: argv => (Some a, argv)
  end.

Definition argv_consume (argv : list (list Z)) : list (list Z) := [].

(** arglist: the arguments; the array has [al_nalloc] entries, the last one in
    use NULL. *)
Record arglist := mk_arglist { al_list : option (list (list Z)); al_nalloc : Z }.

Definition al_num (a : arglist) : Z := zlen (default [] (al_list a)).

(** [cp]: the formatted argument. *)
Definition addargs (args : arglist) (cp : list Z) : AM arglist :=
  match al_list args with
  | None => mret (mk_arglist (Some [cp]) 32)
  | Some l =>
      if zlen l >? 256 * 1024 then fatal
      else if zlen l >=? al_nalloc args then fatal
      else
        let nalloc := if zlen l + 2 >=? al_nalloc args then al_nalloc args * 2 else al_nalloc args in
        mret (mk_arglist (Some (l ++ [cp])) nalloc)
  end.

Definition replacearg (args : arglist) (which : Z) (cp : list Z) : AM arglist :=
  match al_list args with
  | None => fatal
  | Some l =>
      if zlen l >=? al_nalloc args then fatal
      else if which >=? zlen l then fatal
      else mret (mk_arglist (Some (<[Z.to_nat which := cp]> l)) (al_nalloc args))
  end.

Definition freeargs (args : arglist) : arglist := mk_arglist None 0.

Fixpoint duplicate_loop (dest : arglist) (l : list (list Z)) : AM arglist :=
  match l with
  | [] => mret dest
  | a :: l => dest ← addargs dest a; duplicate_loop dest l
  end.

Definition duplicateargs (dest source : arglist) : AM arglist :=
  match al_list source with
  | None => mret dest
  | Some l => duplicate_loop dest l
  end.

(** ** Environment lists *)

Definition env_is (name entry : list Z) : bool :=
  has_prefix entry name && (at_ entry (length name) =? chr "=").

Fixpoint set_slot (name entry : list Z) (env : list (list Z)) : list (list Z) :=
  match env with
  | [] => [entry]
  | e :: env => if env_is name e then entry :: env else e :: set_slot name entry env
  end.

(** [*envp] (the entries before the NULL) and [*envsizep]. *)
Definition child_set_env (envp : option (list (list Z))) (envsize : Z) (name value : list Z)
    : AM (option (list (list Z)) * Z) :=
  if (cut (str "=") name).2 is Some _ then mret (envp, envsize)
  else if negb (eqb (bool_decide (envp = None)) (envsize =? 0)) then fatal
  else
    let '(env, envsize) := match envp with None => ([], 1) | Some env => (env, envsize) end in
    let entry := name ++ chr "=" :: value in
    let env' := set_slot name entry env in
    if existsb (env_is name) env then mret (Some env', envsize)
    else if zlen env >=? envsize - 1 then
      if envsize >=? 1000 then fatal else mret (Some env', envsize + 50)
    else mret (Some env', envsize).

Fixpoint lookup_env_in_list (env : list Z) (envs : list (list Z)) : option (list Z) :=
  match envs with
  | [] => None
  | e :: envs => if env_is env e then Some (drop (length env + 1) e) else lookup_env_in_list env envs
  end.

Definition lookup_setenv_in_list (env : list Z) (envs : list (list Z)) : option (list Z) :=
  match cut (str "=") env with
  | (_, None) => None
  | (name, Some _) => lookup_env_in_list name envs
  end.

Definition valid_env_name (name : list Z) : bool :=
  if bool_decide (name = []) then false
  else forallb (fun c => isalnum c || (c =? chr "_")) name.

(** [*val], or the error string. *)
Definition atoi_err (nptr : option (list Z)) : numerr + Z + unit :=
  match nptr with
  | None | Some [] => inr tt
  | Some s => inl (strtonum s 0 INT_MAX)
  end.

(** ** Key options *)

(** -1, or 1 or 0 with the rest of the string. *)
Definition opt_flag (opt : list Z) (allow_negate : bool) (opts : list Z) : option (bool * list Z) :=
  let '(negate, opts) :=
    if allow_negate && has_iprefix opts (str "no-") then (true, drop 3 opts) else (false, opts) in
  if has_iprefix opts opt then Some (negb negate, drop (length opt) opts) else None.

(** The loop up to the closing quote: the text and what follows the quote. *)
Fixpoint dequote_loop (s : list Z) : option (list Z * list Z) :=
  match s with
  | [] => None
  | c :: s' =>
      if c =? 34 then Some ([], s')
      else
        match s' with
        | d :: s'' =>
            if (c =? 92) && (d =? 34)
            then (fun '(t, r) => (d :: t, r)) <$> dequote_loop s''
            else (fun '(t, r) => (c :: t, r)) <$> dequote_loop s'
        | [] => None
        end
  end.

(** The text and the rest of the string, or the error string. *)
Definition opt_dequote (s : list Z) : AM (list Z + (list Z * list Z)) :=
  match s with
  | c :: s =>
      if negb (c =? 34) then mret (inl (str "missing start quote"))
      else
        ok ← alloc;
        if negb ok then mret (inl (str "memory allocation failed"))
        else mret (match dequote_loop s with
                   | None => inl (str "missing end quote")
                   | Some p => inr p
                   end)
  | [] => mret (inl (str "missing start quote"))
  end.

Definition opt_match (opts term : list Z) : option (list Z) :=
  if has_iprefix opts term && (at_ opts (length term) =? chr "=")
  then Some (drop (length term + 1) opts) else None.

(** The array of strings and, if it is kept, the array of numbers. *)
Definition opt_array_append2 (array : list (list Z)) (iarray : option (list Z)) (s : list Z) (i : Z)
    : AM (list (list Z) * option (list Z)) :=
  if zlen array >=? INT_MAX then fatal
  else mret (array ++ [s], (fun l => l ++ [i]) <$> iarray).

Definition opt_array_append (array : list (list Z)) (s : list Z) : AM (list (list Z)) :=
  fst <$> opt_array_append2 array None s 0.

(** ** Expansion of tokens, environment variables and home directories *)

Definition EXPAND_MAX_KEYS : Z := 64.

Section Expand.
Variable getenv : list Z -> option (list Z).

(** The replacement of the first key that has the byte [c]. *)
Fixpoint find_key (keys : list (list Z * list Z)) (c : Z) : option (list Z) :=
  match keys with
  | [] => None
  | (key, repl) :: keys => if strchr key c is Some _ then Some repl else find_key keys c
  end.

(** The loop over the string: the buffer and whether a variable was missing,
    or [None] on a syntax error.  Every round consumes a byte. *)
Fixpoint expand_loop (fuel : nat) (dollar percent : bool) (keys : list (list Z * list Z))
    (string buf : list Z) (missingvar : bool) : AM (option (list Z * bool)) :=
  match fuel with
  | O => crash
  | S fuel =>
      match string with
      | [] => mret (Some (buf, missingvar))
      | c :: rest =>
          if dollar && (c =? chr "$") && (at_ rest 0 =? chr "{") then
            match cut (str "}") (tail rest) with
            | (_, None) => mret None
            | (var, Some (_, rest)) =>
                if bool_decide (var = []) then mret None
                else
                  match getenv var with
                  | None => expand_loop fuel dollar percent keys rest buf true
                  | Some val =>
                      buf ← put_or_fatal buf val;
                      expand_loop fuel dollar percent keys rest buf missingvar
                  end
            end
          else if negb (c =? chr "%") || negb percent then
            buf ← put_or_fatal buf [c];
            expand_loop fuel dollar percent keys rest buf missingvar
          else
            match rest with
            | [] => mret None
            | k :: rest =>
                if k =? chr "%" then
                  buf ← put_or_fatal buf [k];
                  expand_loop fuel dollar percent keys rest buf missingvar
                else
                  match find_key keys k with
                  | None => mret None
                  | Some repl =>
                      buf ← put_or_fatal buf repl;
                      expand_loop fuel dollar percent keys rest buf missingvar
                  end
            end
      end
  end.

(** [*parseerror] and the string; [ap] has the keys before the NULL, each with
    its replacement. *)
Definition vdollar_percent_expand (dollar percent : bool) (string : list Z)
    (ap : list (list Z * list Z)) : AM (bool * option (list Z)) :=
  ok ← alloc; if negb ok then fatal else
  if percent && (zlen ap >? EXPAND_MAX_KEYS) then fatal
  else if percent && (zlen ap =? 0) then fatal
  else
    r ← expand_loop (S (length string)) dollar percent (if percent then ap else []) string [] false;
    match r with
    | None => mret (true, None)
    | Some (buf, missingvar) =>
        if (missingvar : bool) then mret (false, None)
        else ok ← alloc; if negb ok then fatal else mret (false, Some buf)
    end.

Definition dollar_expand (string : list Z) : AM (bool * option (list Z)) :=
  vdollar_percent_expand true false string [].

Definition percent_expand (string : list Z) (ap : list (list Z * list Z)) : AM (option (list Z)) :=
  '(err, ret) ← vdollar_percent_expand false true string ap;
  if (err : bool) then fatal else mret ret.

Definition percent_dollar_expand (string : list Z) (ap : list (list Z * list Z))
    : AM (option (list Z)) :=
  '(err, ret) ← vdollar_percent_expand true true string ap;
  if (err : bool) then fatal else mret ret.
End Expand.

Section Tilde.
(** The home directories of users and user ids, and the build's limit. *)
Variable getpwnam : list Z -> option (list Z).
Variable getpwuid : Z -> option (list Z).
Variable PATH_MAX : Z.

Definition nonempty (s : list Z) : option (list Z) := if bool_decide (s = []) then None else Some s.

(** user and path of the part after the tilde. *)
Definition tilde_parts (copy : list Z) : option (list Z) * option (list Z) :=
  match copy with
  | [] => (None, None)
  | c :: _ =>
      if c =? chr "/" then (None, nonempty (skip_in (str "/") copy))
      else if c =? 92 then (None, nonempty (skip_in [92] copy))
      else
        match cut (str "/") copy with
        | (user, None) => (Some user, None)
        | (user, Some (_, path)) => (Some user, nonempty (skip_in (str "/") path))
        end
  end.

Definition tilde_expand (filename : list Z) (uid : Z) : option (list Z) :=
  if negb (at_ filename 0 =? chr "~") then Some filename
  else
    let '(user, path) := tilde_parts (tail filename) in
    match (match user with Some user => getpwnam user | None => getpwuid uid end) with
    | None => None
    | Some pw_dir =>
        let slash := bool_decide (pw_dir = []) || negb (at_ pw_dir (length pw_dir - 1) =? chr "/") in
        let s := pw_dir ++ (if slash then str "/" else []) ++ default [] path in
        if zlen s <=? 0 then None
        else if zlen s >=? PATH_MAX then None
        else Some s
    end.

Definition tilde_expand_filename (filename : list Z) (uid : Z) : AM (list Z) :=
  if tilde_expand filename uid is Some s then mret s else fatal.
End Tilde.

(** ** Formatting *)

Fixpoint tohex_loop (p : list Z) (r : list Z) (hl : Z) : list Z :=
  match p with
  | [] => r
  | b :: p => tohex_loop p (strlcat r (fmt_02x b) hl).1 hl
  end.

Definition tohex (p : list Z) : list Z :=
  if zlen p >? 65536 then str "tohex: length > 65536"
  else tohex_loop p [] (zlen p * 2 + 1).

(** ** Quality of service *)

Definition INT_MIN : Z := - 2 ^ 31.

Definition ipqos : list (list Z * Z) :=
  [ (str "none", INT_MAX);
    (str "af11", 0x28); (str "af12", 0x30); (str "af13", 0x38);
    (str "af21", 0x48); (str "af22", 0x50); (str "af23", 0x58);
    (str "af31", 0x68); (str "af32", 0x70); (str "af33", 0x78);
    (str "af41", 0x88); (str "af42", 0x90); (str "af43", 0x98);
    (str "cs0", 0x00); (str "cs1", 0x20); (str "cs2", 0x40); (str "cs3", 0x60);
    (str "cs4", 0x80); (str "cs5", 0xa0); (str "cs6", 0xc0); (str "cs7", 0xe0);
    (str "ef", 0xb8); (str "le", 0x04); (str "va", 0xb0);
    (str "lowdelay", INT_MIN); (str "throughput", INT_MIN); (str "reliability", INT_MIN) ].

Definition parse_ipqos (cp : option (list Z)) : Z :=
  match cp with
  | None => -1
  | Some cp =>
      match find (fun e => strcaseeq cp e.1) ipqos with
      | Some e => e.2
      | None => match strtonum cp 0 255 with inl _ => -1 | inr val => val end
      end
  end.

(** A value of at most 8 bits fills the static buffer; a longer one is
    truncated to its first two digits. *)
Definition iptos2str (iptos : Z) : list Z :=
  match find (fun e => e.2 =? iptos) ipqos with
  | Some e => e.1
  | None => str "0x" ++ fmt_02x iptos
  end.

(** ** Poll timeouts *)

Record timespec := mk_timespec { tv_sec : Z; tv_nsec : Z }.

Definition timespec_ge (a b : timespec) : bool :=
  if tv_sec a =? tv_sec b then tv_nsec a >=? tv_nsec b else tv_sec a >=? tv_sec b.

Definition timespecsub (a b : timespec) : timespec :=
  let sec := tv_sec a - tv_sec b in
  let nsec := tv_nsec a - tv_nsec b in
  if nsec <? 0 then mk_timespec (sec - 1) (nsec + 1000000000) else mk_timespec sec nsec.

Definition ms_to_timespec (ms : Z) : timespec :=
  let ms := if ms <? 0 then 0 else ms in
  mk_timespec (ms / 1000) (ms mod 1000 * 1000 * 1000).

Definition ptimeout_init : timespec := mk_timespec (-1) 0.

Definition ptimeout_deadline_sec (pt : timespec) (sec : Z) : timespec :=
  if (tv_sec pt =? -1) || (tv_sec pt >=? sec) then mk_timespec sec 0 else pt.

Definition ptimeout_deadline_tsp (pt p : timespec) : timespec :=
  if (tv_sec pt =? -1) || timespec_ge pt p then p else pt.

Definition ptimeout_deadline_ms (pt : timespec) (ms : Z) : timespec :=
  ptimeout_deadline_tsp pt (mk_timespec (Z.quot ms 1000) (Z.rem ms 1000 * 1000000)).

(** [now]: the monotonic clock. *)
Definition ptimeout_deadline_monotime_tsp (now : timespec) (pt when : timespec) : timespec :=
  if timespec_ge now when then mk_timespec 0 0
  else ptimeout_deadline_tsp pt (timespecsub when now).

Definition ptimeout_deadline_monotime (now : timespec) (pt : timespec) (when : Z) : timespec :=
  ptimeout_deadline_monotime_tsp now pt (mk_timespec when 0).

Definition ptimeout_get_ms (pt : timespec) : Z :=
  if tv_sec pt =? -1 then -1
  else if tv_sec pt >=? Z.quot (INT_MAX - Z.quot (tv_nsec pt) 1000000) 1000 then INT_MAX
  else tv_sec pt * 1000 + Z.quot (tv_nsec pt) 1000000.

Definition ptimeout_get_tsp (pt : timespec) : option timespec :=
  if tv_sec pt =? -1 then None else Some pt.

Definition ptimeout_isset (pt : timespec) : bool := negb (tv_sec pt =? -1).

Definition demo_getservbyname (s : list Z) : option Z :=
  if bool_decide (s = str "ssh") then Some 22 else None.

Example misc_ex :
  argv_split (str "a 'b c'  d\ e") false = Ok [str "a"; str "b c"; str "d e"] /\
  (argv_assemble [str "a"; str "b c"] []).1 = Ok ([97; 32; 34] ++ str "b c" ++ [34]) /\
  parse_uri demo_getservbyname (str "ssh") (str "ssh://me%40x@host:2200/a+b") =
    UriOk (Some (str "me@x")) (str "host") 2200 (Some (str "a b")) /\
  parse_user_host_path (str "u@[::1]:x") = Some (Some (str "u"), str "::1", str "x") /\
  (percent_expand (fun _ => None) (str "%h-%%-%p") [(str "h", str "H"); (str "pP", str "22")] []).1 =
    Ok (Some (str "H-%-22")) /\
  tohex [255; 1] = str "ff01" /\ fmt_d 65535 = str "65535" /\
  strdelim (Some (str "Port = 22")) = (Some (str "Port"), Some (str "22")).
Proof. by vm_compute. Qed.
