(* ===== verification/MiscThms.v ===== *)
(** * Argument vectors, host and port strings, environments

    argv_split reads back what argv_assemble wrote, parse_user_host_port what
    put_host_port wrote, lookup_env_in_list what child_set_env stored. *)

From S2P Require Import Prelude Ssherr Sshbuf Cstring Match KexNames Misc.

(** ** Buffers *)

Lemma put_or_fatal_ok b bs o b' o' : put_or_fatal b bs o = (Ok b', o') -> b' = b ++ bs.
Proof.
  unfold put_or_fatal. destruct (_ >? _); [done|]. unfold mbind, M_bind, alloc.
  destruct o as [|[] o]; by intros [= <- <-].
Qed.

Lemma put_or_fatal_fits b bs : zlen b + zlen bs <= SSHBUF_SIZE_MAX -> put_or_fatal b bs [] = (Ok (b ++ bs), []).
Proof.
  intros H. unfold put_or_fatal. rewrite Z.gtb_ltb. by rewrite (proj2 (Z.ltb_ge _ _)) by lia.
Qed.

(** ** The text argv_assemble writes *)

Definition has_blank (a : list Z) : bool := existsb is_blank a.
Definition enc_byte (c : Z) : list Z := if is_escapable c then [92; c] else [c].
Definition enc_arg (a : list Z) : list Z := concat (enc_byte <$> a).
Definition quoted (a : list Z) : list Z :=
  if has_blank a then 34 :: enc_arg a ++ [34] else enc_arg a.

Fixpoint text (first : bool) (argv : list (list Z)) : list Z :=
  match argv with
  | [] => []
  | a :: argv => (if first then [] else [32]) ++ quoted a ++ text false argv
  end.

Lemma blank_not_escapable c : is_blank c = true -> is_escapable c = false.
Proof. unfold is_blank, is_escapable. intros H. zbool; lia. Qed.

Lemma assemble_arg_ok s : forall arg ws o r o',
  assemble_arg s arg ws o = (Ok r, o') -> r = (arg ++ enc_arg s, ws || has_blank s).
Proof.
  induction s as [|c s IH]; intros arg ws o r o'; cbn [assemble_arg].
  - intros [= <- <-]. by rewrite app_nil_r, orb_false_r.
  - unfold enc_arg, has_blank. cbn [fmap list_fmap concat existsb]. unfold enc_byte at 1.
    destruct (is_blank c) eqn:B.
    + rewrite (blank_not_escapable c B). intros (b & o1 & H1 & H)%bind_inv_ok.
      apply put_or_fatal_ok in H1 as ->. apply IH in H as ->. by rewrite <- app_assoc, orb_true_r.
    + destruct (is_escapable c); intros (b & o1 & H1 & (b2 & o2 & H2 & H)%bind_inv_ok)%bind_inv_ok.
      * apply put_or_fatal_ok in H1 as ->. apply put_or_fatal_ok in H2 as ->. apply IH in H as ->.
        by rewrite <- !app_assoc.
      * injection H1 as <- <-. apply put_or_fatal_ok in H2 as ->. apply IH in H as ->.
        by rewrite <- !app_assoc.
Qed.

Lemma assemble_args_ok argv : forall first buf o r o',
  assemble_args first argv buf o = (Ok r, o') -> r = buf ++ text first argv.
Proof.
  induction argv as [|a argv IH]; intros first buf o r o'; cbn [assemble_args text].
  - intros [= <- <-]. by rewrite app_nil_r.
  - intros ([arg ws] & o1 & H1 & H)%bind_inv_ok. apply assemble_arg_ok in H1 as [= -> ->].
    apply bind_inv_ok in H as (b1 & o2 & H1 & H). apply bind_inv_ok in H as (b2 & o3 & H2 & H).
    apply bind_inv_ok in H as (b3 & o4 & H3 & H). apply bind_inv_ok in H as (b4 & o5 & H4 & H).
    apply IH in H as ->. apply put_or_fatal_ok in H3 as ->. unfold quoted. cbn [orb] in *.
    destruct first; [injection H1 as <- <-|apply put_or_fatal_ok in H1 as ->];
      destruct (has_blank a);
      [ apply put_or_fatal_ok in H2 as ->; apply put_or_fatal_ok in H4 as ->
      | injection H2 as <- <-; injection H4 as <- <-
      | apply put_or_fatal_ok in H2 as ->; apply put_or_fatal_ok in H4 as ->
      | injection H2 as <- <-; injection H4 as <- <- ];
      cbn [app]; rewrite <- ?app_assoc; cbn [app]; by rewrite <- ?app_assoc.
Qed.

Lemma argv_assemble_ok argv o s o' : argv_assemble argv o = (Ok s, o') -> s = text true argv.
Proof.
  unfold argv_assemble. intros (k1 & o1 & _ & H)%bind_inv_ok. destruct (negb k1); [done|].
  apply bind_inv_ok in H as (k2 & o2 & _ & H). destruct (negb k2); [done|].
  apply bind_inv_ok in H as (r & o3 & Hr & H). apply bind_inv_ok in H as (k3 & o4 & _ & H).
  destruct (negb k3); [done|]. injection H as <- <-. by apply assemble_args_ok in Hr.
Qed.

(** ** What argv_split makes of it *)

Lemma argv_token_enc q a t : (q = 34 \/ (q = 0 /\ has_blank a = false)) ->
  argv_token q (enc_arg a ++ t) =
  let '(x, q', r) := argv_token q t in (a ++ x, q', r).
Proof.
  intros Hq. induction a as [|c a IH].
  { change (enc_arg [] ++ t) with t. by destruct (argv_token q t) as [[x q'] r]. }
  assert (q = 34 \/ q = 0 /\ has_blank a = false) as Hq'.
  { destruct Hq as [?|[? B]]; [by left|right]. cbn in B. by apply orb_false_iff in B as [_ ?]. }
  specialize (IH Hq'). unfold enc_arg in *. cbn [fmap list_fmap concat]. rewrite <- app_assoc.
  unfold enc_byte at 1. destruct (is_escapable c) eqn:E; cbn [app argv_token].
  - rewrite Z.eqb_refl, E. cbn [orb]. rewrite IH. by destruct (argv_token q t) as [[x q'] r].
  - rewrite IH. unfold is_escapable in E. destruct (argv_token q t) as [[x q'] r]. zbool.
    rewrite (proj2 (Z.eqb_neq c 92)), (proj2 (Z.eqb_neq c 34)), (proj2 (Z.eqb_neq c 39)) by done.
    destruct Hq as [->|[-> B]].
    + cbn [Z.eqb Pos.eqb andb orb negb]. by rewrite (proj2 (Z.eqb_neq c 34)) by done.
    + cbn in B. apply orb_false_iff in B as [B _]. rewrite B. by rewrite !andb_false_r.
Qed.

(** The end of the string or a blank. *)
Definition at_end (t : list Z) : Prop := t = [] \/ exists t', t = 32 :: t'.

Lemma argv_token_end t : at_end t -> argv_token 0 t = ([], 0, t).
Proof. by intros [->|[t' ->]]. Qed.

Lemma argv_token_quoted a t : at_end t -> argv_token 0 (quoted a ++ t) = (a, 0, t).
Proof.
  intros Ht. unfold quoted. destruct (has_blank a) eqn:B.
  - cbn [app]. rewrite <- app_assoc. cbn [app].
    change (argv_token 0 (34 :: enc_arg a ++ 34 :: t)) with (argv_token 34 (enc_arg a ++ 34 :: t)).
    rewrite argv_token_enc by by left.
    change (argv_token 34 (34 :: t)) with (argv_token 0 t). rewrite argv_token_end by done.
    by rewrite app_nil_r.
  - rewrite argv_token_enc by by right. rewrite argv_token_end by done. by rewrite app_nil_r.
Qed.

Lemma text_false argv : text false argv = match argv with [] => [] | _ => 32 :: text true argv end.
Proof. by destruct argv. Qed.

Lemma text_at_end argv : at_end (text false argv).
Proof. rewrite text_false. destruct argv; [by left|right; eauto]. Qed.

(** An argument that argv_split does not take for the start of a comment. *)
Definition no_comment (tc : bool) (a : list Z) : Prop :=
  tc = true -> has_blank a = true \/ head a <> Some 35.

Lemma quoted_head tc a : a <> [] -> no_comment tc a ->
  exists c t, quoted a = c :: t /\ is_blank c = false /\ tc && (c =? 35) = false.
Proof.
  intros Ha Hc. unfold quoted. destruct (has_blank a) eqn:B.
  { eexists _, _. split; [done|]. by rewrite andb_false_r. }
  destruct a as [|c a]; [done|]. apply orb_false_iff in B as [Bc B].
  unfold enc_arg. cbn [fmap list_fmap concat]. unfold enc_byte at 1. destruct (is_escapable c).
  { eexists _, _. split; [done|]. by rewrite andb_false_r. }
  eexists _, _. split; [done|]. split; [done|]. destruct tc; [|done].
  destruct (Hc eq_refl) as [Hb|Hh].
  { change (is_blank c || has_blank a = true) in Hb. change (has_blank a = false) in B.
    by rewrite Bc, B in Hb. }
  apply Z.eqb_neq. intros ->. by apply Hh.
Qed.

Lemma split_step fuel tc a t acc : a <> [] -> no_comment tc a -> at_end t ->
  argv_split_loop (S fuel) (quoted a ++ t) tc acc =
  match t with [] => Ok (acc ++ [a]) | _ :: t => argv_split_loop fuel t tc (acc ++ [a]) end.
Proof.
  intros Ha Hc Ht. destruct (quoted_head tc a Ha Hc) as (c & q & E & B & C).
  cbn [argv_split_loop]. rewrite E. cbn [app]. rewrite B, C.
  change (c :: q ++ t) with ((c :: q) ++ t). rewrite <- E, argv_token_quoted by done. by destruct t.
Qed.

Lemma quoted_nonempty a : a <> [] -> (0 < length (quoted a))%nat.
Proof. intros Ha. destruct (quoted_head false a Ha) as (c & t & -> & _); [done|cbn; lia]. Qed.

Lemma split_text argv tc : Forall (no_comment tc) argv -> forall fuel acc,
  (length (text true argv) < fuel)%nat ->
  argv_split_loop fuel (text true argv) tc acc = Ok (acc ++ filter (fun a => a <> []) argv).
Proof.
  induction 1 as [|a argv Ha Hr IH]; intros fuel acc Hf.
  { destruct fuel; [cbn in Hf; lia|]. cbn. by rewrite app_nil_r. }
  cbn [text app] in *. rewrite filter_cons. rewrite length_app in Hf.
  pose proof (text_at_end argv) as Ht. rewrite text_false in Hf, Ht |- *.
  destruct fuel as [|fuel]; [lia|]. destruct a as [|c a].
  - rewrite decide_False by (intros H; by apply H). change (quoted []) with (@nil Z) in *. cbn [app].
    destruct argv as [|b argv]; [cbn; by rewrite app_nil_r|]. apply IH. cbn [length] in Hf. lia.
  - rewrite decide_True by done. rewrite split_step by done.
    pose proof (quoted_nonempty (c :: a) ltac:(done)) as Hq.
    destruct argv as [|b argv]; [done|]. rewrite IH by (cbn [length] in Hf; lia).
    by rewrite <- app_assoc.
Qed.

(** argv_split always returns: every round of its loop consumes a byte. *)
Lemma argv_token_rest n : forall s q a q' r,
  (length s <= n)%nat -> argv_token q s = (a, q', r) -> (length r <= length s)%nat.
Proof.
  induction n as [|n IH]; intros s q a q' r Hn; (destruct s as [|c s]; [by intros [= <- <- <-]|]);
    [cbn in Hn; lia|].
  cbn [argv_token length] in *.
  assert (forall q2 s2 a2 q3 r2, argv_token q2 s2 = (a2, q3, r2) -> (length s2 <= length s)%nat ->
    (length r2 <= S (length s))%nat) as IH'.
  { intros q2 s2 a2 q3 r2 E L. apply IH in E; lia. }
  destruct (c =? 92).
  - destruct s as [|d s]; [intros [= <- <- <-]; cbn; lia|].
    destruct (_ || _).
    + destruct (argv_token q s) as [[a2 q2] r2] eqn:E. intros [= <- <- <-]. apply IH' in E; cbn in *; lia.
    + destruct (argv_token q (d :: s)) as [[a2 q2] r2] eqn:E. intros [= <- <- <-]. apply IH' in E; cbn in *; lia.
  - destruct (_ && is_blank c); [by intros [= <- <- <-]|].
    destruct (_ && _); [intros E; apply IH' in E; lia|].
    destruct (_ && _); [intros E; apply IH' in E; lia|].
    destruct (argv_token q s) as [[a2 q2] r2] eqn:E. intros [= <- <- <-]. apply IH' in E; lia.
Qed.

Lemma argv_split_loop_returns fuel : forall s tc acc,
  (length s < fuel)%nat -> argv_split_loop fuel s tc acc <> Crash.
Proof.
  induction fuel as [|fuel IH]; intros s tc acc Hf; [lia|]. cbn [argv_split_loop].
  destruct s as [|c s]; [done|]. cbn [length] in Hf. destruct (is_blank c) eqn:B; [apply IH; lia|].
  destruct (tc && _); [done|].
  destruct (argv_token 0 (c :: s)) as [[a q] r] eqn:E. destruct r as [|d r]; [by destruct (negb _)|].
  apply (argv_token_rest _ _ _ _ _ _ (le_n _)) in E. cbn [length] in E. apply IH. lia.
Qed.

(** ** argv_assemble succeeds *)

Lemma assemble_arg_fits s : forall arg ws, zlen arg + zlen (enc_arg s) <= SSHBUF_SIZE_MAX ->
  exists r, assemble_arg s arg ws [] = (Ok r, []).
Proof.
  induction s as [|c s IH]; intros arg ws H; [by eexists|]. cbn [assemble_arg].
  unfold enc_arg in H. cbn [fmap list_fmap concat] in H. rewrite zlen_app in H.
  pose proof (zlen_nonneg (concat (enc_byte <$> s))). unfold enc_byte at 1 in H.
  destruct (is_blank c) eqn:B.
  - rewrite (blank_not_escapable c B) in H. rewrite zlen_cons, zlen_nil in H.
    mstep (put_or_fatal_fits arg [c] ltac:(rewrite zlen_cons, zlen_nil; lia)).
    apply IH. rewrite zlen_app, zlen_cons, zlen_nil. unfold enc_arg. lia.
  - destruct (is_escapable c); rewrite ?zlen_cons, ?zlen_nil in H.
    + mstep (put_or_fatal_fits arg [92] ltac:(rewrite zlen_cons, zlen_nil; lia)).
      mstep (put_or_fatal_fits (arg ++ [92]) [c] ltac:(rewrite zlen_app, !zlen_cons, zlen_nil; lia)).
      apply IH. rewrite !zlen_app, !zlen_cons, zlen_nil. unfold enc_arg. lia.
    + change ((mret arg : AM (list Z)) ≫= ?k) with (k arg). cbv beta.
      mstep (put_or_fatal_fits arg [c] ltac:(rewrite zlen_cons, zlen_nil; lia)).
      apply IH. rewrite zlen_app, zlen_cons, zlen_nil. unfold enc_arg. lia.
Qed.

Lemma put_if_fits (b : bool) buf bs : (b = true -> zlen buf + zlen bs <= SSHBUF_SIZE_MAX) ->
  (if b then put_or_fatal buf bs else mret buf) [] = (Ok (if b then buf ++ bs else buf), []).
Proof. intros H. destruct b; [by apply put_or_fatal_fits, H|done]. Qed.

Lemma zlen_quoted a : zlen (quoted a) = zlen (enc_arg a) + (if has_blank a then 2 else 0).
Proof.
  unfold quoted. destruct (has_blank a); [|lia]. rewrite zlen_cons, zlen_app, zlen_cons, zlen_nil. lia.
Qed.

Lemma assemble_args_fits argv : forall first buf,
  zlen buf + zlen (text first argv) <= SSHBUF_SIZE_MAX ->
  exists r, assemble_args first argv buf [] = (Ok r, []).
Proof.
  induction argv as [|a argv IH]; intros first buf H; [by eexists|]. cbn [assemble_args text] in *.
  rewrite !zlen_app, zlen_quoted in H. pose proof (zlen_nonneg (enc_arg a)).
  pose proof (zlen_nonneg (text false argv)). pose proof (zlen_nonneg buf).
  destruct (assemble_arg_fits a [] false) as [[arg ws] E].
  { rewrite zlen_nil. destruct first, (has_blank a); rewrite ?zlen_cons, ?zlen_nil in H; lia. }
  pose proof (assemble_arg_ok _ _ _ _ _ _ E) as [= -> ->]. mstep E. clear E. cbn [app orb] in *.
  destruct first; [change ((mret buf : AM (list Z)) ≫= ?k) with (k buf); cbv beta
                  |mstep (put_or_fatal_fits buf [32] ltac:(rewrite zlen_cons, zlen_nil in *; destruct (has_blank a); lia))];
    rewrite ?zlen_cons, ?zlen_nil in H.
  all: erewrite bind_ok; [|apply put_if_fits; intros B; rewrite B in H; rewrite ?zlen_app, ?zlen_cons, zlen_nil; lia].
  all: erewrite bind_ok; [|apply put_or_fatal_fits; destruct (has_blank a); rewrite ?zlen_app, ?zlen_cons, ?zlen_nil; lia].
  all: erewrite bind_ok; [|apply put_if_fits; intros B; rewrite B in H |- *; rewrite ?zlen_app, ?zlen_cons, ?zlen_nil; lia].
  all: apply IH; destruct (has_blank a); rewrite ?zlen_app, ?zlen_cons, ?zlen_nil; lia.
Qed.

Lemma argv_assemble_fits argv : zlen (text true argv) <= SSHBUF_SIZE_MAX ->
  argv_assemble argv [] = (Ok (text true argv), []).
Proof.
  intros H. destruct (assemble_args_fits argv true []) as [r E]; [rewrite zlen_nil; lia|].
  unfold argv_assemble.
  erewrite bind_ok by done. cbn [negb]. erewrite bind_ok by done. cbn [negb].
  mstep E. erewrite bind_ok by done. cbn [negb]. apply assemble_args_ok in E as ->. done.
Qed.

(** C26: splitting the string argv_assemble makes of an argument vector gives
    the vector back, whatever quotes, backslashes and blanks the arguments
    contain, except that empty arguments, which argv_assemble does not quote,
    are lost; with comments enabled no argument may look like one.
    argv_assemble returns such a string whenever it fits a buffer and memory
    is available, and argv_split returns on every string. *)
Theorem argv_roundtrip (tc : bool) (argv : list (list Z)) (Hc : Forall (no_comment tc) argv) :
  (forall oom s oom', argv_assemble argv oom = (Ok s, oom') ->
     argv_split s tc = Ok (filter (fun a => a <> []) argv)) /\
  (zlen (text true argv) <= SSHBUF_SIZE_MAX -> exists s, argv_assemble argv [] = (Ok s, [])) /\
  (forall s, argv_split s tc <> Crash).
Proof.
  split; [|split].
  - intros oom s oom' H. apply argv_assemble_ok in H as ->. unfold argv_split.
    rewrite split_text by (done || lia). done.
  - intros H. eexists. by apply argv_assemble_fits.
  - intros s. apply argv_split_loop_returns. lia.
Qed.

Lemma argv_roundtrip_witness :
  exists s, argv_assemble [str "a b"; []; str "#c d"; str "x'\y"] [] = (Ok s, []) /\
    argv_split s true = Ok [str "a b"; str "#c d"; str "x'\y"].
Proof.
  destruct (argv_roundtrip true [str "a b"; []; str "#c d"; str "x'\y"]) as (H1 & H2 & _).
  { repeat apply Forall_cons_2; [..|apply Forall_nil_2]; intros _;
      first [left; reflexivity | right; discriminate]. }
  destruct H2 as [s Hs]; [vm_compute; done|]. exists s. split; [done|]. apply (H1 _ _ _ Hs).
Defined.

(** ** Numbers *)

Lemma dec_digits_val fuel : forall n acc, 0 <= n < 2 ^ Z.of_nat fuel ->
  foldl (fun a c => 10 * a + (c - 48)) 0 (dec_digits fuel n acc) =
  foldl (fun a c => 10 * a + (c - 48)) n acc \/ fuel = O.
Proof.
  induction fuel as [|fuel IH]; intros n acc Hn; [by right|left]. cbn [dec_digits].
  destruct (Z.ltb_spec n 10) as [L|L].
  - cbn [foldl]. f_equal. rewrite Z.mod_small by lia. lia.
  - rewrite Nat2Z.inj_succ, Z.pow_succ_r in Hn by lia.
    destruct (IH (n / 10) (48 + n mod 10 :: acc)) as [-> | ->]; [dlia| |cbn in Hn; lia].
    cbn [foldl]. f_equal. dlia.
Qed.

Lemma dec_digits_digits fuel : forall n acc, 0 <= n -> Forall (fun c => isdigit c = true) acc ->
  Forall (fun c => isdigit c = true) (dec_digits fuel n acc) /\ (acc <> [] \/ fuel <> O -> dec_digits fuel n acc <> []).
Proof.
  induction fuel as [|fuel IH]; intros n acc Hn Ha; cbn [dec_digits]; [split; [done|]; by intros [?|?]|].
  assert (Forall (fun c => isdigit c = true) (48 + n mod 10 :: acc)).
  { constructor; [|done]. unfold isdigit. pose proof (Z.mod_pos_bound n 10). apply andb_true_iff.
    split; apply Z.leb_le; lia. }
  destruct (n <? 10); [done|]. destruct (IH (n / 10) (48 + n mod 10 :: acc)) as [H1 H2];
    [dlia|done|]. split; [done|]. intros _. apply H2. by left.
Qed.

Lemma span_digits_all ds : Forall (fun c => isdigit c = true) ds -> span_digits ds = (ds, []).
Proof. induction 1 as [|c ds Hc H IH]; [done|]. cbn [span_digits]. by rewrite Hc, IH. Qed.

Lemma fmt_d_digits n : 0 <= n ->
  Forall (fun c => isdigit c = true) (fmt_d n) /\ fmt_d n <> [] /\ dec_val (fmt_d n) = n.
Proof.
  intros Hn. unfold fmt_d. destruct (dec_digits_digits (S (Z.to_nat (Z.log2 n))) n []) as [H1 H2]; [done|constructor|].
  split; [done|]. split; [apply H2; by right|]. unfold dec_val.
  destruct (dec_digits_val (S (Z.to_nat (Z.log2 n))) n []) as [->|]; [|done..].
  rewrite Nat2Z.inj_succ, Z2Nat.id by apply Z.log2_nonneg.
  split; [done|]. destruct (Z.eq_dec n 0) as [->|]; [done|]. apply Z.log2_spec. lia.
Qed.

Lemma strtonum_fmt_d n hi : 0 <= n <= hi -> hi <= LLONG_MAX -> strtonum (fmt_d n) 0 hi = inr n.
Proof.
  intros Hn Hhi. destruct (fmt_d_digits n) as (Hd & Hne & Hv); [lia|].
  unfold strtonum, strtoll. rewrite Z.gtb_ltb, (proj2 (Z.ltb_ge _ _)) by lia.
  destruct (fmt_d n) as [|c ds]; [done|].
  pose proof Hd as [Hc _]%Forall_cons. unfold isdigit in Hc. zbool.
  cbn [Cstring.skip_space]. assert (isspace c = false) as ->.
  { unfold isspace. apply orb_false_iff. split; [apply Z.eqb_neq; lia|]. apply andb_false_iff. right. apply Z.leb_gt. lia. }
  change (chr "-") with 45. change (chr "+") with 43.
  rewrite (proj2 (Z.eqb_neq c 45)), (proj2 (Z.eqb_neq c 43)) by lia.
  rewrite (span_digits_all (c :: ds)) by done. rewrite bool_decide_eq_false_2 by done.
  rewrite bool_decide_eq_true_2 by done. cbn [negb]. rewrite Hv. unfold LLONG_MIN, LLONG_MAX in *.
  rewrite Z.min_r, Z.max_r by lia. rewrite Z.eqb_refl. cbn [negb]. rewrite !andb_false_r.
  cbn [orb]. rewrite (proj2 (Z.ltb_ge n 0)) by lia. by rewrite Z.gtb_ltb, (proj2 (Z.ltb_ge hi n)) by lia.
Qed.

(** ** Cutting strings *)

Lemma cut_none accept s : Forall (fun c => c ∉ accept) s -> cut accept s = (s, None).
Proof.
  induction 1 as [|c s Hc H IH]; [done|]. cbn [cut]. by rewrite bool_decide_eq_false_2, IH by done.
Qed.

Lemma cut_at accept s c t : Forall (fun c => c ∉ accept) s -> c ∈ accept ->
  cut accept (s ++ c :: t) = (s, Some (c, t)).
Proof.
  intros Hs Hc. induction Hs as [|x s Hx H IH]; cbn [app cut].
  - by rewrite bool_decide_eq_true_2.
  - by rewrite bool_decide_eq_false_2, IH by done.
Qed.

Lemma strrchr_none s c : c ∉ s -> strrchr s c = None.
Proof.
  induction s as [|x s IH]; [done|]. intros [Hx H]%not_elem_of_cons. cbn [strrchr].
  by rewrite IH, (proj2 (Z.eqb_neq x c)) by congruence.
Qed.

Lemma strrchr_app s t c : c ∉ t -> strrchr (s ++ c :: t) c = Some (zlen s).
Proof.
  intros Ht. induction s as [|x s IH]; cbn [app strrchr].
  - by rewrite strrchr_none, Z.eqb_refl by done.
  - rewrite IH, zlen_cons. f_equal. lia.
Qed.

Lemma cleanhostname_brackets host : cleanhostname (chr "[" :: host ++ str "]") = host.
Proof.
  unfold cleanhostname, at_. change (str "]") with [93]. change (chr "[") with 91. change (chr "]") with 93.
  cbn [nth length]. rewrite Z.eqb_refl.
  replace (S (length (host ++ [93%Z])) - 1)%nat with (S (length host)) by (rewrite length_app; cbn; lia).
  cbn [nth]. rewrite app_nth2, Nat.sub_diag by lia. cbn [nth Z.eqb Pos.eqb andb].
  unfold slice. change (drop (Z.to_nat 1) (91 :: host ++ [93])) with (host ++ [93]).
  replace (Z.to_nat _) with (length host) by (unfold zlen; cbn [length]; rewrite length_app; cbn [length]; lia).
  by rewrite take_app_length.
Qed.

Lemma bytes_not_in (l : list Z) s : (forall c, c ∈ l -> c ∉ s) -> Forall (fun c => c ∉ l) s.
Proof. intros H. apply Forall_forall. intros c Hc Hl. by apply (H c Hl). Qed.

Section HostPort.
Context (getservbyname : list Z -> option Z).

Lemma hpdelim_brackets host rest : chr "]" ∉ host ->
  hpdelim (Some (chr "[" :: host ++ str "]:" ++ rest)) = Some (chr "[" :: host ++ str "]", Some rest).
Proof.
  intros H. unfold hpdelim, hpdelim2. change (str "]:" ++ rest) with (93 :: 58 :: rest).
  change (str "]") with [93]. change (chr "[") with 91. cbn [at_ nth]. rewrite Z.eqb_refl.
  change (91 :: host ++ 93 :: 58 :: rest) with ((91 :: host) ++ 93 :: 58 :: rest).
  rewrite cut_at; [done| |by apply list_elem_of_singleton].
  constructor; [by intros E%list_elem_of_singleton|].
  apply bytes_not_in. by intros c ->%list_elem_of_singleton.
Qed.

Lemma hpdelim_plain host : chr ":" ∉ host -> chr "/" ∉ host -> head host <> Some (chr "[") ->
  hpdelim (Some host) = Some (host, None).
Proof.
  intros Hc Hs Hb. unfold hpdelim, hpdelim2. rewrite (proj2 (Z.eqb_neq _ _)).
  - rewrite cut_none; [done|]. apply bytes_not_in. change (str ":/") with [58; 47].
    by intros c [-> | ->%list_elem_of_singleton]%elem_of_cons.
  - destruct host as [|c host]; [done|]. unfold at_. cbn [nth]. intros ->. by apply Hb.
Qed.

Lemma cleanhostname_plain host : head host <> Some (chr "[") -> cleanhostname host = host.
Proof.
  intros Hb. unfold cleanhostname. destruct host as [|c host]; [done|]. cbn [at_ nth].
  rewrite (proj2 (Z.eqb_neq c _)); [done|]. intros ->. by apply Hb.
Qed.

Lemma host_and_port_put user host port : host <> [] -> 0 <= port < 65536 ->
  chr "]" ∉ host ->
  ((port = 0 \/ port = SSH_DEFAULT_PORT) ->
     (chr ":" ∉ host) /\ (chr "/" ∉ host) /\ head host <> Some (chr "[")) ->
  host_and_port getservbyname user (put_host_port host port) =
  Some (user, host, if (port =? 0) || (port =? SSH_DEFAULT_PORT) then -1 else port).
Proof.
  intros Hne Hp Hb Hplain. unfold host_and_port, put_host_port.
  destruct ((port =? 0) || (port =? SSH_DEFAULT_PORT)) eqn:E.
  - destruct Hplain as (Hc & Hs & Hh). { apply orb_true_iff in E as [?%Z.eqb_eq|?%Z.eqb_eq]; auto. }
    rewrite hpdelim_plain by done. rewrite bool_decide_eq_false_2 by done.
    by rewrite cleanhostname_plain by done.
  - rewrite hpdelim_brackets by done. rewrite bool_decide_eq_false_2 by done.
    rewrite cleanhostname_brackets. destruct (fmt_d_digits port) as (_ & Hf & _); [lia|].
    unfold a2port. rewrite strtonum_fmt_d by (unfold LLONG_MAX; lia). zbool.
    rewrite (proj2 (Z.leb_gt port 0)) by lia. by destruct (fmt_d port).
Qed.

Lemma at_not_in_put host port : 0 <= port -> chr "@" ∉ host -> chr "@" ∉ put_host_port host port.
Proof.
  intros Hp H. unfold put_host_port. destruct (_ || _); [done|].
  apply not_elem_of_cons. split; [done|]. rewrite !not_elem_of_app. repeat split; [done| |].
  - by apply (bool_decide_unpack (chr "@" ∉ str "]:")).
  - destruct (fmt_d_digits port Hp) as (Hd & _ & _). intros Hin.
    rewrite Forall_forall in Hd. by specialize (Hd _ Hin).
Qed.

(** parse_user_host_port reads back the user, host and port of
    user@put_host_port(host, port): a user may itself contain an '@' (Windows
    domain accounts do), an IPv6 address survives next to a port, and a
    standard port comes back as unspecified.  A host written without brackets
    must not look like one with a port, a path or a bracket. *)
Theorem host_port_roundtrip (user : option (list Z)) (host : list Z) (port : Z)
    (Huser : user <> Some []) (Hhost : host <> []) (Hport : 0 <= port < 65536)
    (Hb : chr "]" ∉ host) (Hat : chr "@" ∉ host)
    (Hplain : port = 0 \/ port = SSH_DEFAULT_PORT ->
       (chr ":" ∉ host) /\ (chr "/" ∉ host) /\ head host <> Some (chr "[")) :
  parse_user_host_port getservbyname
    ((if user is Some u then u ++ str "@" else []) ++ put_host_port host port) [] =
  (Ok (Some (user, host, if (port =? 0) || (port =? SSH_DEFAULT_PORT) then -1 else port)), []).
Proof.
  pose proof (at_not_in_put host port ltac:(lia) Hat) as Hn.
  unfold parse_user_host_port. erewrite bind_ok by done. cbn [negb].
  destruct user as [u|]; cbn [app].
  - rewrite <- app_assoc. change (str "@" ++ ?x) with (64 :: x). change (chr "@") with 64 in *.
    rewrite strrchr_app by done. unfold slice. change (drop (Z.to_nat 0) ?x) with x.
    unfold zlen. rewrite Nat2Z.id, take_app_length. rewrite bool_decide_eq_false_2 by congruence.
    erewrite bind_ok by done. cbn [negb]. replace (Z.to_nat (Z.of_nat (length u) + 1)) with (length (u ++ [64])) by (rewrite length_app; cbn [length]; lia).
    change (u ++ 64 :: put_host_port host port) with (u ++ [64] ++ put_host_port host port).
    rewrite app_assoc, drop_app_length. unfold mret, M_ret. by rewrite host_and_port_put.
  - rewrite strrchr_none by done. unfold mret, M_ret. by rewrite host_and_port_put.
Qed.
End HostPort.

Lemma host_port_roundtrip_witness :
  parse_user_host_port demo_getservbyname (str "me@corp@[::1]:2222") [] =
  (Ok (Some (Some (str "me@corp"), str "::1", 2222)), []).
Proof.
  apply (host_port_roundtrip demo_getservbyname (Some (str "me@corp")) (str "::1") 2222); try done;
    first [apply (bool_decide_unpack (_ ∉ _)); vm_compute; done | intros [|]; done].
Defined.

(** ** Environment lists *)

Definition env_name (name : list Z) : Prop := chr "=" ∉ name.

Lemma env_is_entry name value : env_is name (name ++ chr "=" :: value) = true.
Proof.
  unfold env_is, has_prefix, at_. rewrite take_app_length, bool_decide_eq_true_2 by done.
  rewrite app_nth2, Nat.sub_diag by lia. by rewrite Z.eqb_refl.
Qed.

Lemma env_is_inv name e : env_is name e = true -> exists value, e = name ++ chr "=" :: value.
Proof.
  unfold env_is, has_prefix, at_. intros [H1%bool_decide_eq_true H2%Z.eqb_eq]%andb_true_iff.
  destruct (drop (length name) e) as [|c v] eqn:E.
  - assert (length e <= length name)%nat as L.
    { pose proof (length_drop e (length name)) as Hl. rewrite E in Hl. cbn in Hl. lia. }
    rewrite nth_overflow in H2 by lia. done.
  - exists v. rewrite <- (take_drop (length name) e) at 1. rewrite E, H1. do 2 f_equal.
    rewrite <- (take_drop (length name) e), E, H1, app_nth2, Nat.sub_diag in H2 by lia. done.
Qed.

Lemma env_name_unique a b u v : env_name a -> env_name b ->
  a ++ chr "=" :: u = b ++ chr "=" :: v -> a = b.
Proof.
  unfold env_name. revert b. induction a as [|x a IH]; intros [|y b] Ha Hb; cbn [app]; intros E.
  - done.
  - injection E as E1 E2. subst y. by apply not_elem_of_cons in Hb as [Hb _].
  - injection E as E1 E2. subst x. by apply not_elem_of_cons in Ha as [Ha _].
  - injection E as E1 E2. subst y. apply not_elem_of_cons in Ha as [_ Ha].
    apply not_elem_of_cons in Hb as [_ Hb]. f_equal. eauto.
Qed.

Lemma env_is_other name name' e : env_name name -> env_name name' -> name <> name' ->
  env_is name e = true -> env_is name' e = false.
Proof.
  intros Hn Hn' Hne (u & ->)%env_is_inv. destruct (env_is name' _) eqn:E; [|done].
  apply env_is_inv in E as [v E]. apply env_name_unique in E; done.
Qed.

Lemma lookup_set_slot name value env : env_name name ->
  lookup_env_in_list name (set_slot name (name ++ chr "=" :: value) env) = Some value /\
  (forall name', env_name name' -> name' <> name ->
     lookup_env_in_list name' (set_slot name (name ++ chr "=" :: value) env) =
     lookup_env_in_list name' env).
Proof.
  intros Hn. assert (drop (length name + 1) (name ++ chr "=" :: value) = value) as Hd.
  { change (name ++ chr "=" :: value) with (name ++ [chr "="] ++ value). rewrite app_assoc.
    replace (length name + 1)%nat with (length (name ++ [chr "="])) by (rewrite length_app; done).
    apply drop_app_length. }
  pose proof (env_is_entry name value) as He. set (entry := name ++ chr "=" :: value) in *.
  induction env as [|e env [IH1 IH2]]; cbn [set_slot lookup_env_in_list].
  - rewrite He, Hd. split; [done|]. intros name' Hn' Hne.
    by rewrite (env_is_other name name' entry) by congruence.
  - destruct (env_is name e) eqn:E; cbn [lookup_env_in_list].
    + rewrite He, Hd. split; [done|]. intros name' Hn' Hne.
      by rewrite (env_is_other name name' entry), (env_is_other name name' e) by congruence.
    + rewrite E. split; [done|]. intros name' Hn' Hne. by rewrite IH2.
Qed.

Lemma length_set_slot name entry env :
  zlen (set_slot name entry env) = zlen env + (if existsb (env_is name) env then 0 else 1).
Proof.
  induction env as [|e env IH]; [done|]. cbn [set_slot existsb]. destruct (env_is name e); cbn [orb].
  - rewrite !zlen_cons. lia.
  - rewrite !zlen_cons, IH. lia.
Qed.

Lemma lookup_absent name env : existsb (env_is name) env = false -> lookup_env_in_list name env = None.
Proof.
  induction env as [|e env IH]; [done|]. cbn [existsb lookup_env_in_list].
  intros [-> H]%orb_false_iff. by apply IH.
Qed.

(** The list and its size as child_set_env keeps them: there is always room
    for the NULL. *)
Definition env_ok (env : option (list (list Z))) (size : Z) : Prop :=
  match env with None => size = 0 | Some l => zlen l < size end.

(** A variable set by child_set_env is what lookup_env_in_list finds, no
    other variable changes, the array keeps room for its terminating NULL, and
    the call fails only when a new variable does not fit 1000 entries. *)
Theorem child_set_env_lookup (env : option (list (list Z))) (size : Z) (name value : list Z)
    (Henv : env_ok env size) (Hname : env_name name) :
  (exists l size', child_set_env env size name value [] = (Ok (Some l, size'), []) /\
    env_ok (Some l) size' /\ size <= size' /\
    lookup_env_in_list name l = Some value /\
    forall name', env_name name' -> name' <> name ->
      lookup_env_in_list name' l = lookup_env_in_list name' (default [] env)) \/
  (child_set_env env size name value [] = (Err EXIT_255, []) /\ 1000 <= size /\
   lookup_env_in_list name (default [] env) = None).
Proof.
  unfold child_set_env. rewrite cut_none by (apply bytes_not_in; by intros c ->%list_elem_of_singleton).
  cbn [snd]. set (entry := name ++ chr "=" :: value).
  assert (negb (eqb (bool_decide (env = None)) (size =? 0)) = false) as ->.
  { destruct env as [l|]; cbn in Henv; [|by subst size]. pose proof (zlen_nonneg l).
    rewrite bool_decide_eq_false_2 by done. by rewrite (proj2 (Z.eqb_neq size 0)) by lia. }
  set (l := default [] env). set (n := if env is None then 1 else size).
  assert ((match env with None => ([], 1) | Some l => (l, size) end) = (l, n)) as -> by by destruct env.
  assert (zlen l < n /\ size <= n /\ (1000 <= n -> n = size)) as (Hl & Hn & Hs).
  { subst l n. destruct env as [l|]; cbn [env_ok] in Henv.
    - change (zlen l < size /\ size <= size /\ (1000 <= size -> size = size)). lia.
    - subst size. change (0 < 1 /\ 0 <= 1 /\ (1000 <= 1 -> 1 = 0)). lia. }
  destruct (lookup_set_slot name value l Hname) as [L1 L2]. pose proof (length_set_slot name entry l) as Hz.
  destruct (existsb (env_is name) l) eqn:E.
  - left. exists (set_slot name entry l), n. repeat split; try done. cbn. lia.
  - destruct (zlen l >=? n - 1) eqn:G; [destruct (n >=? 1000) eqn:T|].
    + right. split; [done|]. split; [rewrite Z.geb_leb in T; zbool; lia|]. by apply lookup_absent.
    + left. exists (set_slot name entry l), (n + 50). repeat split; try done; cbn; lia.
    + left. exists (set_slot name entry l), n. rewrite Z.geb_leb in G. zbool. repeat split; try done; cbn; lia.
Qed.

Lemma child_set_env_lookup_witness :
  exists l size', child_set_env (Some [str "A=1"; str "AB=2"]) 3 (str "A") (str "9") [] =
    (Ok (Some l, size'), []) /\ lookup_env_in_list (str "A") l = Some (str "9") /\
    lookup_env_in_list (str "AB") l = Some (str "2").
Proof.
  destruct (child_set_env_lookup (Some [str "A=1"; str "AB=2"]) 3 (str "A") (str "9"))
    as [(l & size' & H1 & _ & _ & H2 & H3)|(_ & H & _)]; [done| |exists l, size'|lia].
  - apply (bool_decide_unpack (_ ∉ _)). vm_compute. done.
  - split; [done|]. split; [done|]. apply (H3 (str "AB")); [|done].
    apply (bool_decide_unpack (_ ∉ _)). vm_compute. done.
Defined.

(** ** Expansion returns *)

Lemma put_or_fatal_no_crash b bs o : (put_or_fatal b bs o).1 <> Crash.
Proof. unfold put_or_fatal. destruct (_ >? _); [done|]. by destruct o as [|[] o]. Qed.

Lemma cut_rest accept s a c r : cut accept s = (a, Some (c, r)) -> (length r < length s)%nat.
Proof.
  revert a. induction s as [|x s IH]; intros a; cbn [cut]; [done|]. case_bool_decide.
  - intros [= _ _ <-]. cbn. lia.
  - destruct (cut accept s) as [a' t]. intros [= _ ->]. specialize (IH _ eq_refl). cbn. lia.
Qed.

Lemma expand_returns getenv dollar percent keys fuel : forall s buf missing o,
  (length s < fuel)%nat -> (expand_loop getenv fuel dollar percent keys s buf missing o).1 <> Crash.
Proof.
  induction fuel as [|fuel IH]; intros s buf missing o Hf; [lia|]. cbn [expand_loop].
  assert (forall b bs r, (length r < fuel)%nat ->
    ((buf ← put_or_fatal b bs; expand_loop getenv fuel dollar percent keys r buf missing) o).1 <> Crash) as Hput.
  { intros b bs r Hr. pose proof (put_or_fatal_no_crash b bs o) as H. unfold mbind, M_bind.
    destruct (put_or_fatal b bs o) as [[b'|e|] o']; [by apply IH|done|done]. }
  destruct s as [|c s]; [done|]. cbn [length] in Hf. destruct (dollar && _ && _).
  - destruct (cut (str "}") (tail s)) as [var [[d rest]|]] eqn:E; [|done].
    case_bool_decide; [done|]. apply cut_rest in E.
    assert (length (tail s) <= length s)%nat by (destruct s; cbn; lia).
    destruct (getenv var); [apply Hput; lia|apply IH; lia].
  - destruct (_ || _); [apply Hput; lia|]. destruct s as [|k s]; [done|]. cbn [length] in Hf.
    destruct (_ =? _); [apply Hput; lia|]. destruct (find_key keys k); [apply Hput; lia|done].
Qed.
