(* ===== verification/AbsTime.v ===== *)
(** * Absolute times: [parse_absolute_time], [strptime] and [timegm]

    Expiry times of keys and certificates are written as YYYYMMDD[HHMM[SS]]
    with an optional time zone.  misc.c hands them to strptime and to timegm
    (with a "Z" or "UTC" suffix) or mktime; the Windows build takes the first
    two from openbsd-compat/strptime.c and openbsd-compat/bsd-timegm.c. *)

From S2P Require Import Prelude Ssherr Cstring Match Misc.

(** ** struct tm *)

Record tm := mk_tm {
  tm_sec : Z; tm_min : Z; tm_hour : Z; tm_mday : Z; tm_mon : Z; tm_year : Z; tm_wday : Z; tm_yday : Z }.

Definition tm_zero : tm := mk_tm 0 0 0 0 0 0 0 0.
Definition set_sec v t := mk_tm v (tm_min t) (tm_hour t) (tm_mday t) (tm_mon t) (tm_year t) (tm_wday t) (tm_yday t).
Definition set_min v t := mk_tm (tm_sec t) v (tm_hour t) (tm_mday t) (tm_mon t) (tm_year t) (tm_wday t) (tm_yday t).
Definition set_hour v t := mk_tm (tm_sec t) (tm_min t) v (tm_mday t) (tm_mon t) (tm_year t) (tm_wday t) (tm_yday t).
Definition set_mday v t := mk_tm (tm_sec t) (tm_min t) (tm_hour t) v (tm_mon t) (tm_year t) (tm_wday t) (tm_yday t).
Definition set_mon v t := mk_tm (tm_sec t) (tm_min t) (tm_hour t) (tm_mday t) v (tm_year t) (tm_wday t) (tm_yday t).
Definition set_year v t := mk_tm (tm_sec t) (tm_min t) (tm_hour t) (tm_mday t) (tm_mon t) v (tm_wday t) (tm_yday t).
Definition set_wday v t := mk_tm (tm_sec t) (tm_min t) (tm_hour t) (tm_mday t) (tm_mon t) (tm_year t) v (tm_yday t).
Definition set_yday v t := mk_tm (tm_sec t) (tm_min t) (tm_hour t) (tm_mday t) (tm_mon t) (tm_year t) (tm_wday t) v.

(** ** strptime *)

Definition TM_YEAR_BASE : Z := 1900.
Definition ALT_E : Z := 1.
Definition ALT_O : Z := 2.

Fixpoint conv_loop (bp : list Z) (result rulim ulim : Z) : Z * list Z :=
  match bp with
  | [] => (result, [])
  | c :: bp =>
      let result := result * 10 + (c - 48) in
      let rulim := Z.quot rulim 10 in
      if (result * 10 <=? ulim) && negb (rulim =? 0) && (48 <=? at_ bp 0) && (at_ bp 0 <=? 57)
      then conv_loop bp result rulim ulim
      else (result, bp)
  end.

(** The number and the rest of the buffer. *)
Definition conv_num (bp : list Z) (llim ulim : Z) : option (Z * list Z) :=
  if (at_ bp 0 <? 48) || (at_ bp 0 >? 57) then None
  else
    let '(result, bp) := conv_loop bp 0 ulim ulim in
    if (result <? llim) || (result >? ulim) then None else Some (result, bp).

(** The buffer, the result so far and the two static variables. *)
Record strp := mk_strp { sp_bp : list Z; sp_tm : tm; sp_century : Z; sp_relyear : Z }.

Definition sp_skip (bp : list Z) (st : strp) : strp := mk_strp bp (sp_tm st) (sp_century st) (sp_relyear st).
Definition sp_conv (st : strp) (llim ulim : Z) (set : Z -> tm -> tm) : option strp :=
  '(v, bp) ← conv_num (sp_bp st) llim ulim;
  Some (mk_strp bp (set v (sp_tm st)) (sp_century st) (sp_relyear st)).

(** The year of a two-digit year, at the end of the format. *)
Definition sp_finish (st : strp) : strp :=
  if sp_relyear st =? -1 then st
  else
    let year :=
      if sp_century st =? TM_YEAR_BASE then
        if sp_relyear st <=? 68 then sp_relyear st + 2000 - TM_YEAR_BASE
        else sp_relyear st + 1900 - TM_YEAR_BASE
      else sp_relyear st + sp_century st - TM_YEAR_BASE in
    mk_strp (sp_bp st) (set_year year (sp_tm st)) (sp_century st) (sp_relyear st).

Definition sp_literal (c : Z) (st : strp) : option strp :=
  if at_ (sp_bp st) 0 =? c then Some (sp_skip (tail (sp_bp st)) st) else None.

Section Strptime.
(** The recursive call of the composed conversions. *)
Variable rec : list Z -> strp -> option strp.

Definition legal_alt (alt x : Z) : bool := Z.land alt (Z.lnot x) =? 0.

(** The conversion [c], with the modifiers read before it. *)
Definition conversion (c alt : Z) (st : strp) : option strp :=
  let legal x (r : option strp) := if legal_alt alt x then r else None in
  if c =? chr "%" then sp_literal c st
  else if c =? chr "D" then legal 0 (rec (str "%m/%d/%y") st)
  else if c =? chr "R" then legal 0 (rec (str "%H:%M") st)
  else if c =? chr "r" then legal 0 (rec (str "%I:%M:%S %p") st)
  else if c =? chr "T" then legal 0 (rec (str "%H:%M:%S") st)
  else if c =? chr "C" then
    legal ALT_E ('(i, bp) ← conv_num (sp_bp st) 0 99;
                 Some (mk_strp bp (sp_tm st) (i * 100) (sp_relyear st)))
  else if (c =? chr "d") || (c =? chr "e") then legal ALT_O (sp_conv st 1 31 set_mday)
  else if c =? chr "k" then legal 0 (sp_conv st 0 23 set_hour)
  else if c =? chr "H" then legal ALT_O (sp_conv st 0 23 set_hour)
  else if c =? chr "l" then legal 0 (sp_conv st 1 12 set_hour)
  else if c =? chr "I" then legal ALT_O (sp_conv st 1 12 set_hour)
  else if c =? chr "j" then legal 0 (sp_conv st 1 366 (fun v => set_yday (v - 1)))
  else if c =? chr "M" then legal ALT_O (sp_conv st 0 59 set_min)
  else if c =? chr "m" then legal ALT_O (sp_conv st 1 12 (fun v => set_mon (v - 1)))
  else if c =? chr "S" then legal ALT_O (sp_conv st 0 61 set_sec)
  else if (c =? chr "U") || (c =? chr "W") then legal ALT_O (sp_conv st 0 53 (fun _ t => t))
  else if c =? chr "w" then legal ALT_O (sp_conv st 0 6 set_wday)
  else if c =? chr "Y" then
    legal ALT_E ('(i, bp) ← conv_num (sp_bp st) 0 9999;
                 Some (mk_strp bp (set_year (i - TM_YEAR_BASE) (sp_tm st)) (sp_century st) (-1)))
  else if c =? chr "y" then
    legal (Z.lor ALT_E ALT_O) ('(i, bp) ← conv_num (sp_bp st) 0 99;
                               Some (mk_strp bp (sp_tm st) (sp_century st) i))
  else if (c =? chr "n") || (c =? chr "t") then
    legal 0 (Some (sp_skip (Cstring.skip_space (sp_bp st)) st))
  else None.

(** The loop over the format; [alt]: the modifiers read after a percent sign. *)
Fixpoint format_loop (alt : option Z) (fmt : list Z) (st : strp) : option strp :=
  match fmt with
  | [] => match alt with None => Some st | Some _ => None end
  | c :: fmt =>
      match alt with
      | None =>
          if isspace c then format_loop None fmt (sp_skip (Cstring.skip_space (sp_bp st)) st)
          else if c =? chr "%" then format_loop (Some 0) fmt st
          else st ← sp_literal c st; format_loop None fmt st
      | Some a =>
          if c =? chr "E" then if legal_alt a 0 then format_loop (Some (Z.lor a ALT_E)) fmt st else None
          else if c =? chr "O" then if legal_alt a 0 then format_loop (Some (Z.lor a ALT_O)) fmt st else None
          else st ← conversion c a st; format_loop None fmt st
      end
  end.
End Strptime.

(** The composed conversions expand to formats without such conversions. *)
Definition strptime_inner (fmt : list Z) (st : strp) : option strp :=
  sp_finish <$> format_loop (fun _ _ => None) None fmt st.

(** The result, and the rest of the buffer. *)
Definition strptime (buf fmt : list Z) (t : tm) : option (tm * list Z) :=
  st ← format_loop strptime_inner None fmt (mk_strp buf t TM_YEAR_BASE (-1));
  Some (sp_tm (sp_finish st), sp_bp (sp_finish st)).

(** ** timegm *)

(** [unsigned] arithmetic. *)
Definition is_leap (y : Z) : bool :=
  let y := u32 (y + 1900) in
  (y mod 4 =? 0) && (negb (y mod 100 =? 0) || (y mod 400 =? 0)).

Definition ndays (leap : bool) : list Z :=
  if leap then [31; 29; 31; 30; 31; 30; 31; 31; 30; 31; 30; 31]
  else [31; 28; 31; 30; 31; 30; 31; 31; 30; 31; 30; 31].

(** [n] rounds of the loop over the years, from [i]. *)
Fixpoint year_loop (n : nat) (i res : Z) : Z :=
  match n with
  | O => res
  | S n => year_loop n (i + 1) (res + (if is_leap i then 366 else 365))
  end.

(** The comparison with the year is unsigned. *)
Definition timegm (t : tm) : Z :=
  if (tm_mon t >? 12) || (tm_mon t <? 0) || (tm_mday t >? 31) || (tm_min t >? 60) ||
     (tm_sec t >? 60) || (tm_hour t >? 24) then 0
  else
    let res := year_loop (Z.to_nat (u32 (tm_year t) - 70)) 70 0 in
    let res := foldl Z.add res (take (Z.to_nat (tm_mon t)) (ndays (is_leap (tm_year t)))) in
    (((res + (tm_mday t - 1)) * 24 + tm_hour t) * 60 + tm_min t) * 60 + tm_sec t.

(** ** parse_absolute_time *)

Section Parse.
(** mktime, which needs the time zone: the time and tm_wday. *)
Variable mktime : tm -> Z * Z.

(** The buffer and the format for a string of [l] bytes. *)
Definition absolute_format (s : list Z) (l : Z) : option (list Z * list Z) :=
  let dash := str "-" in
  let colon := str ":" in
  let date := slice s 0 4 ++ dash ++ slice s 4 2 ++ dash ++ slice s 6 2 in
  let hhmm := str "T" ++ slice s 8 2 ++ colon ++ slice s 10 2 in
  if l =? 8 then Some (date, str "%Y-%m-%d")
  else if l =? 12 then Some (date ++ hhmm, str "%Y-%m-%dT%H:%M")
  else if l =? 14 then Some (date ++ hhmm ++ colon ++ slice s 12 2, str "%Y-%m-%dT%H:%M:%S")
  else None.

(** Whether the string ends in a UTC suffix, and its length without it. *)
Definition utc_suffix (s : list Z) : bool * Z :=
  let l := zlen s in
  if (l >? 1) && strcaseeq (drop (Z.to_nat (l - 1)) s) (str "Z") then (true, l - 1)
  else if (l >? 3) && strcaseeq (drop (Z.to_nat (l - 3)) s) (str "UTC") then (true, l - 3)
  else (false, l).

Definition parse_absolute_time (s : list Z) : res Z :=
  let '(is_utc, l) := utc_suffix s in
  match absolute_format s l with
  | None => Err SSH_ERR_INVALID_FORMAT
  | Some (buf, fmt) =>
      match strptime buf fmt tm_zero with
      | Some (t, []) =>
          let '(time, wday) :=
            if (is_utc : bool) then (timegm (set_wday (-1) t), -1) else mktime (set_wday (-1) t) in
          if (time =? -1) && (wday =? -1) then Err SSH_ERR_INVALID_FORMAT else Ok (u64 time)
      | _ => Err SSH_ERR_INVALID_FORMAT
      end
  end.
End Parse.

Definition demo_mktime (t : tm) : Z * Z := (timegm t - 3600, 0).

Example absolute_ex :
  parse_absolute_time demo_mktime (str "20240229Z") = Ok 1709164800 /\
  parse_absolute_time demo_mktime (str "20380119031408UTC") = Ok 2147483648 /\
  parse_absolute_time demo_mktime (str "202402290100") = Ok 1709164800 /\
  parse_absolute_time demo_mktime (str "20241301Z") = Err SSH_ERR_INVALID_FORMAT /\
  parse_absolute_time demo_mktime (str "2024-2-1") = Err SSH_ERR_INVALID_FORMAT.
Proof. by vm_compute. Qed.
