(* ===== verification/AbsTimeThms.v ===== *)
(** * Absolute times are calendar times from 1970 on

    The time parse_absolute_time gives for a UTC time is the number of seconds
    since 1970 of the Gregorian calendar; years before 1970 are not. *)

From S2P Require Import Prelude Ssherr Cstring Match Misc AbsTime.

(** ** The calendar *)

(** The number of the day in the proleptic Gregorian calendar, from
    1970-01-01: years counted from March, in which a leap day is the last. *)
Definition civil_days (y m d : Z) : Z :=
  let y := if m <=? 2 then y - 1 else y in
  let mp := (m + 9) mod 12 in
  let doy := (153 * mp + 2) / 5 + d - 1 in
  365 * y + y / 4 - y / 100 + y / 400 + doy - 719468.

Definition leaps (y : Z) : Z := y / 4 - y / 100 + y / 400.

Lemma civil_range y m d : 1970 <= y <= 9999 -> 1 <= m <= 12 -> 1 <= d <= 31 ->
  0 <= civil_days y m d <= 4000000.
Proof.
  intros Hy Hm Hd. unfold civil_days.
  assert (forall y', 1969 <= y' <= 9999 -> 719162 <= 365 * y' + y' / 4 - y' / 100 + y' / 400 <= 3700000) as L.
  { intros y' Hy'. destruct (Z.eq_dec y' 1969) as [->|]; [by vm_compute|]. dlia. }
  assert (0 <= (153 * ((m + 9) mod 12) + 2) / 5 <= 400) as Hdoy by dlia.
  destruct (Z.leb_spec m 2).
  - pose proof (L (y - 1) ltac:(lia)). assert (306 <= (153 * ((m + 9) mod 12) + 2) / 5); [|lia].
    assert (m = 1 \/ m = 2) as [->| ->] by lia; by vm_compute.
  - destruct (Z.eq_dec y 1969); [lia|].
    assert (719468 <= 365 * y + y / 4 - y / 100 + y / 400 <= 3700000) by dlia. lia.
Qed.

Lemma is_leap_leaps y : 0 <= y -> y + 1900 < 2 ^ 32 ->
  (if is_leap y then 1 else 0) = leaps (y + 1900) - leaps (y + 1899).
Proof.
  intros Hy Hm. unfold is_leap. rewrite wrap_small by lia. unfold leaps.
  replace (y + 1899) with (y + 1900 - 1) by lia. set (z := y + 1900) in *. clearbody z.
  destruct (Z.eqb_spec (z mod 4) 0); destruct (Z.eqb_spec (z mod 100) 0);
    destruct (Z.eqb_spec (z mod 400) 0); cbn [negb orb andb]; dlia.
Qed.

Lemma year_loop_spec n : forall i res, 0 <= i -> i + Z.of_nat n + 1900 < 2 ^ 32 ->
  year_loop n i res = res + 365 * Z.of_nat n + leaps (i + Z.of_nat n + 1899) - leaps (i + 1899).
Proof.
  induction n as [|n IH]; intros i res Hi Hn; cbn [year_loop].
  { change (Z.of_nat 0) with 0. rewrite !Z.add_0_r. lia. }
  rewrite IH by lia. pose proof (is_leap_leaps i Hi ltac:(lia)) as L.
  replace (i + 1 + 1899) with (i + 1900) by lia. replace (i + 1 + Z.of_nat n + 1899) with (i + Z.of_nat (S n) + 1899) by lia.
  destruct (is_leap i); lia.
Qed.

Lemma year_loop_grows n : forall i res, res + 365 * Z.of_nat n <= year_loop n i res.
Proof.
  induction n as [|n IH]; intros i res; cbn [year_loop]; [lia|].
  etransitivity; [|apply IH]. destruct (is_leap i); lia.
Qed.

Lemma year_loop_upper n : forall i res, year_loop n i res <= res + 366 * Z.of_nat n.
Proof.
  induction n as [|n IH]; intros i res; cbn [year_loop]; [lia|].
  etransitivity; [apply IH|]. destruct (is_leap i); lia.
Qed.

Lemma foldl_add l : forall a, foldl Z.add a l = a + foldl Z.add 0 l.
Proof. induction l as [|x l IH]; intros a; cbn [foldl]; [lia|]. rewrite IH, (IH (0 + x)). lia. Qed.

(** The days before a month, from the table. *)
Lemma month_days leap m res : 0 <= m < 12 ->
  foldl Z.add res (take (Z.to_nat m) (ndays leap)) =
  res + ((153 * ((m + 10) mod 12) + 2) / 5 + (if m <? 2 then -306 else 59 + if leap then 1 else 0)).
Proof.
  intros Hm. rewrite foldl_add. f_equal.
  assert (m = 0 \/ m = 1 \/ m = 2 \/ m = 3 \/ m = 4 \/ m = 5 \/ m = 6 \/ m = 7 \/ m = 8 \/ m = 9 \/
          m = 10 \/ m = 11) as Hin by lia.
  destruct leap; destruct_or! Hin; subst m; reflexivity.
Qed.

Lemma timegm_civil t : 70 <= tm_year t < 2 ^ 31 - 1 -> 0 <= tm_mon t < 12 -> tm_mday t <= 31 ->
  tm_hour t <= 24 -> tm_min t <= 60 -> tm_sec t <= 60 ->
  timegm t = ((civil_days (tm_year t + 1900) (tm_mon t + 1) (tm_mday t) * 24 + tm_hour t) * 60 +
              tm_min t) * 60 + tm_sec t.
Proof.
  intros Hy Hm Hd Hh Hmin Hs. unfold timegm.
  rewrite !Z.gtb_ltb. rewrite !(proj2 (Z.ltb_ge _ _)) by lia. cbn [orb].
  do 3 f_equal. rewrite (wrap_small 32) by lia. rewrite year_loop_spec by lia.
  rewrite month_days by done. rewrite Z2Nat.id by lia. do 2 f_equal. unfold civil_days.
  replace (tm_mon t + 1 + 9) with (tm_mon t + 10) by lia.
  pose proof (is_leap_leaps (tm_year t) ltac:(lia) ltac:(lia)) as L.
  replace (70 + (tm_year t - 70) + 1899) with (tm_year t + 1899) by lia.
  change (leaps (70 + 1899)) with 477.
  set (md := (153 * ((tm_mon t + 10) mod 12) + 2) / 5). clearbody md.
  replace (tm_mon t + 1 <=? 2) with (tm_mon t <? 2) by (destruct (Z.ltb_spec (tm_mon t) 2), (Z.leb_spec (tm_mon t + 1) 2); lia).
  destruct (tm_mon t <? 2); unfold leaps in L |- *.
  - replace (tm_year t + 1900 - 1) with (tm_year t + 1899) by lia. lia.
  - destruct (is_leap (tm_year t)); lia.
Qed.

(** ** Reading the digits *)

Definition digit (n : Z) : Z := 48 + n mod 10.
Definition pad2 (n : Z) : list Z := [digit (n / 10); digit n].
Definition pad4 (n : Z) : list Z := [digit (n / 1000); digit (n / 100); digit (n / 10); digit n].

Lemma digit_range n : 48 <= digit n <= 57.
Proof. unfold digit. pose proof (Z.mod_pos_bound n 10). lia. Qed.

(** One more digit is read. *)
Lemma conv_loop_more n d bp result rulim ulim :
  (result * 10 + (digit n - 48)) * 10 <= ulim -> Z.quot rulim 10 <> 0 ->
  conv_loop (digit n :: digit d :: bp) result rulim ulim =
  conv_loop (digit d :: bp) (result * 10 + (digit n - 48)) (Z.quot rulim 10) ulim.
Proof.
  intros H1 H2. pose proof (digit_range d). cbn [conv_loop at_ nth].
  rewrite (proj2 (Z.leb_le _ ulim)) by done. rewrite (proj2 (Z.eqb_neq _ 0)) by done.
  by rewrite (proj2 (Z.leb_le 48 _)), (proj2 (Z.leb_le _ 57)) by lia.
Qed.

Lemma conv_loop_last n bp result rulim ulim : Z.quot rulim 10 = 0 ->
  conv_loop (digit n :: bp) result rulim ulim = (result * 10 + (digit n - 48), bp).
Proof. intros H. cbn [conv_loop]. rewrite H. by rewrite andb_false_r. Qed.

Lemma conv_start n bp : (at_ (digit n :: bp) 0 <? 48) || (at_ (digit n :: bp) 0 >? 57) = false.
Proof.
  pose proof (digit_range n). cbn [at_ nth]. rewrite Z.gtb_ltb.
  by rewrite (proj2 (Z.ltb_ge _ 48)), (proj2 (Z.ltb_ge 57 _)) by lia.
Qed.

Lemma conv_num_pad2 n bp lo hi : 0 <= lo <= n -> n <= hi -> 10 <= hi < 100 ->
  conv_num (pad2 n ++ bp) lo hi = Some (n, bp).
Proof.
  intros Hn Hhi Hr. unfold conv_num, pad2. cbn [app]. rewrite conv_start.
  assert (0 * 10 + (digit (n / 10) - 48) = n / 10) as E by (unfold digit; dlia).
  rewrite conv_loop_more, E by (try rewrite E; dlia).
  rewrite conv_loop_last by dlia.
  assert (n / 10 * 10 + (digit n - 48) = n) as -> by (unfold digit; dlia).
  rewrite Z.gtb_ltb. by rewrite (proj2 (Z.ltb_ge n lo)), (proj2 (Z.ltb_ge hi n)) by lia.
Qed.

Lemma conv_num_pad4 n bp : 0 <= n <= 9999 -> conv_num (pad4 n ++ bp) 0 9999 = Some (n, bp).
Proof.
  intros Hn. unfold conv_num, pad4. cbn [app]. rewrite conv_start.
  assert (0 * 10 + (digit (n / 1000) - 48) = n / 1000) as E1 by (unfold digit; dlia).
  rewrite conv_loop_more, E1 by (try rewrite E1; dlia).
  assert (n / 1000 * 10 + (digit (n / 100) - 48) = n / 100) as E2 by (unfold digit; dlia).
  rewrite conv_loop_more, E2 by (try rewrite E2; dlia).
  assert (n / 100 * 10 + (digit (n / 10) - 48) = n / 10) as E3 by (unfold digit; dlia).
  rewrite conv_loop_more, E3 by (try rewrite E3; dlia).
  rewrite conv_loop_last by done.
  assert (n / 10 * 10 + (digit n - 48) = n) as -> by (unfold digit; dlia).
  rewrite Z.gtb_ltb. by rewrite (proj2 (Z.ltb_ge n 0)), (proj2 (Z.ltb_ge 9999 n)) by lia.
Qed.

Record stamp := mk_stamp { s_year : Z; s_mon : Z; s_day : Z; s_hour : Z; s_min : Z; s_sec : Z }.

Definition stamp_ok (x : stamp) : Prop :=
  0 <= s_year x <= 9999 /\ 1 <= s_mon x <= 12 /\ 1 <= s_day x <= 31 /\ 0 <= s_hour x <= 23 /\
  0 <= s_min x <= 59 /\ 0 <= s_sec x <= 60.

#[export] Instance stamp_ok_dec x : Decision (stamp_ok x).
Proof. unfold stamp_ok. apply _. Defined.

(** YYYYMMDDHHMMSS. *)
Definition stamp_text (x : stamp) : list Z :=
  pad4 (s_year x) ++ pad2 (s_mon x) ++ pad2 (s_day x) ++ pad2 (s_hour x) ++ pad2 (s_min x) ++ pad2 (s_sec x).

Definition stamp_tm (x : stamp) : tm :=
  mk_tm (s_sec x) (s_min x) (s_hour x) (s_day x) (s_mon x - 1) (s_year x - 1900) 0 0.

Section Steps.
Context (rec : list Z -> strp -> option strp).

Lemma fmt_conv c f st st' : (c =? chr "E") = false -> (c =? chr "O") = false ->
  conversion rec c 0 st = Some st' ->
  format_loop rec None (37 :: c :: f) st = format_loop rec None f st'.
Proof.
  intros HE HO H. cbn [format_loop]. change (isspace 37) with false. change (37 =? chr "%") with true.
  cbv iota. by rewrite HE, HO, H.
Qed.

Lemma fmt_lit c bp f t ce re : isspace c = false -> (c =? chr "%") = false ->
  format_loop rec None (c :: f) (mk_strp (c :: bp) t ce re) = format_loop rec None f (mk_strp bp t ce re).
Proof.
  intros H1 H2. cbn [format_loop]. rewrite H1, H2. unfold sp_literal. cbn [sp_bp at_ nth].
  by rewrite Z.eqb_refl.
Qed.

Lemma conv_year y bp t ce re : 0 <= y <= 9999 ->
  conversion rec (chr "Y") 0 (mk_strp (pad4 y ++ bp) t ce re) =
  Some (mk_strp bp (set_year (y - 1900) t) ce (-1)).
Proof.
  intros H. change (conversion rec (chr "Y") 0 (mk_strp (pad4 y ++ bp) t ce re)) with
    ('(i, bp') ← conv_num (pad4 y ++ bp) 0 9999; Some (mk_strp bp' (set_year (i - 1900) t) ce (-1))).
  by rewrite conv_num_pad4.
Qed.

Lemma conv_two n bp lo hi set t ce re : 0 <= lo <= n -> n <= hi -> 10 <= hi < 100 ->
  sp_conv (mk_strp (pad2 n ++ bp) t ce re) lo hi set = Some (mk_strp bp (set n t) ce re).
Proof. intros H1 H2 H3. unfold sp_conv. cbn [sp_bp sp_tm sp_century sp_relyear]. by rewrite conv_num_pad2. Qed.

Lemma fmt_date y m d bp f t ce re : 0 <= y <= 9999 -> 1 <= m <= 12 -> 1 <= d <= 31 ->
  format_loop rec None (str "%Y-%m-%d" ++ f) (mk_strp (pad4 y ++ 45 :: pad2 m ++ 45 :: pad2 d ++ bp) t ce re) =
  format_loop rec None f (mk_strp bp (set_mday d (set_mon (m - 1) (set_year (y - 1900) t))) ce (-1)).
Proof.
  intros Hy Hm Hd. change (str "%Y-%m-%d" ++ f) with (37 :: chr "Y" :: 45 :: 37 :: chr "m" :: 45 :: 37 :: chr "d" :: f).
  erewrite fmt_conv; [|done..|by apply conv_year]. rewrite fmt_lit by done.
  erewrite fmt_conv; [|done..|apply (conv_two m _ 1 12 (fun v => set_mon (v - 1))); lia]. rewrite fmt_lit by done.
  by erewrite fmt_conv; [|done..|apply (conv_two d _ 1 31 set_mday); lia].
Qed.

Lemma fmt_hhmm h m bp f t ce re : 0 <= h <= 23 -> 0 <= m <= 59 ->
  format_loop rec None (str "T%H:%M" ++ f) (mk_strp (84 :: pad2 h ++ 58 :: pad2 m ++ bp) t ce re) =
  format_loop rec None f (mk_strp bp (set_min m (set_hour h t)) ce re).
Proof.
  intros Hh Hm. change (str "T%H:%M" ++ f) with (84 :: 37 :: chr "H" :: 58 :: 37 :: chr "M" :: f).
  rewrite fmt_lit by done. erewrite fmt_conv; [|done..|apply (conv_two h _ 0 23 set_hour); lia].
  rewrite fmt_lit by done. by erewrite fmt_conv; [|done..|apply (conv_two m _ 0 59 set_min); lia].
Qed.

Lemma fmt_sec s bp f t ce re : 0 <= s <= 61 ->
  format_loop rec None (str ":%S" ++ f) (mk_strp (58 :: pad2 s ++ bp) t ce re) =
  format_loop rec None f (mk_strp bp (set_sec s t) ce re).
Proof.
  intros Hs. change (str ":%S" ++ f) with (58 :: 37 :: chr "S" :: f). rewrite fmt_lit by done.
  by erewrite fmt_conv; [|done..|apply (conv_two s _ 0 61 set_sec); lia].
Qed.
End Steps.

Lemma strptime_stamp x : stamp_ok x ->
  strptime (pad4 (s_year x) ++ 45 :: pad2 (s_mon x) ++ 45 :: pad2 (s_day x) ++
            84 :: pad2 (s_hour x) ++ 58 :: pad2 (s_min x) ++ 58 :: pad2 (s_sec x) ++ [])
    (str "%Y-%m-%dT%H:%M:%S") tm_zero = Some (stamp_tm x, []).
Proof.
  intros (Hy & Hm & Hd & Hh & Hmin & Hs). unfold strptime.
  change (str "%Y-%m-%dT%H:%M:%S") with (str "%Y-%m-%d" ++ str "T%H:%M" ++ str ":%S" ++ []).
  rewrite fmt_date, fmt_hhmm, fmt_sec by lia. done.
Qed.

(** The seconds of a UTC time since 1970. *)
Definition stamp_time (x : stamp) : Z :=
  ((civil_days (s_year x) (s_mon x) (s_day x) * 24 + s_hour x) * 60 + s_min x) * 60 + s_sec x.

Definition utc (z : bool) : list Z := if z then str "Z" else str "UTC".

Lemma parse_digits mktime z a b c d e f g h i j k l m n :
  parse_absolute_time mktime ([a; b; c; d; e; f; g; h; i; j; k; l; m; n] ++ utc z) =
  match strptime [a; b; c; d; 45; e; f; 45; g; h; 84; i; j; 58; k; l; 58; m; n] (str "%Y-%m-%dT%H:%M:%S") tm_zero with
  | Some (t, []) =>
      if timegm (set_wday (-1) t) =? -1 then Err SSH_ERR_INVALID_FORMAT
      else Ok (u64 (timegm (set_wday (-1) t)))
  | _ => Err SSH_ERR_INVALID_FORMAT
  end.
Proof.
  unfold parse_absolute_time. set (s := _ ++ _).
  assert (AbsTime.utc_suffix s = (true, 14)) as -> by (subst s; destruct z; vm_compute; done).
  assert (absolute_format s 14 = Some ([a; b; c; d; 45; e; f; 45; g; h; 84; i; j; 58; k; l; 58; m; n],
    str "%Y-%m-%dT%H:%M:%S")) as -> by (subst s; destruct z; vm_compute; done).
  destruct (strptime _ _ _) as [[t [|? ?]]|]; [|done..]. by rewrite andb_true_r.
Qed.

Lemma parse_stamp mktime x z : stamp_ok x ->
  parse_absolute_time mktime (stamp_text x ++ utc z) =
  if timegm (stamp_tm x) =? -1 then Err SSH_ERR_INVALID_FORMAT else Ok (u64 (timegm (stamp_tm x))).
Proof.
  intros Hx. pose proof (strptime_stamp x Hx) as H. unfold stamp_text, pad4, pad2 in *. cbn [app] in H.
  match goal with |- context [_ ++ utc z] => cbn [app] end.
  etransitivity; [apply (parse_digits mktime z)|]. by rewrite H.
Qed.

(** From 1970 on. *)
Lemma time_from_1970 (mktime : tm -> Z * Z) (x : stamp) (z : bool)
    (Hok : stamp_ok x) (Hyear : 1970 <= s_year x) :
  parse_absolute_time mktime (stamp_text x ++ utc z) = Ok (stamp_time x).
Proof.
  rewrite parse_stamp by done. destruct Hok as (Hy & Hm & Hd & Hh & Hmin & Hs).
  rewrite timegm_civil by (cbn; lia). cbn [stamp_tm tm_sec tm_min tm_hour tm_mday tm_mon tm_year].
  replace (s_year x - 1900 + 1900) with (s_year x) by lia. replace (s_mon x - 1 + 1) with (s_mon x) by lia.
  fold (stamp_time x). assert (0 <= stamp_time x < 2 ^ 64) as Hr.
  { unfold stamp_time. pose proof (civil_range (s_year x) (s_mon x) (s_day x)). lia. }
  rewrite (proj2 (Z.eqb_neq _ _)) by lia. by rewrite wrap_small.
Qed.

(** Before 1970. *)
Lemma time_before_1970 (mktime : tm -> Z * Z) (x : stamp) (z : bool)
    (Hok : stamp_ok x) (Hyear : s_year x < 1970) :
  exists t, parse_absolute_time mktime (stamp_text x ++ utc z) = Ok t /\
    if 1900 <=? s_year x then t < 366 * 86400 + 86400 else 2 ^ 31 * 365 * 86400 <= t.
Proof.
  rewrite parse_stamp by done. destruct Hok as (Hy & Hm & Hd & Hh & Hmin & Hs).
  assert (exists yd md, timegm (stamp_tm x) =
    (((yd + md + (s_day x - 1)) * 24 + s_hour x) * 60 + s_min x) * 60 + s_sec x /\ 0 <= md <= 335 /\
    (if 1900 <=? s_year x then yd = 0 else 2 ^ 31 * 365 <= yd <= 2 ^ 32 * 366)) as (yd & md & -> & Hmd & Hyd).
  { unfold timegm. cbn [stamp_tm tm_sec tm_min tm_hour tm_mday tm_mon tm_year].
    rewrite !Z.gtb_ltb. rewrite !(proj2 (Z.ltb_ge _ _)) by lia. cbn [orb].
    rewrite month_days by lia. eexists _, _. split; [done|]. split.
    - destruct (Z.ltb_spec (s_mon x - 1) 2); [|destruct (is_leap _)]; dlia.
    - destruct (Z.leb_spec 1900 (s_year x)).
      + rewrite wrap_small by lia. by replace (Z.to_nat _) with O by lia.
      + assert (u32 (s_year x - 1900) = 2 ^ 32 + (s_year x - 1900)) as ->
          by (unfold wrap; rewrite <- (Z_mod_plus_full _ 1), Z.mod_small; lia).
        split; [etransitivity; [|apply year_loop_grows]; lia|].
        etransitivity; [apply year_loop_upper|]. lia. }
  eexists. split.
  - rewrite (proj2 (Z.eqb_neq _ _)) by (destruct (1900 <=? s_year x); lia). done.
  - rewrite wrap_small by (destruct (1900 <=? s_year x); lia). destruct (1900 <=? s_year x); lia.
Qed.

(** C25: a UTC time YYYYMMDDHHMMSSZ (or UTC) of the years 1970 to 9999 is
    parsed as the seconds since 1970 of the Gregorian calendar, leap days and
    the leap second included (a day beyond the end of a month counts into the
    next).  Years before 1970 are not: from 1900 to 1969 the year is ignored,
    and a time before 1900 becomes one more than two thousand million years in
    the future, because bsd-timegm compares the negative year with an unsigned
    counter; a key that expired in 1899 never expires. *)
Theorem absolute_time (mktime : tm -> Z * Z) (x : stamp) (z : bool) (Hok : stamp_ok x) :
  exists t, parse_absolute_time mktime (stamp_text x ++ utc z) = Ok t /\
    if 1970 <=? s_year x then t = stamp_time x
    else if 1900 <=? s_year x then t < 366 * 86400 + 86400
    else 2 ^ 31 * 365 * 86400 <= t.
Proof.
  destruct (Z.leb_spec 1970 (s_year x)) as [H|H].
  - exists (stamp_time x). split; [by apply time_from_1970|done].
  - by apply time_before_1970.
Qed.

Lemma absolute_time_witness :
  (exists t, parse_absolute_time demo_mktime (str "20380119031408Z") = Ok t /\ t = 2147483648) /\
  (exists t, parse_absolute_time demo_mktime (str "18991231235959UTC") = Ok t /\ 2 ^ 31 * 365 * 86400 <= t).
Proof.
  split.
  - apply (absolute_time demo_mktime (mk_stamp 2038 1 19 3 14 8) true).
    apply (bool_decide_unpack (stamp_ok _)). vm_compute. done.
  - apply (absolute_time demo_mktime (mk_stamp 1899 12 31 23 59 59) false).
    apply (bool_decide_unpack (stamp_ok _)). vm_compute. done.
Defined.
