(* ===== verification/AuthOptions.v ===== *)
(** * Options of authorized keys and certificates: [auth-options.c]

    What a key or a certificate restricts and permits: parsing of the options
    of an authorized_keys line and of the options of a certificate, merging of
    the two, and the encoding with which they are passed between the processes
    of the server.  An array with its length is a list.  Allocations that may
    fail draw their answer from the state of the computation. *)

From S2P Require Import Prelude Ssherr Sshbuf SshbufGetput SshbufWire Cstring Match KexNames.
From S2P Require Import Addr AddrMatch SshkeyNames PacketRead Misc AbsTime.

Definition SSH_AUTHOPT_PERMIT_MAX : Z := 4096.
Definition SSH_AUTHOPT_ENV_MAX : Z := 1024.
Definition NI_MAXHOST : Z := 1025.

(** struct sshauthopt. *)
Record sshauthopt := mk_sshauthopt {
  permit_port_forwarding_flag : Z;
  permit_agent_forwarding_flag : Z;
  permit_x11_forwarding_flag : Z;
  permit_pty_flag : Z;
  permit_user_rc : Z;
  restricted : Z;
  valid_before : Z;
  cert_authority : Z;
  cert_principals : option (list Z);
  force_tun_device : Z;
  force_command : option (list Z);
  env : list (list Z);
  permitopen : list (list Z);
  permitlisten : list (list Z);
  required_from_host_cert : option (list Z);
  required_from_host_keys : option (list Z);
  no_require_user_presence : Z;
  require_verify : Z }.

#[export] Instance sshauthopt_eq_dec : EqDecision sshauthopt.
Proof. solve_decision. Defined.

Definition set_permit_port_forwarding_flag (v : Z) (o : sshauthopt) : sshauthopt :=
  mk_sshauthopt v (permit_agent_forwarding_flag o) (permit_x11_forwarding_flag o)
    (permit_pty_flag o) (permit_user_rc o) (restricted o) (valid_before o) (cert_authority o)
    (cert_principals o) (force_tun_device o) (force_command o) (env o) (permitopen o)
    (permitlisten o) (required_from_host_cert o) (required_from_host_keys o)
    (no_require_user_presence o) (require_verify o).
Definition set_permit_agent_forwarding_flag (v : Z) (o : sshauthopt) : sshauthopt :=
  mk_sshauthopt (permit_port_forwarding_flag o) v (permit_x11_forwarding_flag o)
    (permit_pty_flag o) (permit_user_rc o) (restricted o) (valid_before o) (cert_authority o)
    (cert_principals o) (force_tun_device o) (force_command o) (env o) (permitopen o)
    (permitlisten o) (required_from_host_cert o) (required_from_host_keys o)
    (no_require_user_presence o) (require_verify o).
Definition set_permit_x11_forwarding_flag (v : Z) (o : sshauthopt) : sshauthopt :=
  mk_sshauthopt (permit_port_forwarding_flag o) (permit_agent_forwarding_flag o) v
    (permit_pty_flag o) (permit_user_rc o) (restricted o) (valid_before o) (cert_authority o)
    (cert_principals o) (force_tun_device o) (force_command o) (env o) (permitopen o)
    (permitlisten o) (required_from_host_cert o) (required_from_host_keys o)
    (no_require_user_presence o) (require_verify o).
Definition set_permit_pty_flag (v : Z) (o : sshauthopt) : sshauthopt :=
  mk_sshauthopt (permit_port_forwarding_flag o) (permit_agent_forwarding_flag o)
    (permit_x11_forwarding_flag o) v (permit_user_rc o) (restricted o) (valid_before o)
    (cert_authority o) (cert_principals o) (force_tun_device o) (force_command o) (env o)
    (permitopen o) (permitlisten o) (required_from_host_cert o) (required_from_host_keys o)
    (no_require_user_presence o) (require_verify o).
Definition set_permit_user_rc (v : Z) (o : sshauthopt) : sshauthopt :=
  mk_sshauthopt (permit_port_forwarding_flag o) (permit_agent_forwarding_flag o)
    (permit_x11_forwarding_flag o) (permit_pty_flag o) v (restricted o) (valid_before o)
    (cert_authority o) (cert_principals o) (force_tun_device o) (force_command o) (env o)
    (permitopen o) (permitlisten o) (required_from_host_cert o) (required_from_host_keys o)
    (no_require_user_presence o) (require_verify o).
Definition set_restricted (v : Z) (o : sshauthopt) : sshauthopt :=
  mk_sshauthopt (permit_port_forwarding_flag o) (permit_agent_forwarding_flag o)
    (permit_x11_forwarding_flag o) (permit_pty_flag o) (permit_user_rc o) v (valid_before o)
    (cert_authority o) (cert_principals o) (force_tun_device o) (force_command o) (env o)
    (permitopen o) (permitlisten o) (required_from_host_cert o) (required_from_host_keys o)
    (no_require_user_presence o) (require_verify o).
Definition set_valid_before (v : Z) (o : sshauthopt) : sshauthopt :=
  mk_sshauthopt (permit_port_forwarding_flag o) (permit_agent_forwarding_flag o)
    (permit_x11_forwarding_flag o) (permit_pty_flag o) (permit_user_rc o) (restricted o) v
    (cert_authority o) (cert_principals o) (force_tun_device o) (force_command o) (env o)
    (permitopen o) (permitlisten o) (required_from_host_cert o) (required_from_host_keys o)
    (no_require_user_presence o) (require_verify o).
Definition set_cert_authority (v : Z) (o : sshauthopt) : sshauthopt :=
  mk_sshauthopt (permit_port_forwarding_flag o) (permit_agent_forwarding_flag o)
    (permit_x11_forwarding_flag o) (permit_pty_flag o) (permit_user_rc o) (restricted o)
    (valid_before o) v (cert_principals o) (force_tun_device o) (force_command o) (env o)
    (permitopen o) (permitlisten o) (required_from_host_cert o) (required_from_host_keys o)
    (no_require_user_presence o) (require_verify o).
Definition set_cert_principals (v : option (list Z)) (o : sshauthopt) : sshauthopt :=
  mk_sshauthopt (permit_port_forwarding_flag o) (permit_agent_forwarding_flag o)
    (permit_x11_forwarding_flag o) (permit_pty_flag o) (permit_user_rc o) (restricted o)
    (valid_before o) (cert_authority o) v (force_tun_device o) (force_command o) (env o)
    (permitopen o) (permitlisten o) (required_from_host_cert o) (required_from_host_keys o)
    (no_require_user_presence o) (require_verify o).
Definition set_force_tun_device (v : Z) (o : sshauthopt) : sshauthopt :=
  mk_sshauthopt (permit_port_forwarding_flag o) (permit_agent_forwarding_flag o)
    (permit_x11_forwarding_flag o) (permit_pty_flag o) (permit_user_rc o) (restricted o)
    (valid_before o) (cert_authority o) (cert_principals o) v (force_command o) (env o)
    (permitopen o) (permitlisten o) (required_from_host_cert o) (required_from_host_keys o)
    (no_require_user_presence o) (require_verify o).
Definition set_force_command (v : option (list Z)) (o : sshauthopt) : sshauthopt :=
  mk_sshauthopt (permit_port_forwarding_flag o) (permit_agent_forwarding_flag o)
    (permit_x11_forwarding_flag o) (permit_pty_flag o) (permit_user_rc o) (restricted o)
    (valid_before o) (cert_authority o) (cert_principals o) (force_tun_device o) v (env o)
    (permitopen o) (permitlisten o) (required_from_host_cert o) (required_from_host_keys o)
    (no_require_user_presence o) (require_verify o).
Definition set_env (v : list (list Z)) (o : sshauthopt) : sshauthopt :=
  mk_sshauthopt (permit_port_forwarding_flag o) (permit_agent_forwarding_flag o)
    (permit_x11_forwarding_flag o) (permit_pty_flag o) (permit_user_rc o) (restricted o)
    (valid_before o) (cert_authority o) (cert_principals o) (force_tun_device o) (force_command
    o) v (permitopen o) (permitlisten o) (required_from_host_cert o) (required_from_host_keys o)
    (no_require_user_presence o) (require_verify o).
Definition set_permitopen (v : list (list Z)) (o : sshauthopt) : sshauthopt :=
  mk_sshauthopt (permit_port_forwarding_flag o) (permit_agent_forwarding_flag o)
    (permit_x11_forwarding_flag o) (permit_pty_flag o) (permit_user_rc o) (restricted o)
    (valid_before o) (cert_authority o) (cert_principals o) (force_tun_device o) (force_command
    o) (env o) v (permitlisten o) (required_from_host_cert o) (required_from_host_keys o)
    (no_require_user_presence o) (require_verify o).
Definition set_permitlisten (v : list (list Z)) (o : sshauthopt) : sshauthopt :=
  mk_sshauthopt (permit_port_forwarding_flag o) (permit_agent_forwarding_flag o)
    (permit_x11_forwarding_flag o) (permit_pty_flag o) (permit_user_rc o) (restricted o)
    (valid_before o) (cert_authority o) (cert_principals o) (force_tun_device o) (force_command
    o) (env o) (permitopen o) v (required_from_host_cert o) (required_from_host_keys o)
    (no_require_user_presence o) (require_verify o).
Definition set_required_from_host_cert (v : option (list Z)) (o : sshauthopt) : sshauthopt :=
  mk_sshauthopt (permit_port_forwarding_flag o) (permit_agent_forwarding_flag o)
    (permit_x11_forwarding_flag o) (permit_pty_flag o) (permit_user_rc o) (restricted o)
    (valid_before o) (cert_authority o) (cert_principals o) (force_tun_device o) (force_command
    o) (env o) (permitopen o) (permitlisten o) v (required_from_host_keys o)
    (no_require_user_presence o) (require_verify o).
Definition set_required_from_host_keys (v : option (list Z)) (o : sshauthopt) : sshauthopt :=
  mk_sshauthopt (permit_port_forwarding_flag o) (permit_agent_forwarding_flag o)
    (permit_x11_forwarding_flag o) (permit_pty_flag o) (permit_user_rc o) (restricted o)
    (valid_before o) (cert_authority o) (cert_principals o) (force_tun_device o) (force_command
    o) (env o) (permitopen o) (permitlisten o) (required_from_host_cert o) v
    (no_require_user_presence o) (require_verify o).
Definition set_no_require_user_presence (v : Z) (o : sshauthopt) : sshauthopt :=
  mk_sshauthopt (permit_port_forwarding_flag o) (permit_agent_forwarding_flag o)
    (permit_x11_forwarding_flag o) (permit_pty_flag o) (permit_user_rc o) (restricted o)
    (valid_before o) (cert_authority o) (cert_principals o) (force_tun_device o) (force_command
    o) (env o) (permitopen o) (permitlisten o) (required_from_host_cert o)
    (required_from_host_keys o) v (require_verify o).
Definition set_require_verify (v : Z) (o : sshauthopt) : sshauthopt :=
  mk_sshauthopt (permit_port_forwarding_flag o) (permit_agent_forwarding_flag o)
    (permit_x11_forwarding_flag o) (permit_pty_flag o) (permit_user_rc o) (restricted o)
    (valid_before o) (cert_authority o) (cert_principals o) (force_tun_device o) (force_command
    o) (env o) (permitopen o) (permitlisten o) (required_from_host_cert o)
    (required_from_host_keys o) (no_require_user_presence o) v.

Definition calloc_sshauthopt : sshauthopt :=
  mk_sshauthopt 0 0 0 0 0 0 0 0 None 0 None [] [] [] None None 0 0.

(** [None]: the allocation failed. *)
Definition sshauthopt_new : AM (option sshauthopt) :=
  ok ← alloc; mret (if (ok : bool) then Some (set_force_tun_device (-1) calloc_sshauthopt) else None).

Definition keys_defaults (o : sshauthopt) : sshauthopt :=
  set_permit_user_rc 1 (set_permit_pty_flag 1 (set_permit_x11_forwarding_flag 1
    (set_permit_agent_forwarding_flag 1 (set_permit_port_forwarding_flag 1 o)))).

Definition sshauthopt_new_with_keys_defaults : AM (option sshauthopt) :=
  ret ← sshauthopt_new; mret (keys_defaults <$> ret).

Fixpoint dup_loop (src : list (list Z)) : AM (option (list (list Z))) :=
  match src with
  | [] => mret (Some [])
  | s :: src =>
      d ← strdup s;
      match d with
      | None => mret None
      | Some d => r ← dup_loop src; mret (cons d <$> r)
      end
  end.

(** [None]: -1. *)
Definition dup_strings (src : list (list Z)) : AM (option (list (list Z))) :=
  if bool_decide (src = []) then mret (Some [])
  else ok ← alloc; if negb ok then mret None else dup_loop src.

(** ** The options of an authorized_keys line *)

Abbreviation no_memory := (str "memory allocation failed").

Section Parse.
Variable getservbyname : list Z -> option Z.
Variable mktime : tm -> Z * Z.

(** What follows the option and the list, or -1 with [*errstrp], which is not
    set when the string cannot be unquoted. *)
Definition handle_permit (opts : list Z) (allow_bare_port : bool) (permits : list (list Z))
    : AM (option (list Z) + (list Z * list (list Z))) :=
  if zlen permits >? SSH_AUTHOPT_PERMIT_MAX then mret (inl (Some (str "too many permission directives")))
  else
    d ← opt_dequote opts;
    match d with
    | inl _ => mret (inl None)
    | inr (opt, opts) =>
        let bare := allow_bare_port && (if (cut (str ":") opt).2 is None then true else false) in
        ok ← (if bare then alloc else mret true);
        if negb ok then mret (inl (Some no_memory))
        else
          let opt := if bare then str "*:" ++ opt else opt in
          ok ← alloc;
          if negb ok then mret (inl (Some no_memory))
          else
            match hpdelim2 (Some opt) with
            | None => mret (inl (Some (str "invalid permission hostname")))
            | Some (host, cp) =>
                if zlen host >=? NI_MAXHOST then mret (inl (Some (str "invalid permission hostname")))
                else
                  let port_ok :=
                    match cp with
                    | None => false
                    | Some (_, cp) => bool_decide (cp = str "*") || negb (a2port getservbyname cp <=? 0)
                    end in
                  if negb port_ok then mret (inl (Some (str "invalid permission port")))
                  else
                    ok ← alloc;
                    if negb ok then mret (inl (Some no_memory))
                    else mret (inr (opts, permits ++ [opt]))
            end
    end.

Abbreviation step := (AM (list Z + (sshauthopt * list Z))).

Definition flag (v : bool) : Z := if v then 1 else 0.

Definition restrict (ret : sshauthopt) : sshauthopt :=
  set_permit_user_rc 0 (set_permit_pty_flag 0 (set_permit_x11_forwarding_flag 0
    (set_permit_agent_forwarding_flag 0 (set_permit_port_forwarding_flag 0 (set_restricted 1 ret))))).

(** The flag options, in the order they are tried. *)
Definition flag_option (ret : sshauthopt) (opts : list Z) : option (sshauthopt * list Z) :=
  let try_ (name : string) (negate : bool) (set : bool -> sshauthopt) (k : option (sshauthopt * list Z)) :=
    match opt_flag (str name) negate opts with
    | Some (r, opts) => Some (set r, opts)
    | None => k
    end in
  try_ "restrict" false (fun _ => restrict ret) (
  try_ "cert-authority" false (fun r => set_cert_authority (flag r) ret) (
  try_ "port-forwarding" true (fun r => set_permit_port_forwarding_flag (flag r) ret) (
  try_ "agent-forwarding" true (fun r => set_permit_agent_forwarding_flag (flag r) ret) (
  try_ "x11-forwarding" true (fun r => set_permit_x11_forwarding_flag (flag r) ret) (
  try_ "touch-required" true (fun r => set_no_require_user_presence (flag (negb r)) ret) (
  try_ "verify-required" true (fun r => set_require_verify (flag r) ret) (
  try_ "pty" true (fun r => set_permit_pty_flag (flag r) ret) (
  try_ "user-rc" true (fun r => set_permit_user_rc (flag r) ret) None)))))))).

(** A string that may be given once. *)
Definition once_option (name : string) (old : option (list Z)) (set : option (list Z) -> sshauthopt)
    (opts : list Z) : step :=
  if old is Some _ then mret (inl (str "multiple " ++ [34] ++ str name ++ [34] ++ str " clauses"))
  else
    d ← opt_dequote opts;
    match d with
    | inl e => mret (inl e)
    | inr (s, opts) => mret (inr (set (Some s), opts))
    end.

Definition expiry_option (ret : sshauthopt) (opts : list Z) : step :=
  d ← opt_dequote opts;
  match d with
  | inl e => mret (inl e)
  | inr (opt, opts) =>
      match parse_absolute_time mktime opt with
      | Ok vb =>
          if vb =? 0 then mret (inl (str "invalid expires time"))
          else if (valid_before ret =? 0) || (vb <? valid_before ret)
          then mret (inr (set_valid_before vb ret, opts))
          else mret (inr (ret, opts))
      | _ => mret (inl (str "invalid expires time"))
      end
  end.

Definition environment_option (ret : sshauthopt) (opts : list Z) : step :=
  if zlen (env ret) >? SSH_AUTHOPT_ENV_MAX then mret (inl (str "too many environment strings"))
  else
    d ← opt_dequote opts;
    match d with
    | inl e => mret (inl e)
    | inr (opt, opts) =>
        match cut (str "=") opt with
        | (_, None) => mret (inl (str "invalid environment string"))
        | (cp, Some _) =>
            ok ← alloc;
            if negb ok then mret (inl no_memory)
            else if negb (valid_env_name cp) then mret (inl (str "invalid environment string"))
            else if existsb (env_is cp) (env ret) then mret (inr (ret, opts))
            else
              ok ← alloc;
              if negb ok then mret (inl no_memory)
              else mret (inr (set_env (env ret ++ [opt]) ret, opts))
        end
    end.

Definition permit_option (opts : list Z) (allow_bare_port : bool) (permits : list (list Z))
    (set : list (list Z) -> sshauthopt) : step :=
  r ← handle_permit opts allow_bare_port permits;
  match r with
  | inl e => mret (inl (default (str "unknown error") e))
  | inr (opts, permits) => mret (inr (set permits, opts))
  end.

Definition tunnel_option (ret : sshauthopt) (opts : list Z) : step :=
  d ← opt_dequote opts;
  match d with
  | inl e => mret (inl e)
  | inr (opt, opts) =>
      let tun := a2tun1 opt in
      if tun =? SSH_TUNID_ERR then mret (inl (str "invalid tun device"))
      else mret (inr (set_force_tun_device tun ret, opts))
  end.

(** One option; a string that is none is left for the caller to reject. *)
Definition parse_option (ret : sshauthopt) (opts : list Z) : step :=
  match flag_option ret opts with
  | Some r => mret (inr r)
  | None =>
      if opt_match opts (str "command") is Some opts then
        once_option "command" (force_command ret) (fun s => set_force_command s ret) opts
      else if opt_match opts (str "principals") is Some opts then
        once_option "principals" (cert_principals ret) (fun s => set_cert_principals s ret) opts
      else if opt_match opts (str "from") is Some opts then
        once_option "from" (required_from_host_keys ret) (fun s => set_required_from_host_keys s ret) opts
      else if opt_match opts (str "expiry-time") is Some opts then expiry_option ret opts
      else if opt_match opts (str "environment") is Some opts then environment_option ret opts
      else if opt_match opts (str "permitopen") is Some opts then
        permit_option opts false (permitopen ret) (fun l => set_permitopen l ret)
      else if opt_match opts (str "permitlisten") is Some opts then
        permit_option opts true (permitlisten ret) (fun l => set_permitlisten l ret)
      else if opt_match opts (str "tunnel") is Some opts then tunnel_option ret opts
      else mret (inr (ret, opts))
  end.

Definition ends_options (opts : list Z) : bool :=
  match opts with [] => true | c :: _ => is_blank c end.

(** The loop over the options; every round but the last consumes a comma. *)
Fixpoint parse_loop (fuel : nat) (ret : sshauthopt) (opts : list Z) : AM (list Z + sshauthopt) :=
  match fuel with
  | O => crash
  | S fuel =>
      if ends_options opts then mret (inr ret)
      else
        r ← parse_option ret opts;
        match r with
        | inl errstr => mret (inl errstr)
        | inr (ret, opts) =>
            if ends_options opts then mret (inr ret)
            else if negb (at_ opts 0 =? chr ",") then mret (inl (str "unknown key option"))
            else
              let opts := tail opts in
              if bool_decide (opts = []) then mret (inl (str "unexpected end-of-options"))
              else parse_loop fuel ret opts
        end
  end.

(** The options, or [*errstrp]. *)
Definition sshauthopt_parse (opts : option (list Z)) : AM (list Z + sshauthopt) :=
  ret ← sshauthopt_new_with_keys_defaults;
  match ret with
  | None => mret (inl no_memory)
  | Some ret =>
      match opts with
      | None => mret (inr ret)
      | Some opts => parse_loop (S (length opts)) ret opts
      end
  end.
End Parse.

(** ** The options of a certificate *)

(** Reads from a buffer with contents [m]; [want]: whether the value is
    copied out. *)
Definition get_cstring_at (want : bool) (m : list Z) : AM (list Z * list Z) :=
  match parse_cstring m with
  | inl e => throw e
  | inr p =>
      ok ← (if want then alloc else mret true);
      if (ok : bool) then mret p else throw SSH_ERR_ALLOC_FAIL
  end.

(** sshbuf_froms. *)
Definition froms_at (m : list Z) : AM (list Z * list Z) :=
  match parse_string m with
  | inl e => throw e
  | inr p => ok ← alloc; if (ok : bool) then mret p else throw SSH_ERR_ALLOC_FAIL
  end.

Section Cert.
Context (nids : curve_nids).
Context (has_scope : bool) (getaddrinfo : list Z -> option (sockaddr * Z)) (INET6_ADDRSTRLEN : Z).

(** An extension, if it is known. *)
Definition cert_extension (name : list Z) (opts : sshauthopt) : option sshauthopt :=
  if bool_decide (name = str "no-touch-required") then Some (set_no_require_user_presence 1 opts)
  else if bool_decide (name = str "permit-X11-forwarding") then Some (set_permit_x11_forwarding_flag 1 opts)
  else if bool_decide (name = str "permit-agent-forwarding") then Some (set_permit_agent_forwarding_flag 1 opts)
  else if bool_decide (name = str "permit-port-forwarding") then Some (set_permit_port_forwarding_flag 1 opts)
  else if bool_decide (name = str "permit-pty") then Some (set_permit_pty_flag 1 opts)
  else if bool_decide (name = str "permit-user-rc") then Some (set_permit_user_rc 1 opts)
  else None.

(** A critical option: the options and what is left of its data, [inr None]
    if it is not known, [inl tt] if it is invalid. *)
Definition cert_critical (name data : list Z) (opts : sshauthopt)
    : AM (unit + option (sshauthopt * list Z)) :=
  if bool_decide (name = str "verify-required") then mret (inr (Some (set_require_verify 1 opts, data)))
  else if bool_decide (name = str "force-command") then
    d ← try_ (get_cstring_at true data);
    match d with
    | inl _ => mret (inl tt)
    | inr (command, data) =>
        if force_command opts is Some _ then mret (inl tt)
        else mret (inr (Some (set_force_command (Some command) opts, data)))
    end
  else if bool_decide (name = str "source-address") then
    d ← try_ (get_cstring_at true data);
    match d with
    | inl _ => mret (inl tt)
    | inr (allowed, data) =>
        if required_from_host_cert opts is Some _ then mret (inl tt)
        else
          ok ← alloc;
          if addr_match_cidr_list has_scope getaddrinfo INET6_ADDRSTRLEN ok None allowed =? -1
          then mret (inl tt)
          else mret (inr (Some (set_required_from_host_cert (Some allowed) opts, data)))
    end
  else mret (inr None).

(** The loop over the options; [None]: -1.  Every round consumes at least the
    two length fields. *)
Fixpoint cert_options (fuel : nat) (opts : sshauthopt) (c : list Z) (extensions critical crit : bool)
    : AM (option sshauthopt) :=
  match fuel with
  | O => crash
  | S fuel =>
      if bool_decide (c = []) then mret (Some opts)
      else
        p ← try_ ('(name, c) ← get_cstring_at true c; '(data, c) ← froms_at c; mret (name, data, c));
        match p with
        | inl _ => mret None
        | inr (name, data, c) =>
            let ext := if extensions then cert_extension name opts else None in
            f ← match ext with
                | Some opts => mret (inr (Some (opts, data)))
                | None => if critical then cert_critical name data opts else mret (inr None)
                end;
            match f with
            | inl _ => mret None
            | inr None => if crit then mret None else cert_options fuel opts c extensions critical crit
            | inr (Some (opts, data)) =>
                if negb (bool_decide (data = [])) then mret None
                else cert_options fuel opts c extensions critical crit
            end
        end
  end.

Definition OPTIONS_CRITICAL : Z := 1.
Definition OPTIONS_EXTENSIONS : Z := 2.

Definition cert_option_list (opts : sshauthopt) (oblob : list Z) (which : Z) (crit : bool)
    : AM (option sshauthopt) :=
  ok ← alloc;
  if negb ok then mret None
  else cert_options (S (length oblob)) opts oblob (negb (Z.land which OPTIONS_EXTENSIONS =? 0))
         (negb (Z.land which OPTIONS_CRITICAL =? 0)) crit.

(** The parts of a certificate the options come from. *)
Record certopts := mk_certopts { c_type : Z; c_critical : list Z; c_extensions : list Z }.

Definition SSH2_CERT_TYPE_USER : Z := 1.

(** A key: its type and its certificate. *)
Definition sshauthopt_from_cert (k : option (Z * option certopts)) : AM (option sshauthopt) :=
  match k with
  | Some (type, Some cert) =>
      if negb (sshkey_type_is_cert nids type) || negb (c_type cert =? SSH2_CERT_TYPE_USER) then mret None
      else
        ret ← sshauthopt_new;
        match ret with
        | None => mret None
        | Some ret =>
            ret ← cert_option_list ret (c_critical cert) OPTIONS_CRITICAL true;
            match ret with
            | None => mret None
            | Some ret => cert_option_list ret (c_extensions cert) OPTIONS_EXTENSIONS false
            end
        end
  | _ => mret None
  end.
End Cert.

(** ** Merging *)

(** [Some None]: no string; [None]: the allocation failed. *)
Definition dup_opt (s : option (list Z)) : AM (option (option (list Z))) :=
  match s with
  | None => mret (Some None)
  | Some s => d ← strdup s; mret (Some <$> d)
  end.

(** Binds a value whose absence ends in an error [e]. *)
Definition or_fail {A B} (e : list Z) (m : AM (option A)) (k : A -> AM (list Z + B)) : AM (list Z + B) :=
  a ← m; match a with None => mret (inl e) | Some a => k a end.

Definition OPTFLAG_AND (x : sshauthopt -> Z) (primary additional : sshauthopt) : Z :=
  flag ((x primary =? 1) && (x additional =? 1)).
Definition OPTFLAG_OR (x : sshauthopt -> Z) (primary additional : sshauthopt) : Z :=
  flag ((x primary =? 1) || (x additional =? 1)).

Definition prefer (p a : option (list Z)) : option (list Z) := if p is Some _ then p else a.
Definition prefer_list (p a : list (list Z)) : list (list Z) := if bool_decide (p = []) then a else p.

Definition merge_expiry (primary additional : Z) : Z :=
  let vb := if negb (primary =? 0) then primary else 0 in
  if negb (additional =? 0) && (additional <? vb) then additional else vb.

(** The options, or [*errstrp]. *)
Definition sshauthopt_merge (primary additional : sshauthopt) : AM (list Z + sshauthopt) :=
  or_fail no_memory sshauthopt_new (fun ret =>
  or_fail no_memory (dup_opt (prefer (required_from_host_cert primary) (required_from_host_cert additional))) (fun cert =>
  let ret := set_required_from_host_cert cert ret in
  or_fail no_memory (dup_opt (prefer (required_from_host_keys primary) (required_from_host_keys additional))) (fun keys =>
  let ret := set_required_from_host_keys keys ret in
  let ret := set_force_tun_device (if force_tun_device primary =? -1 then force_tun_device additional
                                   else force_tun_device primary) ret in
  or_fail no_memory (dup_strings (prefer_list (env primary) (env additional))) (fun e =>
  let ret := set_env e ret in
  or_fail no_memory (dup_strings (prefer_list (permitopen primary) (permitopen additional))) (fun po =>
  let ret := set_permitopen po ret in
  or_fail no_memory (dup_strings (prefer_list (permitlisten primary) (permitlisten additional))) (fun pl =>
  let ret := set_permitlisten pl ret in
  let ret := set_permit_port_forwarding_flag (OPTFLAG_AND permit_port_forwarding_flag primary additional) ret in
  let ret := set_permit_agent_forwarding_flag (OPTFLAG_AND permit_agent_forwarding_flag primary additional) ret in
  let ret := set_permit_x11_forwarding_flag (OPTFLAG_AND permit_x11_forwarding_flag primary additional) ret in
  let ret := set_permit_pty_flag (OPTFLAG_AND permit_pty_flag primary additional) ret in
  let ret := set_permit_user_rc (OPTFLAG_AND permit_user_rc primary additional) ret in
  let ret := set_no_require_user_presence (OPTFLAG_AND no_require_user_presence primary additional) ret in
  let ret := set_require_verify (OPTFLAG_OR require_verify primary additional) ret in
  let ret := set_valid_before (merge_expiry (valid_before primary) (valid_before additional)) ret in
  match force_command primary, force_command additional with
  | Some p, Some a =>
      if bool_decide (p = a) then
        or_fail no_memory (strdup p) (fun d => mret (inr (set_force_command (Some d) ret)))
      else mret (inl (str "forced command options do not match"))
  | Some c, None | None, Some c =>
      or_fail no_memory (strdup c) (fun d => mret (inr (set_force_command (Some d) ret)))
  | None, None => mret (inr ret)
  end)))))).

(** [None]: an allocation failed. *)
Definition sshauthopt_copy (orig : sshauthopt) : AM (option sshauthopt) :=
  r ← or_fail no_memory sshauthopt_new (fun ret =>
      or_fail no_memory (dup_opt (cert_principals orig)) (fun principals =>
      or_fail no_memory (dup_opt (force_command orig)) (fun command =>
      or_fail no_memory (dup_opt (required_from_host_cert orig)) (fun cert =>
      or_fail no_memory (dup_opt (required_from_host_keys orig)) (fun keys =>
      or_fail no_memory (dup_strings (env orig)) (fun e =>
      or_fail no_memory (dup_strings (permitopen orig)) (fun po =>
      or_fail no_memory (dup_strings (permitlisten orig)) (fun pl =>
      mret (inr (mk_sshauthopt
        (permit_port_forwarding_flag orig) (permit_agent_forwarding_flag orig)
        (permit_x11_forwarding_flag orig) (permit_pty_flag orig) (permit_user_rc orig)
        (restricted orig) (valid_before orig) (cert_authority orig) principals
        (force_tun_device orig) command e po pl cert keys
        (no_require_user_presence orig) (require_verify orig)))))))))));
  mret (match r with inl _ => None | inr o => Some o end).

(** ** The encoding between the processes *)

(** Appends to a buffer with contents [m]. *)
Definition put_at (bs m : list Z) : AM (list Z) :=
  if zlen m + zlen bs >? SSHBUF_SIZE_MAX then throw SSH_ERR_NO_BUFFER_SPACE
  else ok ← alloc; if (ok : bool) then mret (m ++ bs) else throw SSH_ERR_ALLOC_FAIL.
Definition put_u8_at (v : Z) (m : list Z) : AM (list Z) := put_at [u8 v] m.
Definition put_u32_at (v : Z) (m : list Z) : AM (list Z) := put_at (POKE_U32 v) m.
Definition put_u64_at (v : Z) (m : list Z) : AM (list Z) := put_at (POKE_U64 v) m.
Definition put_string_at (v m : list Z) : AM (list Z) :=
  if zlen v >? SSHBUF_SIZE_MAX - 4 then throw SSH_ERR_NO_BUFFER_SPACE else put_at (wire_string v) m.

Definition take_at (n : Z) (m : list Z) : AM (list Z * list Z) :=
  if zlen m <? n then throw SSH_ERR_MESSAGE_INCOMPLETE
  else mret (slice m 0 n, drop (Z.to_nat n) m).
Definition get_u8_at (m : list Z) : AM (Z * list Z) := '(b, m) ← take_at 1 m; mret (at_ b 0, m).
Definition get_u32_at (m : list Z) : AM (Z * list Z) := '(b, m) ← take_at 4 m; mret (PEEK_U32 b, m).
Definition get_u64_at (m : list Z) : AM (Z * list Z) := '(b, m) ← take_at 8 m; mret (PEEK_U64 b, m).

Fixpoint put_strings (a : list (list Z)) (b : list Z) : AM (list Z) :=
  match a with
  | [] => mret b
  | s :: a => b ← put_string_at s b; put_strings a b
  end.

Definition serialise_array (m : list Z) (arr : list (list Z)) : AM (list Z) :=
  if zlen arr >? INT_MAX then throw SSH_ERR_INTERNAL_ERROR
  else
    ok ← alloc; if negb ok then throw SSH_ERR_ALLOC_FAIL else
    b ← put_strings arr [];
    m ← put_u32_at (zlen arr) m;
    put_string_at b m.

(** [n] strings; each has a length field, so that the buffer bounds the
    rounds. *)
Fixpoint get_strings (fuel : nat) (n : Z) (b : list Z) : AM (list (list Z)) :=
  match fuel with
  | O => crash
  | S fuel =>
      if n =? 0 then mret []
      else '(s, b) ← get_cstring_at true b; r ← get_strings fuel (n - 1) b; mret (s :: r)
  end.

Definition deserialise_array (m : list Z) : AM (list (list Z) * list Z) :=
  '(n, m) ← get_u32_at m;
  '(b, m) ← froms_at m;
  if n >? INT_MAX then throw SSH_ERR_INVALID_FORMAT
  else
    ok ← (if n >? 0 then alloc else mret true);
    if negb ok then throw SSH_ERR_ALLOC_FAIL
    else a ← get_strings (S (length b)) n b; mret (a, m).

Definition serialise_nullable_string (s : option (list Z)) (m : list Z) : AM (list Z) :=
  m ← put_u8_at (flag (bool_decide (s = None))) m;
  put_string_at (default [] s) m.

Definition deserialise_nullable_string (m : list Z) : AM (option (list Z) * list Z) :=
  '(f, m) ← get_u8_at m;
  '(s, m) ← get_cstring_at (f =? 0) m;
  mret (if f =? 0 then Some s else None, m).

(** [untrusted]: what the process that talks to the network is told. *)
Definition sshauthopt_serialise (opts : sshauthopt) (untrusted : bool) (m : list Z) : AM (list Z) :=
  m ← put_u8_at (permit_port_forwarding_flag opts) m;
  m ← put_u8_at (permit_agent_forwarding_flag opts) m;
  m ← put_u8_at (permit_x11_forwarding_flag opts) m;
  m ← put_u8_at (permit_pty_flag opts) m;
  m ← put_u8_at (permit_user_rc opts) m;
  m ← put_u8_at (restricted opts) m;
  m ← put_u8_at (cert_authority opts) m;
  m ← put_u8_at (no_require_user_presence opts) m;
  m ← put_u8_at (require_verify opts) m;
  m ← put_u64_at (valid_before opts) m;
  m ← put_u8_at (flag (force_tun_device opts =? -1)) m;
  m ← put_u32_at (if force_tun_device opts <? 0 then 0 else force_tun_device opts) m;
  m ← serialise_nullable_string (if untrusted then Some (str "yes") else cert_principals opts) m;
  m ← serialise_nullable_string (if untrusted then Some (str "true") else force_command opts) m;
  m ← serialise_nullable_string (if untrusted then None else required_from_host_cert opts) m;
  m ← serialise_nullable_string (if untrusted then None else required_from_host_keys opts) m;
  m ← serialise_array m (if untrusted then [] else env opts);
  m ← serialise_array m (if untrusted then [] else permitopen opts);
  serialise_array m (if untrusted then [] else permitlisten opts).

(** The options and the rest of the buffer. *)
Definition sshauthopt_deserialise (m : list Z) : AM (sshauthopt * list Z) :=
  ok ← alloc; if negb ok then throw SSH_ERR_ALLOC_FAIL else
  '(f1, m) ← get_u8_at m;
  '(f2, m) ← get_u8_at m;
  '(f3, m) ← get_u8_at m;
  '(f4, m) ← get_u8_at m;
  '(f5, m) ← get_u8_at m;
  '(f6, m) ← get_u8_at m;
  '(f7, m) ← get_u8_at m;
  '(f8, m) ← get_u8_at m;
  '(f9, m) ← get_u8_at m;
  '(before, m) ← get_u64_at m;
  '(f, m) ← get_u8_at m;
  '(tmp, m) ← get_u32_at m;
  '(principals, m) ← deserialise_nullable_string m;
  '(command, m) ← deserialise_nullable_string m;
  '(cert, m) ← deserialise_nullable_string m;
  '(keys, m) ← deserialise_nullable_string m;
  '(e, m) ← deserialise_array m;
  '(po, m) ← deserialise_array m;
  '(pl, m) ← deserialise_array m;
  mret (mk_sshauthopt f1 f2 f3 f4 f5 f6 before f7 principals (if f =? 0 then i32 tmp else -1)
          command e po pl cert keys f8 f9, m).

Definition demo_line : list Z :=
  str "restrict,pty,command=" ++ [34] ++ str "ls " ++ [92; 34] ++ str "x" ++ [92; 34; 34] ++
  str ",no-touch-required,permitopen=" ++ [34] ++ str "[::1]:80" ++ [34] ++
  str ",expiry-time=" ++ [34] ++ str "20300101Z" ++ [34] ++ str " ssh-rsa".

Example parse_ex :
  (sshauthopt_parse demo_getservbyname demo_mktime (Some demo_line) []).1 =
  Ok (inr (mk_sshauthopt 0 0 0 1 0 1 1893456000 0 None (-1)
    (Some (str "ls " ++ [34] ++ str "x" ++ [34])) [] [str "[::1]:80"] [] None None 1 0)).
Proof. by vm_compute. Qed.
