(* ===== verification/AuthOptionsThms.v ===== *)
(** * Options of keys and certificates: what is parsed, merged and passed on *)

From S2P Require Import Prelude Ssherr Sshbuf SshbufGetput SshbufWire Cstring Match KexNames.
From S2P Require Import Addr AddrMatch SshkeyNames PacketRead Misc MiscThms AbsTime AuthOptions.

(** ** The encoding between processes

    A writer [f] and a reader [g] of a value [a]: whatever the writer appends,
    the reader takes off again. *)

Definition codec {A} (f : list Z -> AM (list Z)) (g : list Z -> AM (A * list Z)) (a : A) : Prop :=
  forall m o m' o', f m o = (Ok m', o') ->
    exists w, m' = m ++ w /\ zlen m' <= SSHBUF_SIZE_MAX /\ forall rest, g (w ++ rest) [] = (Ok (a, rest), []).

Lemma put_at_ok bs m o m' o' : put_at bs m o = (Ok m', o') -> m' = m ++ bs /\ zlen m' <= SSHBUF_SIZE_MAX.
Proof.
  unfold put_at. rewrite Z.gtb_ltb. destruct (Z.ltb_spec SSHBUF_SIZE_MAX (zlen m + zlen bs)); [done|].
  intros (k & o1 & _ & H1)%bind_inv_ok. destruct k; [|done]. injection H1 as <- <-.
  rewrite zlen_app. split; [done|lia].
Qed.

Lemma take_at_app w rest o : take_at (zlen w) (w ++ rest) o = (Ok (w, rest), o).
Proof.
  unfold take_at. pose proof (zlen_nonneg rest). rewrite zlen_app, (proj2 (Z.ltb_ge _ _)) by lia.
  rewrite slice_prefix. unfold zlen. by rewrite Nat2Z.id, drop_app_length.
Qed.

Lemma codec_u8 v : 0 <= v < 256 -> codec (put_u8_at v) get_u8_at v.
Proof.
  intros Hv m o m' o' [-> L]%put_at_ok. exists [u8 v]. split; [done|]. split; [done|]. intros rest.
  unfold get_u8_at. rewrite (bind_ok _ _ _ _ _ (take_at_app [u8 v] rest [])). cbn [at_ nth].
  by rewrite wrap_small.
Qed.

Lemma flag_range b : 0 <= flag b < 256.
Proof. destruct b; unfold flag; lia. Qed.

Lemma codec_u32 v : 0 <= v < 2 ^ 32 -> codec (put_u32_at v) get_u32_at v.
Proof.
  intros Hv m o m' o' [-> L]%put_at_ok. exists (POKE_U32 v). split; [done|]. split; [done|]. intros rest.
  unfold get_u32_at. rewrite (bind_ok _ _ _ _ _ (take_at_app (POKE_U32 v) rest [])).
  by rewrite peek_poke_u32.
Qed.

Lemma codec_u64 v : 0 <= v < 2 ^ 64 -> codec (put_u64_at v) get_u64_at v.
Proof.
  intros Hv m o m' o' [-> L]%put_at_ok. exists (POKE_U64 v). split; [done|]. split; [done|]. intros rest.
  unfold get_u64_at. rewrite (bind_ok _ _ _ _ _ (take_at_app (POKE_U64 v) rest [])).
  by rewrite peek_poke_u64.
Qed.

(** A C string has no NUL. *)
Definition cstr (s : list Z) : Prop := memchr s 0 = None.

Lemma put_string_ok v m o m' o' : put_string_at v m o = (Ok m', o') ->
  m' = m ++ wire_string v /\ zlen m' <= SSHBUF_SIZE_MAX.
Proof. unfold put_string_at. destruct (_ >? _); [done|]. apply put_at_ok. Qed.

Lemma wire_fits m v : zlen (m ++ wire_string v) <= SSHBUF_SIZE_MAX -> zlen (wire_string v) <= SSHBUF_SIZE_MAX.
Proof. rewrite zlen_app. pose proof (zlen_nonneg m). lia. Qed.

Lemma get_cstring_wire want v rest : cstr v -> zlen (wire_string v) <= SSHBUF_SIZE_MAX ->
  get_cstring_at want (wire_string v ++ rest) [] = (Ok (v, rest), []).
Proof. intros N L. unfold get_cstring_at. rewrite parse_cstring_wire by done. by destruct want. Qed.

Lemma codec_nullable s : from_option cstr True s ->
  codec (serialise_nullable_string s) deserialise_nullable_string s.
Proof.
  intros N m o m' o' (m1 & o1 & H1 & H)%bind_inv_ok. apply put_string_ok in H as [-> L].
  destruct (codec_u8 (flag (bool_decide (s = None))) (flag_range _) _ _ _ _ H1)
    as (w & -> & L1 & G).
  exists (w ++ wire_string (default [] s)). split; [by rewrite app_assoc|]. split; [done|]. intros rest.
  unfold deserialise_nullable_string. rewrite <- app_assoc. rewrite (bind_ok _ _ _ _ _ (G _)).
  apply wire_fits in L. destruct s as [s|].
  - rewrite bool_decide_eq_false_2 by done.
    rewrite (bind_ok _ _ _ _ _ (get_cstring_wire (flag false =? 0) s rest N L)). done.
  - rewrite bool_decide_eq_true_2 by done.
    rewrite (bind_ok _ _ _ _ _ (get_cstring_wire (flag true =? 0) [] rest eq_refl L)). done.
Qed.

Lemma put_strings_ok a : forall b o b' o', put_strings a b o = (Ok b', o') ->
  b' = b ++ concat (wire_string <$> a) /\ (zlen b <= SSHBUF_SIZE_MAX -> zlen b' <= SSHBUF_SIZE_MAX).
Proof.
  induction a as [|s a IH]; intros b o b' o'; cbn [put_strings].
  - intros [= <- <-]. by rewrite app_nil_r.
  - intros (b1 & o1 & [-> L]%put_string_ok & H)%bind_inv_ok. apply IH in H as [-> L2].
    split; [by rewrite <- app_assoc|]. intros _. by apply L2.
Qed.

Lemma wires_cons s a : concat (wire_string <$> s :: a) = wire_string s ++ concat (wire_string <$> a).
Proof. done. Qed.

Lemma zlen_wires a : zlen a * 4 <= zlen (concat (wire_string <$> a)).
Proof.
  induction a as [|s a IH]; [done|]. rewrite wires_cons.
  rewrite zlen_app, zlen_cons, zlen_wire_string. pose proof (zlen_nonneg s). lia.
Qed.

Lemma get_strings_wire a : Forall cstr a -> zlen (concat (wire_string <$> a)) <= SSHBUF_SIZE_MAX ->
  forall fuel, (length a < fuel)%nat ->
  get_strings fuel (zlen a) (concat (wire_string <$> a)) [] = (Ok a, []).
Proof.
  induction 1 as [|s a Hs Ha IH]; intros L fuel Hf; (destruct fuel as [|fuel]; [lia|]); [done|].
  rewrite wires_cons in *. cbn [get_strings]. rewrite zlen_app in L.
  pose proof (zlen_nonneg (concat (wire_string <$> a))). pose proof (zlen_nonneg (wire_string s)).
  pose proof (zlen_nonneg a). rewrite zlen_cons.
  rewrite (proj2 (Z.eqb_neq _ 0)) by lia.
  rewrite (bind_ok _ _ _ _ _ (get_cstring_wire true s _ Hs ltac:(lia))).
  replace (_ - 1) with (zlen a) by lia.
  by rewrite (bind_ok _ _ _ _ _ (IH ltac:(lia) fuel ltac:(cbn in Hf; lia))).
Qed.

Lemma codec_array a : Forall cstr a -> codec (fun m => serialise_array m a) deserialise_array a.
Proof.
  intros Ha m o m' o'. unfold serialise_array. rewrite Z.gtb_ltb.
  destruct (Z.ltb_spec INT_MAX (zlen a)) as [|Hn]; [done|]. intros (k & o1 & _ & H)%bind_inv_ok.
  destruct (negb k); [done|]. apply bind_inv_ok in H as (b & o2 & [-> Lb]%put_strings_ok & H).
  cbn [app] in *. specialize (Lb ltac:(done)). apply bind_inv_ok in H as (m1 & o3 & H1 & [-> L]%put_string_ok).
  pose proof (zlen_nonneg a). pose proof (zlen_wires a) as Hw.
  destruct (codec_u32 (zlen a) ltac:(unfold INT_MAX in *; lia) _ _ _ _ H1) as (w & -> & _ & G).
  set (b := concat (wire_string <$> a)) in *.
  exists (w ++ wire_string b). split; [by rewrite app_assoc|]. split; [done|]. intros rest.
  apply wire_fits in L. rewrite zlen_wire_string in L.
  unfold deserialise_array. rewrite <- app_assoc. rewrite (bind_ok _ _ _ _ _ (G _)).
  assert (froms_at (wire_string b ++ rest) [] = (Ok (b, rest), [])) as Hf
    by (unfold froms_at; rewrite parse_wire_string by lia; done).
  rewrite (bind_ok _ _ _ _ _ Hf). rewrite Z.gtb_ltb, (proj2 (Z.ltb_ge INT_MAX _)) by done.
  assert (get_strings (S (length b)) (zlen a) b [] = (Ok a, [])) as Hg.
  { apply get_strings_wire; [done..|]. unfold zlen in Hw. lia. }
  destruct (zlen a >? 0).
  - erewrite bind_ok by done. cbn [negb]. by rewrite (bind_ok _ _ _ _ _ Hg).
  - change ((mret true : AM bool) ≫= ?k) with (k true). cbv beta. cbn [negb]. by rewrite (bind_ok _ _ _ _ _ Hg).
Qed.

(** Options as C keeps them: flags of a byte, strings without NUL. *)
Record opts_wf (o : sshauthopt) : Prop := {
  wf_flags : Forall (fun v => 0 <= v < 256)
    [permit_port_forwarding_flag o; permit_agent_forwarding_flag o; permit_x11_forwarding_flag o;
     permit_pty_flag o; permit_user_rc o; restricted o; cert_authority o;
     no_require_user_presence o; require_verify o];
  wf_before : 0 <= valid_before o < 2 ^ 64;
  wf_tun : -1 <= force_tun_device o < 2 ^ 31;
  wf_strings : Forall (from_option cstr True)
    [cert_principals o; force_command o; required_from_host_cert o; required_from_host_keys o];
  wf_arrays : Forall (Forall cstr) [env o; permitopen o; permitlisten o] }.

(** What the other process is told. *)
Definition told (untrusted : bool) (o : sshauthopt) : sshauthopt :=
  if untrusted then
    set_cert_principals (Some (str "yes")) (set_force_command (Some (str "true"))
      (set_required_from_host_cert None (set_required_from_host_keys None
        (set_env [] (set_permitopen [] (set_permitlisten [] o))))))
  else o.

Lemma told_wf u o : opts_wf o -> opts_wf (told u o).
Proof.
  intros [H1 H2 H3 H4 H5]. destruct u; [|done]. unfold told.
  split; [done..| |]; repeat constructor.
Qed.

Lemma serialise_told o u m : sshauthopt_serialise o u m = sshauthopt_serialise (told u o) false m.
Proof. by destruct u. Qed.

(** The next field written, by the codec [C]. *)
Ltac field H C G :=
  let m1 := fresh "m" in let o1 := fresh "o" in let H1 := fresh "H" in
  let w := fresh "w" in let L := fresh "L" in
  apply bind_inv_ok in H as (m1 & o1 & H1 & H); destruct (C _ _ _ _ H1) as (w & -> & L & G); clear H1 L.

(** The next field read. *)
Ltac taken G := erewrite bind_ok by apply G; cbv beta iota.

Lemma serialise_codec o : opts_wf o -> codec (sshauthopt_serialise o false) sshauthopt_deserialise o.
Proof.
  intros [Hf Hb Ht Hs Ha] m oom m' oom' H.
  apply Forall_cons in Hf as [F1 Hf]. apply Forall_cons in Hf as [F2 Hf]. apply Forall_cons in Hf as [F3 Hf].
  apply Forall_cons in Hf as [F4 Hf]. apply Forall_cons in Hf as [F5 Hf]. apply Forall_cons in Hf as [F6 Hf].
  apply Forall_cons in Hf as [F7 Hf]. apply Forall_cons in Hf as [F8 Hf]. apply Forall_cons in Hf as [F9 _].
  apply Forall_cons in Hs as [S1 Hs]. apply Forall_cons in Hs as [S2 Hs]. apply Forall_cons in Hs as [S3 Hs].
  apply Forall_cons in Hs as [S4 _].
  apply Forall_cons in Ha as [A1 Ha]. apply Forall_cons in Ha as [A2 Ha]. apply Forall_cons in Ha as [A3 _].
  assert (0 <= (if force_tun_device o <? 0 then 0 else force_tun_device o) < 2 ^ 32) as T
    by (destruct (Z.ltb_spec (force_tun_device o) 0); lia).
  unfold sshauthopt_serialise in H.
  field H (codec_u8 _ F1) G1. field H (codec_u8 _ F2) G2. field H (codec_u8 _ F3) G3.
  field H (codec_u8 _ F4) G4. field H (codec_u8 _ F5) G5. field H (codec_u8 _ F6) G6.
  field H (codec_u8 _ F7) G7. field H (codec_u8 _ F8) G8. field H (codec_u8 _ F9) G9.
  field H (codec_u64 _ Hb) G10. field H (codec_u8 _ (flag_range (force_tun_device o =? -1))) G11.
  field H (codec_u32 _ T) G12.
  field H (codec_nullable _ S1) G13. field H (codec_nullable _ S2) G14.
  field H (codec_nullable _ S3) G15. field H (codec_nullable _ S4) G16.
  field H (codec_array _ A1) G17. field H (codec_array _ A2) G18.
  destruct (codec_array _ A3 _ _ _ _ H) as (wl & -> & L & G19).
  eexists. split; [by rewrite <- !app_assoc|]. split; [by rewrite <- ?app_assoc in L |- *|]. intros rest.
  unfold sshauthopt_deserialise. erewrite bind_ok by done. cbn [negb]. rewrite <- !app_assoc.
  taken G1. taken G2. taken G3.
  taken G4. taken G5. taken G6.
  taken G7. taken G8. taken G9.
  taken G10. taken G11. taken G12.
  taken G13. taken G14. taken G15.
  taken G16. taken G17. taken G18.
  taken G19. unfold mret, M_ret. do 3 f_equal.
  replace (if flag (force_tun_device o =? -1) =? 0 then _ else -1) with (force_tun_device o); [by destruct o|].
  destruct (Z.eqb_spec (force_tun_device o) (-1)) as [E|E]; [by rewrite E|]. cbn [flag Z.eqb].
  destruct (Z.ltb_spec (force_tun_device o) 0); [lia|]. by rewrite swrap_small by lia.
Qed.

(** C24: the options sshauthopt_serialise writes are the ones
    sshauthopt_deserialise reads, whatever follows them in the message; the
    process that talks to the network is told the flags and the expiry time
    but not the commands, principals, addresses, environment and forwarding
    lists. *)
Theorem authopt_roundtrip (o : sshauthopt) (untrusted : bool) (m : list Z) (oom : list bool)
    (m' : list Z) (oom' : list bool)
    (Hwf : opts_wf o) (Hput : sshauthopt_serialise o untrusted m oom = (Ok m', oom')) :
  exists w, m' = m ++ w /\
    forall rest, sshauthopt_deserialise (w ++ rest) [] = (Ok (told untrusted o, rest), []).
Proof.
  rewrite serialise_told in Hput.
  destruct (serialise_codec (told untrusted o) (told_wf _ _ Hwf) _ _ _ _ Hput) as (w & H1 & _ & H2). eauto.
Qed.

Definition sample_opts : sshauthopt :=
  mk_sshauthopt 0 1 0 1 0 1 1893456000 0 (Some (str "root,admin")) SSH_TUNID_ANY (Some (str "ls"))
    [str "A=1"; str "B=2"] [str "host:80"] [] None (Some (str "10.0.0.0/8")) 1 0.

Lemma authopt_roundtrip_witness :
  exists m', sshauthopt_serialise sample_opts false (str "x") [] = (Ok (str "x" ++ m'), []) /\
    sshauthopt_deserialise (m' ++ [7]) [] = (Ok (sample_opts, [7]), []).
Proof.
  destruct (sshauthopt_serialise sample_opts false (str "x") []) as [[m'| |] oom'] eqn:E;
    vm_compute in E; [|done..]. injection E as <- <-.
  edestruct (authopt_roundtrip sample_opts false (str "x") []) as (w & H1 & H2).
  - split; [|cbn; lia|cbn; unfold SSH_TUNID_ANY; lia| |].
    + repeat apply Forall_cons_2; [cbn; lia..|constructor].
    + repeat apply Forall_cons_2; [done..|constructor].
    + repeat apply Forall_cons_2; try done; repeat constructor.
  - vm_compute. reflexivity.
  - exists w. split; [by rewrite <- H1|apply (H2 [7])].
Defined.

(** ** Merging *)

Lemma or_fail_inv {A B} e (m : AM (option A)) (k : A -> AM (list Z + B)) o b o' :
  or_fail e m k o = (Ok (inr b), o') ->
  exists a o1, m o = (Ok (Some a), o1) /\ k a o1 = (Ok (inr b), o').
Proof. intros (a & o1 & H1 & H)%bind_inv_ok. destruct a as [a|]; [eauto|done]. Qed.

Lemma strdup_ok s o d o' : strdup s o = (Ok (Some d), o') -> d = s.
Proof. intros (k & o1 & _ & H)%bind_inv_ok. destruct k; [|done]. by injection H as <- <-. Qed.

Lemma dup_opt_ok s o d o' : dup_opt s o = (Ok (Some d), o') -> d = s.
Proof.
  destruct s as [s|]; cbn [dup_opt]; [|by intros [= <- <-]].
  intros (x & o1 & H1 & H)%bind_inv_ok. destruct x as [x|]; [|done].
  apply strdup_ok in H1 as ->. by injection H as <- <-.
Qed.

Lemma dup_loop_ok src : forall o d o', dup_loop src o = (Ok (Some d), o') -> d = src.
Proof.
  induction src as [|s src IH]; intros o d o'; cbn [dup_loop]; [by intros [= <- <-]|].
  intros (x & o1 & H1 & H)%bind_inv_ok. destruct x as [x|]; [|done]. apply strdup_ok in H1 as ->.
  apply bind_inv_ok in H as (r & o2 & H2 & H). destruct r as [r|]; [|done].
  apply IH in H2 as ->. by injection H as <- <-.
Qed.

Lemma dup_strings_ok src o d o' : dup_strings src o = (Ok (Some d), o') -> d = src.
Proof.
  unfold dup_strings. case_bool_decide as E; [by intros [= <- <-]|].
  intros (k & o1 & _ & H)%bind_inv_ok. destruct k; [|done]. by apply dup_loop_ok in H.
Qed.

Lemma sshauthopt_new_ok o r o' : sshauthopt_new o = (Ok (Some r), o') -> r = set_force_tun_device (-1) calloc_sshauthopt.
Proof. intros (k & o1 & _ & H)%bind_inv_ok. destruct k; [|done]. by injection H as <- <-. Qed.

(** What merging gives when it succeeds. *)
Definition merged (p a : sshauthopt) : sshauthopt :=
  mk_sshauthopt (OPTFLAG_AND permit_port_forwarding_flag p a) (OPTFLAG_AND permit_agent_forwarding_flag p a)
    (OPTFLAG_AND permit_x11_forwarding_flag p a) (OPTFLAG_AND permit_pty_flag p a) (OPTFLAG_AND permit_user_rc p a)
    0 (merge_expiry (valid_before p) (valid_before a)) 0 None
    (if force_tun_device p =? -1 then force_tun_device a else force_tun_device p)
    (prefer (force_command p) (force_command a))
    (prefer_list (env p) (env a)) (prefer_list (permitopen p) (permitopen a))
    (prefer_list (permitlisten p) (permitlisten a))
    (prefer (required_from_host_cert p) (required_from_host_cert a))
    (prefer (required_from_host_keys p) (required_from_host_keys a))
    (OPTFLAG_AND no_require_user_presence p a) (OPTFLAG_OR require_verify p a).

Definition commands_agree (p a : sshauthopt) : Prop :=
  forall c d, force_command p = Some c -> force_command a = Some d -> c = d.

Lemma merge_ok p a o r o' : sshauthopt_merge p a o = (Ok (inr r), o') -> r = merged p a /\ commands_agree p a.
Proof.
  unfold sshauthopt_merge, commands_agree, merged.
  intros (n & o1 & ->%sshauthopt_new_ok & H)%or_fail_inv. apply or_fail_inv in H as (c & o2 & ->%dup_opt_ok & H).
  apply or_fail_inv in H as (k & o3 & ->%dup_opt_ok & H). apply or_fail_inv in H as (e & o4 & ->%dup_strings_ok & H).
  apply or_fail_inv in H as (po & o5 & ->%dup_strings_ok & H).
  apply or_fail_inv in H as (pl & o6 & ->%dup_strings_ok & H).
  destruct (force_command p) as [fp|], (force_command a) as [fa|].
  - case_bool_decide as E; [|done]. subst fa.
    apply or_fail_inv in H as (d & o7 & ->%strdup_ok & H). injection H as <- <-. split; [done|]. congruence.
  - apply or_fail_inv in H as (d & o7 & ->%strdup_ok & H). injection H as <- <-. split; [done|]. congruence.
  - apply or_fail_inv in H as (d & o7 & ->%strdup_ok & H). injection H as <- <-. split; [done|]. congruence.
  - injection H as <- <-. split; [done|]. congruence.
Qed.

(** The flags that permit something. *)
Definition permissions : list (sshauthopt -> Z) :=
  [permit_port_forwarding_flag; permit_agent_forwarding_flag; permit_x11_forwarding_flag;
   permit_pty_flag; permit_user_rc; no_require_user_presence].

Lemma flag_true b : flag b = 1 <-> b = true.
Proof. by destruct b. Qed.

Lemma optflag_and x p a : OPTFLAG_AND x p a = 1 <-> x p = 1 /\ x a = 1.
Proof. unfold OPTFLAG_AND. rewrite flag_true, andb_true_iff, !Z.eqb_eq. done. Qed.

Lemma optflag_or x p a : OPTFLAG_OR x p a = 1 <-> x p = 1 \/ x a = 1.
Proof. unfold OPTFLAG_OR. rewrite flag_true, orb_true_iff, !Z.eqb_eq. done. Qed.


Definition sample_cert : sshauthopt :=
  mk_sshauthopt 1 1 0 1 1 0 0 0 None (-1) (Some (str "ls")) [] [] [] (Some (str "10.1.0.0/16")) None 0 1.


(** C23: an expiry time of the second set of options is dropped when the
    first has none: the options merged from a key without an expiry time and
    other options with one never expire, although the earliest time is meant
    to win. *)
Theorem merge_expiry_lost (p a : sshauthopt) (oom : list bool) (r : sshauthopt) (oom' : list bool)
    (Hmerge : sshauthopt_merge p a oom = (Ok (inr r), oom'))
    (Hp : valid_before p = 0) (Ha : 0 <= valid_before a) :
  valid_before r = 0.
Proof.
  apply merge_ok in Hmerge as [-> _]. cbn. unfold merge_expiry. rewrite Hp. cbn [negb Z.eqb].
  rewrite (proj2 (Z.ltb_ge (valid_before a) 0)) by done. by rewrite andb_false_r.
Qed.

Lemma merge_expiry_lost_witness :
  exists r, sshauthopt_merge sample_cert sample_opts [] = (Ok (inr r), []) /\
    valid_before sample_opts = 1893456000 /\ valid_before r = 0.
Proof.
  destruct (sshauthopt_merge sample_cert sample_opts []) as [[[e|r]| |] oom'] eqn:E;
    [vm_compute in E; done| |vm_compute in E; done..].
  exists r. split; [by vm_compute in E; injection E as <- <-|]. split; [done|].
  apply (merge_expiry_lost sample_cert sample_opts [] r oom' E); [done|vm_compute; done].
Defined.
