(* ===== verification/AuthParse.v ===== *)
(** * The options of an authorized_keys line

    A line of options is the sequence of the effects of its options, and the
    parser returns on every line. *)

From S2P Require Import Prelude Ssherr Sshbuf Cstring Match KexNames Misc MiscThms AbsTime AuthOptions.

(** ** Options and their text *)

Inductive kflag := FPort | FAgent | FX11 | FTouch | FVerify | FPty | FRc.

Inductive kopt :=
| KRestrict
| KCertAuthority
| KFlag (f : kflag) (v : bool)
| KCommand (s : list Z)
| KPrincipals (s : list Z)
| KFrom (s : list Z)
| KExpiry (s : list Z)
| KEnvironment (s : list Z)
| KPermitOpen (s : list Z)
| KPermitListen (s : list Z)
| KTunnel (s : list Z).

Definition flag_name (f : kflag) : list Z :=
  match f with
  | FPort => str "port-forwarding"
  | FAgent => str "agent-forwarding"
  | FX11 => str "x11-forwarding"
  | FTouch => str "touch-required"
  | FVerify => str "verify-required"
  | FPty => str "pty"
  | FRc => str "user-rc"
  end.

(** Quotes are escaped. *)
Definition esc (s : list Z) : list Z := concat ((fun c => if c =? 34 then [92; 34] else [c]) <$> s).
Definition quote (s : list Z) : list Z := 34 :: esc s ++ [34].

Definition render (k : kopt) : list Z :=
  match k with
  | KRestrict => str "restrict"
  | KCertAuthority => str "cert-authority"
  | KFlag f v => (if v then [] else str "no-") ++ flag_name f
  | KCommand s => str "command=" ++ quote s
  | KPrincipals s => str "principals=" ++ quote s
  | KFrom s => str "from=" ++ quote s
  | KExpiry s => str "expiry-time=" ++ quote s
  | KEnvironment s => str "environment=" ++ quote s
  | KPermitOpen s => str "permitopen=" ++ quote s
  | KPermitListen s => str "permitlisten=" ++ quote s
  | KTunnel s => str "tunnel=" ++ quote s
  end.

Definition option_text (k : kopt) : list Z :=
  match k with
  | KCommand s | KPrincipals s | KFrom s | KExpiry s | KEnvironment s | KPermitOpen s | KPermitListen s
  | KTunnel s => s
  | _ => []
  end.

(** A backslash before the closing quote would escape it. *)
Definition text_ok (k : kopt) : Prop := last (option_text k) <> Some 92.

Fixpoint render_line (ks : list kopt) : list Z :=
  match ks with
  | [] => []
  | [k] => render k
  | k :: ks => render k ++ chr "," :: render_line ks
  end.

(** ** What an option does *)

Section Parse.
Context (getservbyname : list Z -> option Z) (mktime : tm -> Z * Z).

Definition set_flag (f : kflag) (v : bool) (o : sshauthopt) : sshauthopt :=
  match f with
  | FPort => set_permit_port_forwarding_flag (flag v) o
  | FAgent => set_permit_agent_forwarding_flag (flag v) o
  | FX11 => set_permit_x11_forwarding_flag (flag v) o
  | FTouch => set_no_require_user_presence (flag (negb v)) o
  | FVerify => set_require_verify (flag v) o
  | FPty => set_permit_pty_flag (flag v) o
  | FRc => set_permit_user_rc (flag v) o
  end.

Definition once (name : string) (old : option (list Z)) (new : sshauthopt) : list Z + sshauthopt :=
  if old is Some _ then inl (str "multiple " ++ [34] ++ str name ++ [34] ++ str " clauses") else inr new.

(** host:port or [host]:port, where the port may be a star. *)
Definition permit (s : list Z) (old : list (list Z)) (set : list (list Z) -> sshauthopt) : list Z + sshauthopt :=
  if zlen old >? SSH_AUTHOPT_PERMIT_MAX then inl (str "too many permission directives")
  else match hpdelim2 (Some s) with
       | Some (host, rest) =>
           if zlen host >=? NI_MAXHOST then inl (str "invalid permission hostname")
           else if (match rest with
                    | Some (_, p) => bool_decide (p = str "*") || negb (a2port getservbyname p <=? 0)
                    | None => false
                    end)
           then inr (set (old ++ [s])) else inl (str "invalid permission port")
       | None => inl (str "invalid permission hostname")
       end.

Definition effect (k : kopt) (o : sshauthopt) : list Z + sshauthopt :=
  match k with
  | KRestrict => inr (restrict o)
  | KCertAuthority => inr (set_cert_authority 1 o)
  | KFlag f v => inr (set_flag f v o)
  | KCommand s => once "command" (force_command o) (set_force_command (Some s) o)
  | KPrincipals s => once "principals" (cert_principals o) (set_cert_principals (Some s) o)
  | KFrom s => once "from" (required_from_host_keys o) (set_required_from_host_keys (Some s) o)
  | KExpiry s =>
      match parse_absolute_time mktime s with
      | Ok t => if t =? 0 then inl (str "invalid expires time")
                else inr (if (valid_before o =? 0) || (t <? valid_before o) then set_valid_before t o else o)
      | _ => inl (str "invalid expires time")
      end
  | KEnvironment s =>
      if zlen (env o) >? SSH_AUTHOPT_ENV_MAX then inl (str "too many environment strings")
      else let '(name, value) := cut (str "=") s in
           if (if value is None then true else negb (valid_env_name name))
           then inl (str "invalid environment string")
           else inr (if existsb (env_is name) (env o) then o else set_env (env o ++ [s]) o)
  | KPermitOpen s => permit s (permitopen o) (fun l => set_permitopen l o)
  | KPermitListen s =>
      permit (if (cut (str ":") s).2 is None then str "*:" ++ s else s) (permitlisten o)
        (fun l => set_permitlisten l o)
  | KTunnel s => if a2tun1 s =? SSH_TUNID_ERR then inl (str "invalid tun device")
                 else inr (set_force_tun_device (a2tun1 s) o)
  end.

Fixpoint effects (ks : list kopt) (o : sshauthopt) : list Z + sshauthopt :=
  match ks with
  | [] => inr o
  | k :: ks => match effect k o with inl e => inl e | inr o => effects ks o end
  end.

(** ** Unquoting *)

Lemma dequote_esc s rest : last s <> Some 92 -> dequote_loop (esc s ++ 34 :: rest) = Some (s, rest).
Proof.
  induction s as [|c s IH]; intros Hl; [done|]. unfold esc in *. cbn [fmap list_fmap concat].
  assert (last s <> Some 92) as Hs. { intros E. apply Hl. rewrite last_cons. by rewrite E. }
  specialize (IH Hs). destruct (Z.eqb_spec c 34) as [->|Hc]; cbn [app].
  - cbn [dequote_loop]. by rewrite IH.
  - cbn [dequote_loop]. rewrite (proj2 (Z.eqb_neq c 34)) by done.
    destruct s as [|d s].
    { cbn [fmap list_fmap concat app] in *. rewrite (proj2 (Z.eqb_neq c 92)) by (intros ->; by apply Hl). done. }
    cbn [fmap list_fmap concat] in *. destruct (Z.eqb_spec d 34) as [->|Hd]; cbn [app] in *.
    + change (92 =? 34) with false. rewrite andb_false_r. by rewrite IH.
    + rewrite (proj2 (Z.eqb_neq d 34)), andb_false_r by done. by rewrite IH.
Qed.

Lemma opt_dequote_quote s rest : last s <> Some 92 ->
  opt_dequote (quote s ++ rest) [] = (Ok (inr (s, rest)), []).
Proof.
  intros H. unfold quote. cbn [app opt_dequote]. change (negb (34 =? 34)) with false. cbv iota.
  erewrite bind_ok by done. cbn [negb]. rewrite <- app_assoc. cbn [app]. by rewrite dequote_esc.
Qed.

(** ** One option *)

Definition outcome (r : list Z + sshauthopt) (rest : list Z) : list Z + (sshauthopt * list Z) :=
  match r with inl e => inl e | inr o => inr (o, rest) end.

Lemma flag_option_flag f v o rest :
  flag_option o (render (KFlag f v) ++ rest) = Some (set_flag f v o, rest).
Proof. by destruct f, v; vm_compute. Qed.

Lemma once_run name old set s rest : last s <> Some 92 ->
  once_option name old set (quote s ++ rest) [] = (Ok (outcome (once name old (set (Some s))) rest), []).
Proof.
  intros H. unfold once_option, once. destruct old; [done|]. mstep (opt_dequote_quote s rest H). done.
Qed.

Lemma permit_run s old set rest bare : last s <> Some 92 ->
  permit_option getservbyname (quote s ++ rest) bare old set [] =
  (Ok (outcome (permit (if bare && (if (cut (str ":") s).2 is None then true else false)
                        then str "*:" ++ s else s) old set) rest), []).
Proof.
  intros H. unfold permit_option, handle_permit, permit.
  destruct (zlen old >? SSH_AUTHOPT_PERMIT_MAX); [done|].
  unfold mbind at 1, M_bind at 1. mstep (opt_dequote_quote s rest H). cbv beta iota zeta.
  destruct (bare && _).
  all: erewrite bind_ok by done; cbn [negb]; erewrite bind_ok by done; cbn [negb].
  all: destruct (hpdelim2 _) as [[host cp]|]; [|done]; destruct (zlen host >=? NI_MAXHOST); [done|].
  all: destruct cp as [[c p]|]; [|done]; cbv beta iota.
  all: destruct (bool_decide (p = str "*") || negb (a2port getservbyname p <=? 0)); [|done]; done.
Qed.

Lemma parse_option_render k o rest : text_ok k ->
  parse_option getservbyname mktime o (render k ++ rest) [] = (Ok (outcome (effect k o) rest), []).
Proof.
  unfold text_ok. intros H.
  destruct k as [| |f v|s|s|s|s|s|s|s|s]; cbn [render option_text effect] in *; rewrite <- ?app_assoc.
  - done.
  - done.
  - pose proof (flag_option_flag f v o rest) as E. cbn [render] in E. rewrite <- app_assoc in E.
    unfold parse_option. by rewrite E.
  - apply (once_run "command" (force_command o) (fun s => set_force_command s o) s rest H).
  - apply (once_run "principals" (cert_principals o) (fun s => set_cert_principals s o) s rest H).
  - apply (once_run "from" (required_from_host_keys o) (fun s => set_required_from_host_keys s o) s rest H).
  - change (parse_option getservbyname mktime o (str "expiry-time=" ++ quote s ++ rest)) with
      (expiry_option mktime o (quote s ++ rest)).
    unfold expiry_option. mstep (opt_dequote_quote s rest H).
    destruct (parse_absolute_time mktime s) as [t| |]; [|done..]. destruct (t =? 0); [done|]. by destruct (_ || _).
  - change (parse_option getservbyname mktime o (str "environment=" ++ quote s ++ rest)) with
      (environment_option o (quote s ++ rest)).
    unfold environment_option. destruct (_ >? _); [done|]. mstep (opt_dequote_quote s rest H).
    destruct (cut (str "=") s) as [name [v|]]; [|done]. erewrite bind_ok by done. cbn [negb].
    destruct (valid_env_name name); [|done]. cbn [negb]. by destruct (existsb _ _).
  - apply (permit_run s (permitopen o) (fun l => set_permitopen l o) rest false H).
  - etransitivity; [apply (permit_run s (permitlisten o) (fun l => set_permitlisten l o) rest true H)|].
    cbn [andb]. by destruct (cut (str ":") s).2.
  - change (parse_option getservbyname mktime o (str "tunnel=" ++ quote s ++ rest)) with
      (tunnel_option o (quote s ++ rest)).
    unfold tunnel_option. mstep (opt_dequote_quote s rest H). by destruct (_ =? _).
Qed.

(** ** A line of options *)

(** What follows the options: nothing, or a blank and the key. *)
Definition after_options (t : list Z) : Prop := ends_options t = true.

Lemma render_head k r : ends_options (render k ++ r) = false.
Proof. by destruct k as [| |[] []|s|s|s|s|s|s|s|s]. Qed.

Lemma render_line_head ks r : ks <> [] -> ends_options (render_line ks ++ r) = false.
Proof.
  destruct ks as [|k [|k' ks]]; [done|intros _; apply render_head|intros _].
  cbn [render_line]. rewrite <- app_assoc. apply render_head.
Qed.

Lemma length_render_line ks : (length ks <= length (render_line ks))%nat.
Proof.
  induction ks as [|k ks IH]; [done|]. assert (1 <= length (render k))%nat as Hk.
  { pose proof (render_head k []) as H. rewrite app_nil_r in H. destruct (render k); [done|cbn; lia]. }
  destruct ks as [|k' ks]; [cbn in *; lia|].
  change (render_line (k :: k' :: ks)) with (render k ++ chr "," :: render_line (k' :: ks)).
  rewrite length_app. cbn [length] in *. lia.
Qed.

Lemma parse_loop_line ks t : after_options t -> Forall text_ok ks -> ks <> [] -> forall fuel o,
  (length ks <= fuel)%nat ->
  parse_loop getservbyname mktime fuel o (render_line ks ++ t) [] = (Ok (effects ks o), []).
Proof.
  intros Ht Hk Hne. induction Hk as [|k ks Hk Hks IH]; [done|]. intros fuel o Hf.
  destruct fuel as [|fuel]; [cbn in Hf; lia|]. cbn [parse_loop effects]. rewrite render_line_head by done.
  destruct ks as [|k' ks].
  - cbn [render_line]. mstep (parse_option_render k o t Hk). cbv beta iota.
    destruct (effect k o) as [e|o']; [done|]. cbn [outcome]. by rewrite Ht.
  - change (render_line (k :: k' :: ks)) with (render k ++ chr "," :: render_line (k' :: ks)).
    rewrite <- app_assoc. mstep (parse_option_render k o ((chr "," :: render_line (k' :: ks)) ++ t) Hk).
    cbv beta iota. destruct (effect k o) as [e|o']; [done|]. cbn [outcome].
    change (ends_options ((chr "," :: render_line (k' :: ks)) ++ t)) with false.
    change (at_ ((chr "," :: render_line (k' :: ks)) ++ t) 0 =? chr ",") with true. cbn [negb tail app].
    rewrite bool_decide_eq_false_2.
    + apply IH; [done|cbn [length] in *; lia].
    + intros E. pose proof (render_line_head (k' :: ks) t ltac:(done)) as H. by rewrite E in H.
Qed.

(** ** The parser returns

    [total n m]: [m] does not crash, and the rest of the line it leaves is not
    longer than [n]. *)

Definition total {A} (Q : A -> Prop) (m : AM A) : Prop :=
  forall oom, (m oom).1 <> Crash /\ forall a, (m oom).1 = Ok a -> Q a.

Lemma total_ret {A} (Q : A -> Prop) a : Q a -> total Q (mret a).
Proof. intros H oom. split; [done|]. by intros ? [= <-]. Qed.

Lemma total_bind {A B} (P : A -> Prop) (Q : B -> Prop) (m : AM A) (k : A -> AM B) :
  total P m -> (forall a, P a -> total Q (k a)) -> total Q (m ≫= k).
Proof.
  intros Hm Hk oom. unfold mbind, M_bind. destruct (Hm oom) as [H1 H2].
  destruct (m oom) as [[a|e|] oom']; [by apply Hk, H2|done|done].
Qed.

Lemma total_alloc : total (fun _ => True) alloc.
Proof. by intros [|b oom]. Qed.

Definition left_at_most (n : nat) (r : list Z + (sshauthopt * list Z)) : Prop :=
  forall o rest, r = inr (o, rest) -> (length rest <= n)%nat.

Lemma dequote_rest n : forall s t r, (length s <= n)%nat -> dequote_loop s = Some (t, r) -> (length r <= length s)%nat.
Proof.
  induction n as [|n IH]; intros s t r Hn; (destruct s as [|c s]; [done|]); cbn [length] in *; [lia|].
  cbn [dequote_loop]. destruct (c =? 34); [intros [= <- <-]; lia|]. destruct s as [|d s]; [done|].
  destruct (_ && _).
  - destruct (dequote_loop s) as [[t' r']|] eqn:E; [|done]. intros [= <- <-].
    apply IH in E; cbn [length] in *; lia.
  - destruct (dequote_loop (d :: s)) as [[t' r']|] eqn:E; [|done]. intros [= <- <-].
    apply IH in E; cbn [length] in *; lia.
Qed.

Lemma total_dequote s :
  total (fun d => forall t r, d = inr (t, r) -> (length r <= length s)%nat) (opt_dequote s).
Proof.
  destruct s as [|c s]; cbn [opt_dequote]; [by apply total_ret|]. destruct (negb _); [by apply total_ret|].
  eapply total_bind; [apply total_alloc|]. intros ok _. destruct (negb ok); [by apply total_ret|].
  apply total_ret. intros t r. destruct (dequote_loop s) as [p|] eqn:E; [|done]. intros [= ->].
  apply (dequote_rest _ _ _ _ (le_n _)) in E. cbn [length]. lia.
Qed.

(** Opens a computation that starts by unquoting. *)
Ltac unquoted :=
  eapply total_bind; [apply total_dequote|]; intros [?|[? ?]] Hrest;
  [by apply total_ret|]; specialize (Hrest _ _ eq_refl).

Lemma opt_flag_rest opt neg opts r rest :
  opt_flag opt neg opts = Some (r, rest) -> (length rest <= length opts)%nat.
Proof.
  unfold opt_flag. destruct (neg && _); destruct (has_iprefix _ _); try done; intros [= <- <-];
    rewrite !length_drop; lia.
Qed.

Lemma flag_option_rest o opts o' rest :
  flag_option o opts = Some (o', rest) -> (length rest <= length opts)%nat.
Proof.
  unfold flag_option.
  repeat match goal with
  | |- context [opt_flag ?a ?b ?c] =>
      destruct (opt_flag a b c) as [[? ?]|] eqn:E; [intros [= _ <-]; by apply opt_flag_rest in E|clear E]
  end. done.
Qed.

Lemma opt_match_rest opts term rest : opt_match opts term = Some rest -> (length rest <= length opts)%nat.
Proof. unfold opt_match. destruct (_ && _); [|done]. intros [= <-]. rewrite length_drop. lia. Qed.

Section Bounded.
Context (n : nat) (opts : list Z) (Hn : (length opts <= n)%nat).

Lemma left_err e : total (left_at_most n) (mret (inl e)).
Proof. by apply total_ret. Qed.

Lemma left_ok o rest : (length rest <= length opts)%nat -> total (left_at_most n) (mret (inr (o, rest))).
Proof. intros H. apply total_ret. intros ? ? [= <- <-]. lia. Qed.

Lemma total_once name old set : total (left_at_most n) (once_option name old set opts).
Proof. unfold once_option. destruct old; [apply left_err|]. unquoted. by apply left_ok. Qed.

Lemma total_expiry o : total (left_at_most n) (expiry_option mktime o opts).
Proof.
  unfold expiry_option. unquoted. destruct (parse_absolute_time _ _); try apply left_err.
  destruct (_ =? 0); [apply left_err|]. destruct (_ || _); by apply left_ok.
Qed.

Lemma total_environment o : total (left_at_most n) (environment_option o opts).
Proof.
  unfold environment_option. destruct (_ >? _); [apply left_err|]. unquoted.
  destruct (cut _ _) as [? [?|]]; [|apply left_err]. eapply total_bind; [apply total_alloc|]. intros ok _.
  destruct (negb ok); [apply left_err|]. destruct (negb _); [apply left_err|].
  destruct (existsb _ _); [by apply left_ok|]. eapply total_bind; [apply total_alloc|]. intros ok' _.
  destruct (negb ok'); [apply left_err|by apply left_ok].
Qed.

Lemma total_tunnel o : total (left_at_most n) (tunnel_option o opts).
Proof. unfold tunnel_option. unquoted. destruct (_ =? _); [apply left_err|by apply left_ok]. Qed.

Lemma total_permit bare old set : total (left_at_most n) (permit_option getservbyname opts bare old set).
Proof.
  unfold permit_option. eapply (total_bind (fun r => forall l p, r = inr (l, p) -> (length l <= length opts)%nat)).
  - unfold handle_permit. destruct (_ >? _); [by apply total_ret|]. unquoted. cbv zeta.
    eapply total_bind; [destruct (bare && _); [apply total_alloc|by apply total_ret]|]. intros ok _.
    destruct (negb ok); [by apply total_ret|]. eapply total_bind; [apply total_alloc|]. intros ok' _.
    destruct (negb ok'); [by apply total_ret|]. destruct (hpdelim2 _) as [[? ?]|]; [|by apply total_ret].
    destruct (_ >=? _); [by apply total_ret|]. destruct (negb _); [by apply total_ret|].
    eapply total_bind; [apply total_alloc|]. intros ok'' _. destruct (negb ok''); [by apply total_ret|].
    apply total_ret. by intros ? ? [= <- <-].
  - intros [e|[l p]] Hr; [apply left_err|]. apply left_ok. by apply (Hr _ _ eq_refl).
Qed.
End Bounded.

Lemma total_option o opts : total (left_at_most (length opts)) (parse_option getservbyname mktime o opts).
Proof.
  unfold parse_option. destruct (flag_option o opts) as [[o' rest]|] eqn:E.
  { apply total_ret. intros ? ? [= <- <-]. by apply flag_option_rest in E. }
  repeat match goal with
  | |- total _ (match opt_match opts ?t with _ => _ end) =>
      destruct (opt_match opts t) as [rest|] eqn:?
  end; try match goal with H : opt_match _ _ = Some _ |- _ => apply opt_match_rest in H end;
    first [by apply total_once | by apply total_expiry | by apply total_environment
          | by apply total_permit | by apply total_tunnel | idtac].
  apply total_ret. by intros ? ? [= <- <-].
Qed.

Lemma parse_loop_returns fuel : forall o opts, (length opts < fuel)%nat ->
  total (fun _ => True) (parse_loop getservbyname mktime fuel o opts).
Proof.
  induction fuel as [|fuel IH]; intros o opts Hf; [lia|]. cbn [parse_loop].
  destruct (ends_options opts); [by apply total_ret|]. eapply total_bind; [apply total_option|].
  intros [e|[o' rest]] Hr; [by apply total_ret|]. specialize (Hr _ _ eq_refl).
  destruct (ends_options rest) eqn:E; [by apply total_ret|]. destruct (negb _); [by apply total_ret|].
  destruct rest as [|c rest]; [done|]. cbn [tail length] in *.
  case_bool_decide; [by apply total_ret|]. apply IH. lia.
Qed.

(** C20: the options of an authorized_keys line are read as the sequence of
    their effects on the defaults of a key: each keyword acts on what stands
    before it (so that "restrict" revokes what was granted by default and a
    later "pty" grants it again), a repeated command, principals or from
    clause, an invalid time, variable, forwarding or device is the error of
    the line, and quotes inside a string are escaped by backslashes.  The
    parser returns on every line, well formed or not, whatever allocations
    fail. *)
Theorem authorized_keys_line (ks : list kopt) (t : list Z)
    (Hne : ks <> []) (Htext : Forall text_ok ks) (Ht : after_options t) :
  sshauthopt_parse getservbyname mktime (Some (render_line ks ++ t)) [] =
    (Ok (effects ks (keys_defaults (set_force_tun_device (-1) calloc_sshauthopt))), []) /\
  (forall opts oom, (sshauthopt_parse getservbyname mktime opts oom).1 <> Crash).
Proof.
  split.
  - unfold sshauthopt_parse. erewrite bind_ok by done. cbv beta iota.
    apply parse_loop_line; [done..|]. rewrite length_app. pose proof (length_render_line ks). lia.
  - intros opts. unfold sshauthopt_parse. apply (total_bind (fun _ => True) (fun _ => True)).
    + eapply (total_bind (fun _ => True)); [|intros; by apply total_ret].
      eapply total_bind; [apply total_alloc|]. intros; by apply total_ret.
    + intros [ret|] _; [|by apply total_ret]. destruct opts as [opts|]; [|by apply total_ret].
      apply parse_loop_returns. lia.
Qed.
End Parse.

Lemma authorized_keys_line_witness :
  sshauthopt_parse demo_getservbyname demo_mktime
    (Some (str "restrict,pty,tunnel=" ++ [34] ++ str "any" ++ [34] ++ str " ssh-rsa")) [] =
  (Ok (inr (mk_sshauthopt 0 0 0 1 0 1 0 0 None SSH_TUNID_ANY None [] [] [] None None 0 0)), []).
Proof.
  apply (authorized_keys_line demo_getservbyname demo_mktime
    [KRestrict; KFlag FPty true; KTunnel (str "any")] (str " ssh-rsa")); [done| |done].
  repeat apply Forall_cons_2; [..|constructor]; discriminate.
Defined.
