(* ===== verification/AuthCert.v ===== *)
(** * Options of certificates

    A critical option that is not understood makes the certificate unusable,
    and the options are read on every input. *)

From S2P Require Import Prelude Ssherr Sshbuf SshbufGetput SshbufWire Cstring Match KexNames.
From S2P Require Import Addr AddrMatch SshkeyNames PacketRead Misc MiscThms AbsTime AuthOptions.
From S2P Require Import AuthOptionsThms AuthParse.

Section Cert.
Context (nids : curve_nids) (has_scope : bool) (getaddrinfo : list Z -> option (sockaddr * Z)) (INET6_ADDRSTRLEN : Z).

Abbreviation options := (cert_options has_scope getaddrinfo INET6_ADDRSTRLEN).

(** The encoding of a list of named options. *)
Definition wire_options (l : list (list Z * list Z)) : list Z :=
  concat ((fun p => wire_string p.1 ++ wire_string p.2) <$> l).

Definition known_critical : list (list Z) := [str "verify-required"; str "force-command"; str "source-address"].

Lemma get_cstring_result want v rest oom : cstr v -> zlen (wire_string v) <= SSHBUF_SIZE_MAX ->
  (get_cstring_at want (wire_string v ++ rest) oom).1 = Ok (v, rest) \/
  (get_cstring_at want (wire_string v ++ rest) oom).1 = Err SSH_ERR_ALLOC_FAIL.
Proof.
  intros N L. unfold get_cstring_at. rewrite parse_cstring_wire by done.
  destruct want; [|by left]. destruct oom as [|[] oom]; [by left|by left|by right].
Qed.

Lemma froms_result v rest oom : zlen (wire_string v) <= SSHBUF_SIZE_MAX ->
  (froms_at (wire_string v ++ rest) oom).1 = Ok (v, rest) \/
  (froms_at (wire_string v ++ rest) oom).1 = Err SSH_ERR_ALLOC_FAIL.
Proof.
  intros L. rewrite zlen_wire_string in L. unfold froms_at. rewrite parse_wire_string by lia.
  destruct oom as [|[] oom]; [by left|by left|by right].
Qed.

Lemma cert_critical_unknown name data o oom : name ∉ known_critical ->
  cert_critical has_scope getaddrinfo INET6_ADDRSTRLEN name data o oom = (Ok (inr None), oom).
Proof.
  unfold known_critical. rewrite !not_elem_of_cons. intros (H1 & H2 & H3 & _). unfold cert_critical.
  by rewrite !bool_decide_eq_false_2 by done.
Qed.

(** One option is taken off, or the list is refused. *)
Lemma cert_step name data rest fuel o ext crit2 crit oom r : cstr name ->
  zlen (wire_string name) <= SSHBUF_SIZE_MAX -> zlen (wire_string data) <= SSHBUF_SIZE_MAX ->
  (options (S fuel) o (wire_string name ++ wire_string data ++ rest) ext crit2 crit oom).1 = Ok (Some r) ->
  exists oom1, ((f ← match (if (ext : bool) then cert_extension name o else None) with
                 | Some o => mret (inr (Some (o, data)))
                 | None => if (crit2 : bool) then cert_critical has_scope getaddrinfo INET6_ADDRSTRLEN name data o else mret (inr None)
                 end;
             match f with
             | inl _ => mret None
             | inr None => if (crit : bool) then mret None else options fuel o rest ext crit2 crit
             | inr (Some (o, data)) =>
                 if negb (bool_decide (data = [])) then mret None
                 else options fuel o rest ext crit2 crit
             end) oom1).1 = Ok (Some r).
Proof.
  intros N L1 L2. cbn [cert_options].
  rewrite bool_decide_eq_false_2 by done. unfold mbind at 1, M_bind at 1, try_.
  destruct (get_cstring_result true name (wire_string data ++ rest) oom N L1) as [G|G];
    destruct (get_cstring_at true (wire_string name ++ wire_string data ++ rest) oom) as [x oom1] eqn:E; cbn in G; subst x.
  - rewrite (bind_ok _ _ _ _ _ E). cbv beta iota.
    destruct (froms_result data rest oom1 L2) as [G|G];
      destruct (froms_at (wire_string data ++ rest) oom1) as [x oom2] eqn:E2; cbn in G; subst x.
    + rewrite (bind_ok _ _ _ _ _ E2). cbv beta iota. intros H. exists oom2. done.
    + rewrite (bind_err _ _ _ _ _ E2). done.
  - rewrite (bind_err _ _ _ _ _ E). done.
Qed.

Definition option_fits (p : list Z * list Z) : Prop :=
  cstr p.1 /\ zlen (wire_string p.1) <= SSHBUF_SIZE_MAX /\ zlen (wire_string p.2) <= SSHBUF_SIZE_MAX.

Lemma cert_options_closed l : Forall option_fits l -> Exists (fun p => p.1 ∉ known_critical) l ->
  forall fuel o oom r, (options fuel o (wire_options l) false true true oom).1 <> Ok (Some r).
Proof.
  induction 1 as [|[name data] l (N & L1 & L2) Hl IH]; intros Hu fuel o oom r; [by apply Exists_nil in Hu|].
  destruct fuel as [|fuel]; [done|].
  change (wire_options ((name, data) :: l)) with ((wire_string name ++ wire_string data) ++ wire_options l).
  rewrite <- app_assoc. intros (oom1 & H)%cert_step; [|done..]. cbv iota in H. revert H.
  destruct (decide (name ∈ known_critical)) as [Hk|Hk].
  - apply Exists_cons in Hu as [Hu|Hu]; [done|].
    unfold mbind, M_bind. destruct (cert_critical _ _ _ name data o oom1) as [[[[]|[[o' d]|]]|e|] oom2]; try done.
    destruct (negb _); [done|]. by apply IH.
  - mstep (cert_critical_unknown name data o oom1 Hk). done.
Qed.

Lemma option_list_closed l : Forall option_fits l -> Exists (fun p => p.1 ∉ known_critical) l ->
  forall o oom r, (cert_option_list has_scope getaddrinfo INET6_ADDRSTRLEN o (wire_options l)
    OPTIONS_CRITICAL true oom).1 <> Ok (Some r).
Proof.
  intros Hf Hu o oom r. unfold cert_option_list, mbind, M_bind. destruct (alloc oom) as [[[]|e|] oom2]; [|done..].
  by apply cert_options_closed.
Qed.

(** ** Every input is read *)

Definition shorter (c rest : list Z) : Prop := bytes_ok rest /\ (length rest < length c)%nat.

Lemma parse_string_shorter c v rest : bytes_ok c -> parse_string c = inr (v, rest) -> shorter c rest.
Proof.
  intros Hc H. destruct (parse_string_inv c v rest Hc H) as [-> _]. apply Forall_app in Hc as [_ Hr].
  split; [done|]. rewrite length_app. assert (4 <= zlen (wire_string v)) as L by (rewrite zlen_wire_string; pose proof (zlen_nonneg v); lia).
  unfold zlen in L. lia.
Qed.

Lemma parse_cstring_shorter c v rest : bytes_ok c -> parse_cstring c = inr (v, rest) -> shorter c rest.
Proof.
  unfold parse_cstring. intros Hc. destruct (parse_string c) as [|[w r]] eqn:E; [done|].
  destruct (memchr w 0); [destruct (_ <? _); [done|]|]; intros [= _ <-]; exact (parse_string_shorter _ _ _ Hc E).
Qed.

Lemma total_throw {A} (Q : A -> Prop) e : total Q (throw e).
Proof. by intros oom. Qed.

Lemma total_try {A} (P : A -> Prop) (m : AM A) :
  total P m -> total (fun r => match r with inl _ => True | inr a => P a end) (try_ m).
Proof.
  intros H oom. unfold try_. destruct (H oom) as [H1 H2]. destruct (m oom) as [[a|e|] oom']; [| |done].
  - split; [done|]. intros ? [= <-]. by apply H2.
  - split; [done|]. by intros ? [= <-].
Qed.

Lemma total_cstring want c : bytes_ok c -> total (fun p => shorter c p.2) (get_cstring_at want c).
Proof.
  intros Hc. unfold get_cstring_at. destruct (parse_cstring c) as [e|[v rest]] eqn:E; [apply total_throw|].
  eapply (total_bind (fun _ => True)); [destruct want; [apply total_alloc|by apply total_ret]|].
  intros [] _; [|apply total_throw]. apply total_ret. exact (parse_cstring_shorter _ _ _ Hc E).
Qed.

Lemma total_froms c : bytes_ok c -> total (fun p => shorter c p.2) (froms_at c).
Proof.
  intros Hc. unfold froms_at. destruct (parse_string c) as [e|[v rest]] eqn:E; [apply total_throw|].
  eapply total_bind; [apply total_alloc|]. intros [] _; [|apply total_throw].
  apply total_ret. exact (parse_string_shorter _ _ _ Hc E).
Qed.

Lemma total_mono {A} (P Q : A -> Prop) (m : AM A) : (forall a, P a -> Q a) -> total P m -> total Q m.
Proof. intros H Hm oom. destruct (Hm oom) as [H1 H2]. split; [done|]. eauto. Qed.

Lemma total_get data : total (fun _ => True) (get_cstring_at true data).
Proof.
  unfold get_cstring_at. destruct (parse_cstring data); [apply total_throw|].
  eapply total_bind; [apply total_alloc|]. intros [] _; [by apply total_ret|apply total_throw].
Qed.

Lemma total_critical name data o :
  total (fun _ => True) (cert_critical has_scope getaddrinfo INET6_ADDRSTRLEN name data o).
Proof.
  unfold cert_critical. destruct (bool_decide _); [by apply total_ret|].
  destruct (bool_decide _); [|destruct (bool_decide _); [|by apply total_ret]].
  - eapply total_bind; [apply total_try, total_get|]. intros [e|[c d]] _; [by apply total_ret|].
    destruct (force_command o); by apply total_ret.
  - eapply total_bind; [apply total_try, total_get|]. intros [e|[c d]] _; [by apply total_ret|].
    destruct (required_from_host_cert o); [by apply total_ret|]. eapply total_bind; [apply total_alloc|].
    intros ok _. destruct (_ =? -1); by apply total_ret.
Qed.

Lemma total_options fuel : forall o c ext crit2 crit, bytes_ok c -> (length c < fuel)%nat ->
  total (fun _ => True) (options fuel o c ext crit2 crit).
Proof.
  induction fuel as [|fuel IH]; intros o c ext crit2 crit Hc Hf; [lia|]. cbn [cert_options].
  case_bool_decide; [by apply total_ret|]. eapply total_bind.
  { apply total_try, (total_bind (fun p => shorter c p.2) (fun p => shorter c p.2)); [by apply total_cstring|].
    intros [name c1] [Hc1 L1]. cbn [snd] in *. eapply total_bind; [by apply total_froms|].
    intros [data c2] [Hc2 L2]. cbn [snd] in *. apply total_ret. split; [done|cbn; lia]. }
  intros [e|[[name data] c1]] Hs; [by apply total_ret|]. destruct Hs as [Hc1 L1]. cbn [snd] in *. cbv zeta.
  apply (total_bind (fun _ => True)).
  { destruct (if ext then _ else _); [by apply total_ret|]. destruct crit2; [apply total_critical|by apply total_ret]. }
  intros [e|[[o' d]|]] _; [by apply total_ret| |].
  - destruct (negb _); [by apply total_ret|]. apply IH; [done|lia].
  - destruct crit; [by apply total_ret|]. apply IH; [done|lia].
Qed.

Lemma total_option_list o blob which crit : bytes_ok blob ->
  total (fun _ => True) (cert_option_list has_scope getaddrinfo INET6_ADDRSTRLEN o blob which crit).
Proof.
  intros H. unfold cert_option_list. eapply total_bind; [apply total_alloc|]. intros ok _.
  destruct (negb ok); [by apply total_ret|]. apply total_options; [done|lia].
Qed.

(** C21: a certificate with a critical option the server does not know gives
    no options, so that it cannot be used, wherever the option stands in the
    list, whatever allocations fail and whatever the other options are; and
    the options of a certificate are read to an end on every input. *)
Theorem cert_fail_closed (type : Z) (cert : certopts) (l : list (list Z * list Z))
    (Hcrit : c_critical cert = wire_options l) (Hfits : Forall option_fits l)
    (Hunknown : Exists (fun p => p.1 ∉ known_critical) l) :
  (forall oom r, (sshauthopt_from_cert nids has_scope getaddrinfo INET6_ADDRSTRLEN
     (Some (type, Some cert)) oom).1 <> Ok (Some r)) /\
  (forall cert', bytes_ok (c_critical cert') -> bytes_ok (c_extensions cert') -> forall oom,
     (sshauthopt_from_cert nids has_scope getaddrinfo INET6_ADDRSTRLEN
       (Some (type, Some cert')) oom).1 <> Crash).
Proof.
  split.
  - intros oom r. unfold sshauthopt_from_cert. destruct (_ || _); [done|].
    unfold mbind at 1, M_bind at 1. destruct (sshauthopt_new oom) as [[[o|]|e|] oom1]; [|done..].
    rewrite Hcrit. pose proof (option_list_closed l Hfits Hunknown o oom1) as H. unfold mbind, M_bind.
    destruct (cert_option_list _ _ _ o (wire_options l) OPTIONS_CRITICAL true oom1) as [[[o2|]|e|] oom2]; [|done..].
    by destruct (H o2).
  - intros cert' H1 H2 oom. revert oom. unfold sshauthopt_from_cert. destruct (_ || _); [done|].
    apply (total_bind (fun _ => True) (fun _ => True)).
    { eapply total_bind; [apply total_alloc|]. intros; by apply total_ret. }
    intros [o|] _; [|by apply total_ret]. eapply total_bind; [by apply total_option_list|].
    intros [o'|] _; [|by apply total_ret]. by apply total_option_list.
Qed.
End Cert.

Definition sample_blob : certopts :=
  mk_certopts 1 (wire_options [(str "verify-required", []); (str "no-such-option", [])]) [].

Lemma cert_fail_closed_witness :
  sshkey_type_is_cert demo_nids 4 = true /\
  bool_decide ((sshauthopt_from_cert demo_nids true (fun _ => None) 46 (Some (4, Some sample_blob)) []).1 =
    Ok (Some calloc_sshauthopt)) = false.
Proof.
  split; [reflexivity|]. apply bool_decide_eq_false_2.
  apply (cert_fail_closed demo_nids true (fun _ => None) 46 4 sample_blob
    [(str "verify-required", []); (str "no-such-option", [])]); [done| |].
  - repeat apply Forall_cons_2; [..|constructor]; split; [done|vm_compute; done|done|vm_compute; done].
  - apply Exists_cons_tl, Exists_cons_hd. apply (bool_decide_unpack (_ ∉ _)). vm_compute. done.
Defined.
