(* ===== verification/AuthMethods.v ===== *)
(** * Authentication methods and the lists of required methods: [auth2-methods.c], [auth2.c]

    Both processes of the server, the one that talks to the network and the
    monitor, keep the lists of AuthenticationMethods and remove a method from
    the front of each list when it succeeds.  A list is its text, as the
    configuration has it. *)

From S2P Require Import Prelude Cstring Match Misc MiscThms.

(** ** Options

    The fields of ServerOptions that the authentication code reads; an option
    that is only tested is a boolean. *)
Record ServerOptions := mk_ServerOptions {
  max_authtries : Z;
  auth_methods : list (list Z);
  pubkey_authentication : bool;
  gss_authentication : bool;
  password_authentication : bool;
  kbd_interactive_authentication : bool;
  hostbased_authentication : bool;
  hostbased_uses_name_from_packet_only : bool;
  ignore_user_known_hosts : bool;
  permit_root_login : Z;
  permit_empty_passwd : bool;
  refuse_connection : bool;
  banner : option (list Z);
  pubkey_accepted_algos : list Z;
  hostbased_accepted_algos : list Z;
  ca_sign_algorithms : list Z;
  required_rsa_size : Z;
  pubkey_auth_options : Z
}.

Definition set_auth_methods (v : list (list Z)) (o : ServerOptions) : ServerOptions :=
  mk_ServerOptions (max_authtries o) v (pubkey_authentication o) (gss_authentication o)
    (password_authentication o) (kbd_interactive_authentication o) (hostbased_authentication o)
    (hostbased_uses_name_from_packet_only o) (ignore_user_known_hosts o) (permit_root_login o)
    (permit_empty_passwd o) (refuse_connection o) (banner o) (pubkey_accepted_algos o)
    (hostbased_accepted_algos o) (ca_sign_algorithms o) (required_rsa_size o) (pubkey_auth_options o).

Definition PERMIT_NO : Z := 0.
Definition PERMIT_FORCED_ONLY : Z := 1.
Definition PERMIT_NO_PASSWD : Z := 2.
Definition PERMIT_YES : Z := 3.

Definition PUBKEYAUTH_TOUCH_REQUIRED : Z := 1.
Definition PUBKEYAUTH_VERIFY_REQUIRED : Z := Z.shiftl 1 1.

(** ** The methods *)

(** The function behind a method. *)
Inductive userauth_fn :=
| userauth_none_fn | userauth_pubkey_fn | userauth_gssapi_fn
| userauth_passwd_fn | userauth_kbdint_fn | userauth_hostbased_fn.

(** struct authmethod_cfg; [cfg_enabled] reads the flag that [enabled] points
    to, from the variable none_enabled and the options. *)
Record authmethod_cfg := mk_cfg {
  cfg_name : list Z;
  cfg_synonym : option (list Z);
  cfg_enabled : option (bool -> ServerOptions -> bool)
}.

Record Authmethod := mk_Authmethod { m_cfg : authmethod_cfg; m_userauth : userauth_fn }.

Definition methodcfg_none : authmethod_cfg := mk_cfg (str "none") None (Some (fun none_enabled _ => none_enabled)).
Definition methodcfg_pubkey : authmethod_cfg :=
  mk_cfg (str "publickey") (Some (str "publickey-hostbound-v00@openssh.com")) (Some (fun _ => pubkey_authentication)).
Definition methodcfg_gssapi : authmethod_cfg := mk_cfg (str "gssapi-with-mic") None (Some (fun _ => gss_authentication)).
Definition methodcfg_passwd : authmethod_cfg := mk_cfg (str "password") None (Some (fun _ => password_authentication)).
Definition methodcfg_kbdint : authmethod_cfg :=
  mk_cfg (str "keyboard-interactive") None (Some (fun _ => kbd_interactive_authentication)).
Definition methodcfg_hostbased : authmethod_cfg := mk_cfg (str "hostbased") None (Some (fun _ => hostbased_authentication)).

Definition authmethod_cfgs : list authmethod_cfg :=
  [methodcfg_none; methodcfg_pubkey; methodcfg_gssapi; methodcfg_passwd; methodcfg_kbdint; methodcfg_hostbased].

Definition authmethods : list Authmethod := [
  mk_Authmethod methodcfg_none userauth_none_fn;
  mk_Authmethod methodcfg_pubkey userauth_pubkey_fn;
  mk_Authmethod methodcfg_gssapi userauth_gssapi_fn;
  mk_Authmethod methodcfg_passwd userauth_passwd_fn;
  mk_Authmethod methodcfg_kbdint userauth_kbdint_fn;
  mk_Authmethod methodcfg_hostbased userauth_hostbased_fn].

Definition is_enabled (none_enabled : bool) (o : ServerOptions) (c : authmethod_cfg) : bool :=
  match cfg_enabled c with Some f => f none_enabled o | None => false end.

(** Equality of C strings. *)
Definition streq (a b : list Z) : bool := bool_decide (a = b).

(** [strncmp(a, b, n) == 0]. *)
Definition strneq (a b : list Z) (n : Z) : bool := streq (take (Z.to_nat n) a) (take (Z.to_nat n) b).

Definition colon_c : Z := 58.
Definition comma_c : Z := 44.

Section Methods.
Context (none_enabled : bool).

(** One element of a list, without its submethod: the first method of that
    name decides. *)
Fixpoint method_valid_loop (o : ServerOptions) (method : list Z) (need_enable : bool)
    (cfgs : list authmethod_cfg) : bool :=
  match cfgs with
  | [] => false
  | c :: cfgs =>
      if negb (streq method (cfg_name c)) then method_valid_loop o method need_enable cfgs
      else negb (need_enable && negb (is_enabled none_enabled o c))
  end.

Fixpoint methods_valid_loop (o : ServerOptions) (need_enable : bool) (ts : list (list Z)) : bool :=
  match ts with
  | [] => true
  | t :: ts =>
      if method_valid_loop o (cut [colon_c] t).1 need_enable authmethod_cfgs
      then methods_valid_loop o need_enable ts else false
  end.

(** [true]: the list is valid (the C function returns 0). *)
Definition auth2_methods_valid (o : ServerOptions) (methods : list Z) (need_enable : bool) : bool :=
  if bool_decide (methods = []) then false else methods_valid_loop o need_enable (split methods).

(** The options, with the pseudo-method "any" removed, the lists for the
    authentication context ([None]: left as they are), and success. *)
Definition auth2_setup_methods_lists (o : ServerOptions) : ServerOptions * option (list (list Z)) * bool :=
  let o := if (zlen (auth_methods o) =? 1) && streq (default [] (head (auth_methods o))) (str "any")
           then set_auth_methods [] o else o in
  if zlen (auth_methods o) =? 0 then (o, None, true)
  else
    let lists := filter (fun l => auth2_methods_valid o l true = true) (auth_methods o) in
    (o, Some lists, negb (zlen lists =? 0)).

Definition MATCH_NONE : Z := 0.
Definition MATCH_METHOD : Z := 1.
Definition MATCH_BOTH : Z := 2.
Definition MATCH_PARTIAL : Z := 3.

(** Whether the text [p] is at the end of an element. *)
Definition at_end (p : list Z) : bool :=
  match p with [] => true | c :: _ => c =? comma_c end.

Definition list_starts_with (methods method : list Z) (submethod : option (list Z)) : Z :=
  let l := zlen method in
  if negb (strneq methods method l) then MATCH_NONE
  else
    match drop (Z.to_nat l) methods with
    | (c :: p') as p =>
        if c =? colon_c then
          match submethod with
          | None => MATCH_PARTIAL
          | Some submethod =>
              let l := zlen submethod in
              if negb (strneq submethod p' l) then MATCH_NONE
              else if at_end (drop (Z.to_nat l) p') then MATCH_BOTH else MATCH_NONE
          end
        else if at_end p then MATCH_METHOD else MATCH_NONE
    | [] => MATCH_METHOD
    end.

(** The list without its first element; [None]: it starts with another. *)
Definition remove_method (methods method : list Z) (submethod : option (list Z)) : option (list Z) :=
  let m := list_starts_with methods method submethod in
  if negb ((m =? MATCH_METHOD) || (m =? MATCH_BOTH)) then None
  else
    let p := drop (Z.to_nat (zlen method)) methods in
    let p := match submethod with
             | Some s => if m =? MATCH_BOTH then drop (Z.to_nat (1 + zlen s)) p else p
             | None => p
             end in
    Some (match p with c :: p' => if c =? comma_c then p' else p | [] => p end).

(** What the loop over the lists came to: a list was completed, some list was
    shortened, or none has the method in front, which is fatal. *)
Inductive update := U_complete | U_partial | U_fatal.

#[export] Instance update_eq_dec : EqDecision update.
Proof. solve_decision. Defined.

Fixpoint update_loop (lists : list (list Z)) (method : list Z) (submethod : option (list Z)) (found : bool)
    : list (list Z) * update :=
  match lists with
  | [] => ([], if found then U_partial else U_fatal)
  | l :: lists =>
      match remove_method l method submethod with
      | None => let '(ls, u) := update_loop lists method submethod found in (l :: ls, u)
      | Some l' =>
          if bool_decide (l' = []) then (l' :: lists, U_complete)
          else let '(ls, u) := update_loop lists method submethod true in (l' :: ls, u)
      end
  end.

Definition auth2_update_methods_lists (lists : list (list Z)) (method : list Z) (submethod : option (list Z))
    : list (list Z) * update := update_loop lists method submethod false.

(** ** Which methods may be tried; [lists] are those of the context. *)

Definition auth2_method_allowed (o : ServerOptions) (lists : list (list Z)) (method : list Z)
    (submethod : option (list Z)) : bool :=
  if zlen (auth_methods o) =? 0 then true
  else existsb (fun l => negb (list_starts_with l method submethod =? MATCH_NONE)) lists.

Fixpoint methods_get_loop (o : ServerOptions) (lists : list (list Z)) (ms : list Authmethod) (b : list Z) : list Z :=
  match ms with
  | [] => b
  | m :: ms =>
      methods_get_loop o lists ms
        (if streq (cfg_name (m_cfg m)) (str "none") then b
         else if negb (is_enabled none_enabled o (m_cfg m)) then b
         else if negb (auth2_method_allowed o lists (cfg_name (m_cfg m)) None) then b
         else b ++ (if zlen b =? 0 then [] else [comma_c]) ++ cfg_name (m_cfg m))
  end.

(** The text of SSH2_MSG_USERAUTH_FAILURE. *)
Definition authmethods_get (o : ServerOptions) (lists : list (list Z)) : list Z :=
  methods_get_loop o lists authmethods [].

Definition authmethod_byname (name : list Z) : option Authmethod :=
  List.find (fun m => streq name (cfg_name (m_cfg m)) ||
                      match cfg_synonym (m_cfg m) with Some s => streq name s | None => false end) authmethods.

Definition authmethod_lookup (o : ServerOptions) (lists : list (list Z)) (name : list Z) : option Authmethod :=
  match authmethod_byname name with
  | None => None
  | Some m =>
      if negb (is_enabled none_enabled o (m_cfg m)) then None
      else if negb (auth2_method_allowed o lists (cfg_name (m_cfg m)) None) then None
      else Some m
  end.
End Methods.

(** ** Examples *)

Definition demo_options : ServerOptions :=
  mk_ServerOptions 6 [str "publickey,password"; str "publickey,keyboard-interactive:pam"] true false true true
    false false false PERMIT_NO_PASSWD false false None (str "ssh-ed25519,rsa-sha2-512") (str "ssh-ed25519")
    (str "ssh-ed25519") 1024 0.

Example methods_ex :
  auth2_setup_methods_lists true demo_options = (demo_options, Some (auth_methods demo_options), true) /\
  auth2_update_methods_lists (auth_methods demo_options) (str "publickey") None =
    ([str "password"; str "keyboard-interactive:pam"], U_partial) /\
  auth2_update_methods_lists [str "password"; str "keyboard-interactive:pam"] (str "keyboard-interactive")
    (Some (str "pam")) = ([str "password"; []], U_complete) /\
  authmethods_get true demo_options [str "password"; str "keyboard-interactive:pam"] =
    str "password,keyboard-interactive".
Proof. split_and!; vm_compute; reflexivity. Qed.

(** * Lists of required methods: what completing one means

    A list is completed when its elements, in order, have each been matched by
    a success: the removals from the front of its text follow its elements. *)

(** An element of a list that a success of the method (and submethod) meets. *)
Definition elem_is (e m : list Z) (sub : option (list Z)) : Prop :=
  e = m \/ exists s, sub = Some s /\ e = m ++ colon_c :: s.

(** A name without the two separators. *)
Definition plain (m : list Z) : Prop := no_comma m /\ colon_c ∉ m.

#[export] Instance plain_dec m : Decision (plain m).
Proof. unfold plain, no_comma. apply _. Defined.

Lemma strneq_prefix a b : strneq a b (zlen b) = true -> exists r, a = b ++ r /\ drop (Z.to_nat (zlen b)) a = r.
Proof.
  unfold strneq, streq. rewrite bool_decide_eq_true. unfold zlen. rewrite Nat2Z.id, (take_ge b) by lia.
  intros E. exists (drop (length b) a). split; [|done]. by rewrite <- E at 1; rewrite take_drop.
Qed.

Lemma strneq_prefix' a b : strneq a b (zlen a) = true -> exists r, b = a ++ r.
Proof.
  unfold strneq, streq. rewrite bool_decide_eq_true. unfold zlen. rewrite Nat2Z.id, (take_ge a) by lia.
  intros E. exists (drop (length a) b). by rewrite E at 1; rewrite take_drop.
Qed.

Lemma at_end_inv p : at_end p = true -> p = [] \/ exists r, p = comma_c :: r.
Proof. destruct p as [|c p]; [by left|]. cbn. intros ->%Z.eqb_eq. right. eauto. Qed.

Lemma remove_inv l m sub l' : remove_method l m sub = Some l' ->
  exists e, elem_is e m sub /\ (l = e /\ l' = [] \/ l = e ++ comma_c :: l').
Proof.
  unfold remove_method, list_starts_with.
  destruct (strneq l m (zlen m)) eqn:E; cbn [negb]; [|done].
  apply strneq_prefix in E as (r & -> & ->).
  destruct r as [|c r]; [|destruct (Z.eqb_spec c colon_c) as [->|Hc]].
  - destruct sub; intros [= <-]; exists m; (split; [by left|]); left; by rewrite app_nil_r.
  - destruct sub as [s|]; [|done]. destruct (strneq s r (zlen s)) eqn:E; cbn [negb]; [|done].
    apply strneq_prefix' in E as (r' & ->).
    rewrite drop_zlen.
    destruct (at_end r') eqn:E; [|done]. cbn [Z.eqb MATCH_BOTH MATCH_METHOD orb negb].
    assert (drop (Z.to_nat (1 + zlen s)) (colon_c :: s ++ r') = r') as ->
      by (rewrite <- (zlen_cons colon_c); apply (drop_zlen (colon_c :: s))).
    intros [= <-]. exists (m ++ colon_c :: s). split; [right; eauto|].
    apply at_end_inv in E as [-> | [r ->]]; [left; by rewrite app_nil_r|right; by rewrite <- app_assoc].
  - destruct (at_end (c :: r)) eqn:E; [|done]. apply at_end_inv in E as [|[r' [= -> ->]]]; [done|].
    destruct sub; intros [= <-]; exists m; (split; [by left|by right]).
Qed.

Lemma elem_no_comma e m sub : elem_is e m sub -> no_comma m -> (forall s, sub = Some s -> no_comma s) -> no_comma e.
Proof.
  unfold no_comma. intros [-> | (s & -> & ->)] Hm Hs; [done|]. specialize (Hs _ eq_refl).
  apply not_elem_of_app. split; [done|]. apply not_elem_of_cons. done.
Qed.

(** The removal takes the first element off. *)
Lemma remove_split l m sub l' : no_comma m -> (forall s, sub = Some s -> no_comma s) ->
  remove_method l m sub = Some l' -> exists e rest, split l = e :: rest /\ elem_is e m sub /\ l' = join rest.
Proof.
  intros Hm Hs H. apply remove_inv in H as (e & He & H). pose proof (elem_no_comma _ _ _ He Hm Hs) as Hc.
  exists e. destruct H as [[-> ->] | ->].
  - exists []. by rewrite split_single.
  - exists (split l'). change comma_c with (chr ","). by rewrite split_cons, join_split.
Qed.

(** ** Progress along a list *)

Section Progress.
Context {A : Type} (name : A -> list Z * option (list Z)).

Definition meets (e : list Z) (a : A) : Prop := elem_is e (name a).1 (name a).2.

(** [cur] is what is left of the list [l] after the successes [acc]. *)
Definition progress (acc : list A) (l cur : list Z) : Prop :=
  exists front rest sub, split l = front ++ rest /\ rest <> [] /\ cur = join rest /\
    sub `sublist_of` acc /\ Forall2 meets front sub.

(** The successes meet all elements of [l], in order. *)
Definition completed (acc : list A) (l : list Z) : Prop :=
  exists sub, sub `sublist_of` acc /\ Forall2 meets (split l) sub.

Lemma progress_start l : progress [] l l.
Proof.
  exists [], (split l), []. split_and!; [done|apply split_nonempty|by rewrite join_split|done|constructor].
Qed.

Lemma progress_more acc a l cur : progress acc l cur -> progress (acc ++ [a]) l cur.
Proof.
  intros (f & r & sub & H1 & H2 & H3 & H4 & H5). exists f, r, sub. split_and!; try done.
  by apply sublist_inserts_r.
Qed.

Definition well_named (a : A) : Prop :=
  (name a).1 <> [] /\ no_comma (name a).1 /\ forall s, (name a).2 = Some s -> no_comma s.

(** A list of methods has no empty element. *)
Definition proper (l : list Z) : Prop := [] ∉ split l.

Lemma progress_step acc a l cur cur' : proper l -> well_named a -> progress acc l cur ->
  remove_method cur (name a).1 (name a).2 = Some cur' ->
  if bool_decide (cur' = []) then completed (acc ++ [a]) l else progress (acc ++ [a]) l cur'.
Proof.
  intros Hp (_ & Wm & Ws) (f & r & sub & H1 & H2 & -> & H4 & H5) H.
  pose proof (split_no_comma l) as Hc. rewrite H1 in Hc. apply Forall_app in Hc as [_ Hc].
  apply remove_split in H as (e & rest & E & He & ->); [|done..]. rewrite split_join in E by done. subst r.
  assert (Forall2 meets (f ++ [e]) (sub ++ [a])) as HF by (apply Forall2_app; [done|by constructor]).
  assert (sub ++ [a] `sublist_of` acc ++ [a]) as HS by by apply sublist_app.
  assert (split l = (f ++ [e]) ++ rest) as HL by (by rewrite <- app_assoc).
  destruct rest as [|t rest].
  - rewrite bool_decide_eq_true_2 by done. exists (sub ++ [a]). by rewrite HL, app_nil_r.
  - rewrite bool_decide_eq_false_2.
    + exists (f ++ [e]), (t :: rest), (sub ++ [a]). done.
    + intros E. apply Hp. rewrite HL. apply elem_of_app. right. destruct rest; cbn in E.
      * subst t. left.
      * by destruct t.
Qed.

(** A list that has been completed stays empty. *)
Definition remains (acc : list A) (l cur : list Z) : Prop := progress acc l cur \/ cur = [].

Lemma remove_empty a : well_named a -> remove_method [] (name a).1 (name a).2 = None.
Proof.
  intros [H _]. unfold remove_method, list_starts_with, strneq, streq, zlen. rewrite take_nil, Nat2Z.id, take_ge by lia.
  by rewrite bool_decide_eq_false_2 by congruence.
Qed.

Lemma remains_more acc a l cur : remains acc l cur -> remains (acc ++ [a]) l cur.
Proof. intros [H | ->]; [left; by apply progress_more|by right]. Qed.

(** The loop over the lists. *)
Lemma update_remains acc a ls curs curs' u found : Forall proper ls -> well_named a ->
  Forall2 (remains acc) ls curs -> update_loop curs (name a).1 (name a).2 found = (curs', u) ->
  Forall2 (remains (acc ++ [a])) ls curs' /\
  (u = U_complete -> exists l, l ∈ ls /\ completed (acc ++ [a]) l).
Proof.
  intros Hp Hw H. revert curs' found Hp. induction H as [|l cur ls curs H1 H IH]; intros curs' found Hp; cbn [update_loop].
  - intros [= <- <-]. split; [constructor|by destruct found].
  - apply Forall_cons in Hp as [Hl Hp].
    assert (forall f c, update_loop curs (name a).1 (name a).2 f = (c, u) -> forall x, remains (acc ++ [a]) l x ->
      Forall2 (remains (acc ++ [a])) (l :: ls) (x :: c) /\
      (u = U_complete -> exists l0, l0 ∈ l :: ls /\ completed (acc ++ [a]) l0)) as K.
    { intros f c E x Hx. destruct (IH _ _ Hp E) as [H2 H3]. split; [by constructor|].
      intros Hu. destruct (H3 Hu) as (l0 & ? & ?). exists l0. split; [by right|done]. }
    destruct (remove_method cur _ _) as [cur'|] eqn:E.
    + destruct H1 as [H1 | ->]; [|by rewrite remove_empty in E].
      pose proof (progress_step _ _ _ _ _ Hl Hw H1 E) as P. destruct (bool_decide_reflect (cur' = [])) as [->|].
      * intros [= <- <-]. split; [|intros _; exists l; split; [left|done]].
        constructor; [by right|]. eapply Forall2_impl; [done|]. intros. by apply remains_more.
      * destruct (update_loop curs _ _ true) as [c u'] eqn:EU. intros [= <- ->]. eapply K; [eauto|by left].
    + destruct (update_loop curs _ _ found) as [c u'] eqn:EU. intros [= <- ->].
      eapply K; [eauto|]. by apply remains_more.
Qed.
End Progress.

(** ** Lists that were accepted at the start *)

Lemma method_valid_name ne o m need cfgs : method_valid_loop ne o m need cfgs = true -> exists c, c ∈ cfgs /\ m = cfg_name c.
Proof.
  induction cfgs as [|c cfgs IH]; cbn [method_valid_loop]; [done|]. unfold streq. case_bool_decide as E; cbn [negb].
  - intros _. exists c. split; [left|done].
  - intros H. destruct (IH H) as (c' & ? & ?). exists c'. split; [by right|done].
Qed.

Lemma methods_valid_elems ne o need ts : methods_valid_loop ne o need ts = true ->
  Forall (fun t => method_valid_loop ne o (cut [colon_c] t).1 need authmethod_cfgs = true) ts.
Proof.
  induction ts as [|t ts IH]; cbn [methods_valid_loop]; [constructor|].
  destruct (method_valid_loop _ _ _ _ _) eqn:E; [|done]. intros H. constructor; auto.
Qed.

Lemma valid_proper ne o l need : auth2_methods_valid ne o l need = true -> proper l.
Proof.
  unfold auth2_methods_valid. case_bool_decide; [done|]. intros H1%methods_valid_elems Hin.
  rewrite Forall_forall in H1. specialize (H1 _ Hin). apply method_valid_name in H1 as (c & Hc & E).
  unfold authmethod_cfgs in Hc. repeat (apply elem_of_cons in Hc as [-> | Hc]; [done|]). by apply elem_of_nil in Hc.
Qed.
