(* ===== verification/AuthCtxt.v ===== *)
(** * The authentication context: [auth.h], [auth2.c], [auth.c]

    struct Authctxt and the operations on it that the network process and the
    monitor share: keys already used, the information for the session, the
    log, root logins and the options of accepted keys.  The x-allocators end
    the process on failure and are taken to succeed; buffers and the
    allocations of the options draw the allocator's answers. *)

From S2P Require Import Prelude Ssherr Sshbuf SshbufGetput SshbufWire Cstring Match KexNames SshkeyNames Misc AuthOptions AuthMethods.

(** ** Keys

    What the authentication code uses of sshkey.c, whose keys are objects of
    the cryptographic library.  A left value is an error code; [key_cert] has
    the certificate's key_id, serial and signature_key. *)
Class KeyOps := {
  sshkey : Type;
  key_type : sshkey -> Z;
  key_ecdsa_nid : sshkey -> Z;
  sshkey_from_blob : list Z -> Z + sshkey;
  sshkey_to_blob : sshkey -> Z + list Z;
  sshkey_from_private : sshkey -> Z + sshkey;
  sshkey_equal : sshkey -> sshkey -> bool;
  sshkey_equal_public : sshkey -> sshkey -> bool;
  sshkey_check_cert_sigtype : sshkey -> list Z -> bool;
  sshkey_check_rsa_length : sshkey -> Z -> bool;
  sshkey_cert_check_host : sshkey -> list Z -> list Z -> bool;
  sshkey_type : sshkey -> list Z;
  key_cert : sshkey -> option (list Z * Z * sshkey);
  sshkey_fingerprint : sshkey -> option (list Z);
  sshkey_format_text : sshkey -> Z + list Z;
  sshkey_verify : sshkey -> list Z -> list Z -> option (list Z) -> Z -> Z + option (Z * Z)
}.

(** ** Data *)

(** The fields of struct passwd that are used. *)
Record passwd := mk_passwd {
  pw_name : list Z; pw_uid : Z; pw_gid : Z; pw_dir : list Z; pw_shell : list Z }.

#[export] Instance passwd_eq_dec : EqDecision passwd.
Proof. solve_decision. Defined.

(** struct KbdintAuthctxt; a device is its name, its context a handle. *)
Record KbdintAuthctxt := mk_kbdint {
  kb_devices : option (list Z);
  kb_ctxt : option Z;
  kb_device : option (list Z);
  kb_nreq : Z;
  kb_devices_done : Z
}.

(** The end of the process by fatal. *)
Definition die {S A} : M S A := throw EXIT_255.

(** The result of a call, or the end of the process. *)
Definition or_die {S A} (m : M S A) : M S A := catch m (fun _ => die).

Section Ctxt.
Context {KO : KeyOps}.

(** struct Authctxt; the fields of other builds (BSD authentication, Kerberos,
    PAM) are left out, and so is loginmsg.  An array with its length is a list. *)
Record Authctxt := mk_Authctxt {
  a_success : bool;
  a_authenticated : bool;
  a_postponed : bool;
  a_valid : bool;
  a_attempt : Z;
  a_failures : Z;
  a_server_caused_failure : bool;
  a_user : option (list Z);
  a_service : option (list Z);
  a_pw : option passwd;
  a_style : option (list Z);
  a_auth_methods : list (list Z);
  a_methoddata : option Z;
  a_kbdintctxt : option KbdintAuthctxt;
  a_prev_keys : list sshkey;
  a_auth_method_key : option sshkey;
  a_auth_method_info : option (list Z);
  a_session_info : option (list Z)
}.

Definition rebuild_Authctxt (c : Authctxt) : Authctxt :=
  mk_Authctxt
    (a_success c) (a_authenticated c) (a_postponed c) (a_valid c) (a_attempt c) (a_failures c)
    (a_server_caused_failure c) (a_user c) (a_service c) (a_pw c) (a_style c) (a_auth_methods c)
    (a_methoddata c) (a_kbdintctxt c) (a_prev_keys c) (a_auth_method_key c) (a_auth_method_info
    c) (a_session_info c).

Ltac assign_Authctxt c field v :=
  let t := eval cbv [rebuild_Authctxt] in (rebuild_Authctxt c) in
  lazymatch t with context G [field c] => let r := context G [v] in exact r end.

Definition set_a_success (v : bool) (c : Authctxt) : Authctxt := ltac:(assign_Authctxt c (a_success) v).
Definition set_a_authenticated (v : bool) (c : Authctxt) : Authctxt := ltac:(assign_Authctxt c (a_authenticated) v).
Definition set_a_postponed (v : bool) (c : Authctxt) : Authctxt := ltac:(assign_Authctxt c (a_postponed) v).
Definition set_a_valid (v : bool) (c : Authctxt) : Authctxt := ltac:(assign_Authctxt c (a_valid) v).
Definition set_a_attempt (v : Z) (c : Authctxt) : Authctxt := ltac:(assign_Authctxt c (a_attempt) v).
Definition set_a_failures (v : Z) (c : Authctxt) : Authctxt := ltac:(assign_Authctxt c (a_failures) v).
Definition set_a_server_caused_failure (v : bool) (c : Authctxt) : Authctxt := ltac:(assign_Authctxt c (a_server_caused_failure) v).
Definition set_a_user (v : option (list Z)) (c : Authctxt) : Authctxt := ltac:(assign_Authctxt c (a_user) v).
Definition set_a_service (v : option (list Z)) (c : Authctxt) : Authctxt := ltac:(assign_Authctxt c (a_service) v).
Definition set_a_pw (v : option passwd) (c : Authctxt) : Authctxt := ltac:(assign_Authctxt c (a_pw) v).
Definition set_a_style (v : option (list Z)) (c : Authctxt) : Authctxt := ltac:(assign_Authctxt c (a_style) v).
Definition set_a_auth_methods (v : list (list Z)) (c : Authctxt) : Authctxt := ltac:(assign_Authctxt c (a_auth_methods) v).
Definition set_a_methoddata (v : option Z) (c : Authctxt) : Authctxt := ltac:(assign_Authctxt c (a_methoddata) v).
Definition set_a_kbdintctxt (v : option KbdintAuthctxt) (c : Authctxt) : Authctxt := ltac:(assign_Authctxt c (a_kbdintctxt) v).
Definition set_a_prev_keys (v : list sshkey) (c : Authctxt) : Authctxt := ltac:(assign_Authctxt c (a_prev_keys) v).
Definition set_a_auth_method_key (v : option sshkey) (c : Authctxt) : Authctxt := ltac:(assign_Authctxt c (a_auth_method_key) v).
Definition set_a_auth_method_info (v : option (list Z)) (c : Authctxt) : Authctxt := ltac:(assign_Authctxt c (a_auth_method_info) v).
Definition set_a_session_info (v : option (list Z)) (c : Authctxt) : Authctxt := ltac:(assign_Authctxt c (a_session_info) v).
(** A context of zeros. *)
Definition calloc_Authctxt : Authctxt :=
  mk_Authctxt false false false false 0 0 false None None None None [] None None [] None None None.

Definition fakepw (privsep_pw : option passwd) : passwd :=
  mk_passwd (str "NOUSER") (match privsep_pw with Some p => pw_uid p | None => u32 (-1) end)
    (match privsep_pw with Some p => pw_gid p | None => u32 (-1) end) (str "/nonexist") (str "/nonexist").

(** ** Keys already used *)

Definition auth2_authctxt_reset_info (c : Authctxt) : Authctxt :=
  set_a_auth_method_info None (set_a_auth_method_key None c).

Definition auth2_record_info (info : list Z) (c : Authctxt) : Authctxt := set_a_auth_method_info (Some info) c.

(** The copy of the key's public part is made twice, once for each place. *)
Definition auth2_record_key {S} (c : Authctxt) (authenticated : bool) (key : sshkey) : M S Authctxt :=
  match sshkey_from_private key with
  | inl _ => die
  | inr dup =>
      let c := set_a_auth_method_key (Some dup) c in
      if negb authenticated then mret c
      else
        match sshkey_from_private key with
        | inl _ => die
        | inr dup =>
            if zlen (a_prev_keys c) >=? INT_MAX then die
            else mret (set_a_prev_keys (a_prev_keys c ++ [dup]) c)
        end
  end.

Definition auth2_key_already_used (c : Authctxt) (key : sshkey) : bool :=
  existsb (fun k => sshkey_equal_public key k) (a_prev_keys c).

(** ** Information for the session *)

Definition newline : Z := 10.

(** A line: method[/submethod], the key, the method's information. *)
Definition auth2_update_session_info (c : Authctxt) (method : list Z) (submethod : option (list Z)) : AM Authctxt :=
  b ← (match a_session_info c with
       | Some b => mret b
       | None => ok ← alloc; if (ok : bool) then mret [] else throw SSH_ERR_ALLOC_FAIL
       end);
  b ← put_at (method ++ match submethod with Some s => chr "/" :: s | None => [] end) b;
  b ← (match a_auth_method_key c with
       | None => mret b
       | Some k =>
           b ← put_u8_at 32 b;
           match sshkey_format_text k with
           | inl e => throw e
           | inr t => put_at t b
           end
       end);
  b ← (match a_auth_method_info c with
       | None => mret b
       | Some i =>
           match strchr i newline with
           | Some _ => throw EXIT_255
           | None => b ← put_u8_at 32 b; put_at i b
           end
       end);
  b ← put_u8_at newline b;
  mret (set_a_session_info (Some b) c).

(** ** The log *)

(** A line of the log: level INFO or VERBOSE, the outcome, and whom it is
    about. *)
Record logline := mk_logline {
  l_info : bool;
  l_authmsg : list Z;
  l_method : list Z;
  l_submethod : option (list Z);
  l_valid : bool;
  l_user : option (list Z);
  l_extra : option (list Z)
}.

(** The fingerprint of the key, those of a certificate and of its authority,
    and the method's information. *)
Definition format_method_key (c : Authctxt) : option (list Z) :=
  let fp k := default (str "(null)") (sshkey_fingerprint k) in
  let methinfo := match a_auth_method_info c with Some i => str ", " ++ i | None => [] end in
  match a_auth_method_key c with
  | None => None
  | Some k =>
      match key_cert k with
      | Some (id, serial, ca) =>
          Some (sshkey_type k ++ [32] ++ fp k ++ str " ID " ++ id ++ str " (serial " ++ fmt_d serial ++ str ") CA " ++
                sshkey_type ca ++ [32] ++ fp ca ++ methinfo)
      | None => Some (sshkey_type k ++ [32] ++ fp k ++ methinfo)
      end
  end.

(** [None]: nothing is logged.  [monitor]: which process this is. *)
Definition auth_log (monitor : bool) (o : ServerOptions) (c : Authctxt) (authenticated partial : bool)
    (method : list Z) (submethod : option (list Z)) : option logline :=
  if negb monitor && negb (a_postponed c) then None
  else Some (mk_logline
    (authenticated || negb (a_valid c) || (a_failures c >=? Z.quot (max_authtries o) 2) ||
     streq method (str "password"))
    (if a_postponed c then str "Postponed" else if partial then str "Partial"
     else if authenticated then str "Accepted" else str "Failed")
    method submethod (a_valid c) (a_user c)
    (match format_method_key c with Some e => Some e | None => a_auth_method_info c end)).

(** ** Fields of a message *)

Definition get_string_at (m : list Z) : AM (list Z * list Z) :=
  match parse_string m with
  | inl e => throw e
  | inr (v, rest) => ok ← alloc; if (ok : bool) then mret (v, rest) else throw SSH_ERR_ALLOC_FAIL
  end.

Definition get_string_direct_at (m : list Z) : AM (list Z * list Z) :=
  match parse_string m with inl e => throw e | inr r => mret r end.

Definition skip_string_at (m : list Z) : AM (list Z) := '(_, m) ← get_string_direct_at m; mret m.

Definition sshkey_froms (m : list Z) : AM (sshkey * list Z) :=
  '(b, m) ← froms_at m;
  match sshkey_from_blob b with inl e => throw e | inr k => mret (k, m) end.

Definition sshkey_puts (k : sshkey) (m : list Z) : AM (list Z) :=
  match sshkey_to_blob k with inl e => throw e | inr b => put_string_at b m end.

Definition sshkey_is_cert (nids : curve_nids) (key : sshkey) : bool := sshkey_type_is_cert nids (key_type key).

(** ** Root logins and the options of keys

    [auth_opts] is a pointer that may be NULL; reading through NULL is a
    crash. *)

Definition auth_root_allowed {S} (o : ServerOptions) (auth_opts : option sshauthopt) (method : list Z) : M S bool :=
  if permit_root_login o =? PERMIT_YES then mret true
  else if permit_root_login o =? PERMIT_NO_PASSWD then
    mret (streq method (str "publickey") || streq method (str "hostbased") || streq method (str "gssapi-with-mic"))
  else if permit_root_login o =? PERMIT_FORCED_ONLY then
    match auth_opts with
    | None => crash
    | Some a => mret (bool_decide (force_command a <> None))
    end
  else mret false.

(** The merge of what may be NULL: the new structure is allocated first. *)
Definition merge_ptr (primary additional : option sshauthopt) : AM (list Z + sshauthopt) :=
  match primary, additional with
  | Some p, Some a => sshauthopt_merge p a
  | _, _ => or_fail no_memory sshauthopt_new (fun _ => crash)
  end.

(** The new auth_opts and success; on failure auth_opts is NULL. *)
Definition auth_activate_options (auth_opts opts : option sshauthopt) : AM (option sshauthopt * bool) :=
  r ← merge_ptr auth_opts opts;
  mret (match r with inl _ => (None, false) | inr o => (Some o, true) end).
End Ctxt.

(** * GSSAPI on the server: [gss-serv.c]

    The monitor's side of GSSAPI authentication around the calls of the GSSAPI
    library: accepting a context, extracting the client's name from the
    exported name, and asking the mechanism whether that client may log in as
    the user. *)

Definition GSS_S_COMPLETE : Z := 0.
Definition GSS_S_FAILURE : Z := Z.shiftl 13 16.
Definition GSS_C_MUTUAL_FLAG : Z := 2.
Definition GSS_C_INTEG_FLAG : Z := 32.

Definition GSS_ERROR (x : Z) : bool := negb (Z.land x (Z.lor (Z.shiftl 255 24) (Z.shiftl 255 16)) =? 0).

(** struct Gssctxt: the mechanism it was made for; the rest is the library's. *)
Record Gssctxt := mk_Gssctxt { gc_oid : list Z }.

(** ssh_gssapi_client: the mechanism, the exported and the displayed name. *)
Record gss_client := mk_client {
  gcl_mech : option (list Z);
  gcl_exportedname : option (list Z);
  gcl_displayname : option (list Z)
}.

Definition no_client : gss_client := mk_client None None None.

(** The object identifiers of supported_mechs. *)
Definition supported_mechs : list (list Z) := [[0x2A; 0x86; 0x48; 0x86; 0xF7; 0x12; 0x01; 0x02; 0x02]].

(** Reads of a buffer, checked against its end. *)
Definition tok_at (tok : list Z) (i : Z) : option Z := znth tok i.

Definition get_u16_at (tok : list Z) (i : Z) : option Z :=
  if i + 2 <=? zlen tok then Some (PEEK_U16 (slice tok i 2)) else None.

Definition get_u32_in (tok : list Z) (i : Z) : option Z :=
  if i + 4 <=? zlen tok then Some (PEEK_U32 (slice tok i 4)) else None.

Definition ssh_gssapi_check_oid (ctx : Gssctxt) (data : option (list Z)) : option bool :=
  data ← data; Some (bool_decide (gc_oid ctx = data)).

Definition slice_at (tok : list Z) (i n : Z) : option (list Z) :=
  if (0 <=? i) && (0 <=? n) && (i + n <=? zlen tok) then Some (slice tok i n) else None.

(** [None]: a read outside the buffer; [Some None]: GSS_S_FAILURE. *)
Definition ssh_gssapi_parse_ename (ctx : Gssctxt) (ename : list Z) : option (option (list Z)) :=
  if (zlen ename <? 6) || negb (bool_decide (slice ename 0 2 = [4; 1])) then Some None
  else
    l ← get_u16_at ename 2;
    let oidl := u32 (l - 2) in
    t4 ← tok_at ename 4; t5 ← tok_at ename 5;
    if negb (t4 =? 6) || negb (t5 =? oidl) || (zlen ename <? u32 (oidl + 6)) then Some None
    else
      same ← ssh_gssapi_check_oid ctx (slice_at ename 6 oidl);
      if negb same then Some None
      else
        let offset := u32 (oidl + 6) in
        if zlen ename <? u32 (offset + 4) then Some None
        else
          len ← get_u32_in ename offset;
          let offset := u32 (offset + 4) in
          if u32 (UINT_MAX - offset) <? len then Some None
          else if zlen ename <? u32 (offset + len) then Some None
          else name ← slice_at ename offset len; Some (Some name).

(** Parsing does not leave the exported name. *)
Lemma parse_ename_inside ctx ename : bytes_ok ename -> zlen ename <= UINT_MAX -> ssh_gssapi_parse_ename ctx ename <> None.
Proof.
  intros B L. unfold ssh_gssapi_parse_ename.
  destruct ((zlen ename <? 6) || _) eqn:H; [done|]. zbool.
  unfold get_u16_at, tok_at, znth, slice_at, get_u32_in.
  replace (2 + 2 <=? zlen ename) with true by lia. cbn [mbind option_bind].
  set (oidl := u32 (_ - 2)).
  destruct (lookup_lt_is_Some_2 ename (Z.to_nat 4)) as [t4 E4]; [unfold zlen in *; lia|].
  destruct (lookup_lt_is_Some_2 ename (Z.to_nat 5)) as [t5 E5]; [unfold zlen in *; lia|].
  replace (4 <? 0) with false by done. replace (5 <? 0) with false by done.
  rewrite E4, E5. cbn [mbind option_bind].
  assert (0 <= oidl < 2 ^ 32) by (apply wrap_range; lia).
  assert (byte_ok t5) as B5 by (eapply Forall_lookup_1; eauto). unfold byte_ok in B5.
  destruct (negb (t4 =? 6) || _ || _) eqn:G1; [done|]. zbool.
  rewrite !wrap_small in * by lia.
  replace ((0 <=? 6) && (0 <=? oidl) && (6 + oidl <=? zlen ename)) with true by lia.
  cbn [ssh_gssapi_check_oid mbind option_bind]. destruct (bool_decide (gc_oid ctx = _)); cbn [negb]; [|discriminate].
  rewrite (wrap_small _ (oidl + 6)), (wrap_small _ (oidl + 6 + 4)) by lia.
  destruct (zlen ename <? oidl + 6 + 4) eqn:G2; [discriminate|]. zbool.
  replace (oidl + 6 + 4 <=? zlen ename) with true by lia. cbn [mbind option_bind].
  assert (0 <= PEEK_U32 (slice ename (oidl + 6) 4) < 2 ^ 32)
    by (apply peek_u32_range; [by apply bytes_ok_slice|apply zlen_slice; lia]).
  unfold UINT_MAX in *. rewrite (wrap_small _ (2 ^ 32 - 1 - _)) by lia.
  destruct (_ <? PEEK_U32 _) eqn:G3; [discriminate|]. zbool. rewrite (wrap_small _ (_ + PEEK_U32 _)) by lia.
  destruct (zlen ename <? _) eqn:G4; [discriminate|]. zbool.
  match goal with |- context [if ?b then Some (slice _ _ _) else None] => replace b with true by lia end. done.
Qed.

(** What the library and the mechanism say of the client of a context: the
    displayed and the exported name ([None]: an error), and whether the client
    may log in as a user. *)
Record gss_answers := mk_gss_answers {
  gss_display_name : option (list Z);
  gss_export_name : option (list Z)
}.

Inductive getclient_res := GC_client (c : gss_client) | GC_error | GC_crash.

(** The mechanism is looked up again by the context's identifier. *)
Definition ssh_gssapi_getclient (ctx : Gssctxt) (a : gss_answers) : getclient_res :=
  if negb (existsb (fun m => bool_decide (m = gc_oid ctx)) supported_mechs) then GC_error
  else
    match gss_display_name a with
    | None => GC_error
    | Some d =>
        match gss_export_name a with
        | None => GC_error
        | Some ename =>
            match ssh_gssapi_parse_ename ctx ename with
            | None => GC_crash
            | Some None => GC_error
            | Some (Some name) => GC_client (mk_client (Some (gc_oid ctx)) (Some name) (Some d))
            end
        end
    end.

(** After gss_accept_sec_context: whether the client's name is extracted. *)
Definition accept_complete (major flags : Z) : bool :=
  negb (Z.land flags GSS_C_MUTUAL_FLAG =? 0) && negb (Z.land flags GSS_C_INTEG_FLAG =? 0) &&
  (major =? GSS_S_COMPLETE).
