(* ===== verification/Monitor.v ===== *)
(** * The monitor before authentication: [monitor.c], [monitor_wrap.c]

    The privileged process that the network process asks to sign, to look up
    the user and to check passwords and keys, and that decides on its own
    whether the user has authenticated.  It reads requests from a socket whose
    other end is not trusted: [mo_in_] is whatever bytes arrive.  Every request
    has an entry in [mo_table] with its flags; fatal ends the process.

    The build is the Windows one: GSSAPI, no PAM, no BSD authentication, no
    audit events.  What the monitor asks of the operating system, the account
    database, the key files and the libraries is the class [Services]; an
    answer may depend on and change the [world]. *)

From S2P Require Import Prelude Ssherr Sshbuf SshbufGetput SshbufWire SshbufWire2 Cstring Match KexNames.
From S2P Require Import SshkeyNames Cipher SshState Packet PacketRead Misc AuthOptions AuthMethods AuthCtxt.

(** ** Requests *)

Definition MONITOR_REQ_MODULI : Z := 0.
Definition MONITOR_ANS_MODULI : Z := 1.
Definition MONITOR_REQ_AUTHSERV : Z := 4.
Definition MONITOR_REQ_SIGN : Z := 6.
Definition MONITOR_ANS_SIGN : Z := 7.
Definition MONITOR_REQ_PWNAM : Z := 8.
Definition MONITOR_ANS_PWNAM : Z := 9.
Definition MONITOR_REQ_AUTH2_READ_BANNER : Z := 10.
Definition MONITOR_ANS_AUTH2_READ_BANNER : Z := 11.
Definition MONITOR_REQ_AUTHPASSWORD : Z := 12.
Definition MONITOR_ANS_AUTHPASSWORD : Z := 13.
Definition MONITOR_REQ_SETCOMPAT : Z := 18.
Definition MONITOR_REQ_KEYALLOWED : Z := 22.
Definition MONITOR_ANS_KEYALLOWED : Z := 23.
Definition MONITOR_REQ_KEYVERIFY : Z := 24.
Definition MONITOR_ANS_KEYVERIFY : Z := 25.
Definition MONITOR_REQ_KEYEXPORT : Z := 26.
Definition MONITOR_REQ_GSSSETUP : Z := 42.
Definition MONITOR_ANS_GSSSETUP : Z := 43.
Definition MONITOR_REQ_GSSSTEP : Z := 44.
Definition MONITOR_ANS_GSSSTEP : Z := 45.
Definition MONITOR_REQ_GSSUSEROK : Z := 46.
Definition MONITOR_ANS_GSSUSEROK : Z := 47.
Definition MONITOR_REQ_GSSCHECKMIC : Z := 48.
Definition MONITOR_ANS_GSSCHECKMIC : Z := 49.
Definition MONITOR_REQ_STATE : Z := 51.
Definition MONITOR_ANS_STATE : Z := 52.

Definition MM_NOKEY : Z := 0.
Definition MM_HOSTKEY : Z := 1.
Definition MM_USERKEY : Z := 2.

Definition MON_ISAUTH : Z := 0x0004.
Definition MON_AUTHDECIDE : Z := 0x0008.
Definition MON_ONCE : Z := 0x0010.
Definition MON_ALOG : Z := 0x0020.
Definition MON_AUTH : Z := Z.lor MON_ISAUTH MON_AUTHDECIDE.
Definition MON_PERMIT : Z := 0x1000.

Definition MONITOR_MAX_MSGLEN : Z := 4 * 1024 * 1024.
Definition EXIT_CONFIG_REFUSED : Z := 6.

Definition SSH2_MSG_USERAUTH_REQUEST : Z := 50.
Definition SSH_OLD_SESSIONID : Z := 0x00000010.
Definition SSH_SK_USER_PRESENCE_REQD : Z := 0x01.
Definition SSH_SK_USER_VERIFICATION_REQD : Z := 0x04.
Definition HOST_OK : Z := 0.
Definition HOST_NEW : Z := 1.

(** The functions that answer requests. *)
Inductive mon_fn :=
| mm_answer_state_fn | mm_answer_moduli_fn | mm_answer_setcompat_fn | mm_answer_sign_fn
| mm_answer_pwnamallow_fn | mm_answer_authserv_fn | mm_answer_auth2_read_banner_fn
| mm_answer_authpassword_fn | mm_answer_keyallowed_fn | mm_answer_keyverify_fn
| mm_answer_gss_setup_ctx_fn | mm_answer_gss_accept_ctx_fn | mm_answer_gss_userok_fn
| mm_answer_gss_checkmic_fn.

#[export] Instance mon_fn_eq_dec : EqDecision mon_fn.
Proof. solve_decision. Defined.

(** struct mon_table. *)
Record mon_entry := mk_ent { ent_type : Z; ent_flags : Z; ent_f : mon_fn }.

#[export] Instance mon_entry_eq_dec : EqDecision mon_entry.
Proof. solve_decision. Defined.

Definition set_flags (v : Z) (e : mon_entry) : mon_entry := mk_ent (ent_type e) v (ent_f e).

Definition mon_dispatch_proto20 : list mon_entry := [
  mk_ent MONITOR_REQ_STATE MON_ONCE mm_answer_state_fn;
  mk_ent MONITOR_REQ_MODULI MON_ONCE mm_answer_moduli_fn;
  mk_ent MONITOR_REQ_SETCOMPAT MON_ONCE mm_answer_setcompat_fn;
  mk_ent MONITOR_REQ_SIGN MON_ONCE mm_answer_sign_fn;
  mk_ent MONITOR_REQ_PWNAM MON_ONCE mm_answer_pwnamallow_fn;
  mk_ent MONITOR_REQ_AUTHSERV MON_ONCE mm_answer_authserv_fn;
  mk_ent MONITOR_REQ_AUTH2_READ_BANNER MON_ONCE mm_answer_auth2_read_banner_fn;
  mk_ent MONITOR_REQ_AUTHPASSWORD MON_AUTH mm_answer_authpassword_fn;
  mk_ent MONITOR_REQ_KEYALLOWED MON_ISAUTH mm_answer_keyallowed_fn;
  mk_ent MONITOR_REQ_KEYVERIFY MON_AUTH mm_answer_keyverify_fn;
  mk_ent MONITOR_REQ_GSSSETUP MON_ISAUTH mm_answer_gss_setup_ctx_fn;
  mk_ent MONITOR_REQ_GSSSTEP 0 mm_answer_gss_accept_ctx_fn;
  mk_ent MONITOR_REQ_GSSUSEROK (Z.lor MON_ONCE MON_AUTHDECIDE) mm_answer_gss_userok_fn;
  mk_ent MONITOR_REQ_GSSCHECKMIC MON_ONCE mm_answer_gss_checkmic_fn].

(** [x & mask] as a condition. *)
Definition bits (x mask : Z) : bool := negb (Z.land x mask =? 0).

Definition with_permit (permit : bool) (flags : Z) : Z :=
  Z.lor (Z.land flags (Z.lnot MON_PERMIT)) (if permit then MON_PERMIT else 0).

(** The first entry of the type. *)
Fixpoint monitor_permit (ent : list mon_entry) (type : Z) (permit : bool) : list mon_entry :=
  match ent with
  | [] => []
  | e :: ent =>
      if ent_type e =? type then set_flags (with_permit permit (ent_flags e)) e :: ent
      else e :: monitor_permit ent type permit
  end.

Definition monitor_permit_authentications (ent : list mon_entry) (permit : bool) : list mon_entry :=
  (fun e => if bits (ent_flags e) MON_AUTH then set_flags (with_permit permit (ent_flags e)) e else e) <$> ent.

(** ** Services *)

Class Services {KO : KeyOps} := {
  world : Type;
  getpwnamallow : list Z -> ServerOptions -> world -> (option passwd * ServerOptions) * world;
  privsep_pw : option passwd;
  windows_password_auth : list Z -> list Z -> world -> bool * world;
  user_key_allowed : passwd -> sshkey -> Z -> world -> (bool * option sshauthopt) * world;
  auth_key_is_revoked : sshkey -> world -> bool * world;
  auth_get_canonical_hostname : world -> list Z * world;
  ssh_remote_ipaddr : world -> list Z * world;
  auth_rhosts2 : passwd -> list Z -> list Z -> list Z -> world -> bool * world;
  check_key_in_hostfiles : passwd -> sshkey -> list Z -> bool -> bool -> world -> Z * world;
  auth2_read_banner : world -> option (list Z) * world;
  choose_dh : Z -> Z -> Z -> world -> option (list Z * list Z) * world;
  host_keys : list (option sshkey * option sshkey * option sshkey);
  sshkey_sign : sshkey -> list Z -> list Z -> Z -> world -> option (list Z) * world;
  auth_sock : Z;
  ssh_agent_sign : sshkey -> list Z -> list Z -> Z -> world -> option (list Z) * world;
  serialise_server_options : ServerOptions -> world -> option (list Z) * world;
  pack_hostkeys : world -> list Z * world;
  timing_secret : Z;
  versions : list Z * list Z;
  gss_acquire_cred : list Z -> world -> Z * world;
  gss_accept_sec_context : list Z -> list Z -> world -> (Z * list Z * Z) * world;
  gss_client_names : world -> gss_answers * world;
  gss_mech_userok : gss_client -> list Z -> world -> bool * world;
  gss_verify_mic : list Z -> list Z -> world -> Z * world;
  child_exited_well : world -> bool * world
}.

Section Monitor.
Context (nids : curve_nids) {KO : KeyOps} {SV : Services}.

(** The variables of monitor.c and what it shares with auth.c, and the environment:
    the bytes the child has written and those written to it, its log pipe ([None]:
    closed), the answers of poll(2) (true: the log pipe is readable), the log, the
    answers of the allocator. *)
Record monitor := mk_monitor {
  mo_ctx : Authctxt;
  mo_opts : ServerOptions;
  mo_table : list mon_entry;
  mo_key_blob : option (list Z);
  mo_key_blobtype : Z;
  mo_key_opts : option sshauthopt;
  mo_cuser : option (list Z);
  mo_chost : option (list Z);
  mo_auth_method : list Z;
  mo_auth_submethod : option (list Z);
  mo_session_id2 : option (list Z);
  mo_auth_attempted : bool;
  mo_invalid_user : bool;
  mo_compat_set : bool;
  mo_compat : Z;
  mo_auth_opts : option sshauthopt;
  mo_call_count : Z;
  mo_proofs_done : list bool;
  mo_gsscontext : option Gssctxt;
  mo_gssapi_client : gss_client;
  mo_child_state : option (list Z);
  mo_in_ : list Z;
  mo_out : list Z;
  mo_log_in : option (list Z);
  mo_poll : list bool;
  mo_log : list logline;
  mo_oom : list bool;
  mo_world : world
}.

Definition rebuild_monitor (c : monitor) : monitor :=
  mk_monitor
    (mo_ctx c) (mo_opts c) (mo_table c) (mo_key_blob c) (mo_key_blobtype c) (mo_key_opts c)
    (mo_cuser c) (mo_chost c) (mo_auth_method c) (mo_auth_submethod c) (mo_session_id2 c)
    (mo_auth_attempted c) (mo_invalid_user c) (mo_compat_set c) (mo_compat c) (mo_auth_opts c)
    (mo_call_count c) (mo_proofs_done c) (mo_gsscontext c) (mo_gssapi_client c) (mo_child_state
    c) (mo_in_ c) (mo_out c) (mo_log_in c) (mo_poll c) (mo_log c) (mo_oom c) (mo_world c).

Ltac assign_monitor c field v :=
  let t := eval cbv [rebuild_monitor] in (rebuild_monitor c) in
  lazymatch t with context G [field c] => let r := context G [v] in exact r end.

Definition set_mo_ctx (v : Authctxt) (c : monitor) : monitor := ltac:(assign_monitor c (mo_ctx) v).
Definition set_mo_opts (v : ServerOptions) (c : monitor) : monitor := ltac:(assign_monitor c (mo_opts) v).
Definition set_mo_table (v : list mon_entry) (c : monitor) : monitor := ltac:(assign_monitor c (mo_table) v).
Definition set_mo_key_blob (v : option (list Z)) (c : monitor) : monitor := ltac:(assign_monitor c (mo_key_blob) v).
Definition set_mo_key_blobtype (v : Z) (c : monitor) : monitor := ltac:(assign_monitor c (mo_key_blobtype) v).
Definition set_mo_key_opts (v : option sshauthopt) (c : monitor) : monitor := ltac:(assign_monitor c (mo_key_opts) v).
Definition set_mo_cuser (v : option (list Z)) (c : monitor) : monitor := ltac:(assign_monitor c (mo_cuser) v).
Definition set_mo_chost (v : option (list Z)) (c : monitor) : monitor := ltac:(assign_monitor c (mo_chost) v).
Definition set_mo_auth_method (v : list Z) (c : monitor) : monitor := ltac:(assign_monitor c (mo_auth_method) v).
Definition set_mo_auth_submethod (v : option (list Z)) (c : monitor) : monitor := ltac:(assign_monitor c (mo_auth_submethod) v).
Definition set_mo_session_id2 (v : option (list Z)) (c : monitor) : monitor := ltac:(assign_monitor c (mo_session_id2) v).
Definition set_mo_auth_attempted (v : bool) (c : monitor) : monitor := ltac:(assign_monitor c (mo_auth_attempted) v).
Definition set_mo_invalid_user (v : bool) (c : monitor) : monitor := ltac:(assign_monitor c (mo_invalid_user) v).
Definition set_mo_compat_set (v : bool) (c : monitor) : monitor := ltac:(assign_monitor c (mo_compat_set) v).
Definition set_mo_compat (v : Z) (c : monitor) : monitor := ltac:(assign_monitor c (mo_compat) v).
Definition set_mo_auth_opts (v : option sshauthopt) (c : monitor) : monitor := ltac:(assign_monitor c (mo_auth_opts) v).
Definition set_mo_call_count (v : Z) (c : monitor) : monitor := ltac:(assign_monitor c (mo_call_count) v).
Definition set_mo_proofs_done (v : list bool) (c : monitor) : monitor := ltac:(assign_monitor c (mo_proofs_done) v).
Definition set_mo_gsscontext (v : option Gssctxt) (c : monitor) : monitor := ltac:(assign_monitor c (mo_gsscontext) v).
Definition set_mo_gssapi_client (v : gss_client) (c : monitor) : monitor := ltac:(assign_monitor c (mo_gssapi_client) v).
Definition set_mo_child_state (v : option (list Z)) (c : monitor) : monitor := ltac:(assign_monitor c (mo_child_state) v).
Definition set_mo_in_ (v : list Z) (c : monitor) : monitor := ltac:(assign_monitor c (mo_in_) v).
Definition set_mo_out (v : list Z) (c : monitor) : monitor := ltac:(assign_monitor c (mo_out) v).
Definition set_mo_log_in (v : option (list Z)) (c : monitor) : monitor := ltac:(assign_monitor c (mo_log_in) v).
Definition set_mo_poll (v : list bool) (c : monitor) : monitor := ltac:(assign_monitor c (mo_poll) v).
Definition set_mo_log (v : list logline) (c : monitor) : monitor := ltac:(assign_monitor c (mo_log) v).
Definition set_mo_oom (v : list bool) (c : monitor) : monitor := ltac:(assign_monitor c (mo_oom) v).
Definition set_mo_world (v : world) (c : monitor) : monitor := ltac:(assign_monitor c (mo_world) v).
Abbreviation MM := (M monitor).

Definition modm (f : monitor -> monitor) : MM unit := fun s => (Ok tt, f s).
Definition svc {A} (f : world -> A * world) : MM A := fun s =>
  let '(a, w) := f (mo_world s) in (Ok a, set_mo_world w s).
Definition modctx (f : Authctxt -> Authctxt) : MM unit := modm (fun s => set_mo_ctx (f (mo_ctx s)) s).

(** A computation that draws the allocator's answers. *)
Definition on_alloc {A} (m : AM A) : MM A := fun s =>
  let '(r, oom) := m (mo_oom s) in (r, set_mo_oom oom s).

(** A step that must succeed: [if ((r = ...) != 0) fatal_fr(r, ...)]. *)
Definition must {A} (m : AM A) : MM A := or_die (on_alloc m).

(** ** The socket *)

Definition mm_request_send (type : Z) (m : list Z) : MM unit :=
  if zlen m >=? MONITOR_MAX_MSGLEN then die
  else modm (fun s => set_mo_out (mo_out s ++ POKE_U32 (zlen m + 1) ++ [u8 type] ++ m) s).

(** The end of the stream ends the process. *)
Definition mm_request_receive : MM (list Z) :=
  inp ← gets mo_in_;
  if zlen inp <? 4 then die
  else
    let msg_len := PEEK_U32 (slice inp 0 4) in
    let rest := drop 4 inp in
    if msg_len >? MONITOR_MAX_MSGLEN then die
    else
      ok ← on_alloc alloc;
      if negb ok then die
      else if zlen rest <? msg_len then die
      else modm (set_mo_in_ (drop (Z.to_nat msg_len) rest));; mret (slice rest 0 msg_len).

Definition mm_request_receive_expect (type : Z) : MM (list Z) :=
  m ← mm_request_receive;
  '(rtype, m) ← must (get_u8_at m);
  if negb (rtype =? type) then die else mret m.

(** [false]: the pipe was closed. *)
Definition monitor_read_log : MM bool :=
  log ← gets mo_log_in;
  match log with
  | None => die
  | Some l =>
      if zlen l <? 4 then modm (set_mo_log_in None);; mret false
      else
        let len := PEEK_U32 (slice l 0 4) in
        let l := drop 4 l in
        if (len <=? 4) || (len >? 8192) then die
        else if zlen l <? len then die
        else
          modm (set_mo_log_in (Some (drop (Z.to_nat len) l)));;
          let m := slice l 0 len in
          '(level, m) ← must (get_u32_at m);
          '(_, m) ← must (get_u32_at m);
          '(_, m) ← must (get_cstring_at true m);
          if level >? 7 then die
          else
            '(pname, m) ← must (get_cstring_at true m);
            if streq pname (str "sftp-server") then
              '(_, m) ← must (get_u32_at m);
              '(_, m) ← must (get_u32_at m);
              '(_, m) ← must (get_u32_at m);
              mret true
            else mret true
  end.

(** poll(2): logs first.  An answer that the log pipe is readable makes no
    sense once it is closed. *)
Fixpoint poll_loop (polls : list bool) : MM unit :=
  match polls with
  | [] => modm (set_mo_poll [])
  | b :: polls =>
      log ← gets mo_log_in;
      if b && bool_decide (is_Some log) then monitor_read_log;; poll_loop polls
      else modm (set_mo_poll polls)
  end.

(** ** Keys and the data they sign *)

Definition monitor_allowed_key (s : monitor) (blob : list Z) : bool :=
  match mo_key_blob s with Some b => bool_decide (b = blob) | None => false end.

Definition monitor_reset_key_state : MM unit :=
  modm (fun s => set_mo_chost None (set_mo_cuser None (set_mo_key_opts None
         (set_mo_key_blobtype MM_NOKEY (set_mo_key_blob None s))))).

(** [strsep] over the list, up to an empty element. *)
Definition key_base_type_match (key : sshkey) (lst : list Z) : bool :=
  existsb (fun s => sshkey_type_from_name nids s =? key_type key) (until_empty (split lst)).

(** The index of a host key, or -1. *)
Fixpoint hostkey_index_loop (key : sshkey) (keys : list (option sshkey * option sshkey * option sshkey)) (i : Z) : Z :=
  match keys with
  | [] => -1
  | (prv, pub, cert) :: keys =>
      let same k := match k with Some k => sshkey_equal key k | None => false end in
      if sshkey_is_cert nids key then (if same cert then i else hostkey_index_loop key keys (i + 1))
      else if same prv || same pub then i else hostkey_index_loop key keys (i + 1)
  end.

Definition get_hostkey_index (key : sshkey) : Z := hostkey_index_loop key host_keys 0.
Definition get_hostkey_by_index (i : Z) : option sshkey :=
  if i <? 0 then None else '(prv, _, _) ← host_keys !! Z.to_nat i; prv.
Definition get_hostkey_public_by_index (i : Z) : option sshkey :=
  if i <? 0 then None else '(_, pub, _) ← host_keys !! Z.to_nat i; pub.

(** user[:style] *)
Definition userstyle (c : Authctxt) : list Z :=
  default (str "(null)") (a_user c) ++ match a_style c with Some st => chr ":" :: st | None => [] end.

Definition session_ok (s : monitor) (p : list Z) : bool :=
  match mo_session_id2 s with Some id => bool_decide (p = id) | None => false end.

Definition flag_of (b : bool) : Z := if b then 1 else 0.

Definition monitor_valid_userblob (data : list Z) : MM bool :=
  s ← get_st;
  let id_len := zlen (default [] (mo_session_id2 s)) in
  '(ok1, b) ← (if bits (mo_compat s) SSH_OLD_SESSIONID then
                 let ok := bool_decide (is_Some (mo_session_id2 s)) && negb (zlen data <? id_len) &&
                           session_ok s (take (Z.to_nat id_len) data) in
                 if zlen data <? id_len then die else mret (ok, drop (Z.to_nat id_len) data)
               else '(p, b) ← must (get_string_direct_at data); mret (session_ok s p, b));
  '(type, b) ← must (get_u8_at b);
  let ok2 := type =? SSH2_MSG_USERAUTH_REQUEST in
  '(cp, b) ← must (get_cstring_at true b);
  let ok3 := streq (userstyle (mo_ctx s)) cp in
  b ← must (skip_string_at b);
  '(cp, b) ← must (get_cstring_at true b);
  let hostbound := streq (str "publickey-hostbound-v00@openssh.com") cp in
  let ok4 := streq (str "publickey") cp || hostbound in
  '(type, b) ← must (get_u8_at b);
  let ok5 := negb (type =? 0) in
  b ← must (skip_string_at b);
  b ← must (skip_string_at b);
  '(hostkey, b) ← (if hostbound then '(k, b) ← must (sshkey_froms b); mret (Some k, b) else mret (None, b));
  let ok6 := zlen b =? 0 in
  match hostkey with
  | Some k => if get_hostkey_index k =? -1 then die else mret (ok1 && ok2 && ok3 && ok4 && ok5 && ok6)
  | None => mret (ok1 && ok2 && ok3 && ok4 && ok5 && ok6)
  end.

(** Without a trailing dot. *)
Definition strip_dot (h : list Z) : list Z :=
  if (0 <? zlen h) && (at_ h (length h - 1) =? chr ".") then take (length h - 1) h else h.

Definition monitor_valid_hostbasedblob (data cuser chost : list Z) : MM bool :=
  s ← get_st;
  '(p, b) ← must (get_string_direct_at data);
  let ok1 := session_ok s p in
  '(type, b) ← must (get_u8_at b);
  let ok2 := type =? SSH2_MSG_USERAUTH_REQUEST in
  '(cp, b) ← must (get_cstring_at true b);
  let ok3 := streq (userstyle (mo_ctx s)) cp in
  b ← must (skip_string_at b);
  '(cp, b) ← must (get_cstring_at true b);
  let ok4 := streq cp (str "hostbased") in
  b ← must (skip_string_at b);
  b ← must (skip_string_at b);
  '(cp, b) ← must (get_cstring_at true b);
  let ok5 := streq (strip_dot cp) chost in
  '(cp, b) ← must (get_cstring_at true b);
  let ok6 := streq cp cuser in
  mret (ok1 && ok2 && ok3 && ok4 && ok5 && ok6 && (zlen b =? 0)).

(** ** Checks of passwords and host keys: [auth-passwd.c], [auth2-hostbased.c] *)

Definition MAX_PASSWORD_LEN : Z := 1024.

Definition auth_password (password : list Z) : MM bool :=
  s ← get_st;
  match a_pw (mo_ctx s) with
  | None => crash
  | Some pw =>
      if zlen password >? MAX_PASSWORD_LEN then mret false
      else
        let ok := a_valid (mo_ctx s) &&
                  negb ((pw_uid pw =? 0) && negb (permit_root_login (mo_opts s) =? PERMIT_YES)) in
        if bool_decide (password = []) && negb (permit_empty_passwd (mo_opts s)) then mret false
        else r ← svc (windows_password_auth (pw_name pw) password); mret (r && ok)
  end.

(** The fingerprint for the log: that of the authority of a certificate. *)
Definition fingerprint_of (key : sshkey) : MM (list Z) :=
  match sshkey_fingerprint (match key_cert key with Some (_, _, ca) => ca | None => key end) with
  | None => die
  | Some fp => mret fp
  end.

(** Whether the key is allowed, and the client host without its trailing dot:
    the caller's string is changed in place. *)
Definition hostbased_key_allowed (pw : option passwd) (cuser chost : list Z) (key : sshkey) : MM (bool * list Z) :=
  o ← gets mo_opts;
  revoked ← svc (auth_key_is_revoked key);
  if (revoked : bool) then mret (false, chost)
  else
    resolvedname ← svc auth_get_canonical_hostname;
    ipaddr ← svc ssh_remote_ipaddr;
    let chost := strip_dot chost in
    match pw with
    | None => crash
    | Some pw =>
        '(ok, lookup) ← (if hostbased_uses_name_from_packet_only o
                         then ok ← svc (auth_rhosts2 pw cuser chost chost); mret (ok, chost)
                         else ok ← svc (auth_rhosts2 pw cuser resolvedname ipaddr); mret (ok, resolvedname));
        if negb ok then mret (false, chost)
        else if sshkey_is_cert nids key && negb (sshkey_cert_check_host key lookup (ca_sign_algorithms o))
        then fp ← fingerprint_of key; mret (false, chost)
        else
          st ← svc (check_key_in_hostfiles pw key lookup false (ignore_user_known_hosts o));
          st ← (if st =? HOST_NEW then svc (check_key_in_hostfiles pw key lookup true (ignore_user_known_hosts o))
                else mret st);
          if negb (st =? HOST_OK) then mret (false, chost)
          else fp ← fingerprint_of key; mret (true, chost)
    end.

(** ** The answers

    Each takes the rest of the request and returns what the C function does;
    1 is a successful authentication. *)

Definition send_answer (type : Z) (build : list Z -> AM (list Z)) : MM unit :=
  m ← must (build []); mm_request_send type m.

Definition permit (type : Z) (p : bool) : MM unit :=
  modm (fun s => set_mo_table (monitor_permit (mo_table s) type p) s).

Definition mm_answer_state (m : list Z) : MM Z :=
  s ← get_st;
  hostkeys ← svc pack_hostkeys;
  config ← svc (serialise_server_options (mo_opts s));
  match config with
  | None => die
  | Some config =>
      m ← must (m ← put_string_at config []; m ← put_u64_at timing_secret m; m ← put_string_at hostkeys m;
                m ← put_string_at versions.1 m; put_string_at versions.2 m);
      if bool_decide (is_Some (a_pw (mo_ctx s))) && a_authenticated (mo_ctx s) then die
      else mm_request_send MONITOR_ANS_STATE m;; mret 0
  end.

Definition mm_answer_moduli (m : list Z) : MM Z :=
  '(min, m) ← must (get_u32_at m);
  '(want, m) ← must (get_u32_at m);
  '(max, m) ← must (get_u32_at m);
  if (max <? min) || (want <? min) || (max <? want) then die
  else
    dh ← svc (choose_dh (i32 min) (i32 want) (i32 max));
    send_answer MONITOR_ANS_MODULI (fun m =>
      match dh with
      | None => put_u8_at 0 m
      | Some (p, g) => m ← put_u8_at 1 m; m ← put_string_at (bignum_bytes p) m; put_string_at (bignum_bytes g) m
      end);;
    mret 0.

Definition mm_answer_setcompat (m : list Z) : MM Z :=
  '(compat, m) ← must (get_u32_at m);
  modm (fun s => set_mo_compat_set true (set_mo_compat compat s));;
  mret 0.

Definition proof_req : list Z := str "hostkeys-prove-00@openssh.com".

(** The proof that host key [keyid] would be asked for: at most one each. *)
Definition check_proof (keyid : Z) (p : list Z) : MM unit :=
  s ← get_st;
  if zlen (default [] (mo_session_id2 s)) =? 0 then die
  else
    match get_hostkey_public_by_index keyid with
    | None => die
    | Some key =>
        let n := Z.to_nat keyid in
        let done := mo_proofs_done s ++ replicate (S n - length (mo_proofs_done s)) false in
        modm (set_mo_proofs_done done);;
        if nth n done false then die
        else
          modm (set_mo_proofs_done (<[n := true]> done));;
          sigbuf ← must (b ← put_string_at proof_req []; b ← put_string_at (default [] (mo_session_id2 s)) b;
                         sshkey_puts key b);
          if bool_decide (p = sigbuf) then mret tt else die
    end.

Definition mm_answer_sign (m : list Z) : MM Z :=
  s ← get_st;
  if negb (mo_compat_set s) then die
  else
    '(pubkey, m) ← must (sshkey_froms m);
    '(p, m) ← must (get_string_at m);
    '(alg, m) ← must (get_cstring_at true m);
    '(compat, m) ← must (get_u32_at m);
    let keyid := get_hostkey_index pubkey in
    if keyid =? -1 then die
    else
      let datlen := zlen p in
      (if (datlen =? 20) || (datlen =? 32) || (datlen =? 48) || (datlen =? 64) then mret tt else check_proof keyid p);;
      (if zlen (default [] (mo_session_id2 s)) =? 0 then modm (set_mo_session_id2 (Some p)) else mret tt);;
      signature ← (match get_hostkey_by_index keyid with
                   | Some key => svc (sshkey_sign key p alg compat)
                   | None =>
                       match get_hostkey_public_by_index keyid with
                       | Some key => if auth_sock >? 0 then svc (ssh_agent_sign key p alg compat) else die
                       | None => die
                       end
                   end);
      match signature with
      | None => die
      | Some signature =>
          send_answer MONITOR_ANS_SIGN (put_string_at signature);;
          permit MONITOR_REQ_PWNAM true;;
          mret 0
      end.

(** A field of struct passwd, as its four bytes in memory. *)
Definition put_id (v : Z) (m : list Z) : AM (list Z) :=
  put_string_at [v mod 256; Z.shiftr v 8 mod 256; Z.shiftr v 16 mod 256; Z.shiftr v 24 mod 256] m.

Definition put_pw (pw : option passwd) (m : list Z) : AM (list Z) :=
  match pw with
  | None => put_u8_at 0 m
  | Some pw =>
      m ← put_u8_at 1 m; m ← put_id (pw_uid pw) m; m ← put_id (pw_gid pw) m;
      m ← put_string_at (pw_name pw) m; m ← put_string_at (str "*") m;
      m ← put_string_at (pw_dir pw) m; put_string_at (pw_shell pw) m
  end.

(** The monitor's none_enabled is never cleared. *)
Definition setup_lists : MM unit :=
  o ← gets mo_opts;
  let '(o, lists, _) := auth2_setup_methods_lists true o in
  modm (set_mo_opts o);;
  match lists with Some l => modctx (set_a_auth_methods l) | None => mret tt end.

Definition mm_answer_pwnamallow (m : list Z) : MM Z :=
  s ← get_st;
  if negb (mo_compat_set s) then die
  else
    modctx (fun c => set_a_attempt (a_attempt c + 1) c);;
    if negb (a_attempt (mo_ctx s) =? 0) then die
    else
      '(user, m) ← must (get_cstring_at true m);
      modctx (set_a_user (Some user));;
      '(pwent, o) ← svc (getpwnamallow user (mo_opts s));
      modm (set_mo_opts o);;
      (match pwent with
       | None => modm (set_mo_invalid_user true);; modctx (set_a_pw (Some (fakepw privsep_pw)))
       | Some pw => modctx (fun c => set_a_valid true (set_a_pw (Some pw) c))
       end);;
      m ← must (put_pw pwent []);
      if refuse_connection o then throw EXIT_CONFIG_REFUSED
      else
        config ← svc (serialise_server_options o);
        match config with
        | None => die
        | Some config =>
            m ← must (put_string_at config m);
            setup_lists;;
            mm_request_send MONITOR_ANS_PWNAM m;;
            permit MONITOR_REQ_AUTHSERV true;;
            permit MONITOR_REQ_AUTH2_READ_BANNER true;;
            mret 0
        end.

Definition mm_answer_auth2_read_banner (m : list Z) : MM Z :=
  banner ← svc auth2_read_banner;
  send_answer MONITOR_ANS_AUTH2_READ_BANNER (put_string_at (default [] banner));;
  mret 0.

Definition mm_answer_authserv (m : list Z) : MM Z :=
  modm (fun s => set_mo_table (monitor_permit_authentications (mo_table s) true) s);;
  '(service, m) ← must (get_cstring_at true m);
  modctx (set_a_service (Some service));;
  '(style, m) ← must (get_cstring_at true m);
  modctx (set_a_style (nonempty style));;
  mret 0.

Definition mm_answer_authpassword (m : list Z) : MM Z :=
  o ← gets mo_opts;
  if negb (password_authentication o) then die
  else
    '(passwd, m) ← must (get_cstring_at true m);
    authenticated ← auth_password passwd;
    send_answer MONITOR_ANS_AUTHPASSWORD (put_u32_at (flag_of authenticated));;
    modm (fun s => set_mo_call_count (mo_call_count s + 1) s);;
    n ← gets mo_call_count;
    modm (set_mo_auth_method (if bool_decide (passwd = []) && (n =? 1) then str "none" else str "password"));;
    mret (flag_of authenticated).

Definition client_info (cuser chost : list Z) : list Z :=
  str "client user " ++ [34] ++ take 100 cuser ++ [34] ++ str ", client host " ++ [34] ++ take 100 chost ++ [34].

(** Whether a key is allowed, its options, and the client host. *)
Definition check_key (type : Z) (cuser chost : list Z) (key : sshkey) (attempt : Z)
    : MM (bool * option sshauthopt * list Z) :=
  s ← get_st;
  let o := mo_opts s in
  let c := mo_ctx s in
  if negb (a_valid c) then mret (false, None, chost)
  else if type =? MM_USERKEY then
    modm (set_mo_auth_method (str "publickey"));;
    if negb (pubkey_authentication o) || auth2_key_already_used c key ||
       negb (key_base_type_match key (pubkey_accepted_algos o)) then mret (false, None, chost)
    else
      match a_pw c with
      | None => crash
      | Some pw => '(allowed, opts) ← svc (user_key_allowed pw key attempt); mret (allowed, opts, chost)
      end
  else if type =? MM_HOSTKEY then
    modm (set_mo_auth_method (str "hostbased"));;
    if negb (hostbased_authentication o) || auth2_key_already_used c key ||
       negb (key_base_type_match key (hostbased_accepted_algos o)) then mret (false, None, chost)
    else
      '(allowed, chost) ← hostbased_key_allowed (a_pw c) cuser chost key;
      modctx (auth2_record_info (client_info cuser chost));;
      mret (allowed, None, chost)
  else die.

Definition write_log (authenticated partial : bool) (method : list Z) (submethod : option (list Z)) : MM unit :=
  modm (fun s =>
    match auth_log true (mo_opts s) (mo_ctx s) authenticated partial method submethod with
    | Some l => set_mo_log (mo_log s ++ [l]) s
    | None => s
    end).

Definition mm_answer_keyallowed (m : list Z) : MM Z :=
  '(type, m) ← must (get_u32_at m);
  '(cuser, m) ← must (get_cstring_at true m);
  '(chost, m) ← must (get_cstring_at true m);
  '(key, m) ← must (sshkey_froms m);
  '(attempt, m) ← must (get_u32_at m);
  '(allowed, opts, chost) ← check_key type cuser chost key attempt;
  c ← gets mo_ctx;
  c ← auth2_record_key c false key;
  modm (set_mo_ctx c);;
  monitor_reset_key_state;;
  (if (allowed : bool) then
     match sshkey_to_blob key with
     | inl _ => die
     | inr blob => modm (fun s => set_mo_chost (Some chost) (set_mo_cuser (Some cuser) (set_mo_key_opts opts
                           (set_mo_key_blobtype type (set_mo_key_blob (Some blob) s)))))
     end
   else method ← gets mo_auth_method; write_log false false method None);;
  send_answer MONITOR_ANS_KEYALLOWED (fun m =>
    m ← put_u32_at (flag_of allowed) m;
    match opts with Some o => sshauthopt_serialise o true m | None => mret m end);;
  mret 0.

(** What a security key must have confirmed. *)
Definition sk_ok (o : ServerOptions) (opts : sshauthopt) (sk_flags : Z) : bool :=
  let req_presence := bits (pubkey_auth_options o) PUBKEYAUTH_TOUCH_REQUIRED || (no_require_user_presence opts =? 0) in
  let req_verify := bits (pubkey_auth_options o) PUBKEYAUTH_VERIFY_REQUIRED || negb (require_verify opts =? 0) in
  negb (req_presence && negb (bits sk_flags SSH_SK_USER_PRESENCE_REQD)) &&
  negb (req_verify && negb (bits sk_flags SSH_SK_USER_VERIFICATION_REQD)).

(** The verification: its result and the details of a security key. *)
Definition verify_signature (key : sshkey) (signature data : list Z) (sigalg : option (list Z))
    : MM (bool * option (Z * Z)) :=
  s ← get_st;
  match sshkey_verify key signature data sigalg (mo_compat s) with
  | inl _ => mret (false, None)
  | inr None => mret (true, None)
  | inr (Some (counter, flags)) =>
      if mo_key_blobtype s =? MM_USERKEY then
        match mo_key_opts s with
        | None => crash
        | Some opts => mret (sk_ok (mo_opts s) opts flags, Some (counter, flags))
        end
      else mret (true, Some (counter, flags))
  end.

(** Whether the signed data are those of this user's request. *)
Definition valid_data (data cuser chost : list Z) : MM bool :=
  type ← gets mo_key_blobtype;
  if type =? MM_USERKEY then
    ok ← monitor_valid_userblob data; modm (set_mo_auth_method (str "publickey"));; mret ok
  else if type =? MM_HOSTKEY then
    ok ← monitor_valid_hostbasedblob data cuser chost; modm (set_mo_auth_method (str "hostbased"));; mret ok
  else mret false.

Definition mm_answer_keyverify (m : list Z) : MM Z :=
  '(blob, m) ← must (get_string_direct_at m);
  '(signature, m) ← must (get_string_direct_at m);
  '(data, m) ← must (get_string_direct_at m);
  '(sigalg, m) ← must (get_cstring_at true m);
  s ← get_st;
  match mo_cuser s, mo_chost s with
  | Some cuser, Some chost =>
      if negb (monitor_allowed_key s blob) then die
      else
        match sshkey_from_blob blob with
        | inl _ => die
        | inr key =>
            ok ← valid_data data cuser chost;
            if negb ok then die
            else
              match sshkey_fingerprint key with
              | None => die
              | Some _ =>
                  '(ok, sig_details) ← verify_signature key signature data (nonempty sigalg);
                  c ← gets mo_ctx;
                  c ← auth2_record_key c ok key;
                  modm (set_mo_ctx c);;
                  (if (mo_key_blobtype s =? MM_USERKEY) && ok then
                     s ← get_st;
                     '(a, _) ← on_alloc (auth_activate_options (mo_auth_opts s) (mo_key_opts s));
                     modm (set_mo_auth_opts a)
                   else mret tt);;
                  monitor_reset_key_state;;
                  send_answer MONITOR_ANS_KEYVERIFY (fun m =>
                    m ← put_u32_at (flag_of (negb ok)) m;
                    m ← put_u8_at (flag_of (bool_decide (is_Some sig_details))) m;
                    match sig_details with
                    | Some (counter, flags) => m ← put_u32_at counter m; put_u8_at flags m
                    | None => mret m
                    end);;
                  mret (flag_of ok)
              end
        end
  | _, _ => die
  end.

(** *** GSSAPI *)

Definition mm_answer_gss_setup_ctx (m : list Z) : MM Z :=
  o ← gets mo_opts;
  if negb (gss_authentication o) then die
  else
    '(oid, m) ← must (get_string_at m);
    modm (set_mo_gsscontext (Some (mk_Gssctxt oid)));;
    major ← svc (gss_acquire_cred oid);
    send_answer MONITOR_ANS_GSSSETUP (put_u32_at major);;
    permit MONITOR_REQ_GSSSTEP true;;
    mret 0.

Definition ssh_gssapi_accept_ctx (ctx : option Gssctxt) (tok : list Z) : MM (Z * list Z * Z) :=
  match ctx with
  | None => crash
  | Some ctx =>
      '(major, out, flags) ← svc (gss_accept_sec_context (gc_oid ctx) tok);
      (if accept_complete major flags then
         names ← svc gss_client_names;
         match ssh_gssapi_getclient ctx names with
         | GC_client c => modm (set_mo_gssapi_client c)
         | GC_error => die
         | GC_crash => crash
         end
       else mret tt);;
      mret (major, out, flags)
  end.

Definition mm_answer_gss_accept_ctx (m : list Z) : MM Z :=
  o ← gets mo_opts;
  if negb (gss_authentication o) then die
  else
    '(tok, m) ← must (get_string_at m);
    ctx ← gets mo_gsscontext;
    '(major, out, flags) ← ssh_gssapi_accept_ctx ctx tok;
    send_answer MONITOR_ANS_GSSSTEP (fun m =>
      m ← put_u32_at major m; m ← put_string_at out m; put_u32_at flags m);;
    (if major =? GSS_S_COMPLETE then
       permit MONITOR_REQ_GSSSTEP false;; permit MONITOR_REQ_GSSUSEROK true;; permit MONITOR_REQ_GSSCHECKMIC true
     else mret tt);;
    mret 0.

Definition mm_answer_gss_checkmic (m : list Z) : MM Z :=
  o ← gets mo_opts;
  if negb (gss_authentication o) then die
  else
    '(gssbuf, m) ← must (get_string_at m);
    '(mic, m) ← must (get_string_at m);
    ctx ← gets mo_gsscontext;
    match ctx with
    | None => crash
    | Some _ =>
        ret ← svc (gss_verify_mic gssbuf mic);
        send_answer MONITOR_ANS_GSSCHECKMIC (put_u32_at ret);;
        (if GSS_ERROR ret then mret tt else permit MONITOR_REQ_GSSUSEROK true);;
        mret 0
    end.

(** A client that may not log in is forgotten. *)
Definition ssh_gssapi_userok (user : list Z) : MM bool :=
  client ← gets mo_gssapi_client;
  if zlen (default [] (gcl_exportedname client)) =? 0 then mret false
  else
    match gcl_mech client with
    | None => mret false
    | Some _ =>
        ok ← svc (gss_mech_userok client user);
        if (ok : bool) then mret true else modm (set_mo_gssapi_client no_client);; mret false
    end.

Definition mm_answer_gss_userok (m : list Z) : MM Z :=
  s ← get_st;
  if negb (gss_authentication (mo_opts s)) then die
  else
    authenticated ←
      (if a_valid (mo_ctx s) then
         ssh_gssapi_userok (default [] (a_user (mo_ctx s)))
       else mret false);
    send_answer MONITOR_ANS_GSSUSEROK (put_u32_at (flag_of authenticated));;
    modm (set_mo_auth_method (str "gssapi-with-mic"));;
    s ← get_st;
    (match gcl_displayname (mo_gssapi_client s) with
     | Some (d :: ds) => modctx (auth2_record_info (d :: ds))
     | _ => mret tt
     end);;
    mret (flag_of authenticated).

(** ** The dispatcher *)

Definition run_answer (f : mon_fn) (m : list Z) : MM Z :=
  match f with
  | mm_answer_state_fn => mm_answer_state m
  | mm_answer_moduli_fn => mm_answer_moduli m
  | mm_answer_setcompat_fn => mm_answer_setcompat m
  | mm_answer_sign_fn => mm_answer_sign m
  | mm_answer_pwnamallow_fn => mm_answer_pwnamallow m
  | mm_answer_authserv_fn => mm_answer_authserv m
  | mm_answer_auth2_read_banner_fn => mm_answer_auth2_read_banner m
  | mm_answer_authpassword_fn => mm_answer_authpassword m
  | mm_answer_keyallowed_fn => mm_answer_keyallowed m
  | mm_answer_keyverify_fn => mm_answer_keyverify m
  | mm_answer_gss_setup_ctx_fn => mm_answer_gss_setup_ctx m
  | mm_answer_gss_accept_ctx_fn => mm_answer_gss_accept_ctx m
  | mm_answer_gss_userok_fn => mm_answer_gss_userok m
  | mm_answer_gss_checkmic_fn => mm_answer_gss_checkmic m
  end.

(** The index and entry of a request type. *)
Fixpoint find_entry (ent : list mon_entry) (type : Z) (i : nat) : option (nat * mon_entry) :=
  match ent with
  | [] => None
  | e :: ent => if ent_type e =? type then Some (i, e) else find_entry ent type (S i)
  end.

(** Reads and answers a request; the result and the entry afterwards. *)
Definition monitor_read : MM (Z * mon_entry) :=
  polls ← gets mo_poll;
  poll_loop polls;;
  m ← mm_request_receive;
  '(type, m) ← must (get_u8_at m);
  ent ← gets mo_table;
  match find_entry ent type 0 with
  | None => die
  | Some (i, e) =>
      if negb (bits (ent_flags e) MON_PERMIT) then die
      else
        ret ← run_answer (ent_f e) m;
        ent ← gets mo_table;
        match ent !! i with
        | None => crash
        | Some e =>
            let e := if bits (ent_flags e) MON_ONCE then set_flags (Z.land (ent_flags e) (Z.lnot MON_PERMIT)) e else e in
            modm (set_mo_table (<[i := e]> ent));;
            mret (ret, e)
        end
  end.

(** What the required methods make of a success: whether the user is now
    authenticated, and whether only partly. *)
Definition apply_lists (authenticated : bool) : MM (bool * bool) :=
  s ← get_st;
  if negb (zlen (auth_methods (mo_opts s)) =? 0) && authenticated then
    let '(lists, u) := auth2_update_methods_lists (a_auth_methods (mo_ctx s)) (mo_auth_method s) (mo_auth_submethod s) in
    modctx (set_a_auth_methods lists);;
    match u with
    | U_fatal => die
    | U_complete => mret (true, false)
    | U_partial => mret (false, true)
    end
  else mret (authenticated, false).

Definition root_check (flags : Z) (authenticated : bool) : MM bool :=
  s ← get_st;
  if negb authenticated then mret false
  else if negb (bits flags MON_AUTHDECIDE) then die
  else
    match a_pw (mo_ctx s) with
    | None => crash
    | Some pw => if pw_uid pw =? 0 then auth_root_allowed (mo_opts s) (mo_auth_opts s) (mo_auth_method s) else mret true
    end.

Definition note_attempt (flags : Z) (authenticated partial : bool) : MM unit :=
  if negb (bits flags (Z.lor MON_AUTHDECIDE MON_ALOG)) then mret tt
  else
    s ← get_st;
    write_log authenticated partial (mo_auth_method s) (mo_auth_submethod s);;
    (if negb partial && negb authenticated then modctx (fun c => set_a_failures (a_failures c + 1) c) else mret tt);;
    (if authenticated || partial then
       s ← get_st;
       c ← must (auth2_update_session_info (mo_ctx s) (mo_auth_method s) (mo_auth_submethod s));
       modm (set_mo_ctx c)
     else mret tt).

(** A round of the loop of monitor_child_preauth. *)
Definition preauth_round : MM bool :=
  modm (fun s => set_mo_auth_submethod None (set_mo_auth_method (str "unknown") s));;
  modctx auth2_authctxt_reset_info;;
  '(ret, ent) ← monitor_read;
  (if bits (ent_flags ent) MON_AUTH then modm (set_mo_auth_attempted true) else mret tt);;
  '(authenticated, partial) ← apply_lists (ret =? 1);
  authenticated ← root_check (ent_flags ent) authenticated;
  note_attempt (ent_flags ent) authenticated partial;;
  s ← get_st;
  if a_failures (mo_ctx s) >? max_authtries (mo_opts s) then die else mret authenticated.

(** A round reads at least the four bytes of a length, so that the bytes of
    the stream bound the rounds. *)
Fixpoint preauth_loop (fuel : nat) : MM unit :=
  match fuel with
  | O => throw OUT_OF_FUEL
  | S fuel => authenticated ← preauth_round; if (authenticated : bool) then mret tt else preauth_loop fuel
  end.

Fixpoint drain_log (fuel : nat) : MM unit :=
  match fuel with
  | O => throw OUT_OF_FUEL
  | S fuel =>
      log ← gets mo_log_in;
      match log with
      | None => mret tt
      | Some _ => more ← monitor_read_log; if (more : bool) then drain_log fuel else mret tt
      end
  end.

Definition mm_get_keystate : MM unit :=
  m ← mm_request_receive_expect MONITOR_REQ_KEYEXPORT; modm (set_mo_child_state (Some m)).

Definition permit_first : MM unit :=
  permit MONITOR_REQ_STATE true;; permit MONITOR_REQ_MODULI true;;
  permit MONITOR_REQ_SETCOMPAT true;; permit MONITOR_REQ_SIGN true.

Definition monitor_child_preauth : MM unit :=
  modm (fun s => set_mo_table mon_dispatch_proto20 (set_mo_ctx calloc_Authctxt s));;
  permit_first;;
  inp ← gets mo_in_;
  preauth_loop (S (length inp));;
  s ← get_st;
  if negb (a_valid (mo_ctx s)) then die
  else if streq (mo_auth_method s) (str "unknown") then die
  else
    modm (set_mo_auth_attempted false);;
    mm_get_keystate;;
    s ← get_st;
    drain_log (S (length (default [] (mo_log_in s))));;
    well ← svc child_exited_well;
    if (well : bool) then mret tt else die.
End Monitor.
