(* ===== verification/MonitorLogic.v ===== *)
(** * MonitorLogic: reasoning about the monitor

    A postcondition calculus for the monitor's computations, the parts of the
    state that the plumbing (messages, services, the allocator, the log)
    leaves alone, and the table of requests as a set of permitted types. *)

From S2P Require Import Prelude Ssherr Sshbuf SshbufGetput SshbufWire Cstring Match KexNames.
From S2P Require Import SshkeyNames Cipher SshState Packet PacketRead Misc AuthOptions AuthMethods AuthCtxt Monitor.

(** ** The table *)

Definition entry (p : Z -> bool) (e : mon_entry) : mon_entry :=
  set_flags (with_permit (p (ent_type e)) (ent_flags e)) e.

(** The table in which the requests of [p] are permitted. *)
Definition table_of (p : Z -> bool) : list mon_entry := entry p <$> mon_dispatch_proto20.

Definition upd (p : Z -> bool) (t : Z) (b : bool) : Z -> bool := fun x => if x =? t then b else p x.

Definition req_types : list Z := ent_type <$> mon_dispatch_proto20.

Lemma permit_table p t b : t ∈ req_types -> monitor_permit (table_of p) t b = table_of (upd p t b).
Proof.
  intros H. unfold req_types in H. cbn in H.
  repeat (apply elem_of_cons in H as [-> | H];
    [cbv -[with_permit upd]; cbn [upd];
     repeat (f_equal; try (by destruct (p _))); by destruct (p _), b|]).
  by apply elem_of_nil in H.
Qed.

(** The requests that count as authentication. *)
Definition auth_type (t : Z) : bool :=
  bool_decide (t ∈ [MONITOR_REQ_AUTHPASSWORD; MONITOR_REQ_KEYALLOWED; MONITOR_REQ_KEYVERIFY;
                    MONITOR_REQ_GSSSETUP; MONITOR_REQ_GSSUSEROK]).

Lemma permit_auth_table p b :
  monitor_permit_authentications (table_of p) b = table_of (fun t => if auth_type t then b else p t).
Proof.
  unfold monitor_permit_authentications, table_of. rewrite <- list_fmap_compose.
  apply list_fmap_ext. intros i e He.
  assert (e ∈ mon_dispatch_proto20) as H by (eapply list_elem_of_lookup_2; eauto). clear He.
  unfold mon_dispatch_proto20 in H.
  repeat (apply elem_of_cons in H as [-> | H];
    [cbv -[with_permit]; destruct (p _); reflexivity|]).
  by apply elem_of_nil in H.
Qed.

Lemma find_table p type i e : find_entry (table_of p) type 0 = Some (i, e) ->
  exists b, mon_dispatch_proto20 !! i = Some b /\ ent_type b = type /\ e = entry p b.
Proof.
  unfold table_of. cbn [mon_dispatch_proto20 fmap list_fmap find_entry entry set_flags ent_type].
  repeat (destruct (_ =? type) eqn:E;
    [apply Z.eqb_eq in E; intros [= <- <-]; eexists; split_and!; [reflexivity|exact E|reflexivity]|]; clear E).
  done.
Qed.

(** Clearing the permission of a request that may be used once. *)
Lemma clear_table p i b : mon_dispatch_proto20 !! i = Some b ->
  table_of p !! i = Some (entry p b) /\
  <[i := set_flags (Z.land (ent_flags (entry p b)) (Z.lnot MON_PERMIT)) (entry p b)]> (table_of p) =
  table_of (upd p (ent_type b) false).
Proof.
  intros H. split; [unfold table_of; rewrite list_lookup_fmap, H; done|].
  do 14 (destruct i as [|i]; [injection H as <-; cbv -[with_permit]; repeat (f_equal; try reflexivity); by destruct (p _)|]).
  done.
Qed.

Lemma bits_permit p b : b ∈ mon_dispatch_proto20 ->
  bits (ent_flags (entry p b)) MON_PERMIT = p (ent_type b) /\
  bits (ent_flags (entry p b)) MON_ONCE = bits (ent_flags b) MON_ONCE /\
  bits (ent_flags (entry p b)) MON_AUTHDECIDE = bits (ent_flags b) MON_AUTHDECIDE /\
  bits (ent_flags (entry p b)) (Z.lor MON_AUTHDECIDE MON_ALOG) = bits (ent_flags b) (Z.lor MON_AUTHDECIDE MON_ALOG).
Proof.
  intros H. unfold mon_dispatch_proto20 in H.
  repeat (apply elem_of_cons in H as [-> | H]; [cbn; destruct (p _); done|]).
  by apply elem_of_nil in H.
Qed.

(** ** Postconditions

    [mwp m Q s]: if [m] returns from [s] then [Q] holds of its value and the
    state; if it ends the process, it does so by fatal or as refused by the
    configuration. *)
Definition exits (e : Z) : Prop := e = EXIT_255 \/ e = EXIT_CONFIG_REFUSED.

Section Logic.
Context (nids : curve_nids) {KO : KeyOps} {SV : Services}.
Implicit Types (s : monitor).

Definition mwp {A} (m : M monitor A) (Q : A -> monitor -> Prop) s : Prop :=
  match m s with (Ok a, s') => Q a s' | (Err e, _) => exits e | (Crash, _) => True end.

Lemma mwp_bind {A B} (m : M monitor A) (k : A -> M monitor B) Q s :
  mwp m (fun a s' => mwp (k a) Q s') s -> mwp (m ≫= k) Q s.
Proof. unfold mwp, mbind, M_bind. by destruct (m s) as [[]]. Qed.

Lemma mwp_ret {A} (a : A) Q s : Q a s -> mwp (mret a) Q s.
Proof. done. Qed.

Lemma mwp_die {A} (Q : A -> monitor -> Prop) s : mwp die Q s.
Proof. by left. Qed.

Lemma mwp_refused {A} (Q : A -> monitor -> Prop) s : mwp (throw EXIT_CONFIG_REFUSED) Q s.
Proof. by right. Qed.

Lemma mwp_crash {A} (Q : A -> monitor -> Prop) s : mwp crash Q s.
Proof. done. Qed.

Lemma mwp_gets {A} (f : monitor -> A) Q s : Q (f s) s -> mwp (gets f) Q s.
Proof. done. Qed.

Lemma mwp_get_st Q s : Q s s -> mwp get_st Q s.
Proof. done. Qed.

Lemma mwp_modm f (Q : unit -> monitor -> Prop) s : Q tt (f s) -> mwp (modm f) Q s.
Proof. done. Qed.

Lemma mwp_mono {A} (m : M monitor A) (P Q : A -> monitor -> Prop) s :
  mwp m P s -> (forall a s', P a s' -> Q a s') -> mwp m Q s.
Proof. unfold mwp. destruct (m s) as [[]]; auto. Qed.

(** ** What the plumbing leaves alone *)

Record same s s' : Prop := mk_same {
  sm_ctx : mo_ctx s' = mo_ctx s;
  sm_opts : mo_opts s' = mo_opts s;
  sm_table : mo_table s' = mo_table s;
  sm_key_blob : mo_key_blob s' = mo_key_blob s;
  sm_key_blobtype : mo_key_blobtype s' = mo_key_blobtype s;
  sm_key_opts : mo_key_opts s' = mo_key_opts s;
  sm_cuser : mo_cuser s' = mo_cuser s;
  sm_chost : mo_chost s' = mo_chost s;
  sm_auth_method : mo_auth_method s' = mo_auth_method s;
  sm_auth_submethod : mo_auth_submethod s' = mo_auth_submethod s;
  sm_session_id2 : mo_session_id2 s' = mo_session_id2 s;
  sm_compat_set : mo_compat_set s' = mo_compat_set s;
  sm_compat : mo_compat s' = mo_compat s;
  sm_auth_opts : mo_auth_opts s' = mo_auth_opts s;
  sm_call_count : mo_call_count s' = mo_call_count s;
  sm_gsscontext : mo_gsscontext s' = mo_gsscontext s;
  sm_gssapi_client : mo_gssapi_client s' = mo_gssapi_client s;
  sm_in : exists pre, mo_in_ s = pre ++ mo_in_ s'
}.

Lemma same_refl s : same s s.
Proof. split; try done. by exists []. Qed.

Lemma same_trans s1 s2 s3 : same s1 s2 -> same s2 s3 -> same s1 s3.
Proof.
  intros [] [H H1 H2 H3 H4 H5 H6 H7 H8 H9 H10 H11 H12 H13 H14 H15 H16 [pre2 H17]]. destruct sm_in0 as [pre1 E].
  split; [rewrite ?H, ?H1, ?H2, ?H3, ?H4, ?H5, ?H6, ?H7, ?H8, ?H9, ?H10, ?H11, ?H12, ?H13, ?H14, ?H15, ?H16; done..|].
  exists (pre1 ++ pre2). by rewrite E, H17, app_assoc.
Qed.

(** Computations that change nothing else. *)
Definition quiet {A} (m : M monitor A) : Prop := forall s, mwp m (fun _ s' => same s s') s.

Lemma quiet_bind {A B} (m : M monitor A) (k : A -> M monitor B) : quiet m -> (forall a, quiet (k a)) -> quiet (m ≫= k).
Proof.
  intros Hm Hk s. apply mwp_bind. apply (mwp_mono _ _ _ _ (Hm s)). intros a s1 S1.
  apply (mwp_mono _ _ _ _ (Hk a s1)). intros b s2 S2. by apply (same_trans s s1).
Qed.

Lemma quiet_ret {A} (a : A) : quiet (mret a).
Proof. intros s. apply same_refl. Qed.

Lemma quiet_die {A} : quiet (@die _ A).
Proof. intros s. apply mwp_die. Qed.

Lemma quiet_gets {A} (f : monitor -> A) : quiet (gets f).
Proof. intros s. apply same_refl. Qed.

Lemma quiet_get_st : quiet get_st.
Proof. intros s. apply same_refl. Qed.

Lemma quiet_svc {A} (f : world -> A * world) : quiet (svc f).
Proof. intros s. unfold mwp, svc. destruct (f _). split; try done. by exists []. Qed.

Lemma quiet_must {A} (m : AM A) : quiet (must m).
Proof.
  intros s. unfold mwp, must, or_die, catch, on_alloc. destruct (m (mo_oom s)) as [[a|e|] oom]; [|by left|done].
  split; try done. by exists [].
Qed.

Lemma quiet_modm f : (forall s, same s (f s)) -> quiet (modm f).
Proof. intros H s. apply H. Qed.

Lemma mwp_quiet {A} (m : M monitor A) (Q : A -> monitor -> Prop) s :
  quiet m -> (forall a s', same s s' -> Q a s') -> mwp m Q s.
Proof. intros H K. apply (mwp_mono _ _ _ _ (H s)). auto. Qed.

(** The value of a step that must succeed. *)
Lemma mwp_must {A} (m : AM A) (Q : A -> monitor -> Prop) s :
  (forall a oom s', m (mo_oom s) = (Ok a, oom) -> same s s' -> Q a s') -> mwp (must m) Q s.
Proof.
  intros H. pose proof (quiet_must m s) as K. revert K. unfold mwp, must, or_die, catch, on_alloc.
  destruct (m (mo_oom s)) as [[a|e|] oom] eqn:E; [|by left|done]. intros K. by apply (H a oom).
Qed.

Lemma mwp_svc {A} (f : world -> A * world) (Q : A -> monitor -> Prop) s :
  (forall a w w' s', f w = (a, w') -> same s s' -> Q a s') -> mwp (svc f) Q s.
Proof.
  intros H. pose proof (quiet_svc f s) as K. revert K. unfold mwp, svc. destruct (f _) as [a w] eqn:E. intros K. by eapply H.
Qed.
End Logic.

Create HintDb quiet.
#[export] Hint Resolve quiet_ret quiet_die quiet_gets quiet_get_st quiet_svc quiet_must same_refl : quiet.
