(* ===== verification/MonitorBlob.v ===== *)
(** * MonitorBlob: the data a key must have signed

    What the monitor accepts as the data of a signature: the bytes of this
    user's authentication request in this session. *)

From S2P Require Import Prelude Ssherr Sshbuf SshbufGetput SshbufWire SshbufMiscThms Cstring Match KexNames.
From S2P Require Import SshkeyNames Cipher SshState Packet PacketRead Misc AuthOptions AuthMethods AuthCtxt Monitor MonitorLogic.

(** ** Fields of a message *)

(** A C string on the wire may carry its terminating NUL. *)
Definition is_cstr (u v : list Z) : Prop := u = v \/ u = v ++ [0].

Lemma parse_cstring_inv c v rest : bytes_ok c -> parse_cstring c = inr (v, rest) ->
  exists u, is_cstr u v /\ c = wire_string u ++ rest.
Proof.
  intros Hc. unfold parse_cstring. destruct (parse_string c) as [|[w r]] eqn:E; [done|].
  destruct (parse_string_inv _ _ _ Hc E) as [-> _].
  destruct (memchr w 0) as [z|] eqn:EM; [|intros [= -> ->]; exists v; split; [by left|done]].
  destruct (z <? zlen w - 1) eqn:EL; [done|]. intros [= <- <-]. zbool.
  apply memchr_split in EM as (Hz & Hlt). exists w. split; [right|done].
  rewrite Hlt at 1. replace (Z.to_nat (z + 1)) with (length w) by (unfold zlen in *; lia).
  rewrite drop_all. done.
Qed.

Section Fields.
Context (nids : curve_nids) {KO : KeyOps} {SV : Services}.
Implicit Types (s : monitor) (c : list Z).

Lemma mwp_u8 c (Q : Z * list Z -> monitor -> Prop) s : bytes_ok c ->
  (forall v rest s', c = v :: rest -> bytes_ok rest -> same s s' -> Q (v, rest) s') -> mwp (must (get_u8_at c)) Q s.
Proof.
  intros B H. apply mwp_must. intros [v rest] oom s' E S. apply H; [|..|done].
  all: revert E; unfold get_u8_at, take_at; destruct (zlen c <? 1) eqn:EL; [done|]; cbn; intros [= <- <- _];
    zbool; destruct c; try done; by apply Forall_cons in B as [].
Qed.

Lemma mwp_u32 c (Q : Z * list Z -> monitor -> Prop) s : bytes_ok c ->
  (forall v rest s', bytes_ok rest -> same s s' -> Q (v, rest) s') -> mwp (must (get_u32_at c)) Q s.
Proof.
  intros B H. apply mwp_must. intros [v rest] oom s' E S. apply H; [|done].
  revert E; unfold get_u32_at, take_at; destruct (zlen c <? 4) eqn:EL; [done|]; cbn; intros [= <- <- _].
  by apply Forall_drop.
Qed.

Lemma mwp_direct c (Q : list Z * list Z -> monitor -> Prop) s : bytes_ok c ->
  (forall v rest s', c = wire_string v ++ rest -> bytes_ok v -> bytes_ok rest -> same s s' -> Q (v, rest) s') ->
  mwp (must (get_string_direct_at c)) Q s.
Proof.
  intros B H. apply mwp_must. intros [v rest] oom s' E S. unfold get_string_direct_at in E.
  destruct (parse_string c) as [|r] eqn:EP; [done|]. injection E as -> _.
  destruct (parse_string_inv _ _ _ B EP) as [-> _]. apply Forall_app in B as [Bv Br]. apply Forall_app in Bv as [_ Bv].
  by apply H.
Qed.

Lemma mwp_string c (Q : list Z * list Z -> monitor -> Prop) s : bytes_ok c ->
  (forall v rest s', bytes_ok v -> bytes_ok rest -> same s s' -> Q (v, rest) s') ->
  mwp (must (get_string_at c)) Q s.
Proof.
  intros B H. apply mwp_must. intros [v rest] oom s' E S. unfold get_string_at in E.
  destruct (parse_string c) as [|[v' r']] eqn:EP; [done|].
  destruct (parse_string_inv _ _ _ B EP) as [-> _]. apply Forall_app in B as [Bv Br]. apply Forall_app in Bv as [_ Bv].
  revert E. unfold mbind, M_bind. destruct (alloc (mo_oom s)) as [[[]| |] ?]; try done. intros [= <- <- _]. by apply H.
Qed.

Lemma mwp_skip c (Q : list Z -> monitor -> Prop) s : bytes_ok c ->
  (forall v rest s', c = wire_string v ++ rest -> bytes_ok rest -> same s s' -> Q rest s') ->
  mwp (must (skip_string_at c)) Q s.
Proof.
  intros B H. apply mwp_must. intros rest oom s' E S. unfold skip_string_at, get_string_direct_at in E.
  destruct (parse_string c) as [|[v r]] eqn:EP; [done|]. injection E as -> _.
  destruct (parse_string_inv _ _ _ B EP) as [-> _]. apply Forall_app in B as [Bv Br]. by apply (H v).
Qed.

Lemma mwp_cstring c (Q : list Z * list Z -> monitor -> Prop) s : bytes_ok c ->
  (forall u v rest s', c = wire_string u ++ rest -> is_cstr u v -> bytes_ok rest -> same s s' -> Q (v, rest) s') ->
  mwp (must (get_cstring_at true c)) Q s.
Proof.
  intros B H. apply mwp_must. intros [v rest] oom s' E S. unfold get_cstring_at in E.
  destruct (parse_cstring c) as [|[v' r']] eqn:EP; [done|].
  destruct (parse_cstring_inv _ _ _ B EP) as (u & Hu & ->). apply Forall_app in B as [_ Br].
  revert E. unfold mbind, M_bind. destruct (alloc (mo_oom s)) as [[[]| |] ?]; try done. intros [= <- <- _].
  by apply (H u).
Qed.

Lemma mwp_key c (Q : sshkey * list Z -> monitor -> Prop) s : bytes_ok c ->
  (forall b k rest s', c = wire_string b ++ rest -> sshkey_from_blob b = inr k -> bytes_ok rest -> same s s' -> Q (k, rest) s') ->
  mwp (must (sshkey_froms c)) Q s.
Proof.
  intros B H. apply mwp_must. intros [k rest] oom s' E S. unfold sshkey_froms, froms_at in E.
  destruct (parse_string c) as [|[v' r']] eqn:EP; [done|].
  destruct (parse_string_inv _ _ _ B EP) as [-> _]. apply Forall_app in B as [_ Br].
  revert E. unfold mbind, M_bind. destruct (alloc (mo_oom s)) as [[[]| |] ?]; try done. cbn.
  destruct (sshkey_from_blob v') as [|k'] eqn:EK; [done|]. intros [= <- <- _]. by apply (H v').
Qed.

(** ** The signed data *)

(** The bytes a client signs for publickey authentication; [tail] is the host
    key of the host-bound variant. *)
Definition user_request (old : bool) (sid us service method : list Z) (flag : Z) (alg blob tail : list Z) : list Z :=
  (if old then sid else wire_string sid) ++ SSH2_MSG_USERAUTH_REQUEST :: wire_string us ++ wire_string service ++
  wire_string method ++ flag :: wire_string alg ++ wire_string blob ++ tail.

Definition signed_for_user s (data : list Z) : Prop :=
  exists sid us service method flag alg blob tail,
    mo_session_id2 s = Some sid /\ is_cstr us (userstyle (mo_ctx s)) /\ flag <> 0 /\
    (is_cstr method (str "publickey") /\ tail = [] \/
     is_cstr method (str "publickey-hostbound-v00@openssh.com") /\
       exists hk k, tail = wire_string hk /\ sshkey_from_blob hk = inr k /\ get_hostkey_index nids k <> -1) /\
    data = user_request (bits (mo_compat s) SSH_OLD_SESSIONID) sid us service method flag alg blob tail.

Definition host_request (sid us service method alg blob chost cuser : list Z) : list Z :=
  wire_string sid ++ SSH2_MSG_USERAUTH_REQUEST :: wire_string us ++ wire_string service ++
  wire_string method ++ wire_string alg ++ wire_string blob ++ wire_string chost ++ wire_string cuser.

Definition signed_for_host s (data cuser chost : list Z) : Prop :=
  exists sid us service method alg blob host host' user,
    mo_session_id2 s = Some sid /\ is_cstr us (userstyle (mo_ctx s)) /\ is_cstr method (str "hostbased") /\
    is_cstr host host' /\ strip_dot host' = chost /\ is_cstr user cuser /\
    data = host_request sid us service method alg blob host user.

Lemma session_ok_inv s p : session_ok s p = true -> mo_session_id2 s = Some p.
Proof. unfold session_ok. destruct (mo_session_id2 s); [|done]. rewrite bool_decide_eq_true. by intros ->. Qed.

(** The session identifier, in either form. *)
Lemma mwp_session_id s data (Q : bool * list Z -> monitor -> Prop) : bytes_ok data ->
  (forall ok b s', (ok = true -> exists sid, mo_session_id2 s = Some sid /\
      data = (if bits (mo_compat s) SSH_OLD_SESSIONID then sid else wire_string sid) ++ b) ->
    bytes_ok b -> same s s' -> Q (ok, b) s') ->
  mwp (if bits (mo_compat s) SSH_OLD_SESSIONID then
         let ok := bool_decide (is_Some (mo_session_id2 s)) && negb (zlen data <? zlen (default [] (mo_session_id2 s))) &&
                   session_ok s (take (Z.to_nat (zlen (default [] (mo_session_id2 s)))) data) in
         if zlen data <? zlen (default [] (mo_session_id2 s)) then die
         else mret (ok, drop (Z.to_nat (zlen (default [] (mo_session_id2 s)))) data)
       else '(p, b) ← must (get_string_direct_at data); mret (session_ok s p, b)) Q s.
Proof.
  intros B H. destruct (bits _ _).
  - cbv zeta. destruct (zlen data <? _); [apply mwp_die|]. apply mwp_ret, H; [|by apply Forall_drop|apply same_refl].
    intros E%andb_true_iff. destruct E as [_ E%session_ok_inv].
    eexists. split; [exact E|]. by rewrite take_drop.
  - apply mwp_bind, mwp_direct; [done|]. intros v rest s1 -> Bv Br S1. apply mwp_ret, H; [|done..].
    intros E%session_ok_inv. eauto.
Qed.

Ltac fields := repeat match goal with
  | H : (_ && _)%bool = true |- _ => apply andb_true_iff in H as [? ?]
  | H : streq _ _ = true |- _ => unfold streq in H; apply bool_decide_eq_true in H
  | H : (_ =? _) = true |- _ => apply Z.eqb_eq in H
  | H : negb _ = true |- _ => apply negb_true_iff in H
  | H : (_ =? _) = false |- _ => apply Z.eqb_neq in H
  | H : zlen ?l = 0 |- _ => destruct l; [clear H|discriminate H]
  end.

Lemma valid_userblob_spec s data : bytes_ok data ->
  mwp (monitor_valid_userblob nids data) (fun ok s' => same s s' /\ (ok = true -> signed_for_user s data)) s.
Proof.
  intros B. unfold monitor_valid_userblob. apply mwp_bind, mwp_get_st. cbv zeta.
  apply mwp_bind, mwp_session_id; [done|]. intros ok1 b1 s1 Hid B1 S1.
  apply mwp_bind, mwp_u8; [done|]. intros type b2 s2 -> B2 S2.
  apply mwp_bind, mwp_cstring; [done|]. intros us us' b3 s3 -> Hus B3 S3.
  apply mwp_bind, mwp_skip; [done|]. intros service b4 s4 -> B4 S4.
  apply mwp_bind, mwp_cstring; [done|]. intros method method' b5 s5 -> Hm B5 S5.
  apply mwp_bind, mwp_u8; [done|]. intros flag b6 s6 -> B6 S6.
  apply mwp_bind, mwp_skip; [done|]. intros alg b7 s7 -> B7 S7.
  apply mwp_bind, mwp_skip; [done|]. intros blob b8 s8 -> B8 S8.
  assert (same s s8) as S by (eauto 10 using same_trans).
  apply mwp_bind. destruct (streq (str "publickey-hostbound-v00@openssh.com") method') eqn:EH.
  - apply mwp_bind, mwp_key; [done|]. intros hk k b9 s9 -> Hk B9 S9. apply mwp_ret.
    destruct (get_hostkey_index nids k =? -1) eqn:EI; [apply mwp_die|]. apply mwp_ret.
    split; [eauto using same_trans|]. intros H. fields. destruct (Hid H) as (sid & ? & ->). subst.
    exists sid, us, service, method, flag, alg, blob, (wire_string hk). split_and!; try done.
    + right. split; [done|]. exists hk, k. done.
    + unfold user_request. by rewrite app_nil_r.
  - apply mwp_ret, mwp_ret. split; [done|]. intros H. rewrite orb_false_r in H. fields.
    destruct (Hid H) as (sid & ? & ->). subst.
    exists sid, us, service, method, flag, alg, blob, []. split_and!; try done. by left.
Qed.

Lemma valid_hostbasedblob_spec s data cuser chost : bytes_ok data ->
  mwp (monitor_valid_hostbasedblob data cuser chost)
    (fun ok s' => same s s' /\ (ok = true -> signed_for_host s data cuser chost)) s.
Proof.
  intros B. unfold monitor_valid_hostbasedblob. apply mwp_bind, mwp_get_st.
  apply mwp_bind, mwp_direct; [done|]. intros sid b1 s1 -> Bid B1 S1. cbv zeta.
  apply mwp_bind, mwp_u8; [done|]. intros type b2 s2 -> B2 S2.
  apply mwp_bind, mwp_cstring; [done|]. intros us us' b3 s3 -> Hus B3 S3.
  apply mwp_bind, mwp_skip; [done|]. intros service b4 s4 -> B4 S4.
  apply mwp_bind, mwp_cstring; [done|]. intros method method' b5 s5 -> Hm B5 S5.
  apply mwp_bind, mwp_skip; [done|]. intros alg b7 s7 -> B7 S7.
  apply mwp_bind, mwp_skip; [done|]. intros blob b8 s8 -> B8 S8.
  apply mwp_bind, mwp_cstring; [done|]. intros host host' b9 s9 -> Hh B9 S9.
  apply mwp_bind, mwp_cstring; [done|]. intros user user' b10 s10 -> Hu B10 S10.
  apply mwp_ret. split; [eauto 12 using same_trans|]. intros H. fields.
  match goal with H : session_ok _ _ = true |- _ => apply session_ok_inv in H end. subst.
  exists sid, us, service, method, alg, blob, host, host', user. split_and!; try done.
  unfold host_request. by rewrite app_nil_r.
Qed.
End Fields.
