(* ===== verification/MonitorInv.v ===== *)
(** * MonitorInv: the invariant of the monitor before authentication

    The requests go through four stages (before SIGN, before PWNAM, before
    AUTHSERV, authentication), each with the requests it may permit.  In the
    last stage everything a credential is judged by is fixed: the user, the
    session, the options.  [acc] lists the credentials accepted so far. *)

From S2P Require Import Prelude Ssherr Sshbuf SshbufGetput SshbufWire Cstring Match KexNames.
From S2P Require Import SshkeyNames Cipher SshState Packet PacketRead Misc AuthOptions AuthMethods.
From S2P Require Import AuthCtxt Monitor MonitorLogic MonitorBlob.

Section Inv.
Context (nids : curve_nids) {KO : KeyOps} {SV : Services}.
Implicit Types (s : monitor).

(** ** Credentials *)

Inductive cred :=
| C_password (password : list Z)
| C_userkey (key : sshkey) (signature data : list Z) (sigalg : option (list Z))
| C_hostkey (key : sshkey) (cuser chost signature data : list Z) (sigalg : option (list Z))
| C_gss (client : gss_client).

(** A blob the monitor allowed, and the key it stands for when it is read
    back. *)
Definition read_back (k : sshkey) (blob : list Z) (key : sshkey) : Prop :=
  sshkey_to_blob k = inr blob /\ sshkey_from_blob blob = inr key.

(** A context that the GSSAPI library accepted, with the client's name taken
    from it. *)
Definition gss_from (client : gss_client) : Prop :=
  exists ctx tok w w' out flags names,
    gss_accept_sec_context (gc_oid ctx) tok w = ((GSS_S_COMPLETE, out, flags), w') /\
    bits flags GSS_C_MUTUAL_FLAG = true /\ bits flags GSS_C_INTEG_FLAG = true /\
    ssh_gssapi_getclient ctx names = GC_client client.

(** The account that the user of the connection was found to have. *)
Definition account s (pw : passwd) : Prop := a_pw (mo_ctx s) = Some pw.

(** What stands behind a credential for the user of the connection. *)
Definition backed s (method : list Z) (c : cred) : Prop :=
  match c with
  | C_password password =>
      (method = str "password" \/ method = str "none" /\ password = []) /\
      password_authentication (mo_opts s) = true /\
      exists pw w w', account s pw /\ windows_password_auth (pw_name pw) password w = (true, w')
  | C_userkey key signature data sigalg =>
      method = str "publickey" /\ pubkey_authentication (mo_opts s) = true /\
      (exists pw k blob opts n w w' details, account s pw /\ read_back k blob key /\
        user_key_allowed pw k n w = ((true, opts), w') /\
        sshkey_verify key signature data sigalg (mo_compat s) = inr details /\
        match details, opts with
        | Some (_, flags), Some opts => sk_ok (mo_opts s) opts flags = true
        | Some _, None => False
        | None, _ => True
        end) /\
      signed_for_user nids s data
  | C_hostkey key cuser chost signature data sigalg =>
      method = str "hostbased" /\ hostbased_authentication (mo_opts s) = true /\
      (exists pw k blob host s0 s1, account s pw /\ read_back k blob key /\ mo_opts s0 = mo_opts s /\
        hostbased_key_allowed nids (Some pw) cuser host k s0 = (Ok (true, chost), s1)) /\
      (exists details, sshkey_verify key signature data sigalg (mo_compat s) = inr details) /\
      signed_for_host s data cuser chost
  | C_gss client =>
      method = str "gssapi-with-mic" /\ gss_authentication (mo_opts s) = true /\ gss_from client /\
      exists w w', gss_mech_userok client (default [] (a_user (mo_ctx s))) w = (true, w')
  end.

Definition credible s (a : list Z * cred) : Prop :=
  a_valid (mo_ctx s) = true /\ backed s a.1 a.2.

(** The name of a success: no method of this build has submethods. *)
Definition name_of (a : list Z * cred) : list Z * option (list Z) := (a.1, None).

Lemma credible_named s a : credible s a -> well_named name_of a.
Proof.
  intros (_ & H). assert (a.1 ∈ [str "password"; str "none"; str "publickey"; str "hostbased"; str "gssapi-with-mic"]) as E.
  { destruct a as [m []]; cbn in *; destruct H as [H _]; [destruct H as [-> | [-> _]]|subst..]; set_solver. }
  destruct a as [m c]. unfold well_named, name_of in *. cbn [fst snd] in *.
  repeat (apply elem_of_cons in E as [-> | E]; [split; [done|]; split; [by apply (bool_decide_unpack (no_comma _))|done]|]).
  by apply elem_of_nil in E.
Qed.

Definition key_of (c : cred) : option sshkey :=
  match c with C_userkey k _ _ _ => Some k | C_hostkey k _ _ _ _ _ => Some k | _ => None end.

Definition cred_keys (acc : list (list Z * cred)) : list sshkey := omap (fun a => key_of a.2) acc.

(** ** Parts of the invariant *)

(** A key whose signature may be asked for. *)
Definition key_inv s : Prop :=
  match mo_key_blob s with
  | None => True
  | Some blob => exists k pw, sshkey_to_blob k = inr blob /\ a_valid (mo_ctx s) = true /\ a_pw (mo_ctx s) = Some pw /\
      auth2_key_already_used (mo_ctx s) k = false /\
      (mo_key_blobtype s = MM_USERKEY /\ pubkey_authentication (mo_opts s) = true /\
         (exists n w w', user_key_allowed pw k n w = ((true, mo_key_opts s), w')) \/
       mo_key_blobtype s = MM_HOSTKEY /\ hostbased_authentication (mo_opts s) = true /\
         exists cuser chost host s0 s1, mo_cuser s = Some cuser /\ mo_chost s = Some chost /\ mo_opts s0 = mo_opts s /\
           hostbased_key_allowed nids (Some pw) cuser host k s0 = (Ok (true, chost), s1))
  end.

Definition gss_inv s : Prop := mo_gssapi_client s = no_client \/ gss_from (mo_gssapi_client s).

(** The keys recorded are copies of those of the accepted credentials. *)
Definition used_inv (acc : list (list Z * cred)) s : Prop :=
  Forall2 (fun d k => sshkey_from_private k = inr d) (a_prev_keys (mo_ctx s)) (cred_keys acc).

(** Each key was, when it was allowed, none of those recorded before it. *)
Fixpoint fresh_keys (keys : list sshkey) : Prop :=
  match keys with
  | [] => True
  | key :: earlier =>
      (exists k blob, read_back k blob key /\
        Forall (fun e => exists d, sshkey_from_private e = inr d /\ sshkey_equal_public k d = false) earlier) /\
      fresh_keys earlier
  end.

Definition enabled_lists (o : ServerOptions) : list (list Z) :=
  filter (fun l => auth2_methods_valid true o l true = true) (auth_methods o).

Definition lists_inv (acc : list (list Z * cred)) s : Prop :=
  auth_methods (mo_opts s) <> [] ->
  Forall2 (remains name_of acc) (enabled_lists (mo_opts s)) (a_auth_methods (mo_ctx s)).

Definition allowed (n : nat) : list Z :=
  match n with
  | 0%nat => [MONITOR_REQ_STATE; MONITOR_REQ_MODULI; MONITOR_REQ_SETCOMPAT; MONITOR_REQ_SIGN]
  | 1%nat => [MONITOR_REQ_STATE; MONITOR_REQ_MODULI; MONITOR_REQ_SETCOMPAT; MONITOR_REQ_PWNAM]
  | 2%nat => [MONITOR_REQ_STATE; MONITOR_REQ_MODULI; MONITOR_REQ_AUTHSERV; MONITOR_REQ_AUTH2_READ_BANNER]
  | _ => [MONITOR_REQ_STATE; MONITOR_REQ_MODULI; MONITOR_REQ_AUTH2_READ_BANNER; MONITOR_REQ_AUTHPASSWORD;
          MONITOR_REQ_KEYALLOWED; MONITOR_REQ_KEYVERIFY; MONITOR_REQ_GSSSETUP; MONITOR_REQ_GSSUSEROK;
          MONITOR_REQ_GSSSTEP; MONITOR_REQ_GSSCHECKMIC]
  end.

(** [lacc]: the successes the lists have been told of. *)
Record core (lacc acc : list (list Z * cred)) (p : Z -> bool) (n : nat) s : Prop := mk_core {
  c_perm : forall t, p t = true -> t ∈ allowed n;
  c_in : bytes_ok (mo_in_ s);
  c_compat : p MONITOR_REQ_SETCOMPAT = true -> mo_compat_set s = false;
  c_early : (n <= 2)%nat -> acc = [] /\ mo_key_blob s = None;
  c_lists : (2 <= n)%nat -> lists_inv lacc s;
  c_cred : Forall (credible s) acc;
  c_key : key_inv s;
  c_gss : gss_inv s;
  c_used : used_inv acc s;
  c_fresh : fresh_keys (reverse (cred_keys acc))
}.

(** ** What the invariant depends on *)

Record keeps s s' : Prop := mk_keeps {
  kp_table : mo_table s' = mo_table s;
  kp_in : exists pre, mo_in_ s = pre ++ mo_in_ s';
  kp_compat_set : mo_compat_set s' = mo_compat_set s;
  kp_compat : mo_compat s' = mo_compat s;
  kp_key_blob : mo_key_blob s' = mo_key_blob s;
  kp_blobtype : mo_key_blobtype s' = mo_key_blobtype s;
  kp_key_opts : mo_key_opts s' = mo_key_opts s;
  kp_cuser : mo_cuser s' = mo_cuser s;
  kp_chost : mo_chost s' = mo_chost s;
  kp_opts : mo_opts s' = mo_opts s;
  kp_sid : mo_session_id2 s' = mo_session_id2 s;
  kp_client : mo_gssapi_client s' = mo_gssapi_client s;
  kp_user : a_user (mo_ctx s') = a_user (mo_ctx s);
  kp_style : a_style (mo_ctx s') = a_style (mo_ctx s);
  kp_pw : a_pw (mo_ctx s') = a_pw (mo_ctx s);
  kp_valid : a_valid (mo_ctx s') = a_valid (mo_ctx s);
  kp_lists : a_auth_methods (mo_ctx s') = a_auth_methods (mo_ctx s);
  kp_prev : a_prev_keys (mo_ctx s') = a_prev_keys (mo_ctx s)
}.

Lemma same_keeps s s' : same s s' -> keeps s s'.
Proof.
  intros []. split; try done; by rewrite sm_ctx.
Qed.

Lemma keeps_refl s : keeps s s.
Proof. apply same_keeps, same_refl. Qed.

Lemma keeps_trans s1 s2 s3 : keeps s1 s2 -> keeps s2 s3 -> keeps s1 s3.
Proof.
  intros [] [E1 [pre2 E2]]. destruct kp_in0 as [pre1 E].
  split; [congruence| |congruence..]. exists (pre1 ++ pre2). by rewrite E, E2, app_assoc.
Qed.

(** What the credentials are judged by. *)
Record fixed s s' : Prop := mk_fixed {
  fx_opts : mo_opts s' = mo_opts s;
  fx_compat : mo_compat s' = mo_compat s;
  fx_sid : mo_session_id2 s' = mo_session_id2 s;
  fx_user : a_user (mo_ctx s') = a_user (mo_ctx s);
  fx_style : a_style (mo_ctx s') = a_style (mo_ctx s);
  fx_pw : a_pw (mo_ctx s') = a_pw (mo_ctx s);
  fx_valid : a_valid (mo_ctx s') = a_valid (mo_ctx s)
}.

Lemma keeps_fixed s s' : keeps s s' -> fixed s s'.
Proof. by intros []. Qed.

Lemma fixed_sym s s' : fixed s s' -> fixed s' s.
Proof. by intros []. Qed.

Lemma userstyle_fixed s s' : fixed s s' -> userstyle (mo_ctx s') = userstyle (mo_ctx s).
Proof. intros []. unfold userstyle. by rewrite fx_user0, fx_style0. Qed.

Lemma signed_user_fixed s s' data : fixed s s' -> signed_for_user nids s data -> signed_for_user nids s' data.
Proof.
  intros F. unfold signed_for_user. rewrite (userstyle_fixed _ _ F). destruct F. by rewrite fx_compat0, fx_sid0.
Qed.

Lemma signed_host_fixed s s' data cu ch : fixed s s' -> signed_for_host s data cu ch -> signed_for_host s' data cu ch.
Proof. intros F. unfold signed_for_host. rewrite (userstyle_fixed _ _ F). destruct F. by rewrite fx_sid0. Qed.

Lemma credible_fixed s s' a : fixed s s' -> credible s a -> credible s' a.
Proof.
  intros F (Hv & H). unfold credible. rewrite (fx_valid _ _ F). split; [done|].
  destruct a as [m []]; cbn [fst snd backed] in *; unfold account in *;
    rewrite ?(fx_pw _ _ F), ?(fx_opts _ _ F), ?(fx_compat _ _ F), ?(fx_user _ _ F); destruct_and?; split_and!; try done.
  - by apply (signed_user_fixed s).
  - by apply (signed_host_fixed s).
Qed.

Lemma core_keeps lacc acc p n s s' : keeps s s' -> core lacc acc p n s -> core lacc acc p n s'.
Proof.
  intros K []. pose proof (keeps_fixed _ _ K) as F. destruct K. split; try done.
  - destruct kp_in0 as [pre E]. rewrite E in c_in0. by apply Forall_app in c_in0 as [_ ?].
  - by rewrite kp_compat_set0.
  - by rewrite kp_key_blob0.
  - intros Hn. unfold lists_inv. rewrite kp_opts0, kp_lists0. by apply c_lists0.
  - eapply Forall_impl; [exact c_cred0|]. intros a. by apply credible_fixed.
  - unfold key_inv, auth2_key_already_used. by rewrite kp_key_blob0, kp_valid0, kp_pw0, kp_blobtype0, kp_opts0, kp_key_opts0,
      kp_cuser0, kp_chost0, kp_prev0.
  - unfold gss_inv. by rewrite kp_client0.
  - unfold used_inv. by rewrite kp_prev0.
Qed.
End Inv.
