(* ===== verification/MonitorSteps.v ===== *)
(** * MonitorSteps: every answer keeps the invariant *)

From S2P Require Import Prelude Ssherr Sshbuf SshbufGetput SshbufWire Cstring Match KexNames.
From S2P Require Import SshkeyNames Cipher SshState Packet PacketRead Misc AuthOptions AuthMethods.
From S2P Require Import AuthCtxt Monitor MonitorLogic MonitorBlob MonitorInv.

(** The permissions after a request: one that may be used once is gone. *)
Definition clr (once : bool) (type : Z) (p : Z -> bool) : Z -> bool := if once then upd p type false else p.

Lemma clr_inv once type p t : clr once type p t = true -> p t = true.
Proof. unfold clr, upd. destruct once; [|done]. by destruct (t =? type). Qed.

Section Steps.
Context (nids : curve_nids) {KO : KeyOps} {SV : Services}.
Implicit Types (s : monitor) (acc : list (list Z * cred)).
Local Abbreviation core := (core nids).

Lemma quiet_crash {A} : quiet (@crash monitor A).
Proof. intros s. done. Qed.

Lemma quiet_send_answer type build : quiet (send_answer type build).
Proof.
  apply quiet_bind; [apply quiet_must|]. intros m. unfold mm_request_send. destruct (_ >=? _); [apply quiet_die|].
  apply quiet_modm. intros s. split; try done. by exists [].
Qed.

Lemma quiet_mm_request_send type m : quiet (mm_request_send type m).
Proof.
  unfold mm_request_send. destruct (_ >=? _); [apply quiet_die|].
  apply quiet_modm. intros s. split; try done. by exists [].
Qed.

Lemma quiet_write_log a b m sub : quiet (write_log a b m sub).
Proof. apply quiet_modm. intros s. destruct (auth_log _ _ _ _ _ _ _); (split; try done; by exists []). Qed.

End Steps.

Ltac quiet := repeat first
  [ apply quiet_ret | apply quiet_die | apply quiet_gets | apply quiet_get_st | apply quiet_svc | apply quiet_must
  | apply quiet_crash | apply quiet_send_answer | apply quiet_mm_request_send | apply quiet_write_log
  | (apply quiet_bind; [|intros ?])
  | match goal with
    | |- quiet (if ?b then _ else _) => destruct b
    | |- quiet (match ?x with _ => _ end) => destruct x
    end ].

Section Answers.
Context (nids : curve_nids) {KO : KeyOps} {SV : Services}.
Implicit Types (s : monitor) (acc : list (list Z * cred)) (m : list Z).
Local Abbreviation core := (core nids).

Lemma quiet_state m : quiet (mm_answer_state m).
Proof. unfold mm_answer_state. quiet. Qed.

Lemma quiet_moduli m : quiet (mm_answer_moduli m).
Proof. unfold mm_answer_moduli. quiet. Qed.

Lemma quiet_banner m : quiet (mm_answer_auth2_read_banner m).
Proof. unfold mm_answer_auth2_read_banner. quiet. Qed.

(** ** What an answer leaves *)

Definition answered acc (once : bool) (type : Z) s : Z -> monitor -> Prop := fun r s' =>
  mo_auth_submethod s' = mo_auth_submethod s /\ (length (mo_in_ s') <= length (mo_in_ s))%nat /\
  exists p n, mo_table s' = table_of p /\
    (r = 1 -> (3 <= n)%nat /\ exists c, core acc (acc ++ [(mo_auth_method s', c)]) (clr once type p) n s') /\
    (r <> 1 -> core acc acc (clr once type p) n s').

Lemma core_clr lacc acc once type p n s : core lacc acc p n s -> core lacc acc (clr once type p) n s.
Proof. intros []. split; try done; intros; eauto using clr_inv. Qed.

Lemma keeps_in s s' : keeps s s' -> (length (mo_in_ s') <= length (mo_in_ s))%nat.
Proof. intros []. destruct kp_in as [pre ->]. rewrite length_app. lia. Qed.

(** An answer that changes nothing the invariant depends on. *)
Lemma answered_keeps acc once type p n s r s' : mo_table s = table_of p -> core acc acc p n s ->
  mo_auth_submethod s' = mo_auth_submethod s -> keeps s s' -> r <> 1 -> answered acc once type s r s'.
Proof.
  intros T C A K R. split_and!; [done|by apply keeps_in|]. exists p, n. split_and!.
  - by rewrite (kp_table _ _ K).
  - done.
  - intros _. by eapply core_clr, core_keeps.
Qed.

Lemma answered_quiet acc once type p n s (h : M monitor Z) : mo_table s = table_of p -> core acc acc p n s ->
  quiet h -> (forall s r s', h s = (Ok r, s') -> r <> 1) -> mwp h (answered acc once type s) s.
Proof.
  intros T C Q R. pose proof (Q s) as H. revert H. unfold mwp. destruct (h s) as [[r| |] s'] eqn:E; [|done..].
  intros S. eapply answered_keeps; eauto using same_keeps. apply (sm_auth_submethod _ _ S).
Qed.

(** ** Before authentication *)

Lemma early_core lacc p n s : (forall t, p t = true -> t ∈ allowed n) -> bytes_ok (mo_in_ s) ->
  (p MONITOR_REQ_SETCOMPAT = true -> mo_compat_set s = false) -> mo_key_blob s = None ->
  ((2 <= n)%nat -> lists_inv lacc s) -> gss_inv s -> a_prev_keys (mo_ctx s) = [] -> core lacc [] p n s.
Proof.
  intros. split; try done.
  - unfold key_inv. by replace (mo_key_blob s) with (@None (list Z)).
  - unfold used_inv. replace (a_prev_keys (mo_ctx s)) with (@nil sshkey). constructor.
Qed.

Lemma used_nil s : used_inv [] s -> a_prev_keys (mo_ctx s) = [].
Proof. unfold used_inv. intros H. by apply Forall2_nil_inv_r in H. Qed.

Lemma setcompat_spec acc p n s m : p MONITOR_REQ_SETCOMPAT = true -> bytes_ok m -> mo_table s = table_of p -> core acc acc p n s ->
  mwp (mm_answer_setcompat m) (answered acc true MONITOR_REQ_SETCOMPAT s) s.
Proof.
  intros P B T C. unfold mm_answer_setcompat. apply mwp_bind, mwp_u32; [done|]. intros compat b s1 B1 S1.
  assert (n <= 1)%nat as Hn. { pose proof (c_perm _ _ _ _ _ _ C _ P) as H. destruct n as [|[|[|n]]]; [lia..| |]; set_solver. }
  destruct (c_early _ _ _ _ _ _ C) as [-> K]; [lia|].
  apply (core_keeps nids _ _ _ _ s s1) in C; [|by apply same_keeps].
  apply mwp_bind, mwp_modm, mwp_ret. split; [apply (sm_auth_submethod _ _ S1)|].
  split; [apply (keeps_in s s1), same_keeps, S1|]. exists p, n. split_and!; [by rewrite <- T, <- (sm_table _ _ S1)|done|]. intros _.
  destruct C. apply early_core; try done.
  - intros t H%clr_inv. auto.
  - change (mo_key_blob s1 = None). by rewrite (sm_key_blob _ _ S1).
  - by apply used_nil.
Qed.

Lemma stage_of acc lacc p n s t k : core lacc acc p n s -> p t = true ->
  (forall i, t ∈ allowed i -> i = k) -> n = k.
Proof. intros C P H. apply H, (c_perm _ _ _ _ _ _ C _ P). Qed.

(** Membership in the stages, by cases. *)
Ltac stage := let i := fresh "i" in let H := fresh "H" in
  intros i H; destruct i as [|[|[|i]]]; cbn [allowed] in H; try reflexivity; exfalso;
  repeat (apply elem_of_cons in H as [H|H]; [discriminate H|]); by apply elem_of_nil in H.

Lemma mwp_permit t b (Q : unit -> monitor -> Prop) s p : t ∈ req_types -> mo_table s = table_of p ->
  Q tt (set_mo_table (table_of (upd p t b)) s) -> mwp (permit t b) Q s.
Proof. intros Ht T H. apply mwp_modm. by rewrite T, permit_table. Qed.

(** Steps before authentication: what they leave alone. *)
Record near s s' : Prop := mk_near {
  nr_sub : mo_auth_submethod s' = mo_auth_submethod s;
  nr_in : exists pre, mo_in_ s = pre ++ mo_in_ s';
  nr_table : mo_table s' = mo_table s;
  nr_compat_set : mo_compat_set s' = mo_compat_set s;
  nr_key_blob : mo_key_blob s' = mo_key_blob s;
  nr_client : mo_gssapi_client s' = mo_gssapi_client s;
  nr_prev : a_prev_keys (mo_ctx s') = a_prev_keys (mo_ctx s)
}.

Lemma same_near s s' : same s s' -> near s s'.
Proof. intros []. split; try done. by rewrite sm_ctx. Qed.

Lemma near_trans s1 s2 s3 : near s1 s2 -> near s2 s3 -> near s1 s3.
Proof.
  intros [] [E1 [pre2 E2]]. destruct nr_in0 as [pre1 E].
  split; [congruence| |congruence..]. exists (pre1 ++ pre2). by rewrite E, E2, app_assoc.
Qed.

Definition nearly {A} (h : M monitor A) : Prop := forall s, mwp h (fun _ s' => near s s') s.

Lemma quiet_nearly {A} (h : M monitor A) : quiet h -> nearly h.
Proof. intros H s. eapply mwp_mono; [apply H|]. intros. by apply same_near. Qed.

(** A step on the way from [s0]. *)
Lemma mwp_near {A} (h : M monitor A) (Q : A -> monitor -> Prop) s0 s :
  nearly h -> near s0 s -> (forall a s', near s0 s' -> Q a s') -> mwp h Q s.
Proof. intros H N K. eapply mwp_mono; [apply H|]. intros a s' N'. apply K. by apply (near_trans _ s). Qed.

Lemma near_refl s : near s s.
Proof. apply same_near, same_refl. Qed.

(** The next stage: [t] is the request answered, [ts] those it permits. *)
Lemma answered_early p s s' t p' n' r : core [] [] p (pred n') s -> near (set_mo_table (table_of p') s) s' -> mo_key_blob s = None ->
  (forall x, clr true t p' x = true -> x ∈ allowed n') ->
  (clr true t p' MONITOR_REQ_SETCOMPAT = true -> p MONITOR_REQ_SETCOMPAT = true) ->
  ((2 <= n')%nat -> lists_inv [] s') -> r <> 1 ->
  answered [] true t s r s'.
Proof.
  intros C N K Hp Hc Hl R. destruct C, N as [N1 [pre N2] N3 N4 N5 N6 N7]. cbn [mo_in_ set_mo_table] in N2.
  split; [done|]. split; [rewrite N2, length_app; cbn; lia|].
  exists p', n'. split_and!; [done..|]. intros _. apply early_core; try done.
  - rewrite N2 in c_in. by apply Forall_app in c_in as [_ ?].
  - intros Hq. exact (eq_trans N4 (c_compat (Hc Hq))).
  - exact (eq_trans N5 K).
  - unfold gss_inv. by rewrite N6.
  - exact (eq_trans N7 (used_nil _ c_used)).
Qed.

Lemma near_table s s' t : near s s' -> near (set_mo_table t s) (set_mo_table t s').
Proof. by intros []. Qed.

Lemma quiet_check_proof keyid d : quiet (check_proof keyid d).
Proof.
  unfold check_proof. apply quiet_bind; [apply quiet_get_st|]. intros s. destruct (_ =? 0); [apply quiet_die|].
  destruct (get_hostkey_public_by_index keyid); [|apply quiet_die].
  apply quiet_bind; [apply quiet_modm; intros ?; split; try done; by exists []|]. intros _.
  destruct (nth _ _ _); [apply quiet_die|].
  apply quiet_bind; [apply quiet_modm; intros ?; split; try done; by exists []|]. intros _. quiet.
Qed.

Lemma sign_spec acc p n s m : p MONITOR_REQ_SIGN = true -> mo_table s = table_of p -> core acc acc p n s ->
  mwp (mm_answer_sign nids m) (answered acc true MONITOR_REQ_SIGN s) s.
Proof.
  intros P T C. assert (n = 0%nat) as -> by (eapply (stage_of _ _ _ _ _ _ _ C P); stage).
  destruct (c_early _ _ _ _ _ _ C) as [-> K]; [lia|].
  unfold mm_answer_sign. apply mwp_bind, mwp_get_st. destruct (negb (mo_compat_set s)); [apply mwp_die|].
  apply mwp_bind, (mwp_near _ _ s); [apply quiet_nearly; quiet|apply near_refl|]. intros [pk b1] s1 S1.
  apply mwp_bind, (mwp_near _ _ s); [apply quiet_nearly; quiet|done|]. intros [d b2] s2 S2.
  apply mwp_bind, (mwp_near _ _ s); [apply quiet_nearly; quiet|done|]. intros [alg b3] s3 S3.
  apply mwp_bind, (mwp_near _ _ s); [apply quiet_nearly; quiet|done|]. intros [compat b4] s4 S4. cbv zeta.
  destruct (_ =? -1); [apply mwp_die|].
  apply mwp_bind, (mwp_near _ _ s); [apply quiet_nearly; destruct (_ || _); [apply quiet_ret|apply quiet_check_proof]|done|].
  intros _ s5 S5. apply mwp_bind, (mwp_near _ _ s); [|done|].
  { intros x. destruct (_ =? 0); [apply mwp_modm; split; try done; by exists []|apply near_refl]. }
  intros _ s6 S6. apply mwp_bind, (mwp_near _ _ s); [apply quiet_nearly; quiet|done|]. intros [sg|] s7 S7; [|apply mwp_die].
  apply mwp_bind, (mwp_near _ _ s); [apply quiet_nearly; quiet|done|]. intros _ s8 S8.
  apply mwp_bind, (mwp_permit _ _ _ _ p); [by apply (bool_decide_unpack (_ ∈ _))|by rewrite (nr_table _ _ S8)|]. apply mwp_ret.
  apply (answered_early p _ _ _ (upd p MONITOR_REQ_PWNAM true) 1); try done; [by apply near_table| |lia]. pose proof (c_perm _ _ _ _ _ _ C) as Hp.
  intros t. unfold clr, upd. destruct (Z.eqb_spec t MONITOR_REQ_SIGN) as [|Hs]; [done|].
  destruct (Z.eqb_spec t MONITOR_REQ_PWNAM) as [->|]; [intros _; by apply (bool_decide_unpack (_ ∈ _))|].
  intros Ht. specialize (Hp _ Ht). revert Hp. cbn [allowed pred]. rewrite !elem_of_cons. tauto.
Qed.

Lemma nearly_modctx f : (forall c, a_prev_keys (f c) = a_prev_keys c) -> nearly (modctx f).
Proof. intros H s. apply mwp_modm. split; try done; [by exists []|apply H]. Qed.

Lemma nearly_setup : nearly setup_lists.
Proof.
  intros s. unfold setup_lists. apply mwp_bind, mwp_gets. destruct (auth2_setup_methods_lists _ _) as [[o lists] ?].
  apply mwp_bind, mwp_modm. destruct lists; [|apply mwp_ret]; (split; try done; by exists []).
Qed.

(** The lists start as they are configured. *)
Lemma setup_spec s : mwp setup_lists (fun _ s' => lists_inv [] s') s.
Proof.
  unfold setup_lists. apply mwp_bind, mwp_gets. unfold auth2_setup_methods_lists. cbv zeta. set (o := if _ && _ then set_auth_methods [] _ else mo_opts s).
  destruct (Z.eqb_spec (zlen (auth_methods o)) 0) as [E|E].
  - apply mwp_bind, mwp_modm, mwp_ret. unfold lists_inv. intros []. cbn [mo_opts set_mo_opts].
    destruct (auth_methods o) as [|x l] eqn:EO; [done|]. rewrite zlen_cons in E. pose proof (zlen_nonneg l). lia.
  - apply mwp_bind, mwp_modm, mwp_modm. intros _. change (Forall2 (remains name_of []) (enabled_lists o) (enabled_lists o)).
    induction (enabled_lists o); constructor; [|done]. left. apply progress_start.
Qed.

Lemma mwp_and {A} (h : M monitor A) (P Q : A -> monitor -> Prop) s : mwp h P s -> mwp h Q s -> mwp h (fun a s' => P a s' /\ Q a s') s.
Proof. unfold mwp. by destruct (h s) as [[]]. Qed.

Lemma lists_same s s' : same s s' -> lists_inv [] s -> lists_inv [] s'.
Proof. intros [] H. unfold lists_inv. by rewrite sm_opts, sm_ctx. Qed.

Lemma pwnam_spec acc p n s m : p MONITOR_REQ_PWNAM = true -> mo_table s = table_of p -> core acc acc p n s ->
  mwp (mm_answer_pwnamallow m) (answered acc true MONITOR_REQ_PWNAM s) s.
Proof.
  intros P T C. assert (n = 1%nat) as -> by (eapply (stage_of _ _ _ _ _ _ _ C P); stage).
  destruct (c_early _ _ _ _ _ _ C) as [-> K]; [lia|].
  unfold mm_answer_pwnamallow. apply mwp_bind, mwp_get_st. destruct (mo_compat_set s) eqn:EC; cbn [negb]; [|apply mwp_die].
  apply mwp_bind, (mwp_near _ _ s); [by apply nearly_modctx|apply near_refl|]. intros _ s1 S1.
  destruct (negb _); [apply mwp_die|].
  apply mwp_bind, (mwp_near _ _ s); [apply quiet_nearly; quiet|done|]. intros [user b] s2 S2.
  apply mwp_bind, (mwp_near _ _ s); [by apply nearly_modctx|done|]. intros _ s3 S3.
  apply mwp_bind, (mwp_near _ _ s); [apply quiet_nearly; quiet|done|]. intros [pwent o] s4 S4.
  apply mwp_bind, (mwp_near _ _ s); [intros ?; apply mwp_modm; split; try done; by exists []|done|]. intros _ s5 S5.
  apply mwp_bind, (mwp_near _ _ s); [|done|].
  { intros x. destruct pwent; [by apply nearly_modctx|]. apply mwp_bind, mwp_modm.
    eapply mwp_near; [by apply nearly_modctx| |done]. split; try done; by exists []. }
  intros _ s6 S6. apply mwp_bind, (mwp_near _ _ s); [apply quiet_nearly; quiet|done|]. intros mm s7 S7.
  destruct (refuse_connection o); [apply mwp_refused|].
  apply mwp_bind, (mwp_near _ _ s); [apply quiet_nearly; quiet|done|]. intros [config|] s8 S8; [|apply mwp_die].
  apply mwp_bind, (mwp_near _ _ s); [apply quiet_nearly; quiet|done|]. intros mm' s9 S9.
  apply mwp_bind. eapply mwp_mono; [apply mwp_and; [apply setup_spec|apply nearly_setup]|]. intros _ s10 [L S10].
  apply (near_trans _ _ _ S9) in S10. apply mwp_bind, mwp_quiet; [quiet|]. intros _ s11 S11.
  apply (lists_same _ _ S11) in L. apply same_near, (near_trans _ _ _ S10) in S11.
  apply mwp_bind, (mwp_permit _ _ _ _ p); [by apply (bool_decide_unpack (_ ∈ _))|by rewrite (nr_table _ _ S11)|].
  apply mwp_bind, (mwp_permit _ _ _ _ (upd p MONITOR_REQ_AUTHSERV true)); [by apply (bool_decide_unpack (_ ∈ _))|done|]. apply mwp_ret.
  change (set_mo_table ?a (set_mo_table ?b s11)) with (set_mo_table a s11).
  apply (answered_early p _ _ _ (upd (upd p MONITOR_REQ_AUTHSERV true) MONITOR_REQ_AUTH2_READ_BANNER true) 2); try done; [by apply near_table|]. pose proof (c_perm _ _ _ _ _ _ C) as Hp.
  pose proof (c_compat _ _ _ _ _ _ C) as Hc.
  intros t. unfold clr, upd. destruct (Z.eqb_spec t MONITOR_REQ_PWNAM) as [|Hs]; [done|].
  destruct (Z.eqb_spec t MONITOR_REQ_AUTH2_READ_BANNER) as [->|]; [intros _; by apply (bool_decide_unpack (_ ∈ _))|].
  destruct (Z.eqb_spec t MONITOR_REQ_AUTHSERV) as [->|]; [intros _; by apply (bool_decide_unpack (_ ∈ _))|].
  intros Ht. assert (t <> MONITOR_REQ_SETCOMPAT) by (intros ->; rewrite (Hc Ht) in EC; done).
  specialize (Hp _ Ht). revert Hp. cbn [allowed pred]. rewrite !elem_of_cons. tauto.
Qed.

Lemma authserv_spec acc p n s m : p MONITOR_REQ_AUTHSERV = true -> bytes_ok m -> mo_table s = table_of p -> core acc acc p n s ->
  mwp (mm_answer_authserv m) (answered acc true MONITOR_REQ_AUTHSERV s) s.
Proof.
  intros P B T C. assert (n = 2%nat) as -> by (eapply (stage_of _ _ _ _ _ _ _ C P); stage).
  destruct (c_early _ _ _ _ _ _ C) as [-> K]; [lia|]. pose proof (c_lists _ _ _ _ _ _ C) as L.
  unfold mm_answer_authserv. apply mwp_bind, mwp_modm.
  rewrite T, permit_auth_table. pose (p' := fun t => if auth_type t then true else p t).
  change (fun t => if auth_type t then true else p t) with p'. set (s0 := set_mo_table _ s).
  apply mwp_bind, mwp_quiet; [quiet|]. intros [service b1] s1 S1. apply mwp_bind, mwp_modm.
  apply mwp_bind, mwp_quiet; [quiet|]. intros [style b2] s3 S3. apply mwp_bind, mwp_modm, mwp_ret.
  assert (near s0 s3) as N.
  { apply (near_trans _ s1), (near_trans _ _ _ (nearly_modctx (set_a_service (Some service)) (fun _ => eq_refl) s1));
      by apply same_near. }
  apply (answered_early p _ _ _ p' 3); try done.
  - apply (near_trans _ s3 _ N). exact (nearly_modctx (set_a_style (nonempty style)) (fun _ => eq_refl) s3).
  - intros t. unfold clr, upd. destruct (Z.eqb_spec t MONITOR_REQ_AUTHSERV); [done|]. unfold p'.
    destruct (auth_type t) eqn:A.
    + intros _. unfold auth_type in A. apply bool_decide_eq_true in A. cbn [allowed]. revert A. rewrite !elem_of_cons. tauto.
    + intros Ht. pose proof (c_perm _ _ _ _ _ _ C _ Ht) as Hp. revert Hp. cbn [allowed pred]. rewrite !elem_of_cons. tauto.
  - intros _ Hne. cbn [mo_ctx set_mo_ctx a_auth_methods set_a_style]. 
    assert (mo_opts s3 = mo_opts s) as EO by exact (eq_trans (sm_opts _ _ S3) (sm_opts _ _ S1)).
    assert (a_auth_methods (mo_ctx s3) = a_auth_methods (mo_ctx s)) as EM.
    { rewrite (sm_ctx _ _ S3). exact (f_equal a_auth_methods (sm_ctx _ _ S1)). }
    change (Forall2 (remains name_of []) (enabled_lists (mo_opts s3)) (a_auth_methods (mo_ctx s3))).
    rewrite EO, EM. apply L; [lia|]. by rewrite <- EO.
Qed.
End Answers.
