(* ===== verification/MonitorAuth.v ===== *)
(** * MonitorAuth: the answers that authenticate

    Each success of an authentication request comes with a credential that is
    backed by the services the monitor asked. *)

From S2P Require Import Prelude Ssherr Sshbuf SshbufGetput SshbufWire Cstring Match KexNames.
From S2P Require Import SshkeyNames Cipher SshState Packet PacketRead Misc AuthOptions AuthMethods.
From S2P Require Import AuthCtxt Monitor MonitorLogic MonitorBlob MonitorInv MonitorSteps.

Section Stage.
Context (nids : curve_nids) {KO : KeyOps} {SV : Services}.
Implicit Types (s : monitor) (acc : list (list Z * cred)) (m : list Z).
Local Abbreviation core := (core nids).

Lemma stage3 lacc acc p n s t : core lacc acc p n s -> p t = true ->
  (forall i, (i <= 2)%nat -> t ∉ allowed i) -> (3 <= n)%nat.
Proof.
  intros C P H. pose proof (c_perm _ _ _ _ _ _ C _ P) as Hp. destruct (decide (n <= 2)%nat); [|lia].
  exfalso. by apply (H n).
Qed.

End Stage.

(** The stage of a request of the last stage. *)
Ltac late := match goal with P : ?p ?t = true, C : MonitorInv.core _ _ _ ?p ?n _ |- _ =>
  assert (3 <= n)%nat as N by (apply (stage3 _ _ _ _ _ _ _ C P); intros [|[|[|i]]] Hi; [..|lia]; by apply (bool_decide_unpack (_ ∉ _))) end.

Section Answers3.
Context (nids : curve_nids) {KO : KeyOps} {SV : Services}.
Implicit Types (s : monitor) (acc : list (list Z * cred)) (m : list Z).
Local Abbreviation core := (core nids).

Lemma mwp_quiet_eq {A} (h : M monitor A) (Q : A -> monitor -> Prop) s :
  quiet h -> (forall a s', h s = (Ok a, s') -> same s s' -> Q a s') -> mwp h Q s.
Proof. intros H K. pose proof (H s) as W. revert W. unfold mwp. destruct (h s) as [[]] eqn:E; auto. Qed.

(** *** A success without a key *)

Lemma core_accept acc p n s a : (3 <= n)%nat -> core acc acc p n s -> credible nids s a -> key_of a.2 = None ->
  core acc (acc ++ [a]) p n s.
Proof.
  intros N C H K. assert (cred_keys (acc ++ [a]) = cred_keys acc) as E.
  { unfold cred_keys. rewrite omap_app. cbn. rewrite K. apply app_nil_r. }
  destruct C. split; try done.
  - lia.
  - apply Forall_app. split; [done|by constructor].
  - unfold used_inv. by rewrite E.
  - by rewrite E.
Qed.

(** ** Passwords *)

Lemma auth_password_spec s password : mwp (auth_password password) (fun r s' => same s s' /\
  (r = true -> a_valid (mo_ctx s) = true /\ exists pw w w', a_pw (mo_ctx s) = Some pw /\
     windows_password_auth (pw_name pw) password w = (true, w'))) s.
Proof.
  unfold auth_password. apply mwp_bind, mwp_get_st. destruct (a_pw (mo_ctx s)) as [pw|]; [|apply mwp_crash].
  destruct (_ >? _); [apply mwp_ret; split; [apply same_refl|done]|]. cbv zeta.
  destruct (_ && _) eqn:E; [apply mwp_ret; split; [apply same_refl|done]|].
  apply mwp_bind, mwp_svc. intros r w w' s1 EW S1. apply mwp_ret. split; [done|].
  intros [-> [? _]%andb_true_iff]%andb_true_iff. split; [done|]. eauto.
Qed.

Lemma authpassword_spec acc p n s m : p MONITOR_REQ_AUTHPASSWORD = true -> bytes_ok m -> mo_table s = table_of p ->
  core acc acc p n s -> mwp (mm_answer_authpassword m) (answered nids acc false MONITOR_REQ_AUTHPASSWORD s) s.
Proof.
  intros P B T C. late.
  unfold mm_answer_authpassword. apply mwp_bind, mwp_gets. destruct (password_authentication (mo_opts s)) eqn:EP; cbn [negb]; [|apply mwp_die].
  apply mwp_bind, mwp_cstring; [done|]. intros u password b1 s1 _ _ B1 S1.
  apply mwp_bind. eapply mwp_mono; [apply auth_password_spec|]. intros r s2 [S2 Hr].
  apply (same_trans _ _ _ S1) in S2. rewrite (sm_ctx _ _ S1) in Hr. clear s1 S1 b1 B1.
  apply mwp_bind, mwp_quiet; [quiet|]. intros _ s3 S3. apply (same_trans _ _ _ S2) in S3. clear s2 S2.
  apply mwp_bind, mwp_modm, mwp_bind, mwp_gets, mwp_bind, mwp_modm, mwp_ret.
  set (s' := set_mo_auth_method _ _).
  assert (keeps s s') as K by (apply (keeps_trans _ s3); [by apply same_keeps|split; try done; by exists []]).
  split; [exact (sm_auth_submethod _ _ S3)|]. split; [by apply (keeps_in s s')|].
  apply (core_keeps nids _ _ _ _ _ _ K) in C. exists p, n. split; [by rewrite (kp_table _ _ K)|]. split; intros Er.
  - split; [done|]. exists (C_password password). apply core_accept; try done. destruct r; [|done]. destruct Hr as (Hv & pw & w & w' & Hpw & HW); [done|].
    unfold credible. rewrite (kp_valid _ _ K). split; [done|].
    cbn [backed fst snd]. unfold account. rewrite (kp_pw _ _ K). split_and!; [|by rewrite (kp_opts _ _ K)|eauto].
    unfold s'. cbn [mo_auth_method set_mo_auth_method]. case_bool_decide; [|by left]. cbn [andb]. destruct (_ =? 1); [by right|by left].
  - exact C.
Qed.

(** ** GSSAPI *)

Lemma core_table lacc acc p n s t : core lacc acc p n s -> core lacc acc p n (set_mo_table t s).
Proof. intros []. by split. Qed.

Lemma core_perm lacc acc p p' n s : core lacc acc p n s -> (forall t, p' t = true -> p t = true \/ t ∈ [MONITOR_REQ_GSSSTEP; MONITOR_REQ_GSSUSEROK; MONITOR_REQ_GSSCHECKMIC]) ->
  (3 <= n)%nat -> core lacc acc p' n s.
Proof.
  intros [] H N. split; try done.
  - intros t Ht. destruct (H _ Ht) as [?|Hin]; [auto|]. destruct n as [|[|[|n]]]; [lia..|]. cbn [allowed].
    revert Hin. rewrite !elem_of_cons. tauto.
  - intros Ht. destruct (H _ Ht) as [?|Hin]; [auto|]. exfalso. revert Hin. by apply (bool_decide_unpack (_ ∉ _)).
Qed.

Lemma gss_setup_spec acc p n s m : p MONITOR_REQ_GSSSETUP = true -> bytes_ok m -> mo_table s = table_of p ->
  core acc acc p n s -> mwp (mm_answer_gss_setup_ctx m) (answered nids acc false MONITOR_REQ_GSSSETUP s) s.
Proof.
  intros P B T C. late.
  unfold mm_answer_gss_setup_ctx. apply mwp_bind, mwp_gets. destruct (negb _); [apply mwp_die|].
  apply mwp_bind, mwp_string; [done|]. intros oid b1 s1 _ B1 S1. apply mwp_bind, mwp_modm. set (s2 := set_mo_gsscontext _ _).
  apply mwp_bind, mwp_quiet; [quiet|]. intros major s3 S3.
  apply mwp_bind, mwp_quiet; [quiet|]. intros _ s4 S4. apply (same_trans _ _ _ S3) in S4.
  assert (keeps s s4) as K.
  { apply (keeps_trans _ s1); [by apply same_keeps|]. apply (keeps_trans _ s2); [split; try done; by exists []|by apply same_keeps]. }
  apply mwp_bind, (mwp_permit _ _ _ _ p); [by apply (bool_decide_unpack (_ ∈ _))|by rewrite (kp_table _ _ K)|]. apply mwp_ret.
  split; [exact (eq_trans (sm_auth_submethod _ _ S4) (sm_auth_submethod _ _ S1))|]. split; [by apply (keeps_in s s4)|].
  exists (upd p MONITOR_REQ_GSSSTEP true), n. split; [done|]. split; [done|]. intros _.
  apply core_table, (core_perm _ _ p); [by eapply core_keeps| |done].
  intros t. unfold clr, upd. destruct (Z.eqb_spec t MONITOR_REQ_GSSSTEP) as [->|]; [|by left]. intros _. right. left.
Qed.

Lemma core_client lacc acc p n s c : core lacc acc p n s -> c = no_client \/ gss_from c ->
  core lacc acc p n (set_mo_gssapi_client c s).
Proof. intros [] H. by split. Qed.

(** A step that at most sets the client of an accepted context. *)
Definition client_step s s' : Prop :=
  mo_auth_submethod s' = mo_auth_submethod s /\
  exists c, keeps (set_mo_gssapi_client c s) s' /\ (c = mo_gssapi_client s \/ c = no_client \/ gss_from c).

Lemma core_client_step lacc acc p n s s' : client_step s s' -> core lacc acc p n s ->
  core lacc acc p n s' /\ mo_table s' = mo_table s /\ (length (mo_in_ s') <= length (mo_in_ s))%nat.
Proof.
  intros (_ & c & K & H) C. split.
  - eapply core_keeps; [exact K|]. apply core_client; [done|]. destruct H as [-> | H]; [exact (c_gss _ _ _ _ _ _ C)|done].
  - split; [exact (kp_table _ _ K)|]. apply (keeps_in (set_mo_gssapi_client c s) s' K).
Qed.

Lemma client_same s s' : same s s' -> client_step s s'.
Proof.
  intros S. split; [exact (sm_auth_submethod _ _ S)|]. exists (mo_gssapi_client s). split; [|by left].
  apply same_keeps in S. by destruct S.
Qed.

Lemma keeps_client c s s' : keeps s s' -> keeps (set_mo_gssapi_client c s) (set_mo_gssapi_client c s').
Proof. by intros []. Qed.

Lemma client_same_l s s1 s' : same s s1 -> client_step s1 s' -> client_step s s'.
Proof.
  intros S (E & c & K & H). split; [by rewrite E, (sm_auth_submethod _ _ S)|]. exists c.
  split; [|by rewrite <- (sm_gssapi_client _ _ S)]. eapply keeps_trans; [|exact K]. by apply keeps_client, same_keeps.
Qed.

Lemma client_same_r s s1 s' : client_step s s1 -> same s1 s' -> client_step s s'.
Proof.
  intros (E & c & K & H) S. split; [by rewrite (sm_auth_submethod _ _ S)|]. exists c. split; [|done].
  eapply keeps_trans; [exact K|]. by apply same_keeps.
Qed.

Lemma accept_ctx_spec s ctx tok : mwp (ssh_gssapi_accept_ctx ctx tok) (fun _ s' => client_step s s') s.
Proof.
  unfold ssh_gssapi_accept_ctx. destruct ctx as [ctx|]; [|apply mwp_crash].
  apply mwp_bind, mwp_svc. intros [[major out] flags] w w' s1 EA S1. apply mwp_bind.
  destruct (accept_complete major flags) eqn:E; [|apply mwp_ret, mwp_ret; by apply client_same].
  unfold accept_complete in E. zbool. subst major.
  apply mwp_bind, mwp_quiet; [quiet|]. intros names s2 S2. apply (same_trans _ _ _ S1) in S2.
  destruct (ssh_gssapi_getclient ctx names) as [c| |] eqn:EC; [|apply mwp_die|apply mwp_crash].
  apply mwp_modm, mwp_ret. split; [exact (sm_auth_submethod _ _ S2)|]. exists c.
  split; [by apply keeps_client, same_keeps|]. right. right. exists ctx, tok, w, w', out, flags, names.
  split_and!; try done; unfold bits; apply negb_true_iff; by apply Z.eqb_neq.
Qed.

Lemma gss_step_spec acc p n s m : p MONITOR_REQ_GSSSTEP = true -> bytes_ok m -> mo_table s = table_of p ->
  core acc acc p n s -> mwp (mm_answer_gss_accept_ctx m) (answered nids acc false MONITOR_REQ_GSSSTEP s) s.
Proof.
  intros P B T C. late.
  unfold mm_answer_gss_accept_ctx. apply mwp_bind, mwp_gets. destruct (negb _); [apply mwp_die|].
  apply mwp_bind, mwp_string; [done|]. intros tok b1 s1 _ B1 S1. apply mwp_bind, mwp_gets.
  apply mwp_bind. eapply mwp_mono; [apply accept_ctx_spec|]. intros [[major out] flags] s2 S2.
  apply mwp_bind, mwp_quiet; [quiet|]. intros _ s3 S3. pose proof (client_same_r _ _ _ (client_same_l _ _ _ S1 S2) S3) as S4.
  pose proof S4 as [Es _]. apply (core_client_step _ _ _ _ _ _ S4) in C as (C3 & T3 & L3). rewrite T in T3.
  apply mwp_bind. destruct (major =? GSS_S_COMPLETE).
  - apply mwp_bind, (mwp_permit _ _ _ _ p); [by apply (bool_decide_unpack (_ ∈ _))|done|].
    apply mwp_bind, (mwp_permit _ _ _ _ (upd p MONITOR_REQ_GSSSTEP false)); [by apply (bool_decide_unpack (_ ∈ _))|done|].
    apply (mwp_permit _ _ _ _ (upd (upd p MONITOR_REQ_GSSSTEP false) MONITOR_REQ_GSSUSEROK true)); [by apply (bool_decide_unpack (_ ∈ _))|done|].
    apply mwp_ret. split; [done|]. split; [done|]. eexists _, n. split; [reflexivity|]. split; [done|]. intros _.
    do 3 apply core_table. apply (core_perm _ _ p); [done| |done].
    intros t. unfold clr, upd. destruct (Z.eqb_spec t MONITOR_REQ_GSSCHECKMIC) as [->|]; [right; right; right; left|].
    destruct (Z.eqb_spec t MONITOR_REQ_GSSUSEROK) as [->|]; [right; right; left|]. destruct (Z.eqb_spec t MONITOR_REQ_GSSSTEP); [done|by left].
  - apply mwp_ret, mwp_ret. split; [done|]. split; [done|]. exists p, n. done.
Qed.

Lemma gss_checkmic_spec acc p n s m : p MONITOR_REQ_GSSCHECKMIC = true -> bytes_ok m -> mo_table s = table_of p ->
  core acc acc p n s -> mwp (mm_answer_gss_checkmic m) (answered nids acc true MONITOR_REQ_GSSCHECKMIC s) s.
Proof.
  intros P B T C. late.
  unfold mm_answer_gss_checkmic. apply mwp_bind, mwp_gets. destruct (negb _); [apply mwp_die|].
  apply mwp_bind, mwp_string; [done|]. intros buf b1 s1 _ B1 S1.
  apply mwp_bind, mwp_string; [done|]. intros mic b2 s2 _ B2 S2. apply (same_trans _ _ _ S1) in S2.
  apply mwp_bind, mwp_gets. destruct (mo_gsscontext s2); [|apply mwp_crash].
  apply mwp_bind, mwp_quiet; [quiet|]. intros ret s3 S3. apply (same_trans _ _ _ S2) in S3.
  apply mwp_bind, mwp_quiet; [quiet|]. intros _ s4 S4. apply (same_trans _ _ _ S3) in S4.
  pose proof (same_keeps _ _ S4) as K. apply mwp_bind. destruct (GSS_ERROR ret).
  - apply mwp_ret, mwp_ret. eapply answered_keeps; eauto. exact (sm_auth_submethod _ _ S4).
  - apply (mwp_permit _ _ _ _ p); [by apply (bool_decide_unpack (_ ∈ _))|by rewrite (kp_table _ _ K)|]. apply mwp_ret.
    split; [exact (sm_auth_submethod _ _ S4)|]. split; [by apply (keeps_in s s4)|].
    exists (upd p MONITOR_REQ_GSSUSEROK true), n. split; [done|]. split; [done|]. intros _.
    apply core_clr, core_table, (core_perm _ _ p); [by eapply core_keeps| |done].
    intros t. unfold upd. destruct (Z.eqb_spec t MONITOR_REQ_GSSUSEROK) as [->|]; [|by left]. intros _. right. right. left.
Qed.

Lemma userok_spec s user : gss_inv s -> mwp (ssh_gssapi_userok user) (fun r s' => client_step s s' /\
  (r = true -> gss_from (mo_gssapi_client s) /\ exists w w', gss_mech_userok (mo_gssapi_client s) user w = (true, w'))) s.
Proof.
  intros G. unfold ssh_gssapi_userok. apply mwp_bind, mwp_gets.
  destruct (_ =? 0) eqn:E; [apply mwp_ret; split; [apply client_same, same_refl|done]|].
  destruct (gcl_mech _) eqn:EM; [|apply mwp_ret; split; [apply client_same, same_refl|done]].
  apply mwp_bind, mwp_svc. intros ok w w' s1 EW S1. destruct ok.
  - apply mwp_ret. split; [by apply client_same|]. intros _. split; [|eauto].
    destruct G as [G|G]; [|done]. by rewrite G in EM.
  - apply mwp_bind, mwp_modm, mwp_ret. split; [|done]. split; [exact (sm_auth_submethod _ _ S1)|].
    exists no_client. split; [by apply keeps_client, same_keeps|]. right. by left.
Qed.

Lemma gss_userok_spec acc p n s m : p MONITOR_REQ_GSSUSEROK = true -> mo_table s = table_of p ->
  core acc acc p n s -> mwp (mm_answer_gss_userok m) (answered nids acc true MONITOR_REQ_GSSUSEROK s) s.
Proof.
  intros P T C. late.
  unfold mm_answer_gss_userok. apply mwp_bind, mwp_get_st. destruct (gss_authentication (mo_opts s)) eqn:EG; cbn [negb]; [|apply mwp_die].
  apply mwp_bind.
  assert (mwp (if a_valid (mo_ctx s) then ssh_gssapi_userok (default [] (a_user (mo_ctx s))) else mret false)
    (fun r s' => client_step s s' /\ (r = true -> a_valid (mo_ctx s) = true /\ gss_from (mo_gssapi_client s) /\
      exists w w', gss_mech_userok (mo_gssapi_client s) (default [] (a_user (mo_ctx s))) w = (true, w'))) s) as W.
  { destruct (a_valid (mo_ctx s)); [|apply mwp_ret; split; [apply client_same, same_refl|done]].
    eapply mwp_mono; [apply userok_spec, (c_gss _ _ _ _ _ _ C)|]. intros r s' [? H]. split; [done|]. intros E.
    destruct (H E). by split. }
  eapply mwp_mono; [exact W|]. clear W. intros r s1 [S1 Hr].
  apply mwp_bind, mwp_quiet; [quiet|]. intros _ s2 S2. apply (client_same_r _ _ _ S1) in S2. clear s1 S1.
  apply mwp_bind, mwp_modm, mwp_bind, mwp_get_st, mwp_bind.
  assert (forall s3, keeps s2 s3 -> mo_auth_submethod s3 = mo_auth_submethod s2 -> mo_auth_method s3 = str "gssapi-with-mic" ->
    answered nids acc true MONITOR_REQ_GSSUSEROK s (flag_of r) s3) as W.
  { intros s3 K E M. destruct (core_client_step _ _ _ _ _ _ S2 C) as (C2 & T2 & L2). destruct S2 as (E2 & c & K2 & _).
    pose proof (core_keeps nids _ _ _ _ _ _ K C2) as C3.
    split; [by rewrite E, E2|]. split; [pose proof (keeps_in _ _ K); lia|]. exists p, n. split; [by rewrite (kp_table _ _ K), T2|].
    split; intros Er; [|by apply core_clr]. split; [done|]. exists (C_gss (mo_gssapi_client s)).
    apply core_clr, core_accept; try done. destruct r; [|done]. destruct Hr as (Hv & Hf & w & w' & HW); [done|].
    pose proof (keeps_fixed _ _ (keeps_trans _ _ _ K2 K)) as F. destruct F. unfold credible.
    split; [by rewrite fx_valid|]. cbn [backed fst snd]. split_and!; try done.
    - by rewrite fx_opts.
    - exists w, w'. by rewrite fx_user. }
  destruct (gcl_displayname _) as [[|d ds]|]; [apply mwp_ret| |apply mwp_ret]; [apply W; try done; split; try done; by exists []| |apply W; try done; split; try done; by exists []].
  apply mwp_modm, W; try done. split; try done; by exists [].
Qed.
End Answers3.
