(* ===== verification/MonitorKeys.v ===== *)
(** * MonitorKeys: allowing a key and verifying its signature *)

From S2P Require Import Prelude Ssherr Sshbuf SshbufGetput SshbufWire Cstring Match KexNames.
From S2P Require Import SshkeyNames Cipher SshState Packet PacketRead Misc AuthOptions AuthMethods.
From S2P Require Import AuthCtxt Monitor MonitorLogic MonitorBlob MonitorInv MonitorSteps MonitorAuth.

Section Keys.
Context (nids : curve_nids) {KO : KeyOps} {SV : Services}.
Implicit Types (s : monitor) (acc : list (list Z * cred)) (m : list Z).
Local Abbreviation core := (core nids).

Lemma quiet_fingerprint key : quiet (fingerprint_of key).
Proof. unfold fingerprint_of. quiet. Qed.

Lemma quiet_hostbased pw cuser chost key : quiet (hostbased_key_allowed nids pw cuser chost key).
Proof.
  unfold hostbased_key_allowed. apply quiet_bind; [apply quiet_gets|]. intros o. apply quiet_bind; [apply quiet_svc|].
  intros []; [apply quiet_ret|]. do 2 (apply quiet_bind; [apply quiet_svc|]; intros ?). cbv zeta.
  destruct pw as [pw|]; [|apply quiet_crash]. apply quiet_bind; [quiet|]. intros [ok lookup].
  destruct (negb ok); [apply quiet_ret|].
  destruct (_ && _); [apply quiet_bind; [apply quiet_fingerprint|]; intros ?; apply quiet_ret|].
  apply quiet_bind; [apply quiet_svc|]. intros st. apply quiet_bind; [quiet|]. intros st'.
  destruct (negb _); [apply quiet_ret|]. apply quiet_bind; [apply quiet_fingerprint|]. intros ?. apply quiet_ret.
Qed.

Lemma hostbased_no_account cuser chost key s :
  mwp (hostbased_key_allowed nids None cuser chost key) (fun r _ => r.1 = false) s.
Proof.
  unfold hostbased_key_allowed. apply mwp_bind, mwp_gets, mwp_bind, mwp_quiet; [quiet|]. intros [] s1 _; [by apply mwp_ret|].
  do 2 (apply mwp_bind, mwp_quiet; [quiet|]; intros ? ? _). apply mwp_crash.
Qed.

(** ** Whether a key is allowed *)

(** What makes a key allowed. *)
Definition allowed_key s (type : Z) (cuser chost : list Z) (key : sshkey) (opts : option sshauthopt) : Prop :=
  a_valid (mo_ctx s) = true /\ exists pw, a_pw (mo_ctx s) = Some pw /\ auth2_key_already_used (mo_ctx s) key = false /\
  (type = MM_USERKEY /\ pubkey_authentication (mo_opts s) = true /\
     (exists n w w', user_key_allowed pw key n w = ((true, opts), w')) \/
   type = MM_HOSTKEY /\ hostbased_authentication (mo_opts s) = true /\
     exists host s0 s1, mo_opts s0 = mo_opts s /\
       hostbased_key_allowed nids (Some pw) cuser host key s0 = (Ok (true, chost), s1)).

Lemma keeps_method (f : list Z) s : keeps s (set_mo_auth_method f s).
Proof. split; try done. by exists []. Qed.

Lemma check_key_spec s type cuser chost key attempt :
  mwp (check_key nids type cuser chost key attempt) (fun '(allowed, opts, chost') s' =>
    keeps s s' /\ mo_auth_submethod s' = mo_auth_submethod s /\
    (allowed = true -> allowed_key s type cuser chost' key opts)) s.
Proof.
  unfold check_key. apply mwp_bind, mwp_get_st. cbv zeta.
  destruct (a_valid (mo_ctx s)) eqn:EV; cbn [negb]; [|apply mwp_ret; split; [apply keeps_refl|done]].
  destruct (Z.eqb_spec type MM_USERKEY) as [->|]; [|destruct (Z.eqb_spec type MM_HOSTKEY) as [->|]; [|apply mwp_die]].
  - apply mwp_bind, mwp_modm. destruct (negb _ || _ || _) eqn:E; [apply mwp_ret; split; [apply keeps_method|done]|]. zbool.
    destruct (a_pw (mo_ctx s)) as [pw|] eqn:EP; [|apply mwp_crash].
    apply mwp_bind, mwp_svc. intros [al opts] w w' s1 EW S1. apply mwp_ret.
    split; [apply (keeps_trans _ _ _ (keeps_method (str "publickey") s)); by apply same_keeps|].
    split; [exact (sm_auth_submethod _ _ S1)|]. intros ->. split; [done|]. exists pw. split_and!; try done. left. split_and!; eauto.
  - apply mwp_bind, mwp_modm. destruct (negb _ || _ || _) eqn:E; [apply mwp_ret; split; [apply keeps_method|done]|]. zbool.
    apply mwp_bind, mwp_quiet_eq; [apply quiet_hostbased|]. intros [al host] s1 EW S1.
    apply mwp_bind, mwp_modm, mwp_ret.
    split; [apply (keeps_trans _ _ _ (keeps_method (str "hostbased") s)), (keeps_trans _ s1);
      [by apply same_keeps|split; try done; by exists []]|].
    split; [exact (sm_auth_submethod _ _ S1)|]. intros ->. split; [done|].
    destruct (a_pw (mo_ctx s)) as [pw|] eqn:EP.
    + exists pw. split_and!; try done. right. split_and!; try done. by exists chost, (set_mo_auth_method (str "hostbased") s), s1.
    + pose proof (hostbased_no_account cuser chost key (set_mo_auth_method (str "hostbased") s)) as W.
      unfold mwp in W. by rewrite EW in W.
Qed.

(** Replacing the key that waits for its signature. *)
Definition set_key (blob : option (list Z)) (type : Z) (opts : option sshauthopt) (cuser chost : option (list Z)) s : monitor :=
  set_mo_chost chost (set_mo_cuser cuser (set_mo_key_opts opts (set_mo_key_blobtype type (set_mo_key_blob blob s)))).

Lemma core_set_key lacc acc p n s blob type opts cuser chost : (3 <= n)%nat -> core lacc acc p n s ->
  key_inv nids (set_key blob type opts cuser chost s) -> core lacc acc p n (set_key blob type opts cuser chost s).
Proof. intros N [] K. split; try done. lia. Qed.

Lemma mwp_record_key s (c : Authctxt) (b : bool) key (Q : Authctxt -> monitor -> Prop) :
  (forall d, sshkey_from_private key = inr d ->
     Q (if b then set_a_prev_keys (a_prev_keys c ++ [d]) (set_a_auth_method_key (Some d) c) else set_a_auth_method_key (Some d) c) s) ->
  mwp (auth2_record_key c b key) Q s.
Proof.
  intros H. unfold auth2_record_key. destruct (sshkey_from_private key) as [|d]; [apply mwp_die|].
  destruct b; cbn [negb]; [|by apply mwp_ret, (H d)]. destruct (_ >=? _); [apply mwp_die|]. by apply mwp_ret, (H d).
Qed.

Lemma keyallowed_spec acc p n s m : p MONITOR_REQ_KEYALLOWED = true -> bytes_ok m -> mo_table s = table_of p ->
  core acc acc p n s -> mwp (mm_answer_keyallowed nids m) (answered nids acc false MONITOR_REQ_KEYALLOWED s) s.
Proof.
  intros P B T C. late. unfold mm_answer_keyallowed.
  apply mwp_bind, mwp_u32; [done|]. intros type b1 s1 B1 S1.
  apply mwp_bind, mwp_cstring; [done|]. intros ? cuser b2 s2 _ _ B2 S2.
  apply mwp_bind, mwp_cstring; [done|]. intros ? chost b3 s3 _ _ B3 S3.
  apply mwp_bind, mwp_key; [done|]. intros ? key b4 s4 _ _ B4 S4.
  apply mwp_bind, mwp_u32; [done|]. intros attempt b5 s5 B5 S5.
  assert (same s s5) as S by eauto 10 using same_trans. clear s1 s2 s3 s4 S1 S2 S3 S4 S5.
  apply mwp_bind. eapply mwp_mono; [apply check_key_spec|]. intros [[al opts] chost'] s6 (K6 & A6 & H6).
  apply mwp_bind, mwp_gets, mwp_bind, mwp_record_key. intros d Hd. apply mwp_bind, mwp_modm. set (s7 := set_mo_ctx _ s6).
  assert (keeps s s7) as K7.
  { apply (keeps_trans _ s5), (keeps_trans _ s6); [by apply same_keeps|done|split; try done; by exists []]. }
  assert (mo_auth_submethod s7 = mo_auth_submethod s) as A7 by exact (eq_trans A6 (sm_auth_submethod _ _ S)).
  apply mwp_bind, mwp_modm.
  change (set_mo_chost None _) with (set_key None MM_NOKEY None None None s7). set (s8 := set_key _ _ _ _ _ s7).
  assert (core acc acc p n s8) as C8 by (apply core_set_key; [done|by eapply core_keeps|done]).
  assert (forall s9, core acc acc p n s9 -> mo_auth_submethod s9 = mo_auth_submethod s -> mo_table s9 = table_of p ->
    (length (mo_in_ s9) <= length (mo_in_ s))%nat ->
    mwp (send_answer MONITOR_ANS_KEYALLOWED (fun m => m ← put_u32_at (flag_of al) m;
      match opts with Some o => sshauthopt_serialise o true m | None => mret m end);; mret 0)
      (answered nids acc false MONITOR_REQ_KEYALLOWED s) s9) as W.
  { intros s9 C9 A9 T9 L9. apply mwp_bind, mwp_quiet; [quiet|]. intros _ s10 S10. apply mwp_ret.
    pose proof (same_keeps _ _ S10) as K. split; [by rewrite (sm_auth_submethod _ _ S10)|].
    split; [pose proof (keeps_in _ _ K); lia|]. exists p, n. split; [by rewrite (kp_table _ _ K)|]. split; [done|].
    intros _. by eapply core_keeps. }
  assert (mo_table s8 = table_of p) as T8 by exact (eq_trans (kp_table _ _ K7) T).
  assert (length (mo_in_ s8) <= length (mo_in_ s))%nat as L8 by exact (keeps_in _ _ K7).
  apply mwp_bind. destruct al.
  - destruct (sshkey_to_blob key) as [|blob] eqn:EB; [apply mwp_die|]. apply mwp_modm.
    change (set_mo_chost (Some chost') _) with (set_key (Some blob) type opts (Some cuser) (Some chost') s8).
    apply W; try done. apply core_set_key; [done..|]. destruct (H6 eq_refl) as (Hv & pw & Hpw & Hu & Hk).
    exists key, pw. rewrite (sm_ctx _ _ S) in Hv, Hpw, Hu. rewrite (sm_opts _ _ S) in Hk.
    split_and!; [done|exact (eq_trans (kp_valid _ _ K7) Hv)|exact (eq_trans (kp_pw _ _ K7) Hpw)| |].
    + unfold auth2_key_already_used in *. change (mo_ctx (set_key _ _ _ _ _ s8)) with (mo_ctx s7). by rewrite (kp_prev _ _ K7).
    + change (mo_opts (set_key _ _ _ _ _ s8)) with (mo_opts s7). rewrite (kp_opts _ _ K7).
      destruct Hk as [(-> & ? & ?) | (-> & ? & host & s0 & s1 & E0 & ?)]; [by left|]. right. split_and!; try done.
      by exists cuser, chost', host, s0, s1.
  - apply mwp_bind, mwp_gets, mwp_quiet; [apply quiet_write_log|]. intros _ s9 S9. pose proof (same_keeps _ _ S9) as K.
    apply W; [by eapply core_keeps|by rewrite (sm_auth_submethod _ _ S9)|by rewrite (kp_table _ _ K)|pose proof (keeps_in _ _ K); lia].
Qed.

(** *** Merging options does not fail, it returns *)

Definition noerr {A} (h : AM A) : Prop := forall oom, match h oom with (Err _, _) => False | _ => True end.

Lemma noerr_bind {A B} (h : AM A) (k : A -> AM B) : noerr h -> (forall a, noerr (k a)) -> noerr (h ≫= k).
Proof. intros H K oom. specialize (H oom). unfold mbind, M_bind. destruct (h oom) as [[a| |] o]; [apply K|done..]. Qed.

Lemma noerr_ret {A} (a : A) : noerr (mret a).
Proof. done. Qed.

Lemma noerr_alloc : noerr alloc.
Proof. intros [|[] oom]; done. Qed.

Lemma noerr_or_fail {A B} e (h : AM (option A)) (k : A -> AM (list Z + B)) :
  noerr h -> (forall a, noerr (k a)) -> noerr (or_fail e h k).
Proof. intros H K. apply noerr_bind; [done|]. intros []; [apply K|apply noerr_ret]. Qed.

Lemma noerr_strdup x : noerr (strdup x).
Proof. apply noerr_bind; [apply noerr_alloc|]. intros []; apply noerr_ret. Qed.

Lemma noerr_dup_strings l : noerr (dup_strings l).
Proof.
  unfold dup_strings. case_bool_decide; [apply noerr_ret|]. apply noerr_bind; [apply noerr_alloc|]. intros []; [|apply noerr_ret].
  cbn [negb]. clear. induction l as [|x l IH]; cbn [dup_loop]; [apply noerr_ret|].
  apply noerr_bind; [apply noerr_strdup|]. intros []; [|apply noerr_ret]. apply noerr_bind; [done|]. intros. apply noerr_ret.
Qed.

Lemma noerr_dup_opt o : noerr (dup_opt o).
Proof. destruct o; [|apply noerr_ret]. apply noerr_bind; [apply noerr_strdup|]. intros. apply noerr_ret. Qed.

Lemma noerr_activate a o : noerr (auth_activate_options a o).
Proof.
  assert (noerr sshauthopt_new) by (apply noerr_bind; [apply noerr_alloc|]; intros; apply noerr_ret).
  unfold auth_activate_options. apply noerr_bind; [|intros; apply noerr_ret].
  unfold merge_ptr. destruct a as [a|], o as [o|]; try (apply noerr_or_fail; [done|]; intros ? ?; done).
  unfold sshauthopt_merge.
  repeat (first [apply noerr_or_fail; [first [done|apply noerr_strdup|apply noerr_dup_opt|apply noerr_dup_strings]|intros ?; cbv zeta]
    | apply noerr_ret | match goal with |- noerr (match ?x with _ => _ end) => destruct x end
    | match goal with |- noerr (if ?x then _ else _) => destruct x end]).
Qed.

(** ** Verifying a signature *)

Lemma valid_data_spec s data cuser chost : bytes_ok data ->
  mwp (valid_data nids data cuser chost) (fun ok s' => keeps s s' /\ mo_auth_submethod s' = mo_auth_submethod s /\
    (ok = true ->
       mo_key_blobtype s = MM_USERKEY /\ mo_auth_method s' = str "publickey" /\ signed_for_user nids s data \/
       mo_key_blobtype s = MM_HOSTKEY /\ mo_auth_method s' = str "hostbased" /\ signed_for_host s data cuser chost)) s.
Proof.
  intros B. unfold valid_data. apply mwp_bind, mwp_gets.
  destruct (Z.eqb_spec (mo_key_blobtype s) MM_USERKEY); [|destruct (Z.eqb_spec (mo_key_blobtype s) MM_HOSTKEY)].
  - apply mwp_bind. eapply mwp_mono; [by apply valid_userblob_spec|]. intros ok s1 [S1 H]. apply mwp_bind, mwp_modm, mwp_ret.
    split; [apply (keeps_trans _ s1); [by apply same_keeps|apply keeps_method]|]. split; [exact (sm_auth_submethod _ _ S1)|].
    intros ->. left. auto.
  - apply mwp_bind. eapply mwp_mono; [by apply valid_hostbasedblob_spec|]. intros ok s1 [S1 H]. apply mwp_bind, mwp_modm, mwp_ret.
    split; [apply (keeps_trans _ s1); [by apply same_keeps|apply keeps_method]|]. split; [exact (sm_auth_submethod _ _ S1)|].
    intros ->. right. auto.
  - apply mwp_ret. split; [apply keeps_refl|done].
Qed.

Lemma verify_spec s key signature data sigalg :
  mwp (verify_signature key signature data sigalg) (fun r s' => s' = s /\ (r.1 = true -> exists details,
    sshkey_verify key signature data sigalg (mo_compat s) = inr details /\
    (mo_key_blobtype s = MM_USERKEY ->
     match details, mo_key_opts s with
     | Some (_, flags), Some opts => sk_ok (mo_opts s) opts flags = true
     | Some _, None => False
     | None, _ => True
     end))) s.
Proof.
  unfold verify_signature. apply mwp_bind, mwp_get_st.
  destruct (sshkey_verify _ _ _ _ _) as [|[[counter flags]|]] eqn:E; [by apply mwp_ret| |apply mwp_ret; split; [done|]; intros _; by exists None].
  destruct (Z.eqb_spec (mo_key_blobtype s) MM_USERKEY).
  - destruct (mo_key_opts s) as [opts|]; [|apply mwp_crash]. apply mwp_ret. split; [done|]. cbn [fst]. intros ?. by exists (Some (counter, flags)).
  - apply mwp_ret. split; [done|]. intros _. by exists (Some (counter, flags)).
Qed.

(** Activating the options of the key changes auth_opts only. *)
Lemma activate_spec s (b : bool) :
  mwp (if b then s ← get_st; '(a, _) ← on_alloc (auth_activate_options (mo_auth_opts s) (mo_key_opts s)); modm (set_mo_auth_opts a)
       else mret tt) (fun _ s' => exists a, same (set_mo_auth_opts a s) s') s.
Proof.
  destruct b; [|apply mwp_ret; exists (mo_auth_opts s); split; try done; by exists []].
  apply mwp_bind, mwp_get_st, mwp_bind. unfold mwp, on_alloc.
  pose proof (noerr_activate (mo_auth_opts s) (mo_key_opts s) (mo_oom s)) as H.
  destruct (auth_activate_options _ _ _) as [[[a ?]| |] oom]; [|done..]. exists a. split; try done; by exists [].
Qed.

(** The state once the key is recorded and forgotten. *)
Definition recorded s (b : bool) (d : sshkey) (a : option sshauthopt) : monitor :=
  set_key None MM_NOKEY None None None (set_mo_auth_opts a (set_mo_ctx
    (if b then set_a_prev_keys (a_prev_keys (mo_ctx s) ++ [d]) (set_a_auth_method_key (Some d) (mo_ctx s))
     else set_a_auth_method_key (Some d) (mo_ctx s)) s)).

Lemma core_recorded acc p n s d a : (3 <= n)%nat -> core acc acc p n s -> core acc acc p n (recorded s false d a).
Proof.
  intros N C. apply (core_set_key _ _ _ _ (set_mo_auth_opts a (set_mo_ctx (set_a_auth_method_key (Some d) (mo_ctx s)) s)) None); [done| |done].
  eapply core_keeps; [|exact C]. split; try done. by exists [].
Qed.

(** The key of an accepted signature joins those used. *)
Lemma core_recorded_key acc p n s d a k blob key m c : (3 <= n)%nat -> core acc acc p n s ->
  read_back k blob key -> auth2_key_already_used (mo_ctx s) k = false -> sshkey_from_private key = inr d ->
  key_of c = Some key -> credible nids s (m, c) -> core acc (acc ++ [(m, c)]) p n (recorded s true d a).
Proof.
  intros N C RB U D KC CR. assert (cred_keys (acc ++ [(m, c)]) = cred_keys acc ++ [key]) as E.
  { unfold cred_keys. rewrite omap_app. cbn. by rewrite KC. }
  assert (fixed s (recorded s true d a)) as F by done.
  destruct C. split; try done.
  - lia.
  - apply Forall_app. split; [eapply Forall_impl; [done|]; intros; by apply (credible_fixed nids s)|].
    constructor; [by apply (credible_fixed nids s)|constructor].
  - unfold used_inv. rewrite E. change (a_prev_keys (mo_ctx (recorded s true d a))) with (a_prev_keys (mo_ctx s) ++ [d]).
    apply Forall2_app; [done|]. by constructor.
  - rewrite E, reverse_snoc. split; [|done]. exists k, blob. split; [done|]. apply Forall_forall. intros e He.
    rewrite elem_of_reverse in He. unfold auth2_key_already_used in U. apply Forall2_flip in c_used.
    apply list_elem_of_lookup in He as [i Hi]. destruct (Forall2_lookup_l _ _ _ _ _ c_used Hi) as (d' & Hd & E'). exists d'.
    split; [done|]. apply not_true_iff_false. intros T. apply not_true_iff_false in U. apply U.
    apply existsb_exists. exists d'. split; [|done]. apply list_elem_of_In. by eapply list_elem_of_lookup_2.
Qed.

Lemma keyverify_spec acc p n s m : p MONITOR_REQ_KEYVERIFY = true -> bytes_ok m -> mo_table s = table_of p ->
  core acc acc p n s -> mwp (mm_answer_keyverify nids m) (answered nids acc false MONITOR_REQ_KEYVERIFY s) s.
Proof.
  intros P B T C. late. unfold mm_answer_keyverify.
  apply mwp_bind, mwp_direct; [done|]. intros blob b1 s1 _ _ B1 S1.
  apply mwp_bind, mwp_direct; [done|]. intros signature b2 s2 _ _ B2 S2.
  apply mwp_bind, mwp_direct; [done|]. intros data b3 s3 _ Bd B3 S3.
  apply mwp_bind, mwp_cstring; [done|]. intros ? sigalg b4 s4 _ _ B4 S4.
  assert (same s s4) as S by eauto 10 using same_trans. clear s1 s2 s3 S1 S2 S3 S4 B1 B2 B3 B4 b1 b2 b3 b4.
  apply mwp_bind, mwp_get_st. rewrite (sm_cuser _ _ S), (sm_chost _ _ S).
  destruct (mo_cuser s) as [cuser|] eqn:EU; [|apply mwp_die]. destruct (mo_chost s) as [chost|] eqn:EH; [|apply mwp_die].
  unfold monitor_allowed_key. rewrite (sm_key_blob _ _ S). destruct (mo_key_blob s) as [kb|] eqn:EK; [|apply mwp_die].
  case_bool_decide as EB; cbn [negb]; [subst kb|apply mwp_die].
  destruct (sshkey_from_blob blob) as [|key] eqn:EF; [apply mwp_die|].
  pose proof (c_key _ _ _ _ _ _ C) as KI. unfold key_inv in KI. rewrite EK in KI. destruct KI as (k & pw & TB & HV & HP & NU & HK).
  apply mwp_bind. eapply mwp_mono; [by apply valid_data_spec|]. intros ok s5 (K5 & A5 & D5).
  destruct ok; cbn [negb]; [|apply mwp_die]. specialize (D5 eq_refl). rewrite (sm_key_blobtype _ _ S) in D5.
  apply (keeps_trans _ _ _ (same_keeps _ _ S)) in K5. rewrite (sm_auth_submethod _ _ S) in A5.
  destruct (sshkey_fingerprint key); [|apply mwp_die].
  apply mwp_bind. eapply mwp_mono; [apply verify_spec|]. intros [ok details] s6 [-> V].
  apply mwp_bind, mwp_gets, mwp_bind, mwp_record_key. intros d Hd. apply mwp_bind, mwp_modm.
  rewrite (sm_key_blobtype _ _ S). pose proof (core_keeps nids _ _ _ _ _ _ K5 C) as C5.
  apply mwp_bind. eapply mwp_mono; [apply activate_spec|]. intros _ s7 [a S7].
  apply mwp_bind, mwp_modm, mwp_bind, mwp_quiet; [quiet|]. intros _ s8 S8. apply mwp_ret.
  assert (keeps (recorded s5 ok d a) s8 /\ mo_auth_submethod s8 = mo_auth_submethod s5 /\ mo_auth_method s8 = mo_auth_method s5) as (K8 & A8 & M8).
  { split_and!; [|exact (eq_trans (sm_auth_submethod _ _ S8) (sm_auth_submethod _ _ S7))|exact (eq_trans (sm_auth_method _ _ S8) (sm_auth_method _ _ S7))].
    apply (keeps_trans _ (set_key None MM_NOKEY None None None s7)); [|by apply same_keeps].
    apply same_keeps in S7. by destruct S7. }
  assert (mo_table (recorded s5 ok d a) = table_of p) as T5 by exact (eq_trans (kp_table _ _ K5) T).
  split; [by rewrite A8, A5|]. split; [exact (Nat.le_trans _ _ _ (keeps_in _ _ K8) (keeps_in _ _ K5))|].
  exists p, n. split; [exact (eq_trans (kp_table _ _ K8) T5)|]. destruct ok; (split; intros Er; [|try done]); try done.
  - split; [done|]. destruct (V eq_refl) as (det & HVer & Hsk). rewrite M8. rewrite (kp_compat _ _ K5) in HVer.
    rewrite (kp_blobtype _ _ K5), (kp_key_opts _ _ K5), (kp_opts _ _ K5) in Hsk.
    assert (exists c, key_of c = Some key /\ credible nids s5 (mo_auth_method s5, c)) as (c & Kc & Hc).
    { destruct D5 as [(Ty & Me & Si) | (Ty & Me & Si)], HK as [(Ty' & En & Al) | (Ty' & En & Al)]; try (exfalso; rewrite Ty in Ty'; discriminate Ty').
      - destruct Al as (x & w & w' & Al). exists (C_userkey key signature data (nonempty sigalg)). split; [done|].
        apply (credible_fixed nids s); [by apply keeps_fixed|]. split; [done|]. cbn [backed fst snd]. split_and!; try done.
        + exists pw, k, blob, (mo_key_opts s), x, w, w', det. split_and!; try done. by apply Hsk.
        + apply (signed_user_fixed nids s4 s); [by apply fixed_sym, keeps_fixed, same_keeps|done].
      - destruct Al as (cu & ch & host & s0 & s1 & Ecu & Ech & Eo & Al). rewrite EU in Ecu. rewrite EH in Ech. simplify_eq.
        exists (C_hostkey key cu ch signature data (nonempty sigalg)). split; [done|].
        apply (credible_fixed nids s); [by apply keeps_fixed|]. split; [done|]. cbn [backed fst snd]. split_and!; try done.
        + by exists pw, k, blob, host, s0, s1.
        + by exists det.
        + apply (signed_host_fixed s4 s); [by apply fixed_sym, keeps_fixed, same_keeps|done]. }
    exists c. eapply core_keeps; [exact K8|]. eapply core_recorded_key; try done.
    unfold auth2_key_already_used. by rewrite (kp_prev _ _ K5).
  - eapply core_keeps; [exact K8|]. by apply core_recorded.
Qed.
End Keys.
