(* ===== verification/MonitorMain.v ===== *)
(** * MonitorThms: what it takes to authenticate

    Whatever bytes the network process sends, the monitor returns from
    monitor_child_preauth only for an existing user who is allowed to log in
    and for whom enough credentials were accepted. *)

From S2P Require Import Prelude Ssherr Sshbuf SshbufGetput SshbufWire Cstring Match KexNames SshkeyNames Cipher SshState Packet.
From S2P Require Import PacketRead Misc AuthOptions AuthMethods AuthCtxt Monitor MonitorLogic MonitorBlob.
From S2P Require Import MonitorInv MonitorSteps MonitorAuth MonitorKeys.

Section Rounds.
Context (nids : curve_nids) {KO : KeyOps} {SV : Services}.
Implicit Types (s : monitor) (acc : list (list Z * cred)) (m : list Z).
Local Abbreviation core := (core nids).

(** ** Reading requests *)

Lemma quiet_read_log : quiet monitor_read_log.
Proof.
  unfold monitor_read_log. apply quiet_bind; [apply quiet_gets|]. intros [l|]; [|apply quiet_die].
  destruct (_ <? 4); [apply quiet_bind; [apply quiet_modm; intros ?; split; try done; by exists []|]; intros _; apply quiet_ret|].
  cbv zeta. destruct (_ || _); [apply quiet_die|]. destruct (_ <? _); [apply quiet_die|].
  apply quiet_bind; [apply quiet_modm; intros ?; split; try done; by exists []|]. intros _. quiet.
Qed.

Lemma quiet_poll polls : quiet (poll_loop polls).
Proof.
  induction polls as [|b polls IH]; cbn [poll_loop]; [apply quiet_modm; intros ?; split; try done; by exists []|].
  apply quiet_bind; [apply quiet_gets|]. intros log. destruct (_ && _).
  - apply quiet_bind; [apply quiet_read_log|]. done.
  - apply quiet_modm; intros ?; split; try done; by exists [].
Qed.

Lemma receive_spec s : bytes_ok (mo_in_ s) ->
  mwp mm_request_receive (fun m s' => same s s' /\ bytes_ok m /\ (length (mo_in_ s') < length (mo_in_ s))%nat) s.
Proof.
  intros B. unfold mm_request_receive. apply mwp_bind, mwp_gets. destruct (zlen (mo_in_ s) <? 4) eqn:E; [apply mwp_die|]. zbool.
  cbv zeta. destruct (_ >? _); [apply mwp_die|]. apply mwp_bind. unfold mwp at 1, on_alloc.
  pose proof (noerr_alloc (mo_oom s)) as NA. destruct (alloc (mo_oom s)) as [[ok| |] oom]; [|done..]. set (s1 := set_mo_oom _ s).
  destruct (negb ok); [apply mwp_die|]. destruct (_ <? _); [apply mwp_die|].
  apply mwp_bind, mwp_modm, mwp_ret. split; [|split; [by apply bytes_ok_slice, Forall_drop|]].
  - split; try done. cbn [mo_in_ set_mo_in_]. rewrite drop_drop. eexists. symmetry. apply take_drop.
  - cbn [mo_in_ set_mo_in_]. rewrite !length_drop. unfold zlen in *. lia.
Qed.

(** Every answer, by its entry in the table. *)
Lemma answer_spec acc p n s m b : b ∈ mon_dispatch_proto20 -> p (ent_type b) = true -> bytes_ok m ->
  mo_table s = table_of p -> core acc acc p n s ->
  mwp (run_answer nids (ent_f b) m) (answered nids acc (bits (ent_flags b) MON_ONCE) (ent_type b) s) s.
Proof.
  intros Hb P B T C. unfold mon_dispatch_proto20 in Hb.
  assert (forall (h : M monitor Z) once t, quiet h -> (forall s r s', h s = (Ok r, s') -> r <> 1) ->
    mwp h (answered nids acc once t s) s) as Q by (intros; by apply (answered_quiet _ _ _ _ p n)).
  repeat (apply elem_of_cons in Hb as [-> | Hb]; [cbn [run_answer ent_f ent_type] in *|]); [..|by apply elem_of_nil in Hb].
  - apply Q; [apply quiet_state|]. intros x r x'. unfold mm_answer_state.
    intros (? & ? & _ & E)%bind_inv_ok. apply bind_inv_ok in E as (? & ? & _ & E). apply bind_inv_ok in E as ([c|] & ? & _ & E); [|done].
    apply bind_inv_ok in E as (? & ? & _ & E). destruct (_ && _); [done|]. apply bind_inv_ok in E as (? & ? & _ & E). by injection E as <- _.
  - apply Q; [apply quiet_moduli|]. intros x r x'. unfold mm_answer_moduli.
    do 3 (intros (? & ? & _ & E)%bind_inv_ok; revert E; match goal with |- (let '(_, _) := ?v in _) _ = _ -> _ => destruct v end).
    destruct (_ || _); [done|]. do 2 (intros (? & ? & _ & E)%bind_inv_ok; revert E). by intros [= <- _].
  - by apply (setcompat_spec nids acc p n).
  - by apply (sign_spec nids acc p n).
  - by apply (pwnam_spec nids acc p n).
  - by apply (authserv_spec nids acc p n).
  - apply Q; [apply quiet_banner|]. intros x r x'. unfold mm_answer_auth2_read_banner.
    do 2 (intros (? & ? & _ & E)%bind_inv_ok; revert E). by intros [= <- _].
  - by apply (authpassword_spec nids acc p n).
  - by apply (keyallowed_spec nids acc p n).
  - by apply (keyverify_spec nids acc p n).
  - by apply (gss_setup_spec nids acc p n).
  - by apply (gss_step_spec nids acc p n).
  - by apply (gss_userok_spec nids acc p n).
  - by apply (gss_checkmic_spec nids acc p n).
Qed.

(** ** A round *)

Lemma read_spec acc p n s : mo_table s = table_of p -> core acc acc p n s ->
  mwp (monitor_read nids) (fun re s' => mo_auth_submethod s' = mo_auth_submethod s /\
    (length (mo_in_ s') < length (mo_in_ s))%nat /\
    exists p' n', mo_table s' = table_of p' /\
      (re.1 = 1 -> (3 <= n')%nat /\ exists c, core acc (acc ++ [(mo_auth_method s', c)]) p' n' s') /\
      (re.1 <> 1 -> core acc acc p' n' s')) s.
Proof.
  intros T C. unfold monitor_read. apply mwp_bind, mwp_gets, mwp_bind, mwp_quiet; [apply quiet_poll|]. intros _ s1 S1.
  apply (core_keeps nids _ _ _ _ _ _ (same_keeps _ _ S1)) in C.
  apply mwp_bind. eapply mwp_mono; [apply receive_spec, (c_in _ _ _ _ _ _ C)|]. intros m s2 (S2 & B2 & L2).
  apply (core_keeps nids _ _ _ _ _ _ (same_keeps _ _ S2)) in C.
  apply mwp_bind, mwp_u8; [done|]. intros type m' s3 _ B3 S3.
  apply (core_keeps nids _ _ _ _ _ _ (same_keeps _ _ S3)) in C.
  apply mwp_bind, mwp_gets. rewrite (sm_table _ _ S3), (sm_table _ _ S2), (sm_table _ _ S1), T.
  destruct (find_entry (table_of p) type 0) as [[i e]|] eqn:EF; [|apply mwp_die].
  apply find_table in EF as (b & Hi & <- & ->). pose proof (list_elem_of_lookup_2 _ _ _ Hi) as Hb.
  destruct (bits_permit p b Hb) as (Hp & _). rewrite Hp. destruct (p (ent_type b)) eqn:EP; cbn [negb]; [|apply mwp_die].
  assert (mo_table s3 = table_of p) as T3 by (by rewrite (sm_table _ _ S3), (sm_table _ _ S2), (sm_table _ _ S1)).
  apply mwp_bind. eapply mwp_mono; [apply (answer_spec acc p n s3 m' b); done|].
  intros r s4 (A4 & L4 & p4 & n4 & T4 & H1 & H2). apply mwp_bind, mwp_gets. rewrite T4.
  destruct (clear_table p4 i b Hi) as [-> HC]. apply mwp_bind, mwp_modm, mwp_ret.
  destruct (bits_permit p4 b Hb) as (_ & HO & _). rewrite HO.
  pose proof (keeps_in _ _ (same_keeps _ _ S1)) as L1. pose proof (keeps_in _ _ (same_keeps _ _ S3)) as L3.
  split; [exact (eq_trans A4 (eq_trans (sm_auth_submethod _ _ S3) (eq_trans (sm_auth_submethod _ _ S2) (sm_auth_submethod _ _ S1))))|].
  split; [change (length (mo_in_ s4) < length (mo_in_ s))%nat; lia|].
  exists (clr (bits (ent_flags b) MON_ONCE) (ent_type b) p4), n4. split; [|split; cbn [fst]].
  - cbn [mo_table set_mo_table]. unfold clr. destruct (bits (ent_flags b) MON_ONCE); [exact HC|].
    apply list_insert_id. unfold table_of. by rewrite list_lookup_fmap, Hi.
  - intros ->. destruct (H1 eq_refl) as (? & c & Hc). split; [done|]. exists c. by apply core_table.
  - intros Hr. by apply core_table, H2.
Qed.

(** ** The end of a round *)

(** The last success decided: it completed a configured list, when there are
    lists. *)
Definition won acc s : Prop :=
  (exists before c, acc = before ++ [(mo_auth_method s, c)]) /\
  (auth_methods (mo_opts s) <> [] -> exists l, l ∈ enabled_lists (mo_opts s) /\ completed name_of acc l).

(** Whether root may log in by the method. *)
Definition root_permitted (o : ServerOptions) (auth_opts : option sshauthopt) (method : list Z) : Prop :=
  permit_root_login o = PERMIT_YES \/
  permit_root_login o = PERMIT_NO_PASSWD /\ method ∈ [str "publickey"; str "hostbased"; str "gssapi-with-mic"] \/
  permit_root_login o = PERMIT_FORCED_ONLY /\ exists a, auth_opts = Some a /\ is_Some (force_command a).

(** What a round changes after the answer. *)
Record told s s' : Prop := mk_told {
  td_fixed : fixed s s';
  td_method : mo_auth_method s' = mo_auth_method s;
  td_auth_opts : mo_auth_opts s' = mo_auth_opts s;
  td_in : mo_in_ s' = mo_in_ s;
  td_table : mo_table s' = mo_table s
}.

Lemma enabled_proper o : Forall proper (enabled_lists o).
Proof.
  apply Forall_forall. intros l Hl. unfold enabled_lists in Hl. apply list_elem_of_filter in Hl as [H _]. by eapply valid_proper.
Qed.

Lemma core_lists lacc lacc' acc p n s c : core lacc acc p n s -> lists_inv lacc' (set_mo_ctx (set_a_auth_methods c (mo_ctx s)) s) ->
  core lacc' acc p n (set_mo_ctx (set_a_auth_methods c (mo_ctx s)) s).
Proof. intros [] H. by split. Qed.

Lemma apply_spec acc p n s (b : bool) : mo_auth_submethod s = None ->
  (b = true -> (3 <= n)%nat /\ exists c, core acc (acc ++ [(mo_auth_method s, c)]) p n s) ->
  (b = false -> core acc acc p n s) ->
  mwp (apply_lists b) (fun r s' => told s s' /\ exists acc', core acc' acc' p n s' /\ (r.1 = true -> won acc' s')) s.
Proof.
  intros S H1 H2. unfold apply_lists. apply mwp_bind, mwp_get_st.
  destruct b; [|rewrite andb_false_r; apply mwp_ret; split; [by split|]; exists acc; split; [by apply H2|done]].
  destruct (H1 eq_refl) as (Hn & c & C). set (a := (mo_auth_method s, c)) in *. rewrite andb_true_r.
  destruct (Z.eqb_spec (zlen (auth_methods (mo_opts s))) 0) as [E|E]; cbn [negb].
  - assert (auth_methods (mo_opts s) = []) as EN by (destruct (auth_methods _); [done|]; unfold zlen in E; cbn in E; lia).
    apply mwp_ret. split; [by split|]. exists (acc ++ [a]). split.
    + destruct C. split; try done. intros _ []. done.
    + intros _. split; [by exists acc, c|]. by intros [].
  - destruct (auth2_update_methods_lists _ _ _) as [lists u] eqn:EU.
    assert (auth_methods (mo_opts s) <> []) as EN by (intros EN; by rewrite EN in E).
    pose proof (c_cred _ _ _ _ _ _ C) as HC. apply Forall_app in HC as [_ HC]. apply Forall_inv in HC. apply credible_named in HC.
    rewrite S in EU. destruct (update_remains name_of acc a (enabled_lists (mo_opts s)) (a_auth_methods (mo_ctx s)) lists u false)
      as [HR HU]; [apply enabled_proper|done|apply (c_lists _ _ _ _ _ _ C); [lia|done]|done|].
    apply mwp_bind, mwp_modm. assert (core (acc ++ [a]) (acc ++ [a]) p n (set_mo_ctx (set_a_auth_methods lists (mo_ctx s)) s)) as C'.
    { eapply core_lists; [exact C|]. by intros _. }
    destruct u; [| |apply mwp_die]; apply mwp_ret; (split; [by split|]); exists (acc ++ [a]); (split; [done|]); [|done].
    intros _. split; [by exists acc, c|]. intros _. by apply HU.
Qed.

Lemma root_spec s flags (b : bool) : mwp (root_check flags b) (fun r s' => s' = s /\ (r = true -> b = true /\
  exists pw, a_pw (mo_ctx s) = Some pw /\
    (pw_uid pw = 0 -> root_permitted (mo_opts s) (mo_auth_opts s) (mo_auth_method s)))) s.
Proof.
  unfold root_check. apply mwp_bind, mwp_get_st. destruct b; cbn [negb]; [|by apply mwp_ret].
  destruct (negb _); [apply mwp_die|]. destruct (a_pw (mo_ctx s)) as [pw|]; [|apply mwp_crash].
  destruct (Z.eqb_spec (pw_uid pw) 0) as [E|E]; [|apply mwp_ret; split; [done|]; intros _; split; [done|]; by exists pw].
  unfold auth_root_allowed, streq. destruct (Z.eqb_spec (permit_root_login (mo_opts s)) PERMIT_YES);
    [apply mwp_ret; split; [done|]; intros _; split; [done|]; exists pw; split; [done|]; by left|].
  destruct (Z.eqb_spec (permit_root_login (mo_opts s)) PERMIT_NO_PASSWD).
  { apply mwp_ret. split; [done|]. intros H. split; [done|]. exists pw. split; [done|]. intros _. right. left. split; [done|].
    rewrite !orb_true_iff, !bool_decide_eq_true in H. set_solver. }
  destruct (Z.eqb_spec (permit_root_login (mo_opts s)) PERMIT_FORCED_ONLY); [|by apply mwp_ret].
  destruct (mo_auth_opts s) as [a|]; [|apply mwp_crash]. apply mwp_ret. split; [done|]. intros H%bool_decide_eq_true. split; [done|].
  exists pw. split; [done|]. intros _. right. right. split; [done|]. exists a. split; [done|]. by apply not_eq_None_Some.
Qed.

(** What the log and the counters leave alone. *)
Record noted s s' : Prop := mk_noted {
  nt_keeps : keeps s s';
  nt_method : mo_auth_method s' = mo_auth_method s;
  nt_auth_opts : mo_auth_opts s' = mo_auth_opts s
}.

Lemma noted_refl s : noted s s.
Proof. split; [apply keeps_refl|done..]. Qed.

Lemma noted_trans s1 s2 s3 : noted s1 s2 -> noted s2 s3 -> noted s1 s3.
Proof. intros [] []. split; [by eapply keeps_trans|congruence..]. Qed.

Lemma same_noted s s' : same s s' -> noted s s'.
Proof. intros H. split; [by apply same_keeps|apply (sm_auth_method _ _ H)|apply (sm_auth_opts _ _ H)]. Qed.

Definition keeps_ctx (c c' : Authctxt) : Prop :=
  a_user c' = a_user c /\ a_style c' = a_style c /\ a_pw c' = a_pw c /\ a_valid c' = a_valid c /\
  a_auth_methods c' = a_auth_methods c /\ a_prev_keys c' = a_prev_keys c.

Lemma noted_ctx s c : keeps_ctx (mo_ctx s) c -> noted s (set_mo_ctx c s).
Proof. intros (? & ? & ? & ? & ? & ?). split; [|done..]. split; try done. by exists []. Qed.

Lemma session_info_ctx c method sub oom c' oom' :
  auth2_update_session_info c method sub oom = (Ok c', oom') -> keeps_ctx c c'.
Proof.
  unfold auth2_update_session_info. do 5 (intros (? & ? & _ & E)%bind_inv_ok; revert E). by intros [= <- _].
Qed.

Lemma note_spec s flags (b partial : bool) : mwp (note_attempt flags b partial) (fun _ s' => noted s s') s.
Proof.
  unfold note_attempt. destruct (negb _); [apply noted_refl|]. apply mwp_bind, mwp_get_st.
  apply mwp_bind, mwp_quiet; [apply quiet_write_log|]. intros _ s1 S1%same_noted.
  assert (mwp (if negb partial && negb b then modctx (fun c => set_a_failures (a_failures c + 1) c) else mret tt)
    (fun _ s' => noted s s') s1) as H.
  { destruct (_ && _); [|done]. apply mwp_modm, (noted_trans _ _ _ S1), noted_ctx. done. }
  apply mwp_bind. eapply mwp_mono; [exact H|]. intros ? s2 S2. destruct (_ || _); [|done].
  apply mwp_bind, mwp_get_st, mwp_bind, mwp_must. intros c oom s3 E S3. apply mwp_modm.
  apply session_info_ctx in E. apply (noted_trans _ _ _ S2), (noted_trans _ s3); [by apply same_noted|].
  apply noted_ctx. by rewrite (sm_ctx _ _ S3).
Qed.

(** ** A round and the loop *)

(** The decision of a round that authenticates the user. *)
Definition decided acc s : Prop :=
  won acc s /\ exists pw, account s pw /\
    (pw_uid pw = 0 -> root_permitted (mo_opts s) (mo_auth_opts s) (mo_auth_method s)).

Lemma decided_eq acc s s' : mo_opts s' = mo_opts s -> mo_auth_method s' = mo_auth_method s ->
  mo_auth_opts s' = mo_auth_opts s -> a_pw (mo_ctx s') = a_pw (mo_ctx s) -> decided acc s -> decided acc s'.
Proof. intros E1 E2 E3 E4. unfold decided, won, account. by rewrite E1, E2, E3, E4. Qed.

Lemma core_told lacc acc p n s f : core lacc acc p n s -> core lacc acc p n (set_mo_auth_attempted f s).
Proof. apply core_keeps. split; try done. by exists []. Qed.

Lemma round_spec acc p n s : mo_table s = table_of p -> core acc acc p n s ->
  mwp (preauth_round nids) (fun b s' => (length (mo_in_ s') < length (mo_in_ s))%nat /\
    exists acc' p' n', mo_table s' = table_of p' /\ core acc' acc' p' n' s' /\ (b = true -> decided acc' s')) s.
Proof.
  intros T C. unfold preauth_round. apply mwp_bind, mwp_modm, mwp_bind, mwp_modm. set (s1 := set_mo_ctx _ _).
  assert (keeps s s1) as K1 by (split; try done; by exists []). apply (core_keeps nids _ _ _ _ _ _ K1) in C.
  apply mwp_bind. eapply mwp_mono; [apply (read_spec acc p n s1); [exact T|exact C]|].
  intros [ret ent] s2 (A2 & L2 & p' & n' & T2 & H1 & H2). cbn [fst] in *.
  assert (mwp (if bits (ent_flags ent) MON_AUTH then modm (set_mo_auth_attempted true) else mret tt)
    (fun _ s' => s' = s2 \/ s' = set_mo_auth_attempted true s2) s2) as HA by (destruct (bits _ _); [by right|by left]).
  apply mwp_bind. eapply mwp_mono; [exact HA|]. intros ? s3 S3.
  apply mwp_bind. eapply mwp_mono; [apply (apply_spec acc p' n' s3 (ret =? 1))|].
  - destruct S3 as [-> | ->]; exact A2.
  - intros E%Z.eqb_eq. destruct (H1 E) as (Hn & c & Hc). split; [done|]. exists c. destruct S3 as [-> | ->]; [done|by apply core_told].
  - intros E%Z.eqb_neq. destruct S3 as [-> | ->]; [|apply core_told]; by apply H2.
  - intros [b partial] s4 (TD & acc' & C4 & W4). cbn [fst] in *.
    apply mwp_bind. eapply mwp_mono; [apply root_spec|]. intros b' s5 (-> & R5).
    apply mwp_bind. eapply mwp_mono; [apply note_spec|]. intros ? s6 N6. apply mwp_bind, mwp_get_st.
    destruct (_ >? _); [apply mwp_die|]. apply mwp_ret. destruct N6 as [K6 M6 O6].
    pose proof (keeps_in _ _ K6). assert (mo_in_ s4 = mo_in_ s2) as E4 by (rewrite (td_in _ _ TD); by destruct S3 as [-> | ->]).
    rewrite <- E4 in L2. change (mo_in_ s1) with (mo_in_ s) in L2. split; [lia|]. exists acc', p', n'. split_and!.
    + rewrite (kp_table _ _ K6), (td_table _ _ TD). by destruct S3 as [-> | ->].
    + by eapply core_keeps.
    + intros Hb. destruct (R5 Hb) as (Hb' & R). apply (decided_eq _ s4); [apply (kp_opts _ _ K6)|done|done|apply (kp_pw _ _ K6)|].
      split; [by apply W4|exact R].
Qed.

Lemma loop_spec fuel acc p n s : mo_table s = table_of p -> core acc acc p n s -> (length (mo_in_ s) < fuel)%nat ->
  mwp (preauth_loop nids fuel) (fun _ s' => exists acc' p' n', core acc' acc' p' n' s' /\ decided acc' s') s.
Proof.
  revert acc p n s. induction fuel as [|fuel IH]; intros acc p n s T C L; [lia|]. cbn [preauth_loop].
  apply mwp_bind. eapply mwp_mono; [by apply (round_spec acc p n)|]. intros b s' (L' & acc' & p' & n' & T' & C' & D').
  destruct b; [|apply (IH acc' p' n'); [done|done|lia]]. apply mwp_ret. exists acc', p', n'. auto.
Qed.

Lemma read_log_less s : mwp monitor_read_log (fun more s' => more = true ->
  (length (default [] (mo_log_in s')) < length (default [] (mo_log_in s)))%nat) s.
Proof.
  unfold monitor_read_log. apply mwp_bind, mwp_gets. destruct (mo_log_in s) as [l|]; [|apply mwp_die].
  destruct (zlen l <? 4) eqn:E; [by apply mwp_bind, mwp_modm, mwp_ret|]. zbool. cbv zeta.
  destruct (_ || _); [apply mwp_die|]. destruct (_ <? _); [apply mwp_die|]. apply mwp_bind, mwp_modm. set (s1 := set_mo_log_in _ s).
  assert (forall (h : M monitor bool) x, mo_log_in x = mo_log_in s1 -> (forall s, mwp h (fun _ s' => mo_log_in s' = mo_log_in s) s) ->
    mwp h (fun more s' => more = true -> (length (default [] (mo_log_in s')) < length (default [] (Some l)))%nat) x) as K.
  { intros h x Hx Hh. eapply mwp_mono; [apply Hh|]. intros _ s' -> _. rewrite Hx. change (mo_log_in s1) with (Some (drop (Z.to_nat (PEEK_U32 (slice l 0 4))) (drop 4 l))). unfold default.
    unfold id. rewrite !length_drop. unfold zlen in E. lia. }
  apply K; [done|]. intros x.
  assert (forall A (m : AM A) x, mwp (must m) (fun _ s' => mo_log_in s' = mo_log_in x) x) as HM.
  { intros A m y. unfold mwp, must, or_die, catch, on_alloc. destruct (m (mo_oom y)) as [[a|e|] oom]; [done|by left|done]. }
  do 3 (apply mwp_bind; eapply mwp_mono; [apply HM|]; intros [] ? ?).
  destruct (_ >? 7); [apply mwp_die|]. apply mwp_bind; eapply mwp_mono; [apply HM|]; intros [] ? ?.
  destruct (streq _ _); [|apply mwp_ret; congruence].
  do 3 (apply mwp_bind; eapply mwp_mono; [apply HM|]; intros [] ? ?). apply mwp_ret; congruence.
Qed.

Lemma drain_spec fuel s : (length (default [] (mo_log_in s)) < fuel)%nat -> mwp (drain_log fuel) (fun _ s' => same s s') s.
Proof.
  revert s. induction fuel as [|fuel IH]; intros s L; [lia|]. cbn [drain_log]. apply mwp_bind, mwp_gets.
  destruct (mo_log_in s) as [l|] eqn:E; [|apply same_refl].
  apply mwp_bind. eapply mwp_mono; [apply mwp_and; [apply read_log_less|apply quiet_read_log]|].
  intros [|] s1 [L1 S1]; [|done]. rewrite E in L1. specialize (L1 eq_refl).
  eapply mwp_mono; [apply IH; lia|]. intros ? s2 S2. by apply (same_trans _ s1).
Qed.

(** ** The whole process *)

(** A monitor that has just started. *)
Definition booted s : Prop :=
  bytes_ok (mo_in_ s) /\ mo_key_blob s = None /\ mo_compat_set s = false /\ mo_gssapi_client s = no_client.

Lemma first_spec s : mo_table s = mon_dispatch_proto20 -> permit_first s = (Ok tt, set_mo_table (table_of (fun t => bool_decide (t ∈ allowed 0))) s).
Proof. intros T. unfold permit_first, permit, modm, mbind, M_bind. rewrite T. reflexivity. Qed.

Lemma child_spec s : booted s ->
  mwp (monitor_child_preauth nids) (fun _ s' => exists acc p n, core acc acc p n s' /\ decided acc s') s.
Proof.
  intros (B & K & CS & G). unfold monitor_child_preauth. apply mwp_bind, mwp_modm. set (s0 := set_mo_table _ _).
  apply mwp_bind. unfold mwp at 1. rewrite first_spec by done. set (s1 := set_mo_table _ s0). apply mwp_bind, mwp_gets.
  apply mwp_bind. eapply mwp_mono; [apply (loop_spec _ [] (fun t => bool_decide (t ∈ allowed 0)) 0)|].
  - done.
  - apply early_core; try done; [|lia|by left]. by intros t H%bool_decide_eq_true.
  - lia.
  - intros ? s2 (acc & p & n & C & D). apply mwp_bind, mwp_get_st. destruct (negb (a_valid _)); [apply mwp_die|].
    destruct (streq _ _); [apply mwp_die|]. apply mwp_bind, mwp_modm. set (s3 := set_mo_auth_attempted false s2).
    apply (core_told _ _ _ _ _ false) in C. change (core acc acc p n s3) in C.
    assert (decided acc s3) as D3 by exact D. apply mwp_bind. unfold mm_get_keystate. apply mwp_bind. unfold mm_request_receive_expect.
    apply mwp_bind. eapply mwp_mono; [apply receive_spec, (c_in _ _ _ _ _ _ C)|]. intros m s4 (S4 & _ & _).
    apply mwp_bind, mwp_quiet; [apply quiet_must|]. intros [rt m'] s5 S5. destruct (negb _); [apply mwp_die|].
    apply mwp_ret, mwp_modm, mwp_bind, mwp_get_st. set (s6 := set_mo_child_state _ s5).
    assert (same s3 s6) as S6 by (apply (same_trans _ _ _ S4), (same_trans _ _ _ S5); split; try done; by exists []).
    apply mwp_bind. eapply mwp_mono; [apply drain_spec; lia|]. intros ? s7 S7.
    apply mwp_bind, mwp_quiet; [apply quiet_svc|]. intros well s8 S8. destruct well; [|apply mwp_die]. apply mwp_ret.
    apply (same_trans _ _ _ S6) in S7. apply (same_trans _ _ _ S7) in S8. exists acc, p, n.
    split; [by eapply core_keeps; [apply same_keeps|]|].
    apply (decided_eq _ s3); [apply (sm_opts _ _ S8)|apply (sm_auth_method _ _ S8)|apply (sm_auth_opts _ _ S8)|by rewrite (sm_ctx _ _ S8)|done].
Qed.
End Rounds.

(** * MonitorMain: what it takes to authenticate

    Whatever bytes the network process sends, the monitor returns from
    monitor_child_preauth only for an existing user for whom enough
    credentials were accepted, each checked by the monitor itself against the
    signed data, the password or the GSSAPI context. *)

(** What the code relies on of keys: the public part of a copy, and of a key
    read back from its blob, is that of the key. *)
Class KeyLaws {KO : KeyOps} := {
  from_private_public e d k : sshkey_from_private e = inr d -> sshkey_equal_public k d = sshkey_equal_public k e;
  blob_public k b k' e : sshkey_to_blob k = inr b -> sshkey_from_blob b = inr k' ->
    sshkey_equal_public k' e = sshkey_equal_public k e
}.

Section Main.
Context (nids : curve_nids) {KO : KeyOps} {SV : Services}.
Implicit Types (s : monitor) (acc : list (list Z * cred)).

(** The state in which the process that was waiting for the user returns,
    with the credentials [acc] in the order in which they were accepted. *)
Record authenticated_by acc s : Prop := mk_by {
  by_last : exists before c, acc = before ++ [(mo_auth_method s, c)];
  by_credible : Forall (credible nids s) acc;
  by_account : exists pw, account s pw /\
    (pw_uid pw = 0 -> root_permitted (mo_opts s) (mo_auth_opts s) (mo_auth_method s));
  by_lists : auth_methods (mo_opts s) <> [] ->
    exists l, l ∈ enabled_lists (mo_opts s) /\ completed name_of acc l
}.

Lemma mwp_ok {A} (h : M monitor A) (Q : A -> monitor -> Prop) s a s' : mwp h Q s -> h s = (Ok a, s') -> Q a s'.
Proof. unfold mwp. intros H E. by rewrite E in H. Qed.

Lemma core_by lacc acc p n s : core nids lacc acc p n s -> decided acc s -> authenticated_by acc s.
Proof. intros [] [[]]. by split. Qed.

(** C5: whatever bytes the network process writes, the monitor's
    monitor_child_preauth comes to an end: it returns, or it ends the process
    by fatal or with the status of a refused connection, or it stops at a
    pointer that is NULL.  When it returns, the user exists and may log in; one credential or more was accepted, each of
    them a password the system took, a key that was allowed for the user and
    whose signature is over a request of this session for this user, or a
    GSSAPI client that may be the user; if the configuration has lists of
    methods, the credentials meet one of the enabled lists, element by element
    and in its order; and root is let in only as PermitRootLogin says of the
    last method. *)
Theorem monitor_authenticates s (Hboot : booted s) :
  match monitor_child_preauth nids s with
  | (Ok _, s') => exists acc, authenticated_by acc s'
  | (Err e, _) => e = EXIT_255 \/ e = EXIT_CONFIG_REFUSED
  | (Crash, _) => True
  end.
Proof.
  pose proof (child_spec nids s Hboot) as H. revert H. unfold mwp, exits.
  destruct (monitor_child_preauth nids s) as [[u|e|] s']; [|done..].
  intros (acc & p & n & C & D). exists acc. by eapply core_by.
Qed.

Lemma fresh_distinct {KL : KeyLaws} keys : fresh_keys keys ->
  forall i j k k', (i < j)%nat -> keys !! i = Some k -> keys !! j = Some k' -> sshkey_equal_public k k' = false.
Proof.
  induction keys as [|key earlier IH]; intros H i j k k' L Hi Hj; [done|]. destruct H as ((k0 & blob & (E1 & E2) & F) & H).
  destruct j as [|j]; [lia|]. cbn in Hj. destruct i as [|i]; [injection Hi as <-|apply (IH H i j); [lia|done|done]].
  rewrite (blob_public _ _ _ _ E1 E2). rewrite Forall_forall in F. apply list_elem_of_lookup_2 in Hj.
  destruct (F _ Hj) as (d & Ed & <-). symmetry. by apply from_private_public.
Qed.

(** The public parts of the keys are pairwise different. *)
Definition distinct_keys acc : Prop :=
  forall i j k k', (i < j)%nat -> cred_keys acc !! i = Some k -> cred_keys acc !! j = Some k' ->
    sshkey_equal_public k' k = false.

(** C6: no key counts twice: the credentials that let the user in have keys
    whose public parts are pairwise different, so that a list that asks for
    two keys is met by two keys; provided that copying a key and reading it
    back from its blob keep its public part. *)
Theorem keys_count_once {KL : KeyLaws} s s' (Hboot : booted s) (Hret : monitor_child_preauth nids s = (Ok tt, s')) :
  exists acc, authenticated_by acc s' /\ distinct_keys acc.
Proof.
  destruct (mwp_ok _ _ _ _ _ (child_spec nids s Hboot) Hret) as (acc & p & n & C & D).
  exists acc. split; [by eapply core_by|]. intros i j k k' L Hi Hj.
  pose proof (lookup_lt_Some _ _ _ Hi). pose proof (lookup_lt_Some _ _ _ Hj). set (l := cred_keys acc) in *.
  apply (fresh_distinct _ (c_fresh _ _ _ _ _ _ C) (length l - S j) (length l - S i)); [lia|..]; fold l; rewrite reverse_lookup by lia.
  - by replace (length l - S (length l - S j))%nat with j by lia.
  - by replace (length l - S (length l - S i))%nat with i by lia.
Qed.
End Main.

(** ** A run

    Keys that are their blobs, signatures that are the key and the data, an
    account "joe", and a configuration that asks for two keys. *)
Module Demo.

#[local] Instance keys : KeyOps := {|
  sshkey := list Z;
  key_type := fun _ => KEY_ED25519;
  key_ecdsa_nid := fun _ => -1;
  sshkey_from_blob := fun b => if bool_decide (b = []) then inl SSH_ERR_INVALID_FORMAT else inr b;
  sshkey_to_blob := inr;
  sshkey_from_private := inr;
  sshkey_equal := fun a b => bool_decide (a = b);
  sshkey_equal_public := fun a b => bool_decide (a = b);
  sshkey_check_cert_sigtype := fun _ _ => true;
  sshkey_check_rsa_length := fun _ _ => true;
  sshkey_cert_check_host := fun _ _ _ => false;
  sshkey_type := fun _ => str "ED25519";
  key_cert := fun _ => None;
  sshkey_fingerprint := fun k => Some k;
  sshkey_format_text := inr;
  sshkey_verify := fun k sg data _ _ => if bool_decide (sg = k ++ data) then inr None else inl SSH_ERR_SIGNATURE_INVALID
|}.

#[local] Instance laws : KeyLaws.
Proof.
  split; cbn; [by intros e d k [= ->]|]. intros k b k' e [= <-]. destruct (bool_decide (k = [])); [done|]. by intros [= <-].
Qed.

Definition joe : passwd := mk_passwd (str "joe") 1000 1000 (str "/home/joe") (str "/bin/sh").

(** The options of a key: its second byte, when it is not 0, is the command it
    forces. *)
Definition key_options (k : list Z) : sshauthopt :=
  set_force_command (if at_ k 1 =? 0 then None else Some [at_ k 1]) (keys_defaults (set_force_tun_device (-1) calloc_sshauthopt)).

#[local] Instance services : Services := {|
  world := unit;
  getpwnamallow := fun u o w => ((if bool_decide (u = str "joe") then Some joe else None, o), w);
  privsep_pw := None;
  windows_password_auth := fun _ p w => (bool_decide (p = str "secret"), w);
  user_key_allowed := fun _ k _ w => ((bool_decide (head k = Some 107), Some (key_options k)), w);
  auth_key_is_revoked := fun _ w => (false, w);
  auth_get_canonical_hostname := fun w => (str "host", w);
  ssh_remote_ipaddr := fun w => (str "10.0.0.1", w);
  auth_rhosts2 := fun _ _ _ _ w => (false, w);
  check_key_in_hostfiles := fun _ _ _ _ _ w => (HOST_NEW, w);
  auth2_read_banner := fun w => (None, w);
  choose_dh := fun _ _ _ w => (None, w);
  host_keys := [(Some (str "hostkey"), Some (str "hostkey"), None)];
  sshkey_sign := fun k d _ _ w => (Some (k ++ d), w);
  auth_sock := -1;
  ssh_agent_sign := fun _ _ _ _ w => (None, w);
  serialise_server_options := fun _ w => (Some [], w);
  pack_hostkeys := fun w => ([], w);
  timing_secret := 0;
  versions := ([], []);
  gss_acquire_cred := fun _ w => (GSS_S_FAILURE, w);
  gss_accept_sec_context := fun _ _ w => ((GSS_S_FAILURE, [], 0), w);
  gss_client_names := fun w => (mk_gss_answers None None, w);
  gss_mech_userok := fun _ _ w => (false, w);
  gss_verify_mic := fun _ _ w => (GSS_S_FAILURE, w);
  child_exited_well := fun w => (true, w)
|}.

Definition options (lists : list (list Z)) : ServerOptions := set_auth_methods lists demo_options.

Definition boot (lists : list (list Z)) (inp : list Z) : monitor :=
  mk_monitor calloc_Authctxt (options lists) [] None 0 None None None [] None None false false false 0
    (Some (key_options [0; 0])) 0 [] None no_client None inp [] (Some []) [] [] [] ().

Definition req (type : Z) (m : list Z) : list Z := POKE_U32 (zlen m + 1) ++ [type] ++ m.
Definition wstr (m : list Z) : list Z := POKE_U32 (zlen m) ++ m.

Definition sid : list Z := replicate 32 7.

Definition signed (k : list Z) : list Z :=
  wstr sid ++ [SSH2_MSG_USERAUTH_REQUEST] ++ wstr (str "joe") ++ wstr (str "ssh-connection") ++ wstr (str "publickey") ++
  [1] ++ wstr (str "ssh-ed25519") ++ wstr k.

Definition opening : list Z :=
  req MONITOR_REQ_SETCOMPAT (POKE_U32 0) ++
  req MONITOR_REQ_SIGN (wstr (str "hostkey") ++ wstr sid ++ wstr [] ++ POKE_U32 0) ++
  req MONITOR_REQ_PWNAM (wstr (str "joe")) ++
  req MONITOR_REQ_AUTHSERV (wstr (str "ssh-connection") ++ wstr []).

Definition key_auth (k : list Z) : list Z :=
  req MONITOR_REQ_KEYALLOWED (POKE_U32 MM_USERKEY ++ wstr [] ++ wstr [] ++ wstr k ++ POKE_U32 1) ++
  req MONITOR_REQ_KEYVERIFY (wstr k ++ wstr (k ++ signed k) ++ wstr (signed k) ++ wstr []).

Definition closing : list Z := req MONITOR_REQ_KEYEXPORT [].

Definition two_keys : monitor :=
  boot [str "publickey,publickey"] (opening ++ key_auth [107; 0; 1] ++ key_auth [107; 0; 2] ++ closing).

Definition one_key_twice : monitor :=
  boot [str "publickey,publickey"] (opening ++ key_auth [107; 0; 1] ++ key_auth [107; 0; 1] ++ closing).

Example run_two : (monitor_child_preauth demo_nids two_keys).1 = Ok ().
Proof. vm_compute. reflexivity. Qed.

Example run_same : (monitor_child_preauth demo_nids one_key_twice).1 = Err EXIT_255.
Proof. vm_compute. reflexivity. Qed.

Lemma booted_demo lists inp : bool_decide (bytes_ok inp) = true -> booted (boot lists inp).
Proof. intros H%bool_decide_eq_true. by split. Qed.

Lemma monitor_authenticates_witness :
  (monitor_child_preauth demo_nids two_keys).1 = Ok () /\
  exists acc, authenticated_by demo_nids acc (monitor_child_preauth demo_nids two_keys).2.
Proof.
  split; [apply run_two|]. pose proof run_two as E. revert E.
  assert (booted two_keys) as B by (apply booted_demo; vm_compute; reflexivity).
  pose proof (monitor_authenticates demo_nids two_keys B) as H. revert H.
  destruct (monitor_child_preauth demo_nids two_keys) as [[u|e|] s']; intros H [=]. exact H.
Defined.

Lemma keys_count_once_witness :
  exists acc, authenticated_by demo_nids acc (monitor_child_preauth demo_nids two_keys).2 /\ distinct_keys acc.
Proof.
  apply (keys_count_once demo_nids two_keys).
  - apply booted_demo. vm_compute. reflexivity.
  - rewrite <- run_two. apply surjective_pairing.
Defined.

(** Two keys that force different commands. *)
Definition two_commands : monitor :=
  boot [str "publickey,publickey"] (opening ++ key_auth [107; 97; 1] ++ key_auth [107; 98; 2] ++ closing).

(** The merge of their options fails, but the monitor does not look at the
    result of auth_activate_options: the user is authenticated and auth_opts
    is NULL, which monitor_child_postauth reads through. *)
Theorem merge_failure_ignored :
  (monitor_child_preauth demo_nids two_commands).1 = Ok () /\
  mo_auth_opts (monitor_child_preauth demo_nids two_commands).2 = None.
Proof. split; vm_compute; reflexivity. Qed.

(** A list that names a submethod of a method that has none passes the check
    of the configuration and lets the method be tried, and its success is
    fatal. *)
Theorem submethod_trap :
  auth2_methods_valid true demo_options (str "publickey:x,password") true = true /\
  auth2_method_allowed demo_options [str "publickey:x,password"] (str "publickey") None = true /\
  (auth2_update_methods_lists [str "publickey:x,password"] (str "publickey") None).2 = U_fatal.
Proof. split_and!; vm_compute; reflexivity. Qed.
End Demo.
