(* ===== verification/Krl.v ===== *)
(** * Key revocation lists: [krl.c]

    A list names revoked keys, hashes of keys, and certificates by serial
    number or key ID, by authority.  Serial numbers are kept as ranges and
    written in the most compact of three encodings.

    A red-black tree of sys-tree.h is the list of its elements in order; a
    search compares with the elements in that order and stops where the key
    would be.  RB_NFIND stops at the first element on its way down that
    compares equal, and several ranges may: which one it meets depends on the
    shape of the tree and is the parameter [met]. *)

From S2P Require Import Prelude Ssherr Sshbuf SshbufGetput SshbufWire SshbufWire2 Cstring Match Bitmap KexNames.
From S2P Require Import SshkeyNames Hmac Misc AuthOptions AuthCtxt.

Definition KRL_MAGIC : list Z := str "SSHKRL" ++ [10; 0].
Definition KRL_FORMAT_VERSION : Z := 1.
Definition KRL_SECTION_CERTIFICATES : Z := 1.
Definition KRL_SECTION_EXPLICIT_KEY : Z := 2.
Definition KRL_SECTION_FINGERPRINT_SHA1 : Z := 3.
Definition KRL_SECTION_SIGNATURE : Z := 4.
Definition KRL_SECTION_FINGERPRINT_SHA256 : Z := 5.
Definition KRL_SECTION_EXTENSION : Z := 255.
Definition KRL_SECTION_CERT_SERIAL_LIST : Z := 0x20.
Definition KRL_SECTION_CERT_SERIAL_RANGE : Z := 0x21.
Definition KRL_SECTION_CERT_SERIAL_BITMAP : Z := 0x22.
Definition KRL_SECTION_CERT_KEY_ID : Z := 0x23.
Definition KRL_SECTION_CERT_EXTENSION : Z := 0x39.

(** What is used of keys beyond [KeyOps]. *)
Class KrlKeys {KO : KeyOps} := {
  sshkey_drop_cert : sshkey -> Z + sshkey;
  sshkey_fingerprint_raw : sshkey -> Z -> Z + list Z
}.

(** ** Data *)

Record revoked_serial := mk_rs { rs_lo : Z; rs_hi : Z }.

#[export] Instance revoked_serial_eq_dec : EqDecision revoked_serial.
Proof. solve_decision. Defined.

Definition set_rs_lo (v : Z) (r : revoked_serial) : revoked_serial := mk_rs v (rs_hi r).
Definition set_rs_hi (v : Z) (r : revoked_serial) : revoked_serial := mk_rs (rs_lo r) v.

Section Data.
Context {KO : KeyOps}.

(** [rc_ca_key = None]: any authority. *)
Record revoked_certs := mk_rc {
  rc_ca_key : option sshkey;
  revoked_serials : list revoked_serial;
  revoked_key_ids : list (list Z)
}.

Record ssh_krl := mk_krl {
  krl_version : Z;
  generated_date : Z;
  krl_flags : Z;
  comment : option (list Z);
  revoked_keys : list (list Z);
  revoked_sha1s : list (list Z);
  revoked_sha256s : list (list Z);
  krl_certs : list revoked_certs
}.

Definition set_version v (k : ssh_krl) := mk_krl v (generated_date k) (krl_flags k) (comment k) (revoked_keys k) (revoked_sha1s k) (revoked_sha256s k) (krl_certs k).
Definition set_date v (k : ssh_krl) := mk_krl (krl_version k) v (krl_flags k) (comment k) (revoked_keys k) (revoked_sha1s k) (revoked_sha256s k) (krl_certs k).
Definition set_comment v (k : ssh_krl) := mk_krl (krl_version k) (generated_date k) (krl_flags k) v (revoked_keys k) (revoked_sha1s k) (revoked_sha256s k) (krl_certs k).
Definition set_keys v (k : ssh_krl) := mk_krl (krl_version k) (generated_date k) (krl_flags k) (comment k) v (revoked_sha1s k) (revoked_sha256s k) (krl_certs k).
Definition set_sha1s v (k : ssh_krl) := mk_krl (krl_version k) (generated_date k) (krl_flags k) (comment k) (revoked_keys k) v (revoked_sha256s k) (krl_certs k).
Definition set_sha256s v (k : ssh_krl) := mk_krl (krl_version k) (generated_date k) (krl_flags k) (comment k) (revoked_keys k) (revoked_sha1s k) v (krl_certs k).
Definition set_certs v (k : ssh_krl) := mk_krl (krl_version k) (generated_date k) (krl_flags k) (comment k) (revoked_keys k) (revoked_sha1s k) (revoked_sha256s k) v.
End Data.

(** ** Orders *)

(** Zero if the ranges overlap. *)
Definition serial_cmp (a b : revoked_serial) : Z :=
  if (rs_hi a >=? rs_lo b) && (rs_lo a <=? rs_hi b) then 0
  else if rs_lo a <? rs_lo b then -1 else 1.

(** The first bytes in which two strings differ, up to the length of the
    shorter one. *)
Fixpoint memcmp (a b : list Z) : Z :=
  match a, b with
  | x :: a, y :: b => if x =? y then memcmp a b else if x <? y then -1 else 1
  | _, _ => 0
  end.

(** [strcmp]: the byte after the end of a string is the NUL. *)
Definition key_id_cmp (a b : list Z) : Z := memcmp (a ++ [0]) (b ++ [0]).

Definition blob_cmp (a b : list Z) : Z :=
  if negb (zlen a =? zlen b) then
    let r := memcmp a b in
    if negb (r =? 0) then r else if zlen a >? zlen b then 1 else -1
  else memcmp a b.

(** ** Trees *)

Section Tree.
Context {A : Type} (cmp : A -> A -> Z).

Fixpoint RB_FIND (x : A) (t : list A) : option A :=
  match t with
  | [] => None
  | e :: t =>
      let c := cmp x e in
      if c =? 0 then Some e else if c <? 0 then None else RB_FIND x t
  end.

(** What is left and right of the new element; [None]: an equal one exists. *)
Fixpoint RB_INSERT (x : A) (t : list A) : option (list A * list A) :=
  match t with
  | [] => Some ([], [])
  | e :: t' =>
      let c := cmp x e in
      if c =? 0 then None
      else if c <? 0 then Some ([], t)
      else '(l, r) ← RB_INSERT x t'; Some (e :: l, r)
  end.

(** The elements below [x], those equal to it, and the rest. *)
Fixpoint below (x : A) (t : list A) : list A * list A :=
  match t with
  | [] => ([], [])
  | e :: t' => if cmp x e >? 0 then let '(l, r) := below x t' in (e :: l, r) else ([], t)
  end.

Fixpoint equal_run (x : A) (t : list A) : list A * list A :=
  match t with
  | [] => ([], [])
  | e :: t' => if cmp x e =? 0 then let '(l, r) := equal_run x t' in (e :: l, r) else ([], t)
  end.
End Tree.

(** ** Ranges of serial numbers *)

Section Serials.
Context (met : list revoked_serial -> revoked_serial -> nat).

(** The element of the equal ones that RB_NFIND finds, with what is left and
    right of it; [None]: no element is equal. *)
Definition nfind_equal (rs : revoked_serial) (rt : list revoked_serial)
    : option (list revoked_serial * revoked_serial * list revoked_serial) :=
  let '(l, t) := below serial_cmp rs rt in
  let '(m, r) := equal_run serial_cmp rs t in
  let i := (met rt rs mod length m)%nat in
  ers ← m !! i; Some (l ++ take i m, ers, drop (S i) m ++ r).

(** RB_PREV from [ers]: [l] is what precedes it, the nearest first. *)
Fixpoint merge_pred (ers : revoked_serial) (l : list revoked_serial) : revoked_serial * list revoked_serial :=
  match l with
  | [] => (ers, [])
  | crs :: l' =>
      if negb (rs_lo ers =? 0) && (rs_hi crs <? u64 (rs_lo ers - 1)) then (ers, l)
      else merge_pred (if rs_lo crs <? rs_lo ers then set_rs_lo (rs_lo crs) ers else ers) l'
  end.

Fixpoint merge_succ (ers : revoked_serial) (l : list revoked_serial) : revoked_serial * list revoked_serial :=
  match l with
  | [] => (ers, [])
  | crs :: l' =>
      if negb (rs_hi ers =? u64 (-1)) && (rs_lo crs >? u64 (rs_hi ers + 1)) then (ers, l)
      else merge_succ (if rs_hi crs >? rs_hi ers then set_rs_hi (rs_hi crs) ers else ers) l'
  end.

Definition coalesce (l : list revoked_serial) (ers : revoked_serial) (r : list revoked_serial) : list revoked_serial :=
  let '(ers, l) := merge_pred ers (reverse l) in
  let '(ers, r) := merge_succ ers r in
  reverse l ++ ers :: r.

(** The result and the tree. *)
Definition insert_serial_range (rt : list revoked_serial) (lo hi : Z) : AM (Z * list revoked_serial) :=
  let rs := mk_rs lo hi in
  match nfind_equal rs rt with
  | None =>
      ok ← alloc;
      if negb ok then mret (SSH_ERR_ALLOC_FAIL, rt)
      else
        match RB_INSERT serial_cmp rs rt with
        | None => mret (SSH_ERR_INTERNAL_ERROR, rt)
        | Some (l, r) => mret (0, coalesce l rs r)
        end
  | Some (l, ers, r) =>
      let ers := if rs_lo ers >? lo then set_rs_lo lo ers else ers in
      let ers := if rs_hi ers <? hi then set_rs_hi hi ers else ers in
      mret (0, coalesce l ers r)
  end.
End Serials.

(** ** Revoking *)

Section Krl.
Context (nids : curve_nids) (met : list revoked_serial -> revoked_serial -> nat) {KO : KeyOps} {KK : KrlKeys}.

(** [None]: no memory. *)
Definition ssh_krl_init : AM (option ssh_krl) :=
  ok ← alloc; mret (if (ok : bool) then Some (mk_krl 0 0 0 None [] [] [] []) else None).

Definition ssh_krl_set_version (krl : ssh_krl) (version : Z) : ssh_krl := set_version version krl.

Definition ssh_krl_set_comment (krl : ssh_krl) (c : list Z) : AM (Z * ssh_krl) :=
  d ← strdup c; mret (match d with None => SSH_ERR_ALLOC_FAIL | Some _ => 0 end, set_comment d krl).

(** sshkey_equal is false of NULL. *)
Definition ca_is (ca : option sshkey) (rc : revoked_certs) : bool :=
  match ca, rc_ca_key rc with
  | None, None => true
  | Some ca, Some k => sshkey_equal k ca
  | _, _ => false
  end.

Fixpoint find_ca (ca : option sshkey) (l : list revoked_certs) (i : nat) : option nat :=
  match l with
  | [] => None
  | rc :: l => if ca_is ca rc then Some i else find_ca ca l (S i)
  end.

(** The result, the place of the authority in the list, and the list. *)
Definition revoked_certs_for_ca_key (krl : ssh_krl) (ca : option sshkey) (allow_create : bool)
    : AM (Z * option nat * ssh_krl) :=
  match find_ca ca (krl_certs krl) 0 with
  | Some i => mret (0, Some i, krl)
  | None =>
      if negb allow_create then mret (0, None, krl)
      else
        ok ← alloc;
        if negb ok then mret (SSH_ERR_ALLOC_FAIL, None, krl)
        else
          match (match ca with
                 | None => inr None
                 | Some k => match sshkey_from_private k with inl e => inl e | inr d => inr (Some d) end
                 end) with
          | inl r => mret (r, None, krl)
          | inr ca => mret (0, Some (length (krl_certs krl)), set_certs (krl_certs krl ++ [mk_rc ca [] []]) krl)
          end
  end.

(** The entry at a place of the list, changed. *)
Definition at_rc (krl : ssh_krl) (i : nat) (f : revoked_certs -> AM (Z * revoked_certs)) : AM (Z * ssh_krl) :=
  match krl_certs krl !! i with
  | None => crash
  | Some rc => '(r, rc) ← f rc; mret (r, set_certs (<[i := rc]> (krl_certs krl)) krl)
  end.

Definition with_ca (krl : ssh_krl) (ca : option sshkey) (f : revoked_certs -> AM (Z * revoked_certs)) : AM (Z * ssh_krl) :=
  '(r, rc, krl) ← revoked_certs_for_ca_key krl ca true;
  if negb (r =? 0) then mret (r, krl)
  else match rc with None => crash | Some i => at_rc krl i f end.

Definition ssh_krl_revoke_cert_by_serial_range (krl : ssh_krl) (ca : option sshkey) (lo hi : Z) : AM (Z * ssh_krl) :=
  if (lo >? hi) || (lo =? 0) then mret (SSH_ERR_INVALID_ARGUMENT, krl)
  else with_ca krl ca (fun rc =>
         '(r, s) ← insert_serial_range met (revoked_serials rc) lo hi;
         mret (r, mk_rc (rc_ca_key rc) s (revoked_key_ids rc))).

Definition ssh_krl_revoke_cert_by_serial (krl : ssh_krl) (ca : option sshkey) (serial : Z) : AM (Z * ssh_krl) :=
  ssh_krl_revoke_cert_by_serial_range krl ca serial serial.

(** An element that is there already is left as it is. *)
Definition tree_add {A} (cmp : A -> A -> Z) (x : A) (t : list A) : list A :=
  match RB_INSERT cmp x t with None => t | Some (l, r) => l ++ x :: r end.

Definition ssh_krl_revoke_cert_by_key_id (krl : ssh_krl) (ca : option sshkey) (key_id : list Z) : AM (Z * ssh_krl) :=
  with_ca krl ca (fun rc =>
    ok ← alloc;
    d ← (if (ok : bool) then strdup key_id else mret None);
    match d with
    | None => mret (SSH_ERR_ALLOC_FAIL, rc)
    | Some d => mret (0, mk_rc (rc_ca_key rc) (revoked_serials rc) (tree_add key_id_cmp d (revoked_key_ids rc)))
    end).

Definition plain_key_blob (key : sshkey) : Z + list Z :=
  match sshkey_from_private key with
  | inl e => inl e
  | inr kcopy =>
      if sshkey_is_cert nids kcopy then
        match sshkey_drop_cert kcopy with inl e => inl e | inr k => sshkey_to_blob k end
      else sshkey_to_blob kcopy
  end.

Definition revoke_blob (rbt : list (list Z)) (blob : list Z) : AM (Z * list (list Z)) :=
  ok ← alloc;
  mret (if (ok : bool) then (0, tree_add blob_cmp blob rbt) else (SSH_ERR_ALLOC_FAIL, rbt)).

Definition ssh_krl_revoke_key_explicit (krl : ssh_krl) (key : sshkey) : AM (Z * ssh_krl) :=
  match plain_key_blob key with
  | inl e => mret (e, krl)
  | inr blob => '(r, t) ← revoke_blob (revoked_keys krl) blob; mret (r, set_keys t krl)
  end.

Definition revoke_by_hash (target : list (list Z)) (p : list Z) : AM (Z * list (list Z)) :=
  ok ← alloc; if (ok : bool) then revoke_blob target p else mret (SSH_ERR_SYSTEM_ERROR, target).

Definition ssh_krl_revoke_key_sha1 (krl : ssh_krl) (p : list Z) : AM (Z * ssh_krl) :=
  if negb (zlen p =? 20) then mret (SSH_ERR_INVALID_FORMAT, krl)
  else '(r, t) ← revoke_by_hash (revoked_sha1s krl) p; mret (r, set_sha1s t krl).

Definition ssh_krl_revoke_key_sha256 (krl : ssh_krl) (p : list Z) : AM (Z * ssh_krl) :=
  if negb (zlen p =? 32) then mret (SSH_ERR_INVALID_FORMAT, krl)
  else '(r, t) ← revoke_by_hash (revoked_sha256s krl) p; mret (r, set_sha256s t krl).

(** [key->cert] of a certificate. *)
Definition ssh_krl_revoke_key (krl : ssh_krl) (key : sshkey) : AM (Z * ssh_krl) :=
  if negb (sshkey_is_cert nids key) then ssh_krl_revoke_key_explicit krl key
  else
    match key_cert key with
    | None => crash
    | Some (id, serial, ca) =>
        if serial =? 0 then ssh_krl_revoke_cert_by_key_id krl (Some ca) id
        else ssh_krl_revoke_cert_by_serial krl (Some ca) serial
    end.

(** ** Checking *)

(** 0 or an error; [None]: a certificate without [cert]. *)
Definition is_cert_revoked (key : sshkey) (rc : revoked_certs) : option Z :=
  '(id, serial, _) ← key_cert key;
  match RB_FIND key_id_cmp id (revoked_key_ids rc) with
  | Some _ => Some SSH_ERR_KEY_REVOKED
  | None =>
      if serial =? 0 then Some 0
      else
        match RB_FIND serial_cmp (mk_rs serial serial) (revoked_serials rc) with
        | Some _ => Some SSH_ERR_KEY_REVOKED
        | None => Some 0
        end
  end.

(** [Some r] once the result is known. *)
Definition revoked_in (digest : sshkey -> Z + list Z) (t : list (list Z)) (key : sshkey) : option Z :=
  match digest key with
  | inl e => Some e
  | inr b => if RB_FIND blob_cmp b t is Some _ then Some SSH_ERR_KEY_REVOKED else None
  end.

Definition check_ca (krl : ssh_krl) (ca : option sshkey) (key : sshkey) : option Z :=
  match find_ca ca (krl_certs krl) 0 with
  | None => Some 0
  | Some i => rc ← krl_certs krl !! i; is_cert_revoked key rc
  end.

Definition is_key_revoked (krl : ssh_krl) (key : sshkey) : option Z :=
  match revoked_in (fun k => sshkey_fingerprint_raw k SSH_DIGEST_SHA1) (revoked_sha1s krl) key with
  | Some r => Some r
  | None =>
      match revoked_in (fun k => sshkey_fingerprint_raw k SSH_DIGEST_SHA256) (revoked_sha256s krl) key with
      | Some r => Some r
      | None =>
          match revoked_in plain_key_blob (revoked_keys krl) key with
          | Some r => Some r
          | None =>
              if negb (sshkey_is_cert nids key) then Some 0
              else
                '(_, _, ca) ← key_cert key;
                r ← check_ca krl (Some ca) key;
                if negb (r =? 0) then Some r else check_ca krl None key
          end
      end
  end.

Definition ssh_krl_check_key (krl : ssh_krl) (key : sshkey) : option Z :=
  r ← is_key_revoked krl key;
  if negb (r =? 0) then Some r
  else if sshkey_is_cert nids key then '(_, _, ca) ← key_cert key; is_key_revoked krl ca
  else Some 0.

(** ** Writing *)

Definition min (a b : Z) : Z := if a <? b then a else b.

(** The encoding of the next range of serial numbers, and whether a new
    section is started even so. *)
Definition choose_next_state (current_state contig : Z) (final : bool) (last_gap next_gap : Z) : Z * bool :=
  let contig := min contig (2 ^ 31) in
  let last_gap := min last_gap (2 ^ 31) in
  let next_gap := min next_gap (2 ^ 31) in
  let '(cost_list, cost_bitmap, cost_bitmap_restart) :=
    if current_state =? KRL_SECTION_CERT_SERIAL_LIST then (0, 8 + 64, 8 + 64)
    else if current_state =? KRL_SECTION_CERT_SERIAL_BITMAP then (8, 0, 8 + 64)
    else if (current_state =? KRL_SECTION_CERT_SERIAL_RANGE) || (current_state =? 0) then (8, 8 + 64, 8 + 64)
    else (0, 0, 0) in
  let cost_range := 8 in
  let cost_list := u64 (cost_list + 64 * contig + (if final then 0 else 8 + 64)) in
  let cost_range := u64 (cost_range + 2 * 64 + (if final then 0 else 8 + 64)) in
  let cost_bitmap := u64 (cost_bitmap + last_gap + contig + (if final then 0 else min next_gap (8 + 64))) in
  let cost_bitmap_restart := u64 (cost_bitmap_restart + contig + (if final then 0 else min next_gap (8 + 64))) in
  let cost_list := (cost_list + 7) / 8 in
  let cost_bitmap := (cost_bitmap + 7) / 8 in
  let cost_bitmap_restart := (cost_bitmap_restart + 7) / 8 in
  let cost_range := (cost_range + 7) / 8 in
  let '(new_state, cost) := (KRL_SECTION_CERT_SERIAL_BITMAP, cost_bitmap) in
  let '(new_state, cost) := if cost_range <? cost then (KRL_SECTION_CERT_SERIAL_RANGE, cost_range) else (new_state, cost) in
  let '(new_state, cost) := if cost_list <? cost then (KRL_SECTION_CERT_SERIAL_LIST, cost_list) else (new_state, cost) in
  if cost_bitmap_restart <? cost then (KRL_SECTION_CERT_SERIAL_BITMAP, true) else (new_state, false).

(** sshbuf_put_bignum2_bytes. *)
Definition put_bignum2_bytes_at (v m : list Z) : AM (list Z) :=
  if zlen v >? SSHBUF_SIZE_MAX - 5 then throw SSH_ERR_NO_BUFFER_SPACE
  else put_at (wire_string (bignum_bytes v)) m.

Definition put_bitmap (buf : list Z) (b : bitmap) : AM (list Z) :=
  match bitmap_nbytes b with
  | None => crash
  | Some (len, b) =>
      ok ← alloc;
      if negb ok then throw SSH_ERR_ALLOC_FAIL
      else
        match bitmap_to_string b (zeros len) with
        | None => crash
        | Some (r, blob, _) => if negb (r =? 0) then throw SSH_ERR_INTERNAL_ERROR else put_bignum2_bytes_at blob buf
        end
  end.

(** The section that is being written: its type (0: none), its contents, the
    bitmap and the number of its first bit; and the last number before it. *)
Record gen := mk_gen { g_state : Z; g_sect : list Z; g_bitmap : option bitmap; g_start : Z; g_last : Z }.

(** The section is complete: it goes to the buffer. *)
Definition finish_section (g : gen) (buf : list Z) : AM (list Z) :=
  sect ← (if g_state g =? KRL_SECTION_CERT_SERIAL_BITMAP
          then match g_bitmap g with None => crash | Some b => put_bitmap (g_sect g) b end
          else mret (g_sect g));
  buf ← put_u8_at (g_state g) buf;
  put_string_at sect buf.

(** bitmap_new; an answer of the allocator that is not needed is ignored. *)
Definition new_bitmap : AM bitmap :=
  ok1 ← alloc; ok2 ← alloc;
  match bitmap_new ok1 ok2 with None => throw SSH_ERR_ALLOC_FAIL | Some b => mret b end.

Definition start_section (next_state : Z) (rs : revoked_serial) (last : Z) : AM gen :=
  if next_state =? KRL_SECTION_CERT_SERIAL_BITMAP then
    b ← new_bitmap;
    sect ← put_u64_at (rs_lo rs) [];
    mret (mk_gen next_state sect (Some b) (rs_lo rs) last)
  else mret (mk_gen next_state [] None 0 last).

Fixpoint put_serials (n : nat) (v : Z) (sect : list Z) : AM (list Z) :=
  match n with
  | O => mret sect
  | S n => sect ← put_u64_at v sect; put_serials n (u64 (v + 1)) sect
  end.

Fixpoint set_bits (n : nat) (bit : Z) (b : bitmap) : AM bitmap :=
  match n with
  | O => mret b
  | S n =>
      ok ← alloc;
      match bitmap_set_bit ok b (u32 bit) with
      | None => crash
      | Some (r, b) => if negb (r =? 0) then throw SSH_ERR_ALLOC_FAIL else set_bits n (bit + 1) b
      end
  end.

(** The range is added to the section. *)
Definition add_range (g : gen) (rs : revoked_serial) (contig : Z) : AM gen :=
  if g_state g =? KRL_SECTION_CERT_SERIAL_LIST then
    sect ← put_serials (Z.to_nat contig) (rs_lo rs) (g_sect g);
    mret (mk_gen (g_state g) sect (g_bitmap g) (g_start g) (rs_hi rs))
  else if g_state g =? KRL_SECTION_CERT_SERIAL_RANGE then
    sect ← put_u64_at (rs_lo rs) (g_sect g);
    sect ← put_u64_at (rs_hi rs) sect;
    mret (mk_gen (g_state g) sect (g_bitmap g) (g_start g) (rs_hi rs))
  else if g_state g =? KRL_SECTION_CERT_SERIAL_BITMAP then
    if u64 (rs_lo rs - g_start g) >? INT_MAX then throw SSH_ERR_INVALID_FORMAT
    else
      match g_bitmap g with
      | None => crash
      | Some b =>
          b ← set_bits (Z.to_nat contig) (u64 (rs_lo rs - g_start g)) b;
          mret (mk_gen (g_state g) (g_sect g) (Some b) (g_start g) (rs_hi rs))
      end
  else mret (mk_gen (g_state g) (g_sect g) (g_bitmap g) (g_start g) (rs_hi rs)).

Definition empty_sect (g : gen) : gen := mk_gen (g_state g) [] (g_bitmap g) (g_start g) (g_last g).

(** One range; [nrs]: the one after it. *)
Definition serial_step (rs : revoked_serial) (nrs : option revoked_serial) (g : gen) (buf : list Z) : AM (gen * list Z) :=
  let state := g_state g in
  let final := bool_decide (nrs = None) in
  let gap := match nrs with None => 0 | Some n => u64 (rs_lo n - rs_hi rs) end in
  let contig := u64 (1 + u64 (rs_hi rs - rs_lo rs)) in
  let '(next_state, force_new_sect) :=
    choose_next_state state contig final (if state =? 0 then 0 else u64 (rs_lo rs - g_last g)) gap in
  '(g, buf) ← (if negb (state =? 0) && (force_new_sect || negb (next_state =? state) ||
                                        (state =? KRL_SECTION_CERT_SERIAL_RANGE))
               then buf ← finish_section g buf; mret (empty_sect g, buf)
               else mret (g, buf));
  g ← (if negb (next_state =? state) || force_new_sect then start_section next_state rs (g_last g) else mret g);
  g ← add_range g rs contig;
  mret (g, buf).

Fixpoint serials_loop (l : list revoked_serial) (g : gen) (buf : list Z) : AM (gen * list Z) :=
  match l with
  | [] => mret (g, buf)
  | rs :: l => '(g, buf) ← serial_step rs (head l) g buf; serials_loop l g buf
  end.

Definition put_key_ids (ids : list (list Z)) : AM (list Z) := put_strings ids [].

(** A section, if it is not empty. *)
Definition put_section (type : Z) (sect buf : list Z) : AM (list Z) :=
  if zlen sect =? 0 then mret buf
  else buf ← put_u8_at type buf; put_string_at sect buf.

(** Appends the section of an authority. *)
Definition revoked_certs_generate (rc : revoked_certs) (buf : list Z) : AM (list Z) :=
  ok ← alloc;
  if negb ok then throw SSH_ERR_ALLOC_FAIL
  else
    buf ← (match rc_ca_key rc with None => put_string_at [] buf | Some k => sshkey_puts k buf end);
    buf ← put_string_at [] buf;
    '(g, buf) ← serials_loop (revoked_serials rc) (mk_gen 0 [] None 0 0) buf;
    buf ← (if negb (g_state g =? 0) then finish_section g buf else mret buf);
    sect ← put_key_ids (revoked_key_ids rc);
    put_section KRL_SECTION_CERT_KEY_ID sect buf.

Fixpoint put_certs (l : list revoked_certs) (buf : list Z) : AM (list Z) :=
  match l with
  | [] => mret buf
  | rc :: l =>
      sect ← revoked_certs_generate rc [];
      buf ← put_u8_at KRL_SECTION_CERTIFICATES buf;
      buf ← put_string_at sect buf;
      put_certs l buf
  end.

(** [now]: time(NULL), for a list that has no date yet. *)
Definition ssh_krl_to_blob (now : Z) (krl : ssh_krl) (buf : list Z) : AM (ssh_krl * list Z) :=
  let krl := if generated_date krl =? 0 then set_date (u64 now) krl else krl in
  ok ← alloc;
  if negb ok then throw SSH_ERR_ALLOC_FAIL
  else
    buf ← put_at KRL_MAGIC buf;
    buf ← put_u32_at KRL_FORMAT_VERSION buf;
    buf ← put_u64_at (krl_version krl) buf;
    buf ← put_u64_at (generated_date krl) buf;
    buf ← put_u64_at (krl_flags krl) buf;
    buf ← put_string_at [] buf;
    buf ← put_string_at (default [] (comment krl)) buf;
    buf ← put_certs (krl_certs krl) buf;
    sect ← put_strings (revoked_keys krl) [];
    buf ← put_section KRL_SECTION_EXPLICIT_KEY sect buf;
    sect ← put_strings (revoked_sha1s krl) [];
    buf ← put_section KRL_SECTION_FINGERPRINT_SHA1 sect buf;
    sect ← put_strings (revoked_sha256s krl) [];
    buf ← put_section KRL_SECTION_FINGERPRINT_SHA256 sect buf;
    mret (krl, buf).

(** ** Reading *)

(** A revocation that must succeed. *)
Definition done_ (m : AM (Z * ssh_krl)) : AM ssh_krl :=
  '(r, krl) ← m; if negb (r =? 0) then throw r else mret krl.

Definition cert_extension_subsection (subsect : list Z) : AM unit :=
  '(critical, rest) ← catch ('(_, m) ← get_cstring_at true subsect;
                             '(critical, m) ← get_u8_at m;
                             '(_, m) ← froms_at m;
                             mret (critical, m))
                            (fun _ => throw SSH_ERR_INVALID_FORMAT);
  if negb (zlen rest =? 0) then throw SSH_ERR_INVALID_FORMAT
  else if negb (critical =? 0) then throw SSH_ERR_FEATURE_UNSUPPORTED
  else mret tt.

(** The loops over the contents of a section take bytes in every round. *)
Fixpoint list_loop (fuel : nat) (ca : option sshkey) (m : list Z) (krl : ssh_krl) : AM ssh_krl :=
  match fuel with
  | O => crash
  | S fuel =>
      if zlen m =? 0 then mret krl
      else
        '(serial, m) ← get_u64_at m;
        krl ← done_ (ssh_krl_revoke_cert_by_serial krl ca serial);
        list_loop fuel ca m krl
  end.

Fixpoint ids_loop (fuel : nat) (ca : option sshkey) (m : list Z) (krl : ssh_krl) : AM ssh_krl :=
  match fuel with
  | O => crash
  | S fuel =>
      if zlen m =? 0 then mret krl
      else
        '(key_id, m) ← get_cstring_at true m;
        krl ← done_ (ssh_krl_revoke_cert_by_key_id krl ca key_id);
        ids_loop fuel ca m krl
  end.

(** [n] bits from [serial] on. *)
Fixpoint bits_loop (n : nat) (ca : option sshkey) (b : bitmap) (lo serial : Z) (krl : ssh_krl) : AM ssh_krl :=
  match n with
  | O => mret krl
  | S n =>
      if (serial >? 0) && (u64 (lo + serial) =? 0) then throw SSH_ERR_INVALID_FORMAT
      else
        match bitmap_test_bit b serial with
        | None => crash
        | Some t =>
            krl ← (if t =? 0 then mret krl else done_ (ssh_krl_revoke_cert_by_serial krl ca (u64 (lo + serial))));
            bits_loop n ca b lo (serial + 1) krl
        end
  end.

(** sshbuf_get_bignum2_bytes_direct. *)
Definition get_bignum2_bytes_direct_at (m : list Z) : AM (list Z * list Z) :=
  '(bs, m) ← get_string_direct_at m;
  let len := zlen bs in
  if negb (len =? 0) && negb (Z.land (byte_at bs 0) 0x80 =? 0) then throw SSH_ERR_BIGNUM_IS_NEGATIVE
  else if (len >? SSHBUF_MAX_BIGNUM + 1) || ((len =? SSHBUF_MAX_BIGNUM + 1) && negb (byte_at bs 0 =? 0))
  then throw SSH_ERR_BIGNUM_TOO_LARGE
  else mret (skip_zeros bs, m).

Definition bitmap_section (ca : option sshkey) (m : list Z) (krl : ssh_krl) : AM (ssh_krl * list Z) :=
  b ← new_bitmap;
  '(lo, m) ← get_u64_at m;
  '(blob, m) ← get_bignum2_bytes_direct_at m;
  ok ← alloc;
  match bitmap_from_string ok b blob with
  | None => crash
  | Some (r, b) =>
      if negb (r =? 0) then throw SSH_ERR_INVALID_FORMAT
      else
        match bitmap_nbits b with
        | None => crash
        | Some (nbits, b) => krl ← bits_loop (Z.to_nat nbits) ca b lo 0 krl; mret (krl, m)
        end
  end.

(** A section, and what is left of it. *)
Definition cert_section (type : Z) (ca : option sshkey) (m : list Z) (krl : ssh_krl) : AM (ssh_krl * list Z) :=
  if type =? KRL_SECTION_CERT_SERIAL_LIST then krl ← list_loop (S (length m)) ca m krl; mret (krl, [])
  else if type =? KRL_SECTION_CERT_SERIAL_RANGE then
    '(lo, m) ← get_u64_at m;
    '(hi, m) ← get_u64_at m;
    krl ← done_ (ssh_krl_revoke_cert_by_serial_range krl ca lo hi);
    mret (krl, m)
  else if type =? KRL_SECTION_CERT_SERIAL_BITMAP then bitmap_section ca m krl
  else if type =? KRL_SECTION_CERT_KEY_ID then krl ← ids_loop (S (length m)) ca m krl; mret (krl, [])
  else if type =? KRL_SECTION_CERT_EXTENSION then cert_extension_subsection m;; mret (krl, [])
  else throw SSH_ERR_INVALID_FORMAT.

Fixpoint cert_sections (fuel : nat) (ca : option sshkey) (m : list Z) (krl : ssh_krl) : AM ssh_krl :=
  match fuel with
  | O => crash
  | S fuel =>
      if zlen m =? 0 then mret krl
      else
        '(type, m) ← get_u8_at m;
        '(subsect, m) ← froms_at m;
        '(krl, rest) ← cert_section type ca subsect krl;
        if zlen rest >? 0 then throw SSH_ERR_INVALID_FORMAT else cert_sections fuel ca m krl
  end.

Definition parse_revoked_certs (m : list Z) (krl : ssh_krl) : AM ssh_krl :=
  ok ← alloc;
  if negb ok then throw SSH_ERR_ALLOC_FAIL
  else
    '(blob, m) ← get_string_direct_at m;
    m ← skip_string_at m;
    match (if zlen blob =? 0 then inr None
           else match sshkey_from_blob blob with inl e => inl e | inr k => inr (Some k) end) with
    | inl e => throw e
    | inr ca => cert_sections (S (length m)) ca m krl
    end.

Fixpoint blob_section (fuel : nat) (m : list Z) (expected_len : Z) (t : list (list Z)) : AM (list (list Z)) :=
  match fuel with
  | O => crash
  | S fuel =>
      if zlen m =? 0 then mret t
      else
        '(rdata, m) ← get_string_at m;
        if negb (expected_len =? 0) && negb (zlen rdata =? expected_len) then throw SSH_ERR_INVALID_FORMAT
        else
          '(r, t) ← revoke_blob t rdata;
          if negb (r =? 0) then throw r else blob_section fuel m expected_len t
  end.

(** The body is that of cert_extension_subsection. *)
Definition extension_section (sect : list Z) : AM unit := cert_extension_subsection sect.

(** A section of the list: what becomes of the list and of the input.  Every
    case takes the whole of the section, so that the test for data that is left
    never fires. *)
Definition krl_section (type : Z) (sect m : list Z) (krl : ssh_krl) : AM (ssh_krl * list Z) :=
  if type =? KRL_SECTION_CERTIFICATES then krl ← parse_revoked_certs sect krl; mret (krl, m)
  else if type =? KRL_SECTION_EXPLICIT_KEY then
    t ← blob_section (S (length sect)) sect 0 (revoked_keys krl); mret (set_keys t krl, m)
  else if type =? KRL_SECTION_FINGERPRINT_SHA1 then
    t ← blob_section (S (length sect)) sect 20 (revoked_sha1s krl); mret (set_sha1s t krl, m)
  else if type =? KRL_SECTION_FINGERPRINT_SHA256 then
    t ← blob_section (S (length sect)) sect 32 (revoked_sha256s krl); mret (set_sha256s t krl, m)
  else if type =? KRL_SECTION_EXTENSION then extension_section sect;; mret (krl, m)
  else if type =? KRL_SECTION_SIGNATURE then m ← skip_string_at m; mret (krl, m)
  else throw SSH_ERR_INVALID_FORMAT.

Fixpoint krl_sections (fuel : nat) (m : list Z) (krl : ssh_krl) : AM ssh_krl :=
  match fuel with
  | O => crash
  | S fuel =>
      if zlen m =? 0 then mret krl
      else
        '(type, m) ← get_u8_at m;
        '(sect, m) ← froms_at m;
        '(krl, m) ← krl_section type sect m krl;
        krl_sections fuel m krl
  end.

Definition ssh_krl_from_blob (buf : list Z) : AM ssh_krl :=
  if negb (bool_decide (take 8 buf = KRL_MAGIC)) then throw SSH_ERR_KRL_BAD_MAGIC
  else
    krl ← ssh_krl_init;
    match krl with
    | None => throw SSH_ERR_ALLOC_FAIL
    | Some krl =>
        ok ← alloc;
        if negb ok then throw SSH_ERR_ALLOC_FAIL
        else
          let m := drop 8 buf in
          '(format_version, m) ← get_u32_at m;
          if negb (format_version =? KRL_FORMAT_VERSION) then throw SSH_ERR_INVALID_FORMAT
          else
            '(version, m) ← get_u64_at m;
            '(date, m) ← get_u64_at m;
            '(flags, m) ← get_u64_at m;
            m ← skip_string_at m;
            '(c, m) ← get_cstring_at true m;
            krl_sections (S (length m)) m (mk_krl version date flags (Some c) (revoked_keys krl)
              (revoked_sha1s krl) (revoked_sha256s krl) (krl_certs krl))
    end.

(** [load]: sshbuf_load_file. *)
Definition ssh_krl_file_contains_key (load : list Z -> Z + list Z) (path : option (list Z)) (key : sshkey) : AM Z :=
  match path with
  | None => mret 0
  | Some path =>
      match load path with
      | inl r => mret r
      | inr krlbuf =>
          catch (krl ← ssh_krl_from_blob krlbuf;
                 match ssh_krl_check_key krl key with None => crash | Some r => mret r end) (fun r => mret r)
      end
  end.
End Krl.
