(* ===== verification/KrlSets.v ===== *)
(** * Ranges of serial numbers: sets in normal form

    The tree of ranges is kept in normal form: in order, without overlaps and
    with gaps between neighbours.  Inserting a range is adding its numbers to
    the set, whichever overlapping entry the search meets, and a set has one
    normal form. *)

From S2P Require Import Prelude Ssherr KexNames Krl.
From Stdlib Require Import Sorted.

(** ** Sets of numbers *)

Definition rs_ok (r : revoked_serial) : Prop := 0 <= rs_lo r <= rs_hi r /\ rs_hi r < 2 ^ 64.

Definition in_rs (r : revoked_serial) (x : Z) : Prop := rs_lo r <= x <= rs_hi r.

Definition covers (l : list revoked_serial) (x : Z) : Prop := Exists (fun r => in_rs r x) l.

(** [a] ends before [b] begins, with a gap. *)
Definition gap_before (a b : revoked_serial) : Prop := rs_hi a + 1 < rs_lo b.

Definition normal (l : list revoked_serial) : Prop := Forall rs_ok l /\ StronglySorted gap_before l.

Lemma covers_nil x : ~ covers [] x.
Proof. intros H. inversion H. Qed.

Lemma covers_cons r l x : covers (r :: l) x <-> in_rs r x \/ covers l x.
Proof. apply Exists_cons. Qed.

Lemma covers_app l1 l2 x : covers (l1 ++ l2) x <-> covers l1 x \/ covers l2 x.
Proof. apply Exists_app. Qed.

Lemma covers_reverse l x : covers (reverse l) x <-> covers l x.
Proof. unfold covers. rewrite !Exists_exists. by setoid_rewrite elem_of_reverse. Qed.

Lemma sorted_app {A} (R : A -> A -> Prop) l1 l2 :
  StronglySorted R (l1 ++ l2) <-> StronglySorted R l1 /\ StronglySorted R l2 /\ Forall (fun a => Forall (R a) l2) l1.
Proof.
  induction l1 as [|a l1 IH]; cbn; [split; [intros; split_and!; [constructor|done|constructor]|tauto]|]. split.
  - intros H. apply StronglySorted_inv in H as [H1 H2]. apply Forall_app in H2 as [H2 H3]. apply IH in H1 as (? & ? & ?).
    split_and!; [by constructor|done|by constructor].
  - intros (H1 & H2 & H3). apply StronglySorted_inv in H1 as [H1 H4]. apply Forall_cons in H3 as [H3 H5].
    constructor; [by apply IH|by apply Forall_app].
Qed.

Lemma normal_app l1 l2 : normal (l1 ++ l2) <->
  normal l1 /\ normal l2 /\ Forall (fun a => Forall (gap_before a) l2) l1.
Proof. unfold normal. rewrite Forall_app, sorted_app. tauto. Qed.

Lemma normal_cons r l : normal (r :: l) <-> rs_ok r /\ normal l /\ Forall (gap_before r) l.
Proof.
  unfold normal. rewrite Forall_cons. split.
  - intros ((H1 & H2) & H3). apply StronglySorted_inv in H3 as [? ?]. done.
  - intros (? & (? & ?) & ?). split; [done|]. by constructor.
Qed.

(** A set has one normal form. *)
Lemma normal_unique l1 : forall l2, normal l1 -> normal l2 -> (forall x, covers l1 x <-> covers l2 x) -> l1 = l2.
Proof.
  induction l1 as [|a l1 IH]; intros [|b l2] N1 N2 H; [done|..].
  - apply normal_cons in N2 as ([? _] & _). exfalso. apply (covers_nil (rs_lo b)), H, covers_cons. left. split; lia.
  - apply normal_cons in N1 as ([? _] & _). exfalso. apply (covers_nil (rs_lo a)), H, covers_cons. left. split; lia.
  - apply normal_cons in N1 as (([A1 A2] & A3) & N1 & G1), N2 as (([B1 B2] & B3) & N2 & G2). unfold gap_before in *.
    assert (forall r l x, Forall (gap_before r) l -> covers l x -> rs_hi r + 1 < x) as Above.
    { intros r l x G C. unfold covers in C. apply Exists_exists in C as (e & He & [? ?]). rewrite Forall_forall in G. specialize (G _ He). unfold gap_before in G. lia. }
    assert (forall x, in_rs a x \/ covers l1 x <-> in_rs b x \/ covers l2 x) as K by (intros x; by rewrite <- !covers_cons).
    assert (rs_lo a = rs_lo b) as El.
    { apply Z.le_antisymm.
      - destruct (proj2 (K (rs_lo b))) as [[? ?]|C]; [left; split; lia|done|]. apply (Above a) in C; [lia|done].
      - destruct (proj1 (K (rs_lo a))) as [[? ?]|C]; [left; split; lia|done|]. apply (Above b) in C; [lia|done]. }
    assert (rs_hi a = rs_hi b) as Eh.
    { destruct (Z.lt_trichotomy (rs_hi a) (rs_hi b)) as [L|[E|L]]; [exfalso|done|exfalso].
      - destruct (proj2 (K (rs_hi a + 1))) as [[? ?]|C]; [left; split; lia|lia|]. apply (Above a) in C; [lia|done].
      - destruct (proj1 (K (rs_hi b + 1))) as [[? ?]|C]; [left; split; lia|lia|]. apply (Above b) in C; [lia|done]. }
    assert (a = b) as -> by (destruct a, b; cbn in *; congruence). f_equal. apply IH; [done..|].
    intros x. specialize (K x). split; intros C.
    + pose proof (Above _ _ _ G1 C). destruct (proj1 K) as [[? ?]|]; auto. lia.
    + pose proof (Above _ _ _ G2 C). destruct (proj2 K) as [[? ?]|]; auto. lia.
Qed.

(** ** Joining neighbours *)

Lemma merge_pred_spec l : forall ers e m, Forall rs_ok l -> StronglySorted (fun a b => gap_before b a) l -> rs_ok ers ->
  Forall (fun a => rs_hi a <= rs_hi ers) l -> merge_pred ers l = (e, m) ->
  rs_ok e /\ rs_hi e = rs_hi ers /\ rs_lo e <= rs_lo ers /\ m `suffix_of` l /\ Forall (fun a => gap_before a e) m /\
  forall x, covers m x \/ in_rs e x <-> covers l x \/ in_rs ers x.
Proof.
  induction l as [|c l IH]; intros ers e m Ok S Oe Hh; cbn [merge_pred].
  - intros [= <- <-]. done.
  - apply Forall_cons in Ok as [Oc Ok]. apply StronglySorted_inv in S as [S Sc]. apply Forall_cons in Hh as [Hc Hh].
    unfold rs_ok in Oe. destruct (negb (rs_lo ers =? 0) && (rs_hi c <? u64 (rs_lo ers - 1))) eqn:E.
    + intros [= <- <-]. zbool. rewrite wrap_small in * by lia. split_and!; try done. constructor; [unfold gap_before; lia|].
      eapply Forall_impl; [exact Sc|]. unfold gap_before, rs_ok in *. intros b Hb. lia.
    + intros Em. assert (rs_lo ers <= rs_hi c + 1) as Touch.
      { destruct (Z.eqb_spec (rs_lo ers) 0); cbn in E; [unfold rs_ok in Oc; lia|]. rewrite wrap_small in E by lia. lia. }
      set (ers' := if rs_lo c <? rs_lo ers then set_rs_lo (rs_lo c) ers else ers) in *.
      assert (rs_hi ers' = rs_hi ers /\ rs_lo ers' = Z.min (rs_lo c) (rs_lo ers)) as [E1 E2].
      { unfold ers'. destruct (Z.ltb_spec (rs_lo c) (rs_lo ers)); cbn; split; lia. }
      destruct (IH ers' e m) as (H1 & H2 & H3 & H4 & H5 & H6); [done|done|unfold rs_ok in *; lia|by rewrite E1|done|].
      split_and!; [done|lia|lia|by apply suffix_cons_r|done|]. intros x. rewrite H6, covers_cons.
      unfold in_rs, rs_ok in *. rewrite E1, E2. split; [intros [?|?]; [tauto|]|intros [[?|?]|?]; [|tauto|]]; [|right; lia..].
      destruct (decide (rs_lo ers <= x)); [right; lia|left; left; lia].
Qed.

Lemma merge_succ_spec l : forall ers e m, Forall rs_ok l -> StronglySorted gap_before l -> rs_ok ers ->
  Forall (fun b => rs_lo ers <= rs_lo b) l -> merge_succ ers l = (e, m) ->
  rs_ok e /\ rs_lo e = rs_lo ers /\ rs_hi ers <= rs_hi e /\ m `suffix_of` l /\ Forall (fun b => gap_before e b) m /\
  forall x, covers m x \/ in_rs e x <-> covers l x \/ in_rs ers x.
Proof.
  induction l as [|c l IH]; intros ers e m Ok S Oe Hh; cbn [merge_succ].
  - intros [= <- <-]. done.
  - apply Forall_cons in Ok as [Oc Ok]. apply StronglySorted_inv in S as [S Sc]. apply Forall_cons in Hh as [Hc Hh].
    unfold rs_ok in Oe. rewrite !Z.gtb_ltb. change (u64 (-1)) with (2 ^ 64 - 1).
    destruct (negb (rs_hi ers =? 2 ^ 64 - 1) && (u64 (rs_hi ers + 1) <? rs_lo c)) eqn:E.
    + intros [= <- <-]. zbool. rewrite wrap_small in * by lia. split_and!; try done. constructor; [unfold gap_before; lia|].
      eapply Forall_impl; [exact Sc|]. unfold gap_before, rs_ok in *. intros b Hb. lia.
    + intros Em. assert (rs_lo c <= rs_hi ers + 1) as Touch.
      { destruct (Z.eqb_spec (rs_hi ers) (2 ^ 64 - 1)); cbn [negb andb] in E; [unfold rs_ok in Oc; lia|]. rewrite wrap_small in E by lia. lia. }
      set (ers' := if rs_hi ers <? rs_hi c then set_rs_hi (rs_hi c) ers else ers) in *.
      assert (rs_lo ers' = rs_lo ers /\ rs_hi ers' = Z.max (rs_hi c) (rs_hi ers)) as [E1 E2].
      { unfold ers'. destruct (Z.ltb_spec (rs_hi ers) (rs_hi c)); cbn; split; lia. }
      destruct (IH ers' e m) as (H1 & H2 & H3 & H4 & H5 & H6); [done|done|unfold rs_ok in *; lia|by rewrite E1|done|].
      split_and!; [done|lia|lia|by apply suffix_cons_r|done|]. intros x. rewrite H6, covers_cons.
      unfold in_rs, rs_ok in *. rewrite E1, E2. split; [intros [?|?]; [tauto|]|intros [[?|?]|?]; [|tauto|]]; [|right; lia..].
      destruct (decide (x <= rs_hi ers)); [right; lia|left; left; lia].
Qed.

Lemma sorted_reverse {A} (R : A -> A -> Prop) l : StronglySorted R l -> StronglySorted (fun a b => R b a) (reverse l).
Proof.
  induction l as [|a l IH]; intros H; [constructor|]. apply StronglySorted_inv in H as [H1 H2]. rewrite reverse_cons.
  apply sorted_app. split_and!; [by apply IH|by repeat constructor|]. apply Forall_reverse.
  eapply Forall_impl; [exact H2|]. intros b Hb. by repeat constructor.
Qed.

Lemma suffix_reverse {A} (m l : list A) : m `suffix_of` reverse l -> reverse m `prefix_of` l.
Proof. intros [k E]. exists (reverse k). by rewrite <- reverse_app, <- E, reverse_involutive. Qed.

(** What is inserted or grown takes in what it touches. *)
Lemma coalesce_spec l ers r : normal l -> normal r -> rs_ok ers ->
  Forall (fun a => rs_hi a <= rs_hi ers) l -> Forall (fun b => rs_lo ers <= rs_lo b) r ->
  Forall (fun a => Forall (gap_before a) r) l ->
  normal (coalesce l ers r) /\ forall x, covers (coalesce l ers r) x <-> covers l x \/ in_rs ers x \/ covers r x.
Proof.
  intros [Ol Sl] [Or Sr] Oe Hl Hr Hlr. unfold coalesce.
  destruct (merge_pred ers (reverse l)) as [e1 m1] eqn:E1. destruct (merge_succ e1 r) as [e2 m2] eqn:E2.
  apply merge_pred_spec in E1 as (O1 & Hh & Hlo & Suf1 & G1 & C1); [|by apply Forall_reverse|by apply sorted_reverse|done|by apply Forall_reverse].
  apply merge_succ_spec in E2 as (O2 & Hlo2 & Hh2 & [k2 ->] & G2 & C2); [|done..|eapply Forall_impl; [exact Hr|cbn; lia]].
  apply suffix_reverse in Suf1 as [k1 ->]. apply Forall_app in Ol as [Ol _]. apply sorted_app in Sl as (Sl & _ & _).
  apply Forall_app in Or as [_ Or]. apply sorted_app in Sr as (_ & Sr & _). apply Forall_app in Hlr as [Hlr _].
  rewrite <- (reverse_involutive m1) in G1. rewrite Forall_reverse in G1. split.
  - apply normal_app. split_and!; [by split|apply normal_cons; by split_and!|].
    apply Forall_forall. intros a Ha. rewrite Forall_forall in G1, Hlr. constructor; [unfold gap_before in *; rewrite Hlo2; by apply G1|].
    specialize (Hlr a Ha). apply Forall_app in Hlr. tauto.
  - intros x. specialize (C1 x). specialize (C2 x). rewrite covers_reverse in C1.
    rewrite (covers_app (reverse m1) (e2 :: m2)), covers_cons, covers_reverse. clear -C1 C2. revert C1 C2.
    generalize (covers (reverse m1 ++ k1) x) (covers (k2 ++ m2) x) (covers m1 x) (covers m2 x). intros. tauto.
Qed.

(** ** The search *)

Lemma cmp_zero rs e : serial_cmp rs e = 0 <-> rs_lo e <= rs_hi rs /\ rs_lo rs <= rs_hi e.
Proof.
  unfold serial_cmp. rewrite Z.geb_leb. destruct (_ && _) eqn:E; [zbool; lia|].
  destruct (rs_lo rs <? rs_lo e); (split; [lia|]); intros H; apply andb_false_iff in E; lia.
Qed.

Lemma cmp_above rs e : rs_ok rs -> rs_ok e -> serial_cmp rs e > 0 <-> rs_hi e < rs_lo rs.
Proof.
  unfold serial_cmp, rs_ok. rewrite Z.geb_leb. intros O1 O2. destruct (_ && _) eqn:E; [zbool; lia|]. apply andb_false_iff in E.
  destruct (Z.ltb_spec (rs_lo rs) (rs_lo e)); lia.
Qed.

Lemma cmp_below rs e : rs_ok rs -> rs_ok e -> serial_cmp rs e < 0 <-> rs_hi rs < rs_lo e.
Proof.
  unfold serial_cmp, rs_ok. rewrite Z.geb_leb. intros O1 O2. destruct (_ && _) eqn:E; [zbool; lia|]. apply andb_false_iff in E.
  destruct (Z.ltb_spec (rs_lo rs) (rs_lo e)); lia.
Qed.

Lemma below_spec rs t : rs_ok rs -> normal t ->
  let '(l, r) := below serial_cmp rs t in
  t = l ++ r /\ Forall (fun e => rs_hi e < rs_lo rs) l /\ Forall (fun e => rs_lo rs <= rs_hi e) r.
Proof.
  intros O. induction t as [|e t IH]; intros N; cbn [below]; [done|]. apply normal_cons in N as (Oe & N & G).
  rewrite Z.gtb_ltb. destruct (Z.ltb_spec 0 (serial_cmp rs e)) as [L|L].
  - specialize (IH N). destruct (below serial_cmp rs t) as [l r]. destruct IH as (-> & Hl & Hr).
    split_and!; [done| |done]. constructor; [|done]. apply cmp_above; [done..|lia].
  - assert (rs_lo rs <= rs_hi e) as He.
    { destruct (Z.le_gt_cases (rs_lo rs) (rs_hi e)) as [|H]; [done|]. apply cmp_above in H; [lia|done..]. }
    split_and!; [done|constructor|]. constructor; [done|]. destruct N as [N _]. rewrite Forall_forall in N, G |- *.
    intros b Hb. specialize (N b Hb). specialize (G b Hb). unfold gap_before, rs_ok in *. lia.
Qed.

Lemma equal_run_spec rs t : rs_ok rs -> normal t -> Forall (fun e => rs_lo rs <= rs_hi e) t ->
  let '(m, r) := equal_run serial_cmp rs t in
  t = m ++ r /\ Forall (fun e => serial_cmp rs e = 0) m /\ Forall (fun e => rs_hi rs < rs_lo e) r.
Proof.
  intros O. induction t as [|e t IH]; intros N H; cbn [equal_run]; [done|]. apply normal_cons in N as (Oe & N & G).
  apply Forall_cons in H as [He H]. destruct (Z.eqb_spec (serial_cmp rs e) 0) as [E|E].
  - specialize (IH N H). destruct (equal_run serial_cmp rs t) as [m r]. destruct IH as (-> & Hm & Hr). by split_and!; [|constructor|].
  - assert (rs_hi rs < rs_lo e) as Hlt by (destruct (Z.lt_ge_cases (rs_hi rs) (rs_lo e)); [done|]; exfalso; apply E, cmp_zero; lia).
    split_and!; [done|constructor|]. constructor; [done|]. eapply Forall_impl; [exact G|]. unfold gap_before. intros b Hb. unfold rs_ok in *. lia.
Qed.

Lemma insert_found rs t : rs_ok rs -> normal t -> Forall (fun e => serial_cmp rs e <> 0) t ->
  exists l r, RB_INSERT serial_cmp rs t = Some (l, r) /\ t = l ++ r /\
    Forall (fun e => rs_hi e < rs_lo rs) l /\ Forall (fun e => rs_hi rs < rs_lo e) r.
Proof.
  intros O. induction t as [|e t IH]; intros N H; cbn [RB_INSERT]; [by exists [], []|]. apply normal_cons in N as (Oe & N & G).
  apply Forall_cons in H as [He H]. rewrite (proj2 (Z.eqb_neq _ _) He). destruct (Z.ltb_spec (serial_cmp rs e) 0) as [L|L].
  - apply cmp_below in L; [|done..]. exists [], (e :: t). split_and!; [done|done|constructor|]. constructor; [done|].
    eapply Forall_impl; [exact G|]. unfold gap_before. intros b Hb. unfold rs_ok in *. lia.
  - destruct (IH N H) as (l & r & -> & -> & Hl & Hr). exists (e :: l), r. split_and!; [done|done| |done]. constructor; [|done].
    apply cmp_above; [done..|lia].
Qed.

(** ** Insertion *)

Section Insert.
Context (met : list revoked_serial -> revoked_serial -> nat).

Lemma nfind_spec rs t : rs_ok rs -> normal t ->
  match nfind_equal met rs t with
  | None => Forall (fun e => serial_cmp rs e <> 0) t
  | Some (l, ers, r) => t = l ++ ers :: r /\ serial_cmp rs ers = 0
  end.
Proof.
  intros O N. unfold nfind_equal. pose proof (below_spec rs t O N) as B. destruct (below serial_cmp rs t) as [l t1].
  destruct B as (-> & Hl & H1). apply normal_app in N as (Nl & N1 & _).
  pose proof (equal_run_spec rs t1 O N1 H1) as E. destruct (equal_run serial_cmp rs t1) as [m r]. destruct E as (-> & Hm & Hr).
  destruct m as [|e0 m0].
  - cbn. apply Forall_app. split; (eapply Forall_impl; [eassumption|]); cbn; intros e He E0; apply cmp_zero in E0; lia.
  - set (i := (met (l ++ (e0 :: m0) ++ r) rs mod length (e0 :: m0))%nat). set (m := e0 :: m0) in *.
    assert (i < length m)%nat as Hi by (apply Nat.mod_upper_bound; done).
    destruct (lookup_lt_is_Some_2 m i Hi) as [ers He]. rewrite He. cbn [mbind option_bind].
    split; [|by eapply (Forall_lookup_1 (fun e => serial_cmp rs e = 0))].
    rewrite <- !app_assoc. f_equal. rewrite <- (take_drop_middle m i ers He) at 1. by rewrite <- app_assoc.
Qed.

(** Inserting adds the numbers of the range and keeps the normal form; it
    fails only for want of memory, and then changes nothing. *)
Lemma insert_spec rt lo hi oom : normal rt -> rs_ok (mk_rs lo hi) ->
  exists r rt' oom', insert_serial_range met rt lo hi oom = (Ok (r, rt'), oom') /\
    (r = 0 /\ normal rt' /\ (forall x, covers rt' x <-> covers rt x \/ lo <= x <= hi) \/
     r = SSH_ERR_ALLOC_FAIL /\ rt' = rt /\ false ∈ oom).
Proof.
  intros N O. unfold insert_serial_range. set (rs := mk_rs lo hi) in *. pose proof (nfind_spec rs rt O N) as F.
  destruct (nfind_equal met rs rt) as [[[l ers] r]|].
  - destruct F as [-> F]. apply cmp_zero in F. cbn in F. apply normal_app in N as (Nl & N & Hlr).
    apply normal_cons in N as (Oe & Nr & Gr). set (e1 := if rs_lo ers >? lo then _ else _). set (e2 := if rs_hi e1 <? hi then _ else _).
    assert (rs_lo e2 = Z.min lo (rs_lo ers) /\ rs_hi e2 = Z.max hi (rs_hi ers)) as [E1 E2].
    { unfold e2, e1. rewrite Z.gtb_ltb. destruct (Z.ltb_spec lo (rs_lo ers)); cbn; destruct (Z.ltb_spec (rs_hi ers) hi); cbn; lia. }
    unfold rs_ok in *. cbn in O. unfold gap_before in *.
    destruct (coalesce_spec l e2 r) as [N' C'].
    + done.
    + done.
    + unfold rs_ok. lia.
    + eapply Forall_impl; [exact Hlr|]. intros a Ha. apply Forall_cons in Ha as [Ha _]. lia.
    + eapply Forall_impl; [exact Gr|]. cbn. intros b Hb. lia.
    + eapply Forall_impl; [exact Hlr|]. intros a Ha. apply Forall_cons in Ha as [_ Ha]. exact Ha.
    + eexists _, _, _. split; [done|]. left. split_and!; [done|done|]. intros x. rewrite C', covers_app, covers_cons.
      unfold in_rs. rewrite E1, E2. split; [|intros [[?|[?|?]]|?]; auto; right; left; lia].
      intros [?|[?|?]]; [tauto| |tauto]. destruct (decide (rs_lo ers <= x <= rs_hi ers)); [tauto|right; lia].
  - destruct (insert_found rs rt O N F) as (l & r & E & -> & Hl & Hr).
    unfold mbind, M_bind, alloc. destruct oom as [|[] oom]; [| |]; cbn [negb].
    3:{ eexists _, _, _. split; [done|]. right. split_and!; [done..|left]. }
    all: rewrite E; apply normal_app in N as (Nl & Nr & Hlr); unfold rs_ok in *; cbn in O, Hl, Hr;
      destruct (coalesce_spec l rs r) as [N' C']; [done|done|done|eapply Forall_impl; [exact Hl|cbn; lia]|eapply Forall_impl; [exact Hr|cbn; lia]|done|];
      eexists _, _, _; (split; [done|]); left; (split_and!; [done|done|]); intros x; rewrite C', covers_app; unfold in_rs; cbn; tauto.
Qed.
End Insert.

(** Looking a number up. *)
Lemma find_covers x t : 0 <= x < 2 ^ 64 -> normal t -> is_Some (RB_FIND serial_cmp (mk_rs x x) t) <-> covers t x.
Proof.
  intros Hx. assert (rs_ok (mk_rs x x)) as O by (unfold rs_ok; cbn; lia).
  induction t as [|e t IH]; intros N; cbn [RB_FIND]; [split; [intros [? ?]; done|by intros ?%covers_nil]|].
  apply normal_cons in N as (Oe & N & G). rewrite covers_cons. destruct (Z.eqb_spec (serial_cmp (mk_rs x x) e) 0) as [E|E].
  - split; [intros _; left|by eexists]. apply cmp_zero in E. unfold in_rs. cbn in E. lia.
  - destruct (Z.ltb_spec (serial_cmp (mk_rs x x) e) 0) as [L|L].
    + apply cmp_below in L; [|done..]. cbn in L. split; [intros [? ?]; done|]. intros [[? ?]|C]; [lia|]. exfalso.
      apply Exists_exists in C as (b & Hb & [? ?]). rewrite Forall_forall in G. specialize (G _ Hb). unfold gap_before, rs_ok in *. lia.
    + rewrite IH by done. split; [tauto|]. intros [[? ?]|?]; [|done]. exfalso. apply E, cmp_zero. cbn. lia.
Qed.

(** * Trees of key IDs and of blobs: sets of strings in order *)

(** ** Trees over an order

    [cmp] orders the elements of [P]. *)

Class CmpOrder {A} (cmp : A -> A -> Z) (P : A -> Prop) : Prop := {
  cmp_eq x y : P x -> P y -> cmp x y = 0 <-> x = y;
  cmp_flip x y : P x -> P y -> cmp x y < 0 <-> cmp y x > 0;
  cmp_trans x y z : P x -> P y -> P z -> cmp x y < 0 -> cmp y z < 0 -> cmp x z < 0
}.

Section Tree.
Context {A : Type} (cmp : A -> A -> Z) (P : A -> Prop) {CO : CmpOrder cmp P}.
Implicit Types (t : list A).

Definition ordered t : Prop := Forall P t /\ StronglySorted (fun a b => cmp a b < 0) t.

Lemma ordered_app t1 t2 : ordered (t1 ++ t2) <->
  ordered t1 /\ ordered t2 /\ Forall (fun a => Forall (fun b => cmp a b < 0) t2) t1.
Proof. unfold ordered. rewrite Forall_app, sorted_app. tauto. Qed.

Lemma ordered_cons e t : ordered (e :: t) <-> P e /\ ordered t /\ Forall (fun b => cmp e b < 0) t.
Proof.
  unfold ordered. rewrite Forall_cons. split.
  - intros ((H1 & H2) & H3). apply StronglySorted_inv in H3 as [? ?]. done.
  - intros (? & (? & ?) & ?). split; [done|]. by constructor.
Qed.

Lemma less_all x e t : P x -> ordered (e :: t) -> cmp x e < 0 -> Forall (fun b => cmp x b < 0) (e :: t).
Proof.
  intros Px O L. apply ordered_cons in O as (Pe & [Pt _] & H). constructor; [done|]. rewrite Forall_forall in *.
  intros b Hb. apply (cmp_trans x e b); auto.
Qed.

Lemma find_in x t : P x -> ordered t -> is_Some (RB_FIND cmp x t) <-> x ∈ t.
Proof.
  intros Px. induction t as [|e t IH]; intros O; cbn [RB_FIND]; [split; [intros [? ?]; done|by intros ?%elem_of_nil]|].
  rewrite elem_of_cons. pose proof O as O'. apply ordered_cons in O' as (Pe & Ot & H). destruct (Z.eqb_spec (cmp x e) 0) as [E|E].
  - apply cmp_eq in E; [|done..]. split; [by left|by eexists].
  - destruct (Z.ltb_spec (cmp x e) 0) as [L|L].
    + split; [intros [? ?]; done|]. intros Hx. exfalso. apply (less_all x) in O; [|done..]. rewrite Forall_forall in O.
      assert (cmp x x < 0) as L' by (apply O, elem_of_cons, Hx). pose proof (proj2 (cmp_eq x x Px Px) eq_refl). lia.
    + rewrite IH by done. split; [by right|]. intros [->|?]; [|done]. by destruct E; apply cmp_eq.
Qed.

Lemma insert_tree x t : P x -> ordered t ->
  match RB_INSERT cmp x t with
  | None => x ∈ t
  | Some (l, r) => t = l ++ r /\ Forall (fun e => cmp e x < 0) l /\ Forall (fun e => cmp x e < 0) r
  end.
Proof.
  intros Px. induction t as [|e t IH]; intros O; cbn [RB_INSERT]; [done|]. pose proof O as O'.
  apply ordered_cons in O' as (Pe & Ot & H). destruct (Z.eqb_spec (cmp x e) 0) as [E|E].
  - apply cmp_eq in E as ->; [|done..]. left.
  - destruct (Z.ltb_spec (cmp x e) 0) as [L|L]; [by split_and!; [|constructor|apply less_all]|].
    specialize (IH Ot). destruct (RB_INSERT cmp x t) as [[l r]|]; cbn; [|by right]. destruct IH as (-> & Hl & Hr).
    split_and!; [done| |done]. constructor; [|done]. apply cmp_flip; [done..|lia].
Qed.

Lemma add_ordered x t : P x -> ordered t -> ordered (tree_add cmp x t).
Proof.
  intros Px O. unfold tree_add. pose proof (insert_tree x t Px O) as H. destruct (RB_INSERT cmp x t) as [[l r]|]; [|done].
  destruct H as (-> & Hl & Hr). apply ordered_app in O as (Ol & Or & Hlr). apply ordered_app. split_and!; [done|by apply ordered_cons|].
  rewrite Forall_forall in Hl, Hlr |- *. intros a Ha. constructor; [by apply Hl|by apply Hlr].
Qed.

Lemma add_in x t y : P x -> ordered t -> y ∈ tree_add cmp x t <-> y = x \/ y ∈ t.
Proof.
  intros Px O. unfold tree_add. pose proof (insert_tree x t Px O) as H. destruct (RB_INSERT cmp x t) as [[l r]|].
  - destruct H as (-> & _). rewrite !elem_of_app, elem_of_cons. tauto.
  - split; [by right|]. by intros [->|].
Qed.

(** An element above all others goes to the end. *)
Lemma add_last x t : ordered (t ++ [x]) -> tree_add cmp x t = t ++ [x].
Proof.
  intros O. apply ordered_app in O as (Ot & Ox & H). apply ordered_cons in Ox as (Px & _). unfold tree_add.
  assert (RB_INSERT cmp x t = Some (t, [])) as ->; [|done]. revert Ot H.
  induction t as [|e t IH]; intros Ot H; [done|]. cbn [RB_INSERT]. apply ordered_cons in Ot as (Pe & Ot & _).
  apply Forall_cons in H as [He H]. apply Forall_inv in He. apply cmp_flip in He; [|done..].
  rewrite (proj2 (Z.eqb_neq _ 0)), (proj2 (Z.ltb_ge _ 0)) by lia. by rewrite IH.
Qed.
End Tree.

(** ** The order of strings *)

Fixpoint lex (a b : list Z) : Z :=
  match a, b with
  | [], [] => 0
  | [], _ :: _ => -1
  | _ :: _, [] => 1
  | x :: a, y :: b => if x =? y then lex a b else if x <? y then -1 else 1
  end.

Lemma lex_eq a : forall b, lex a b = 0 <-> a = b.
Proof.
  induction a as [|x a IH]; intros [|y b]; cbn [lex]; [done..|]. destruct (Z.eqb_spec x y) as [->|N].
  - rewrite IH. split; congruence.
  - destruct (x <? y); (split; [lia|congruence]).
Qed.

Lemma lex_flip a : forall b, lex a b = - lex b a.
Proof.
  induction a as [|x a IH]; intros [|y b]; cbn [lex]; [done..|]. rewrite (Z.eqb_sym y x).
  destruct (Z.eqb_spec x y); [apply IH|]. destruct (Z.ltb_spec x y), (Z.ltb_spec y x); lia.
Qed.

Lemma lex_trans a : forall b c, lex a b < 0 -> lex b c < 0 -> lex a c < 0.
Proof.
  induction a as [|x a IH]; intros [|y b] [|z c]; cbn [lex]; try lia.
  destruct (Z.eqb_spec x y) as [->|], (Z.eqb_spec y z) as [->|].
  - apply IH.
  - by destruct (y <? z).
  - rewrite (proj2 (Z.eqb_neq x z)) by done. by destruct (x <? z).
  - destruct (Z.ltb_spec x y), (Z.ltb_spec y z); try lia. intros _ _.
    rewrite (proj2 (Z.eqb_neq x z)), (proj2 (Z.ltb_lt x z)) by lia. lia.
Qed.

Lemma lex_order P : CmpOrder lex P.
Proof. split; intros *; [by rewrite lex_eq|rewrite (lex_flip x y); lia|intros _ _ _; apply lex_trans]. Qed.

Lemma blob_lex a b : blob_cmp a b = lex a b.
Proof.
  unfold blob_cmp. revert b. induction a as [|x a IH]; intros [|y b]; cbn [lex memcmp]; [done|..].
  - rewrite zlen_cons. pose proof (zlen_nonneg b). rewrite (proj2 (Z.eqb_neq (zlen []) (1 + zlen b))) by (change (zlen []) with 0; lia). cbn [negb Z.eqb].
    rewrite Z.gtb_ltb, (proj2 (Z.ltb_ge _ _)) by (change (zlen []) with 0; lia). done.
  - rewrite zlen_cons. pose proof (zlen_nonneg a). rewrite (proj2 (Z.eqb_neq (1 + zlen a) (zlen []))) by (change (zlen []) with 0; lia). cbn [negb Z.eqb].
    rewrite Z.gtb_ltb, (proj2 (Z.ltb_lt _ _)) by (change (zlen []) with 0; lia). done.
  - rewrite !zlen_cons. specialize (IH b). replace (1 + zlen a =? 1 + zlen b) with (zlen a =? zlen b) by lia.
    replace (1 + zlen a >? 1 + zlen b) with (zlen a >? zlen b) by lia.
    destruct (Z.eqb_spec x y); [exact IH|]. by destruct (zlen a =? zlen b), (x <? y).
Qed.

(** C strings: bytes that are not NUL. *)
Definition text (s : list Z) : Prop := Forall (fun c => 0 < c) s.

Lemma key_id_lex a : forall b, text a -> text b -> key_id_cmp a b = lex a b.
Proof.
  unfold key_id_cmp. induction a as [|x a IH]; intros [|y b] Ha Hb; cbn [lex memcmp app].
  - done.
  - apply Forall_inv in Hb. rewrite (proj2 (Z.eqb_neq 0 y)), (proj2 (Z.ltb_lt 0 y)) by lia. done.
  - apply Forall_inv in Ha. rewrite (proj2 (Z.eqb_neq x 0)), (proj2 (Z.ltb_ge x 0)) by lia. done.
  - apply Forall_cons in Ha as [_ Ha], Hb as [_ Hb]. by rewrite IH.
Qed.

#[export] Instance blob_order : CmpOrder blob_cmp (fun _ => True).
Proof.
  destruct (lex_order (fun _ => True)) as [H1 H2 H3]. split.
  - intros x y Hx Hy. rewrite blob_lex. by apply H1.
  - intros x y Hx Hy. rewrite !blob_lex. by apply H2.
  - intros x y z Hx Hy Hz. rewrite !blob_lex. by apply H3.
Qed.

#[export] Instance key_id_order : CmpOrder key_id_cmp text.
Proof.
  destruct (lex_order text) as [H1 H2 H3]. split.
  - intros x y Hx Hy. rewrite key_id_lex by done. by apply H1.
  - intros x y Hx Hy. rewrite !key_id_lex by done. by apply H2.
  - intros x y z Hx Hy Hz. rewrite !key_id_lex by done. by apply H3.
Qed.
