(* ===== verification/KrlThms.v ===== *)
(** * Revocation lists: the invariant, and what is revoked

    Every operation keeps the trees in order, the ranges in normal form and
    the authorities distinct, and adds to the set of what is revoked exactly
    what it is asked to. *)

From S2P Require Import Prelude Ssherr Sshbuf Cstring KexNames SshkeyNames Hmac Misc AuthOptions AuthCtxt Krl KrlSets.
From Stdlib Require Import Sorted.

(** What the code relies on of keys: sshkey_equal is an equivalence, a copy of
    a key, or the key read back from its blob, is equal to it, and errors are
    not 0. *)
Class KrlKeyLaws {KO : KeyOps} {KK : KrlKeys} : Prop := {
  equal_refl k : sshkey_equal k k = true;
  equal_sym k1 k2 : sshkey_equal k1 k2 = true -> sshkey_equal k2 k1 = true;
  equal_trans k1 k2 k3 : sshkey_equal k1 k2 = true -> sshkey_equal k2 k3 = true -> sshkey_equal k1 k3 = true;
  copy_equal k d : sshkey_from_private k = inr d -> sshkey_equal d k = true;
  copy_exists k : exists d, sshkey_from_private k = inr d;
  to_blob_error k e : sshkey_to_blob k = inl e -> e <> 0;
  drop_cert_error k e : sshkey_drop_cert k = inl e -> e <> 0;
  blob_equal k b : sshkey_to_blob k = inr b -> b <> [] /\ exists k', sshkey_from_blob b = inr k' /\ sshkey_equal k' k = true
}.

(** The empty set. *)
Abbreviation nothing := (fun _ => False).

Section Inv.
Context (nids : curve_nids) (met : list revoked_serial -> revoked_serial -> nat).
Context {KO : KeyOps} {KK : KrlKeys} {KL : KrlKeyLaws}.
Implicit Types (krl : ssh_krl) (ca : option sshkey) (rc : revoked_certs).

(** ** Authorities *)

Definition ca_eq (a b : option sshkey) : bool :=
  match a, b with
  | None, None => true
  | Some a, Some b => sshkey_equal b a
  | _, _ => false
  end.

Lemma ca_is_eq ca rc : ca_is ca rc = ca_eq ca (rc_ca_key rc).
Proof. done. Qed.

Lemma ca_refl a : ca_eq a a = true.
Proof. destruct a; [apply equal_refl|done]. Qed.

Lemma ca_sym a b : ca_eq a b = true -> ca_eq b a = true.
Proof. destruct a, b; try done. apply equal_sym. Qed.

Lemma ca_trans a b c : ca_eq a b = true -> ca_eq b c = true -> ca_eq a c = true.
Proof. destruct a, b, c; try done. cbn. intros H1 H2. by apply (equal_trans _ s0). Qed.

Lemma find_ca_spec ca l : forall n,
  match find_ca ca l n with
  | None => Forall (fun rc => ca_eq ca (rc_ca_key rc) = false) l
  | Some j => exists i rc, j = (n + i)%nat /\ l !! i = Some rc /\ ca_eq ca (rc_ca_key rc) = true
  end.
Proof.
  induction l as [|rc l IH]; intros n; cbn [find_ca]; [done|]. rewrite ca_is_eq. destruct (ca_eq ca (rc_ca_key rc)) eqn:E.
  - exists 0%nat, rc. split; [lia|done].
  - specialize (IH (S n)). destruct (find_ca ca l (S n)) as [j|]; [|by constructor].
    destruct IH as (i & rc' & -> & Hi & He). exists (S i), rc'. split; [lia|done].
Qed.

(** Pairwise different authorities. *)
Definition distinct (cas : list (option sshkey)) : Prop := ForallOrdPairs (fun a b => ca_eq a b = false) cas.

Lemma distinct_same (l : list revoked_certs) rc1 rc2 : distinct (rc_ca_key <$> l) -> rc1 ∈ l -> rc2 ∈ l ->
  ca_eq (rc_ca_key rc1) (rc_ca_key rc2) = true -> rc1 = rc2.
Proof.
  induction l as [|rc l IH]; cbn; intros D; [by intros ?%elem_of_nil|]. inversion_clear D as [|? ? F D'].
  rewrite Forall_fmap in F. unfold compose in F. rewrite Forall_forall in F.
  intros [->|H1]%elem_of_cons [->|H2]%elem_of_cons E; [done|..|by apply IH].
  - by rewrite F in E.
  - apply ca_sym in E. by rewrite F in E.
Qed.

Lemma distinct_snoc cas a : distinct cas -> Forall (fun b => ca_eq a b = false) cas -> distinct (cas ++ [a]).
Proof.
  induction cas as [|b cas IH]; cbn; intros D F; [by repeat constructor|]. inversion_clear D as [|? ? F' D'].
  apply Forall_cons in F as [E F]. constructor; [|by apply IH]. apply Forall_app. split; [done|]. repeat constructor.
  apply not_true_iff_false. intros H%ca_sym. congruence.
Qed.

(** ** The invariant *)

Definition rc_ok rc : Prop :=
  normal (revoked_serials rc) /\ Forall (fun r => 1 <= rs_lo r) (revoked_serials rc) /\
  ordered key_id_cmp text (revoked_key_ids rc).

Record krl_ok krl : Prop := mk_krl_ok {
  ok_numbers : 0 <= krl_version krl < 2 ^ 64 /\ 0 <= generated_date krl < 2 ^ 64 /\ 0 <= krl_flags krl < 2 ^ 64;
  ok_comment : text (default [] (comment krl));
  ok_keys : ordered blob_cmp (fun _ => True) (revoked_keys krl);
  ok_sha1s : ordered blob_cmp (fun _ => True) (revoked_sha1s krl) /\ Forall (fun h => zlen h = 20) (revoked_sha1s krl);
  ok_sha256s : ordered blob_cmp (fun _ => True) (revoked_sha256s krl) /\ Forall (fun h => zlen h = 32) (revoked_sha256s krl);
  ok_certs : Forall rc_ok (krl_certs krl);
  ok_cas : distinct (rc_ca_key <$> krl_certs krl)
}.

(** Numbers and IDs revoked for an authority. *)
Definition serial_of krl ca (x : Z) : Prop :=
  exists rc, rc ∈ krl_certs krl /\ ca_eq ca (rc_ca_key rc) = true /\ covers (revoked_serials rc) x.

Definition id_of krl ca (id : list Z) : Prop :=
  exists rc, rc ∈ krl_certs krl /\ ca_eq ca (rc_ca_key rc) = true /\ id ∈ revoked_key_ids rc.

(** What a change of an entry adds. *)
Definition adds (S : Z -> Prop) (I : list Z -> Prop) rc rc' : Prop :=
  rc_ca_key rc' = rc_ca_key rc /\ rc_ok rc' /\
  (forall x, covers (revoked_serials rc') x <-> covers (revoked_serials rc) x \/ S x) /\
  (forall i, i ∈ revoked_key_ids rc' <-> i ∈ revoked_key_ids rc \/ I i).

(** What an operation on a list adds. *)
Record extends krl krl' ca (S : Z -> Prop) (I : list Z -> Prop) : Prop := mk_extends {
  ex_ok : krl_ok krl';
  ex_serial : forall c x, serial_of krl' c x <-> serial_of krl c x \/ ca_eq c ca = true /\ S x;
  ex_id : forall c i, id_of krl' c i <-> id_of krl c i \/ ca_eq c ca = true /\ I i;
  ex_keys : revoked_keys krl' = revoked_keys krl;
  ex_sha1s : revoked_sha1s krl' = revoked_sha1s krl;
  ex_sha256s : revoked_sha256s krl' = revoked_sha256s krl;
  ex_head : (krl_version krl', generated_date krl', krl_flags krl', comment krl') =
    (krl_version krl, generated_date krl, krl_flags krl, comment krl)
}.

Lemma certs_ok krl certs : krl_ok krl -> Forall rc_ok certs -> distinct (rc_ca_key <$> certs) -> krl_ok (set_certs certs krl).
Proof. intros [] H1 H2. by split. Qed.

Lemma fmap_insert_ca (l : list revoked_certs) i rc rc' : l !! i = Some rc -> rc_ca_key rc' = rc_ca_key rc ->
  rc_ca_key <$> <[i := rc']> l = rc_ca_key <$> l.
Proof. intros H E. rewrite list_fmap_insert, E. apply list_insert_id. by rewrite list_lookup_fmap, H. Qed.

Lemma elem_insert (l : list revoked_certs) i rc rc' x : l !! i = Some rc ->
  x ∈ <[i := rc']> l <-> x = rc' \/ exists j, j <> i /\ l !! j = Some x.
Proof.
  intros H. pose proof (lookup_lt_Some _ _ _ H) as L. rewrite list_elem_of_lookup. split.
  - intros [j Hj]. destruct (decide (j = i)) as [->|N]; [rewrite list_lookup_insert_eq in Hj by done; left; congruence|].
    rewrite list_lookup_insert_ne in Hj by done. right. by exists j.
  - intros [->|(j & N & Hj)]; [exists i; by apply list_lookup_insert_eq|exists j]. by rewrite list_lookup_insert_ne.
Qed.

(** A change of one entry, seen from outside. *)
Lemma insert_view {T} (f : revoked_certs -> T -> Prop) (l : list revoked_certs) i rc rc' ca (N : T -> Prop) :
  l !! i = Some rc -> ca_eq ca (rc_ca_key rc) = true -> rc_ca_key rc' = rc_ca_key rc ->
  (forall x, f rc' x <-> f rc x \/ N x) ->
  forall c x, (exists r, r ∈ <[i := rc']> l /\ ca_eq c (rc_ca_key r) = true /\ f r x) <->
    (exists r, r ∈ l /\ ca_eq c (rc_ca_key r) = true /\ f r x) \/ ca_eq c ca = true /\ N x.
Proof.
  intros H E EC K c x. setoid_rewrite (elem_insert l i rc rc' _ H). split.
  - intros (r & [->|(j & Nj & Hj)] & Ec & Hf).
    + rewrite EC in Ec. apply K in Hf as [Hf|Hf]; [left; exists rc; split; [by eapply list_elem_of_lookup_2|done]|right].
      split; [|done]. apply (ca_trans _ (rc_ca_key rc)); [done|by apply ca_sym].
    + left. exists r. split; [by eapply list_elem_of_lookup_2|done].
  - intros [(r & Hr & Ec & Hf)|[Ec Hx]].
    + apply list_elem_of_lookup in Hr as [j Hj]. destruct (decide (j = i)) as [->|Nj].
      * exists rc'. rewrite H in Hj. injection Hj as ->. split; [by left|]. rewrite EC. split; [done|]. apply K. by left.
      * exists r. split; [right; by exists j|done].
    + exists rc'. split; [by left|]. rewrite EC. split; [by apply (ca_trans _ ca)|]. apply K. by right.
Qed.

Lemma extends_refl krl ca : krl_ok krl -> extends krl krl ca nothing nothing.
Proof. intros K. split; try done; intros; tauto. Qed.

Lemma extends_after krl1 krl2 krl3 ca S I : extends krl1 krl2 ca nothing nothing -> extends krl2 krl3 ca S I -> extends krl1 krl3 ca S I.
Proof.
  intros [] []. split; [done|..|congruence|congruence|congruence|congruence].
  - intros c x. rewrite ex_serial1, ex_serial0. tauto.
  - intros c x. rewrite ex_id1, ex_id0. tauto.
Qed.

Definition outcome krl ca (S : Z -> Prop) (I : list Z -> Prop) (oom : list bool) (r : Z) krl' : Prop :=
  r = 0 /\ extends krl krl' ca S I \/
  r = SSH_ERR_ALLOC_FAIL /\ extends krl krl' ca nothing nothing /\ false ∈ oom.

(** What the change of an entry does. *)
Definition adding (S : Z -> Prop) (I : list Z -> Prop) (f : revoked_certs -> AM (Z * revoked_certs)) : Prop :=
  forall rc o, rc_ok rc -> exists r rc' o', f rc o = (Ok (r, rc'), o') /\
    (r = 0 /\ adds S I rc rc' \/ r = SSH_ERR_ALLOC_FAIL /\ rc' = rc /\ false ∈ o).

Lemma adds_extends krl ca S I i rc rc' : krl_ok krl -> krl_certs krl !! i = Some rc -> ca_eq ca (rc_ca_key rc) = true ->
  adds S I rc rc' -> extends krl (set_certs (<[i := rc']> (krl_certs krl)) krl) ca S I.
Proof.
  intros K H E (EC & O & HS & HI). split; [|..|done|done|done|done].
  - apply certs_ok; [done| |]; [apply Forall_insert; [apply K|done]|]. rewrite (fmap_insert_ca _ _ rc) by done. apply K.
  - apply (insert_view (fun rc => covers (revoked_serials rc)) _ i rc); done.
  - apply (insert_view (fun rc i => i ∈ revoked_key_ids rc) _ i rc); done.
Qed.

Lemma at_rc_spec krl ca f S I i rc oom : krl_ok krl -> krl_certs krl !! i = Some rc -> ca_eq ca (rc_ca_key rc) = true ->
  adding S I f -> exists r krl' oom', at_rc krl i f oom = (Ok (r, krl'), oom') /\ outcome krl ca S I oom r krl'.
Proof.
  intros K H E F. unfold at_rc. rewrite H. pose proof (ok_certs _ K) as O. rewrite Forall_forall in O.
  destruct (F rc oom) as (r & rc' & o' & Ef & Hf); [by apply O; eapply list_elem_of_lookup_2|].
  rewrite (bind_ok _ _ _ _ _ Ef). eexists r, _, o'. split; [done|]. destruct Hf as [[-> A]|(-> & -> & Hm)]; [left|right].
  - split; [done|]. by eapply adds_extends.
  - split_and!; [done| |done]. rewrite list_insert_id by done.
    assert (set_certs (krl_certs krl) krl = krl) as -> by (by destruct krl). by apply extends_refl.
Qed.

Lemma new_ca_extends krl ca ca' : krl_ok krl -> Forall (fun rc => ca_eq ca (rc_ca_key rc) = false) (krl_certs krl) ->
  ca_eq ca ca' = true -> extends krl (set_certs (krl_certs krl ++ [mk_rc ca' [] []]) krl) ca nothing nothing.
Proof.
  intros K F E. split; [|..|done|done|done|done].
  - apply certs_ok; [done|..].
    + apply Forall_app. split; [apply K|]. repeat constructor.
    + rewrite fmap_app. apply distinct_snoc; [apply K|]. apply Forall_fmap. eapply Forall_impl; [exact F|]. cbn. intros rc Hf.
      apply not_true_iff_false. intros Hc. apply not_true_iff_false in Hf. apply Hf. by apply (ca_trans _ ca').
  - intros c x. unfold serial_of. cbn [krl_certs set_certs]. setoid_rewrite elem_of_app. split.
    + intros (rc & [H | ->%list_elem_of_singleton] & Ec & C); [left; by exists rc|by apply covers_nil in C].
    + intros [(rc & H & Ec & C)|[_ []]]. exists rc. auto.
  - intros c x. unfold id_of. cbn [krl_certs set_certs]. setoid_rewrite elem_of_app. split.
    + intros (rc & [H | ->%list_elem_of_singleton] & Ec & C); [left; by exists rc|by apply elem_of_nil in C].
    + intros [(rc & H & Ec & C)|[_ []]]. exists rc. auto.
Qed.

Lemma alloc_cases oom : exists ok o, alloc oom = (Ok ok, o) /\ (ok = false -> false ∈ oom) /\ (forall b, b ∈ o -> b ∈ oom).
Proof.
  destruct oom as [|b o]; [by exists true, []|]. exists b, o. split_and!; [done|intros ->; left|by right].
Qed.

Lemma bind_bind {St A B C} (m : M St A) (k : A -> M St B) (h : B -> M St C) s :
  ((m ≫= k) ≫= h) s = (m ≫= (fun a => k a ≫= h)) s.
Proof. unfold mbind, M_bind. by destruct (m s) as [[]]. Qed.

(** An operation on the entry of an authority: either it fails, for want of
    memory, and adds nothing, or it adds what [f] adds. *)
Lemma with_ca_spec krl ca f S I oom : krl_ok krl -> adding S I f ->
  exists r krl' oom', with_ca krl ca f oom = (Ok (r, krl'), oom') /\ outcome krl ca S I oom r krl'.
Proof.
  intros K F. unfold with_ca, revoked_certs_for_ca_key. pose proof (find_ca_spec ca (krl_certs krl) 0) as FC.
  destruct (find_ca ca (krl_certs krl) 0) as [j|].
  - destruct FC as (i & rc & -> & H & E). by apply (at_rc_spec krl ca f S I i rc).
  - cbn [negb]. assert (exists ca', (match ca with None => inr None | Some k => match sshkey_from_private k with inl e => inl e | inr d => inr (Some d) end end : Z + option sshkey) = inr ca' /\ ca_eq ca ca' = true) as (ca' & Eca & E).
    { destruct ca as [k|]; [|by exists None]. destruct (copy_exists k) as [d Hd]. rewrite Hd. exists (Some d). split; [done|]. by apply copy_equal. }
    destruct (alloc_cases oom) as (ok & o1 & EA & Hf & Hs). rewrite bind_bind, (bind_ok _ _ _ _ _ EA). destruct ok; cbn [negb].
    2:{ eexists _, _, _. split; [reflexivity|]. right. split_and!; [done|by apply extends_refl|by apply Hf]. }
    rewrite Eca. pose proof (new_ca_extends krl ca ca' K FC E) as X. set (krl1 := set_certs _ krl) in *.
    destruct (at_rc_spec krl1 ca f S I (length (krl_certs krl)) (mk_rc ca' [] []) o1) as (r & krl' & oom' & Er & H);
      [apply X|cbn [krl1 krl_certs set_certs]; by apply list_lookup_middle|exact E|exact F|].
    exists r, krl', oom'. split; [exact Er|]. destruct H as [[-> H]|(-> & H & M)]; [left|right]; split_and!; auto;
      by apply (extends_after _ krl1).
Qed.
End Inv.

(** * Revocation lists: a key is refused exactly when it was revoked *)

Section Thms.
Context (nids : curve_nids) (met : list revoked_serial -> revoked_serial -> nat).
Context {KO : KeyOps} {KK : KrlKeys} {KL : KrlKeyLaws}.
Implicit Types (krl : ssh_krl) (ca : option sshkey) (rc : revoked_certs).

(** ** The operations *)

Lemma normal_positive t : normal t -> (forall x, covers t x -> 1 <= x) -> Forall (fun r => 1 <= rs_lo r) t.
Proof.
  intros [O _] H. rewrite Forall_forall in O |- *. intros r Hr. apply H. apply Exists_exists. exists r. split; [done|].
  specialize (O r Hr). unfold rs_ok, in_rs in *. lia.
Qed.

Lemma positive_covers t x : Forall (fun r => 1 <= rs_lo r) t -> covers t x -> 1 <= x.
Proof. intros F C. apply Exists_exists in C as (r & Hr & ? & ?). rewrite Forall_forall in F. specialize (F r Hr). cbn in F. lia. Qed.

Lemma range_adding lo hi : 1 <= lo <= hi -> hi < 2 ^ 64 ->
  adding (fun x => lo <= x <= hi) nothing (fun rc =>
    '(r, s) ← insert_serial_range met (revoked_serials rc) lo hi; mret (r, mk_rc (rc_ca_key rc) s (revoked_key_ids rc))).
Proof.
  intros L1 L2 rc o (N & P & Ids).
  destruct (insert_spec met (revoked_serials rc) lo hi o) as (r & t & o' & E & H); [done|unfold rs_ok; cbn; lia|].
  rewrite (bind_ok _ _ _ _ _ E). eexists r, _, o'. split; [done|]. destruct H as [(-> & N' & C)|(-> & -> & M)]; [left|right].
  - split; [done|]. split_and!; try done; [|intros i; tauto]. split_and!; [done| |done]. apply normal_positive; [done|].
    intros x [Hx|Hx]%C; [by apply (positive_covers _ _ P)|lia].
  - by destruct rc.
Qed.

Lemma range_spec krl ca lo hi oom : krl_ok krl -> 0 <= lo -> hi < 2 ^ 64 ->
  exists r krl' oom', ssh_krl_revoke_cert_by_serial_range met krl ca lo hi oom = (Ok (r, krl'), oom') /\
    ((hi < lo \/ lo = 0) /\ r = SSH_ERR_INVALID_ARGUMENT /\ krl' = krl \/
     1 <= lo <= hi /\ outcome krl ca (fun x => lo <= x <= hi) nothing oom r krl').
Proof.
  intros K L H. unfold ssh_krl_revoke_cert_by_serial_range. rewrite Z.gtb_ltb. destruct ((hi <? lo) || (lo =? 0)) eqn:E.
  - eexists _, _, _. split; [done|]. left. split; [|done]. apply orb_true_iff in E. lia.
  - apply orb_false_iff in E. edestruct with_ca_spec as (r & krl' & oom' & Ew & Ho); [done|apply (range_adding lo hi); lia|].
    exists r, krl', oom'. split; [exact Ew|]. right. split; [lia|exact Ho].
Qed.

Lemma id_adding id : text id -> adding nothing (fun i => i = id) (fun rc =>
  ok ← alloc;
  d ← (if (ok : bool) then strdup id else mret None);
  match d with
  | None => mret (SSH_ERR_ALLOC_FAIL, rc)
  | Some d => mret (0, mk_rc (rc_ca_key rc) (revoked_serials rc) (tree_add key_id_cmp d (revoked_key_ids rc)))
  end).
Proof.
  intros T rc o (N & P & Ids). destruct (alloc_cases o) as (ok & o1 & EA & Hf & Hs). rewrite (bind_ok _ _ _ _ _ EA).
  destruct ok; [|eexists _, _, _; split; [reflexivity|]; right; auto].
  destruct (alloc_cases o1) as (ok2 & o2 & EA2 & Hf2 & _). unfold strdup. rewrite bind_bind, (bind_ok _ _ _ _ _ EA2).
  destruct ok2; (eexists _, _, _; split; [reflexivity|]); [left|right; auto].
  split; [done|]. split_and!; [done| |intros x; tauto|].
  - split_and!; [done|done|]. by apply (add_ordered key_id_cmp text).
  - intros i. cbn [revoked_key_ids]. rewrite (add_in key_id_cmp text) by done. tauto.
Qed.

Lemma id_spec krl ca id oom : krl_ok krl -> text id ->
  exists r krl' oom', ssh_krl_revoke_cert_by_key_id krl ca id oom = (Ok (r, krl'), oom') /\
    outcome krl ca nothing (fun i => i = id) oom r krl'.
Proof. intros K T. apply with_ca_spec; [done|by apply id_adding]. Qed.

(** Trees of blobs. *)
Lemma blob_spec t b oom : ordered blob_cmp (fun _ => True) t ->
  exists r t' oom', revoke_blob t b oom = (Ok (r, t'), oom') /\
    (r = 0 /\ t' = tree_add blob_cmp b t \/ r = SSH_ERR_ALLOC_FAIL /\ t' = t /\ false ∈ oom).
Proof.
  intros O. unfold revoke_blob. destruct (alloc_cases oom) as (ok & o1 & EA & Hf & _). rewrite (bind_ok _ _ _ _ _ EA).
  destruct ok; (eexists _, _, _; split; [reflexivity|]); [by left|right; auto].
Qed.

Lemma hash_spec t h oom : ordered blob_cmp (fun _ => True) t ->
  exists r t' oom', revoke_by_hash t h oom = (Ok (r, t'), oom') /\
    (r = 0 /\ t' = tree_add blob_cmp h t \/ r <> 0 /\ t' = t /\ false ∈ oom).
Proof.
  intros O. unfold revoke_by_hash. destruct (alloc_cases oom) as (ok & o1 & EA & Hf & Hs). rewrite (bind_ok _ _ _ _ _ EA).
  destruct ok; [|eexists _, _, _; split; [reflexivity|]; right; auto].
  destruct (blob_spec t h o1 O) as (r & t' & o2 & E & H). exists r, t', o2. split; [done|].
  destruct H as [?|(-> & -> & M)]; [by left|right; auto].
Qed.

(** ** Revocations, and what they mean *)

Inductive revocation :=
| R_serials (ca : option sshkey) (lo hi : Z)
| R_id (ca : option sshkey) (id : list Z)
| R_key (key : sshkey)
| R_sha1 (h : list Z)
| R_sha256 (h : list Z).

Definition revoke (o : revocation) krl : AM (Z * ssh_krl) :=
  match o with
  | R_serials ca lo hi => ssh_krl_revoke_cert_by_serial_range met krl ca lo hi
  | R_id ca id => ssh_krl_revoke_cert_by_key_id krl ca id
  | R_key key => ssh_krl_revoke_key_explicit nids krl key
  | R_sha1 h => ssh_krl_revoke_key_sha1 krl h
  | R_sha256 h => ssh_krl_revoke_key_sha256 krl h
  end.

(** Arguments of the C types. *)
Definition revocation_ok (o : revocation) : Prop :=
  match o with
  | R_serials _ lo hi => 0 <= lo < 2 ^ 64 /\ 0 <= hi < 2 ^ 64
  | R_id _ id => text id
  | _ => True
  end.

(** What is not refused. *)
Definition accepted (o : revocation) : Prop :=
  match o with
  | R_serials _ lo hi => 0 < lo <= hi
  | R_id _ _ => True
  | R_key key => exists b, plain_key_blob nids key = inr b
  | R_sha1 h => zlen h = 20
  | R_sha256 h => zlen h = 32
  end.

(** The revocations in turn, up to the first that fails. *)
Fixpoint revoke_all (os : list revocation) krl : AM (Z * ssh_krl) :=
  match os with
  | [] => mret (0, krl)
  | o :: os => '(r, krl) ← revoke o krl; if negb (r =? 0) then mret (r, krl) else revoke_all os krl
  end.

(** Whether a revocation applies to a key as such (its authority aside). *)
Definition applies (o : revocation) (key : sshkey) : Prop :=
  match o with
  | R_serials ca lo hi => sshkey_is_cert nids key = true /\
      exists id serial sk, key_cert key = Some (id, serial, sk) /\ lo <= serial <= hi /\ (ca = None \/ ca_eq (Some sk) ca = true)
  | R_id ca id => sshkey_is_cert nids key = true /\
      exists serial sk, key_cert key = Some (id, serial, sk) /\ (ca = None \/ ca_eq (Some sk) ca = true)
  | R_key k => exists b, plain_key_blob nids k = inr b /\ plain_key_blob nids key = inr b
  | R_sha1 h => sshkey_fingerprint_raw key SSH_DIGEST_SHA1 = inr h
  | R_sha256 h => sshkey_fingerprint_raw key SSH_DIGEST_SHA256 = inr h
  end.

(** A key, or a certificate whose authority, was revoked. *)
Definition revoked_by (os : list revocation) (key : sshkey) : Prop :=
  Exists (fun o => applies o key) os \/
  sshkey_is_cert nids key = true /\ exists id serial sk, key_cert key = Some (id, serial, sk) /\ Exists (fun o => applies o sk) os.

(** A key whose digests can be computed, and with a certificate if its type
    says so. *)
Definition key_ok (key : sshkey) : Prop :=
  is_Some (match sshkey_fingerprint_raw key SSH_DIGEST_SHA1, sshkey_fingerprint_raw key SSH_DIGEST_SHA256,
                 plain_key_blob nids key with inr _, inr _, inr _ => Some tt | _, _, _ => None end) /\
  (sshkey_is_cert nids key = true -> exists id serial sk, key_cert key = Some (id, serial, sk) /\ text id /\ 0 <= serial < 2 ^ 64).

(** ** The state agrees with the revocations *)

Record agrees (os : list revocation) krl : Prop := mk_agrees {
  ag_ok : krl_ok krl;
  ag_keys : forall b, b ∈ revoked_keys krl <-> exists k, R_key k ∈ os /\ plain_key_blob nids k = inr b;
  ag_sha1s : forall h, h ∈ revoked_sha1s krl <-> R_sha1 h ∈ os;
  ag_sha256s : forall h, h ∈ revoked_sha256s krl <-> R_sha256 h ∈ os;
  ag_serials : forall c x, serial_of krl c x <-> exists ca lo hi, R_serials ca lo hi ∈ os /\ ca_eq c ca = true /\ lo <= x <= hi;
  ag_ids : forall c i, id_of krl c i <-> exists ca, R_id ca i ∈ os /\ ca_eq c ca = true
}.

Definition init_krl : ssh_krl := mk_krl 0 0 0 None [] [] [] [].

Lemma agrees_init : agrees [] init_krl.
Proof.
  split.
  - split; try done; repeat split; try done; constructor.
  - intros b. split; [by intros ?%elem_of_nil|]. intros (k & H & _). by apply elem_of_nil in H.
  - intros h. split; by intros ?%elem_of_nil.
  - intros h. split; by intros ?%elem_of_nil.
  - intros c x. split; [intros (rc & H & _)|intros (? & ? & ? & H & _)]; by apply elem_of_nil in H.
  - intros c x. split; [intros (rc & H & _)|intros (? & H & _)]; by apply elem_of_nil in H.
Qed.

Lemma plain_error key e : plain_key_blob nids key = inl e -> e <> 0.
Proof.
  unfold plain_key_blob. destruct (copy_exists key) as [d ->]. destruct (sshkey_is_cert nids d); [|apply to_blob_error].
  destruct (sshkey_drop_cert d) eqn:E; [intros [= <-]; by eapply drop_cert_error|apply to_blob_error].
Qed.

(** The operations on entries of authorities. *)
Lemma agrees_extends os krl krl' o ca (S : Z -> Prop) (I : list Z -> Prop) : agrees os krl -> extends krl krl' ca S I ->
  (forall c x, (exists ca lo hi, R_serials ca lo hi ∈ os ++ [o] /\ ca_eq c ca = true /\ lo <= x <= hi) <->
     (exists ca lo hi, R_serials ca lo hi ∈ os /\ ca_eq c ca = true /\ lo <= x <= hi) \/ ca_eq c ca = true /\ S x) ->
  (forall c i, (exists ca, R_id ca i ∈ os ++ [o] /\ ca_eq c ca = true) <->
     (exists ca, R_id ca i ∈ os /\ ca_eq c ca = true) \/ ca_eq c ca = true /\ I i) ->
  (match o with R_serials _ _ _ | R_id _ _ => True | _ => False end) -> agrees (os ++ [o]) krl'.
Proof.
  intros A X HS HI Ho. destruct A, X. split; [done|..].
  - intros b. rewrite ex_keys0, ag_keys0. setoid_rewrite elem_of_app. split.
    + intros (k & ? & ?). exists k. tauto.
    + intros (k & [?|H%list_elem_of_singleton] & ?); [by exists k|by subst o].
  - intros b. rewrite ex_sha1s0, ag_sha1s0, elem_of_app. split; [by left|]. intros [?|H%list_elem_of_singleton]; [done|by subst o].
  - intros b. rewrite ex_sha256s0, ag_sha256s0, elem_of_app. split; [by left|]. intros [?|H%list_elem_of_singleton]; [done|by subst o].
  - intros c x. by rewrite ex_serial0, ag_serials0, HS.
  - intros c x. by rewrite ex_id0, ag_ids0, HI.
Qed.

Lemma agrees_nothing os krl krl' ca : agrees os krl -> extends krl krl' ca nothing nothing -> agrees os krl'.
Proof.
  intros [] []. split; [done|by rewrite ex_keys0|by rewrite ex_sha1s0|by rewrite ex_sha256s0|..].
  - intros c x. rewrite ex_serial0, <- ag_serials0. tauto.
  - intros c x. rewrite ex_id0, <- ag_ids0. tauto.
Qed.

Lemma agrees_outcome os krl krl' o ca S I oom r : agrees os krl -> outcome krl ca S I oom r krl' ->
  (extends krl krl' ca S I -> agrees (os ++ [o]) krl') ->
  (r = 0 -> agrees (os ++ [o]) krl') /\ (r <> 0 -> agrees os krl' /\ (false ∈ oom \/ ~ accepted o)).
Proof.
  intros A [[-> X]|(-> & X & M)] H; [by split; [intros _; apply H|]|]. split; [done|]. intros _. split; [by eapply agrees_nothing|by left].
Qed.

Lemma elem_snoc {A} (x o : A) os : x ∈ os ++ [o] <-> x ∈ os \/ x = o.
Proof. by rewrite elem_of_app, list_elem_of_singleton. Qed.

(** The operations on trees of blobs. *)
Lemma agrees_blobs os krl krl' o : agrees os krl -> krl_ok krl' -> krl_certs krl' = krl_certs krl ->
  (match o with R_serials _ _ _ | R_id _ _ => False | _ => True end) ->
  (forall b, b ∈ revoked_keys krl' <-> exists k, R_key k ∈ os ++ [o] /\ plain_key_blob nids k = inr b) ->
  (forall h, h ∈ revoked_sha1s krl' <-> R_sha1 h ∈ os ++ [o]) ->
  (forall h, h ∈ revoked_sha256s krl' <-> R_sha256 h ∈ os ++ [o]) -> agrees (os ++ [o]) krl'.
Proof.
  intros A K E Ho H1 H2 H3. destruct A. split; try done.
  - intros c x. unfold serial_of in *. rewrite E, ag_serials0. split; intros (ca & lo & hi & H & ? & ?); exists ca, lo, hi.
    + by rewrite elem_snoc; auto.
    + apply elem_snoc in H as [?|<-]; done.
  - intros c x. unfold id_of in *. rewrite E, ag_ids0. split; intros (ca & H & ?); exists ca.
    + by rewrite elem_snoc; auto.
    + apply elem_snoc in H as [?|<-]; done.
Qed.

Lemma keys_snoc os krl o b : agrees os krl -> (forall k, o <> R_key k) ->
  b ∈ revoked_keys krl <-> exists k, R_key k ∈ os ++ [o] /\ plain_key_blob nids k = inr b.
Proof.
  intros A N. rewrite (ag_keys _ _ A). split; intros (k & H & ?); exists k; rewrite elem_snoc in *; [by auto|].
  destruct H as [?|E]; [done|]. by destruct (N k).
Qed.

Lemma set_same krl : set_keys (revoked_keys krl) krl = krl /\ set_sha1s (revoked_sha1s krl) krl = krl /\
  set_sha256s (revoked_sha256s krl) krl = krl.
Proof. by destruct krl. Qed.

(** A revocation that is made adds itself; one that is refused, or that lacks
    memory, changes nothing. *)
Definition steps os krl (o : revocation) (oom : list bool) : Prop :=
  exists r krl' oom', revoke o krl oom = (Ok (r, krl'), oom') /\
    (r = 0 -> agrees (os ++ [o]) krl') /\ (r <> 0 -> agrees os krl' /\ (false ∈ oom \/ ~ accepted o)).

Lemma step_serials os krl ca lo hi oom : agrees os krl -> revocation_ok (R_serials ca lo hi) -> steps os krl (R_serials ca lo hi) oom.
Proof.
  intros A Ho. pose proof (ag_ok _ _ A) as K. unfold steps. cbn [revoke revocation_ok] in *.
  destruct (range_spec krl ca lo hi oom K) as (r & krl' & oom' & E & H); [lia..|]. exists r, krl', oom'. split; [done|].
  destruct H as [(L & -> & ->)|[L H]]; [split; [done|]; intros _; split; [done|]; right; cbn; lia|]. eapply agrees_outcome; [done|exact H|]. intros X.
  eapply agrees_extends; [done|exact X| | |done].
  + intros c x. split.
    * intros (ca' & lo' & hi' & [? | [= -> -> ->]%list_elem_of_singleton]%elem_of_app & ? & ?); [left; by eexists _, _, _|by right].
    * intros [(ca' & lo' & hi' & ? & ? & ?)|[? ?]]; [exists ca', lo', hi'|exists ca, lo, hi]; rewrite elem_of_app, list_elem_of_singleton; auto.
  + intros c x. split.
    * intros (ca' & [?|?%list_elem_of_singleton]%elem_of_app & ?); [left; by eexists|done].
    * intros [(ca' & ? & ?)|[? []]]. exists ca'. rewrite elem_of_app. auto.
Qed.

Lemma step_id os krl ca id oom : agrees os krl -> revocation_ok (R_id ca id) -> steps os krl (R_id ca id) oom.
Proof.
  intros A Ho. pose proof (ag_ok _ _ A) as K. unfold steps. cbn [revoke revocation_ok] in *.
  destruct (id_spec krl ca id oom K Ho) as (r & krl' & oom' & E & H). exists r, krl', oom'. split; [done|].
  eapply agrees_outcome; [done|exact H|]. intros X. eapply agrees_extends; [done|exact X| | |done].
  + intros c x. split.
    * intros (ca' & lo' & hi' & [?|?%list_elem_of_singleton]%elem_of_app & ? & ?); [left; by eexists _, _, _|done].
    * intros [(ca' & lo' & hi' & ? & ? & ?)|[? []]]. exists ca', lo', hi'. rewrite elem_of_app. auto.
  + intros c x. split.
    * intros (ca' & [? | [= -> ->]%list_elem_of_singleton]%elem_of_app & ?); [left; by eexists|by right].
    * intros [(ca' & ? & ?)|[? ->]]; [exists ca'|exists ca]; rewrite elem_of_app, list_elem_of_singleton; auto.
Qed.

Lemma step_key os krl key oom : agrees os krl -> revocation_ok (R_key key) -> steps os krl (R_key key) oom.
Proof.
  intros A Ho. pose proof (ag_ok _ _ A) as K. unfold steps. cbn [revoke revocation_ok] in *.
  unfold ssh_krl_revoke_key_explicit. destruct (plain_key_blob nids key) as [e|b] eqn:Eb.
  { eexists _, _, _. split; [done|]. split; [intros ->; by apply plain_error in Eb|]. intros _. split; [done|]. right. intros [b Hb]. congruence. }
  destruct (blob_spec (revoked_keys krl) b oom (ok_keys _ K)) as (r & t & oom' & E & H). rewrite (bind_ok _ _ _ _ _ E).
  eexists _, _, _. split; [done|]. destruct H as [[-> ->]|(-> & -> & M)]; [|split; [done|]; intros _; split; [|by left]; by rewrite (proj1 (set_same krl))].
  split; [|done]. intros _. apply (agrees_blobs os krl); [done|destruct K; split; try done; by apply (add_ordered _ (fun _ => True))|done|done| | |].
  + intros b'. cbn [revoked_keys set_keys]. rewrite (add_in _ (fun _ => True)), (ag_keys _ _ A) by (done || apply K). split.
    * intros [-> | (k & ? & ?)]; [exists key|exists k]; rewrite elem_snoc; auto.
    * intros (k & [?| [= ->]]%elem_snoc & Ek); [right; by exists k|left; congruence].
  + intros b'. rewrite elem_snoc. cbn. rewrite (ag_sha1s _ _ A). split; [by left|]. by intros [?|?].
  + intros b'. rewrite elem_snoc. cbn. rewrite (ag_sha256s _ _ A). split; [by left|]. by intros [?|?].
Qed.

Lemma step_sha1 os krl h oom : agrees os krl -> revocation_ok (R_sha1 h) -> steps os krl (R_sha1 h) oom.
Proof.
  intros A Ho. pose proof (ag_ok _ _ A) as K. unfold steps. cbn [revoke revocation_ok] in *.
  unfold ssh_krl_revoke_key_sha1. destruct (Z.eqb_spec (zlen h) 20) as [L|L]; cbn [negb]; [|eexists _, _, _; split; [done|]; split; [done|]; by auto].
  destruct (hash_spec (revoked_sha1s krl) h oom) as (r & t & oom' & E & H); [apply K|]. rewrite (bind_ok _ _ _ _ _ E).
  eexists _, _, _. split; [done|]. destruct H as [[-> ->]|(H & -> & M)]; [|split; [done|]; intros _; split; [|by left]; by rewrite (proj1 (proj2 (set_same krl)))].
  split; [|done]. intros _. apply (agrees_blobs os krl); [done|destruct K; split; try done|done|done|intros b; by apply (keys_snoc os krl)| |].
  + destruct ok_sha1s0 as [O F]. split; [by apply (add_ordered _ (fun _ => True))|]. rewrite Forall_forall in F |- *. intros x [-> | Hx]%(add_in _ (fun _ => True)); auto.
  + intros b'. cbn [revoked_sha1s set_sha1s]. rewrite elem_snoc, (add_in _ (fun _ => True)), (ag_sha1s _ _ A) by (done || apply K).
    split; [intros [-> | ?]|intros [?| [= ->]]]; auto.
  + intros b'. rewrite elem_snoc. cbn. rewrite (ag_sha256s _ _ A). split; [by left|]. by intros [?|?].
Qed.

Lemma step_sha256 os krl h oom : agrees os krl -> revocation_ok (R_sha256 h) -> steps os krl (R_sha256 h) oom.
Proof.
  intros A Ho. pose proof (ag_ok _ _ A) as K. unfold steps. cbn [revoke revocation_ok] in *.
  unfold ssh_krl_revoke_key_sha256. destruct (Z.eqb_spec (zlen h) 32) as [L|L]; cbn [negb]; [|eexists _, _, _; split; [done|]; split; [done|]; by auto].
  destruct (hash_spec (revoked_sha256s krl) h oom) as (r & t & oom' & E & H); [apply K|]. rewrite (bind_ok _ _ _ _ _ E).
  eexists _, _, _. split; [done|]. destruct H as [[-> ->]|(H & -> & M)]; [|split; [done|]; intros _; split; [|by left]; by rewrite (proj2 (proj2 (set_same krl)))].
  split; [|done]. intros _. apply (agrees_blobs os krl); [done|destruct K; split; try done|done|done|intros b; by apply (keys_snoc os krl)| |].
  + destruct ok_sha256s0 as [O F]. split; [by apply (add_ordered _ (fun _ => True))|]. rewrite Forall_forall in F |- *. intros x [-> | Hx]%(add_in _ (fun _ => True)); auto.
  + intros b'. rewrite elem_snoc. cbn. rewrite (ag_sha1s _ _ A). split; [by left|]. by intros [?|?].
  + intros b'. cbn [revoked_sha256s set_sha256s]. rewrite elem_snoc, (add_in _ (fun _ => True)), (ag_sha256s _ _ A) by (done || apply K).
    split; [intros [-> | ?]|intros [?| [= ->]]]; auto.
Qed.

Lemma step_agrees os krl o oom : agrees os krl -> revocation_ok o -> steps os krl o oom.
Proof. destruct o; [apply step_serials|apply step_id|apply step_key|apply step_sha1|apply step_sha256]. Qed.

(** ** Checking a key *)

Lemma check_ca_spec krl ca key id serial sk : krl_ok krl -> key_cert key = Some (id, serial, sk) -> text id -> 0 <= serial < 2 ^ 64 ->
  check_ca krl ca key = Some SSH_ERR_KEY_REVOKED /\ (id_of krl ca id \/ serial_of krl ca serial) \/
  check_ca krl ca key = Some 0 /\ ~ (id_of krl ca id \/ serial_of krl ca serial).
Proof.
  intros K C T R. unfold check_ca, id_of, serial_of. pose proof (find_ca_spec ca (krl_certs krl) 0) as F.
  destruct (find_ca ca (krl_certs krl) 0) as [j|].
  - destruct F as (i & rc & -> & H & E). cbn [Nat.add]. rewrite H. cbn [mbind option_bind].
    assert (rc ∈ krl_certs krl) as Hrc by (by eapply list_elem_of_lookup_2).
    pose proof (ok_certs _ K) as O. rewrite Forall_forall in O. destruct (O rc Hrc) as (N & P & Ids).
    assert (forall rc', rc' ∈ krl_certs krl -> ca_eq ca (rc_ca_key rc') = true -> rc' = rc) as U.
    { intros rc' H' E'. apply (distinct_same (krl_certs krl)); [apply K|done|done|]. apply (ca_trans _ ca); [by apply ca_sym|done]. }
    unfold is_cert_revoked. rewrite C. cbn [mbind option_bind].
    pose proof (find_in key_id_cmp text id _ T Ids) as FI. destruct (RB_FIND key_id_cmp id (revoked_key_ids rc)) eqn:EI.
    { left. split; [done|]. left. exists rc. split_and!; [done..|]. apply FI. by eexists. }
    assert (~ id ∈ revoked_key_ids rc) as NI by (intros [? ?]%FI; done).
    pose proof (find_covers serial _ R N) as FS. destruct (Z.eqb_spec serial 0) as [->|N0].
    { right. split; [done|]. intros [(rc' & ? & ? & ?)|(rc' & ? & ? & HC)]; rewrite (U rc') in * by done; [done|].
      apply (positive_covers _ _ P) in HC. lia. }
    destruct (RB_FIND serial_cmp (mk_rs serial serial) (revoked_serials rc)) eqn:ES.
    { left. split; [done|]. right. exists rc. split_and!; [done..|]. apply FS. by eexists. }
    right. split; [done|]. intros [(rc' & ? & ? & ?)|(rc' & ? & ? & HC)]; rewrite (U rc') in * by done; [done|].
    apply FS in HC as [? ?]. done.
  - right. split; [done|]. rewrite Forall_forall in F. intros [(rc & H & E & _)|(rc & H & E & _)]; rewrite F in E; done.
Qed.

Lemma revoked_in_spec digest t key b : ordered blob_cmp (fun _ => True) t -> digest key = inr b ->
  revoked_in digest t key = Some SSH_ERR_KEY_REVOKED /\ b ∈ t \/ revoked_in digest t key = None /\ b ∉ t.
Proof.
  intros O E. unfold revoked_in. rewrite E. pose proof (find_in blob_cmp (fun _ => True) b t I O) as F.
  destruct (RB_FIND blob_cmp b t); [left|right]; (split; [done|]); [apply F; by eexists|]. intros [? ?]%F. done.
Qed.

(** By serial number or key ID. *)
Definition of_cert (o : revocation) : Prop := match o with R_serials _ _ _ | R_id _ _ => True | _ => False end.

(** For a certificate: its entry for the authority, and the one for any. *)
Lemma certs_spec os krl key id serial sk : agrees os krl -> sshkey_is_cert nids key = true ->
  key_cert key = Some (id, serial, sk) -> text id -> 0 <= serial < 2 ^ 64 ->
  let r := (r ← check_ca krl (Some sk) key; if negb (r =? 0) then Some r else check_ca krl None key) in
  r = Some SSH_ERR_KEY_REVOKED /\ (exists o, o ∈ os /\ applies o key) \/
  r = Some 0 /\ ~ exists o, o ∈ os /\ applies o key /\ of_cert o.
Proof.
  intros A EC Ec T R. pose proof (ag_ok _ _ A) as K.
  assert (forall ca', ca' = None \/ ca' = Some sk -> id_of krl ca' id \/ serial_of krl ca' serial -> exists o, o ∈ os /\ applies o key) as To.
  { intros ca' Hca [(ca & Ho & E)%(ag_ids _ _ A)|(ca & lo & hi & Ho & E & L)%(ag_serials _ _ A)].
    - exists (R_id ca id). split; [done|]. split; [done|]. exists serial, sk. split; [done|]. destruct Hca as [-> | ->]; [left; by destruct ca|by right].
    - exists (R_serials ca lo hi). split; [done|]. split; [done|]. exists id, serial, sk. split_and!; [done|lia..|].
      destruct Hca as [-> | ->]; [left; by destruct ca|by right]. }
  destruct (check_ca_spec krl (Some sk) key id serial sk) as [[-> H]|[-> N]]; [done..|cbn; left; split; [done|by eapply To, H; right]|].
  cbn [mbind option_bind negb Z.eqb].
  destruct (check_ca_spec krl None key id serial sk) as [[-> H]|[-> N']]; [done..|left; split; [done|by eapply To, H; left]|].
  right. split; [done|]. intros (o & Ho & Ha & W).
  destruct o as [ca lo hi|ca id'|k|h|h]; [| |done..]; destruct Ha as [_ Ha].
  - destruct Ha as (id' & serial' & sk' & Ec' & L & Hc). rewrite Ec in Ec'. injection Ec' as <- <- <-.
    destruct Hc as [->|Hc]; [apply N'|apply N]; right; apply (ag_serials _ _ A); eexists _, lo, hi; (split_and!; [exact Ho|done|lia..]).
  - destruct Ha as (serial' & sk' & Ec' & Hc). rewrite Ec in Ec'. injection Ec' as <- <- <-.
    destruct Hc as [->|Hc]; [apply N'|apply N]; left; apply (ag_ids _ _ A); eexists; (split; [exact Ho|done]).
Qed.

(** For one key, its authority aside. *)
Lemma is_key_revoked_spec os krl key : agrees os krl -> key_ok key ->
  is_key_revoked nids krl key = Some SSH_ERR_KEY_REVOKED /\ Exists (fun o => applies o key) os \/
  is_key_revoked nids krl key = Some 0 /\ ~ Exists (fun o => applies o key) os.
Proof.
  intros A [D C]. pose proof (ag_ok _ _ A) as K. rewrite Exists_exists.
  destruct (sshkey_fingerprint_raw key SSH_DIGEST_SHA1) as [|h1] eqn:E1; [by destruct D|].
  destruct (sshkey_fingerprint_raw key SSH_DIGEST_SHA256) as [|h2] eqn:E2; [by destruct D|].
  destruct (plain_key_blob nids key) as [|b] eqn:E3; [by destruct D|]. clear D. unfold is_key_revoked.
  destruct (revoked_in_spec (fun k => sshkey_fingerprint_raw k SSH_DIGEST_SHA1) (revoked_sha1s krl) key h1) as [[-> H1]|[-> N1]]; [apply K|done|..].
  { left. split; [done|]. exists (R_sha1 h1). split; [by apply (ag_sha1s _ _ A)|done]. }
  destruct (revoked_in_spec (fun k => sshkey_fingerprint_raw k SSH_DIGEST_SHA256) (revoked_sha256s krl) key h2) as [[-> H2]|[-> N2]]; [apply K|done|..].
  { left. split; [done|]. exists (R_sha256 h2). split; [by apply (ag_sha256s _ _ A)|done]. }
  destruct (revoked_in_spec (plain_key_blob nids) (revoked_keys krl) key b) as [[-> H3]|[-> N3]]; [apply K|done|..].
  { left. split; [done|]. apply (ag_keys _ _ A) in H3 as (k & Hk & Eb). exists (R_key k). split; [done|]. by exists b. }
  rewrite (ag_sha1s _ _ A) in N1. rewrite (ag_sha256s _ _ A) in N2. rewrite (ag_keys _ _ A) in N3.
  assert (forall o, o ∈ os -> applies o key -> sshkey_is_cert nids key = true /\ of_cert o) as Only.
  { intros o Ho Ha. destruct o as [ca lo hi|ca id|k|h|h]; cbn in Ha |- *; [tauto|tauto|exfalso..].
    - destruct Ha as (b' & Hk & Hb). destruct N3. exists k. split; [done|congruence].
    - rewrite E1 in Ha. injection Ha as ->. done.
    - rewrite E2 in Ha. injection Ha as ->. done. }
  destruct (sshkey_is_cert nids key) eqn:EC; cbn [negb].
  - destruct (C eq_refl) as (id & serial & sk & Ec & T & R). rewrite Ec. cbn [mbind option_bind].
    destruct (certs_spec os krl key id serial sk A EC Ec T R) as [[E H]|[E H]]; [by left|right]. split; [exact E|].
    intros (o & Ho & Ha). apply H. exists o. by destruct (Only o Ho Ha).
  - right. split; [done|]. intros (o & Ho & Ha). by destruct (Only o Ho Ha).
Qed.

(** ** Sequences of revocations *)

(** The answers of the allocator are used up from the front. *)
Definition drains {A} (m : AM A) : Prop := forall oom, (m oom).2 `suffix_of` oom.

Lemma drains_ret {A} (x : A) : drains (mret x).
Proof. intros oom. reflexivity. Qed.

Lemma drains_crash {A} : drains (crash : AM A).
Proof. intros oom. reflexivity. Qed.

Lemma drains_alloc : drains alloc.
Proof. intros [|b oom]; [reflexivity|]. cbn. apply suffix_cons_r. reflexivity. Qed.

Lemma drains_bind {A B} (m : AM A) (f : A -> AM B) : drains m -> (forall x, drains (f x)) -> drains (m ≫= f).
Proof.
  intros H F oom. unfold mbind, M_bind. pose proof (H oom) as Hm. destruct (m oom) as [[x|e|] o]; cbn in *; [|done..].
  etrans; [apply F|done].
Qed.

Ltac drain := repeat first
  [apply drains_ret | apply drains_crash | apply drains_alloc | (apply drains_bind; [|intros ?]) | progress case_match].

Lemma revoke_drains o krl : drains (revoke o krl).
Proof.
  assert (forall krl ca f, (forall rc, drains (f rc)) -> drains (with_ca krl ca f)) as W.
  { intros k c f F. unfold with_ca, revoked_certs_for_ca_key, at_rc. repeat first [apply F | progress drain]. }
  destruct o; cbn [revoke]; unfold ssh_krl_revoke_cert_by_serial_range, ssh_krl_revoke_cert_by_key_id, ssh_krl_revoke_key_explicit,
    ssh_krl_revoke_key_sha1, ssh_krl_revoke_key_sha256, revoke_by_hash, revoke_blob.
  - destruct (_ || _); [drain|]. apply W. intros rc. unfold insert_serial_range. drain.
  - apply W. intros rc. unfold strdup. drain.
  - drain.
  - drain.
  - drain.
Qed.

Lemma drains_false {A} (m : AM A) oom : drains m -> false ∈ (m oom).2 -> false ∈ oom.
Proof. intros H M. destruct (H oom) as [k E]. rewrite E, elem_of_app. by right. Qed.

(** All of them, or those before the first that fails: for want of memory, or
    because it is not accepted. *)
Lemma revoke_all_agrees os : forall os0 krl oom, agrees os0 krl -> Forall revocation_ok os ->
  exists n r krl' oom', revoke_all os krl oom = (Ok (r, krl'), oom') /\ agrees (os0 ++ take n os) krl' /\
    (r = 0 /\ n = length os \/ r <> 0 /\ exists o, os !! n = Some o /\ (false ∈ oom \/ ~ accepted o)).
Proof.
  induction os as [|o os IH]; intros os0 krl oom A F; cbn [revoke_all].
  { exists 0%nat, 0, krl, oom. rewrite app_nil_r. auto. }
  apply Forall_cons in F as [Ho F]. destruct (step_agrees os0 krl o oom A Ho) as (r & krl1 & oom1 & E & H1 & H2).
  rewrite (bind_ok _ _ _ _ _ E). destruct (Z.eqb_spec r 0) as [->|Nr]; cbn [negb].
  - destruct (IH (os0 ++ [o]) krl1 oom1) as (n & r & krl2 & oom2 & E2 & A2 & C); [by apply H1|done|].
    exists (S n), r, krl2, oom2. split; [done|]. cbn. rewrite <- app_assoc in A2. split; [done|].
    destruct C as [[-> ->]|(Nr & o' & Hn & M)]; [by left|right]. split; [done|]. exists o'. split; [done|].
    destruct M as [M|M]; [left|by right]. apply (drains_false (revoke o krl)); [apply revoke_drains|by rewrite E].
  - destruct (H2 Nr) as [A1 M]. exists 0%nat, r, krl1, oom1. rewrite app_nil_r. split_and!; [done..|]. right. split; [done|]. by exists o.
Qed.

(** A key, and its authority if it is a certificate, as [key_ok]. *)
Definition whole_key_ok (key : sshkey) : Prop :=
  key_ok key /\ forall id serial sk, sshkey_is_cert nids key = true -> key_cert key = Some (id, serial, sk) -> key_ok sk.

Lemma krl_check_spec os krl key : agrees os krl -> whole_key_ok key ->
  ssh_krl_check_key nids krl key = Some SSH_ERR_KEY_REVOKED /\ revoked_by os key \/
  ssh_krl_check_key nids krl key = Some 0 /\ ~ revoked_by os key.
Proof.
  intros A [O OC]. unfold ssh_krl_check_key, revoked_by.
  destruct (is_key_revoked_spec os krl key A O) as [[-> H]|[-> N]]; cbn [mbind option_bind]; [left; split; [done|by left]|].
  cbn [negb Z.eqb]. destruct (sshkey_is_cert nids key) eqn:EC; [|right; split; [done|]; by intros [?|[? _]]].
  destruct O as [_ O]. destruct (O EC) as (id & serial & sk & Ec & _ & _). rewrite Ec. cbn [mbind option_bind].
  destruct (is_key_revoked_spec os krl sk A) as [[-> H]|[-> N']]; [by eapply OC| |].
  - left. split; [done|]. right. split; [done|]. by exists id, serial, sk.
  - right. split; [done|]. intros [?|(_ & id' & serial' & sk' & [= <- <- <-] & ?)]; done.
Qed.

(** C7: revocations by range of serial numbers, by key ID, by key and by
    digest, in any order and for any authorities, on a list that was empty:
    they are made in turn up to the first that is refused or that lacks memory,
    and with those made ssh_krl_check_key reports a key as revoked exactly if
    one of them applies to the key, or to the authority of the certificate that
    the key is; other keys it passes. *)
Theorem checks_what_was_revoked os oom : Forall revocation_ok os ->
  exists n r krl' oom', revoke_all os init_krl oom = (Ok (r, krl'), oom') /\
    (r = 0 /\ n = length os \/ r <> 0 /\ exists o, os !! n = Some o /\ (false ∈ oom \/ ~ accepted o)) /\
    forall key, whole_key_ok key ->
      ssh_krl_check_key nids krl' key = Some SSH_ERR_KEY_REVOKED /\ revoked_by (take n os) key \/
      ssh_krl_check_key nids krl' key = Some 0 /\ ~ revoked_by (take n os) key.
Proof.
  intros F. destruct (revoke_all_agrees os [] init_krl oom agrees_init F) as (n & r & krl' & oom' & E & A & C).
  exists n, r, krl', oom'. split_and!; [done..|]. intros key. by apply krl_check_spec.
Qed.

End Thms.

Module Demo.

(** Keys are strings; a certificate begins with 1, its serial number and its
    authority. *)
#[export] Instance keys : KeyOps := {|
  sshkey := list Z;
  key_type := fun k => if at_ k 0 =? 1 then KEY_ED25519_CERT else KEY_ED25519;
  key_ecdsa_nid := fun _ => -1;
  sshkey_from_blob := fun b => if bool_decide (b = []) then inl SSH_ERR_INVALID_FORMAT else inr b;
  sshkey_to_blob := fun b => if bool_decide (b = []) then inl SSH_ERR_INVALID_FORMAT else inr b;
  sshkey_from_private := inr;
  sshkey_equal := fun a b => bool_decide (a = b);
  sshkey_equal_public := fun a b => bool_decide (a = b);
  sshkey_check_cert_sigtype := fun _ _ => true;
  sshkey_check_rsa_length := fun _ _ => true;
  sshkey_cert_check_host := fun _ _ _ => false;
  sshkey_type := fun _ => str "ED25519";
  key_cert := fun k => if at_ k 0 =? 1 then Some (str "joe", u64 (at_ k 1), drop 2 k) else None;
  sshkey_fingerprint := fun k => Some k;
  sshkey_format_text := inr;
  sshkey_verify := fun k sg data _ _ => if bool_decide (sg = k ++ data) then inr None else inl SSH_ERR_SIGNATURE_INVALID
|}.

#[export] Instance krl_keys : KrlKeys := {|
  sshkey_drop_cert := fun k => inr (0 :: drop 1 k);
  sshkey_fingerprint_raw := fun k alg => inr (take (Z.to_nat (if alg =? SSH_DIGEST_SHA1 then 20 else 32)) (k ++ replicate 32 0))
|}.

#[export] Instance laws : KrlKeyLaws.
Proof.
  split; cbn; try done; intros *; rewrite ?bool_decide_eq_true; try congruence.
  - by eexists.
  - by case_bool_decide; intros [= <-].
  - case_bool_decide; [done|]. intros [= <-]. split; [done|]. exists k. rewrite bool_decide_eq_false_2 by done. split; [done|].
    by apply bool_decide_eq_true.
Qed.

Definition met : list revoked_serial -> revoked_serial -> nat := fun _ _ => 0%nat.
Definition nids : curve_nids := {| nid_p256 := 415; nid_p384 := 715; nid_p521 := 716 |}.

Definition revocations : list revocation :=
  [R_serials (Some [7]) 3 9; R_id None (str "bob"); R_serials (Some [7]) 11 12; R_serials (Some [7]) 10 10; R_key [5]].

Definition results (os : list revocation) (ks : list (list Z)) : option (list (option Z)) :=
  match (revoke_all nids met os init_krl []).1 with
  | Ok (0, krl) => Some (ssh_krl_check_key nids krl <$> ks)
  | _ => None
  end.

(** A serial number in a joined range, one outside, one of another authority,
    a key, and a certificate of a revoked key. *)
Example results_of_keys : results revocations [[1; 10; 7]; [1; 13; 7]; [1; 10; 8]; [5]; [1; 99; 5]] =
  Some [Some SSH_ERR_KEY_REVOKED; Some 0; Some 0; Some SSH_ERR_KEY_REVOKED; Some SSH_ERR_KEY_REVOKED].
Proof. vm_compute. done. Qed.

Lemma checks_what_was_revoked_witness : exists n r krl' oom',
  revoke_all nids met revocations init_krl [] = (Ok (r, krl'), oom') /\
  (r = 0 /\ n = length revocations \/
   r <> 0 /\ exists o, revocations !! n = Some o /\ (false ∈ ([] : list bool) \/ ~ accepted nids o)) /\
  (ssh_krl_check_key nids krl' [1; 10; 7] = Some SSH_ERR_KEY_REVOKED /\ revoked_by nids (take n revocations) [1; 10; 7] \/
   ssh_krl_check_key nids krl' [1; 10; 7] = Some 0 /\ ~ revoked_by nids (take n revocations) [1; 10; 7]).
Proof.
  destruct (checks_what_was_revoked nids met revocations []) as (n & r & krl' & oom' & E & C & H).
  - repeat constructor; try (cbn; lia).
  - exists n, r, krl', oom'. split_and!; [exact E|exact C|]. apply H. split.
    + split; [by eexists|]. intros _. exists (str "joe"), 10, [7]. split_and!; [done|by repeat constructor|done..].
    + intros id serial sk _ [= <- <- <-]. split; [by eexists|done].
Defined.
End Demo.
