(* ===== verification/KrlWire.v ===== *)
(** * Revocation lists: what the sections of a list add when they are read *)

From S2P Require Import Prelude Words Ssherr Sshbuf SshbufGetput SshbufWire SshbufWire2 Cstring Bitmap BitmapThms KexNames SshkeyNames.
From S2P Require Import Hmac Misc AuthOptions AuthOptionsThms AuthCtxt Krl KrlSets KrlThms.

Section Read.
Context (nids : curve_nids) (met : list revoked_serial -> revoked_serial -> nat).
Context {KO : KeyOps} {KK : KrlKeys} {KL : KrlKeyLaws}.
Implicit Types (krl : ssh_krl) (ca : option sshkey) (rc : revoked_certs) (S : Z -> Prop) (I : list Z -> Prop).

(** ** What is added, in sequence *)

Lemma extends_weaken krl krl' ca S I S' I' : extends krl krl' ca S I ->
  (forall x, S x <-> S' x) -> (forall i, I i <-> I' i) -> extends krl krl' ca S' I'.
Proof.
  intros [] H1 H2. split; try done.
  - intros c x. by rewrite ex_serial, H1.
  - intros c x. by rewrite ex_id, H2.
Qed.

Lemma extends_trans krl1 krl2 krl3 ca S1 I1 S2 I2 : extends krl1 krl2 ca S1 I1 -> extends krl2 krl3 ca S2 I2 ->
  extends krl1 krl3 ca (fun x => S1 x \/ S2 x) (fun i => I1 i \/ I2 i).
Proof.
  intros [] []. split; [done|..|congruence|congruence|congruence|congruence].
  - intros c x. rewrite ex_serial0, ex_serial. tauto.
  - intros c x. rewrite ex_id0, ex_id. tauto.
Qed.

(** ** Single revocations, with memory *)

Lemma drains_nil {A} (m : AM A) r o : drains m -> m [] = (r, o) -> o = [].
Proof. intros H E. specialize (H []). rewrite E in H. by apply suffix_nil_inv in H. Qed.

Lemma outcome_nil krl ca S I r krl' : outcome krl ca S I [] r krl' -> r = 0 /\ extends krl krl' ca S I.
Proof. intros [?|(_ & _ & H)]; [done|]. by apply elem_of_nil in H. Qed.

Lemma range_read krl ca lo hi : krl_ok krl -> 1 <= lo <= hi -> hi < 2 ^ 64 ->
  exists krl', done_ (ssh_krl_revoke_cert_by_serial_range met krl ca lo hi) [] = (Ok krl', []) /\
    extends krl krl' ca (fun x => lo <= x <= hi) nothing.
Proof.
  intros K L1 L2. destruct (range_spec met krl ca lo hi [] K) as (r & krl' & o & E & H); [lia..|].
  destruct H as [(? & _)|[_ H]]; [lia|]. apply outcome_nil in H as [-> X].
  rewrite (drains_nil _ _ _ (revoke_drains nids met (R_serials ca lo hi) krl) E) in E.
  exists krl'. split; [|done]. unfold done_. by rewrite (bind_ok _ _ _ _ _ E).
Qed.

Lemma id_read krl ca id : krl_ok krl -> text id ->
  exists krl', done_ (ssh_krl_revoke_cert_by_key_id krl ca id) [] = (Ok krl', []) /\ extends krl krl' ca nothing (fun i => i = id).
Proof.
  intros K T. destruct (id_spec krl ca id [] K T) as (r & krl' & o & E & H). apply outcome_nil in H as [-> X].
  rewrite (drains_nil _ _ _ (revoke_drains nids met (R_id ca id) krl) E) in E.
  exists krl'. split; [|done]. unfold done_. by rewrite (bind_ok _ _ _ _ _ E).
Qed.

(** ** The contents of sections *)

Lemma u64_read v rest : 0 <= v < 2 ^ 64 -> get_u64_at (POKE_U64 v ++ rest) [] = (Ok (v, rest), []).
Proof. intros H. unfold get_u64_at. rewrite (bind_ok _ _ _ _ _ (take_at_app (POKE_U64 v) rest [])). by rewrite peek_poke_u64. Qed.

Lemma poke_length v : length (POKE_U64 v) = 8%nat.
Proof. done. Qed.

Definition serial_ok (x : Z) : Prop := 1 <= x < 2 ^ 64.

Lemma list_read ca xs : Forall serial_ok xs -> forall fuel krl, krl_ok krl -> (length (concat (POKE_U64 <$> xs)) < fuel)%nat ->
  exists krl', list_loop met fuel ca (concat (POKE_U64 <$> xs)) krl [] = (Ok krl', []) /\ extends krl krl' ca (fun x => x ∈ xs) nothing.
Proof.
  induction 1 as [|x xs Hx Hxs IH]; intros fuel krl K L; (destruct fuel as [|fuel]; [lia|]).
  { exists krl. split; [done|]. eapply extends_weaken; [by apply extends_refl|..]; intros ?; [by rewrite elem_of_nil|done]. }
  change (concat (POKE_U64 <$> x :: xs)) with (POKE_U64 x ++ concat (POKE_U64 <$> xs)) in *. rewrite length_app, poke_length in L.
  cbn [list_loop]. unfold serial_ok in Hx. rewrite zlen_app. change (zlen (POKE_U64 x)) with 8. rewrite (proj2 (Z.eqb_neq _ 0)) by (pose proof (zlen_nonneg (concat (POKE_U64 <$> xs))); lia).
  rewrite (bind_ok _ _ _ _ _ (u64_read x _ ltac:(lia))). unfold ssh_krl_revoke_cert_by_serial.
  destruct (range_read krl ca x x) as (krl1 & E1 & X1); [done|lia..|]. rewrite (bind_ok _ _ _ _ _ E1).
  destruct (IH fuel krl1) as (krl2 & E2 & X2); [apply X1|lia|]. exists krl2. split; [done|].
  eapply extends_weaken; [by eapply extends_trans|..]; cbn; intros ?; [rewrite elem_of_cons|tauto]. split; [intros [?|?]; [left; lia|tauto]|intros [?|?]; [left; lia|tauto]].
Qed.

Lemma text_cstr s : text s -> cstr s.
Proof.
  unfold cstr. induction 1 as [|c s Hc Hs IH]; [done|]. cbn [memchr]. rewrite (proj2 (Z.eqb_neq c 0)) by lia. by rewrite IH.
Qed.

Lemma ids_read ca ids : Forall text ids -> zlen (concat (wire_string <$> ids)) <= SSHBUF_SIZE_MAX ->
  forall fuel krl, krl_ok krl -> (length (concat (wire_string <$> ids)) < fuel)%nat ->
  exists krl', ids_loop fuel ca (concat (wire_string <$> ids)) krl [] = (Ok krl', []) /\ extends krl krl' ca nothing (fun i => i ∈ ids).
Proof.
  induction 1 as [|x xs Hx Hxs IH]; intros LM fuel krl K L; (destruct fuel as [|fuel]; [lia|]).
  { exists krl. split; [done|]. eapply extends_weaken; [by apply extends_refl|..]; intros ?; [done|by rewrite elem_of_nil]. }
  rewrite wires_cons in *. pose proof (zlen_wire_string x) as W. rewrite zlen_app in LM.
  pose proof (zlen_nonneg (concat (wire_string <$> xs))). pose proof (zlen_nonneg x). rewrite length_app in L.
  cbn [ids_loop]. rewrite zlen_app, (proj2 (Z.eqb_neq _ 0)) by lia.
  rewrite (bind_ok _ _ _ _ _ (get_cstring_wire true x _ (text_cstr _ Hx) ltac:(lia))).
  destruct (id_read krl ca x) as (krl1 & E1 & X1); [done..|]. rewrite (bind_ok _ _ _ _ _ E1).
  destruct (IH ltac:(lia) fuel krl1) as (krl2 & E2 & X2); [apply X1|unfold zlen in *; lia|]. exists krl2. split; [done|].
  eapply extends_weaken; [by eapply extends_trans|..]; cbn; intros ?; [tauto|rewrite elem_of_cons; tauto].
Qed.

(** The bits of a number that is kept in a bitmap. *)
Lemma bits_read ca b lo : bm_ok b -> 1 <= lo -> forall n serial krl, krl_ok krl -> 0 <= serial -> lo + serial + Z.of_nat n <= 2 ^ 64 ->
  exists krl', bits_loop met n ca b lo serial krl [] = (Ok krl', []) /\
    extends krl krl' ca (fun x => lo + serial <= x < lo + serial + Z.of_nat n /\ Z.testbit (value b) (x - lo) = true) nothing.
Proof.
  intros B Hlo. induction n as [|n IH]; intros serial krl K Hs L.
  { exists krl. split; [done|]. eapply extends_weaken; [by apply extends_refl|..]; intros ?; [lia|done]. }
  cbn [bits_loop]. rewrite wrap_small by lia. rewrite (proj2 (Z.eqb_neq (lo + serial) 0)), andb_false_r by lia.
  rewrite run_test_bit by done.
  assert (exists krl1, (if Z.b2z (Z.testbit (value b) serial) =? 0 then mret krl else
      done_ (ssh_krl_revoke_cert_by_serial met krl ca (lo + serial))) [] = (Ok krl1, []) /\
    extends krl krl1 ca (fun x => x = lo + serial /\ Z.testbit (value b) (x - lo) = true) nothing) as (krl1 & E1 & X1).
  { destruct (Z.testbit (value b) serial) eqn:T; cbn [Z.b2z Z.eqb].
    - destruct (range_read krl ca (lo + serial) (lo + serial)) as (krl1 & E1 & X1); [done|lia..|]. exists krl1. split; [done|].
      eapply extends_weaken; [exact X1| |done]. cbn. intros x. split; [intros ?|lia]. assert (x = lo + serial) as -> by lia.
      split; [done|]. by replace (lo + serial - lo) with serial by lia.
    - exists krl. split; [done|]. eapply extends_weaken; [by apply extends_refl| |done]. cbn. intros x. split; [done|].
      intros [-> H]. replace (lo + serial - lo) with serial in H by lia. congruence. }
  rewrite (bind_ok _ _ _ _ _ E1). destruct (IH (serial + 1) krl1) as (krl2 & E2 & X2); [apply X1|lia..|]. exists krl2. split; [done|].
  eapply extends_weaken; [by eapply extends_trans| |cbn; tauto]. cbn. intros x. split.
  - intros [[-> ?]|[? ?]]; (split; [lia|done]).
  - intros [? ?]. destruct (decide (x = lo + serial)); [left; done|right; split; [lia|done]].
Qed.

(** ** Bitmaps *)

Lemma be_val_skip s : be_val (skip_zeros s) = be_val s.
Proof. induction s as [|x s IH]; [done|]. cbn [skip_zeros]. destruct (Z.eqb_spec x 0) as [->|]; [|done]. rewrite be_val_cons, IH. lia. Qed.

Lemma be_val_nonneg s : bytes_ok s -> 0 <= be_val s.
Proof.
  induction 1 as [|x s Hx Hs IH]; [done|]. rewrite be_val_cons. unfold byte_ok in Hx. pose proof (zlen_nonneg s).
  assert (0 < 256 ^ zlen s) by (apply Z.pow_pos_nonneg; lia). nia.
Qed.

(** A number without leading zero bytes has almost eight bits a byte. *)
Lemma bit_length_lower s : bytes_ok s -> at_ s 0 <> 0 -> 8 * (zlen s - 1) < bit_length (be_val s).
Proof.
  intros [|x t Hx Ht] N; [done|]. cbn in N. rewrite zlen_cons, be_val_cons. pose proof (be_val_nonneg t Ht). pose proof (zlen_nonneg t).
  unfold byte_ok in Hx. assert (256 ^ zlen t = 2 ^ (8 * zlen t)) as E by (rewrite Z.pow_mul_r by lia; done).
  assert (0 < 256 ^ zlen t) by (apply Z.pow_pos_nonneg; lia). assert (2 ^ (8 * zlen t) <= be_val t + 256 ^ zlen t * x) as L by nia.
  unfold bit_length. rewrite (proj2 (Z.eqb_neq _ 0)) by lia. apply Z.log2_le_mono in L. rewrite Z.log2_pow2 in L by lia. lia.
Qed.

Lemma skip_zeros_head s : skip_zeros s = [] \/ at_ (skip_zeros s) 0 <> 0.
Proof. induction s as [|x s IH]; [by left|]. cbn [skip_zeros]. destruct (Z.eqb_spec x 0); [done|by right]. Qed.

(** What is too large to be read has more than 16384 bits. *)
Lemma bignum_read s rest : bytes_ok s -> zlen (wire_string (bignum_bytes s)) <= SSHBUF_SIZE_MAX ->
  get_bignum2_bytes_direct_at (wire_string (bignum_bytes s) ++ rest) [] = (Err SSH_ERR_BIGNUM_TOO_LARGE, []) /\ 16384 < bit_length (be_val s) \/
  get_bignum2_bytes_direct_at (wire_string (bignum_bytes s) ++ rest) [] = (Ok (skip_zeros s, rest), []) /\ zlen (skip_zeros s) <= 2049.
Proof.
  intros B L. rewrite zlen_wire_string in L. unfold get_bignum2_bytes_direct_at.
  assert (get_string_direct_at (wire_string (bignum_bytes s) ++ rest) [] = (Ok (bignum_bytes s, rest), [])) as E
    by (unfold get_string_direct_at; rewrite parse_wire_string by lia; done).
  rewrite (bind_ok _ _ _ _ _ E). clear E.
  assert ((negb (zlen (bignum_bytes s) =? 0) && negb (Z.land (byte_at (bignum_bytes s) 0) 128 =? 0)) = false) as ->.
  { destruct (decide (bignum_bytes s = [])) as [->|N]; [done|]. rewrite (bignum_bytes_msb s N). by rewrite andb_false_r. }
  rewrite skip_zeros_bignum_bytes. destruct (_ || _) eqn:T; [left|right]; (split; [done|]).
  - rewrite <- be_val_skip. pose proof (skip_zeros_ok _ B) as Bz. destruct (skip_zeros_head s) as [Ez|Nz].
    { exfalso. unfold bignum_bytes in T. rewrite Ez in T. done. }
    pose proof (bit_length_lower _ Bz Nz). enough (2049 <= zlen (skip_zeros s)) by lia.
    rewrite Z.gtb_ltb in T. change SSHBUF_MAX_BIGNUM with 2048 in T. unfold bignum_bytes in T. destruct (_ && negb _) in T.
    + rewrite zlen_cons in T. destruct (Z.ltb_spec (2048 + 1) (1 + zlen (skip_zeros s))); [lia|]. cbn [orb] in T. cbn in T. rewrite andb_false_r in T. done.
    + lia.
  - rewrite Z.gtb_ltb in T. change SSHBUF_MAX_BIGNUM with 2048 in T. apply orb_false_iff in T as [T _].
    pose proof (zlen_nonneg (skip_zeros s)). enough (zlen (skip_zeros s) <= zlen (bignum_bytes s)) by lia.
    unfold bignum_bytes. destruct (_ && negb _); rewrite ?zlen_cons; lia.
Qed.

Lemma new_bitmap_ok : bm_ok (mk_bitmap [0] 1 0).
Proof. split; cbn; try done; [by repeat constructor|]. intros [|[|i]]; cbn; [lia|done|done]. Qed.

(** The numbers of the bits of [v] from [start]. *)
Definition bit_set (start v x : Z) : Prop := start <= x /\ Z.testbit v (x - start) = true.

Lemma bit_length_top v i : 0 <= v -> 0 <= i -> Z.testbit v i = true -> i < bit_length v.
Proof.
  intros Hv Hi T. unfold bit_length. destruct (Z.eqb_spec v 0) as [->|]; [by rewrite Z.bits_0 in T|].
  destruct (Z.le_gt_cases i (Z.log2 v)); [lia|]. rewrite Z.bits_above_log2 in T by lia. done.
Qed.

Lemma bitmap_read ca start s krl : krl_ok krl -> bytes_ok s -> 1 <= start < 2 ^ 64 -> start + bit_length (be_val s) <= 2 ^ 64 ->
  zlen (wire_string (bignum_bytes s)) <= SSHBUF_SIZE_MAX ->
  let sect := POKE_U64 start ++ wire_string (bignum_bytes s) in
  bitmap_section met ca sect krl [] = (Err SSH_ERR_BIGNUM_TOO_LARGE, []) /\ 16384 < bit_length (be_val s) \/
  exists krl', bitmap_section met ca sect krl [] = (Ok (krl', []), []) /\ extends krl krl' ca (bit_set start (be_val s)) nothing.
Proof.
  intros K B Hs Hb L sect. unfold bitmap_section. change (new_bitmap []) with (Ok (mk_bitmap [0] 1 0), [] : list bool).
  assert (new_bitmap [] = (Ok (mk_bitmap [0] 1 0), [])) as E0 by done. rewrite (bind_ok _ _ _ _ _ E0).
  unfold sect. rewrite (bind_ok _ _ _ _ _ (u64_read start _ ltac:(lia))). rewrite <- (app_nil_r (wire_string _)).
  destruct (bignum_read s [] B L) as [[E T]|[E T]]; [left; by rewrite (bind_err _ _ _ _ _ E)|right].
  rewrite (bind_ok _ _ _ _ _ E). assert (alloc [] = (Ok true, [])) as EA by done. rewrite (bind_ok _ _ _ _ _ EA).
  destruct (run_from_string true _ (skip_zeros s) new_bitmap_ok (skip_zeros_ok _ B)) as (r & b & -> & Bb & [(-> & _ & V)|(_ & _ & [H|H])]); [|change (BITMAP_MAX / 8) with (2 ^ 21) in H; lia|done].
  cbn [Z.eqb negb]. rewrite be_val_skip in V. destruct (run_nbits b Bb) as (b' & -> & Bb' & D & _).
  assert (value b' = be_val s) as V' by (unfold value; rewrite D; exact V). rewrite V.
  pose proof (be_val_nonneg s B) as Hv. assert (0 <= bit_length (be_val s)) as HL.
  { unfold bit_length. destruct (_ =? 0); [done|]. pose proof (Z.log2_nonneg (be_val s)). lia. }
  destruct (bits_read ca b' start Bb' ltac:(lia) (Z.to_nat (bit_length (be_val s))) 0 krl K) as (krl' & E' & X); [lia..|].
  exists krl'. rewrite (bind_ok _ _ _ _ _ E'). split; [done|]. eapply extends_weaken; [exact X| |done]. cbn. intros x. unfold bit_set.
  rewrite V'. split; [intros [? ?]; split; [lia|done]|]. intros [? T']. split; [|done]. apply bit_length_top in T'; lia.
Qed.
(** ** Sections of an authority *)

(** Numbers close enough together for any bitmap of them to be read. *)
Definition narrow S : Prop := forall x y, S x -> S y -> y - x < 16384.

(** What comes of reading something: the list with [S] and [I] added, or the
    refusal of a bitmap. *)
Definition read_as {A} (r : (res A * list bool)) (ok : ssh_krl -> res A * list bool -> Prop) krl ca S I : Prop :=
  r = (Err SSH_ERR_BIGNUM_TOO_LARGE, []) /\ ~ narrow S \/ exists krl', extends krl krl' ca S I /\ ok krl' r.

(** The bytes [w] of sections add [S] and [I]. *)
Definition reads (w : list Z) S I : Prop := forall ca krl m fuel, krl_ok krl -> (length (w ++ m) < fuel)%nat ->
  read_as (cert_sections met fuel ca (w ++ m) krl [])
    (fun krl' r => exists fuel', (length m < fuel')%nat /\ r = cert_sections met fuel' ca m krl' []) krl ca S I.

Lemma reads_nil : reads [] nothing nothing.
Proof. intros ca krl m fuel K L. right. exists krl. split; [by apply extends_refl|]. by exists fuel. Qed.

Lemma reads_weaken w S I S' I' : reads w S I -> (forall x, S x <-> S' x) -> (forall i, I i <-> I' i) -> reads w S' I'.
Proof.
  intros R H1 H2 ca krl m fuel K L. destruct (R ca krl m fuel K L) as [[E N]|(krl' & X & E)]; [left|right].
  - split; [done|]. intros N'. apply N. intros x y Hx%H1 Hy%H1. by apply N'.
  - exists krl'. split; [by eapply extends_weaken|done].
Qed.

Lemma sections_app w1 w2 S1 I1 S2 I2 : reads w1 S1 I1 -> reads w2 S2 I2 ->
  reads (w1 ++ w2) (fun x => S1 x \/ S2 x) (fun i => I1 i \/ I2 i).
Proof.
  intros R1 R2 ca krl m fuel K L. rewrite <- app_assoc in *.
  destruct (R1 ca krl (w2 ++ m) fuel K L) as [[-> N]|(krl1 & X1 & fuel1 & L1 & ->)].
  { left. split; [done|]. intros N'. apply N. intros x y Hx Hy. by apply N'; left. }
  destruct (R2 ca krl1 m fuel1) as [[-> N]|(krl2 & X2 & fuel2 & L2 & ->)]; [apply X1|done|..].
  { left. split; [done|]. intros N'. apply N. intros x y Hx Hy. by apply N'; right. }
  right. exists krl2. split; [by eapply extends_trans|]. by exists fuel2.
Qed.

(** One section. *)
Lemma reads_section type sect S I : 0 <= type < 256 -> zlen (wire_string sect) <= SSHBUF_SIZE_MAX ->
  (forall ca krl, krl_ok krl -> read_as (cert_section met type ca sect krl []) (fun krl' r => r = (Ok (krl', []), [])) krl ca S I) ->
  reads (type :: wire_string sect) S I.
Proof.
  intros Ht Hl R ca krl m fuel K L. destruct fuel as [|fuel]; [lia|]. cbn [cert_sections app].
  cbn [app] in L. rewrite zlen_cons. pose proof (zlen_nonneg (wire_string sect ++ m)). rewrite (proj2 (Z.eqb_neq _ 0)) by lia.
  assert (get_u8_at (type :: wire_string sect ++ m) [] = (Ok (type, wire_string sect ++ m), [])) as E.
  { unfold get_u8_at. by rewrite (bind_ok _ _ _ _ _ (take_at_app [type] (wire_string sect ++ m) [])). }
  rewrite (bind_ok _ _ _ _ _ E). rewrite zlen_wire_string in Hl.
  assert (froms_at (wire_string sect ++ m) [] = (Ok (sect, m), [])) as E2 by (unfold froms_at; rewrite parse_wire_string by lia; done).
  rewrite (bind_ok _ _ _ _ _ E2). destruct (R ca krl K) as [[E3 N]|(krl' & X & E3)]; [left|right].
  - by rewrite (bind_err _ _ _ _ _ E3).
  - exists krl'. split; [done|]. rewrite (bind_ok _ _ _ _ _ E3). exists fuel. split; [|done]. cbn in L. rewrite length_app in L. lia.
Qed.

(** The kinds of section. *)
Lemma reads_list xs : Forall serial_ok xs -> zlen (wire_string (concat (POKE_U64 <$> xs))) <= SSHBUF_SIZE_MAX ->
  reads (KRL_SECTION_CERT_SERIAL_LIST :: wire_string (concat (POKE_U64 <$> xs))) (fun x => x ∈ xs) nothing.
Proof.
  intros F L. apply reads_section; [done..|]. intros ca krl K. right. destruct (list_read ca xs F (Datatypes.S (length (concat (POKE_U64 <$> xs)))) krl K) as (krl' & E & X); [lia|].
  exists krl'. split; [done|]. unfold cert_section. cbn [Z.eqb KRL_SECTION_CERT_SERIAL_LIST Pos.eqb]. by rewrite (bind_ok _ _ _ _ _ E).
Qed.

Lemma reads_range lo hi : 1 <= lo <= hi -> hi < 2 ^ 64 ->
  reads (KRL_SECTION_CERT_SERIAL_RANGE :: wire_string (POKE_U64 lo ++ POKE_U64 hi)) (fun x => lo <= x <= hi) nothing.
Proof.
  intros L1 L2. apply reads_section; [done..|]. intros ca krl K. right. destruct (range_read krl ca lo hi K L1 L2) as (krl' & E & X).
  exists krl'. split; [done|]. unfold cert_section. cbn [Z.eqb KRL_SECTION_CERT_SERIAL_RANGE KRL_SECTION_CERT_SERIAL_LIST Pos.eqb].
  rewrite (bind_ok _ _ _ _ _ (u64_read lo _ ltac:(lia))). rewrite <- (app_nil_r (POKE_U64 hi)), (bind_ok _ _ _ _ _ (u64_read hi [] ltac:(lia))).
  by rewrite (bind_ok _ _ _ _ _ E).
Qed.

Lemma reads_bitmap start s : bytes_ok s -> 1 <= start < 2 ^ 64 -> start + bit_length (be_val s) <= 2 ^ 64 -> Z.testbit (be_val s) 0 = true ->
  zlen (wire_string (POKE_U64 start ++ wire_string (bignum_bytes s))) <= SSHBUF_SIZE_MAX ->
  reads (KRL_SECTION_CERT_SERIAL_BITMAP :: wire_string (POKE_U64 start ++ wire_string (bignum_bytes s))) (bit_set start (be_val s)) nothing.
Proof.
  intros B L1 L2 T0 L. apply reads_section; [done..|]. intros ca krl K. unfold cert_section.
  change (KRL_SECTION_CERT_SERIAL_BITMAP =? KRL_SECTION_CERT_SERIAL_LIST) with false.
  change (KRL_SECTION_CERT_SERIAL_BITMAP =? KRL_SECTION_CERT_SERIAL_RANGE) with false. rewrite Z.eqb_refl.
  rewrite zlen_wire_string, zlen_app in L. change (zlen (POKE_U64 start)) with 8 in L.
  destruct (bitmap_read ca start s krl K B L1 L2 ltac:(lia)) as [[-> H]|(krl' & -> & X)]; [left|right; by exists krl'].
  split; [done|]. intros N. pose proof (be_val_nonneg s B). unfold bit_length in *.
  destruct (Z.eqb_spec (be_val s) 0) as [E0|N0]; [lia|]. pose proof (Z.log2_nonneg (be_val s)).
  specialize (N start (start + Z.log2 (be_val s))). enough (start + Z.log2 (be_val s) - start < 16384) by lia. apply N; (split; [lia|]).
  - by rewrite Z.sub_diag.
  - rewrite Z.add_simpl_l. apply Z.bit_log2. lia.
Qed.

Lemma reads_ids ids : Forall text ids -> zlen (wire_string (concat (wire_string <$> ids))) <= SSHBUF_SIZE_MAX ->
  reads (KRL_SECTION_CERT_KEY_ID :: wire_string (concat (wire_string <$> ids))) nothing (fun i => i ∈ ids).
Proof.
  intros F L. apply reads_section; [done..|]. intros ca krl K. right. rewrite zlen_wire_string in L.
  destruct (ids_read ca ids F ltac:(lia) (Datatypes.S (length (concat (wire_string <$> ids)))) krl K) as (krl' & E & X); [lia|].
  exists krl'. split; [done|]. unfold cert_section.
  change (KRL_SECTION_CERT_KEY_ID =? KRL_SECTION_CERT_SERIAL_LIST) with false. change (KRL_SECTION_CERT_KEY_ID =? KRL_SECTION_CERT_SERIAL_RANGE) with false.
  change (KRL_SECTION_CERT_KEY_ID =? KRL_SECTION_CERT_SERIAL_BITMAP) with false. rewrite Z.eqb_refl. by rewrite (bind_ok _ _ _ _ _ E).
Qed.

End Read.

(** * Revocation lists: what is written is read back *)

Section Wire.
Context (nids : curve_nids) (met : list revoked_serial -> revoked_serial -> nat).
Context {KO : KeyOps} {KK : KrlKeys} {KL : KrlKeyLaws}.
Implicit Types (krl : ssh_krl) (ca : option sshkey) (rc : revoked_certs) (S : Z -> Prop) (I : list Z -> Prop) (g : gen).

(** ** The section that is open *)

Definition in_list g S : Prop :=
  g_state g = KRL_SECTION_CERT_SERIAL_LIST /\
  exists xs, Forall serial_ok xs /\ g_sect g = concat (POKE_U64 <$> xs) /\ forall x, S x <-> x ∈ xs.

Definition in_bitmap g S : Prop :=
  g_state g = KRL_SECTION_CERT_SERIAL_BITMAP /\ g_sect g = POKE_U64 (g_start g) /\ serial_ok (g_start g) /\
  exists b, g_bitmap g = Some b /\ bm_ok b /\ (forall x, S x <-> bit_set (g_start g) (value b) x) /\ (forall x, S x -> serial_ok x).

(** A range has just been written. *)
Definition in_range g S : Prop :=
  g_state g = KRL_SECTION_CERT_SERIAL_RANGE /\
  exists lo hi, 1 <= lo <= hi /\ hi < 2 ^ 64 /\ g_sect g = POKE_U64 lo ++ POKE_U64 hi /\ forall x, S x <-> lo <= x <= hi.

Definition opened g S (bound : Z) : Prop :=
  g_state g = 0 /\ (forall x, ~ S x) \/ in_list g S \/ in_range g S \/ in_bitmap g S /\ S (g_start g) /\ g_start g <= bound.

(** A section that is ready for the range [rs]. *)
Definition ready g S rs : Prop :=
  in_list g S \/
  g_state g = KRL_SECTION_CERT_SERIAL_RANGE /\ g_sect g = [] /\ (forall x, ~ S x) \/
  in_bitmap g S /\ (S (g_start g) \/ g_start g = rs_lo rs) /\ g_start g <= rs_lo rs.

(** ** Completing a section *)

Lemma value_nonneg b : bm_ok b -> 0 <= value b.
Proof. intros B. unfold value. apply words_val_nonneg, B. Qed.

Lemma bit_set_length start b : bm_ok b -> start <= 2 ^ 64 -> (forall x, bit_set start (value b) x -> serial_ok x) ->
  start + bit_length (value b) <= 2 ^ 64.
Proof.
  intros B Hs H. pose proof (value_nonneg b B). unfold bit_length. destruct (Z.eqb_spec (value b) 0); [lia|].
  pose proof (Z.log2_nonneg (value b)). destruct (H (start + Z.log2 (value b))) as [_ ?]; [|lia]. split; [lia|].
  rewrite Z.add_simpl_l. apply Z.bit_log2. lia.
Qed.

Lemma put_bitmap_ok buf b o buf' o' : bm_ok b -> put_bitmap buf b o = (Ok buf', o') ->
  exists s, bytes_ok s /\ be_val s = value b /\ buf' = buf ++ wire_string (bignum_bytes s).
Proof.
  intros B. unfold put_bitmap, bitmap_nbytes. destruct (run_nbits b B) as (b1 & -> & B1 & D1 & _). cbn [mbind option_bind].
  intros (ok & o1 & _ & H)%bind_inv_ok. destruct ok; [|done]. cbn [negb] in H.
  assert (value b1 = value b) as V by (unfold value; by rewrite D1). rewrite <- V in *.
  destruct (run_to_string b1 (zeros ((bit_length (value b1) + 7) / 8)) B1) as (b2 & B2 & D2 & R).
  assert (0 <= bit_length (value b1)) as Hn by (unfold bit_length; destruct (_ =? 0); [done|]; pose proof (Z.log2_nonneg (value b1)); lia).
  assert (zlen (zeros ((bit_length (value b1) + 7) / 8)) = (bit_length (value b1) + 7) / 8) as Lz
    by (unfold zlen, zeros; rewrite length_replicate, Z2Nat.id; dlia).
  rewrite Lz, Z.ltb_irrefl in R. destruct R as (s & E & Ls & Bs & Vs). rewrite E in H. cbn [Z.eqb negb] in H.
  rewrite drop_ge, app_nil_r in H by (unfold zlen in Lz; lia). unfold put_bignum2_bytes_at in H. destruct (_ >? _); [done|].
  apply put_at_ok in H as [-> _]. by exists s.
Qed.

Lemma finish_reads g S bound buf o buf' o' : opened g S bound -> g_state g <> 0 -> finish_section g buf o = (Ok buf', o') ->
  exists w, buf' = buf ++ w /\ reads met w S nothing.
Proof.
  intros O N. unfold finish_section. intros (sect & o1 & H1 & H)%bind_inv_ok.
  apply bind_inv_ok in H as (m & o2 & [-> _]%put_at_ok & H). apply put_string_ok in H as [-> L].
  rewrite <- app_assoc in *. exists ([u8 (g_state g)] ++ wire_string sect). split; [done|].
  assert (zlen (wire_string sect) <= SSHBUF_SIZE_MAX) as L'.
  { rewrite !zlen_app in L. pose proof (zlen_nonneg buf). pose proof (zlen_nonneg [u8 (g_state g)]). lia. }
  destruct O as [[? _]|[(Es & xs & F & Ex & HS)|[(Es & lo & hi & L1 & L2 & Ex & HS)|((Es & Ex & Ok & b & Eb & B & HS & HO) & H0 & _)]]]; [done|..];
    rewrite Es in *.
  - injection H1 as <- <-. rewrite Ex in *. eapply reads_weaken; [by apply (reads_list nids met)|done|done].
  - injection H1 as <- <-. rewrite Ex in *. eapply reads_weaken; [by apply (reads_range nids met)|done|done].
  - rewrite Z.eqb_refl, Eb, Ex in H1. apply put_bitmap_ok in H1 as (s & Bs & Vs & ->); [|done]. unfold serial_ok in Ok.
    rewrite <- Vs in HS. eapply reads_weaken; [apply (reads_bitmap nids met)| |done]; [done|lia| | |done|done].
    + rewrite Vs. apply bit_set_length; [done|lia|]. intros x Hx. apply HO, HS. by rewrite Vs.
    + apply HS in H0 as [_ H0]. by rewrite Z.sub_diag in H0.
Qed.
(** ** Adding a range *)

Lemma set_bits_ok n : forall bit b o b' o', bm_ok b -> 0 <= bit < 2 ^ 32 -> set_bits n bit b o = (Ok b', o') ->
  bm_ok b' /\ forall i, 0 <= i -> Z.testbit (value b') i = Z.testbit (value b) i || (bit <=? i) && (i <? bit + Z.of_nat n).
Proof.
  induction n as [|n IH]; intros bit b o b' o' B Hb; cbn [set_bits].
  { intros [= <- <-]. split; [done|]. intros i Hi. destruct (Z.testbit _ _); [done|]. rewrite orb_false_l. destruct (Z.leb_spec bit i), (Z.ltb_spec i (bit + Z.of_nat 0)); lia. }
  intros (ok & o1 & _ & H)%bind_inv_ok. rewrite wrap_small in H by lia.
  destruct (run_set_bit b B ok bit ltac:(lia)) as (r & b1 & E & B1 & C). rewrite E in H.
  destruct C as [(-> & Hm & V)|(-> & _ & _)]; [|done]. cbn [Z.eqb negb] in H. change BITMAP_MAX with (2 ^ 24) in Hm.
  apply IH in H as [B' T]; [|done|lia]. split; [done|]. intros i Hi. rewrite T, V, Z.setbit_eqb by lia.
  destruct (Z.testbit (value b) i); [by rewrite orb_true_r|]. rewrite orb_false_r, orb_false_l.
  apply eq_true_iff_eq. rewrite orb_true_iff, !andb_true_iff, !Z.leb_le, !Z.ltb_lt, Z.eqb_eq. lia.
Qed.

Lemma put_serials_ok n : forall v sect o sect' o', 0 <= v -> v + Z.of_nat n <= 2 ^ 64 -> put_serials n v sect o = (Ok sect', o') ->
  sect' = sect ++ concat (POKE_U64 <$> seqZ v (Z.of_nat n)).
Proof.
  induction n as [|n IH]; intros v sect o sect' o' Hv L; cbn [put_serials]; [intros [= <- <-]; by rewrite app_nil_r|].
  intros (m & o1 & [-> _]%put_at_ok & H)%bind_inv_ok. rewrite seqZ_cons by lia. replace (Z.pred (Z.of_nat (Datatypes.S n))) with (Z.of_nat n) by lia.
  rewrite fmap_cons. cbn [concat]. rewrite app_assoc. destruct n as [|n]; [injection H as <- <-; cbn; by rewrite app_nil_r|].
  rewrite wrap_small in H by lia. apply IH in H; [|lia..]. done.
Qed.

Definition rs_pos rs : Prop := 1 <= rs_lo rs <= rs_hi rs /\ rs_hi rs < 2 ^ 64.

Lemma add_range_opened g S rs o g' o' : ready g S rs -> rs_pos rs ->
  add_range g rs (u64 (1 + u64 (rs_hi rs - rs_lo rs))) o = (Ok g', o') ->
  opened g' (fun x => S x \/ in_rs rs x) (rs_lo rs).
Proof.
  intros R [P1 P2]. rewrite (wrap_small 64 (rs_hi rs - rs_lo rs)), wrap_small by lia. unfold add_range, in_rs.
  destruct R as [(Es & xs & F & Ex & HS)|[(Es & Ex & HS)|((Es & Ex & Ok & b & Eb & B & HS & HO) & H0 & Hb)]]; rewrite Es.
  - rewrite Z.eqb_refl. intros (sect & o1 & H1 & [= <- <-])%bind_inv_ok. right; left. split; [done|].
    apply put_serials_ok in H1 as ->; [|lia..]. rewrite Z2Nat.id by lia. exists (xs ++ seqZ (rs_lo rs) (1 + (rs_hi rs - rs_lo rs))).
    split_and!.
    + apply Forall_app. split; [done|]. apply Forall_forall. intros x Hx%elem_of_seqZ. unfold serial_ok. lia.
    + cbn [g_sect]. by rewrite Ex, fmap_app, concat_app.
    + intros x. rewrite elem_of_app, elem_of_seqZ, HS. split; (intros [?|?]; [tauto|right; lia]).
  - change (KRL_SECTION_CERT_SERIAL_RANGE =? KRL_SECTION_CERT_SERIAL_LIST) with false. rewrite Z.eqb_refl, Ex.
    intros (s1 & o1 & [-> _]%put_at_ok & H)%bind_inv_ok. apply bind_inv_ok in H as (s2 & o2 & [-> _]%put_at_ok & H). injection H as <- <-.
    right; right; left. split; [done|]. exists (rs_lo rs), (rs_hi rs). split_and!; [lia..|done|]. intros x. specialize (HS x). tauto.
  - change (KRL_SECTION_CERT_SERIAL_BITMAP =? KRL_SECTION_CERT_SERIAL_LIST) with false.
    change (KRL_SECTION_CERT_SERIAL_BITMAP =? KRL_SECTION_CERT_SERIAL_RANGE) with false. rewrite Z.eqb_refl, Eb, Z.gtb_ltb.
    unfold serial_ok in Ok. rewrite wrap_small by lia. destruct (Z.ltb_spec INT_MAX (rs_lo rs - g_start g)) as [|Hi]; [done|].
    intros (b' & o1 & H1 & [= <- <-])%bind_inv_ok. apply set_bits_ok in H1 as [B' T]; [|done|unfold INT_MAX in *; lia]. rewrite Z2Nat.id in T by lia.
    assert (forall x, S x \/ rs_lo rs <= x <= rs_hi rs <-> bit_set (g_start g) (value b') x) as HS'.
    { intros x. rewrite HS. unfold bit_set. split.
      - intros [[? Hx]|?]; (split; [lia|]); rewrite T by lia; [by rewrite Hx|]. apply orb_true_iff. right. lia.
      - intros [? Hx]. rewrite T in Hx by lia. apply orb_true_iff in Hx as [Hx|Hx]; [by left|right; lia]. }
    right; right; right. split_and!; [split_and!; try done|..|done]; cbn [g_state g_bitmap g_start].
    + exists b'. split_and!; [done..|]. intros x [Hx|?]; [by apply HO|unfold serial_ok; lia].
    + destruct H0 as [H0 | ->]; [by left|right; lia].
Qed.

(** ** One range *)

Lemma choose_next cs contig final lg ng :
  let t := (choose_next_state cs contig final lg ng).1 in
  t = KRL_SECTION_CERT_SERIAL_LIST \/ t = KRL_SECTION_CERT_SERIAL_RANGE \/ t = KRL_SECTION_CERT_SERIAL_BITMAP.
Proof. unfold choose_next_state. repeat case_match; simplify_eq; cbn; auto. Qed.

Lemma start_ready next rs last o g o' :
  next = KRL_SECTION_CERT_SERIAL_LIST \/ next = KRL_SECTION_CERT_SERIAL_RANGE \/ next = KRL_SECTION_CERT_SERIAL_BITMAP -> rs_pos rs ->
  start_section next rs last o = (Ok g, o') -> ready g nothing rs.
Proof.
  intros C [P1 P2]. unfold start_section. destruct C as [->|[->| ->]].
  - cbn. intros [= <- <-]. left. split; [done|]. exists []. split_and!; [constructor|done|]. intros x. by rewrite elem_of_nil.
  - cbn. intros [= <- <-]. right; left. split_and!; [done|done|by intros x []].
  - rewrite Z.eqb_refl. intros (b & o1 & H1 & H)%bind_inv_ok. apply bind_inv_ok in H as (s & o2 & [-> _]%put_at_ok & H). injection H as <- <-.
    right; right. split_and!; [split_and!; [done|done|unfold serial_ok; cbn; lia|]|by right|done]. exists b. split; [done|]. cbn [g_start].
    assert (b = mk_bitmap [0] 1 0) as ->.
    { unfold new_bitmap in H1. apply bind_inv_ok in H1 as (k1 & ? & _ & H1). apply bind_inv_ok in H1 as (k2 & ? & _ & H1).
      unfold bitmap_new in H1. destruct k1, k2; cbn in H1; try done. by injection H1 as <- _. }
    split_and!; [apply new_bitmap_ok| |done]. intros x. split; [done|]. intros [_ T]. by rewrite Z.bits_0 in T.
Qed.

(** The sections completed by a step hold [S1], the one that stays open [S2]:
    together what there was and the range. *)
Lemma step_writes g S rs nrs buf o g' buf' o' : opened g S (rs_lo rs) -> rs_pos rs ->
  serial_step rs nrs g buf o = (Ok (g', buf'), o') ->
  exists w S1 S2, buf' = buf ++ w /\ reads met w S1 nothing /\ opened g' S2 (rs_lo rs) /\ forall x, S1 x \/ S2 x <-> S x \/ in_rs rs x.
Proof.
  intros O P. unfold serial_step. set (gap := match nrs with None => 0 | Some n => _ end).
  set (lg := if g_state g =? 0 then 0 else _). set (fin := bool_decide _). set (contig := u64 (1 + _)).
  pose proof (choose_next (g_state g) contig fin lg gap) as C. destruct (choose_next_state _ _ _ _ _) as [next force]. cbn [fst] in C.
  intros ([g1 buf1] & o1 & H1 & H)%bind_inv_ok. apply bind_inv_ok in H as (g2 & o2 & H2 & H). apply bind_inv_ok in H as (g3 & o3 & H3 & [= <- <- <-]).
  assert (forall g2, (exists S', ready g2 S' rs /\ (forall x, S' x <-> S x)) -> add_range g2 rs contig o2 = (Ok g3, o3) ->
    exists S2, opened g3 S2 (rs_lo rs) /\ forall x, S2 x <-> S x \/ in_rs rs x) as Add.
  { intros g' (S' & R & E) Ha. eexists. split; [by eapply add_range_opened|]. intros x. cbn. by rewrite E. }
  assert (ready g2 nothing rs -> exists S2, opened g3 S2 (rs_lo rs) /\ forall x, S2 x <-> in_rs rs x) as Fresh.
  { intros R. eexists. split; [by eapply add_range_opened|]. intros x. cbn. tauto. }
  destruct (negb (g_state g =? 0) && _) eqn:Ef.
  - apply andb_true_iff in Ef as [E0 Ef]. apply bind_inv_ok in H1 as (b1 & o4 & H1 & [= <- <- <-]).
    apply (finish_reads g S (rs_lo rs)) in H1 as (w & -> & Rw); [|done|lia]. exists w, S.
    destruct Fresh as (S2 & O2 & E2); [|exists S2; split_and!; [done..|]; intros x; by rewrite E2].
    destruct (negb (next =? g_state g) || force) eqn:Er; [by eapply start_ready|]. injection H2 as <- <-.
    apply orb_false_iff in Er as [Er ->]. cbn [orb] in Ef. rewrite Er in Ef. right; left. cbn. split_and!; [lia|done|by intros x []].
  - injection H1 as <- <- <-. exists [], nothing. rewrite app_nil_r. destruct (negb (next =? g_state g) || force) eqn:Er.
    + destruct (Z.eqb_spec (g_state g) 0) as [E0|N0]; cbn [negb andb] in Ef; [|by destruct force, (next =? g_state g)].
      assert (forall x, ~ S x) as Emp.
      { destruct O as [[_ ?]|[(Es & _)|[(Es & _)|((Es & _) & _)]]]; [done|..]; rewrite E0 in Es; done. }
      destruct Fresh as (S2 & O2 & E2); [by eapply start_ready|]. exists S2. split_and!; [done|apply reads_nil|done|].
      intros x. rewrite E2. specialize (Emp x). tauto.
    + injection H2 as <- <-. apply orb_false_iff in Er as [Er ->]. assert (next = g_state g) as -> by lia.
      destruct (Add g) as (S2 & O2 & E2); [|done|exists S2; split_and!; [done|apply reads_nil|done|]; intros x; rewrite E2; tauto].
      exists S. split; [|done]. rewrite Z.eqb_refl in Ef. cbn [orb negb] in Ef.
      destruct O as [[Es _]|[?|[(Es & _)|(? & ? & ?)]]]; [rewrite Es in C; by destruct C as [|[]]|by left| |by right; right; auto].
      rewrite Es in Ef. done.
Qed.

(** ** All ranges of an authority *)

Lemma opened_mono g S b b' : opened g S b -> b <= b' -> opened g S b'.
Proof. intros [O|[O|[O|(O & ? & ?)]]] L; [by left|by right; left|by right; right; left|right; right; right]. split_and!; [done|done|lia]. Qed.

Lemma loop_writes l : forall g S bound buf o g' buf' o', opened g S bound -> normal l -> Forall (fun r => 1 <= rs_lo r) l ->
  Forall (fun r => bound <= rs_lo r) l -> serials_loop l g buf o = (Ok (g', buf'), o') ->
  exists w S1 S2 b', buf' = buf ++ w /\ reads met w S1 nothing /\ opened g' S2 b' /\ forall x, S1 x \/ S2 x <-> S x \/ covers l x.
Proof.
  induction l as [|rs l IH]; intros g S bound buf o g' buf' o' O N P B; cbn [serials_loop].
  { intros [= <- <- <-]. exists [], nothing, S, bound. rewrite app_nil_r. split_and!; [done|apply reads_nil|done|].
    intros x. pose proof (covers_nil x). tauto. }
  apply normal_cons in N as (Ok & N & G). apply Forall_cons in P as [P1 P], B as [B1 B]. unfold rs_ok in Ok.
  intros ([g1 buf1] & o1 & H1 & H)%bind_inv_ok.
  apply (step_writes g S) in H1 as (w1 & S1 & S2 & -> & R1 & O1 & E1); [|by eapply opened_mono|unfold rs_pos; lia].
  apply (IH g1 S2 (rs_lo rs)) in H as (w2 & S3 & S4 & b' & -> & R2 & O2 & E2); [|done..|].
  - exists (w1 ++ w2), (fun x => S1 x \/ S3 x), S4, b'. split_and!; [by rewrite app_assoc| |done|].
    + eapply reads_weaken; [by apply sections_app|done|cbn; tauto].
    + intros x. rewrite covers_cons. specialize (E1 x). specialize (E2 x). clear -E1 E2. revert E1 E2. generalize (covers l x). intros. tauto.
  - eapply Forall_impl; [exact G|]. unfold gap_before. cbn. lia.
Qed.

(** The blob of an authority; empty for any. *)
Definition ca_blob ca : Z + list Z := match ca with None => inr [] | Some k => sshkey_to_blob k end.

Lemma generate_ok rc buf o buf' o' : rc_ok rc -> revoked_certs_generate rc buf o = (Ok buf', o') ->
  exists blob w, ca_blob (rc_ca_key rc) = inr blob /\ buf' = buf ++ wire_string blob ++ wire_string [] ++ w /\
    zlen blob <= SSHBUF_SIZE_MAX - 4 /\ reads met w (covers (revoked_serials rc)) (fun i => i ∈ revoked_key_ids rc).
Proof.
  intros (N & P & Ids). unfold revoked_certs_generate. intros (ok & o1 & _ & H)%bind_inv_ok. destruct ok; [|done]. cbn [negb] in H.
  apply bind_inv_ok in H as (m1 & o2 & H1 & H).
  assert (exists blob, ca_blob (rc_ca_key rc) = inr blob /\ m1 = buf ++ wire_string blob) as (blob & Eb & ->).
  { unfold ca_blob. destruct (rc_ca_key rc) as [k|]; [|apply put_string_ok in H1 as [-> _]; by exists []].
    unfold sshkey_puts in H1. destruct (sshkey_to_blob k) as [|blob]; [done|]. apply put_string_ok in H1 as [-> _]. by exists blob. }
  apply bind_inv_ok in H as (m2 & o3 & [-> L2]%put_string_ok & H). apply bind_inv_ok in H as ([g m3] & o4 & H3 & H).
  apply (loop_writes _ _ nothing 1) in H3 as (w & S1 & S2 & b' & -> & R & O & E); [|left; split; [done|by intros x []]|done..].
  apply bind_inv_ok in H as (m4 & o5 & H4 & H). apply bind_inv_ok in H as (ids & o6 & [-> _]%put_strings_ok & H). cbn [app] in H.
  assert (exists w1, m4 = ((buf ++ wire_string blob) ++ wire_string []) ++ w ++ w1 /\ reads met (w ++ w1) (covers (revoked_serials rc)) nothing) as (w1 & -> & R1).
  { destruct (Z.eqb_spec (g_state g) 0) as [E0|N0]; cbn [negb] in H4.
    - injection H4 as <- <-. exists []. rewrite app_nil_r. split; [done|]. eapply reads_weaken; [exact R| |done]. intros x. specialize (E x).
      assert (~ S2 x); [|tauto]. destruct O as [[_ O]|[(Es & _)|[(Es & _)|((Es & _) & _)]]]; [apply O|by rewrite E0 in Es..].
    - apply (finish_reads g S2 b') in H4 as (w1 & -> & R1); [|done..]. exists w1. split; [by rewrite <- app_assoc|].
      eapply reads_weaken; [by apply sections_app| |cbn; tauto]. intros x. cbn. rewrite E. tauto. }
  assert (zlen blob <= SSHBUF_SIZE_MAX - 4) as Lb.
  { rewrite !zlen_app, (zlen_wire_string blob) in L2. pose proof (zlen_nonneg buf). pose proof (zlen_nonneg (wire_string [])). lia. }
  exists blob. unfold put_section in H. pose proof (zlen_wires (revoked_key_ids rc)) as Lw. pose proof (zlen_nonneg (revoked_key_ids rc)).
  destruct (Z.eqb_spec (zlen (concat (wire_string <$> revoked_key_ids rc))) 0) as [E0|N0].
  - injection H as <- <-. exists (w ++ w1). split_and!; [done|by rewrite <- !app_assoc|done|]. eapply reads_weaken; [exact R1|done|].
    assert (revoked_key_ids rc = []) as -> by (apply nil_length_inv; unfold zlen in *; lia). intros i. by rewrite elem_of_nil.
  - apply bind_inv_ok in H as (m5 & o7 & [-> _]%put_at_ok & H). apply put_string_ok in H as [-> L].
    eexists ((w ++ w1) ++ [_] ++ wire_string _). split_and!; [done|by rewrite <- !app_assoc|done|].
    eapply reads_weaken; [apply sections_app; [exact R1|apply (reads_ids nids met)]| |]; cbn; [apply Ids| |tauto|intros; tauto].
    by apply wire_fits in L.
Qed.

(** ** The section of an authority, read *)

Lemma parse_certs blob w ca S I krl : krl_ok krl -> ca_blob ca = inr blob -> zlen blob <= SSHBUF_SIZE_MAX - 4 -> reads met w S I ->
  read_as (parse_revoked_certs met (wire_string blob ++ wire_string [] ++ w) krl []) (fun krl' r => r = (Ok krl', [])) krl ca S I.
Proof.
  intros K Eb Lb R. unfold parse_revoked_certs. assert (alloc [] = (Ok true, [])) as EA by done. rewrite (bind_ok _ _ _ _ _ EA). cbn [negb].
  assert (forall b rest, zlen b <= SSHBUF_SIZE_MAX - 4 -> get_string_direct_at (wire_string b ++ rest) [] = (Ok (b, rest), [])) as ES
    by (intros; unfold get_string_direct_at; by rewrite parse_wire_string).
  rewrite (bind_ok _ _ _ _ _ (ES blob _ Lb)).
  assert (skip_string_at (wire_string [] ++ w) [] = (Ok w, [])) as EK by (unfold skip_string_at; by rewrite (bind_ok _ _ _ _ _ (ES [] w ltac:(done)))).
  rewrite (bind_ok _ _ _ _ _ EK).
  assert (exists ca', (if zlen blob =? 0 then inr None else match sshkey_from_blob blob with inl e => inl e | inr k => inr (Some k) end) = (inr ca' : Z + option sshkey)
    /\ ca_eq ca ca' = true) as (ca' & -> & Ec).
  { unfold ca_blob in Eb. destruct ca as [k|]; [|injection Eb as <-; by exists None]. destruct (blob_equal k blob Eb) as (Nb & k' & E & Ek).
    rewrite E, (proj2 (Z.eqb_neq _ 0)); [by exists (Some k')|]. intros E0. destruct blob; [done|]. rewrite zlen_cons in E0. pose proof (zlen_nonneg blob). lia. }
  destruct (R ca' krl [] (Datatypes.S (length w)) K) as [[E N]|(krl' & X & fuel & Lf & E)]; rewrite ?app_nil_r in *; [lia|by left|right].
  exists krl'. rewrite E. destruct fuel; [cbn in Lf; lia|]. split; [|done]. destruct X. split; try done.
  - intros c x. rewrite ex_serial. split; (intros [?|[Hc ?]]; [by left|right]); (split; [|done]); [by apply (ca_trans _ ca'), ca_sym|by apply (ca_trans _ ca)].
  - intros c x. rewrite ex_id. split; (intros [?|[Hc ?]]; [by left|right]); (split; [|done]); [by apply (ca_trans _ ca'), ca_sym|by apply (ca_trans _ ca)].
Qed.
End Wire.
