(* ===== verification/KrlRound.v ===== *)
(** * Revocation lists: a list that is written and read checks keys alike *)

From S2P Require Import Prelude Words Ssherr Sshbuf SshbufGetput SshbufWire SshbufWire2 Cstring Bitmap KexNames SshkeyNames Hmac Misc.
From S2P Require Import AuthOptions AuthOptionsThms AuthCtxt Krl KrlSets KrlThms KrlWire.

Section Round.
Context (nids : curve_nids) (met : list revoked_serial -> revoked_serial -> nat).
Context {KO : KeyOps} {KK : KrlKeys} {KL : KrlKeyLaws}.
Implicit Types (krl : ssh_krl) (ca : option sshkey) (rc : revoked_certs).

(** ** Sections of a list *)

Lemma section_step type sect m krl fuel : 0 <= type < 256 -> zlen (wire_string sect) <= SSHBUF_SIZE_MAX ->
  krl_sections met (S fuel) (type :: wire_string sect ++ m) krl [] =
  ('(krl, m) ← krl_section met type sect m krl; krl_sections met fuel m krl) [].
Proof.
  intros Ht L. cbn [krl_sections]. rewrite zlen_cons. pose proof (zlen_nonneg (wire_string sect ++ m)). rewrite (proj2 (Z.eqb_neq _ 0)) by lia.
  assert (get_u8_at (type :: wire_string sect ++ m) [] = (Ok (type, wire_string sect ++ m), [])) as E.
  { unfold get_u8_at. by rewrite (bind_ok _ _ _ _ _ (take_at_app [type] (wire_string sect ++ m) [])). }
  rewrite (bind_ok _ _ _ _ _ E). rewrite zlen_wire_string in L.
  assert (froms_at (wire_string sect ++ m) [] = (Ok (sect, m), [])) as E2 by (unfold froms_at; rewrite parse_wire_string by lia; done).
  by rewrite (bind_ok _ _ _ _ _ E2).
Qed.

(** The bytes [w] take the list from [krl] to [krl']. *)
Definition leads (w : list Z) krl krl' : Prop := forall m fuel, (length (w ++ m) < fuel)%nat ->
  exists fuel', (length m < fuel')%nat /\ krl_sections met fuel (w ++ m) krl [] = krl_sections met fuel' m krl' [].

Lemma leads_nil krl : leads [] krl krl.
Proof. intros m fuel L. by exists fuel. Qed.

Lemma leads_app w1 w2 krl1 krl2 krl3 : leads w1 krl1 krl2 -> leads w2 krl2 krl3 -> leads (w1 ++ w2) krl1 krl3.
Proof.
  intros H1 H2 m fuel L. rewrite <- app_assoc in *. destruct (H1 (w2 ++ m) fuel L) as (fuel1 & L1 & ->). exact (H2 m fuel1 L1).
Qed.

Lemma leads_section type sect krl krl' : 0 <= type < 256 -> zlen (wire_string sect) <= SSHBUF_SIZE_MAX ->
  (forall m, krl_section met type sect m krl [] = (Ok (krl', m), [])) -> leads (type :: wire_string sect) krl krl'.
Proof.
  intros Ht L H m fuel Lf. destruct fuel as [|fuel]; [lia|]. cbn [app]. rewrite section_step by done. rewrite (bind_ok _ _ _ _ _ (H m)).
  exists fuel. split; [|done]. cbn in Lf. rewrite length_app in Lf. lia.
Qed.

(** ** Blobs *)

Lemma blobs_read bs expected : Forall (fun b => expected = 0 \/ zlen b = expected) bs -> zlen (concat (wire_string <$> bs)) <= SSHBUF_SIZE_MAX ->
  forall t fuel, ordered blob_cmp (fun _ => True) (t ++ bs) -> (length (concat (wire_string <$> bs)) < fuel)%nat ->
  blob_section fuel (concat (wire_string <$> bs)) expected t [] = (Ok (t ++ bs), []).
Proof.
  induction 1 as [|b bs Hb Hbs IH]; intros L t fuel O Lf; (destruct fuel as [|fuel]; [lia|]); [cbn; by rewrite app_nil_r|].
  rewrite wires_cons in *. pose proof (zlen_wire_string b) as W. rewrite zlen_app in L. pose proof (zlen_nonneg (concat (wire_string <$> bs))). pose proof (zlen_nonneg b).
  cbn [blob_section]. rewrite zlen_app, (proj2 (Z.eqb_neq _ 0)) by lia.
  assert (get_string_at (wire_string b ++ concat (wire_string <$> bs)) [] = (Ok (b, concat (wire_string <$> bs)), [])) as E
    by (unfold get_string_at; rewrite parse_wire_string by lia; done).
  rewrite (bind_ok _ _ _ _ _ E). replace (negb (expected =? 0) && negb (zlen b =? expected)) with false.
  2:{ destruct Hb as [-> | ->]; [done|]. by rewrite Z.eqb_refl, andb_false_r. }
  rewrite cons_middle, app_assoc in O. assert (revoke_blob t b [] = (Ok (0, t ++ [b]), [])) as E2.
  { unfold revoke_blob. assert (alloc [] = (Ok true, [])) as EA by done. rewrite (bind_ok _ _ _ _ _ EA).
    rewrite (add_last _ (fun _ => True)); [done|]. by apply ordered_app in O as (O & _ & _). }
  rewrite (bind_ok _ _ _ _ _ E2). cbn [Z.eqb negb]. rewrite length_app in Lf. rewrite (IH ltac:(lia)); [by rewrite <- app_assoc|done|unfold zlen in *; lia].
Qed.

Section Blobs.
Context (type expected : Z) (get : ssh_krl -> list (list Z)) (set : list (list Z) -> ssh_krl -> ssh_krl).
Context (type_ok : 0 <= type < 256) (set_get : forall krl, set (get krl) krl = krl)
  (parsed : forall sect m krl, krl_section met type sect m krl = (t ← blob_section (S (length sect)) sect expected (get krl); mret (set t krl, m))).

Lemma put_blobs bs o1 o1' sect buf o2 buf' o2' : ordered blob_cmp (fun _ => True) bs ->
  Forall (fun b => expected = 0 \/ zlen b = expected) bs ->
  put_strings bs [] o1 = (Ok sect, o1') -> put_section type sect buf o2 = (Ok buf', o2') ->
  exists w, buf' = buf ++ w /\ forall krl, get krl = [] -> leads w krl (set bs krl).
Proof using type_ok set_get parsed.
  intros O F [-> _]%put_strings_ok. cbn [app]. unfold put_section. destruct (Z.eqb_spec (zlen (concat (wire_string <$> bs))) 0) as [E0|N0].
  - intros [= <- <-]. exists []. rewrite app_nil_r. split; [done|]. intros krl G. pose proof (zlen_wires bs). pose proof (zlen_nonneg bs).
    assert (bs = []) as -> by (apply nil_length_inv; unfold zlen in *; lia). rewrite <- G, set_get. apply leads_nil.
  - intros (m & o3 & [-> _]%put_at_ok & H)%bind_inv_ok. apply put_string_ok in H as [-> L]. rewrite <- app_assoc. eexists. split; [done|]. intros krl G.
    apply wire_fits in L. cbn [app]. rewrite wrap_small by lia. apply leads_section; [done..|]. intros m. rewrite parsed. rewrite zlen_wire_string in L.
    erewrite bind_ok; [|rewrite G; apply blobs_read; [done|lia|done|lia]]. done.
Qed.
End Blobs.

(** ** Authorities *)

Record gains krl krl' (l : list revoked_certs) : Prop := mk_gains {
  ga_ok : krl_ok krl';
  ga_serial : forall c x, serial_of krl' c x <-> serial_of krl c x \/
    exists rc, rc ∈ l /\ ca_eq c (rc_ca_key rc) = true /\ covers (revoked_serials rc) x;
  ga_id : forall c i, id_of krl' c i <-> id_of krl c i \/
    exists rc, rc ∈ l /\ ca_eq c (rc_ca_key rc) = true /\ i ∈ revoked_key_ids rc;
  ga_keys : revoked_keys krl' = revoked_keys krl;
  ga_sha1s : revoked_sha1s krl' = revoked_sha1s krl;
  ga_sha256s : revoked_sha256s krl' = revoked_sha256s krl;
  ga_head : (krl_version krl', generated_date krl', krl_flags krl', comment krl') =
    (krl_version krl, generated_date krl, krl_flags krl, comment krl)
}.

Lemma gains_nil krl : krl_ok krl -> gains krl krl [].
Proof. intros K. split; try done; intros c x; (split; [by left|]); intros [?|(rc & H & _)]; [done|by apply elem_of_nil in H|done|by apply elem_of_nil in H]. Qed.

Lemma gains_cons krl krl1 krl2 rc l : extends krl krl1 (rc_ca_key rc) (covers (revoked_serials rc)) (fun i => i ∈ revoked_key_ids rc) ->
  gains krl1 krl2 l -> gains krl krl2 (rc :: l).
Proof.
  intros [] []. split; [done|..|congruence|congruence|congruence|congruence].
  - intros c x. rewrite ga_serial0, ex_serial. setoid_rewrite elem_of_cons. split.
    + intros [[?|[? ?]]|(r & ? & ? & ?)]; [by left|right; exists rc; auto|right; exists r; auto].
    + intros [?|(r & [->|?] & ? & ?)]; [by left; left|by left; right|right; by exists r].
  - intros c x. rewrite ga_id0, ex_id. setoid_rewrite elem_of_cons. split.
    + intros [[?|[? ?]]|(r & ? & ? & ?)]; [by left|right; exists rc; auto|right; exists r; auto].
    + intros [?|(r & [->|?] & ? & ?)]; [by left; left|by left; right|right; by exists r].
Qed.

(** Every bitmap of such a list can be read. *)
Definition all_narrow (l : list revoked_certs) : Prop := Forall (fun rc => narrow (covers (revoked_serials rc))) l.

Definition refused (w : list Z) krl : Prop := forall m fuel, (length (w ++ m) < fuel)%nat ->
  krl_sections met fuel (w ++ m) krl [] = (Err SSH_ERR_BIGNUM_TOO_LARGE, []).

Lemma refused_app w1 w2 krl : refused w1 krl -> refused (w1 ++ w2) krl.
Proof. intros H m fuel L. rewrite <- app_assoc in *. by apply H. Qed.

Lemma refused_after w1 w2 krl krl' : leads w1 krl krl' -> refused w2 krl' -> refused (w1 ++ w2) krl.
Proof.
  intros H1 H2 m fuel L. rewrite <- app_assoc in *. destruct (H1 (w2 ++ m) fuel L) as (fuel1 & L1 & ->). exact (H2 m fuel1 L1).
Qed.

Lemma certs_written l : forall buf o buf' o', Forall rc_ok l -> put_certs l buf o = (Ok buf', o') ->
  exists w, buf' = buf ++ w /\ forall krl, krl_ok krl ->
    refused w krl /\ ~ all_narrow l \/ exists krl', gains krl krl' l /\ leads w krl krl'.
Proof.
  induction l as [|rc l IH]; intros buf o buf' o' F; cbn [put_certs].
  { intros [= <- <-]. exists []. rewrite app_nil_r. split; [done|]. intros krl K. right. exists krl. split; [by apply gains_nil|apply leads_nil]. }
  apply Forall_cons in F as [Ok F]. intros (sect & o1 & H1 & H)%bind_inv_ok.
  apply (generate_ok nids met) in H1 as (blob & w & Eb & -> & Lb & R); [|done]. cbn [app] in H.
  apply bind_inv_ok in H as (m1 & o2 & [-> _]%put_at_ok & H). apply bind_inv_ok in H as (m2 & o3 & [-> L]%put_string_ok & H).
  apply IH in H as (w2 & -> & H2); [|done]. set (sect := wire_string blob ++ wire_string [] ++ w) in *. apply wire_fits in L.
  exists ((KRL_SECTION_CERTIFICATES :: wire_string sect) ++ w2). split; [by rewrite <- !app_assoc|]. intros krl K.
  assert (forall m, krl_section met KRL_SECTION_CERTIFICATES sect m krl = (krl' ← parse_revoked_certs met sect krl; mret (krl', m))) as EP by done.
  destruct (parse_certs met blob w (rc_ca_key rc) _ _ krl K Eb Lb R) as [[E N]|(krl1 & X & E)].
  - left. split; [|intros A; by apply Forall_inv in A]. apply refused_app. intros m fuel Lf. destruct fuel as [|fuel]; [lia|]. cbn [app].
    rewrite section_step by done. rewrite EP, bind_bind. by rewrite (bind_err _ _ _ _ _ E).
  - assert (leads (KRL_SECTION_CERTIFICATES :: wire_string sect) krl krl1) as W.
    { apply leads_section; [done..|]. intros m. rewrite EP. by rewrite (bind_ok _ _ _ _ _ E). }
    destruct (H2 krl1) as [[N A]|(krl2 & G & W2)]; [apply X|left|right].
    + split; [by eapply refused_after|]. intros A'. by apply Forall_cons in A' as [_ A'].
    + exists krl2. split; [by eapply gains_cons|by eapply leads_app].
Qed.

(** ** Lists that check alike *)

Lemma check_alike krl krl' key : krl_ok krl -> krl_ok krl' -> whole_key_ok nids key ->
  revoked_keys krl' = revoked_keys krl -> revoked_sha1s krl' = revoked_sha1s krl -> revoked_sha256s krl' = revoked_sha256s krl ->
  (forall c x, serial_of krl' c x <-> serial_of krl c x) -> (forall c i, id_of krl' c i <-> id_of krl c i) ->
  ssh_krl_check_key nids krl' key = ssh_krl_check_key nids krl key.
Proof.
  intros K K' [O OC] E1 E2 E3 ES EI.
  assert (forall k, key_ok nids k -> is_key_revoked nids krl' k = is_key_revoked nids krl k) as EK.
  { intros k [_ C]. unfold is_key_revoked. rewrite E1, E2, E3. destruct (sshkey_is_cert nids k); [|done]. cbn [negb].
    destruct (C eq_refl) as (id & serial & sk & Ec & T & R). rewrite Ec. cbn [mbind option_bind].
    assert (forall ca, check_ca krl' ca k = check_ca krl ca k) as EC; [|by rewrite !EC].
    intros ca. destruct (check_ca_spec krl ca k id serial sk K Ec T R) as [[-> H]|[-> H]];
      destruct (check_ca_spec krl' ca k id serial sk K' Ec T R) as [[-> H']|[-> H']]; try done; rewrite ES, EI in H'; done. }
  unfold ssh_krl_check_key. rewrite EK by done. destruct (is_key_revoked nids krl key) as [r|]; [|done]. cbn [mbind option_bind].
  destruct (negb (r =? 0)); [done|]. destruct (sshkey_is_cert nids key) eqn:EC; [|done]. destruct O as [_ O].
  destruct (O EC) as (id & serial & sk & Ec & _ & _). rewrite Ec. cbn [mbind option_bind]. apply EK. by eapply OC.
Qed.

(** ** The whole list *)

(** The fields before the sections. *)
Definition header krl : list Z :=
  KRL_MAGIC ++ POKE_U32 KRL_FORMAT_VERSION ++ POKE_U64 (krl_version krl) ++ POKE_U64 (generated_date krl) ++
  POKE_U64 (krl_flags krl) ++ wire_string [] ++ wire_string (default [] (comment krl)).

(** The list before any section is read. *)
Definition headed krl : ssh_krl :=
  mk_krl (krl_version krl) (generated_date krl) (krl_flags krl) (Some (default [] (comment krl))) [] [] [] [].

Lemma headed_ok krl : krl_ok krl -> krl_ok (headed krl).
Proof. intros K. split; cbn; try done; try apply K; repeat split; try done; constructor. Qed.

Lemma header_read krl w : krl_ok krl -> zlen (wire_string (default [] (comment krl))) <= SSHBUF_SIZE_MAX ->
  ssh_krl_from_blob met (header krl ++ w) [] = krl_sections met (S (length w)) w (headed krl) [].
Proof.
  intros K L. destruct (ok_numbers _ K) as (N1 & N2 & N3). unfold header. rewrite <- !app_assoc. unfold ssh_krl_from_blob.
  change (take 8 (KRL_MAGIC ++ ?x)) with KRL_MAGIC. change (drop 8 (KRL_MAGIC ++ ?x)) with x. rewrite bool_decide_eq_true_2 by done. cbn [negb].
  assert (ssh_krl_init [] = (Ok (Some (mk_krl 0 0 0 None [] [] [] [])), [])) as E by done. rewrite (bind_ok _ _ _ _ _ E).
  assert (alloc [] = (Ok true, [])) as EA by done. rewrite (bind_ok _ _ _ _ _ EA). cbn [negb].
  assert (forall rest, get_u32_at (POKE_U32 KRL_FORMAT_VERSION ++ rest) [] = (Ok (KRL_FORMAT_VERSION, rest), [])) as E1
    by (intros rest; unfold get_u32_at; by rewrite (bind_ok _ _ _ _ _ (take_at_app (POKE_U32 KRL_FORMAT_VERSION) rest []))).
  rewrite (bind_ok _ _ _ _ _ (E1 _)), Z.eqb_refl. cbn [negb].
  rewrite (bind_ok _ _ _ _ _ (u64_read _ _ N1)), (bind_ok _ _ _ _ _ (u64_read _ _ N2)), (bind_ok _ _ _ _ _ (u64_read _ _ N3)).
  assert (forall rest, skip_string_at (wire_string [] ++ rest) [] = (Ok rest, [])) as E2.
  { intros rest. unfold skip_string_at, get_string_direct_at. by rewrite parse_wire_string. }
  rewrite (bind_ok _ _ _ _ _ (E2 _)). rewrite (bind_ok _ _ _ _ _ (get_cstring_wire true _ w (text_cstr _ (ok_comment _ K)) L)). done.
Qed.

Definition dated (now : Z) krl : ssh_krl := if generated_date krl =? 0 then set_date (u64 now) krl else krl.

Lemma dated_ok now krl : krl_ok krl -> krl_ok (dated now krl).
Proof.
  intros K. unfold dated. destruct (_ =? 0); [|done]. destruct K as [(? & ? & ?) ? ? ? ? ? ?]. split; try done. cbn. pose proof (wrap_range 64 now). lia.
Qed.

(** What is written: the header and the sections, and what reading the
    sections gives. *)
Lemma to_blob_written now krl oom krl1 b oom' : krl_ok krl -> ssh_krl_to_blob now krl [] oom = (Ok (krl1, b), oom') ->
  krl1 = dated now krl /\ zlen (wire_string (default [] (comment krl))) <= SSHBUF_SIZE_MAX /\
  exists w, b = header krl1 ++ w /\
    (refused w (headed krl1) /\ ~ all_narrow (krl_certs krl) \/
     exists krl', gains (headed krl1) krl' (krl_certs krl) /\
       leads w (headed krl1) (set_sha256s (revoked_sha256s krl) (set_sha1s (revoked_sha1s krl) (set_keys (revoked_keys krl) krl')))).
Proof.
  intros K H. unfold ssh_krl_to_blob in H. fold (dated now krl) in H. pose proof (dated_ok now krl K) as K1. set (k1 := dated now krl) in *.
  assert (comment k1 = comment krl /\ krl_certs k1 = krl_certs krl /\ revoked_keys k1 = revoked_keys krl /\ revoked_sha1s k1 = revoked_sha1s krl /\
    revoked_sha256s k1 = revoked_sha256s krl) as (<- & <- & <- & <- & <-) by (unfold k1, dated; by destruct (_ =? 0)).
  apply bind_inv_ok in H as (ok & o1 & _ & H). destruct ok; [|done]. cbn [negb] in H.
  do 5 (apply bind_inv_ok in H as (? & ? & [-> _]%put_at_ok & H)). apply bind_inv_ok in H as (? & ? & [-> _]%put_string_ok & H).
  apply bind_inv_ok in H as (? & ? & [-> L]%put_string_ok & H). apply bind_inv_ok in H as (? & ? & [w0 [-> W]]%certs_written & H); [|apply K1].
  apply bind_inv_ok in H as (s1 & ? & S1 & H). apply bind_inv_ok in H as (b1 & ? & B1 & H).
  apply bind_inv_ok in H as (s2 & ? & S2 & H). apply bind_inv_ok in H as (b2 & ? & B2 & H).
  apply bind_inv_ok in H as (s3 & ? & S3 & H). apply bind_inv_ok in H as (b3 & ? & B3 & H). injection H as <- <- <-.
  split; [done|]. apply wire_fits in L. split; [done|].
  assert (Forall (fun b => 0 = 0 \/ zlen b = 0) (revoked_keys k1)) as F0 by (apply Forall_true; by left).
  apply (put_blobs KRL_SECTION_EXPLICIT_KEY 0 revoked_keys set_keys ltac:(done) (fun k => proj1 (set_same k)) ltac:(done) _ _ _ _ _ _ _ _ (ok_keys _ K1)
    F0 S1) in B1 as (w1 & -> & W1).
  assert (forall (l : list (list Z)) n, Forall (fun h => zlen h = n) l -> Forall (fun h => n = 0 \/ zlen h = n) l) as FL
    by (intros l n F; eapply Forall_impl; [exact F|by right]).
  apply (put_blobs KRL_SECTION_FINGERPRINT_SHA1 20 revoked_sha1s set_sha1s ltac:(done) (fun k => proj1 (proj2 (set_same k))) ltac:(done) _ _ _ _ _ _ _ _ (proj1 (ok_sha1s _ K1))
    (FL _ _ (proj2 (ok_sha1s _ K1))) S2) in B2 as (w2 & -> & W2).
  apply (put_blobs KRL_SECTION_FINGERPRINT_SHA256 32 revoked_sha256s set_sha256s ltac:(done) (fun k => proj2 (proj2 (set_same k))) ltac:(done) _ _ _ _ _ _ _ _ (proj1 (ok_sha256s _ K1))
    (FL _ _ (proj2 (ok_sha256s _ K1))) S3) in B3 as (w3 & -> & W3).
  exists (w0 ++ w1 ++ w2 ++ w3). split; [unfold header; by rewrite <- !app_assoc|].
  destruct (W (headed k1) (headed_ok _ K1)) as [[R N]|(krl' & G & W0)]; [left; split; [by apply refused_app|done]|right].
  exists krl'. split; [done|]. eapply leads_app; [exact W0|]. eapply leads_app; [apply W1, G|]. eapply leads_app; [apply W2, G|]. apply W3, G.
Qed.

(** C8: a list that was written is read back as a list that checks every key
    as the first one does, with its version, date, flags and comment, or it is
    refused because a bitmap in it is too large; and the latter cannot happen
    if the numbers revoked for an authority are always less than 16384 apart. *)
Theorem krl_roundtrip now krl oom krl1 b oom' : krl_ok krl -> ssh_krl_to_blob now krl [] oom = (Ok (krl1, b), oom') ->
  ssh_krl_from_blob met b [] = (Err SSH_ERR_BIGNUM_TOO_LARGE, []) /\ ~ all_narrow (krl_certs krl) \/
  exists krl', ssh_krl_from_blob met b [] = (Ok krl', []) /\ krl_ok krl' /\
    (krl_version krl', krl_flags krl', comment krl') = (krl_version krl, krl_flags krl, Some (default [] (comment krl))) /\
    generated_date krl' = (if generated_date krl =? 0 then u64 now else generated_date krl) /\
    forall key, whole_key_ok nids key -> ssh_krl_check_key nids krl' key = ssh_krl_check_key nids krl key.
Proof.
  intros K H. destruct (to_blob_written now krl oom krl1 b oom' K H) as (-> & L & w & -> & C). clear H.
  assert (comment (dated now krl) = comment krl) as Ec by (unfold dated; by destruct (_ =? 0)).
  rewrite header_read by (by apply dated_ok || rewrite Ec).
  destruct C as [[R N]|(krl' & G & W)]; [left|right].
  - split; [|done]. specialize (R [] (S (length w))). rewrite app_nil_r in R. apply R. lia.
  - destruct (W [] (S (length w))) as (fuel & Lf & E); rewrite app_nil_r in *; [lia|]. rewrite E. destruct fuel; [cbn in Lf; lia|].
    eexists. split; [reflexivity|]. destruct G as [GK GS GI _ _ _ GH]. cbn in GH. injection GH as Ev Ed Ef Ecm.
    set (k := set_sha256s _ _). assert (krl_ok k) as Kk by (destruct GK, K; by split).
    split_and!; [done|unfold dated in *; destruct (_ =? 0); cbn in *; congruence..|]. intros key Hk. apply check_alike; try done.
    + intros c x. etrans; [apply GS|]. split; [|by right]. intros [(rc & Hr & _)|?]; [by apply elem_of_nil in Hr|done].
    + intros c x. etrans; [apply GI|]. split; [|by right]. intros [(rc & Hr & _)|?]; [by apply elem_of_nil in Hr|done].
Qed.
End Round.

(** ** A list that cannot be read *)

Section Unreadable.
Context (nids : curve_nids) (met : list revoked_serial -> revoked_serial -> nat) {KO : KeyOps} {KK : KrlKeys}.

(** 236 certificates of any authority, with serial numbers 70 apart. *)
Definition spread_out : list revocation := (fun i => R_serials None (70 * i + 1) (70 * i + 1)) <$> seqZ 0 236.

(** What was made of the list is written and then refused. *)
Definition written_then_refused (made : res (Z * ssh_krl) * list bool) : bool :=
  match made with
  | (Ok (r, krl), []) =>
      match ssh_krl_to_blob 1 krl [] [] with
      | (Ok (_, b), []) => (r =? 0) && match ssh_krl_from_blob met b [] with (Err e, []) => e =? SSH_ERR_BIGNUM_TOO_LARGE | _ => false end
      | _ => false
      end
  | _ => false
  end.

Lemma refused_cases made : written_then_refused made = true -> exists krl krl1 b, made = (Ok (0, krl), []) /\
  ssh_krl_to_blob 1 krl [] [] = (Ok (krl1, b), []) /\ ssh_krl_from_blob met b [] = (Err SSH_ERR_BIGNUM_TOO_LARGE, []).
Proof.
  unfold written_then_refused. destruct made as [[[r krl]|e|] [|? ?]]; try discriminate.
  destruct (ssh_krl_to_blob 1 krl [] []) as [[[krl1 b]|e|] [|? ?]] eqn:E2; try discriminate.
  intros [Hr H]%andb_true_iff. destruct (ssh_krl_from_blob met b []) as [[?|e|] [|? ?]] eqn:E3; try discriminate H.
  apply Z.eqb_eq in Hr as ->, H as ->. by exists krl, krl1, b.
Qed.

Lemma spread_out_refused : written_then_refused (revoke_all nids met spread_out init_krl []) = true.
Proof. vm_compute. reflexivity. Qed.

Lemma spread_out_ok : Forall revocation_ok spread_out.
Proof. unfold spread_out. apply Forall_fmap, Forall_forall. intros i Hi%elem_of_seqZ. cbn. lia. Qed.

End Unreadable.

Module Demo.
Import KrlThms.Demo.

(** A list with a range, single numbers and an ID, a key and digests. *)
Definition some_list : ssh_krl :=
  mk_krl 7 0 0 (Some (str "demo")) [[5]; [5; 1]] [replicate 20 1] []
    [mk_rc (Some [7]) [mk_rs 3 9; mk_rs 11 12; mk_rs 500 2000] [str "bob"; str "joe"]; mk_rc None [mk_rs 5 5] []].

Lemma some_list_ok : krl_ok some_list.
Proof.
  split; try done; repeat split; try done; repeat constructor; unfold gap_before; cbn; try lia; try done.
Qed.

(** It is written, and read. *)
Definition survives (krl : ssh_krl) : bool :=
  match ssh_krl_to_blob 1 krl [] [] with
  | (Ok (_, b), _) => match ssh_krl_from_blob met b [] with (Ok _, _) => true | _ => false end
  | _ => false
  end.

Lemma krl_roundtrip_witness : exists krl1 b oom' krl',
  ssh_krl_to_blob 1 some_list [] [] = (Ok (krl1, b), oom') /\ ssh_krl_from_blob met b [] = (Ok krl', []) /\
  (krl_version krl', krl_flags krl', comment krl') = (7, 0, Some (str "demo")) /\ generated_date krl' = 1 /\
  ssh_krl_check_key nids krl' [1; 11; 7] = Some SSH_ERR_KEY_REVOKED.
Proof.
  assert (survives some_list = true) as V by (vm_compute; reflexivity). unfold survives in V.
  destruct (ssh_krl_to_blob 1 some_list [] []) as [[[krl1 b]|e|] oom'] eqn:W; [|discriminate V..].
  destruct (krl_roundtrip nids met 1 some_list [] krl1 b oom' some_list_ok W) as [[H _]|(krl' & E & _ & Eh & Ed & C)];
    [rewrite H in V; discriminate V|].
  exists krl1, b, oom', krl'. split; [reflexivity|]. split; [exact E|]. split; [exact Eh|]. split; [exact Ed|].
  rewrite C; [vm_compute; reflexivity|]. split.
  - split; [eexists; reflexivity|]. intros _. exists (str "joe"), 11, [7]. split_and!; [reflexivity|by repeat constructor|done..].
  - intros id serial sk _ [= <- <- <-]. split; [eexists; reflexivity|done].
Defined.
End Demo.
